(* ===== verification/_CoqProject ===== *)
-Q . S2P
Prelude.v
ByteQueue.v
CircularBuffer.v
UdpPiece.v
UdpPieceProofs.v
UdpReassembly.v
UdpSession.v
UdpTheorems.v
RbHeap.v
RbTree.v
RbInsert.v
RbDelete.v
RbQuery.v
EventTimer.v
TimerTheorems.v
NgxReactor.v
NgxServer.v
NgxTheorems.v
NgxCodec.v
CDouble.v
CDoubleRound.v
CJson.v
CJsonSafe.v
CJsonPrint.v
CJsonRender.v
CJsonRoundtrip.v
CJsonOps.v
CJsonCompare.v
CJsonClone.v
CJsonMinify.v
CJsonTree.v
CJsonLinks.v
CJsonForest.v
CJsonEdit.v
NtyReactor.v
NtyTheorems.v
CJsonShape.v
BloomFilter.v
BloomTheorems.v
CasQueue.v
CasTheorems.v
Huffman.v
HuffmanTheorems.v
HuffmanOptimal.v
TinyText.v
TinyClean.v
TinyXml.v
TinyDocs.v
TinyPrint.v
TinySpans.v
TinyParse.v
TinyRoundtrip.v
TinySafety.v
TinyTheorems.v
TinyDom.v
TinyLinks.v
TinyEdit.v
TinyDelete.v
TinyClone.v
TinyClear.v
TinyDomTheorems.v
TinyNumbers.v
Http.v
HttpTheorems.v
