(* ===== verification/Prelude.v ===== *)
(** * Prelude: the C fragment the components are written in, and a guide to the development

    The repository collects independent example programs.  Those with logic of their own are
    modelled here, one group of files each; this file holds what the groups share: outcomes of
    computations, machine integers, bounds-checked blocks, byte order, lemmas and hints.


    * The parts of the program, and the files that model them

    [src/udp_piece]: messages are cut into numbered frames, sent as datagrams and put back
    together through a ring buffer.  ByteQueue.v is the interface of a bounded byte queue (its
    operations and their laws), CircularBuffer.v circular_buffer.c and the proof that it
    implements the interface, UdpPiece.v udp-piece.c with the loops of the echo client and
    server, over any queue.  UdpPieceProofs.v, UdpReassembly.v and UdpSession.v hold the
    invariant of the reassembler and the composition of client and server, UdpTheorems.v the
    properties.

    [src/heartbeat]: a server that closes silent connections.  RbHeap.v is ngx_rbtree.c on a
    heap of nodes; RbTree.v, RbInsert.v, RbDelete.v and RbQuery.v prove its operations against
    sorted lists and the red-black invariant.  EventTimer.v is ngx_event_timer.c and
    ngx_times.c (the timers are nodes of one such tree) with the state of the whole program,
    TimerTheorems.v its properties.  NgxReactor.v is ngx_reactor.c, ngx_server.c and
    ngx_client.c, whose handlers the reactor and the timers call; NgxServer.v and
    NgxTheorems.v follow a connection through them.  NgxCodec.v is ngx_filed.c and
    ngx_binary_protocol.c.

    [src/server-client]: NtyReactor.v is reactor.c, an echo server over epoll, NtyTheorems.v
    what it does for a connection and for its table of events.

    [src/cJSON]: CDouble.v models the conversions of doubles the code gets from the C library,
    CDoubleRound.v proves that they round to nearest and that 17 digits keep a double.
    CJson.v is the parser of cJSON.c, CJsonSafe.v proves it within bounds and CJsonShape.v what
    items it builds; CJsonPrint.v the printer, CJsonRender.v the text it must print and the
    refinement, CJsonRoundtrip.v parsing what was printed.  CJsonOps.v has the functions that
    make, copy, read and compare items as values, CJsonCompare.v and CJsonClone.v their
    specifications.  CJsonMinify.v is cJSON_Minify.  CJsonTree.v is the linked nodes
    in memory and the functions that edit them; CJsonLinks.v, CJsonForest.v and CJsonEdit.v
    relate them to the values of CJson.v.

    [src/BloomFilter]: BloomFilter.v is bloomfilter.h, BloomTheorems.v its abstract filter.
    [src/cas_queue]: CasQueue.v is queue_cas.h as interleaved accesses to shared memory,
    CasTheorems.v the first-in first-out queue it refines.  [src/HuffmanDecompression]:
    Huffman.v is HuffmanTree.hpp and FileCompress.hpp over an interface of priority queues,
    HuffmanTheorems.v the round trip and an instance of the interface, HuffmanOptimal.v that no
    prefix code gives shorter data.

    [src/syncHttp_and_asyncHttp]: Http.v is sync_http.c and async_http.c, HttpTheorems.v what
    they do with the answers to their requests.

    [src/tinyxml2]: TinyText.v is the text layer of tinyxml2.cpp, strings that lie in the
    buffer of a document and are cleaned up in place when they are read; TinyClean.v relates
    it to functions on lists.  TinyXml.v has the documents, their parser and their printer;
    what the missing header tinyxml2.h declares is the class [TinyxmlH].  TinyDocs.v says when
    a document holds a list of XML values and TinyPrint.v what is printed for them, as a
    grammar; TinySpans.v, TinyParse.v and TinyRoundtrip.v prove that the parser reads it, and
    TinySafety.v that it is safe on any text.  TinyTheorems.v has the properties.
    TinyDom.v has the nodes in memory, linked by pointers, and the functions that create,
    insert, move, delete, copy, compare, look up and print them; the functions of tinyxml2.h
    they call are the class [TinyxmlDomH].  TinyLinks.v relates the pointers to a forest and
    proves [Unlink]; TinyEdit.v does the insertions, TinyDelete.v deletion, TinyClone.v values,
    copies, printing and walks, TinyClear.v clearing and copying documents.  TinyDomTheorems.v
    has the properties and instances of the classes.  TinyNumbers.v has integers and booleans
    as texts and attributes.


    * How the code is read

    A definition has the name of the function it models, an auxiliary one the part of it its
    comment names.  A computation is a [result]: [Ok], or [Ub] where C leaves the behaviour
    undefined, so that a theorem that ends in [Ok] is one of memory safety too.  Integers are
    in [Z], wrapped by [u8], [u32], [u64] and [s32] where the code's types do; blocks of memory
    are lists with bounds-checked reads [b.[i]] and writes [b.[i := v]].  Structs that point to
    each other (tree nodes, items, queue nodes, events) live in a finite map or a block from
    addresses; structs that do not are records.  Allocation may fail where the code tests it,
    as an oracle says; fresh memory holds unspecified bytes.  The operating system is a
    parameter: the answer of each system call, or the datagrams and bytes received.  Machine:
    little-endian, 32-bit [int], 64-bit pointers.


    * What the theorems show

    Round trips: parsing what cJSON or tinyxml2 prints, for tinyxml2 from a parsed document
    or from one built in memory, for cJSON up to the precision its printer settles for;
    compressing and uncompressing a file; sending a message through the echo client and
    server; saving and loading a Bloom filter; the encoding of message fields. Refinements
    of abstract specifications: sequences of edits of item trees refine edits of values;
    programs that edit documents refine edits of a forest; the print buffer refines a
    function to text; the timer tree refines a sorted list; the ring buffer, and the
    lock-free queue under every interleaving of one producer and one consumer, refine
    first-in first-out queues; the Bloom filter refines the list of its keys. Equivalences:
    cJSON_Compare decides equality of values; minifying formatted text gives the unformatted
    text. Optimality: no prefix code makes a compressed file shorter. Types and invariants:
    the shape of parsed items; the timers and events of the heartbeat server through an
    expiry round; the event table of the echo server through any number of iterations; the
    pending requests of the asynchronous HTTP client. Where one of these three leaves its
    buffers or its table, the behaviour is undefined, and the theorem says which inputs do
    it: nothing is assumed of the lengths [recv] returns within what it is asked for, of the
    size of descriptors, or of the errors of [epoll_wait]. Safety, termination and bounds:
    the parsers on arbitrary text; the depth limit of tinyxml2; deletion frees every node
    once; reassembly of arbitrary datagrams returns; the length cJSON_PrintPreallocated
    needs; the depth of the timer tree; no false negatives. Liveness: a request to the echo
    server is answered within as many iterations as the kernel takes to report it, unless an
    error of [epoll_wait] ends the loop or a buffer or the table overflows; with one
    producer and one consumer every call of the lock-free queue ends after six steps of its
    thread. Errors: the theorems of that kind exhibit inputs on which the code misbehaves;
    the manifest lists them among its findings.


    * Bounds and fuel

    Recursion is structural wherever the code's loop is bounded by a count or a list.  Where
    it is not, fuel is an argument, and a theorem shows that what the caller passes suffices:
    the parser's loops get the length of the text and its recursion the nesting limit plus
    one ([cJSON_Parse_safe]: never [OutOfFuel]); the reassemblers get the size of their input
    ([merge_terminates], [merge_ex_returns]); walks in trees get the number of nodes or the
    height; an expiry round needs one more than the number of timers due
    ([expire_fires_due]); deletion of a tree and the walks over its chains get the number of
    nodes; [merge_loop] of Huffman.v gets the number of characters plus one; [Uncompress]
    needs more than the length of the file ([huffman_roundtrip] holds from there on); the
    loops of tinyxml2, and the nesting of its parser, get one more than the length of the
    buffer ([Parse_safe]: never [OutOfFuel]); deletion, copying, printing and walks of linked
    nodes get one more than the number of nodes in memory, [dom_fuel] ([edits_refine_forest],
    [built_document_roundtrip] and [child_elements] end in [Ok]).  Event loops, which do not end, are run for a number of iterations that is universally
    quantified; the threads of the lock-free queue run for any schedule.


    * Not modelled

    System calls, sockets, files and printing themselves; circular_buffer_deinit and the
    other functions that only free; set-up code that only calls the system
    (init_server, connect).  ngx_message.c and two functions of ngx_binary_protocol.c, which
    are not valid C or use values as addresses.  Demonstrations and load generators, and
    programs whose work is done by a library
    (iconv, openssl, zlib, ZeroMQ, protobuf, jsoncpp, muduo, mysql) and code in other
    languages.  Of tinyxml2.cpp the conversions of floating-point numbers, the statistics of the
    memory pools and the text of error messages.  Memory weaker than sequentially consistent
    is not modelled, nor items of cJSON that are linked in cycles or used after being freed.


    * Plan

    Still open: the conversions of floating-point numbers of tinyxml2.cpp and the load
    generator of [src/server-client]. *)

From stdpp Require Export base list numbers gmap.

#[local] Open Scope Z_scope.

(** ** Outcome of a C computation

    [Ok a] : the code runs to completion with value [a].
    [Ub]   : the code performs an operation C leaves undefined (an access outside a
             block, a dereference of [NULL], a signed overflow).
    [OutOfFuel] : only produced by loops whose recursion is not structural; every
             such loop has a theorem that the fuel used by its caller is enough. *)
Inductive result (A : Type) : Type :=
  | Ok (a : A)
  | Ub
  | OutOfFuel.
Arguments Ok {A} a.
Arguments Ub {A}.
Arguments OutOfFuel {A}.

#[export] Instance result_ret : MRet result := λ A a, Ok a.
#[export] Instance result_bind : MBind result := λ A B f x,
  match x with Ok a => f a | Ub => Ub | OutOfFuel => OutOfFuel end.

#[export] Instance result_eq_dec {A} `{EqDecision A} : EqDecision (result A).
Proof. solve_decision. Defined.

(** A pointer dereference or table access that fails is undefined behaviour. *)
Definition of_opt {A} (o : option A) : result A :=
  match o with Some a => Ok a | None => Ub end.

Lemma bind_Ok {A B} (x : result A) (f : A → result B) b :
  x ≫= f = Ok b ↔ ∃ a, x = Ok a ∧ f a = Ok b.
Proof. destruct x; simpl; naive_solver. Qed.

Lemma ok_bind {A B} (a : A) (f : A → result B) : Ok a ≫= f = f a.
Proof. done. Qed.

Lemma of_opt_Ok {A} (o : option A) a : of_opt o = Ok a ↔ o = Some a.
Proof. destruct o; simpl; naive_solver. Qed.

(** ** Machine integers *)
Definition INT_MAX : Z := 2147483647.
Definition INT_MIN : Z := -2147483648.

(** Result of a signed [int] operation: overflow is undefined. *)
Definition ck_int (z : Z) : result Z :=
  if bool_decide (INT_MIN ≤ z ≤ INT_MAX) then Ok z else Ub.

Definition u8 (z : Z) : Z := z mod 2 ^ 8.
Definition u16 (z : Z) : Z := z mod 2 ^ 16.
Definition u32 (z : Z) : Z := z mod 2 ^ 32.
Definition u64 (z : Z) : Z := z mod 2 ^ 64.
(** Two's complement reading of a 64-bit pattern. *)
Definition s64 (z : Z) : Z :=
  if bool_decide (u64 z < 2 ^ 63) then u64 z else u64 z - 2 ^ 64.

(** Two's complement reading of a 32-bit pattern. *)
Definition s32 (z : Z) : Z :=
  if bool_decide (u32 z < 2 ^ 31) then u32 z else u32 z - 2 ^ 32.

Definition is_byte (z : Z) : Prop := 0 ≤ z < 256.
#[export] Instance is_byte_dec z : Decision (is_byte z).
Proof. unfold is_byte. apply _. Defined.

Lemma ck_int_Ok z : INT_MIN ≤ z ≤ INT_MAX → ck_int z = Ok z.
Proof. intros H. unfold ck_int. by rewrite bool_decide_eq_true_2. Qed.

Lemma ck_int_inv z a : ck_int z = Ok a → a = z ∧ INT_MIN ≤ z ≤ INT_MAX.
Proof. unfold ck_int. case_bool_decide; naive_solver. Qed.

(** Sixteen bits as two bytes, most significant first, as the frame headers use them. *)
Lemma be16_split z : 0 ≤ z < 65536 →
  Z.shiftl (u8 (Z.shiftr z 8)) 8 + u8 (Z.land z 255) = z.
Proof.
  intros Hz. rewrite Z.shiftr_div_pow2, Z.shiftl_mul_pow2 by lia.
  change 255 with (Z.ones 8). rewrite Z.land_ones by lia. unfold u8.
  rewrite (Z.mod_small (z / 2 ^ 8)) by (split; [apply Z.div_pos|apply Z.div_lt_upper_bound]; lia).
  rewrite Z.mod_mod by lia. pose proof (Z.div_mod z (2 ^ 8)). lia.
Qed.

(** A disjunction of a shifted number and a small one is a sum. *)
Lemma lor_shift hi lo n : 0 ≤ n → 0 ≤ lo < 2 ^ n → Z.lor (Z.shiftl hi n) lo = hi * 2 ^ n + lo.
Proof.
  intros Hn Hlo. assert (Z.land (Z.shiftl hi n) lo = 0) as H0.
  { apply Z.bits_inj'. intros k Hk. rewrite Z.land_spec, Z.bits_0.
    destruct (decide (k < n)); [by rewrite Z.shiftl_spec_low|].
    rewrite <- (Z.mod_small lo (2 ^ n)), Z.mod_pow2_bits_high by lia. apply andb_false_r. }
  by rewrite <- Z.lxor_lor, <- Z.add_nocarry_lxor, Z.shiftl_mul_pow2 by done.
Qed.

(** Testing a bit with a mask. *)
Lemma land_bit c j : 0 ≤ j → (Z.land c (Z.shiftl 1 j) =? 0) = negb (Z.testbit c j).
Proof.
  intros Hj. rewrite Z.shiftl_1_l. destruct (Z.testbit c j) eqn:E; cbn [negb].
  - apply Z.eqb_neq. intros H0. assert (Z.testbit (Z.land c (2 ^ j)) j = false) as H1 by (by rewrite H0, Z.bits_0).
    rewrite Z.land_spec, E, Z.pow2_bits_true in H1 by lia. done.
  - apply Z.eqb_eq, Z.bits_inj'. intros i Hi. rewrite Z.land_spec, Z.bits_0. destruct (decide (i = j)) as [->|]; [by rewrite E|].
    rewrite Z.pow2_bits_false by lia. apply andb_false_r.
Qed.

(** ** Integers in memory, least significant byte first *)
Fixpoint le_bytes (n : nat) (z : Z) : list Z :=
  match n with O => [] | S n => z mod 256 :: le_bytes n (z / 256) end.

Fixpoint le_val (bs : list Z) : Z :=
  match bs with [] => 0 | b :: bs => b + 256 * le_val bs end.

Lemma length_le_bytes n : ∀ z, length (le_bytes n z) = n.
Proof. induction n; intros z; simpl; [done|]. by f_equal. Qed.

Lemma le_val_bytes n : ∀ z, le_val (le_bytes n z) = z mod 256 ^ Z.of_nat n.
Proof.
  induction n as [|n IH]; intros z; [by rewrite Z.mod_1_r|].
  cbn [le_bytes le_val]. rewrite IH, Nat2Z.inj_succ, Z.pow_succ_r by lia.
  rewrite Z.rem_mul_r by lia. lia.
Qed.

Lemma le_bytes_bytes n : ∀ z, Forall is_byte (le_bytes n z).
Proof. induction n; intros z; simpl; constructor; [|done]. unfold is_byte. apply Z.mod_pos_bound. lia. Qed.

Lemma le_bytes_val bs : Forall is_byte bs → le_bytes (length bs) (le_val bs) = bs.
Proof.
  induction 1 as [|b bs Hb _ IH]; [done|]. cbn [length le_bytes le_val]. unfold is_byte in Hb.
  replace ((b + 256 * le_val bs) / 256) with (le_val bs) by (apply Z.div_unique with b; lia).
  replace ((b + 256 * le_val bs) mod 256) with b by (apply Z.mod_unique with (le_val bs); lia).
  by rewrite IH.
Qed.

Lemma le_bytes_mod n : ∀ z m, (n ≤ m)%nat → le_bytes n (z mod 256 ^ Z.of_nat m) = le_bytes n z.
Proof.
  induction n as [|n IH]; intros z m Hm; [done|]. destruct m as [|m]; [lia|]. cbn [le_bytes].
  rewrite Nat2Z.inj_succ, Z.pow_succ_r, Z.rem_mul_r by lia. f_equal.
  - rewrite Z.mul_comm, Z_mod_plus_full. apply Z.mod_mod. lia.
  - rewrite <- (IH (z / 256) m) by lia. f_equal. symmetry.
    apply Z.div_unique with (z mod 256); [left; apply Z.mod_pos_bound; lia|lia].
Qed.

Lemma le_bytes_app n m : ∀ z, le_bytes (n + m) z = le_bytes n z ++ le_bytes m (z / 256 ^ Z.of_nat n).
Proof.
  induction n as [|n IH]; intros z; cbn [le_bytes plus app]; [by rewrite Z.div_1_r|].
  rewrite IH, Nat2Z.inj_succ, Z.pow_succ_r, Z.div_div by lia. done.
Qed.

(** ** Memory blocks: lists of bytes with bounds-checked access *)
Definition blk_load (b : list Z) (i : Z) : result Z :=
  if bool_decide (0 ≤ i) then of_opt (b !! Z.to_nat i) else Ub.

Definition blk_store (b : list Z) (i v : Z) : result (list Z) :=
  if bool_decide (0 ≤ i < Z.of_nat (length b)) then Ok (<[Z.to_nat i := v]> b) else Ub.

Definition memread (src : list Z) (off n : Z) : result (list Z) :=
  if bool_decide (0 ≤ off ∧ 0 ≤ n ∧ off + n ≤ Z.of_nat (length src))
  then Ok (take (Z.to_nat n) (drop (Z.to_nat off) src)) else Ub.

Definition memwrite (dst : list Z) (off : Z) (bs : list Z) : result (list Z) :=
  if bool_decide (0 ≤ off ∧ off + Z.of_nat (length bs) ≤ Z.of_nat (length dst))
  then Ok (take (Z.to_nat off) dst ++ bs ++ drop (Z.to_nat off + length bs) dst)
  else Ub.

(** [b[i]] and [b[i] = v] of the code, on a block. *)
Declare Scope c_scope.
#[global] Open Scope c_scope.
Notation "b .[ i ]" := (blk_load b i) (at level 2, left associativity, format "b .[ i ]") : c_scope.
Notation "b .[ i := v ]" := (blk_store b i v) (at level 2, left associativity, format "b .[ i  :=  v ]") : c_scope.

(** [memcpy(dst + doff, src + soff, n)]; a negative [n] becomes a huge [size_t]. *)
Definition memcpy (dst : list Z) (doff : Z) (src : list Z) (soff n : Z) : result (list Z) :=
  bs ← memread src soff n; memwrite dst doff bs.

Lemma blk_load_Ok b i v :
  0 ≤ i → b !! Z.to_nat i = Some v → blk_load b i = Ok v.
Proof. intros Hi Hb. unfold blk_load. rewrite bool_decide_eq_true_2, Hb by done. done. Qed.

Lemma memread_Ok src off n :
  0 ≤ off → 0 ≤ n → off + n ≤ Z.of_nat (length src) →
  memread src off n = Ok (take (Z.to_nat n) (drop (Z.to_nat off) src)).
Proof. intros. unfold memread. by rewrite bool_decide_eq_true_2. Qed.

Lemma memwrite_Ok dst off bs :
  0 ≤ off → off + Z.of_nat (length bs) ≤ Z.of_nat (length dst) →
  memwrite dst off bs =
    Ok (take (Z.to_nat off) dst ++ bs ++ drop (Z.to_nat off + length bs) dst).
Proof. intros. unfold memwrite. by rewrite bool_decide_eq_true_2. Qed.

(** What a write stores can be read back. *)
Lemma memread_memwrite dst off bs d : memwrite dst off bs = Ok d →
  memread d off (Z.of_nat (length bs)) = Ok bs ∧ length d = length dst.
Proof.
  unfold memwrite. case_bool_decide as H; [|done]. intros [= <-]. split.
  - rewrite memread_Ok by (rewrite ?length_app, ?length_take, ?length_drop; lia).
    rewrite Nat2Z.id, drop_app_ge, length_take by (rewrite length_take; lia).
    replace (Z.to_nat off - _)%nat with 0%nat by lia.
    rewrite drop_0, take_app_le, take_ge by lia. done.
  - rewrite !length_app, length_take, length_drop. lia.
Qed.

(** The bytes of a block after a copy, position by position. *)
Lemma splice_lookup {A} (d bs : list A) (off i : nat) :
  (off + length bs ≤ length d)%nat →
  (take off d ++ bs ++ drop (off + length bs) d) !! i =
    if decide (off ≤ i < off + length bs)%nat then bs !! (i - off)%nat else d !! i.
Proof.
  intros Hlen. case_decide as Hi.
  - rewrite lookup_app_r, length_take_le, lookup_app_l by (rewrite ?length_take; lia). done.
  - destruct (decide (i < off)%nat).
    + rewrite lookup_app_l by (rewrite length_take; lia). by rewrite lookup_take_lt.
    + rewrite lookup_app_r, length_take_le, lookup_app_r by (rewrite ?length_take; lia).
      rewrite lookup_drop. f_equal. lia.
Qed.

Lemma length_splice {A} (d bs : list A) (off : nat) :
  (off + length bs ≤ length d)%nat →
  length (take off d ++ bs ++ drop (off + length bs) d) = length d.
Proof. intros. rewrite !length_app, length_take, length_drop. lia. Qed.

(** ** Automation

    The database [c] runs the monad on known outcomes and closes the side conditions of
    memory accesses; [res_inv] destructs a computation known to have succeeded. *)
Create HintDb c.
#[export] Hint Rewrite @ok_bind : c.
#[export] Hint Resolve ck_int_Ok blk_load_Ok memread_Ok memwrite_Ok length_splice : c.

Ltac res_inv :=
  repeat match goal with
  | H : Ok _ = Ok _ |- _ => injection H as H; subst
  | H : Ub = Ok _ |- _ => discriminate H
  | H : OutOfFuel = Ok _ |- _ => discriminate H
  | H : (_ ≫= _) = Ok _ |- _ => apply bind_Ok in H as (? & ? & ?)
  | H : of_opt _ = Ok _ |- _ => apply of_opt_Ok in H
  | H : ck_int _ = Ok _ |- _ => apply ck_int_inv in H as [-> ?]
  end.

Ltac bool_case :=
  repeat match goal with
  | |- context [Z.eqb ?a ?b] => destruct (Z.eqb_spec a b)
  | |- context [Z.ltb ?a ?b] => destruct (Z.ltb_spec a b)
  | |- context [Z.leb ?a ?b] => destruct (Z.leb_spec a b)
  end.
