(* ===== verification/ByteQueue.v ===== *)
(** * ByteQueue: what a bounded byte queue promises to its client

    [src/udp_piece/udp-piece.c] uses [src/udp_piece/circular_buffer.c] only through the
    operations of [ByteQueueOps].  [ByteQueueLaws] is the contract: every queue value
    [q] stands for a capacity and a list of bytes ([bq_repr q cap xs]), and each
    operation acts on that list as a bounded first-in first-out queue does.  The
    fragment reassembler is proved against this interface (UdpPiece.v), and the ring
    buffer discharges it (CircularBuffer.v). *)

From S2P Require Import Prelude.
#[local] Open Scope Z_scope.

(** The operations the client calls; pointers to out-parameters are passed as the
    current contents of the cell or block and returned updated. *)
Class ByteQueueOps (Q : Type) := {
  bq_write : Q → list Z → Z → result (Q * Z);
  bq_read : Q → list Z → Z → Z → result (Q * list Z * Z);
  bq_get : Q → Z → Z → result (Z * Z);
  bq_pop_front : Q → Z → result Q;
  bq_size : Q → Z;
  bq_reset : Q → Q
}.

(** [splice dst off bs]: the block [dst] with [bs] stored at offset [off]. *)
Definition splice (dst : list Z) (off : nat) (bs : list Z) : list Z :=
  take off dst ++ bs ++ drop (off + length bs) dst.

Class ByteQueueLaws (Q : Type) `{!ByteQueueOps Q} := {
  bq_repr : Q → Z → list Z → Prop;
  bq_bounded q cap xs : bq_repr q cap xs → Z.of_nat (length xs) ≤ cap ≤ INT_MAX;
  bq_size_spec q cap xs : bq_repr q cap xs → bq_size q = Z.of_nat (length xs);
  bq_write_spec q cap xs data n :
    bq_repr q cap xs → 0 ≤ n ≤ Z.of_nat (length data) →
    let m := Z.min n (cap - Z.of_nat (length xs)) in
    ∃ q', bq_write q data n = Ok (q', m) ∧
          bq_repr q' cap (xs ++ take (Z.to_nat m) data);
  bq_read_spec q cap xs dst off n :
    bq_repr q cap xs → 0 ≤ n →
    let m := Z.min n (Z.of_nat (length xs)) in
    0 ≤ off → off + m ≤ Z.of_nat (length dst) →
    ∃ q', bq_read q dst off n =
            Ok (q', splice dst (Z.to_nat off) (take (Z.to_nat m) xs), m) ∧
          bq_repr q' cap (drop (Z.to_nat m) xs);
  bq_read_fault q cap xs dst off n :
    bq_repr q cap xs → 0 < n →
    ¬ (0 ≤ off ∧ off + Z.min n (Z.of_nat (length xs)) ≤ Z.of_nat (length dst)) →
    bq_read q dst off n = Ub;
  bq_read_zero q cap xs dst off :
    bq_repr q cap xs → bq_read q dst off 0 = Ok (q, dst, 0);
  bq_get_spec q cap xs i old :
    bq_repr q cap xs → 0 ≤ i →
    bq_get q i old = Ok match xs !! Z.to_nat i with Some v => (0, v) | None => (-1, old) end;
  bq_pop_spec q cap xs n :
    bq_repr q cap xs → 0 ≤ n →
    ∃ q', bq_pop_front q n = Ok q' ∧ bq_repr q' cap (drop (Z.to_nat n) xs);
  bq_reset_spec q cap xs : bq_repr q cap xs → bq_repr (bq_reset q) cap []
}.

Lemma memcpy_fault dst doff src soff n : 0 ≤ soff → 0 ≤ n →
  soff + n ≤ Z.of_nat (length src) → ¬ (0 ≤ doff ∧ doff + n ≤ Z.of_nat (length dst)) →
  memcpy dst doff src soff n = Ub.
Proof.
  intros. unfold memcpy. rewrite memread_Ok, ok_bind by lia.
  unfold memwrite. rewrite bool_decide_eq_false_2; [done|].
  rewrite length_take, length_drop. lia.
Qed.

Lemma splice_lookup_Z dst off bs (i : nat) :
  (off + length bs ≤ length dst)%nat →
  splice dst off bs !! i =
    if decide (off ≤ i < off + length bs)%nat then bs !! (i - off)%nat else dst !! i.
Proof. apply splice_lookup. Qed.

Lemma length_splice_Z dst off bs :
  (off + length bs ≤ length dst)%nat → length (splice dst off bs) = length dst.
Proof. apply length_splice. Qed.

(** Two consecutive stores are one store of the concatenation. *)
Lemma splice_app dst off a b k :
  k = (off + length a)%nat → (k + length b ≤ length dst)%nat →
  splice (splice dst off a) k b = splice dst off (a ++ b).
Proof.
  intros -> Hl. apply list_eq. intros i.
  rewrite !splice_lookup_Z by (rewrite ?length_splice_Z, ?length_app; lia).
  rewrite length_app. repeat case_decide; try lia; try done.
  - rewrite lookup_app_r by lia. f_equal. lia.
  - by rewrite lookup_app_l by lia.
Qed.

Lemma memcpy_Ok dst doff src soff n :
  0 ≤ doff → 0 ≤ soff → 0 ≤ n → soff + n ≤ Z.of_nat (length src) →
  doff + n ≤ Z.of_nat (length dst) →
  memcpy dst doff src soff n =
    Ok (splice dst (Z.to_nat doff) (take (Z.to_nat n) (drop (Z.to_nat soff) src))).
Proof.
  intros. unfold memcpy. rewrite memread_Ok by lia. simpl.
  rewrite memwrite_Ok; [done|lia|]. rewrite length_take, length_drop. lia.
Qed.

(** ** The specification as a transition function on lists

    [fifo_step cap xs op] is what a queue of capacity [cap] holding [xs] does; [bq_step]
    runs the same operation on an implementation, reading into a zeroed block.  The
    laws make every run of the implementation agree with the run of the specification. *)
Inductive bq_op :=
  | OpWrite (data : list Z)
  | OpRead (n : nat)
  | OpGet (i : Z)
  | OpPop (n : Z)
  | OpSize
  | OpReset.

Inductive bq_out :=
  | OutCount (n : Z)
  | OutBytes (bs : list Z)
  | OutGet (v : option Z)
  | OutNone.

Definition bq_op_ok (op : bq_op) : bool :=
  match op with OpGet i => 0 <=? i | OpPop n => 0 <=? n | _ => true end.

Definition fifo_step (cap : Z) (xs : list Z) (op : bq_op) : list Z * bq_out :=
  match op with
  | OpWrite data =>
      let m := Z.min (Z.of_nat (length data)) (cap - Z.of_nat (length xs)) in
      (xs ++ take (Z.to_nat m) data, OutCount m)
  | OpRead n => (drop n xs, OutBytes (take n xs))
  | OpGet i => (xs, OutGet (xs !! Z.to_nat i))
  | OpPop n => (drop (Z.to_nat n) xs, OutNone)
  | OpSize => (xs, OutCount (Z.of_nat (length xs)))
  | OpReset => ([], OutNone)
  end.

Fixpoint fifo_run (cap : Z) (xs : list Z) (ops : list bq_op) : list Z * list bq_out :=
  match ops with
  | [] => (xs, [])
  | op :: ops =>
      let '(xs, o) := fifo_step cap xs op in
      let '(xs, os) := fifo_run cap xs ops in (xs, o :: os)
  end.

Section refinement.
Context {Q : Type} `{!ByteQueueOps Q}.

Definition bq_step (q : Q) (op : bq_op) : result (Q * bq_out) :=
  match op with
  | OpWrite data => '(q, m) ← bq_write q data (Z.of_nat (length data)); Ok (q, OutCount m)
  | OpRead n =>
      '(q, dst, m) ← bq_read q (replicate n 0) 0 (Z.of_nat n);
      Ok (q, OutBytes (take (Z.to_nat m) dst))
  | OpGet i =>
      '(r, v) ← bq_get q i 0; Ok (q, OutGet (if r =? 0 then Some v else None))
  | OpPop n => q ← bq_pop_front q n; Ok (q, OutNone)
  | OpSize => Ok (q, OutCount (bq_size q))
  | OpReset => Ok (bq_reset q, OutNone)
  end.

Fixpoint bq_run (q : Q) (ops : list bq_op) : result (Q * list bq_out) :=
  match ops with
  | [] => Ok (q, [])
  | op :: ops =>
      '(q, o) ← bq_step q op;
      '(q, os) ← bq_run q ops; Ok (q, o :: os)
  end.

Context `{!ByteQueueLaws Q}.

Lemma bq_step_refines q cap xs op : bq_repr q cap xs → bq_op_ok op →
  ∃ q', bq_step q op = Ok (q', (fifo_step cap xs op).2) ∧
        bq_repr q' cap (fifo_step cap xs op).1.
Proof.
  intros Hq Hok. destruct op as [data|n|i|n| |]; cbn [bq_step fifo_step fst snd bq_op_ok] in *.
  - destruct (bq_write_spec q cap xs data (Z.of_nat (length data)) Hq) as (q' & -> & ?); [lia|].
    rewrite ok_bind. eauto.
  - destruct (bq_read_spec q cap xs (replicate n 0) 0 (Z.of_nat n) Hq) as (q' & -> & Hq');
      [lia|lia|rewrite length_replicate; lia|]. rewrite ok_bind. exists q'. split.
    + do 3 f_equal. unfold splice. change (Z.to_nat 0) with 0%nat. rewrite take_0. cbn [app].
      assert (take (Z.to_nat (Z.min (Z.of_nat n) (Z.of_nat (length xs)))) xs = take n xs) as ->.
      { destruct (decide (n ≤ length xs)%nat); [by rewrite Z.min_l, Nat2Z.id by lia|].
        rewrite Z.min_r, Nat2Z.id, !take_ge by lia. done. }
      rewrite (take_app_length' (take n xs)); [done|]. rewrite length_take. lia.
    + destruct (decide (n ≤ length xs)%nat); [by rewrite Z.min_l, Nat2Z.id in Hq' by lia|].
      rewrite Z.min_r, Nat2Z.id in Hq' by lia.
      rewrite drop_ge in Hq' by lia. by rewrite drop_ge by lia.
  - rewrite (bq_get_spec q cap xs) by (done || by apply Z.leb_le, Is_true_true_1).
    destruct (xs !! Z.to_nat i); rewrite ok_bind; eauto.
  - destruct (bq_pop_spec q cap xs n Hq) as (q' & -> & ?); [by apply Z.leb_le, Is_true_true_1|].
    rewrite ok_bind. eauto.
  - rewrite (bq_size_spec q cap xs Hq). eauto.
  - eexists. split; [done|]. by eapply bq_reset_spec.
Qed.

Lemma bq_run_refines cap ops : ∀ q xs, bq_repr q cap xs → forallb bq_op_ok ops →
  ∃ q', bq_run q ops = Ok (q', (fifo_run cap xs ops).2) ∧
        bq_repr q' cap (fifo_run cap xs ops).1.
Proof.
  induction ops as [|op ops IH]; intros q xs Hq Hok; [by exists q|].
  cbn [forallb] in Hok. apply andb_True in Hok as [H1 H2].
  destruct (bq_step_refines q cap xs op Hq H1) as (q1 & Hs & Hq1).
  cbn [bq_run fifo_run]. rewrite Hs, ok_bind. destruct (fifo_step cap xs op) as [xs1 o].
  destruct (IH q1 xs1 Hq1 H2) as (q2 & Hr & Hq2). rewrite Hr, ok_bind.
  destruct (fifo_run cap xs1 ops) as [xs2 os]. by exists q2.
Qed.
End refinement.
