(* ===== verification/CircularBuffer.v ===== *)
(** * CircularBuffer: [src/udp_piece/circular_buffer.c]

    The ring buffer as a record with the fields of [circular_buffer_t] and one
    definition per C function.  [cb_contents] is the list of bytes the ring holds and
    [cb_wf] the invariant that ties the three indices together; each operation is shown
    to preserve the invariant and to act on the contents as a bounded queue, which
    gives the instance of [ByteQueueLaws] the reassembler is proved against. *)

From S2P Require Import Prelude ByteQueue.
#[local] Open Scope Z_scope.

(** ** Data *)
Record circular_buffer_t := mk_circular_buffer {
  beg_index_ : Z;
  end_index_ : Z;
  size_ : Z;
  capacity_ : Z;
  data_ : list Z
}.

(** [MIN( a, b )] *)
Definition MIN (a b : Z) : Z := if a <? b then a else b.

(** ** Operations *)

(** The two [malloc] results are arguments: whether the first succeeds, and the block
    (of [capacity] bytes with unspecified contents) the second returns. *)
Definition circular_buffer_init (capacity : Z) (struct_ok : bool) (block : option (list Z))
  : option circular_buffer_t :=
  if struct_ok then
    match block with
    | Some data => Some (mk_circular_buffer 0 0 0 capacity data)
    | None => None
    end
  else None.

Definition circular_buffer_reset (cb : circular_buffer_t) : circular_buffer_t :=
  mk_circular_buffer 0 0 0 (capacity_ cb) (data_ cb).

Definition circular_buffer_write (cb : circular_buffer_t) (data : list Z) (bytes : Z)
  : result (circular_buffer_t * Z) :=
  if bytes =? 0 then Ok (cb, 0) else
  let capacity := capacity_ cb in
  room ← ck_int (capacity - size_ cb);
  let bytes_to_write := MIN bytes room in
  tail ← ck_int (capacity - end_index_ cb);
  '(d, e) ←
    (if bytes_to_write <=? tail then
       d ← memcpy (data_ cb) (end_index_ cb) data 0 bytes_to_write;
       e ← ck_int (end_index_ cb + bytes_to_write);
       Ok (d, if e =? capacity then 0 else e)
     else
       let size_1 := tail in
       d ← memcpy (data_ cb) (end_index_ cb) data 0 size_1;
       size_2 ← ck_int (bytes_to_write - size_1);
       d' ← memcpy d 0 data size_1 size_2;
       Ok (d', size_2));
  s ← ck_int (size_ cb + bytes_to_write);
  Ok (mk_circular_buffer (beg_index_ cb) e s capacity d, bytes_to_write).

(** [data] is a pointer into the block [dst], at offset [off]. *)
Definition circular_buffer_read (cb : circular_buffer_t) (dst : list Z) (off bytes : Z)
  : result (circular_buffer_t * list Z * Z) :=
  if bytes =? 0 then Ok (cb, dst, 0) else
  let capacity := capacity_ cb in
  let bytes_to_read := MIN bytes (size_ cb) in
  tail ← ck_int (capacity - beg_index_ cb);
  '(d, b) ←
    (if bytes_to_read <=? tail then
       d ← memcpy dst off (data_ cb) (beg_index_ cb) bytes_to_read;
       b ← ck_int (beg_index_ cb + bytes_to_read);
       Ok (d, if b =? capacity then 0 else b)
     else
       let size_1 := tail in
       d ← memcpy dst off (data_ cb) (beg_index_ cb) size_1;
       size_2 ← ck_int (bytes_to_read - size_1);
       d' ← memcpy d (off + size_1) (data_ cb) 0 size_2;
       Ok (d', size_2));
  s ← ck_int (size_ cb - bytes_to_read);
  Ok (mk_circular_buffer b (end_index_ cb) s capacity (data_ cb), d, bytes_to_read).

(** Returns the C return value and the new contents of [*value]. *)
Definition circular_buffer_get (cb : circular_buffer_t) (index value : Z) : result (Z * Z) :=
  if size_ cb <=? index then Ok (-1, value) else
  let capacity := capacity_ cb in
  sum ← ck_int (index + beg_index_ cb);
  if capacity =? 0 then Ub else
  let temp_index := Z.rem sum capacity in
  v ← blk_load (data_ cb) temp_index;
  Ok (0, v).

Definition circular_buffer_pop_front (cb : circular_buffer_t) (pop_size : Z)
  : result circular_buffer_t :=
  let capacity := capacity_ cb in
  let pop_bytes := MIN pop_size (size_ cb) in
  tail ← ck_int (capacity - beg_index_ cb);
  b ← (if pop_bytes <=? tail then
         b ← ck_int (beg_index_ cb + pop_bytes);
         Ok (if b =? capacity then 0 else b)
       else
         let size_1 := tail in
         size_2 ← ck_int (pop_bytes - size_1);
         Ok size_2);
  s ← ck_int (size_ cb - pop_bytes);
  Ok (mk_circular_buffer b (end_index_ cb) s capacity (data_ cb)).

Definition circular_buffer_size (cb : circular_buffer_t) : Z := size_ cb.
Definition circular_buffer_capacity (cb : circular_buffer_t) : Z := capacity_ cb.

#[export] Instance circular_buffer_ops : ByteQueueOps circular_buffer_t := {
  bq_write := circular_buffer_write;
  bq_read := circular_buffer_read;
  bq_get := circular_buffer_get;
  bq_pop_front := circular_buffer_pop_front;
  bq_size := circular_buffer_size;
  bq_reset := circular_buffer_reset
}.

(** ** Invariant and contents

    The capacity bound is the one under which [index + beg_index_] in
    [circular_buffer_get] cannot overflow an [int]. *)
Record cb_wf (cb : circular_buffer_t) : Prop := {
  wf_cap : 0 < capacity_ cb ≤ 2 ^ 30;
  wf_len : Z.of_nat (length (data_ cb)) = capacity_ cb;
  wf_beg : 0 ≤ beg_index_ cb < capacity_ cb;
  wf_size : 0 ≤ size_ cb ≤ capacity_ cb;
  wf_end : end_index_ cb =
    if beg_index_ cb + size_ cb <? capacity_ cb then beg_index_ cb + size_ cb
    else beg_index_ cb + size_ cb - capacity_ cb
}.

Definition cb_contents (cb : circular_buffer_t) : list Z :=
  take (Z.to_nat (size_ cb)) (drop (Z.to_nat (beg_index_ cb)) (data_ cb ++ data_ cb)).

(** Ring position [i] places after [b] in a block of [c] bytes. *)
Definition ring_pos (c b i : nat) : nat :=
  if decide (b + i < c)%nat then (b + i)%nat else (b + i - c)%nat.

Definition cb_pos (cb : circular_buffer_t) (i : nat) : nat :=
  ring_pos (length (data_ cb)) (Z.to_nat (beg_index_ cb)) i.

(** Case analysis on the position tests and on the comparisons of the invariant. *)
Ltac ring_cases :=
  unfold cb_pos, ring_pos in *; simpl in *;
  repeat match goal with
  | |- context [decide ?P] => destruct (decide P); try lia
  | |- context [Z.ltb ?a ?b] => destruct (Z.ltb_spec a b); try lia
  | |- _ → _ => intros ?; try lia
  end.

Lemma cb_contents_length cb : cb_wf cb → length (cb_contents cb) = Z.to_nat (size_ cb).
Proof.
  intros []. unfold cb_contents. rewrite length_take, length_drop, length_app. lia.
Qed.

Lemma cb_contents_lookup cb (i : nat) : cb_wf cb →
  cb_contents cb !! i =
    if decide (i < Z.to_nat (size_ cb))%nat then data_ cb !! cb_pos cb i else None.
Proof.
  intros []. unfold cb_contents, cb_pos, ring_pos. case_decide.
  - rewrite lookup_take_lt by done. rewrite lookup_drop. case_decide.
    + by rewrite lookup_app_l.
    + rewrite lookup_app_r by lia. f_equal.
  - apply lookup_ge_None. rewrite length_take. lia.
Qed.

Lemma MIN_min a b : MIN a b = Z.min a b.
Proof. unfold MIN. bool_case; lia. Qed.

(** Reading the contents off position by position. *)
Lemma cb_contents_eq cb xs : cb_wf cb → length xs = Z.to_nat (size_ cb) →
  (∀ i, (i < Z.to_nat (size_ cb))%nat → data_ cb !! cb_pos cb i = xs !! i) →
  cb_contents cb = xs.
Proof.
  intros Hwf Hlen Hxs. apply list_eq. intros i. rewrite cb_contents_lookup by done.
  case_decide; [by apply Hxs|]. symmetry. apply lookup_ge_None. lia.
Qed.

Lemma cb_contents_at cb (i : nat) : cb_wf cb → (i < Z.to_nat (size_ cb))%nat →
  cb_contents cb !! i = data_ cb !! cb_pos cb i.
Proof. intros Hwf Hi. rewrite cb_contents_lookup by done. by rewrite decide_True. Qed.

(** ** Functional specification of each operation *)

(** [ring_stored d d' e bs]: block [d'] is [d] with [bs] stored from ring position [e]. *)
Definition ring_stored (d d' : list Z) (e : nat) (bs : list Z) : Prop :=
  length d' = length d ∧
  (∀ i, (i < length bs)%nat → d' !! ring_pos (length d) e i = bs !! i) ∧
  (∀ p, (∀ i, (i < length bs)%nat → p ≠ ring_pos (length d) e i) → d' !! p = d !! p).

Lemma ring_stored_one d e bs : (e + length bs ≤ length d)%nat →
  ring_stored d (splice d e bs) e bs.
Proof.
  intros He. split; [by apply length_splice_Z|split].
  - intros i Hi. rewrite splice_lookup_Z by done. ring_cases. f_equal. lia.
  - intros p Hp. rewrite splice_lookup_Z by done. case_decide; [|done].
    exfalso. apply (Hp (p - e)%nat); [lia|]. ring_cases.
Qed.

Lemma ring_stored_two d e bs k : (e < length d)%nat → (k = length d - e)%nat →
  (k ≤ length bs ≤ length d)%nat →
  ring_stored d (splice (splice d e (take k bs)) 0 (drop k bs)) e bs.
Proof.
  intros He -> Hk.
  assert (length (take (length d - e) bs) = length d - e)%nat as Hl1
    by (rewrite length_take; lia).
  assert (length (drop (length d - e) bs) = length bs - (length d - e))%nat as Hl2
    by (rewrite length_drop; lia).
  assert (length (splice d e (take (length d - e) bs)) = length d) as Hl3
    by (apply length_splice_Z; lia).
  split; [by rewrite length_splice_Z; lia|split].
  - intros i Hi. rewrite splice_lookup_Z by lia. case_decide as Hc.
    + rewrite lookup_drop. f_equal. ring_cases.
    + rewrite splice_lookup_Z by lia. case_decide as Hc'; [|ring_cases].
      rewrite lookup_take_lt by lia. f_equal. ring_cases.
  - intros p Hp. rewrite !splice_lookup_Z by lia.
    case_decide as Hp1; [exfalso; apply (Hp (length d - e + p)%nat); [lia|]; ring_cases|].
    case_decide as Hp2; [|done].
    exfalso. apply (Hp (p - e)%nat); [lia|]. ring_cases.
Qed.

Section operations.
Context (cb : circular_buffer_t) (Hwf : cb_wf cb).

Lemma cb_index_bounds :
  0 ≤ end_index_ cb < capacity_ cb ∧ length (data_ cb) = Z.to_nat (capacity_ cb).
Proof. destruct Hwf as [? ? ? ? Hend]. rewrite Hend. bool_case; lia. Qed.

(** The contents after appending [bs] at the end index. *)
Lemma cb_append d bs e : ring_stored (data_ cb) d (Z.to_nat (end_index_ cb)) bs →
  Z.of_nat (length bs) ≤ capacity_ cb - size_ cb →
  let sz := size_ cb + Z.of_nat (length bs) in
  e = (if beg_index_ cb + sz <? capacity_ cb then beg_index_ cb + sz
       else beg_index_ cb + sz - capacity_ cb) →
  let cb' := mk_circular_buffer (beg_index_ cb) e sz (capacity_ cb) d in
  cb_wf cb' ∧ capacity_ cb' = capacity_ cb ∧ cb_contents cb' = cb_contents cb ++ bs.
Proof.
  intros (Hl & Hin & Hout) Hbs sz He cb'. pose proof cb_index_bounds as [He0 Hlen].
  pose proof Hwf as [Hcap _ Hbeg Hsize Hend].
  assert (cb_wf cb') as Hwf' by (split; simpl; lia).
  split; [done|split; [done|]]. apply cb_contents_eq; [done| |].
  { rewrite length_app, cb_contents_length by done. simpl. lia. }
  intros i Hi. simpl in Hi. change (cb_pos cb' i) with
    (ring_pos (length d) (Z.to_nat (beg_index_ cb)) i). rewrite Hl. simpl.
  destruct (decide (i < Z.to_nat (size_ cb))%nat) as [Hi'|Hi'].
  - rewrite lookup_app_l by (rewrite cb_contents_length; done).
    rewrite cb_contents_at by done. apply Hout. intros j Hj. revert Hend. ring_cases.
  - rewrite lookup_app_r by (rewrite cb_contents_length by done; lia).
    rewrite cb_contents_length, <- Hin by (done || lia). f_equal.
    revert Hend. ring_cases.
Qed.

Lemma cb_write_spec data n : 0 ≤ n ≤ Z.of_nat (length data) →
  let m := Z.min n (capacity_ cb - size_ cb) in
  ∃ cb', circular_buffer_write cb data n = Ok (cb', m) ∧ cb_wf cb' ∧
    capacity_ cb' = capacity_ cb ∧
    cb_contents cb' = cb_contents cb ++ take (Z.to_nat m) data.
Proof.
  intros Hn m. pose proof cb_index_bounds as [He Hlen].
  pose proof Hwf as [Hcap _ Hbeg Hsize Hend].
  unfold circular_buffer_write. destruct (Z.eqb_spec n 0) as [->|Hn0].
  { exists cb. replace m with 0 by lia. rewrite app_nil_r. auto. }
  rewrite !(ck_int_Ok (capacity_ cb - _)) by (unfold INT_MIN, INT_MAX; lia). simpl.
  rewrite MIN_min. fold m.
  assert (length (take (Z.to_nat m) data) = Z.to_nat m) as Hm0 by (rewrite length_take; lia).
  destruct (Z.leb_spec m (capacity_ cb - end_index_ cb)) as [Hm|Hm];
    rewrite memcpy_Ok by lia; simpl.
  - rewrite !ck_int_Ok by (unfold INT_MIN, INT_MAX; lia). simpl.
    eexists; split; [done|]. rewrite drop_0.
    replace (size_ cb + m) with (size_ cb + Z.of_nat (length (take (Z.to_nat m) data))) by lia.
    apply cb_append; [apply ring_stored_one; lia|lia|].
    rewrite Hm0. revert Hend. bool_case; lia.
  - rewrite (ck_int_Ok (m - _)) by (unfold INT_MIN, INT_MAX; lia). simpl.
    rewrite memcpy_Ok; try lia; [simpl|rewrite length_splice_Z by (rewrite length_take, length_drop; lia); lia].
    rewrite !ck_int_Ok by (unfold INT_MIN, INT_MAX; lia). simpl.
    eexists; split; [done|]. rewrite drop_0.
    replace (size_ cb + m) with (size_ cb + Z.of_nat (length (take (Z.to_nat m) data))) by lia.
    apply cb_append; [|lia|rewrite Hm0; revert Hend; bool_case; lia].
    set (k := Z.to_nat (capacity_ cb - end_index_ cb)).
    replace (take k data) with (take k (take (Z.to_nat m) data)) by (rewrite take_take; f_equal; lia).
    replace (take (Z.to_nat (m - (capacity_ cb - end_index_ cb))) (drop k data))
      with (drop k (take (Z.to_nat m) data)) by (rewrite take_drop_commute; do 2 f_equal; lia).
    apply ring_stored_two; lia.
Qed.

(** Dropping [m] bytes from the front advances the begin index. *)
Lemma cb_drop m b : 0 ≤ m ≤ size_ cb →
  b = (if beg_index_ cb + m <? capacity_ cb then beg_index_ cb + m
       else beg_index_ cb + m - capacity_ cb) →
  let cb' := mk_circular_buffer b (end_index_ cb) (size_ cb - m) (capacity_ cb) (data_ cb) in
  cb_wf cb' ∧ capacity_ cb' = capacity_ cb ∧
  cb_contents cb' = drop (Z.to_nat m) (cb_contents cb).
Proof.
  intros Hm Hb cb'. pose proof Hwf as [Hcap Hl Hbeg Hsize Hend].
  assert (cb_wf cb') as Hwf'.
  { split; simpl; try lia; revert Hend; subst b; bool_case; lia. }
  split; [done|split; [done|]]. apply cb_contents_eq; [done| |].
  { rewrite length_drop, cb_contents_length by done. simpl. lia. }
  intros i Hi. simpl in Hi. rewrite lookup_drop, cb_contents_at by (done || lia).
  simpl. f_equal. revert Hb. ring_cases.
Qed.

(** The first [m] bytes of the contents as one or two pieces of the block. *)
Lemma cb_take_one m : 0 ≤ m ≤ size_ cb → m ≤ capacity_ cb - beg_index_ cb →
  take (Z.to_nat m) (drop (Z.to_nat (beg_index_ cb)) (data_ cb)) =
  take (Z.to_nat m) (cb_contents cb).
Proof.
  intros Hm Hle. pose proof Hwf as [Hcap Hl Hbeg Hsize Hend].
  unfold cb_contents. rewrite take_take, Nat.min_l by lia.
  rewrite drop_app_le, take_app_le by (rewrite ?length_drop; lia). done.
Qed.

Lemma cb_take_two m k : 0 ≤ m ≤ size_ cb → k = capacity_ cb - beg_index_ cb → k < m →
  take (Z.to_nat k) (drop (Z.to_nat (beg_index_ cb)) (data_ cb)) ++
    take (Z.to_nat (m - k)) (data_ cb) =
  take (Z.to_nat m) (cb_contents cb).
Proof.
  intros Hm -> Hle. pose proof Hwf as [Hcap Hl Hbeg Hsize Hend].
  unfold cb_contents. rewrite take_take, Nat.min_l by lia.
  rewrite drop_app_le, take_app by lia. rewrite length_drop. f_equal.
  - rewrite !take_ge by (rewrite length_drop; lia). done.
  - f_equal. lia.
Qed.

Lemma cb_read_spec dst off n : 0 ≤ n →
  let m := Z.min n (size_ cb) in
  0 ≤ off → off + m ≤ Z.of_nat (length dst) →
  ∃ cb', circular_buffer_read cb dst off n =
      Ok (cb', splice dst (Z.to_nat off) (take (Z.to_nat m) (cb_contents cb)), m) ∧
    cb_wf cb' ∧ capacity_ cb' = capacity_ cb ∧
    cb_contents cb' = drop (Z.to_nat m) (cb_contents cb).
Proof.
  intros Hn m Hoff Hdst. pose proof cb_index_bounds as [He Hlen].
  pose proof Hwf as [Hcap _ Hbeg Hsize Hend].
  unfold circular_buffer_read. rewrite MIN_min. fold m.
  destruct (Z.eqb_spec n 0) as [Hn0|Hn0].
  { exists cb. replace m with 0 by lia. rewrite drop_0. simpl.
    split; [|auto]. unfold splice. simpl. rewrite Nat.add_0_r, take_drop. done. }
  rewrite (ck_int_Ok (capacity_ cb - _)) by (unfold INT_MIN, INT_MAX; lia). simpl.
  destruct (Z.leb_spec m (capacity_ cb - beg_index_ cb)) as [Hm|Hm];
    rewrite memcpy_Ok by lia; simpl.
  - rewrite !ck_int_Ok by (unfold INT_MIN, INT_MAX; lia). simpl.
    rewrite cb_take_one by lia. eexists; split; [done|]. apply cb_drop; [lia|].
    bool_case; lia.
  - rewrite (ck_int_Ok (m - _)) by (unfold INT_MIN, INT_MAX; lia). simpl.
    set (k := capacity_ cb - beg_index_ cb).
    assert (length (take (Z.to_nat k) (drop (Z.to_nat (beg_index_ cb)) (data_ cb))) = Z.to_nat k)
      as Hk by (rewrite length_take, length_drop; lia).
    rewrite memcpy_Ok; try lia; [simpl|rewrite length_splice_Z; lia].
    rewrite !ck_int_Ok by (unfold INT_MIN, INT_MAX; lia). simpl.
    change (Z.to_nat 0) with 0%nat. rewrite drop_0.
    rewrite splice_app; [|lia|rewrite length_take; lia].
    rewrite cb_take_two by lia.
    eexists; split; [done|]. apply cb_drop; [lia|]. bool_case; lia.
Qed.

Lemma cb_read_fault dst off n : 0 < n →
  ¬ (0 ≤ off ∧ off + Z.min n (size_ cb) ≤ Z.of_nat (length dst)) →
  circular_buffer_read cb dst off n = Ub.
Proof.
  intros Hn Hfault. pose proof cb_index_bounds as [He Hlen].
  pose proof Hwf as [Hcap _ Hbeg Hsize Hend].
  unfold circular_buffer_read. rewrite MIN_min. set (m := Z.min n (size_ cb)) in *.
  destruct (Z.eqb_spec n 0) as [|_]; [lia|].
  rewrite (ck_int_Ok (capacity_ cb - _)) by (unfold INT_MIN, INT_MAX; lia). simpl.
  destruct (Z.leb_spec m (capacity_ cb - beg_index_ cb)) as [Hm|Hm].
  - by rewrite memcpy_fault by lia.
  - set (k := capacity_ cb - beg_index_ cb) in *.
    destruct (decide (0 ≤ off ∧ off + k ≤ Z.of_nat (length dst))) as [Hk|Hk].
    + rewrite memcpy_Ok by lia. simpl.
      rewrite (ck_int_Ok (m - _)) by (unfold INT_MIN, INT_MAX; lia). simpl.
      rewrite memcpy_fault; [done|lia|lia|lia|].
      rewrite length_splice_Z by (rewrite length_take, length_drop; lia). lia.
    + by rewrite memcpy_fault by lia.
Qed.

Lemma cb_get_spec i old : 0 ≤ i →
  circular_buffer_get cb i old =
    Ok match cb_contents cb !! Z.to_nat i with Some v => (0, v) | None => (-1, old) end.
Proof.
  intros Hi. pose proof cb_index_bounds as [He Hlen].
  pose proof Hwf as [Hcap _ Hbeg Hsize Hend].
  unfold circular_buffer_get. rewrite cb_contents_lookup by done.
  destruct (Z.leb_spec (size_ cb) i); case_decide; try lia; [done|].
  rewrite ck_int_Ok by (unfold INT_MIN, INT_MAX; lia). simpl.
  destruct (Z.eqb_spec (capacity_ cb) 0); [lia|].
  assert (cb_pos cb (Z.to_nat i) < length (data_ cb))%nat as Hp by ring_cases.
  apply lookup_lt_is_Some in Hp as [v Hv]. rewrite Hv.
  assert (Z.rem (i + beg_index_ cb) (capacity_ cb) = Z.of_nat (cb_pos cb (Z.to_nat i))) as ->.
  { rewrite Z.rem_mod_nonneg by lia. ring_cases.
    - rewrite Z.mod_small; lia.
    - symmetry. apply Z.mod_unique with 1; lia. }
  erewrite blk_load_Ok; [done|lia|]. by rewrite Nat2Z.id.
Qed.

Lemma cb_pop_front_spec n : 0 ≤ n →
  ∃ cb', circular_buffer_pop_front cb n = Ok cb' ∧ cb_wf cb' ∧
    capacity_ cb' = capacity_ cb ∧ cb_contents cb' = drop (Z.to_nat n) (cb_contents cb).
Proof.
  intros Hn. pose proof cb_index_bounds as [He Hlen].
  pose proof Hwf as [Hcap _ Hbeg Hsize Hend].
  unfold circular_buffer_pop_front. rewrite MIN_min. set (m := Z.min n (size_ cb)).
  replace (drop (Z.to_nat n) (cb_contents cb)) with (drop (Z.to_nat m) (cb_contents cb)).
  2: { destruct (Z.leb_spec n (size_ cb)); [do 2 f_equal; lia|].
       rewrite !drop_ge; rewrite ?cb_contents_length by done; (done || lia). }
  rewrite (ck_int_Ok (capacity_ cb - _)) by (unfold INT_MIN, INT_MAX; lia). simpl.
  destruct (Z.leb_spec m (capacity_ cb - beg_index_ cb)) as [Hm|Hm];
    rewrite !ck_int_Ok by (unfold INT_MIN, INT_MAX; lia); simpl;
    (eexists; split; [done|]; apply cb_drop; [lia|bool_case; lia]).
Qed.

Lemma cb_reset_spec : cb_wf (circular_buffer_reset cb) ∧
  cb_contents (circular_buffer_reset cb) = [].
Proof.
  pose proof Hwf as [Hcap Hl Hbeg Hsize Hend].
  split; [|done]. split; simpl; try lia. bool_case; lia.
Qed.
End operations.

Lemma cb_init_spec capacity block : 0 < capacity ≤ 2 ^ 30 →
  Z.of_nat (length block) = capacity →
  ∃ cb, circular_buffer_init capacity true (Some block) = Some cb ∧ cb_wf cb ∧
    capacity_ cb = capacity ∧ cb_contents cb = [].
Proof.
  intros Hcap Hl. eexists; split; [done|]. split; [|done].
  split; simpl; try lia. bool_case; lia.
Qed.

(** ** The ring buffer implements the byte queue *)
#[export] Program Instance circular_buffer_laws : ByteQueueLaws circular_buffer_t := {
  bq_repr cb cap xs := cb_wf cb ∧ capacity_ cb = cap ∧ cb_contents cb = xs
}.
Next Obligation.
  intros cb cap xs (Hwf & <- & <-). rewrite cb_contents_length by done.
  destruct Hwf. unfold INT_MAX. lia.
Qed.
Next Obligation.
  intros cb cap xs (Hwf & <- & <-). rewrite cb_contents_length by done.
  destruct Hwf. simpl. unfold circular_buffer_size. lia.
Qed.
Next Obligation.
  intros cb cap xs data n (Hwf & <- & <-) Hn m.
  destruct (cb_write_spec cb Hwf data n Hn) as (cb' & Hw & ? & ? & ?).
  exists cb'. subst m. rewrite cb_contents_length, Z2Nat.id by (done || apply Hwf). auto.
Qed.
Next Obligation.
  intros cb cap xs dst off n (Hwf & <- & <-) Hn m Hoff Hdst.
  assert (m = Z.min n (size_ cb)) as Hm.
  { subst m. rewrite cb_contents_length, Z2Nat.id by (done || apply Hwf). done. }
  rewrite Hm in *. destruct (cb_read_spec cb Hwf dst off n Hn Hoff Hdst) as (cb' & Hw & ?).
  exists cb'. auto.
Qed.
Next Obligation.
  intros cb cap xs dst off n (Hwf & <- & <-) Hn Hf. apply cb_read_fault; [done|done|].
  rewrite cb_contents_length, Z2Nat.id in Hf by (done || apply Hwf). done.
Qed.
Next Obligation. done. Qed.
Next Obligation. intros cb cap xs i old (Hwf & <- & <-) Hi. by apply cb_get_spec. Qed.
Next Obligation.
  intros cb cap xs n (Hwf & <- & <-) Hn.
  destruct (cb_pop_front_spec cb Hwf n Hn) as (cb' & ? & ?). exists cb'. auto.
Qed.
Next Obligation.
  intros cb cap xs (Hwf & <- & <-). destruct (cb_reset_spec cb Hwf). auto.
Qed.

(** C22. Functional refinement: a ring created by [circular_buffer_init] with a capacity of
    1 to 2^30 bytes answers every sequence of operations exactly as a bounded first-in
    first-out queue of that capacity does, and none of them runs out of a block,
    overflows an [int] or wraps to the wrong place. *)
Theorem ring_refines_fifo capacity block ops : 0 < capacity ≤ 2 ^ 30 →
  Z.of_nat (length block) = capacity → forallb bq_op_ok ops →
  ∃ cb cb', circular_buffer_init capacity true (Some block) = Some cb ∧
    bq_run cb ops = Ok (cb', (fifo_run capacity [] ops).2) ∧
    cb_wf cb' ∧ cb_contents cb' = (fifo_run capacity [] ops).1.
Proof.
  intros Hcap Hl Hops. destruct (cb_init_spec capacity block Hcap Hl) as (cb & Hi & Hrep).
  assert (bq_repr cb capacity []) as Hrep' by exact Hrep.
  destruct (bq_run_refines capacity ops cb [] Hrep' Hops) as (cb' & Hr & Hwf & _ & Hc).
  by exists cb, cb'.
Qed.

Lemma ring_refines_fifo_witness :
  ∃ cb cb', circular_buffer_init 4 true (Some [9; 9; 9; 9]) = Some cb ∧
    bq_run cb [OpWrite [1; 2; 3]; OpRead 2; OpWrite [4; 5; 6; 7]; OpGet 3; OpRead 9] =
      Ok (cb', [OutCount 3; OutBytes [1; 2]; OutCount 3; OutGet (Some 6);
                OutBytes [3; 4; 5; 6]]) ∧
    cb_wf cb' ∧ cb_contents cb' = [].
Proof. apply (ring_refines_fifo 4); [lia|done|done]. Defined.

(** Overflow of the index sum: on a ring whose capacity exceeds 2^30, reading the
    element at a valid index is a signed overflow as soon as begin index and element
    index add up to 2^31. *)
Theorem get_index_overflow cb i v : INT_MAX < i + beg_index_ cb → i < size_ cb →
  circular_buffer_get cb i v = Ub.
Proof.
  intros Hsum Hi. unfold circular_buffer_get. destruct (Z.leb_spec (size_ cb) i); [lia|].
  unfold ck_int. rewrite bool_decide_eq_false_2; [done|]. lia.
Qed.

Lemma get_index_overflow_witness :
  circular_buffer_get (mk_circular_buffer (2 ^ 30 + 1) 1 (2 ^ 30 + 1) (2 ^ 30 + 2) []) (2 ^ 30) 0 = Ub.
Proof. apply get_index_overflow; unfold INT_MAX; simpl; lia. Defined.
