(* ===== verification/UdpPiece.v ===== *)
(** * UdpPiece: [src/udp_piece/udp-piece.c], its client and its server

    Fragmentation of a message into numbered frames ([udp_piece_cut],
    [udp_piece_get]) and their reassembly, from whole datagrams ([udp_piece_merge]) or
    through the ring buffer ([udp_piece_merge_ex]).  The ring buffer is any
    [ByteQueueOps]; the proofs (UdpPieceProofs.v) use only [ByteQueueLaws].

    [PIECE_FIX_SIZE] is written [(576 - 8 - 20 - 12)UL] in udp-piece.h, which is not C
    (a suffix on a parenthesis); it is read as the unsigned long 536 it means. *)

From S2P Require Import Prelude ByteQueue.
#[local] Open Scope Z_scope.

Definition HEAD_POS_SYNC_WORD : Z := 0.
Definition HEAD_POS_TOTAL_SIZE : Z := 2.
Definition HEAD_POS_TOTAL_PIECES : Z := 4.
Definition HEAD_POS_P_INDEX : Z := 6.
Definition HEAD_POS_P_LENGTH : Z := 8.
Definition HEAD_SIZE : Z := 12.
Definition PIECE_FIX_SIZE : Z := 576 - 8 - 20 - 12.

(** [(b0 << 8) + b1] *)
Definition be16 (b0 b1 : Z) : Z := Z.shiftl b0 8 + b1.

Section udp_piece.
Context {Q : Type} `{!ByteQueueOps Q}.
(** [malloc k n]: the block the [k]-th allocation of the run, of [n] bytes, returns;
    its contents are unspecified, [None] is [NULL]. *)
Context (malloc : nat → Z → option (list Z)).

(** [mallocs] counts the allocations made so far; every other field is one of the
    struct.  A pointer is [None] when it is [NULL]. *)
Record udp_piece_t := mk_udp_piece {
  recv_pieces : Z;
  total_size : Z;
  total_pieces : Z;
  left_ : Z;
  piece_size : Z;
  recv_len : Z;
  recv_buf : option (list Z);
  send_ptr : option (list Z);
  piece_buf : list Z;
  circular_buffer : option Q;
  mallocs : nat
}.

(** ** Creation and disposal *)

(** [struct_ok] and [ring] are the outcomes of the two allocations. *)
Definition udp_piece_init (struct_ok : bool) (ring : option Q) : option udp_piece_t :=
  if struct_ok then
    match ring with
    | Some q =>
        Some (mk_udp_piece 0 0 0 0 0 0 None None
                (replicate (Z.to_nat (PIECE_FIX_SIZE + HEAD_SIZE + 1)) 0) (Some q) 0)
    | None => None
    end
  else None.

Definition udp_piece_deinit (udp_piece : option udp_piece_t) : option udp_piece_t :=
  match udp_piece with
  | Some u =>
      Some (mk_udp_piece 0 0 0 0 0 0 None (send_ptr u) (piece_buf u) None (mallocs u))
  | None => None
  end.

(** [circular_buffer_reset] does nothing on [NULL]. *)
Definition udp_piece_reset (udp_piece : option udp_piece_t) : option udp_piece_t :=
  match udp_piece with
  | Some u =>
      Some (mk_udp_piece 0 0 0 0 0 0 None None (piece_buf u)
              (bq_reset <$> circular_buffer u) (mallocs u))
  | None => None
  end.

(** ** Fragmentation *)
Definition udp_piece_cut (udp_piece : option udp_piece_t) (buf : option (list Z)) (size : Z)
  : option udp_piece_t * Z :=
  match udp_piece with
  | None => (None, 0)
  | Some u =>
      if size <? 0 then (Some u, 0) else
      let lft := size mod PIECE_FIX_SIZE in
      let pieces := if 0 <? lft then size / PIECE_FIX_SIZE + 1 else size / PIECE_FIX_SIZE in
      (Some (mk_udp_piece (recv_pieces u) size pieces lft (piece_size u) (recv_len u)
               (recv_buf u) buf (piece_buf u) (circular_buffer u) (mallocs u)), pieces)
  end.

(** The frame built in [piece_buf]; [got_piece_size] is the caller's cell, [None] for
    [NULL] (the test [!got_piece_size < 0] is never true, so [NULL] is dereferenced). *)
Definition udp_piece_get (udp_piece : option udp_piece_t) (index : Z) (got_piece_size : option Z)
  : result (option udp_piece_t * option (list Z) * option Z) :=
  match udp_piece with
  | None => Ok (None, None, got_piece_size)
  | Some u =>
      _ ← of_opt got_piece_size;
      last ← ck_int (total_pieces u - 1);
      let size := if bool_decide (last = index ∧ 0 < left_ u) then left_ u else PIECE_FIX_SIZE in
      let pb := replicate (Z.to_nat (PIECE_FIX_SIZE + HEAD_SIZE + 1)) 0 in
      pb ← blk_store pb HEAD_POS_SYNC_WORD 0xAF;
      pb ← blk_store pb (HEAD_POS_SYNC_WORD + 1) 0xAE;
      pb ← blk_store pb HEAD_POS_TOTAL_SIZE (u8 (Z.shiftr (total_size u) 8));
      pb ← blk_store pb (HEAD_POS_TOTAL_SIZE + 1) (u8 (Z.land (total_size u) 0xff));
      pb ← blk_store pb HEAD_POS_TOTAL_PIECES (u8 (Z.shiftr (total_pieces u) 8));
      pb ← blk_store pb (HEAD_POS_TOTAL_PIECES + 1) (u8 (Z.land (total_pieces u) 0xff));
      pb ← blk_store pb HEAD_POS_P_INDEX (u8 (Z.shiftr index 8));
      pb ← blk_store pb (HEAD_POS_P_INDEX + 1) (u8 (Z.land index 0xff));
      pb ← blk_store pb HEAD_POS_P_LENGTH (u8 (Z.shiftr size 8));
      pb ← blk_store pb (HEAD_POS_P_LENGTH + 1) (u8 (Z.land size 0xff));
      src ← of_opt (send_ptr u);
      pb ← memcpy pb HEAD_SIZE src (u64 (PIECE_FIX_SIZE * u64 index)) size;
      Ok (Some (mk_udp_piece (recv_pieces u) (total_size u) (total_pieces u) (left_ u)
                  (piece_size u) (recv_len u) (recv_buf u) (send_ptr u) pb
                  (circular_buffer u) (mallocs u)),
          Some pb, Some (size + HEAD_SIZE))
  end.

(** ** Reassembly: what both merge functions do with a frame header *)

(** Start collecting a group of [ts] bytes in [tp] frames, [rp] of them received: the
    old [recv_buf] is freed and a block of [ts + 1] bytes allocated. *)
Definition new_group (u : udp_piece_t) (ts tp rp : Z) : udp_piece_t :=
  mk_udp_piece rp ts tp (left_ u) (piece_size u) 0 (malloc (mallocs u) (ts + 1))
    (send_ptr u) (piece_buf u) (circular_buffer u) (S (mallocs u)).

Definition has_buf (u : udp_piece_t) : bool := bool_decide (is_Some (recv_buf u)).

(** First frame after a reset; [false] when its [malloc] failed. *)
Definition first_frame (u : udp_piece_t) (ts tp : Z) : udp_piece_t * bool :=
  if total_size u =? 0
  then let u := new_group u ts tp 0 in (u, has_buf u)
  else (u, true).

(** [recv_pieces++], then a frame of another group starts that group; [false] when the
    [malloc] for it failed. *)
Definition count_frame (u : udp_piece_t) (ts tp : Z) : result (udp_piece_t * bool) :=
  rp ← ck_int (recv_pieces u + 1);
  if negb (ts =? total_size u) || negb (tp =? total_pieces u)
  then let u := new_group u ts tp 1 in Ok (u, has_buf u)
  else Ok (mk_udp_piece rp (total_size u) (total_pieces u) (left_ u) (piece_size u)
             (recv_len u) (recv_buf u) (send_ptr u) (piece_buf u) (circular_buffer u)
             (mallocs u), true).

(** [recv_buf] with the frame's bytes, and the ring after they were taken from it. *)
Definition stored_frame (u : udp_piece_t) (rb : list Z) (q : option Q) : udp_piece_t :=
  mk_udp_piece (recv_pieces u) (total_size u) (total_pieces u) (left_ u) (piece_size u)
    (recv_len u) (Some rb) (send_ptr u) (piece_buf u) q (mallocs u).

(** [recv_len] becomes [rl]; when the group is complete its counters are cleared and the
    outcome is [1] if the lengths agree, [bad] otherwise. *)
Definition finish_frame (u : udp_piece_t) (rl got bad : Z) : udp_piece_t * Z :=
  let upd rp tp := mk_udp_piece rp (total_size u) tp (left_ u) (piece_size u) rl
                     (recv_buf u) (send_ptr u) (piece_buf u) (circular_buffer u) (mallocs u) in
  if recv_pieces u =? total_pieces u
  then (upd 0 0, if rl =? total_size u then 1 else bad)
  else (upd (recv_pieces u) (total_pieces u), got).

(** ** [udp_piece_merge] *)

(** The [for] loop: skip to the sync word, [n] iterations left. *)
Fixpoint find_sync (n : nat) (buf : list Z) (piece_buf temp_size : Z) : result (Z * Z) :=
  match n with
  | O => Ok (piece_buf, temp_size)
  | S n =>
      b0 ← blk_load buf piece_buf;
      found ← (if b0 =? 0xAF then b1 ← blk_load buf (piece_buf + 1); Ok (b1 =? 0xAE)
               else Ok false);
      if found : bool then Ok (piece_buf, temp_size)
      else find_sync n buf (piece_buf + 1) (temp_size - 1)
  end.

Definition load16 (buf : list Z) (i : Z) : result Z :=
  b0 ← blk_load buf i; b1 ← blk_load buf (i + 1); Ok (be16 b0 b1).

(** The [while] loop; [p] is the offset of [piece_buf] in [buf]. *)
Fixpoint merge_loop (fuel : nat) (u : udp_piece_t) (buf : list Z) (p temp_size got : Z)
  : result (udp_piece_t * Z) :=
  match fuel with
  | O => OutOfFuel
  | S fuel =>
      if temp_size <=? HEAD_SIZE then Ok (u, got) else
      data_len ← load16 buf (p + HEAD_POS_P_LENGTH);
      if HEAD_SIZE + data_len <=? temp_size then
        p_index ← load16 buf (p + HEAD_POS_P_INDEX);
        ts ← load16 buf (p + HEAD_POS_TOTAL_SIZE);
        tp ← load16 buf (p + HEAD_POS_TOTAL_PIECES);
        let '(u, ok) := first_frame u ts tp in
        if negb ok then Ok (u, -1) else
        '(u, ok) ← count_frame u ts tp;
        if negb ok then Ok (u, -1) else
        rb ← of_opt (recv_buf u);
        rb ← memcpy rb (u64 (PIECE_FIX_SIZE * u64 p_index)) buf (p + HEAD_SIZE) data_len;
        let u := stored_frame u rb (circular_buffer u) in
        rl ← ck_int (recv_len u + data_len);
        let '(u, got) := finish_frame u rl got (-1) in
        merge_loop fuel u buf (p + HEAD_SIZE + data_len) (temp_size - HEAD_SIZE - data_len) got
      else merge_loop fuel u buf p 0 got
  end.

Definition udp_piece_merge (u : udp_piece_t) (buf : list Z) (size : Z) : result (udp_piece_t * Z) :=
  '(p, temp_size) ← find_sync (Z.to_nat size) buf 0 size;
  merge_loop (S (S (Z.to_nat temp_size))) u buf p temp_size 0.

(** ** [udp_piece_merge_ex] *)

(** Two [circular_buffer_get] calls into [value0] and [value1]. *)
Definition get2 (q : Q) (i : Z) (v : Z * Z) : result (Z * Z) :=
  '(_, v0) ← bq_get q i v.1;
  '(_, v1) ← bq_get q (i + 1) v.2;
  Ok (v0, v1).

Definition val16 (v : Z * Z) : Z := be16 v.1 v.2.

(** The first [while] loop: pop bytes until the ring starts with the sync word. *)
Fixpoint skip_to_sync (fuel : nat) (q : Q) (v : Z * Z) : result (Q * (Z * Z)) :=
  match fuel with
  | O => OutOfFuel
  | S fuel =>
      if 2 <=? bq_size q then
        v ← get2 q 0 v;
        if (v.1 =? 0xAF) && (v.2 =? 0xAE) then Ok (q, v)
        else q ← bq_pop_front q 1; skip_to_sync fuel q v
      else Ok (q, v)
  end.

(** [circular_buffer_read] into [&recv_buf[PIECE_FIX_SIZE * p_index]], after the header
    was popped; the third component is [bytes_to_read]. *)
Definition take_frame (u : udp_piece_t) (q : Q) (rb : list Z) (p_index data_len : Z)
  : result (udp_piece_t * Q * Z) :=
  q ← bq_pop_front q HEAD_SIZE;
  '(q, rb, bytes_to_read) ← bq_read q rb (u64 (PIECE_FIX_SIZE * u64 p_index)) data_len;
  Ok (stored_frame u rb (Some q), q, bytes_to_read).

(** The second [while] loop. *)
Fixpoint merge_ex_loop (fuel : nat) (u : udp_piece_t) (q : Q) (v : Z * Z) (got : Z)
  : result (udp_piece_t * Z) :=
  match fuel with
  | O => OutOfFuel
  | S fuel =>
      if bq_size q <=? HEAD_SIZE then Ok (u, got) else
      v ← get2 q HEAD_POS_P_LENGTH v;
      let data_len := u32 (val16 v) in
      if u32 (HEAD_SIZE + data_len) <=? u32 (bq_size q) then
        v ← get2 q HEAD_POS_P_INDEX v;
        let p_index := val16 v in
        v ← get2 q HEAD_POS_TOTAL_SIZE v;
        let ts := val16 v in
        v ← get2 q HEAD_POS_TOTAL_PIECES v;
        let tp := val16 v in
        let '(u, ok) := first_frame u ts tp in
        if negb ok then Ok (u, -1) else
        '(u, ok) ← count_frame u ts tp;
        if negb ok then Ok (u, -1) else
        rb ← of_opt (recv_buf u);
        '(u, q, bytes_to_read) ← take_frame u q rb p_index data_len;
        if negb (u32 bytes_to_read =? data_len) then Ok (u, -1) else
        (* the addition is on uint32_t; the branch for a length mismatch is the
           statement [get_all_pieces - 1;], which changes nothing *)
        let rl := s32 (u32 (recv_len u) + data_len) in
        let '(u, got) := finish_frame u rl got got in
        merge_ex_loop fuel u q v got
      else Ok (u, got)
  end.

Definition with_ring (u : udp_piece_t) (q : Q) : udp_piece_t :=
  mk_udp_piece (recv_pieces u) (total_size u) (total_pieces u) (left_ u) (piece_size u)
    (recv_len u) (recv_buf u) (send_ptr u) (piece_buf u) (Some q) (mallocs u).

Definition udp_piece_merge_ex (u : udp_piece_t) (buf : list Z) (size : Z) : result (udp_piece_t * Z) :=
  q ← of_opt (circular_buffer u);
  '(q, bytes_to_write) ← bq_write q buf size;
  if negb (bytes_to_write =? size) then Ok (with_ring u q, -1) else
  '(q, v) ← skip_to_sync (S (Z.to_nat (bq_size q))) q (0, 0);
  merge_ex_loop (S (Z.to_nat (bq_size q))) (with_ring u q) q v 0.
End udp_piece.

Arguments udp_piece_t Q : clear implicits.

(** ** [src/udp_piece/udp-piece-server.c] and [udp-piece-client.c] *)
Section peers.
Context {Q : Type} `{!ByteQueueOps Q}.
Context (malloc : nat → Z → option (list Z)).

(** What [recvfrom] into [recvbuf] does: a datagram of [n > 0] bytes (cut at the buffer
    size), or [n <= 0] with [errno]; [EINTR] is the only value the loop tests. *)
Inductive recv_outcome :=
  | RecvBytes (bytes : list Z)
  | RecvFail (eintr : bool).

Inductive server_event :=
  | EvMessage (str : list Z) (recv_len : Z)   (* the message printed *)
  | EvBroken                                  (* ret == -1 *)
  | EvPending                                 (* ret == 0 *)
  | EvUnknown
  | EvNothing
  | EvExit.

(** [printf("%s")]: the bytes up to the first NUL; running off the block is undefined. *)
Fixpoint c_string (block : list Z) : result (list Z) :=
  match block with
  | [] => Ub
  | b :: rest => if b =? 0 then Ok [] else s ← c_string rest; Ok (b :: s)
  end.

Definition RECVBUF_SIZE : nat := 1024.

(** One iteration of the loop of [echo_server]: [recvbuf] is zeroed, then filled. *)
Definition echo_server_step (u : udp_piece_t Q) (r : recv_outcome)
  : result (option (udp_piece_t Q) * server_event) :=
  match r with
  | RecvFail eintr => Ok (Some u, if eintr then EvNothing else EvExit)
  | RecvBytes bytes =>
      let got := take RECVBUF_SIZE bytes in
      let n := Z.of_nat (length got) in
      let recvbuf := got ++ replicate (RECVBUF_SIZE - length got) 0 in
      '(u, ret) ← udp_piece_merge_ex malloc u recvbuf n;
      if ret =? 1 then
        rb ← of_opt (recv_buf u);
        str ← c_string rb;
        Ok (udp_piece_reset (Some u), EvMessage str (recv_len u))
      else if ret =? -1 then Ok (udp_piece_reset (Some u), EvBroken)
      else if ret =? 0 then Ok (Some u, EvPending)
      else Ok (udp_piece_reset (Some u), EvUnknown)
  end.

(** The [while] loop of [echo_server] on the outcomes of its [recvfrom] calls. *)
Fixpoint echo_server (u : udp_piece_t Q) (rs : list recv_outcome)
  : result (udp_piece_t Q * list server_event) :=
  match rs with
  | [] => Ok (u, [])
  | r :: rs =>
      '(u', e) ← echo_server_step u r;
      u' ← of_opt u';
      match e with
      | EvExit => Ok (u', [EvExit])
      | _ => '(u', es) ← echo_server u' rs; Ok (u', e :: es)
      end
  end.

(** The [for] loop of [echo_client]: frame [i] is sent as two datagrams, its first five
    bytes and the rest; [n] iterations are left. *)
Fixpoint client_send (n : nat) (u : udp_piece_t Q) (i : Z) : result (udp_piece_t Q * list (list Z)) :=
  match n with
  | O => Ok (u, [])
  | S n =>
      '(u, buf, size) ← udp_piece_get (Some u) i (Some 0);
      u ← of_opt u;
      buf ← of_opt buf;
      size ← of_opt size;
      d1 ← memread buf 0 5;
      d2 ← memread buf 5 (size - 5);
      '(u, ds) ← client_send n u (i + 1);
      Ok (u, d1 :: d2 :: ds)
  end.

(** One round of the outer loop: the datagrams sent for [test_str]. *)
Definition echo_client_round (u : udp_piece_t Q) (test_str : list Z)
  : result (udp_piece_t Q * list (list Z)) :=
  let '(u, pieces) := udp_piece_cut (Some u) (Some test_str) (Z.of_nat (length test_str)) in
  u ← of_opt u;
  client_send (Z.to_nat pieces) u 0.
End peers.
