(* ===== verification/UdpPieceProofs.v ===== *)
(** * UdpPieceProofs: fragmentation and reassembly are inverse

    The abstract side is the list of frames of a message ([frame]); [collecting] is the
    invariant of the reassembler while some frames of a message are missing and
    [complete] the state once all have arrived.  The proofs use the ring only through
    [ByteQueueLaws]. *)

From S2P Require Import Prelude ByteQueue UdpPiece.
#[local] Open Scope Z_scope.

(** ** Frames of a message *)
Definition P : nat := 536.

Definition hi (z : Z) : Z := u8 (Z.shiftr z 8).
Definition lo (z : Z) : Z := u8 (Z.land z 0xff).

Definition header (ts tp i l : Z) : list Z :=
  [0xAF; 0xAE; hi ts; lo ts; hi tp; lo tp; hi i; lo i; hi l; lo l; 0; 0].

(** Number of frames of a message of [n] bytes. *)
Definition npieces (n : nat) : nat := (n + (P - 1)) / P.

Definition chunk (msg : list Z) (i : nat) : list Z := take P (drop (P * i) msg).

Definition frame (msg : list Z) (i : nat) : list Z :=
  header (Z.of_nat (length msg)) (Z.of_nat (npieces (length msg))) (Z.of_nat i)
    (Z.of_nat (length (chunk msg i))) ++ chunk msg i.

(** The bytes on the wire when the frames are sent in the order [todo]. *)
Definition stream (msg : list Z) (todo : list nat) : list Z := concat (frame msg <$> todo).

Definition chunk_bytes (msg : list Z) (l : list nat) : nat :=
  sum_list (length <$> (chunk msg <$> l)).

Lemma be16_hi_lo z : 0 ≤ z < 65536 → be16 (hi z) (lo z) = z.
Proof. apply be16_split. Qed.

Section message.
Context (msg : list Z) (Hmsg : 0 < Z.of_nat (length msg) < 65536).
#[local] Abbreviation np := (npieces (length msg)).

Lemma npieces_bounds : (0 < np ≤ 123)%nat ∧ (P * (np - 1) < length msg ≤ P * np)%nat.
Proof.
  unfold npieces, P. change (536 - 1)%nat with 535%nat.
  pose proof (Nat.div_mod_eq (length msg + 535) 536).
  assert ((length msg + 535) mod 536 < 536)%nat by (apply Nat.mod_upper_bound; lia). lia.
Qed.

Lemma length_chunk i :
  length (chunk msg i) = if decide (i < np - 1)%nat then P
                         else Nat.min (length msg - P * i) P.
Proof.
  unfold chunk. rewrite length_take, length_drop. pose proof npieces_bounds.
  unfold P in *. case_decide; nia.
Qed.

Lemma length_chunk_bounds i : (i < np)%nat →
  (0 < length (chunk msg i) ≤ P)%nat ∧ (P * i + length (chunk msg i) ≤ length msg)%nat.
Proof.
  intros Hi. rewrite length_chunk. pose proof npieces_bounds.
  unfold P in *. case_decide; nia.
Qed.

Lemma chunk_lookup i k : (k < length (chunk msg i))%nat →
  chunk msg i !! k = msg !! (P * i + k)%nat.
Proof.
  unfold chunk. rewrite length_take. intros Hk. rewrite lookup_take_lt by lia.
  apply lookup_drop.
Qed.

(** Every byte of the message is in one chunk. *)
Lemma chunk_cover k : (k < length msg)%nat →
  ∃ i j, (i < np)%nat ∧ (j < length (chunk msg i))%nat ∧ k = (P * i + j)%nat.
Proof.
  intros Hk. exists (k / P)%nat, (k mod P)%nat.
  pose proof (Nat.div_mod_eq k P).
  assert (k mod P < P)%nat by (apply Nat.mod_upper_bound; unfold P; lia).
  pose proof npieces_bounds.
  assert (k / P < np)%nat by (apply Nat.Div0.div_lt_upper_bound; unfold P in *; lia).
  split; [done|split; [|done]]. rewrite length_chunk. unfold P in *. case_decide; lia.
Qed.

(** The chunks laid end to end are the message. *)
Lemma concat_chunks_seq m : (m ≤ np)%nat →
  concat (chunk msg <$> seq 0 m) = take (P * m) msg.
Proof.
  induction m as [|m IH]; intros Hm; [by rewrite Nat.mul_0_r, take_0|].
  rewrite seq_S, fmap_app, concat_app, IH by lia. cbn [fmap list_fmap concat Nat.add].
  rewrite app_nil_r, Nat.mul_succ_r. unfold chunk. apply take_take_drop.
Qed.

Lemma concat_chunks : concat (chunk msg <$> seq 0 np) = msg.
Proof.
  rewrite concat_chunks_seq by done. pose proof npieces_bounds. apply take_ge. lia.
Qed.

(** The chunks of all frames add up to the message. *)
Lemma chunk_bytes_seq m : (m ≤ np)%nat →
  chunk_bytes msg (seq 0 m) = Nat.min (length msg) (P * m).
Proof.
  induction m as [|m IH]; intros Hm; [unfold chunk_bytes; simpl; lia|].
  unfold chunk_bytes in *. rewrite seq_S, !fmap_app, sum_list_with_app, IH by lia. simpl.
  rewrite length_chunk. pose proof npieces_bounds. unfold P in *. case_decide; lia.
Qed.

Lemma chunk_bytes_perm l : l ≡ₚ seq 0 np → chunk_bytes msg l = length msg.
Proof.
  intros Hl. unfold chunk_bytes. rewrite Hl. fold (chunk_bytes msg (seq 0 np)).
  rewrite chunk_bytes_seq by done. pose proof npieces_bounds. lia.
Qed.

Lemma chunk_bytes_snoc l i :
  chunk_bytes msg (l ++ [i]) = (chunk_bytes msg l + length (chunk msg i))%nat.
Proof. unfold chunk_bytes. rewrite !fmap_app, sum_list_with_app. simpl. lia. Qed.

Lemma chunk_bytes_le l : (chunk_bytes msg l ≤ P * length l)%nat.
Proof.
  unfold chunk_bytes. induction l as [|i l IH]; [simpl; lia|].
  rewrite !fmap_cons. cbn [length sum_list_with]. rewrite Nat.mul_succ_r.
  assert (length (chunk msg i) ≤ P)%nat by (unfold chunk; rewrite length_take; lia).
  unfold id in *. lia.
Qed.
End message.

Lemma take_length_take {A} n (l : list A) : take (length (take n l)) l = take n l.
Proof.
  rewrite length_take. destruct (Nat.le_ge_cases n (length l)).
  - by rewrite Nat.min_l.
  - rewrite Nat.min_r, !take_ge by done. done.
Qed.

(** ** Sending side *)
Section sending.
Context {Q : Type} `{!ByteQueueOps Q}.
Context (msg : list Z) (Hmsg : 0 < Z.of_nat (length msg) < 65536).
#[local] Abbreviation np := (npieces (length msg)).

(** The handle after [udp_piece_cut] on [msg]. *)
Record cut_of (u : udp_piece_t Q) : Prop := {
  cut_size : total_size u = Z.of_nat (length msg);
  cut_pieces : total_pieces u = Z.of_nat np;
  cut_left : left_ u = Z.of_nat (length msg) mod PIECE_FIX_SIZE;
  cut_ptr : send_ptr u = Some msg
}.

Lemma cut_spec u : ∃ u',
  udp_piece_cut (Some u) (Some msg) (Z.of_nat (length msg)) = (Some u', Z.of_nat np) ∧ cut_of u'.
Proof.
  unfold udp_piece_cut. destruct (Z.ltb_spec (Z.of_nat (length msg)) 0); [lia|].
  assert ((if 0 <? Z.of_nat (length msg) mod PIECE_FIX_SIZE
           then Z.of_nat (length msg) / PIECE_FIX_SIZE + 1
           else Z.of_nat (length msg) / PIECE_FIX_SIZE) = Z.of_nat np) as ->.
  { unfold npieces, P, PIECE_FIX_SIZE. rewrite Nat2Z.inj_div.
    change (Z.of_nat 536) with 536. change (576 - 8 - 20 - 12) with 536.
    rewrite Nat2Z.inj_add. change (Z.of_nat (536 - 1)) with 535.
    pose proof (Z.div_mod (Z.of_nat (length msg)) 536).
    pose proof (Z.mod_pos_bound (Z.of_nat (length msg)) 536).
    bool_case.
    - apply Z.div_unique with (Z.of_nat (length msg) mod 536 - 1); lia.
    - apply Z.div_unique with 535; lia. }
  eexists. split; [done|]. by split.
Qed.

(** The size the code computes for frame [i] is the length of its chunk. *)
Lemma get_size u i : cut_of u → (i < np)%nat →
  (if bool_decide (Z.of_nat np - 1 = Z.of_nat i ∧ 0 < left_ u) then left_ u else PIECE_FIX_SIZE)
  = Z.of_nat (length (chunk msg i)).
Proof.
  intros [_ _ Hl _] Hi. rewrite Hl, length_chunk by done.
  pose proof (npieces_bounds msg Hmsg) as Hnp. unfold PIECE_FIX_SIZE, P in *.
  change (576 - 8 - 20 - 12) with 536.
  pose proof (Z.div_mod (Z.of_nat (length msg)) 536).
  pose proof (Z.mod_pos_bound (Z.of_nat (length msg)) 536).
  case_bool_decide; case_decide; try lia; nia.
Qed.

Lemma stores_header {A} ts tp i l (z : list Z → result A) :
  (let pb := replicate (Z.to_nat (PIECE_FIX_SIZE + HEAD_SIZE + 1)) 0 in
   pb ← blk_store pb HEAD_POS_SYNC_WORD 0xAF;
   pb ← blk_store pb (HEAD_POS_SYNC_WORD + 1) 0xAE;
   pb ← blk_store pb HEAD_POS_TOTAL_SIZE (hi ts);
   pb ← blk_store pb (HEAD_POS_TOTAL_SIZE + 1) (lo ts);
   pb ← blk_store pb HEAD_POS_TOTAL_PIECES (hi tp);
   pb ← blk_store pb (HEAD_POS_TOTAL_PIECES + 1) (lo tp);
   pb ← blk_store pb HEAD_POS_P_INDEX (hi i);
   pb ← blk_store pb (HEAD_POS_P_INDEX + 1) (lo i);
   pb ← blk_store pb HEAD_POS_P_LENGTH (hi l);
   pb ← blk_store pb (HEAD_POS_P_LENGTH + 1) (lo l);
   z pb) = z (header ts tp i l ++ replicate 537 0).
Proof.
  unfold header. generalize (hi ts), (lo ts), (hi tp), (lo tp), (hi i), (lo i), (hi l), (lo l).
  intros. reflexivity.
Qed.

Lemma length_header ts tp i l : length (header ts tp i l) = 12%nat.
Proof. done. Qed.

Lemma u64_piece_offset i : (i < np)%nat →
  u64 (PIECE_FIX_SIZE * u64 (Z.of_nat i)) = Z.of_nat (P * i).
Proof.
  intros Hi. pose proof (npieces_bounds msg Hmsg). unfold u64, P, PIECE_FIX_SIZE in *.
  rewrite (Z.mod_small (Z.of_nat i)) by lia. rewrite Z.mod_small; lia.
Qed.

Lemma get_spec u i : cut_of u → (i < np)%nat →
  ∃ u' pb, udp_piece_get (Some u) (Z.of_nat i) (Some 0) =
      Ok (Some u', Some pb, Some (Z.of_nat (length (frame msg i)))) ∧
    cut_of u' ∧ length pb = 549%nat ∧ take (length (frame msg i)) pb = frame msg i.
Proof.
  intros Hu Hi. pose proof (length_chunk_bounds msg Hmsg i Hi) as [Hc1 Hc2].
  pose proof (npieces_bounds msg Hmsg) as Hnp. unfold udp_piece_get. cbn [of_opt]. rewrite ok_bind.
  destruct Hu as [Hs Ht Hl Hp] eqn:Hu'. rewrite Hs, Ht, Hp.
  rewrite ck_int_Ok by (unfold INT_MIN, INT_MAX, P in *; lia). rewrite ok_bind.
  rewrite get_size by done.
  set (l := Z.of_nat (length (chunk msg i))).
  do 2 eexists. split.
  { etransitivity;
      [apply (stores_header (Z.of_nat (length msg)) (Z.of_nat np) (Z.of_nat i) l)|].
    cbn [of_opt]. rewrite ok_bind, u64_piece_offset by done.
    rewrite memcpy_Ok; unfold P, HEAD_SIZE in *;
      try (rewrite ?length_app, ?length_header, ?length_replicate; lia).
    rewrite ok_bind. do 4 f_equal. unfold frame. rewrite length_app, length_header. lia. }
  change (Z.to_nat 12) with 12%nat. change (536 * i)%nat with (P * i)%nat.
  replace (take (Z.to_nat l) (drop (Z.to_nat (Z.of_nat (P * i))) msg)) with (chunk msg i)
    by (unfold l; rewrite !Nat2Z.id; symmetry; apply take_length_take).
  split; [by split|].
  rewrite length_splice_Z by (rewrite length_app, length_header, length_replicate; unfold P in *; lia).
  split; [done|].
  unfold splice. rewrite (take_app_length' (header _ _ _ _)) by done.
  rewrite app_assoc. apply take_app_length.
Qed.
End sending.

(** ** Receiving side: the group state, independently of how frames arrive *)
Section receiving.
Context {Q : Type} `{!ByteQueueOps Q}.
Context (malloc : nat → Z → option (list Z)).
(** Allocations succeed and return a block of the requested size. *)
Context (Hmalloc : ∀ k n, 0 ≤ n → ∃ b, malloc k n = Some b ∧ Z.of_nat (length b) = n).
Context (msg : list Z) (Hmsg : 0 < Z.of_nat (length msg) < 65536).
#[local] Abbreviation np := (npieces (length msg)).

Implicit Types u v : udp_piece_t Q.

(** The next frame starts a group: after a reset, or after a completed group. *)
Definition fresh (u : udp_piece_t Q) : Prop :=
  total_size u = 0 ∨ (total_pieces u = 0 ∧ 0 ≤ recv_pieces u < INT_MAX).

(** [b] holds the chunks of the frames in [done] at their places. *)
Definition holds (b : list Z) (done : list nat) : Prop :=
  length b = S (length msg) ∧
  ∀ i j, i ∈ done → (j < length (chunk msg i))%nat → b !! (P * i + j)%nat = chunk msg i !! j.

Record collecting (u : udp_piece_t Q) (done : list nat) : Prop := {
  col_size : total_size u = Z.of_nat (length msg);
  col_pieces : total_pieces u = Z.of_nat np;
  col_recv : recv_pieces u = Z.of_nat (length done);
  col_len : recv_len u = Z.of_nat (chunk_bytes msg done);
  col_buf : ∃ b, recv_buf u = Some b ∧ holds b done
}.

Definition state_ok (u : udp_piece_t Q) (done : list nat) : Prop :=
  match done with [] => fresh u | _ => collecting u done end.

Record complete (u : udp_piece_t Q) : Prop := {
  com_fresh : fresh u;
  com_len : recv_len u = Z.of_nat (length msg);
  com_buf : ∃ b, recv_buf u = Some b ∧ length b = S (length msg) ∧ take (length msg) b = msg
}.

(** The state after the header of a frame was examined: [done] frames before it. *)
Record counted (u : udp_piece_t Q) (done : list nat) : Prop := {
  cnt_size : total_size u = Z.of_nat (length msg);
  cnt_pieces : total_pieces u = Z.of_nat np;
  cnt_recv : recv_pieces u = Z.of_nat (S (length done));
  cnt_len : recv_len u = Z.of_nat (chunk_bytes msg done);
  cnt_buf : ∃ b, recv_buf u = Some b ∧ holds b done
}.

Lemma new_group_buf u ts tp rp : 0 ≤ ts →
  ∃ b, recv_buf (new_group malloc u ts tp rp) = Some b ∧ Z.of_nat (length b) = ts + 1.
Proof using Hmalloc. clear Hmsg. intros Hts. simpl. apply Hmalloc. lia. Qed.

Lemma has_buf_Some u b : recv_buf u = Some b → has_buf u = true.
Proof. intros Hb. unfold has_buf. apply bool_decide_eq_true_2. by rewrite Hb. Qed.

(** The header of a frame of the group being collected, or of a new group. *)
Lemma header_step u done : state_ok u done → (length done < np)%nat →
  ∃ u1 u2, first_frame malloc u (Z.of_nat (length msg)) (Z.of_nat np) = (u1, true) ∧
    count_frame malloc u1 (Z.of_nat (length msg)) (Z.of_nat np) = Ok (u2, true) ∧
    counted u2 done ∧ circular_buffer u2 = circular_buffer u.
Proof.
  intros Hu Hd. pose proof (npieces_bounds msg Hmsg) as Hnp.
  assert (∀ (v : udp_piece_t Q) rp, ∃ b, recv_buf (new_group malloc v (Z.of_nat (length msg)) (Z.of_nat np) rp) = Some b
            ∧ holds b []) as Hng.
  { intros v rp. destruct (new_group_buf v (Z.of_nat (length msg)) (Z.of_nat np) rp)
      as (b & Hb & Hl); [lia|]. exists b. split; [done|]. split; [lia|].
    intros i j Hi. by apply not_elem_of_nil in Hi. }
  unfold first_frame, count_frame. destruct done as [|d done]; simpl in Hu.
  - destruct (Z.eqb_spec (total_size u) 0) as [Hts|Hts].
    + destruct (Hng u 0) as (b & Hb & Hh). rewrite (has_buf_Some _ b Hb).
      do 2 eexists. split; [done|]. simpl. rewrite !Z.eqb_refl.
      split; [done|].
      split; [|done]. split; simpl; eauto.
    + destruct Hu as [?|[Htp Hrp]]; [done|]. do 2 eexists. split; [done|].
      rewrite ck_int_Ok by (unfold INT_MIN, INT_MAX in *; lia). rewrite ok_bind.
      replace (Z.of_nat np =? total_pieces u) with false by (symmetry; apply Z.eqb_neq; lia).
      rewrite orb_true_r. destruct (Hng u 1) as (b & Hb & Hh). rewrite (has_buf_Some _ b Hb).
      split; [done|]. split; [|done]. split; simpl; eauto.
  - destruct Hu as [Hs Ht Hr Hl Hb]. rewrite Hs.
    destruct (Z.eqb_spec (Z.of_nat (length msg)) 0); [lia|].
    do 2 eexists. split; [done|]. rewrite Hs, Ht, Hr, !Z.eqb_refl.
    rewrite ck_int_Ok by (unfold INT_MIN, INT_MAX, P in *; simpl in *; lia).
    split; [done|]. split; [|done]. split; simpl in *; try done. lia.
Qed.

(** Storing a chunk that is not yet there. *)
Lemma holds_splice b done i : holds b done → (i < np)%nat → i ∉ done →
  holds (splice b (P * i) (chunk msg i)) (done ++ [i]).
Proof.
  intros [Hl Hb] Hi Hnd. pose proof (length_chunk_bounds msg Hmsg i Hi) as [Hc1 Hc2].
  split; [rewrite length_splice_Z; lia|]. intros k j Hk Hj.
  rewrite splice_lookup_Z by lia. case_decide as Hd.
  - assert (k = i) as ->.
    { assert (length (chunk msg k) ≤ P)%nat by (unfold chunk; rewrite length_take; lia).
      unfold P in *. nia. }
    f_equal. lia.
  - apply elem_of_app in Hk as [Hk|Hk]; [by apply Hb|].
    apply list_elem_of_singleton in Hk as ->. lia.
Qed.

(** Accounting for a stored chunk: the group goes on or is complete. *)
Lemma finish_step u done i rb q got bad :
  counted u done → holds rb (done ++ [i]) → (i < np)%nat →
  ∃ u', finish_frame (stored_frame u rb q)
      (recv_len u + Z.of_nat (length (chunk msg i))) got bad =
      (u', if bool_decide (S (length done) = np)
           then (if bool_decide (chunk_bytes msg (done ++ [i]) = length msg) then 1 else bad)
           else got) ∧
    circular_buffer u' = q ∧ recv_buf u' = Some rb ∧
    recv_len u' = Z.of_nat (chunk_bytes msg (done ++ [i])) ∧
    (if bool_decide (S (length done) = np) then fresh u' else collecting u' (done ++ [i])).
Proof.
  intros [Hs Ht Hr Hl Hb] Hh Hi. unfold finish_frame. simpl.
  rewrite Hs, Ht, Hr, Hl. replace (_ + Z.of_nat (length (chunk msg i)))
    with (Z.of_nat (chunk_bytes msg (done ++ [i]))) by (rewrite chunk_bytes_snoc; lia).
  destruct (Z.eqb_spec (Z.of_nat (S (length done))) (Z.of_nat np)) as [Hnp|Hnp].
  - rewrite (bool_decide_eq_true_2 (S (length done) = np)) by lia.
    eexists. split.
    { f_equal. destruct (Z.eqb_spec (Z.of_nat (chunk_bytes msg (done ++ [i]))) (Z.of_nat (length msg)));
        case_bool_decide; done || lia. }
    split; [done|]. split; [done|]. split; [done|]. right. simpl. unfold INT_MAX. lia.
  - rewrite (bool_decide_eq_false_2 (S (length done) = np)) by lia.
    eexists. split; [done|]. split; [done|]. split; [done|]. split; [done|].
    split; simpl; try done; [rewrite length_app; simpl; lia|by eauto].
Qed.

(** Once every frame is stored the buffer starts with the message. *)
Lemma holds_all b done : holds b done → done ≡ₚ seq 0 np → take (length msg) b = msg.
Proof.
  intros [Hl Hb] Hperm. apply list_eq. intros k.
  destruct (decide (k < length msg)%nat) as [Hk|Hk].
  - rewrite lookup_take_lt by done.
    destruct (chunk_cover msg Hmsg k Hk) as (i & j & Hi & Hj & ->).
    rewrite Hb; [by apply chunk_lookup| |done].
    rewrite Hperm. apply elem_of_seq. lia.
  - rewrite !(proj2 (lookup_ge_None _ _)); [done|lia|rewrite length_take; lia].
Qed.

(** What receiving frame [i] does, given how its bytes get into [recv_buf]. *)
Lemma accept_step u done i todo : state_ok u done → done ++ i :: todo ≡ₚ seq 0 np →
  ∃ u1 u2 rb, first_frame malloc u (Z.of_nat (length msg)) (Z.of_nat np) = (u1, true) ∧
    count_frame malloc u1 (Z.of_nat (length msg)) (Z.of_nat np) = Ok (u2, true) ∧
    recv_buf u2 = Some rb ∧ (P * i + length (chunk msg i) < length rb)%nat ∧
    0 ≤ recv_len u2 ∧ recv_len u2 + Z.of_nat (length (chunk msg i)) < 2 ^ 20 ∧
    circular_buffer u2 = circular_buffer u ∧ (i < np)%nat ∧
    ∀ q got bad, ∃ u',
      finish_frame (stored_frame u2 (splice rb (P * i) (chunk msg i)) q)
        (recv_len u2 + Z.of_nat (length (chunk msg i))) got bad =
        (u', match todo with [] => 1 | _ => got end) ∧
      circular_buffer u' = q ∧
      match todo with [] => complete u' | _ => state_ok u' (done ++ [i]) end.
Proof.
  intros Hu Hperm. pose proof (npieces_bounds msg Hmsg) as Hnp.
  assert (length (done ++ i :: todo) = np) as Hlen by (by rewrite Hperm, length_seq).
  rewrite length_app in Hlen. simpl in Hlen.
  assert (i < np)%nat as Hi.
  { assert (i ∈ seq 0 np) as Hin by (rewrite <- Hperm; set_solver).
    apply elem_of_seq in Hin. lia. }
  assert (i ∉ done) as Hnd.
  { intros Hin. assert (NoDup (done ++ i :: todo)) as Hn by (rewrite Hperm; apply NoDup_seq).
    apply NoDup_app in Hn as (_ & Hn & _). apply (Hn i Hin). set_solver. }
  pose proof (length_chunk_bounds msg Hmsg i Hi) as [Hc1 Hc2].
  destruct (header_step u done Hu) as (u1 & u2 & H1 & H2 & Hcnt & Hq); [lia|].
  pose proof Hcnt as [Hs Ht Hr Hl (rb & Hb & Hh)].
  pose proof (chunk_bytes_le msg done) as Hcb. unfold holds in Hh.
  exists u1, u2, rb. split_and!; try done; [lia|lia|rewrite Hl; unfold P in *; lia|].
  intros q got bad.
  destruct (finish_step u2 done i (splice rb (P * i) (chunk msg i)) q got bad)
    as (u' & Hf & Hq' & Hb' & Hl' & Hst); [done|by apply holds_splice|done|].
  exists u'. rewrite Hf. clear Hf. destruct todo as [|k todo].
  - simpl in Hlen. rewrite bool_decide_eq_true_2 in * by lia.
    assert (done ++ [i] ≡ₚ seq 0 np) as Hperm' by done.
    rewrite chunk_bytes_perm in * by done. rewrite bool_decide_eq_true_2 by done.
    split; [done|]. split; [done|]. split; [done|by rewrite Hl'|].
    exists (splice rb (P * i) (chunk msg i)). split; [done|].
    assert (holds (splice rb (P * i) (chunk msg i)) (done ++ [i])) as Hh' by by apply holds_splice.
    split; [apply Hh'|by eapply holds_all].
  - simpl in Hlen. rewrite bool_decide_eq_false_2 in * by lia.
    split; [done|]. split; [done|]. by destruct done.
Qed.
End receiving.
