(* ===== verification/UdpReassembly.v ===== *)
(** * UdpReassembly: both merge functions put the message back together

    [udp_piece_merge_ex] is correct for every order of the frames and every way of
    cutting the byte stream into datagrams; [udp_piece_merge] for every order of
    datagrams that carry whole frames. *)

From S2P Require Import Prelude ByteQueue CircularBuffer UdpPiece UdpPieceProofs.
#[local] Open Scope Z_scope.

(** ** Reading header fields *)
Lemma drop_lookup_Z {A} (l : list A) (p : nat) k x rest :
  drop p l = rest → rest !! Z.to_nat k = Some x → 0 ≤ k →
  l !! Z.to_nat (Z.of_nat p + k) = Some x.
Proof.
  intros <- Hx Hk. rewrite lookup_drop in Hx. rewrite <- Hx. f_equal. lia.
Qed.

Lemma load16_spec buf p k rest a b : drop p buf = rest → 0 ≤ k →
  rest !! Z.to_nat k = Some a → rest !! Z.to_nat (k + 1) = Some b →
  load16 buf (Z.of_nat p + k) = Ok (be16 a b).
Proof.
  intros Hd Hk Ha Hb. unfold load16.
  rewrite (blk_load_Ok buf (Z.of_nat p + k) a), ok_bind by (lia || by eapply drop_lookup_Z).
  rewrite <- Z.add_assoc.
  rewrite (blk_load_Ok _ _ b) by (lia || (eapply drop_lookup_Z; done || lia)). done.
Qed.

Lemma header_loads ts tp i l rest buf p :
  0 ≤ ts < 65536 → 0 ≤ tp < 65536 → 0 ≤ i < 65536 → 0 ≤ l < 65536 →
  drop p buf = header ts tp i l ++ rest →
  load16 buf (Z.of_nat p + HEAD_POS_P_LENGTH) = Ok l ∧
  load16 buf (Z.of_nat p + HEAD_POS_P_INDEX) = Ok i ∧
  load16 buf (Z.of_nat p + HEAD_POS_TOTAL_SIZE) = Ok ts ∧
  load16 buf (Z.of_nat p + HEAD_POS_TOTAL_PIECES) = Ok tp.
Proof.
  intros Hts Htp Hi Hl Hd.
  split_and!; (erewrite load16_spec; [|exact Hd|done..]; by rewrite be16_hi_lo).
Qed.

Section fields.
Context {Q : Type} `{!ByteQueueOps Q, !ByteQueueLaws Q}.
Implicit Types q : Q.

Lemma get2_spec q cap xs i a b w : bq_repr q cap xs → 0 ≤ i →
  xs !! Z.to_nat i = Some a → xs !! Z.to_nat (i + 1) = Some b →
  get2 q i w = Ok (a, b).
Proof.
  intros Hq Hi Ha Hb. unfold get2.
  rewrite (bq_get_spec q cap xs i) by done. rewrite Ha, ok_bind.
  rewrite (bq_get_spec q cap xs (i + 1)) by (done || lia). by rewrite Hb.
Qed.

(** The header fields of a frame at the front of the queue. *)
Lemma header_fields ts tp i l rest :
  0 ≤ ts < 65536 → 0 ≤ tp < 65536 → 0 ≤ i < 65536 → 0 ≤ l < 65536 →
  ∀ q cap w, bq_repr q cap (header ts tp i l ++ rest) →
  get2 q 0 w = Ok (0xAF, 0xAE) ∧
  (∃ x, get2 q HEAD_POS_P_LENGTH w = Ok x ∧ val16 x = l) ∧
  (∃ x, get2 q HEAD_POS_P_INDEX w = Ok x ∧ val16 x = i) ∧
  (∃ x, get2 q HEAD_POS_TOTAL_SIZE w = Ok x ∧ val16 x = ts) ∧
  (∃ x, get2 q HEAD_POS_TOTAL_PIECES w = Ok x ∧ val16 x = tp).
Proof.
  intros Hts Htp Hi Hl q cap w Hq.
  split; [by eapply get2_spec|].
  split_and!; (eexists; split; [by eapply get2_spec|]; by apply be16_hi_lo).
Qed.

(** The four fields read one after the other, each through the bytes of the one before. *)
Lemma header_reads ts tp i l rest q cap w :
  0 ≤ ts < 65536 → 0 ≤ tp < 65536 → 0 ≤ i < 65536 → 0 ≤ l < 65536 → bq_repr q cap (header ts tp i l ++ rest) →
  ∃ w1 w2 w3 w4, get2 q HEAD_POS_P_LENGTH w = Ok w1 ∧ get2 q HEAD_POS_P_INDEX w1 = Ok w2 ∧
    get2 q HEAD_POS_TOTAL_SIZE w2 = Ok w3 ∧ get2 q HEAD_POS_TOTAL_PIECES w3 = Ok w4 ∧
    val16 w1 = l ∧ val16 w2 = i ∧ val16 w3 = ts ∧ val16 w4 = tp.
Proof.
  intros Rts Rtp Ri Rl Hq. pose proof (λ w, header_fields _ _ _ _ _ Rts Rtp Ri Rl q cap w Hq) as Hf.
  destruct (Hf w) as (_ & (w1 & E1 & V1) & _). destruct (Hf w1) as (_ & _ & (w2 & E2 & V2) & _).
  destruct (Hf w2) as (_ & _ & _ & (w3 & E3 & V3) & _). destruct (Hf w3) as (_ & _ & _ & _ & (w4 & E4 & V4)).
  by exists w1, w2, w3, w4.
Qed.

End fields.

Section merge_ex.
Context {Q : Type} `{!ByteQueueOps Q, !ByteQueueLaws Q}.
Context (malloc : nat → Z → option (list Z)).
Context (Hmalloc : ∀ k n, 0 ≤ n → ∃ b, malloc k n = Some b ∧ Z.of_nat (length b) = n).
Context (msg : list Z) (Hmsg : 0 < Z.of_nat (length msg) < 65536).
#[local] Abbreviation np := (npieces (length msg)).
Implicit Types (u v : udp_piece_t Q) (q : Q).

Lemma frame_range i : (i < np)%nat →
  0 ≤ Z.of_nat (length msg) < 65536 ∧ 0 ≤ Z.of_nat np < 65536 ∧
  0 ≤ Z.of_nat i < 65536 ∧ 0 ≤ Z.of_nat (length (chunk msg i)) < 65536 ∧
  (0 < length (chunk msg i) ≤ P)%nat.
Proof.
  intros Hi. pose proof (npieces_bounds msg Hmsg).
  pose proof (length_chunk_bounds msg Hmsg i Hi). unfold P in *. lia.
Qed.

Lemma length_frame i : length (frame msg i) = (12 + length (chunk msg i))%nat.
Proof. done. Qed.

(** One iteration on a queue that starts with a whole frame. *)
Lemma merge_ex_iter fuel u q cap w got done i todo rest :
  state_ok msg u done → done ++ i :: todo ≡ₚ seq 0 np →
  bq_repr q cap (frame msg i ++ rest) → circular_buffer u = Some q →
  ∃ u' q' w', merge_ex_loop malloc (S fuel) u q w got =
      merge_ex_loop malloc fuel u' q' w' (match todo with [] => 1 | _ => got end) ∧
    bq_repr q' cap rest ∧ circular_buffer u' = Some q' ∧
    match todo with [] => complete msg u' | _ => state_ok msg u' (done ++ [i]) end.
Proof.
  intros Hu Hperm Hq Hring.
  destruct (accept_step malloc Hmalloc msg Hmsg u done i todo)
    as (u1 & u2 & rb & H1 & H2 & Hrb & Hfit & Hrl0 & Hrl & Hcq & Hi & Hfin); [done|done|].
  destruct (frame_range i Hi) as (Rts & Rtp & Ri & Rl & Hc).
  pose proof (bq_bounded _ _ _ Hq) as Hbd. pose proof (bq_size_spec _ _ _ Hq) as Hsz.
  assert (length (frame msg i ++ rest) = 12 + length (chunk msg i) + length rest)%nat as Hlen
    by (rewrite length_app, length_frame; lia).
  unfold frame in Hq. rewrite <- app_assoc in Hq.
  cbn [merge_ex_loop]. rewrite Hsz, Hlen. unfold HEAD_SIZE at 1.
  destruct (Z.leb_spec (Z.of_nat (12 + length (chunk msg i) + length rest)) 12); [lia|].
  destruct (header_reads _ _ _ _ _ q cap w Rts Rtp Ri Rl Hq) as (w1 & w2 & w3 & w4 & -> & G2 & G3 & G4 & V1 & V2 & V3 & V4).
  rewrite ok_bind, V1. replace (u32 (Z.of_nat (length (chunk msg i)))) with (Z.of_nat (length (chunk msg i)))
    by (unfold u32; rewrite Z.mod_small; lia).
  unfold HEAD_SIZE at 1. unfold INT_MAX in *. rewrite (Hlen) in Hbd.
  destruct (Z.leb_spec (u32 (12 + Z.of_nat (length (chunk msg i))))
              (u32 (Z.of_nat (12 + length (chunk msg i) + length rest)))) as [_|Hbad].
  2: { exfalso. unfold u32 in Hbad. rewrite !Z.mod_small in Hbad by lia. lia. }
  rewrite G2, ok_bind, V2, G3, ok_bind, V3, G4, ok_bind, V4, H1. cbn [negb]. rewrite H2, ok_bind. cbn [negb].
  rewrite Hrb. cbn [of_opt]. rewrite ok_bind. unfold take_frame.
  destruct (bq_pop_spec q cap _ HEAD_SIZE Hq) as (q1 & -> & Hq1); [done|]. rewrite ok_bind.
  change (Z.to_nat HEAD_SIZE) with (length (header (Z.of_nat (length msg)) (Z.of_nat np)
     (Z.of_nat i) (Z.of_nat (length (chunk msg i))))) in Hq1. rewrite drop_app_length in Hq1.
  rewrite (u64_piece_offset msg) by done.
  destruct (bq_read_spec q1 cap (chunk msg i ++ rest) rb (Z.of_nat (P * i))
              (Z.of_nat (length (chunk msg i))) Hq1) as (q2 & Hrd & Hq2);
    [lia|lia|rewrite length_app; lia|].
  rewrite Hrd, ok_bind. clear Hrd.
  replace (Z.min (Z.of_nat (length (chunk msg i))) (Z.of_nat (length (chunk msg i ++ rest))))
    with (Z.of_nat (length (chunk msg i))) in * by (rewrite length_app; lia).
  rewrite ok_bind, !Nat2Z.id, take_app_length in *. rewrite drop_app_length in Hq2.
  replace (u32 (Z.of_nat (length (chunk msg i)))) with (Z.of_nat (length (chunk msg i)))
    by (unfold u32; rewrite Z.mod_small; lia).
  rewrite Z.eqb_refl. cbn [negb].
  change (recv_len (stored_frame u2 _ _)) with (recv_len u2).
  replace (s32 (u32 (recv_len u2) + Z.of_nat (length (chunk msg i))))
    with (recv_len u2 + Z.of_nat (length (chunk msg i))).
  2: { unfold s32, u32. rewrite !(Z.mod_small (recv_len u2)), !Z.mod_small by lia.
       rewrite bool_decide_eq_true_2; lia. }
  destruct (Hfin (Some q2) got got) as (u' & -> & Hu'q & Hu').
  exists u', q2, w4. auto.
Qed.

(** A list that begins like [a ++ b] and is at least as long as [a] begins with [a]. *)
Lemma prefix_split {A} (xs rest a b : list A) :
  xs ++ rest = a ++ b → (length a ≤ length xs)%nat →
  ∃ ys, xs = a ++ ys ∧ ys ++ rest = b.
Proof.
  intros Heq Hl. exists (drop (length a) xs).
  assert (take (length a) xs = a) as Ha.
  { rewrite <- (take_app_le xs rest) by done. rewrite Heq. apply take_app_length. }
  assert (xs = a ++ drop (length a) xs) as Hxs by (rewrite <- (take_drop (length a) xs) at 1; by rewrite Ha).
  split; [done|]. rewrite Hxs, <- app_assoc in Heq. by apply app_inv_head in Heq.
Qed.

(** The loop leaves an incomplete frame in the queue. *)
Lemma merge_ex_stop fuel u q cap w got i xs rest more :
  bq_repr q cap xs → xs ++ rest = frame msg i ++ more → (i < np)%nat →
  (length xs < length (frame msg i))%nat →
  merge_ex_loop malloc (S fuel) u q w got = Ok (u, got).
Proof.
  intros Hq Heq Hi Hlt. cbn [merge_ex_loop]. rewrite (bq_size_spec _ _ _ Hq).
  destruct (Z.leb_spec (Z.of_nat (length xs)) HEAD_SIZE) as [|Hgt]; [done|].
  unfold HEAD_SIZE in Hgt. destruct (frame_range i Hi) as (Rts & Rtp & Ri & Rl & Hc).
  pose proof (bq_bounded _ _ _ Hq) as Hbd. unfold INT_MAX in *.
  rewrite length_frame in Hlt. unfold frame in Heq. rewrite <- app_assoc in Heq.
  destruct (prefix_split _ _ _ _ Heq) as (ys & -> & _); [rewrite length_header; lia|].
  destruct (header_fields _ _ _ _ _ Rts Rtp Ri Rl q cap w Hq) as (_ & (w1 & -> & E1) & _).
  rewrite ok_bind, E1. rewrite length_app, length_header in *.
  match goal with |- context [Z.leb ?a ?b] => destruct (Z.leb_spec a b) as [Hle|_] end; [|done].
  exfalso. unfold u32, HEAD_SIZE in Hle.
  rewrite (Z.mod_small (Z.of_nat (length (chunk msg i)))) in Hle by lia.
  rewrite !Z.mod_small in Hle by lia. lia.
Qed.

Lemma stream_cons i todo : stream msg (i :: todo) = frame msg i ++ stream msg todo.
Proof. done. Qed.

(** Contents of the queue after the loop: no whole frame is left. *)
Definition leftover (ys rest : list Z) (todo : list nat) : Prop :=
  ys ++ rest = stream msg todo ∧
  match todo with [] => True | i :: _ => (length ys < length (frame msg i))%nat end.

(** The outcome of feeding part of the stream. *)
Definition fed u' q' cap (rest : list Z) done todo : Prop :=
  match rest with
  | [] => complete msg u' ∧ bq_repr q' cap []
  | _ => ∃ a b ys, todo = a ++ b ∧ b ≠ [] ∧ state_ok msg u' (done ++ a) ∧
           bq_repr q' cap ys ∧ leftover ys rest b
  end.

Lemma merge_ex_loop_spec todo : ∀ fuel u q cap w got done xs rest,
  todo ≠ [] → state_ok msg u done → done ++ todo ≡ₚ seq 0 np →
  bq_repr q cap xs → circular_buffer u = Some q →
  xs ++ rest = stream msg todo → (length xs < fuel)%nat →
  ∃ u' q', merge_ex_loop malloc fuel u q w got =
      Ok (u', match rest with [] => 1 | _ => got end) ∧
    circular_buffer u' = Some q' ∧ fed u' q' cap rest done todo.
Proof.
  induction todo as [|i todo IH]; intros fuel u q cap w got done xs rest
    Hne Hu Hperm Hq Hring Heq Hfuel; [by destruct Hne|]. clear Hne.
  assert (i < np)%nat as Hi.
  { assert (i ∈ seq 0 np) as Hin by (rewrite <- Hperm; set_solver).
    apply elem_of_seq in Hin. lia. }
  destruct fuel as [|fuel]; [lia|]. rewrite stream_cons in Heq.
  destruct (decide (length (frame msg i) ≤ length xs)%nat) as [Hle|Hlt].
  - destruct (prefix_split _ _ _ _ Heq Hle) as (ys & -> & Heq').
    destruct (merge_ex_iter fuel u q cap w got done i todo ys Hu Hperm Hq Hring)
      as (u1 & q1 & w1 & -> & Hq1 & Hring1 & Hu1).
    rewrite length_app, length_frame in Hfuel.
    destruct todo as [|k todo].
    + apply app_nil in Heq' as [-> ->]. destruct fuel as [|fuel]; [lia|].
      cbn [merge_ex_loop]. rewrite (bq_size_spec _ _ _ Hq1). simpl.
      exists u1, q1. done.
    + destruct (IH fuel u1 q1 cap w1 got (done ++ [i]) ys rest)
        as (u2 & q2 & Hres & Hring2 & Hfed); try done; [by rewrite <- app_assoc|lia|].
      exists u2, q2. split; [done|]. split; [done|]. destruct rest as [|r rest]; [done|].
      destruct Hfed as (a & b & zs & Hab & Hb & Hst & Hqr & Hlo).
      exists (i :: a), b, zs. rewrite Hab. rewrite <- app_assoc in Hst. done.
  - erewrite merge_ex_stop; [|done|exact Heq|done|lia].
    destruct rest as [|r rest].
    + exfalso. rewrite app_nil_r in Heq. subst xs. rewrite length_app in Hlt. lia.
    + exists u, q. split; [done|]. split; [done|].
      exists [], (i :: todo), xs. rewrite app_nil_r. split_and!; try done.
      split; [done|lia].
Qed.

(** The first loop of [udp_piece_merge_ex] stops at once on a frame boundary. *)
Lemma skip_to_sync_spec fuel q cap xs rest i todo w :
  bq_repr q cap xs → xs ++ rest = stream msg (i :: todo) →
  ∃ w', skip_to_sync (S fuel) q w = Ok (q, w').
Proof.
  intros Hq Heq. cbn [skip_to_sync]. rewrite (bq_size_spec _ _ _ Hq).
  destruct (Z.leb_spec 2 (Z.of_nat (length xs))) as [H2|]; [|eauto].
  destruct xs as [|x [|y xs]]; simpl in H2; try lia. injection Heq as -> -> _.
  rewrite (get2_spec q cap _ 0 0xAF 0xAE w Hq) by done. rewrite ok_bind. simpl. eauto.
Qed.

Lemma state_ok_with_ring u q done : state_ok msg u done → state_ok msg (with_ring u q) done.
Proof. destruct done; [done|]. intros []. by split. Qed.

(** One call of [udp_piece_merge_ex] on the next piece [c] of the stream. *)
Lemma merge_ex_call u q cap done todo ys rest c buf :
  todo ≠ [] → state_ok msg u done → done ++ todo ≡ₚ seq 0 np →
  circular_buffer u = Some q → bq_repr q cap ys → leftover ys (c ++ rest) todo →
  take (length c) buf = c → Z.of_nat (length c) + 548 ≤ cap →
  ∃ u' q', udp_piece_merge_ex malloc u buf (Z.of_nat (length c)) =
      Ok (u', match rest with [] => 1 | _ => 0 end) ∧
    circular_buffer u' = Some q' ∧ fed u' q' cap rest done todo.
Proof.
  intros Hne Hu Hperm Hring Hq [Heq Hlo] Hbuf Hcap. unfold udp_piece_merge_ex.
  rewrite Hring. cbn [of_opt]. rewrite ok_bind.
  destruct todo as [|i todo]; [done|].
  assert (i < np)%nat as Hi.
  { assert (i ∈ seq 0 np) as Hin by (rewrite <- Hperm; set_solver).
    apply elem_of_seq in Hin. lia. }
  destruct (frame_range i Hi) as (_ & _ & _ & _ & Hc). rewrite length_frame in Hlo. unfold P in Hc.
  assert (length c ≤ length buf)%nat as Hcb.
  { rewrite <- Hbuf, length_take. lia. }
  destruct (bq_write_spec q cap ys buf (Z.of_nat (length c)) Hq) as (q1 & Hw & Hq1); [lia|].
  rewrite Z.min_l in * by lia. rewrite Hw, ok_bind, Z.eqb_refl. cbn [negb]. clear Hw.
  rewrite Nat2Z.id, Hbuf in Hq1. rewrite app_assoc in Heq.
  destruct (skip_to_sync_spec (Z.to_nat (bq_size q1)) q1 cap _ rest i todo (0, 0) Hq1 Heq)
    as (w & ->). rewrite ok_bind.
  apply (merge_ex_loop_spec (i :: todo)) with (xs := ys ++ c); try done.
  - by apply state_ok_with_ring.
  - rewrite (bq_size_spec _ _ _ Hq1). lia.
Qed.

(** [feed u cs]: one call of [udp_piece_merge_ex] per datagram, with the return values. *)
Fixpoint feed u (cs : list (list Z)) : result (udp_piece_t Q * list Z) :=
  match cs with
  | [] => Ok (u, [])
  | c :: cs =>
      '(u, r) ← udp_piece_merge_ex malloc u c (Z.of_nat (length c));
      '(u, rs) ← feed u cs;
      Ok (u, r :: rs)
  end.

Lemma concat_snoc_ne {A} (cs : list (list A)) c : c ≠ [] → concat (cs ++ [c]) ≠ [].
Proof. intros Hc. rewrite concat_app. simpl. destruct (concat cs), c; done. Qed.

Lemma feed_spec cap cs c : c ≠ [] → ∀ u q done todo ys,
  todo ≠ [] → state_ok msg u done → done ++ todo ≡ₚ seq 0 np →
  circular_buffer u = Some q → bq_repr q cap ys → leftover ys (concat (cs ++ [c])) todo →
  Forall (λ d, Z.of_nat (length d) + 548 ≤ cap) (cs ++ [c]) →
  ∃ u' q', feed u (cs ++ [c]) = Ok (u', replicate (length cs) 0 ++ [1]) ∧
    circular_buffer u' = Some q' ∧ complete msg u' ∧ bq_repr q' cap [].
Proof.
  intros Hc. induction cs as [|d cs IH]; intros u q done todo ys Hne Hu Hperm Hring Hq Hlo Hcap.
  - simpl in *. rewrite Forall_singleton in Hcap.
    destruct (merge_ex_call u q cap done todo ys [] c c Hne Hu Hperm Hring Hq Hlo)
      as (u' & q' & -> & Hring' & Hfed & Hq'); [by rewrite take_ge|done|].
    rewrite ok_bind. exists u', q'. done.
  - cbn [app feed] in *. apply Forall_cons in Hcap as [Hd Hcap].
    destruct (merge_ex_call u q cap done todo ys (concat (cs ++ [c])) d d Hne Hu Hperm Hring Hq)
      as (u1 & q1 & -> & Hring1 & Hfed); [done|by rewrite take_ge|done|].
    rewrite ok_bind. pose proof (concat_snoc_ne cs c Hc) as Hr. unfold fed in Hfed.
    destruct (concat (cs ++ [c])) as [|r rs] eqn:Er; [done|].
    destruct Hfed as (a & b & zs & -> & Hb & Hst & Hq1 & Hlo1).
    rewrite app_assoc in Hperm.
    destruct (IH u1 q1 (done ++ a) b zs Hb Hst Hperm Hring1 Hq1 Hlo1 Hcap)
      as (u2 & q2 & -> & ?). rewrite ok_bind. exists u2, q2. done.
Qed.

Lemma leftover_start order : order ≡ₚ seq 0 np → order ≠ [] ∧ leftover [] (stream msg order) order.
Proof.
  intros Hperm. pose proof (npieces_bounds msg Hmsg) as Hnp.
  assert (length order = np) as Hl by (by rewrite Hperm, length_seq).
  destruct order as [|i order]; [simpl in Hl; lia|]. split; [done|]. split; [done|].
  simpl. lia.
Qed.
End merge_ex.

(** ** [udp_piece_merge]: datagrams of whole frames *)
Section merge.
Context {Q : Type} `{!ByteQueueOps Q}.
Context (malloc : nat → Z → option (list Z)).
Context (Hmalloc : ∀ k n, 0 ≤ n → ∃ b, malloc k n = Some b ∧ Z.of_nat (length b) = n).
Context (msg : list Z) (Hmsg : 0 < Z.of_nat (length msg) < 65536).
#[local] Abbreviation np := (npieces (length msg)).
Implicit Types u : udp_piece_t Q.

Lemma merge_iter fuel u buf p temp got done i todo rest :
  state_ok msg u done → done ++ i :: todo ≡ₚ seq 0 np →
  drop p buf = frame msg i ++ rest → Z.of_nat (length (frame msg i)) ≤ temp →
  ∃ u', merge_loop malloc (S fuel) u buf (Z.of_nat p) temp got =
      merge_loop malloc fuel u' buf (Z.of_nat (p + length (frame msg i)))
        (temp - Z.of_nat (length (frame msg i))) (match todo with [] => 1 | _ => got end) ∧
    match todo with [] => complete msg u' | _ => state_ok msg u' (done ++ [i]) end.
Proof.
  intros Hu Hperm Hd Htemp.
  destruct (accept_step malloc Hmalloc msg Hmsg u done i todo)
    as (u1 & u2 & rb & H1 & H2 & Hrb & Hfit & Hrl0 & Hrl & _ & Hi & Hfin); [done|done|].
  destruct (frame_range msg Hmsg i Hi) as (Rts & Rtp & Ri & Rl & Hc).
  rewrite length_frame in *. unfold frame in Hd. rewrite <- app_assoc in Hd.
  destruct (header_loads _ _ _ _ _ _ _ Rts Rtp Ri Rl Hd) as (E1 & E2 & E3 & E4).
  cbn [merge_loop]. unfold HEAD_SIZE at 1.
  destruct (Z.leb_spec temp 12); [lia|]. rewrite E1, ok_bind. unfold HEAD_SIZE at 1.
  destruct (Z.leb_spec (12 + Z.of_nat (length (chunk msg i))) temp); [|lia].
  rewrite E2, ok_bind, E3, ok_bind, E4, ok_bind, H1. cbn [negb]. rewrite H2, ok_bind.
  cbn [negb]. rewrite Hrb. cbn [of_opt]. rewrite ok_bind, (u64_piece_offset msg) by done.
  assert (length (drop p buf) = 12 + length (chunk msg i) + length rest)%nat as Hl.
  { rewrite Hd, !length_app, length_header. lia. }
  rewrite length_drop in Hl. unfold HEAD_SIZE.
  rewrite memcpy_Ok by lia. rewrite ok_bind.
  replace (take _ (drop (Z.to_nat (Z.of_nat p + 12)) buf)) with (chunk msg i).
  2: { replace (Z.to_nat (Z.of_nat p + 12)) with (p + 12)%nat by lia.
       rewrite <- drop_drop, Hd, Nat2Z.id.
       change 12%nat with (length (header (Z.of_nat (length msg)) (Z.of_nat np) (Z.of_nat i)
          (Z.of_nat (length (chunk msg i))))).
       by rewrite drop_app_length, take_app_length. }
  rewrite ck_int_Ok by (simpl; unfold INT_MIN, INT_MAX; lia). rewrite ok_bind, Nat2Z.id.
  change (recv_len (stored_frame u2 _ _)) with (recv_len u2).
  destruct (Hfin (circular_buffer u2) got (-1)) as (u' & -> & _ & Hu').
  exists u'. split; [|done]. f_equal; lia.
Qed.

Lemma merge_loop_spec a : ∀ fuel u buf p got done todo extra,
  state_ok msg u done → done ++ a ++ todo ≡ₚ seq 0 np →
  drop p buf = stream msg a ++ extra → (length (stream msg a) < fuel)%nat → a ≠ [] →
  ∃ u', merge_loop malloc fuel u buf (Z.of_nat p) (Z.of_nat (length (stream msg a))) got =
      Ok (u', match todo with [] => 1 | _ => got end) ∧
    match todo with [] => complete msg u' | _ => state_ok msg u' (done ++ a) end.
Proof.
  induction a as [|i a IH]; intros fuel u buf p got done todo extra Hu Hperm Hd Hfuel Hne;
    [by destruct Hne|]. clear Hne.
  rewrite stream_cons in *. rewrite <- app_assoc in Hd. rewrite length_app in *.
  destruct fuel as [|fuel]; [lia|]. cbn [app] in Hperm.
  destruct (merge_iter fuel u buf p (Z.of_nat (length (frame msg i) + length (stream msg a))) got
              done i (a ++ todo) _ Hu Hperm Hd) as (u1 & -> & Hu1); [lia|].
  replace (_ - _) with (Z.of_nat (length (stream msg a))) by lia.
  rewrite length_frame in *. destruct a as [|k a].
  - destruct fuel as [|fuel]; [lia|]. cbn [merge_loop stream fmap list_fmap concat length Z.of_nat].
    exists u1. split; [done|]. by destruct todo.
  - destruct (IH fuel u1 buf (p + (12 + length (chunk msg i)))%nat got (done ++ [i]) todo extra)
      as (u' & Heq & Hu'); try done.
    + by rewrite <- app_assoc.
    + rewrite <- drop_drop, Hd, <- length_frame. apply drop_app_length.
    + lia.
    + exists u'. rewrite <- app_assoc in Hu'. done.
Qed.

(** [feed_merge u ds]: one call of [udp_piece_merge] per datagram. *)
Fixpoint feed_merge u (ds : list (list Z)) : result (udp_piece_t Q * list Z) :=
  match ds with
  | [] => Ok (u, [])
  | d :: ds =>
      '(u, r) ← udp_piece_merge malloc u d (Z.of_nat (length d));
      '(u, rs) ← feed_merge u ds;
      Ok (u, r :: rs)
  end.

Lemma find_sync_stream i a temp :
  find_sync (length (stream msg (i :: a))) (stream msg (i :: a)) 0 temp = Ok (0, temp).
Proof. rewrite stream_cons. reflexivity. Qed.

Lemma feed_merge_spec groups a : ∀ u done,
  state_ok msg u done → done ++ concat (groups ++ [a]) ≡ₚ seq 0 np →
  Forall (λ g, g ≠ []) (groups ++ [a]) →
  ∃ u', feed_merge u (stream msg <$> groups ++ [a]) = Ok (u', replicate (length groups) 0 ++ [1]) ∧
    complete msg u'.
Proof.
  induction groups as [|g groups IH]; intros u done Hu Hperm Hne.
  - cbn [app fmap list_fmap feed_merge concat] in *. rewrite Forall_singleton in Hne.
    unfold udp_piece_merge. destruct a as [|i a]; [done|].
    rewrite Nat2Z.id, find_sync_stream, ok_bind.
    destruct (merge_loop_spec (i :: a) (S (S (Z.to_nat (Z.of_nat (length (stream msg (i :: a)))))))
                u (stream msg (i :: a)) 0 0 done [] []) as (u' & Hl & Hu'); try done.
    { by rewrite app_nil_r. }
    { lia. }
    change (Z.of_nat 0) with 0 in Hl. rewrite Hl, ok_bind, ok_bind. by exists u'.
  - cbn [app fmap list_fmap feed_merge concat] in *. apply Forall_cons in Hne as [Hg Hne].
    unfold udp_piece_merge at 1. destruct g as [|i g]; [done|].
    rewrite Nat2Z.id, find_sync_stream, ok_bind.
    assert (concat (groups ++ [a]) ≠ []) as Hr.
    { apply concat_snoc_ne. rewrite Forall_app, Forall_singleton in Hne. apply Hne. }
    destruct (merge_loop_spec (i :: g) (S (S (Z.to_nat (Z.of_nat (length (stream msg (i :: g)))))))
                u (stream msg (i :: g)) 0 0 done (concat (groups ++ [a])) [])
      as (u1 & Hl & Hu1); try done.
    { by rewrite app_nil_r. }
    { lia. }
    change (Z.of_nat 0) with 0 in Hl. rewrite Hl, ok_bind. clear Hl.
    destruct (concat (groups ++ [a])) eqn:Ec; [done|]. rewrite <- Ec in *.
    destruct (IH u1 (done ++ i :: g)) as (u' & Hf & Hu'); [done|by rewrite <- app_assoc|done|].
    rewrite Hf, ok_bind. by exists u'.
Qed.
End merge.
