(* ===== verification/UdpSession.v ===== *)
(** * UdpSession: the client loop composed with the server loop

    [client_datagrams] computes what one round of [echo_client] sends; the server loop
    fed with the datagrams of any number of rounds prints every message, in order, and
    ends up with an empty ring.  The second half treats arbitrary input: both merge
    functions always return, and the frames that make them write out of bounds are
    characterised. *)

From S2P Require Import Prelude ByteQueue CircularBuffer UdpPiece UdpPieceProofs UdpReassembly.
#[local] Open Scope Z_scope.

(** ** Sending: the two datagrams of every frame *)
Definition split5 (f : list Z) : list (list Z) := [take 5 f; drop 5 f].

Definition round_datagrams (msg : list Z) : list (list Z) :=
  (seq 0 (npieces (length msg))) ≫= (λ i, split5 (frame msg i)).

Section client.
Context {Q : Type} `{!ByteQueueOps Q}.
Context (msg : list Z) (Hmsg : 0 < Z.of_nat (length msg) < 65536).
Implicit Types u : udp_piece_t Q.

Lemma concat_split5 (l : list nat) :
  concat (l ≫= (λ i, split5 (frame msg i))) = stream msg l.
Proof.
  induction l as [|i l IH]; [done|]. rewrite bind_cons, concat_app, IH.
  cbn [split5 concat]. rewrite app_nil_r, take_drop. done.
Qed.

Lemma client_send_spec n u i : cut_of msg u → (i + n = npieces (length msg))%nat →
  ∃ u', client_send n u (Z.of_nat i) = Ok (u', seq i n ≫= (λ i, split5 (frame msg i))) ∧
    cut_of msg u'.
Proof.
  revert u i. induction n as [|n IH]; intros u i Hu Hi; [by exists u|].
  assert (i < npieces (length msg))%nat as Hlt by lia.
  destruct (get_spec msg Hmsg u i Hu Hlt) as (u1 & pb & Hget & Hu1 & Hl & Htake).
  cbn [client_send]. rewrite Hget, ok_bind. cbn [of_opt]. rewrite !ok_bind.
  pose proof (length_chunk_bounds msg Hmsg i Hlt) as [Hc _].
  assert (length (frame msg i) ≤ 549)%nat as Hf.
  { rewrite <- Htake, length_take. lia. }
  rewrite length_frame in *.
  rewrite !memread_Ok, !ok_bind by lia.
  destruct (IH u1 (S i) Hu1) as (u2 & Hs & Hu2); [lia|].
  replace (Z.of_nat i + 1) with (Z.of_nat (S i)) by lia.
  rewrite Hs, ok_bind. exists u2. split; [|done]. do 2 f_equal.
  rewrite <- cons_seq, bind_cons. cbn [split5 app]. rewrite <- Htake.
  rewrite take_take, Nat.min_l by lia. change (Z.to_nat 0) with 0%nat. rewrite drop_0.
  f_equal. f_equal. rewrite take_drop_commute. f_equal. f_equal. lia.
Qed.

Lemma echo_client_round_spec u : ∃ u', echo_client_round u msg = Ok (u', round_datagrams msg).
Proof.
  destruct (cut_spec msg Hmsg u) as (u1 & Hcut & Hu1). unfold echo_client_round.
  rewrite Hcut. cbn [of_opt]. rewrite ok_bind, Nat2Z.id.
  destruct (client_send_spec (npieces (length msg)) u1 0 Hu1) as (u2 & Hs & _); [lia|].
  change (Z.of_nat 0) with 0 in Hs. exists u2. done.
Qed.

(** No datagram is empty or larger than the server's buffer. *)
Lemma round_datagrams_small :
  Forall (λ d, (0 < length d ≤ 543)%nat) (round_datagrams msg).
Proof.
  apply Forall_forall. intros d Hd. apply list_elem_of_bind in Hd as (i & Hd & Hi).
  apply elem_of_seq in Hi. pose proof (length_chunk_bounds msg Hmsg i ltac:(lia)) as [Hc _].
  pose proof (length_frame msg i) as Hf. unfold P in Hc.
  unfold split5 in Hd. rewrite !elem_of_cons in Hd. destruct Hd as [->|[->|Hd]].
  - rewrite length_take. lia.
  - rewrite length_drop. lia.
  - by apply not_elem_of_nil in Hd.
Qed.

Lemma round_datagrams_ne : ∃ cs c, round_datagrams msg = cs ++ [c] ∧ c ≠ [].
Proof.
  destruct (round_datagrams msg) as [|d ds _] eqn:E using rev_ind.
  - pose proof (npieces_bounds msg Hmsg). unfold round_datagrams in E.
    destruct (npieces (length msg)); [lia|]. done.
  - exists ds, d. split; [done|]. pose proof round_datagrams_small as Hs.
    rewrite E, Forall_app, Forall_singleton in Hs. intros ->. simpl in Hs. lia.
Qed.
End client.

(** ** Receiving *)
Lemma c_string_app s t r : c_string s = Ok r → c_string (s ++ t) = Ok r.
Proof.
  revert r. induction s as [|b s IH]; intros r; [done|]. simpl.
  destruct (b =? 0); [done|]. destruct (c_string s) as [s'| |]; [|done..].
  rewrite (IH _ eq_refl). done.
Qed.

Section server.
Context {Q : Type} `{!ByteQueueOps Q, !ByteQueueLaws Q}.
Context (malloc : nat → Z → option (list Z)).
Context (Hmalloc : ∀ k n, 0 ≤ n → ∃ b, malloc k n = Some b ∧ Z.of_nat (length b) = n).
Context (cap : Z) (Hcap : 543 + 548 ≤ cap).
Implicit Types (u v : udp_piece_t Q) (q : Q).

(** Idle: no group is under way and the ring is empty. *)
Definition idle u : Prop := fresh u ∧ ∃ q, circular_buffer u = Some q ∧ bq_repr q cap [].

Lemma reset_idle u q xs : circular_buffer u = Some q → bq_repr q cap xs →
  ∃ u', udp_piece_reset (Some u) = Some u' ∧ idle u'.
Proof.
  intros Hq Hxs. eexists. split; [done|]. split; [by left|]. simpl. rewrite Hq.
  exists (bq_reset q). split; [done|]. by eapply bq_reset_spec.
Qed.

Lemma take_app_pad c n : take (length c) (c ++ replicate n 0) = c.
Proof. by rewrite take_app_length. Qed.

(** The server on the datagrams of one message. *)
Lemma server_message msg s cs c : 0 < Z.of_nat (length msg) < 65536 → c_string msg = Ok s →
  c ≠ [] → ∀ u q done todo ys,
  todo ≠ [] → state_ok msg u done → done ++ todo ≡ₚ seq 0 (npieces (length msg)) →
  circular_buffer u = Some q → bq_repr q cap ys → leftover msg ys (concat (cs ++ [c])) todo →
  Forall (λ d, (0 < length d ≤ 543)%nat) (cs ++ [c]) →
  ∃ u', echo_server malloc u (RecvBytes <$> cs ++ [c]) =
      Ok (u', replicate (length cs) EvPending ++ [EvMessage s (Z.of_nat (length msg))]) ∧ idle u'.
Proof.
  intros Hmsg Hs Hc. induction cs as [|d cs IH];
    intros u q done todo ys Hne Hu Hperm Hring Hq Hlo Hsmall;
    cbn [app fmap list_fmap echo_server echo_server_step] in *;
    apply Forall_cons in Hsmall as [Hd Hsmall];
    (rewrite take_ge by (unfold RECVBUF_SIZE; lia)).
  - destruct (merge_ex_call malloc Hmalloc msg Hmsg u q cap done todo ys [] c
      (c ++ replicate (RECVBUF_SIZE - length c) 0) Hne Hu Hperm Hring Hq Hlo)
      as (u1 & q1 & -> & Hring1 & [_ Hl (b & Hb & _ & Ht)] & Hq1); [apply take_app_pad|lia|].
    rewrite ok_bind. change (1 =? 1) with true. cbn [negb]. rewrite Hb, <- (take_drop (length msg) b), Ht.
    cbn [of_opt]. rewrite ok_bind, (c_string_app _ _ s), ok_bind by done.
    destruct (reset_idle u1 q1 [] Hring1 Hq1) as (u2 & -> & Hidle).
    rewrite Hl, ok_bind. cbn [of_opt]. rewrite !ok_bind. by exists u2.
  - destruct (merge_ex_call malloc Hmalloc msg Hmsg u q cap done todo ys (concat (cs ++ [c])) d
      (d ++ replicate (RECVBUF_SIZE - length d) 0) Hne Hu Hperm Hring Hq)
      as (u1 & q1 & -> & Hring1 & Hfed); [done|apply take_app_pad|lia|].
    rewrite ok_bind. pose proof (concat_snoc_ne cs c Hc) as Hr. unfold fed in Hfed.
    destruct (concat (cs ++ [c])) as [|r rs] eqn:Er; [done|].
    destruct Hfed as (a & b & zs & -> & Hb & Hst & Hq1 & Hlo1).
    rewrite app_assoc in Hperm. simpl.
    destruct (IH u1 q1 (done ++ a) b zs Hb Hst Hperm Hring1 Hq1 Hlo1 Hsmall)
      as (u2 & -> & ?). cbn. by exists u2.
Qed.

Lemma server_round msg s u : 0 < Z.of_nat (length msg) < 65536 → c_string msg = Ok s → idle u →
  ∃ u' k, echo_server malloc u (RecvBytes <$> round_datagrams msg) =
      Ok (u', replicate k EvPending ++ [EvMessage s (Z.of_nat (length msg))]) ∧ idle u'.
Proof.
  intros Hmsg Hs (Hu & q & Hring & Hq).
  destruct (round_datagrams_ne msg Hmsg) as (cs & c & Hds & Hc).
  destruct (leftover_start msg Hmsg (seq 0 (npieces (length msg)))) as [Hne Hlo]; [done|].
  rewrite <- (concat_split5 msg) in Hlo. fold (round_datagrams msg) in Hlo.
  pose proof (round_datagrams_small msg Hmsg) as Hsmall. rewrite Hds in *.
  destruct (server_message msg s cs c Hmsg Hs Hc u q [] _ [] Hne Hu (reflexivity _) Hring Hq Hlo Hsmall)
    as (u' & ? & ?). eauto.
Qed.

(** A prefix of the input that does not stop the loop. *)
Lemma echo_server_app u rs rs' u1 es : echo_server malloc u rs = Ok (u1, es) → EvExit ∉ es →
  echo_server malloc u (rs ++ rs') = '(u2, es') ← echo_server malloc u1 rs'; Ok (u2, es ++ es').
Proof.
  revert u es. induction rs as [|r rs IH]; intros u es; cbn [app echo_server].
  - intros [= -> <-] _. by destruct (echo_server malloc u1 rs') as [[]| |].
  - intros H Hes. destruct (echo_server_step malloc u r) as [[[u'|] e]| |]; try done.
    cbn [mbind result_bind of_opt] in *.
    destruct e; try (injection H as -> <-; exfalso; apply Hes; left);
      (destruct (echo_server malloc u' rs) as [[u2 es2]| |] eqn:E; cbn in H; [|done..];
       injection H as -> <-; rewrite (IH u' es2) by (done || (intros ?; apply Hes; by right));
       by destruct (echo_server malloc u1 rs') as [[]| |]).
Qed.
End server.

(** The client's outer loop on a list of messages, one round each. *)
Fixpoint client_rounds {Q} `{!ByteQueueOps Q} (u : udp_piece_t Q) (msgs : list (list Z))
  : result (udp_piece_t Q * list (list Z)) :=
  match msgs with
  | [] => Ok (u, [])
  | m :: msgs =>
      '(u, ds) ← echo_client_round u m;
      '(u, ds') ← client_rounds u msgs;
      Ok (u, ds ++ ds')
  end.

Definition messages (es : list server_event) : list (list Z * Z) :=
  omap (λ e, match e with EvMessage s n => Some (s, n) | _ => None end) es.

Definition quiet (e : server_event) : Prop :=
  match e with EvPending | EvMessage _ _ => True | _ => False end.

Section session.
Context {Q : Type} `{!ByteQueueOps Q, !ByteQueueLaws Q}.
Context (malloc : nat → Z → option (list Z)).
Context (Hmalloc : ∀ k n, 0 ≤ n → ∃ b, malloc k n = Some b ∧ Z.of_nat (length b) = n).
Context (cap : Z) (Hcap : 543 + 548 ≤ cap).

Lemma messages_app es es' : messages (es ++ es') = messages es ++ messages es'.
Proof. apply omap_app. Qed.

Lemma messages_pending k : messages (replicate k EvPending) = [].
Proof. by induction k. Qed.

Lemma rounds_spec (uc us : udp_piece_t Q) msgs strs : idle cap us →
  Forall2 (λ m s, 0 < Z.of_nat (length m) < 65536 ∧ c_string m = Ok s) msgs strs →
  ∃ uc' ds us' es, client_rounds uc msgs = Ok (uc', ds) ∧
    echo_server malloc us (RecvBytes <$> ds) = Ok (us', es) ∧
    messages es = zip strs ((λ m, Z.of_nat (length m)) <$> msgs) ∧
    Forall quiet es ∧ idle cap us'.
Proof.
  intros Hus Hall. revert uc us Hus.
  induction Hall as [|m s msgs strs [Hm Hs] _ IH]; intros uc us Hus.
  - exists uc, [], us, []. by split_and!.
  - destruct (echo_client_round_spec m Hm uc) as (uc1 & Hc).
    destruct (server_round malloc Hmalloc cap Hcap m s us Hm Hs Hus) as (us1 & k & Hr & Hus1).
    destruct (IH uc1 us1 Hus1) as (uc2 & ds & us2 & es & Hc2 & Hr2 & Hmsgs & Hq & Hus2).
    exists uc2, (round_datagrams m ++ ds), us2. eexists. split.
    { cbn [client_rounds]. by rewrite Hc, ok_bind, Hc2. }
    split.
    { rewrite fmap_app. erewrite (echo_server_app malloc us _ _ us1); [by rewrite Hr2|exact Hr|].
      rewrite elem_of_app, elem_of_replicate, list_elem_of_singleton. naive_solver. }
    split; [|split; [|done]].
    { rewrite !messages_app, messages_pending, Hmsgs. done. }
    rewrite !Forall_app, Forall_singleton. split; [|done]. split; [|done].
    by apply Forall_replicate.
Qed.
End session.

(** ** Arbitrary input *)
Section arbitrary.
Context {Q : Type} `{!ByteQueueOps Q, !ByteQueueLaws Q}.
Context (malloc : nat → Z → option (list Z)).
Implicit Types (u v : udp_piece_t Q) (q : Q).

Lemma get2_total q cap xs i w : bq_repr q cap xs → 0 ≤ i → ∃ w', get2 q i w = Ok w'.
Proof.
  intros Hq Hi. unfold get2. rewrite (bq_get_spec q cap xs i), ok_bind by done.
  destruct (xs !! Z.to_nat i); rewrite (bq_get_spec q cap xs (i + 1)) by (done || lia);
    destruct (xs !! Z.to_nat (i + 1)); rewrite ok_bind; eauto.
Qed.

Lemma skip_to_sync_total fuel : ∀ q cap xs w, bq_repr q cap xs → (length xs < fuel)%nat →
  ∃ q' w' n, skip_to_sync fuel q w = Ok (q', w') ∧ bq_repr q' cap (drop n xs).
Proof.
  induction fuel as [|fuel IH]; intros q cap xs w Hq Hl; [lia|]. cbn [skip_to_sync].
  rewrite (bq_size_spec _ _ _ Hq).
  destruct (Z.leb_spec 2 (Z.of_nat (length xs))); [|by exists q, w, 0%nat].
  destruct (get2_total q cap xs 0 w Hq) as (w' & ->); [lia|]. rewrite ok_bind.
  destruct (_ && _); [by exists q, w', 0%nat|].
  destruct (bq_pop_spec q cap xs 1 Hq) as (q1 & -> & Hq1); [lia|]. rewrite ok_bind.
  destruct (IH q1 cap _ w' Hq1) as (q2 & w2 & n & -> & Hq2); [rewrite length_drop; lia|].
  exists q2, w2, (1 + n)%nat. split; [done|]. by rewrite drop_drop in Hq2.
Qed.

Lemma bq_read_total q cap xs dst off n : bq_repr q cap xs → 0 ≤ n →
  bq_read q dst off n = Ub ∨
  ∃ q' dst' m, bq_read q dst off n = Ok (q', dst', m) ∧ bq_repr q' cap (drop (Z.to_nat m) xs).
Proof.
  intros Hq Hn. destruct (decide (n = 0)) as [->|].
  { right. rewrite (bq_read_zero q cap xs) by done. by exists q, dst, 0. }
  destruct (decide (0 ≤ off ∧ off + Z.min n (Z.of_nat (length xs)) ≤ Z.of_nat (length dst)))
    as [[H1 H2]|Hf].
  - right. destruct (bq_read_spec q cap xs dst off n Hq Hn H1 H2) as (q' & -> & Hq'). eauto.
  - left. apply (bq_read_fault q cap xs); [done|lia|done].
Qed.

(** What a call may do: undefined behaviour, or a return value of -1, 0 or 1 with the
    ring still well-formed. *)
Definition sound (cap : Z) (r : result (udp_piece_t Q * Z)) : Prop :=
  r = Ub ∨ ∃ u' q' xs' z, r = Ok (u', z) ∧ (z = -1 ∨ z = 0 ∨ z = 1) ∧
    circular_buffer u' = Some q' ∧ bq_repr q' cap xs'.

Lemma sound_ok cap u z q xs : circular_buffer u = Some q → bq_repr q cap xs →
  (z = -1 ∨ z = 0 ∨ z = 1) → sound cap (Ok (u, z)).
Proof. intros. right. by exists u, q, xs, z. Qed.

Lemma first_frame_ring u ts tp : circular_buffer (first_frame malloc u ts tp).1 = circular_buffer u.
Proof. unfold first_frame. by destruct (_ =? _). Qed.

Lemma count_frame_total u ts tp : count_frame malloc u ts tp = Ub ∨
  ∃ u' b, count_frame malloc u ts tp = Ok (u', b) ∧ circular_buffer u' = circular_buffer u.
Proof.
  unfold count_frame, ck_int. case_bool_decide; [|by left]. right. rewrite ok_bind.
  destruct (_ || _); eauto.
Qed.

Lemma take_frame_total u q cap xs rb i n : bq_repr q cap xs → 0 ≤ n →
  take_frame u q rb i n = Ub ∨
  ∃ u' q' m k, take_frame u q rb i n = Ok (u', q', m) ∧ circular_buffer u' = Some q' ∧
    bq_repr q' cap (drop (12 + k) xs).
Proof.
  intros Hq Hn. unfold take_frame.
  destruct (bq_pop_spec q cap xs HEAD_SIZE Hq) as (q1 & -> & Hq1); [done|]. rewrite ok_bind.
  destruct (bq_read_total q1 cap _ rb (u64 (PIECE_FIX_SIZE * u64 i)) n Hq1 Hn)
    as [->|(q2 & dst & m & -> & Hq2)]; [by left|].
  right. do 3 eexists. exists (Z.to_nat m). split; [done|]. split; [done|].
  by rewrite drop_drop in Hq2.
Qed.

Lemma finish_frame_sound u rl got bad : (got = -1 ∨ got = 0 ∨ got = 1) → 
  (bad = -1 ∨ bad = 0 ∨ bad = 1) → ∃ u' z, finish_frame u rl got bad = (u', z) ∧
    (z = -1 ∨ z = 0 ∨ z = 1) ∧ circular_buffer u' = circular_buffer u.
Proof.
  intros Hg Hb. unfold finish_frame. destruct (recv_pieces u =? total_pieces u);
    do 2 eexists; (split; [done|]); [|done]. split; [|done].
  destruct (rl =? total_size u); auto.
Qed.

Lemma merge_ex_loop_total fuel : ∀ u q cap xs w got,
  bq_repr q cap xs → circular_buffer u = Some q → (length xs < fuel)%nat →
  (got = -1 ∨ got = 0 ∨ got = 1) → sound cap (merge_ex_loop malloc fuel u q w got).
Proof.
  induction fuel as [|fuel IH]; intros u q cap xs w got Hq Hring Hl Hgot; [lia|].
  cbn [merge_ex_loop]. rewrite (bq_size_spec _ _ _ Hq). unfold HEAD_SIZE at 1.
  destruct (Z.leb_spec (Z.of_nat (length xs)) 12) as [|Hlen]; [by eapply sound_ok|].
  destruct (get2_total q cap xs HEAD_POS_P_LENGTH w Hq) as (w1 & ->); [done|]. rewrite ok_bind.
  destruct (u32 _ <=? u32 _); [|by eapply sound_ok].
  destruct (get2_total q cap xs HEAD_POS_P_INDEX w1 Hq) as (w2 & ->); [done|]. rewrite ok_bind.
  destruct (get2_total q cap xs HEAD_POS_TOTAL_SIZE w2 Hq) as (w3 & ->); [done|]. rewrite ok_bind.
  destruct (get2_total q cap xs HEAD_POS_TOTAL_PIECES w3 Hq) as (w4 & ->); [done|]. rewrite ok_bind.
  destruct (first_frame malloc u (val16 w3) (val16 w4)) as [u1 b1] eqn:E1.
  assert (circular_buffer u1 = Some q) as Hring1.
  { rewrite <- Hring, <- (first_frame_ring u (val16 w3) (val16 w4)), E1. done. }
  destruct b1; cbn [negb]; [|eapply sound_ok; eauto].
  destruct (count_frame_total u1 (val16 w3) (val16 w4)) as [->|(u2 & b2 & -> & Hring2)];
    [by left|]. rewrite ok_bind. rewrite Hring1 in Hring2.
  destruct b2; cbn [negb]; [|eapply sound_ok; eauto].
  destruct (recv_buf u2) as [rb|]; [|by left]. cbn [of_opt]. rewrite ok_bind.
  destruct (take_frame_total u2 q cap xs rb (val16 w2) (u32 (val16 w1)) Hq)
    as [->|(u3 & q3 & m & k & -> & Hring3 & Hq3)]; [apply Z.mod_pos_bound; lia|by left|].
  rewrite ok_bind. destruct (negb _); [eapply sound_ok; eauto|].
  destruct (finish_frame_sound u3 (s32 (u32 (recv_len u3) + u32 (val16 w1))) got got Hgot Hgot)
    as (u4 & z & -> & Hz & Hring4).
  apply (IH u4 q3 cap _ w4 z Hq3); [by rewrite Hring4| |done].
  rewrite length_drop. lia.
Qed.

Lemma udp_piece_merge_ex_sound u q cap xs buf n :
  circular_buffer u = Some q → bq_repr q cap xs → 0 ≤ n ≤ Z.of_nat (length buf) →
  sound cap (udp_piece_merge_ex malloc u buf n).
Proof.
  intros Hring Hq Hn. unfold udp_piece_merge_ex. rewrite Hring. cbn [of_opt]. rewrite ok_bind.
  destruct (bq_write_spec q cap xs buf n Hq Hn) as (q1 & -> & Hq1). rewrite ok_bind.
  destruct (negb _); [eapply sound_ok; eauto|].
  destruct (skip_to_sync_total (S (Z.to_nat (bq_size q1))) q1 cap _ (0, 0) Hq1)
    as (q2 & w2 & k & -> & Hq2); [rewrite (bq_size_spec _ _ _ Hq1); lia|].
  rewrite ok_bind. eapply merge_ex_loop_total; [done|done| |auto].
  rewrite (bq_size_spec _ _ _ Hq2). lia.
Qed.

(** [udp_piece_merge] has its input bounded by [size], which falls with each frame. *)
Lemma find_sync_total n : ∀ buf p temp, find_sync n buf p temp = Ub ∨
  ∃ p' temp', find_sync n buf p temp = Ok (p', temp').
Proof.
  assert (∀ b i, blk_load b i = Ub ∨ ∃ x, blk_load b i = Ok x) as Hld.
  { intros b i. unfold blk_load. case_bool_decide; [|by left]. destruct (b !! _); simpl; eauto. }
  induction n as [|n IH]; intros buf p temp; cbn [find_sync]; [eauto|].
  destruct (Hld buf p) as [->|(b0 & ->)]; [by left|]. rewrite ok_bind.
  destruct (b0 =? 175); [|rewrite ok_bind; apply IH].
  destruct (Hld buf (p + 1)) as [->|(b1 & ->)]; [by left|]. rewrite !ok_bind.
  destruct (b1 =? 174); [eauto|apply IH].
Qed.

Lemma load16_total buf i : load16 buf i = Ub ∨ ∃ a b, load16 buf i = Ok (be16 a b) ∧
  a ∈ buf ∧ b ∈ buf.
Proof.
  assert (∀ b i, blk_load b i = Ub ∨ ∃ x, blk_load b i = Ok x ∧ x ∈ b) as Hld.
  { intros b j. unfold blk_load. case_bool_decide; [|by left].
    destruct (b !! _) eqn:E; simpl; [|by left]. right. eexists. split; [done|].
    by eapply list_elem_of_lookup_2. }
  unfold load16. destruct (Hld buf i) as [->|(a & -> & ?)]; [by left|]. rewrite ok_bind.
  destruct (Hld buf (i + 1)) as [->|(b & -> & ?)]; [by left|]. rewrite ok_bind. right; eauto.
Qed.

Lemma be16_nonneg a b : is_byte a → is_byte b → 0 ≤ be16 a b < 65536.
Proof. unfold is_byte, be16. intros. rewrite Z.shiftl_mul_pow2 by lia. lia. Qed.

(** After a first frame the block is the one its header asked for. *)
Lemma group_block u ts tp :
  (∀ k n, 0 ≤ n → ∃ b, malloc k n = Some b ∧ Z.of_nat (length b) = n) →
  0 ≤ ts → 0 < tp → fresh u →
  ∃ u1 u2 b, first_frame malloc u ts tp = (u1, true) ∧ count_frame malloc u1 ts tp = Ok (u2, true) ∧
    recv_buf u2 = Some b ∧ Z.of_nat (length b) = ts + 1.
Proof.
  intros Hm Hts Htp Hu.
  assert (∀ v rp, ∃ b, recv_buf (new_group malloc v ts tp rp) = Some b ∧ Z.of_nat (length b) = ts + 1)
    as Hng by (intros v rp; exact (new_group_buf malloc Hm v ts tp rp Hts)).
  unfold first_frame, count_frame. destruct (Z.eqb_spec (total_size u) 0) as [Hz|Hz].
  - destruct (Hng u 0) as (b & Hb & Hl). rewrite (has_buf_Some _ b Hb).
    eexists _, _, b. split; [done|]. cbn. rewrite !Z.eqb_refl. done.
  - destruct Hu as [?|[Htp0 Hrp]]; [done|]. destruct (Hng u 1) as (b & Hb & Hl).
    eexists _, _, b. split; [done|].
    rewrite ck_int_Ok by (unfold INT_MIN, INT_MAX in *; lia). rewrite ok_bind, Htp0.
    destruct (Z.eqb_spec tp 0); [lia|]. rewrite orb_true_r, (has_buf_Some _ b Hb). done.
Qed.

Lemma merge_loop_total fuel : ∀ u buf p temp got, Forall is_byte buf →
  (Z.to_nat temp < fuel)%nat → merge_loop malloc fuel u buf p temp got ≠ OutOfFuel.
Proof.
  intros u buf p temp got Hbuf. rewrite Forall_forall in Hbuf. revert u p temp got.
  induction fuel as [|fuel IH]; intros u p temp got Hl; [lia|].
  cbn [merge_loop]. unfold HEAD_SIZE at 1. destruct (Z.leb_spec temp 12); [done|].
  destruct (load16_total buf (p + HEAD_POS_P_LENGTH)) as [->|(a & b & -> & Ha & Hb)]; [done|].
  rewrite ok_bind. pose proof (be16_nonneg a b (Hbuf _ Ha) (Hbuf _ Hb)).
  unfold HEAD_SIZE at 1. destruct (_ <=? temp); [|apply IH; lia].
  destruct (load16_total buf (p + HEAD_POS_P_INDEX)) as [->|(? & ? & -> & _ & _)]; [done|]; rewrite ok_bind.
  destruct (load16_total buf (p + HEAD_POS_TOTAL_SIZE)) as [->|(? & ? & -> & _ & _)]; [done|]; rewrite ok_bind.
  destruct (load16_total buf (p + HEAD_POS_TOTAL_PIECES)) as [->|(? & ? & -> & _ & _)]; [done|]; rewrite ok_bind.
  destruct (first_frame malloc u _ _) as [u1 b1]. destruct b1; cbn [negb]; [|done].
  match goal with |- context [count_frame malloc u1 ?ts ?tp] =>
    destruct (count_frame_total u1 ts tp) as [->|(u2 & b2 & -> & _)] end; [done|].
  rewrite ok_bind. destruct b2; cbn [negb]; [|done].
  destruct (recv_buf u2) as [rb|]; [|done]. cbn [of_opt]. rewrite ok_bind.
  unfold memcpy, memread, memwrite. do 2 (case_bool_decide; [|done]; rewrite ok_bind).
  unfold ck_int. case_bool_decide; [|done]. rewrite ok_bind.
  destruct (finish_frame _ _ _ _) as [u3 z]. apply IH. unfold HEAD_SIZE. lia.
Qed.

(** A first frame that reaches past the block its own total size asks for. *)
Lemma merge_loop_forged u ts tp i body buf (p : nat) rest fuel temp got :
  (∀ k n, 0 ≤ n → ∃ b, malloc k n = Some b ∧ Z.of_nat (length b) = n) →
  fresh u → 0 < ts < 65536 → 0 < tp < 65536 → 0 ≤ i < 65536 →
  (0 < length body)%nat → Z.of_nat (length body) < 65536 →
  ts + 1 < 536 * i + Z.of_nat (length body) →
  drop p buf = (header ts tp i (Z.of_nat (length body)) ++ body) ++ rest →
  12 + Z.of_nat (length body) ≤ temp →
  merge_loop malloc (S fuel) u buf (Z.of_nat p) temp got = Ub.
Proof.
  intros Hm Hu Hts Htp Hi Hne Hl Hover Hd Htemp. rewrite <- app_assoc in Hd.
  destruct (header_loads ts tp i (Z.of_nat (length body)) (body ++ rest) buf p)
    as (E1 & E2 & E3 & E4); [lia..|done|].
  cbn [merge_loop]. unfold HEAD_SIZE at 1. destruct (Z.leb_spec temp 12); [lia|].
  rewrite E1, ok_bind. unfold HEAD_SIZE at 1.
  destruct (Z.leb_spec (12 + Z.of_nat (length body)) temp); [|lia].
  rewrite E2, ok_bind, E3, ok_bind, E4, ok_bind.
  destruct (group_block u ts tp) as (u1 & u2 & rb & -> & -> & Hrb & Hlen); [done|lia|lia|done|].
  cbn [negb]. rewrite ok_bind. cbn [negb]. rewrite Hrb. cbn [of_opt]. rewrite ok_bind.
  assert (length (drop p buf) = 12 + length body + length rest)%nat as Hlb.
  { rewrite Hd, !length_app, length_header. lia. }
  rewrite length_drop in Hlb. unfold HEAD_SIZE.
  rewrite memcpy_fault; [done|lia|lia|lia|].
  unfold u64, PIECE_FIX_SIZE. rewrite (Z.mod_small i), Z.mod_small by lia. lia.
Qed.
End arbitrary.
