(* ===== verification/UdpTheorems.v ===== *)
(** * UdpTheorems: what the UDP fragmentation protocol guarantees

    The properties of udp-piece.c, udp-piece-client.c and udp-piece-server.c, each with
    its witness: reassembly through the ring and without it, the composed client and
    server, the layout of the frames on the wire, termination on arbitrary input, and
    the inputs on which the reassembler misbehaves. *)

From S2P Require Import Prelude ByteQueue CircularBuffer UdpPiece UdpPieceProofs UdpReassembly.
From S2P Require Import UdpSession.
#[local] Open Scope Z_scope.

(** ** Concrete inputs for the witnesses *)
Definition test_malloc (_ : nat) (n : Z) : option (list Z) := Some (replicate (Z.to_nat n) 7).
Definition test_ring : circular_buffer_t := mk_circular_buffer 0 0 0 2048 (replicate 2048 0).
Definition test_handle : udp_piece_t circular_buffer_t :=
  mk_udp_piece 0 0 0 0 0 0 None None [] (Some test_ring) 0.
Definition test_msg : list Z := replicate 599 65 ++ [0].

Lemma test_malloc_ok k n : 0 ≤ n → ∃ b, test_malloc k n = Some b ∧ Z.of_nat (length b) = n.
Proof. intros. eexists. split; [done|]. rewrite length_replicate. lia. Qed.

Lemma test_ring_repr : bq_repr test_ring 2048 [].
Proof. split; [|done]. split; simpl; lia. Qed.

Lemma test_idle : idle 2048 test_handle.
Proof. split; [by left|]. exists test_ring. split; [done|apply test_ring_repr]. Qed.

Lemma test_msg_range : 0 < Z.of_nat (length test_msg) < 65536.
Proof. by vm_compute. Qed.

(** C4. Reassembly through the ring buffer: if the bytes of all frames of a message of 1
    to 65535 bytes, in any order of the frames, arrive cut into datagrams in any way that
    fits the ring, every call of [udp_piece_merge_ex] but the last returns 0, the last
    returns 1, and [recv_buf] then starts with the message and [recv_len] is its length. *)
Theorem merge_ex_reassembles {Q} `{!ByteQueueOps Q, !ByteQueueLaws Q}
    (malloc : nat → Z → option (list Z)) (u : udp_piece_t Q) q cap msg order cs c :
  (∀ k n, 0 ≤ n → ∃ b, malloc k n = Some b ∧ Z.of_nat (length b) = n) →
  0 < Z.of_nat (length msg) < 65536 →
  fresh u → circular_buffer u = Some q → bq_repr q cap [] →
  order ≡ₚ seq 0 (npieces (length msg)) →
  concat (cs ++ [c]) = stream msg order → c ≠ [] →
  Forall (λ d, Z.of_nat (length d) + 548 ≤ cap) (cs ++ [c]) →
  ∃ u' b, feed malloc u (cs ++ [c]) = Ok (u', replicate (length cs) 0 ++ [1]) ∧
    recv_buf u' = Some b ∧ take (length msg) b = msg ∧
    recv_len u' = Z.of_nat (length msg).
Proof.
  intros Hm Hmsg Hu Hring Hq Hperm Hcs Hc Hcap.
  destruct (leftover_start msg Hmsg order Hperm) as [Hne Hlo]. rewrite <- Hcs in Hlo.
  destruct (feed_spec malloc Hm msg Hmsg cap cs c Hc u q [] order [] Hne Hu Hperm Hring Hq Hlo Hcap)
    as (u' & q' & Hf & _ & [_ Hl (b & Hb & _ & Ht)] & _).
  exists u', b. done.
Qed.

Lemma merge_ex_reassembles_witness :
  let bytes := stream test_msg [1; 0]%nat in
  ∃ u' b, feed test_malloc test_handle [take 7 bytes; drop 7 bytes] = Ok (u', [0; 1]) ∧
    recv_buf u' = Some b ∧ take (length test_msg) b = test_msg ∧ recv_len u' = 600.
Proof.
  intros bytes.
  apply (merge_ex_reassembles test_malloc test_handle test_ring 2048 test_msg [1; 0]%nat
    [take 7 bytes] (drop 7 bytes)).
  - apply test_malloc_ok.
  - apply test_msg_range.
  - by left.
  - done.
  - apply test_ring_repr.
  - apply perm_swap.
  - by vm_compute.
  - by vm_compute.
  - apply Forall_cons; split; [by vm_compute|]. apply Forall_singleton. by vm_compute.
Defined.

(** Reassembly without the ring: if every datagram carries whole frames of a message
    of 1 to 65535 bytes, in any order, [udp_piece_merge] returns 0 until the last
    datagram and 1 on it, and [recv_buf] then starts with the message. *)
Theorem merge_reassembles {Q} `{!ByteQueueOps Q}
    (malloc : nat → Z → option (list Z)) (u : udp_piece_t Q) msg groups a :
  (∀ k n, 0 ≤ n → ∃ b, malloc k n = Some b ∧ Z.of_nat (length b) = n) →
  0 < Z.of_nat (length msg) < 65536 → fresh u →
  concat (groups ++ [a]) ≡ₚ seq 0 (npieces (length msg)) →
  Forall (λ g, g ≠ []) (groups ++ [a]) →
  ∃ u' b, feed_merge malloc u (stream msg <$> groups ++ [a]) =
      Ok (u', replicate (length groups) 0 ++ [1]) ∧
    recv_buf u' = Some b ∧ take (length msg) b = msg ∧ recv_len u' = Z.of_nat (length msg).
Proof.
  intros Hm Hmsg Hu Hperm Hne.
  destruct (feed_merge_spec malloc Hm msg Hmsg groups a u [] Hu Hperm Hne)
    as (u' & Hf & [_ Hl (b & Hb & _ & Ht)]).
  exists u', b. done.
Qed.

Lemma merge_reassembles_witness :
  ∃ u' b, feed_merge test_malloc test_handle [stream test_msg [1%nat]; stream test_msg [0%nat]] =
      Ok (u', [0; 1]) ∧
    recv_buf u' = Some b ∧ take (length test_msg) b = test_msg ∧ recv_len u' = 600.
Proof.
  apply (merge_reassembles test_malloc test_handle test_msg [[1%nat]] [0%nat]).
  - apply test_malloc_ok.
  - apply test_msg_range.
  - by left.
  - apply perm_swap.
  - by repeat constructor.
Defined.

(** C23. Client and server together: the datagrams of any number of client rounds, each
    sending one message of 1 to 65535 bytes that contains a NUL, make an idle server print
    every message (up to its NUL) with its length, in order, report nothing else but
    pending frames, and come back to the idle state. *)
Theorem echo_session {Q} `{!ByteQueueOps Q, !ByteQueueLaws Q}
    (malloc : nat → Z → option (list Z)) cap (uc us : udp_piece_t Q) msgs strs :
  (∀ k n, 0 ≤ n → ∃ b, malloc k n = Some b ∧ Z.of_nat (length b) = n) →
  543 + 548 ≤ cap → idle cap us →
  Forall2 (λ m s, 0 < Z.of_nat (length m) < 65536 ∧ c_string m = Ok s) msgs strs →
  ∃ uc' ds us' es, client_rounds uc msgs = Ok (uc', ds) ∧
    echo_server malloc us (RecvBytes <$> ds) = Ok (us', es) ∧
    messages es = zip strs ((λ m, Z.of_nat (length m)) <$> msgs) ∧
    Forall quiet es ∧ idle cap us'.
Proof. intros Hm Hcap. by apply rounds_spec. Qed.

Lemma echo_session_witness :
  ∃ uc' ds us' es, client_rounds test_handle [test_msg; [72; 105; 0]] = Ok (uc', ds) ∧
    echo_server test_malloc test_handle (RecvBytes <$> ds) = Ok (us', es) ∧
    messages es = [(replicate 599 65, 600); ([72; 105], 3)] ∧
    Forall quiet es ∧ idle 2048 us'.
Proof.
  apply (echo_session test_malloc 2048 test_handle test_handle [test_msg; [72; 105; 0]]
    [replicate 599 65; [72; 105]]).
  - apply test_malloc_ok.
  - done.
  - apply test_idle.
  - repeat constructor; by vm_compute.
Defined.

(** Layout on the wire: after [udp_piece_cut] of a message of 1 to 65535 bytes,
    [udp_piece_get] returns for every index the frame of that index (12 header bytes with
    sync word, total size, frame count, index and length in big-endian order, then the
    bytes of the message from 536 times the index) and its size, and the chunks of all
    frames laid end to end are the message. *)
Theorem cut_get_frames {Q} `{!ByteQueueOps Q} (u : udp_piece_t Q) msg :
  0 < Z.of_nat (length msg) < 65536 →
  ∃ u', udp_piece_cut (Some u) (Some msg) (Z.of_nat (length msg)) =
      (Some u', Z.of_nat (npieces (length msg))) ∧
    (∀ i, (i < npieces (length msg))%nat → ∃ u'' pb,
      udp_piece_get (Some u') (Z.of_nat i) (Some 0) =
        Ok (Some u'', Some pb, Some (Z.of_nat (length (frame msg i)))) ∧
      take (length (frame msg i)) pb = frame msg i ∧
      (0 < length (chunk msg i) ≤ 536)%nat) ∧
    concat (chunk msg <$> seq 0 (npieces (length msg))) = msg.
Proof.
  intros Hmsg. destruct (cut_spec msg Hmsg u) as (u' & Hcut & Hu'). exists u'.
  split; [done|]. split.
  - intros i Hi. destruct (get_spec msg Hmsg u' i Hu' Hi) as (u'' & pb & Hg & _ & _ & Ht).
    exists u'', pb. split; [done|]. split; [done|]. by apply length_chunk_bounds.
  - by apply concat_chunks.
Qed.

Lemma cut_get_frames_witness :
  ∃ u', udp_piece_cut (Some test_handle) (Some test_msg) 600 = (Some u', 2) ∧
    (∀ i, (i < 2)%nat → ∃ u'' pb,
      udp_piece_get (Some u') (Z.of_nat i) (Some 0) =
        Ok (Some u'', Some pb, Some (Z.of_nat (length (frame test_msg i)))) ∧
      take (length (frame test_msg i)) pb = frame test_msg i ∧
      (0 < length (chunk test_msg i) ≤ 536)%nat) ∧
    concat (chunk test_msg <$> seq 0 2) = test_msg.
Proof. apply (cut_get_frames test_handle test_msg), test_msg_range. Defined.

(** C24. Every call of [udp_piece_merge_ex] on any bytes at all returns (both loops
    terminate) unless it performs an out-of-range access or overflow: it returns -1, 0 or
    1 and leaves the ring well-formed with the same capacity. *)
Theorem merge_ex_returns {Q} `{!ByteQueueOps Q, !ByteQueueLaws Q} malloc
    (u : udp_piece_t Q) q cap xs buf n :
  circular_buffer u = Some q → bq_repr q cap xs → 0 ≤ n ≤ Z.of_nat (length buf) →
  udp_piece_merge_ex malloc u buf n = Ub ∨
  ∃ u' q' xs' r, udp_piece_merge_ex malloc u buf n = Ok (u', r) ∧
    (r = -1 ∨ r = 0 ∨ r = 1) ∧ circular_buffer u' = Some q' ∧ bq_repr q' cap xs'.
Proof. apply udp_piece_merge_ex_sound. Qed.

Lemma merge_ex_returns_witness :
  udp_piece_merge_ex test_malloc test_handle [1; 2; 3; 0xAF; 0xAE] 5 = Ub ∨
  ∃ u' q' xs' r, udp_piece_merge_ex test_malloc test_handle [1; 2; 3; 0xAF; 0xAE] 5 = Ok (u', r) ∧
    (r = -1 ∨ r = 0 ∨ r = 1) ∧ circular_buffer u' = Some q' ∧ bq_repr q' 2048 xs'.
Proof. by apply (merge_ex_returns test_malloc test_handle test_ring 2048 [] _ _ eq_refl test_ring_repr). Defined.

(** [udp_piece_merge] terminates on every block of bytes and every [size]: the loop
    never runs out of the fuel its caller gives it. *)
Theorem merge_terminates {Q} `{!ByteQueueOps Q} malloc (u : udp_piece_t Q) buf size :
  Forall is_byte buf → udp_piece_merge malloc u buf size ≠ OutOfFuel.
Proof.
  intros Hbuf. unfold udp_piece_merge.
  destruct (find_sync_total (Z.to_nat size) buf 0 size) as [->|(p & t & ->)]; [done|].
  rewrite ok_bind. apply merge_loop_total; [done|lia].
Qed.

Lemma merge_terminates_witness :
  udp_piece_merge test_malloc test_handle (0xAF :: 0xAE :: replicate 20 0) 22 ≠ OutOfFuel.
Proof. apply merge_terminates. by apply (bool_decide_eq_true_1 _). Defined.

(** C36. A forged frame overruns the heap block: [udp_piece_merge] stores the frame at 536
    times its index without comparing it with the block of [total size + 1] bytes, so a
    first frame whose index and length reach past that block is an out-of-bounds write. *)
Theorem merge_forged_index_overflows {Q} `{!ByteQueueOps Q} malloc (u : udp_piece_t Q)
    ts tp i body :
  (∀ k n, 0 ≤ n → ∃ b, malloc k n = Some b ∧ Z.of_nat (length b) = n) →
  fresh u → 0 < ts < 65536 → 0 < tp < 65536 → 0 ≤ i < 65536 →
  (0 < length body)%nat → Z.of_nat (length body) < 65536 →
  ts + 1 < 536 * i + Z.of_nat (length body) →
  let buf := header ts tp i (Z.of_nat (length body)) ++ body in
  udp_piece_merge malloc u buf (Z.of_nat (length buf)) = Ub.
Proof.
  intros Hm Hu Hts Htp Hi Hne Hl Hover buf. unfold udp_piece_merge.
  assert (Z.of_nat (length buf) = 12 + Z.of_nat (length body)) as Hlen.
  { unfold buf. rewrite length_app, length_header. lia. }
  assert (find_sync (Z.to_nat (Z.of_nat (length buf))) buf 0 (Z.of_nat (length buf)) =
          Ok (0, Z.of_nat (length buf))) as ->.
  { rewrite Nat2Z.id. reflexivity. }
  rewrite ok_bind. apply (merge_loop_forged malloc u ts tp i body buf 0 []); try done.
  - by rewrite app_nil_r.
  - lia.
Qed.

Lemma merge_forged_index_overflows_witness :
  udp_piece_merge test_malloc test_handle (header 2 1 1 1 ++ [5]) 13 = Ub.
Proof.
  apply (merge_forged_index_overflows test_malloc test_handle 2 1 1 [5] test_malloc_ok);
    [by left|by vm_compute..].
Defined.
