(* ===== verification/RbHeap.v ===== *)
(** * RbHeap: [src/heartbeat/ngx_rbtree.c] and ngx_rbtree.h

    The nodes live in a heap of structs addressed by [nat] ([NULL] is 0, never
    allocated); one definition per C function, every field access and assignment
    written out in the order of the code.  The proofs are in RbTree.v, RbInsert.v and
    RbDelete.v. *)

From S2P Require Import Prelude.
#[local] Open Scope Z_scope.

(** ** Data *)
Abbreviation ptr := nat (only parsing).
Definition NULL : ptr := 0%nat.

Record ngx_rbtree_node_t := mk_rbnode {
  key : Z;
  left : ptr;
  right : ptr;
  parent : ptr;
  color : Z;
  data : Z
}.

Abbreviation heap := (gmap nat ngx_rbtree_node_t).

Definition set_key v n := mk_rbnode v (left n) (right n) (parent n) (color n) (data n).
Definition set_left v n := mk_rbnode (key n) v (right n) (parent n) (color n) (data n).
Definition set_right v n := mk_rbnode (key n) (left n) v (parent n) (color n) (data n).
Definition set_parent v n := mk_rbnode (key n) (left n) (right n) v (color n) (data n).
Definition set_color v n := mk_rbnode (key n) (left n) (right n) (parent n) v (data n).

(** Reading a field and assigning one; a pointer outside the heap is undefined. *)
Definition ld {A} (f : ngx_rbtree_node_t → A) (h : heap) (p : ptr) : result A :=
  n ← of_opt (h !! p); Ok (f n).
Definition st (f : ngx_rbtree_node_t → ngx_rbtree_node_t) (h : heap) (p : ptr) : result heap :=
  n ← of_opt (h !! p); Ok (<[p := f n]> h).

(** ** The colour macros of ngx_rbtree.h *)
Definition ngx_rbt_red (h : heap) (node : ptr) : result heap := st (set_color 1) h node.
Definition ngx_rbt_black (h : heap) (node : ptr) : result heap := st (set_color 0) h node.
Definition ngx_rbt_is_red (h : heap) (node : ptr) : result bool :=
  ld (λ n, negb (color n =? 0)) h node.
Definition ngx_rbt_is_black (h : heap) (node : ptr) : result bool :=
  ld (λ n, color n =? 0) h node.
Definition ngx_rbt_copy_color (h : heap) (n1 n2 : ptr) : result heap :=
  c ← ld color h n2; st (set_color c) h n1.

(** The [insert] member is the function the tree was initialised with. *)
Record ngx_rbtree_t := mk_rbtree {
  root : ptr;
  sentinel : ptr;
  insert : heap → ptr → ptr → ptr → result heap
}.

Definition set_root (tree : ngx_rbtree_t) (r : ptr) : ngx_rbtree_t :=
  mk_rbtree r (sentinel tree) (insert tree).

Definition ngx_rbtree_init (h : heap) (s : ptr) (i : heap → ptr → ptr → ptr → result heap)
  : result (heap * ngx_rbtree_t) :=
  h ← ngx_rbt_black h s; Ok (h, mk_rbtree s s i).

(** ** Descent *)
Fixpoint ngx_rbtree_min_loop (fuel : nat) (h : heap) (node sentinel : ptr) : result ptr :=
  match fuel with
  | O => OutOfFuel
  | S fuel =>
      if Nat.eqb node NULL then Ok node else
      l ← ld left h node;
      if Nat.eqb l sentinel then Ok node else ngx_rbtree_min_loop fuel h l sentinel
  end.

(** A descent visits every node at most once. *)
Definition depth_fuel (h : heap) : nat := S (size h).

Definition ngx_rbtree_min (h : heap) (node sentinel : ptr) : result ptr :=
  ngx_rbtree_min_loop (depth_fuel h) h node sentinel.

(** The [for] loop of the two insert functions: the node below which the new node goes and
    the side ([true] is [&temp->left]); [less] is the test of the function. *)
Fixpoint find_place (fuel : nat) (less : Z → Z → bool) (h : heap) (temp node sentinel : ptr)
  : result (ptr * bool) :=
  match fuel with
  | O => OutOfFuel
  | S fuel =>
      nk ← ld key h node;
      tk ← ld key h temp;
      let go_left := less nk tk in
      p ← ld (if go_left then left else right) h temp;
      if Nat.eqb p sentinel then Ok (temp, go_left)
      else find_place fuel less h p node sentinel
  end.

Definition attach (h : heap) (temp : ptr) (go_left : bool) (node sentinel : ptr) : result heap :=
  h ← st (if go_left then set_left node else set_right node) h temp;
  h ← st (set_parent temp) h node;
  h ← st (set_left sentinel) h node;
  h ← st (set_right sentinel) h node;
  ngx_rbt_red h node.

Definition insert_with (less : Z → Z → bool) (h : heap) (temp node sentinel : ptr) : result heap :=
  '(temp, go_left) ← find_place (depth_fuel h) less h temp node sentinel;
  attach h temp go_left node sentinel.

(** [node->key < temp->key] on [ngx_uint_t] keys. *)
Definition key_less (nk tk : Z) : bool := nk <? tk.
(** [(ngx_rbtree_key_int_t) (node->key - temp->key) < 0] *)
Definition timer_less (nk tk : Z) : bool := s64 (nk - tk) <? 0.

Definition ngx_rbtree_insert_value := insert_with key_less.
Definition ngx_rbtree_insert_timer_value := insert_with timer_less.

(** ** Rotations: the heap and [*root] *)
Definition ngx_rbtree_left_rotate (h : heap) (root sentinel node : ptr) : result (heap * ptr) :=
  temp ← ld right h node;
  tl ← ld left h temp;
  h ← st (set_right tl) h node;
  tl ← ld left h temp;
  h ← (if Nat.eqb tl sentinel then Ok h else st (set_parent node) h tl);
  np ← ld parent h node;
  h ← st (set_parent np) h temp;
  '(h, root) ←
    (if Nat.eqb node root then Ok (h, temp) else
       np ← ld parent h node;
       npl ← ld left h np;
       h ← (if Nat.eqb node npl then st (set_left temp) h np else st (set_right temp) h np);
       Ok (h, root));
  h ← st (set_left node) h temp;
  h ← st (set_parent temp) h node;
  Ok (h, root).

Definition ngx_rbtree_right_rotate (h : heap) (root sentinel node : ptr) : result (heap * ptr) :=
  temp ← ld left h node;
  tr ← ld right h temp;
  h ← st (set_left tr) h node;
  tr ← ld right h temp;
  h ← (if Nat.eqb tr sentinel then Ok h else st (set_parent node) h tr);
  np ← ld parent h node;
  h ← st (set_parent np) h temp;
  '(h, root) ←
    (if Nat.eqb node root then Ok (h, temp) else
       np ← ld parent h node;
       npr ← ld right h np;
       h ← (if Nat.eqb node npr then st (set_right temp) h np else st (set_left temp) h np);
       Ok (h, root));
  h ← st (set_right node) h temp;
  h ← st (set_parent temp) h node;
  Ok (h, root).

(** ** Insertion *)

(** The re-balancing [while] loop. *)
Fixpoint insert_fixup (fuel : nat) (h : heap) (root sentinel node : ptr) : result (heap * ptr) :=
  match fuel with
  | O => OutOfFuel
  | S fuel =>
      if Nat.eqb node root then Ok (h, root) else
      p ← ld parent h node;
      red ← ngx_rbt_is_red h p;
      if negb red then Ok (h, root) else
      g ← ld parent h p;
      gl ← ld left h g;
      if Nat.eqb p gl then
        temp ← ld right h g;
        red ← ngx_rbt_is_red h temp;
        if red : bool then
          h ← ngx_rbt_black h p;
          h ← ngx_rbt_black h temp;
          h ← ngx_rbt_red h g;
          insert_fixup fuel h root sentinel g
        else
          pr ← ld right h p;
          '(h, root, node) ←
            (if Nat.eqb node pr then
               '(h, root) ← ngx_rbtree_left_rotate h root sentinel p; Ok (h, root, p)
             else Ok (h, root, node));
          p ← ld parent h node;
          h ← ngx_rbt_black h p;
          g ← ld parent h p;
          h ← ngx_rbt_red h g;
          '(h, root) ← ngx_rbtree_right_rotate h root sentinel g;
          insert_fixup fuel h root sentinel node
      else
        temp ← ld left h g;
        red ← ngx_rbt_is_red h temp;
        if red : bool then
          h ← ngx_rbt_black h p;
          h ← ngx_rbt_black h temp;
          h ← ngx_rbt_red h g;
          insert_fixup fuel h root sentinel g
        else
          pl ← ld left h p;
          '(h, root, node) ←
            (if Nat.eqb node pl then
               '(h, root) ← ngx_rbtree_right_rotate h root sentinel p; Ok (h, root, p)
             else Ok (h, root, node));
          p ← ld parent h node;
          h ← ngx_rbt_black h p;
          g ← ld parent h p;
          h ← ngx_rbt_red h g;
          '(h, root) ← ngx_rbtree_left_rotate h root sentinel g;
          insert_fixup fuel h root sentinel node
  end.

Definition ngx_rbtree_insert (h : heap) (tree : ngx_rbtree_t) (node : ptr)
  : result (heap * ngx_rbtree_t) :=
  let s := sentinel tree in
  if Nat.eqb (root tree) s then
    h ← st (set_parent NULL) h node;
    h ← st (set_left s) h node;
    h ← st (set_right s) h node;
    h ← ngx_rbt_black h node;
    Ok (h, set_root tree node)
  else
    h ← insert tree h (root tree) node s;
    '(h, r) ← insert_fixup (depth_fuel h) h (root tree) s node;
    h ← ngx_rbt_black h r;
    Ok (h, set_root tree r).

(** ** Deletion *)

(** The fixup [while] loop and the final [ngx_rbt_black(temp)]. *)
Fixpoint delete_fixup (fuel : nat) (h : heap) (root sentinel temp : ptr) : result (heap * ptr) :=
  match fuel with
  | O => OutOfFuel
  | S fuel =>
      go ← (if Nat.eqb temp root then Ok false else ngx_rbt_is_black h temp);
      if negb go then h ← ngx_rbt_black h temp; Ok (h, root) else
      tp ← ld parent h temp;
      tpl ← ld left h tp;
      if Nat.eqb temp tpl then
        w ← ld right h tp;
        red ← ngx_rbt_is_red h w;
        '(h, root, w) ←
          (if red : bool then
             h ← ngx_rbt_black h w;
             h ← ngx_rbt_red h tp;
             '(h, root) ← ngx_rbtree_left_rotate h root sentinel tp;
             tp ← ld parent h temp;
             w ← ld right h tp;
             Ok (h, root, w)
           else Ok (h, root, w));
        wl ← ld left h w;
        bl ← ngx_rbt_is_black h wl;
        both ← (if bl : bool then wr ← ld right h w; ngx_rbt_is_black h wr else Ok false);
        if both : bool then
          h ← ngx_rbt_red h w;
          tp ← ld parent h temp;
          delete_fixup fuel h root sentinel tp
        else
          wr ← ld right h w;
          br ← ngx_rbt_is_black h wr;
          '(h, root, w) ←
            (if br : bool then
               wl ← ld left h w;
               h ← ngx_rbt_black h wl;
               h ← ngx_rbt_red h w;
               '(h, root) ← ngx_rbtree_right_rotate h root sentinel w;
               tp ← ld parent h temp;
               w ← ld right h tp;
               Ok (h, root, w)
             else Ok (h, root, w));
          tp ← ld parent h temp;
          h ← ngx_rbt_copy_color h w tp;
          tp ← ld parent h temp;
          h ← ngx_rbt_black h tp;
          wr ← ld right h w;
          h ← ngx_rbt_black h wr;
          tp ← ld parent h temp;
          '(h, root) ← ngx_rbtree_left_rotate h root sentinel tp;
          delete_fixup fuel h root sentinel root
      else
        w ← ld left h tp;
        red ← ngx_rbt_is_red h w;
        '(h, root, w) ←
          (if red : bool then
             h ← ngx_rbt_black h w;
             h ← ngx_rbt_red h tp;
             '(h, root) ← ngx_rbtree_right_rotate h root sentinel tp;
             tp ← ld parent h temp;
             w ← ld left h tp;
             Ok (h, root, w)
           else Ok (h, root, w));
        wl ← ld left h w;
        bl ← ngx_rbt_is_black h wl;
        both ← (if bl : bool then wr ← ld right h w; ngx_rbt_is_black h wr else Ok false);
        if both : bool then
          h ← ngx_rbt_red h w;
          tp ← ld parent h temp;
          delete_fixup fuel h root sentinel tp
        else
          wl ← ld left h w;
          bl ← ngx_rbt_is_black h wl;
          '(h, root, w) ←
            (if bl : bool then
               wr ← ld right h w;
               h ← ngx_rbt_black h wr;
               h ← ngx_rbt_red h w;
               '(h, root) ← ngx_rbtree_left_rotate h root sentinel w;
               tp ← ld parent h temp;
               w ← ld left h tp;
               Ok (h, root, w)
             else Ok (h, root, w));
          tp ← ld parent h temp;
          h ← ngx_rbt_copy_color h w tp;
          tp ← ld parent h temp;
          h ← ngx_rbt_black h tp;
          wl ← ld left h w;
          h ← ngx_rbt_black h wl;
          tp ← ld parent h temp;
          '(h, root) ← ngx_rbtree_right_rotate h root sentinel tp;
          delete_fixup fuel h root sentinel root
  end.

(** [subst], the node that leaves its place, and [temp], the subtree that moves up. *)
Definition delete_pick (h : heap) (sentinel node : ptr) : result (ptr * ptr) :=
  nl ← ld left h node;
  nr ← ld right h node;
  if Nat.eqb nl sentinel then Ok (node, nr)
  else if Nat.eqb nr sentinel then Ok (node, nl)
  else
    subst ← ngx_rbtree_min h nr sentinel;
    sl ← ld left h subst;
    temp ← (if negb (Nat.eqb sl sentinel) then Ok sl else ld right h subst);
    Ok (subst, temp).

(** [/* DEBUG stuff */] *)
Definition clear_node (h : heap) (node : ptr) : result heap :=
  h ← st (set_left NULL) h node;
  h ← st (set_right NULL) h node;
  h ← st (set_parent NULL) h node;
  st (set_key 0) h node.

(** [subst] gets the links and the colour of [node], whose neighbours now point to it. *)
Definition replace_node (h : heap) (root sentinel node subst : ptr) : result (heap * ptr) :=
  nl ← ld left h node;
  h ← st (set_left nl) h subst;
  nr ← ld right h node;
  h ← st (set_right nr) h subst;
  np ← ld parent h node;
  h ← st (set_parent np) h subst;
  h ← ngx_rbt_copy_color h subst node;
  '(h, root) ←
    (if Nat.eqb node root then Ok (h, subst) else
       np ← ld parent h node;
       npl ← ld left h np;
       h ← (if Nat.eqb node npl then st (set_left subst) h np else st (set_right subst) h np);
       Ok (h, root));
  sl ← ld left h subst;
  h ← (if Nat.eqb sl sentinel then Ok h else st (set_parent subst) h sl);
  sr ← ld right h subst;
  h ← (if Nat.eqb sr sentinel then Ok h else st (set_parent subst) h sr);
  Ok (h, root).

(** The [else] branch of [subst == node]. *)
Definition transplant (h : heap) (root sentinel node subst temp : ptr) : result (heap * ptr) :=
  sp ← ld parent h subst;
  h ← (if Nat.eqb sp node then st (set_parent subst) h temp else st (set_parent sp) h temp);
  replace_node h root sentinel node subst.

Definition ngx_rbtree_delete (h : heap) (tree : ngx_rbtree_t) (node : ptr)
  : result (heap * ngx_rbtree_t) :=
  let s := sentinel tree in
  '(subst, temp) ← delete_pick h s node;
  if Nat.eqb subst (root tree) then
    h ← ngx_rbt_black h temp;
    h ← clear_node h node;
    Ok (h, set_root tree temp)
  else
    red ← ngx_rbt_is_red h subst;
    sp ← ld parent h subst;
    spl ← ld left h sp;
    h ← (if Nat.eqb subst spl then st (set_left temp) h sp else st (set_right temp) h sp);
    '(h, r) ←
      (if Nat.eqb subst node then
         sp ← ld parent h subst;
         h ← st (set_parent sp) h temp; Ok (h, root tree)
       else transplant h (root tree) s node subst temp);
    h ← clear_node h node;
    if red : bool then Ok (h, set_root tree r) else
    '(h, r) ← delete_fixup (S (depth_fuel h)) h r s temp;
    Ok (h, set_root tree r).

(** ** Successor *)
Fixpoint next_loop (fuel : nat) (h : heap) (root node : ptr) : result ptr :=
  match fuel with
  | O => OutOfFuel
  | S fuel =>
      parent ← ld parent h node;
      if Nat.eqb node root then Ok NULL else
      pl ← ld left h parent;
      if Nat.eqb node pl then Ok parent else next_loop fuel h root parent
  end.

Definition ngx_rbtree_next (h : heap) (tree : ngx_rbtree_t) (node : ptr) : result ptr :=
  nr ← ld right h node;
  if negb (Nat.eqb nr (sentinel tree)) then ngx_rbtree_min h nr (sentinel tree)
  else next_loop (depth_fuel h) h (root tree) node.
