(* ===== verification/RbTree.v ===== *)
(** * RbTree: trees in the heap of RbHeap

    The abstract side is a [tree] of elements with node addresses, and a zipper ([ctx])
    for the position the loops have reached.  [own h cs] says that the heap stores the
    listed cells at distinct addresses; as it respects permutation, every field access is
    proved by pulling the accessed cell to the front ([Pull]). *)

From S2P Require Import Prelude RbHeap.
#[local] Open Scope Z_scope.

(** ** Trees and contexts *)
Record elt := mk_elt { eid : ptr; ekey : Z; edata : Z }.

Inductive tree :=
  | Leaf
  | Node (c : Z) (l : tree) (e : elt) (r : tree).

(** [InL c e r up]: the hole is the left child of [e]; [Top pp]: the hole is the root, the
    parent field of which may hold anything. *)
Inductive ctx :=
  | Top (pp : ptr)
  | InL (c : Z) (e : elt) (r : tree) (up : ctx)
  | InR (c : Z) (l : tree) (e : elt) (up : ctx).

Fixpoint plug (k : ctx) (t : tree) : tree :=
  match k with
  | Top _ => t
  | InL c e r up => plug up (Node c t e r)
  | InR c l e up => plug up (Node c l e t)
  end.

Fixpoint elems (t : tree) : list elt :=
  match t with Leaf => [] | Node _ l e r => elems l ++ e :: elems r end.

(** The elements before and after the hole. *)
Fixpoint before (k : ctx) : list elt :=
  match k with Top _ => [] | InL _ _ _ up => before up | InR _ l e up => before up ++ elems l ++ [e] end.
Fixpoint after (k : ctx) : list elt :=
  match k with Top _ => [] | InL _ e r up => e :: elems r ++ after up | InR _ _ _ up => after up end.

Lemma elems_plug k t : elems (plug k t) = before k ++ elems t ++ after k.
Proof.
  revert t. induction k as [pp|c e r up IH|c l e up IH]; intros t; simpl;
    rewrite ?IH; simpl; rewrite ?app_nil_r, <- ?app_assoc; done.
Qed.

(** ** Cells *)
Definition cell : Type := ptr * ngx_rbtree_node_t.

Section cells.
Context (s : ptr).

Definition tptr (t : tree) : ptr := match t with Leaf => s | Node _ _ e _ => eid e end.
Definition cptr (k : ctx) : ptr :=
  match k with Top pp => pp | InL _ e _ _ => eid e | InR _ _ e _ => eid e end.
(** The root pointer when the hole is filled with [hole]. *)
Fixpoint kroot (k : ctx) (hole : ptr) : ptr :=
  match k with Top _ => hole | InL _ e _ up => kroot up (eid e) | InR _ _ e up => kroot up (eid e) end.

Fixpoint cells (t : tree) (pp : ptr) : list cell :=
  match t with
  | Leaf => []
  | Node c l e r =>
      (eid e, mk_rbnode (ekey e) (tptr l) (tptr r) pp c (edata e)) ::
      cells l (eid e) ++ cells r (eid e)
  end.

Fixpoint ccells (k : ctx) (hole : ptr) : list cell :=
  match k with
  | Top _ => []
  | InL c e r up =>
      (eid e, mk_rbnode (ekey e) hole (tptr r) (cptr up) c (edata e)) ::
      cells r (eid e) ++ ccells up (eid e)
  | InR c l e up =>
      (eid e, mk_rbnode (ekey e) (tptr l) hole (cptr up) c (edata e)) ::
      cells l (eid e) ++ ccells up (eid e)
  end.

Lemma tptr_plug k t : tptr (plug k t) = kroot k (tptr t).
Proof. revert t. induction k; intros t; simpl; by rewrite ?IHk. Qed.

Fixpoint ctop (k : ctx) : ptr :=
  match k with Top pp => pp | InL _ _ _ up => ctop up | InR _ _ _ up => ctop up end.

Lemma cells_plug k t : cells (plug k t) (ctop k) ≡ₚ cells t (cptr k) ++ ccells k (tptr t).
Proof.
  revert t. induction k as [pp|c e r up IH|c l e up IH]; intros t; simpl;
    rewrite ?IH, ?app_nil_r; simpl; [done|solve_Permutation..].
Qed.

Lemma cells_ids t pp : (cells t pp).*1 ≡ₚ eid <$> elems t.
Proof.
  revert pp. induction t as [|c l IHl e r IHr]; intros pp; [done|].
  simpl. rewrite !fmap_app, IHl, IHr, fmap_cons. solve_Permutation.
Qed.
End cells.

(** ** Ownership of heap cells *)
Definition own (h : heap) (cs : list cell) : Prop :=
  NoDup (cs.*1) ∧ Forall (λ c, c.1 ≠ NULL ∧ h !! c.1 = Some c.2) cs.

#[export] Instance own_perm h : Proper ((≡ₚ) ==> iff) (own h).
Proof.
  intros cs cs' Hp. unfold own. by rewrite Hp.
Qed.

Lemma own_lookup h p n cs : own h ((p, n) :: cs) → h !! p = Some n.
Proof. intros [_ H]. apply Forall_cons in H as [[_ ?] _]. done. Qed.

Lemma own_not_null h p n cs : own h ((p, n) :: cs) → p ≠ NULL.
Proof. intros [_ H]. apply Forall_cons in H as [[? _] _]. done. Qed.

Lemma own_update h p n n' cs : own h ((p, n) :: cs) → own (<[p := n']> h) ((p, n') :: cs).
Proof.
  intros [Hnd H]. split; [done|]. simpl in *. apply Forall_cons in H as [[Hnn _] H'].
  apply NoDup_cons in Hnd as [Hp _]. apply Forall_cons. split.
  - split; [done|]. simpl. by rewrite lookup_insert_eq.
  - apply Forall_forall. intros [q m] Hq. rewrite Forall_forall in H'.
    destruct (H' _ Hq) as [? ?]. split; [done|]. simpl in *. rewrite lookup_insert_ne; [done|].
    intros ->. apply Hp. apply list_elem_of_fmap. by exists (q, m).
Qed.

Lemma own_size h cs : own h cs → (length cs ≤ size h)%nat.
Proof.
  intros [Hnd H]. trans (length cs.*1); [by rewrite length_fmap|].
  rewrite <- (size_list_to_set (C := gset nat)) by done.
  rewrite <- size_dom. apply subseteq_size. intros p Hp.
  apply elem_of_list_to_set, list_elem_of_fmap in Hp as ([q m] & -> & Hq).
  rewrite Forall_forall in H. apply elem_of_dom. destruct (H _ Hq) as [_ ->]. done.
Qed.

(** [Pull x cs cs']: the cell [x] is in [cs] and the others are [cs']. *)
Class Pull (x : cell) (cs cs' : list cell) : Prop := pull : cs ≡ₚ x :: cs'.

#[export] Instance pull_here x cs : Pull x (x :: cs) cs | 0.
Proof. by unfold Pull. Qed.
#[export] Instance pull_cons x y cs cs' : Pull x cs cs' → Pull x (y :: cs) (y :: cs') | 10.
Proof. unfold Pull. intros ->. solve_Permutation. Qed.
#[export] Instance pull_app_l x a a' b : Pull x a a' → Pull x (a ++ b) (a' ++ b) | 10.
Proof. unfold Pull. by intros ->. Qed.
#[export] Instance pull_app_r x a b b' : Pull x b b' → Pull x (a ++ b) (a ++ b') | 20.
Proof. unfold Pull. intros ->. solve_Permutation. Qed.

Lemma own_ld {A} (f : ngx_rbtree_node_t → A) h p n cs cs' :
  own h cs → Pull (p, n) cs cs' → ld f h p = Ok (f n).
Proof.
  intros Ho Hp. unfold Pull in Hp. rewrite Hp in Ho. unfold ld.
  by rewrite (own_lookup _ _ _ _ Ho).
Qed.

Lemma own_st f h p n cs cs' : own h cs → Pull (p, n) cs cs' →
  ∃ h', st f h p = Ok h' ∧ own h' ((p, f n) :: cs').
Proof.
  intros Ho Hp. unfold Pull in Hp. rewrite Hp in Ho. unfold st.
  rewrite (own_lookup _ _ _ _ Ho). eexists. split; [done|]. by eapply own_update.
Qed.

Lemma own_neq h p n q m cs cs' cs'' : own h cs → Pull (p, n) cs cs' → Pull (q, m) cs' cs'' →
  Nat.eqb p q = false.
Proof.
  intros Ho Hp Hq. unfold Pull in *. rewrite Hp, Hq in Ho. apply Nat.eqb_neq. intros ->.
  destruct Ho as [Hnd _]. simpl in Hnd. apply NoDup_cons in Hnd as [Hnin _]. apply Hnin. left.
Qed.

Lemma own_null h p n cs cs' : own h cs → Pull (p, n) cs cs' → Nat.eqb p NULL = false.
Proof.
  intros Ho Hp. unfold Pull in *. rewrite Hp in Ho. apply Nat.eqb_neq.
  by eapply own_not_null.
Qed.

Lemma eqb_sym_false p q : Nat.eqb p q = false → Nat.eqb q p = false.
Proof. by rewrite Nat.eqb_sym. Qed.

(** [PullT s t pp cs cs']: the cells of the unknown subtree [t] are in [cs]. *)
Class PullT (s : ptr) (t : tree) (pp : ptr) (cs cs' : list cell) : Prop :=
  pullt : cs ≡ₚ cells s t pp ++ cs'.

#[export] Instance pullt_here s t pp cs : PullT s t pp (cells s t pp ++ cs) cs | 0.
Proof. by unfold PullT. Qed.
#[export] Instance pullt_end s t pp : PullT s t pp (cells s t pp) [] | 0.
Proof. unfold PullT. by rewrite app_nil_r. Qed.
#[export] Instance pullt_cons s t pp x cs cs' : PullT s t pp cs cs' → PullT s t pp (x :: cs) (x :: cs') | 10.
Proof. unfold PullT. intros ->. solve_Permutation. Qed.
#[export] Instance pullt_app_l s t pp a a' b : PullT s t pp a a' → PullT s t pp (a ++ b) (a' ++ b) | 10.
Proof. unfold PullT. intros ->. solve_Permutation. Qed.
#[export] Instance pullt_app_r s t pp a b b' : PullT s t pp b b' → PullT s t pp (a ++ b) (a ++ b') | 20.
Proof. unfold PullT. intros ->. solve_Permutation. Qed.

Definition tcolor (t : tree) : Z := match t with Leaf => 0 | Node c _ _ _ => c end.

(** Reading the colour or the parent at the root of an unknown subtree, which may be the
    (black) sentinel. *)
Section unknown_subtree.
Context (s : ptr) (sk : Z) (sl sr sp : ptr) (sd : Z).
#[local] Abbreviation sn := (mk_rbnode sk sl sr sp 0 sd).

Lemma own_ld_color g h t pp cs cs1 cs2 : own h cs → Pull (s, sn) cs cs1 → PullT s t pp cs1 cs2 →
  ld (λ n, g (color n)) h (tptr s t) = Ok (g (tcolor t) : bool).
Proof.
  intros Ho Hs Ht. unfold Pull, PullT in *. rewrite Hs, Ht in Ho.
  destruct t as [|c l e u]; simpl in *; by erewrite (own_ld _ h) by (first [exact Ho|typeclasses eauto]).
Qed.

Lemma own_ld_parent h t pp cs cs1 cs2 : own h cs → Pull (s, sn) cs cs1 → PullT s t pp cs1 cs2 →
  (t = Leaf → sp = pp) → ld parent h (tptr s t) = Ok pp.
Proof.
  intros Ho Hs Ht Hp. unfold Pull, PullT in *. rewrite Hs, Ht in Ho.
  destruct t as [|c l e u]; simpl in *; erewrite (own_ld _ h) by (first [exact Ho|typeclasses eauto]);
    simpl; [by rewrite Hp|done].
Qed.

Lemma own_neq_tree h t pp q m cs cs1 cs2 cs3 : own h cs → Pull (s, sn) cs cs1 →
  PullT s t pp cs1 cs2 → Pull (q, m) cs2 cs3 → Nat.eqb (tptr s t) q = false.
Proof.
  intros Ho Hs Ht Hq. unfold Pull, PullT in *. rewrite Hs, Ht, Hq in Ho.
  destruct t as [|c l e u]; simpl in *;
    (eapply (own_neq h); [exact Ho|typeclasses eauto..]).
Qed.
End unknown_subtree.

(** ** Symbolic execution

    [rb_step] runs the computation at the head of the goal's equation: a field access on
    the cells at hand, an assignment, or one pointer comparison; [rb_run] repeats. *)
Ltac rb_load f h p :=
  match goal with
  | Ho : own h _ |- _ => erewrite (own_ld f h p) by (first [exact Ho | typeclasses eauto])
  | Ho : own h _ |- _ =>
      lazymatch p with tptr ?s ?t =>
        lazymatch f with
        | parent => erewrite (own_ld_parent s _ _ _ _ _ h t)
            by (first [exact Ho | typeclasses eauto | eassumption])
        | (λ n, color n =? 0) => erewrite (own_ld_color s _ _ _ _ _ (λ c, c =? 0) h t)
            by (first [exact Ho | typeclasses eauto])
        | (λ n, negb (color n =? 0)) => erewrite (own_ld_color s _ _ _ _ _ (λ c, negb (c =? 0)) h t)
            by (first [exact Ho | typeclasses eauto])
        end
      end
  end.

Ltac rb_store f h p :=
  match goal with
  | Ho : own h _ |- _ =>
      let h' := fresh "h" in let Hs := fresh "Hs" in let Ho' := fresh "Ho" in
      edestruct (own_st f h p) as (h' & Hs & Ho');
        [exact Ho | typeclasses eauto |]; rewrite Hs; clear Hs Ho
  end.

(** The root pointer of an unknown subtree is the sentinel or a node of that subtree. *)
Ltac rb_eqb p q :=
  match goal with
  | _ => constr_eq p q; rewrite (Nat.eqb_refl p)
  | Ho : own ?h _ |- _ =>
      first
        [ constr_eq q NULL; erewrite (own_null h p) by (first [exact Ho | typeclasses eauto])
        | erewrite (own_neq h p _ q) by (first [exact Ho | typeclasses eauto])
        | lazymatch p with tptr ?s ?t =>
            erewrite (own_neq_tree s _ _ _ _ _ h t _ q)
              by (first [exact Ho | typeclasses eauto]) end ]
  | _ => lazymatch q with tptr _ ?u => is_var u; destruct u end
  | _ => lazymatch p with tptr _ ?u => is_var u; destruct u end
  end.

Ltac rb_head t tac := lazymatch t with @mbind _ _ _ _ _ ?m => rb_head m tac | _ => tac t end.

Ltac rb_step :=
  lazymatch goal with
  | |- context [@eq (result _) ?t _] =>
      rb_head t ltac:(fun m =>
        lazymatch m with
        | ld ?f ?h ?p => rb_load f h p
        | st ?f ?h ?p => rb_store f h p
        | (if Nat.eqb ?p ?q then _ else _) => rb_eqb p q
        | (if negb (Nat.eqb ?p ?q) then _ else _) => rb_eqb p q
        | Ok _ => rewrite ok_bind
        end)
  end.

Ltac rb_red :=
  cbn [tptr cptr kroot cells ccells key left right parent color data eid negb
       set_key set_left set_right set_parent set_color Z.eqb Pos.eqb app] in *.

Ltac rb_unfold :=
  unfold ngx_rbt_red, ngx_rbt_black, ngx_rbt_is_red, ngx_rbt_is_black, ngx_rbt_copy_color.

(** [rb_steps n]: exactly [n] accesses or comparisons. *)
Tactic Notation "rb_steps" integer(n) := rb_unfold; do n (rb_red; rb_step); rb_red.

Ltac rb_run := rb_unfold; repeat (rb_red; rb_step); rb_red.

(** ** Position in the tree

    [focus s sn h r k t rest]: the loops are at subtree [t] in context [k] of the tree
    with root pointer [r]; [sn] is the sentinel's struct and [rest] any other cells. *)
Definition focus (s : ptr) (sn : ngx_rbtree_node_t) (h : heap) (r : ptr) (k : ctx) (t : tree)
    (rest : list cell) : Prop :=
  own h ((s, sn) :: cells s t (cptr k) ++ ccells s k (tptr s t) ++ rest) ∧
  r = kroot k (tptr s t).

Lemma own_weaken h cs cs' : own h cs → cs ≡ₚ cs' → own h cs'.
Proof. by intros ? <-. Qed.

Ltac rb_own :=
  match goal with
  | Ho : own ?h _ |- own ?h _ =>
      apply (own_weaken _ _ _ Ho); unfold set_key, set_left, set_right, set_parent, set_color;
      cbn [tptr cptr cells ccells app key left right parent color data];
      rewrite ?app_nil_r, <- ?app_assoc; cbn [app]; solve_Permutation
  end.

(** Moving the focus between a subtree and its parent changes nothing. *)
Lemma focus_InL s sn h r c t e u up rest :
  focus s sn h r (InL c e u up) t rest ↔ focus s sn h r up (Node c t e u) rest.
Proof.
  unfold focus. split; intros [Ho ->]; (split; [|done]); rb_own.
Qed.

Lemma focus_InR s sn h r c t e u up rest :
  focus s sn h r (InR c t e up) u rest ↔ focus s sn h r up (Node c t e u) rest.
Proof.
  unfold focus. split; intros [Ho ->]; (split; [|done]); rb_own.
Qed.

Lemma kroot_in s k p : kroot k p ∈ p :: (ccells s k p).*1.
Proof.
  revert p. induction k as [pp|c e r up IH|c l e up IH]; intros p; simpl; [by left|..];
    right; rewrite fmap_app; specialize (IH (eid e)); set_solver.
Qed.

Lemma own_neq_in h p n q cs cs' : own h cs → Pull (p, n) cs cs' → q ∈ cs'.*1 →
  Nat.eqb p q = false.
Proof.
  intros Ho Hp Hq. unfold Pull in *. rewrite Hp in Ho. apply Nat.eqb_neq. intros ->.
  destruct Ho as [Hnd _]. simpl in Hnd. apply NoDup_cons in Hnd as [Hnin _]. done.
Qed.

(** The root of the tree is the focus exactly when the context is [Top]. *)
Lemma focus_root s sn h r k c l e u rest : focus s sn h r k (Node c l e u) rest →
  Nat.eqb (eid e) r = match k with Top _ => true | _ => false end.
Proof.
  intros [Ho ->]. destruct k as [pp|c' e' r' up|c' l' e' up]; cbn [kroot tptr]; [apply Nat.eqb_refl|..];
    (eapply (own_neq_in h); [exact Ho|typeclasses eauto|]);
    pose proof (kroot_in s up (eid e')) as Hin;
    rewrite !fmap_cons, !fmap_app; set_solver.
Qed.

(** ** Rotations *)
Lemma left_rotate_spec s sn h r k c a x c' b y d rest :
  focus s sn h r k (Node c a x (Node c' b y d)) rest →
  ∃ h' r', ngx_rbtree_left_rotate h r s (eid x) = Ok (h', r') ∧
    focus s sn h' r' k (Node c' (Node c a x b) y d) rest.
Proof.
  intros Hf. pose proof (focus_root _ _ _ _ _ _ _ _ _ _ Hf) as Hr. destruct Hf as [Ho Hroot].
  unfold ngx_rbtree_left_rotate, focus.
  destruct b as [|cb bl be br], k as [pp|ck e u up|ck u e up]; rb_red; rewrite Hr; rb_run;
  (do 2 eexists; split; [done|]; split; [rb_own|done]).
Qed.

Lemma right_rotate_spec s sn h r k c a x c' b y d rest :
  focus s sn h r k (Node c (Node c' a x b) y d) rest →
  ∃ h' r', ngx_rbtree_right_rotate h r s (eid y) = Ok (h', r') ∧
    focus s sn h' r' k (Node c' a x (Node c b y d)) rest.
Proof.
  intros Hf. pose proof (focus_root _ _ _ _ _ _ _ _ _ _ Hf) as Hr. destruct Hf as [Ho Hroot].
  unfold ngx_rbtree_right_rotate, focus.
  destruct b as [|cb bl be br], k as [pp|ck e u up|ck u e up]; rb_red; rewrite Hr; rb_run;
  (do 2 eexists; split; [done|]; split; [rb_own|done]).
Qed.
