(* ===== verification/RbInsert.v ===== *)
(** * RbInsert: the red-black invariant and insertion

    [is_rb c n t]: a tree with root colour [c] (1 is red) in which no red node has a red
    child and every path has [n] black nodes; [ctx_ok c n k]: a context that such a tree
    fits.  Insertion descends to a leaf position determined by the comparison, attaches a
    red node and restores the invariant. *)

From stdpp Require Import sorting.
From S2P Require Import Prelude RbHeap RbTree.
#[local] Open Scope Z_scope.

(** ** The red-black invariant *)
Inductive is_rb : Z → nat → tree → Prop :=
  | rb_leaf : is_rb 0 0 Leaf
  | rb_red n l e r : is_rb 0 n l → is_rb 0 n r → is_rb 1 n (Node 1 l e r)
  | rb_black c1 c2 n l e r : is_rb c1 n l → is_rb c2 n r → is_rb 0 (S n) (Node 0 l e r).

Inductive ctx_ok : Z → nat → ctx → Prop :=
  | ok_top n pp : ctx_ok 0 n (Top pp)
  | ok_red_l n e r up : is_rb 0 n r → ctx_ok 1 n up → ctx_ok 0 n (InL 1 e r up)
  | ok_red_r n l e up : is_rb 0 n l → ctx_ok 1 n up → ctx_ok 0 n (InR 1 l e up)
  | ok_black_l c c' n e r up :
      is_rb c' n r → ctx_ok 0 (S n) up → ctx_ok c n (InL 0 e r up)
  | ok_black_r c c' n l e up :
      is_rb c' n l → ctx_ok 0 (S n) up → ctx_ok c n (InR 0 l e up).

Create HintDb rb.
#[export] Hint Constructors is_rb ctx_ok : rb.

Lemma is_rb_color c n t : is_rb c n t → c = 0 ∨ c = 1.
Proof. destruct 1; auto. Qed.

Lemma plug_rb k : ∀ c n t, is_rb c n t → ctx_ok c n k → ∃ n', is_rb 0 n' (plug k t).
Proof.
  induction k as [pp|c' e r up IH|c' l e up IH]; intros c n t Ht Hk; inversion Hk; subst; simpl;
    eauto with rb.
Qed.

(** Any part of a red-black tree has a context it fits. *)
Lemma unplug_rb k : ∀ t n, is_rb 0 n (plug k t) → ∃ c m, is_rb c m t ∧ ctx_ok c m k.
Proof.
  induction k as [pp|c' e r up IH|c' l e up IH]; intros t n Ht; simpl in *; [eauto with rb|..];
    destruct (IH _ n Ht) as (c & m & Hn & Hk); inversion Hn; subst; eauto 6 with rb.
Qed.

Lemma plug_node k : ∀ t, t ≠ Leaf → plug k t ≠ Leaf.
Proof. induction k; intros t Ht; simpl; [done|by apply IHk..]. Qed.

Fixpoint kdepth (k : ctx) : nat :=
  match k with Top _ => 0%nat | InL _ _ _ up => S (kdepth up) | InR _ _ _ up => S (kdepth up) end.

Lemma focus_top s sn h r k : ∀ t rest,
  focus s sn h r k t rest ↔ focus s sn h r (Top (ctop k)) (plug k t) rest.
Proof.
  induction k as [pp|c e u up IH|c l e up IH]; intros t rest; [done|..];
    rewrite ?focus_InL, ?focus_InR; apply IH.
Qed.

(** ** Re-balancing after an insertion *)
Ltac rb_focus := split; [rb_own|done].

Section insert_fixup.
Context (s : ptr) (sk : Z) (sl sr sp : ptr) (sd : Z) (rest : list cell).
#[local] Abbreviation sn := (mk_rbnode sk sl sr sp 0 sd).

(** The tree the loop leaves behind when it stops at a node whose context accepts it. *)
Definition rebalanced (h : heap) (r : ptr) (l : list elt) : Prop :=
  ∃ t pp c n, focus s sn h r (Top pp) t rest ∧ is_rb c n t ∧ t ≠ Leaf ∧ elems t = l.

Lemma insert_stop h r k t c n : focus s sn h r k t rest → t ≠ Leaf →
  is_rb c n t → (ctx_ok c n k ∨ ∃ pp, k = Top pp) → rebalanced h r (elems (plug k t)).
Proof.
  intros Hf Hne Ht Hk. exists (plug k t), (ctop k). rewrite focus_top in Hf.
  destruct Hk as [Hk|[pp ->]]; [|by exists c, n].
  destruct (plug_rb k c n t Ht Hk) as (n' & Hn'). exists 0, n'.
  split_and!; try done. by apply plug_node.
Qed.

(** The end of the black-uncle case, after an inner node was rotated outwards. *)
Definition tail_right fuel h r node : result (heap * ptr) :=
  p ← ld parent h node;
  h ← ngx_rbt_black h p;
  g ← ld parent h p;
  h ← ngx_rbt_red h g;
  '(h, root) ← ngx_rbtree_right_rotate h r s g;
  insert_fixup fuel h root s node.

Definition tail_left fuel h r node : result (heap * ptr) :=
  p ← ld parent h node;
  h ← ngx_rbt_black h p;
  g ← ld parent h p;
  h ← ngx_rbt_red h g;
  '(h, root) ← ngx_rbtree_left_rotate h r s g;
  insert_fixup fuel h root s node.

Lemma tail_right_spec fuel h r a x b y u g w up n :
  focus s sn h r (InL 1 y u (InL 0 g w up)) (Node 1 a x b) rest →
  is_rb 0 n a → is_rb 0 n b → is_rb 0 n u → is_rb 0 n w → ctx_ok 0 (S n) up →
  ∃ h' r', tail_right (S fuel) h r (eid x) = Ok (h', r') ∧
    rebalanced h' r' (elems (plug (InL 1 y u (InL 0 g w up)) (Node 1 a x b))).
Proof.
  intros [Ho Hr] Ha Hb Hu Hw Hup. unfold tail_right. rb_run.
  destruct (right_rotate_spec s sn h1 r up 1 (Node 1 a x b) y 0 u g w rest) as (h2 & r2 & Hrot & Hf);
    [rb_focus|]. rewrite Hrot, ok_bind. clear Hrot.
  rewrite <- focus_InL in Hf. cbn [insert_fixup]. rewrite (focus_root _ _ _ _ _ _ _ _ _ _ Hf).
  destruct Hf as [Ho2 Hr2]. rb_run. exists h2, r2. split; [done|].
  destruct (insert_stop h2 r2 (InL 0 y (Node 1 u g w) up) (Node 1 a x b) 1 n)
    as (t & pp & c' & n' & ? & ? & ? & He); [split; [exact Ho2|exact Hr2]|done|eauto with rb..|].
  exists t, pp, c', n'. split_and!; try done. rewrite He, !elems_plug. simpl.
  by rewrite <- ?app_assoc.
Qed.

Lemma tail_left_spec fuel h r a x b y u g w up n :
  focus s sn h r (InR 1 u y (InR 0 w g up)) (Node 1 a x b) rest →
  is_rb 0 n a → is_rb 0 n b → is_rb 0 n u → is_rb 0 n w → ctx_ok 0 (S n) up →
  ∃ h' r', tail_left (S fuel) h r (eid x) = Ok (h', r') ∧
    rebalanced h' r' (elems (plug (InR 1 u y (InR 0 w g up)) (Node 1 a x b))).
Proof.
  intros [Ho Hr] Ha Hb Hu Hw Hup. unfold tail_left. rb_run.
  destruct (left_rotate_spec s sn h1 r up 1 w g 0 u y (Node 1 a x b) rest) as (h2 & r2 & Hrot & Hf);
    [rb_focus|]. rewrite Hrot, ok_bind. clear Hrot.
  rewrite <- focus_InR in Hf. cbn [insert_fixup]. rewrite (focus_root _ _ _ _ _ _ _ _ _ _ Hf).
  destruct Hf as [Ho2 Hr2]. rb_run. exists h2, r2. split; [done|].
  destruct (insert_stop h2 r2 (InR 0 (Node 1 w g u) y up) (Node 1 a x b) 1 n)
    as (t & pp & c' & n' & ? & ? & ? & He); [split; [exact Ho2|exact Hr2]|done|eauto with rb..|].
  exists t, pp, c', n'. split_and!; try done. rewrite He, !elems_plug. simpl.
  by rewrite <- ?app_assoc.
Qed.

Lemma rebalanced_eq h r l l' : rebalanced h r l → l = l' → rebalanced h r l'.
Proof. by intros ? <-. Qed.

Ltac rb_elems := rewrite ?elems_plug; simpl; repeat (rewrite <- app_assoc; simpl); done.

Definition fixup_ok (fuel : nat) : Prop := ∀ h r k a x b n,
  focus s sn h r k (Node 1 a x b) rest → is_rb 0 n a → is_rb 0 n b → ctx_ok 0 n k →
  (kdepth k < fuel)%nat →
  ∃ h' r', insert_fixup fuel h r s (eid x) = Ok (h', r') ∧
    rebalanced h' r' (elems (plug k (Node 1 a x b))).

(** The parent is black: the loop stops. *)
Lemma insert_black_parent fuel h r k a x b n :
  focus s sn h r k (Node 1 a x b) rest → is_rb 0 n a → is_rb 0 n b →
  (∃ y u up, k = InL 0 y u up ∨ k = InR 0 u y up) → ctx_ok 0 n k →
  ∃ h' r', insert_fixup (S fuel) h r s (eid x) = Ok (h', r') ∧
    rebalanced h' r' (elems (plug k (Node 1 a x b))).
Proof.
  intros Hf Ha Hb (y & u & up & Hk') Hk. cbn [insert_fixup].
  rewrite (focus_root _ _ _ _ _ _ _ _ _ _ Hf). pose proof Hf as [Ho Hr].
  exists h, r. destruct Hk' as [-> | ->]; inversion Hk; subst; rb_run; (split; [done|]);
    (eapply insert_stop; [exact Hf|done|by constructor|left; eauto with rb]).
Qed.

(** Red uncle: recolour and go on at the grandparent, whose children are [l] and [u]. *)
Ltac recolour IH Hf Hfuel l u :=
  let Hreb := fresh "Hreb" in let E := fresh "E" in
  destruct Hf as [? ?]; rb_run;
  match goal with |- context [insert_fixup _ ?h2 ?r _ (eid ?g)] =>
    match goal with H : ctx_ok 0 (S ?n) ?up |- _ =>
      edestruct (IH h2 r up l g u (S n)) as (? & ? & E & Hreb);
        [rb_focus|eauto with rb|eauto with rb|done|simpl in Hfuel; lia|] end end;
  rewrite E; do 2 eexists; split; [done|]; eapply rebalanced_eq; [exact Hreb|rb_elems].

(** Black uncle: the last steps are [tail_right] or [tail_left]. *)
Ltac finish_tail H :=
  let Hreb := fresh "Hreb" in let E := fresh "E" in
  edestruct H as (? & ? & E & Hreb); [eassumption|eauto with rb..|];
  do 2 eexists; split; [exact E|]; eapply rebalanced_eq; [exact Hreb|rb_elems].

(** The grandparent exists and is black; the uncle is a leaf, red or black. *)
Ltac grandparent :=
  match goal with H : ctx_ok 1 _ _ |- _ => inversion H; subst end;
  match goal with
  | _ : ctx_ok 1 _ (InL _ _ ?w _), H : is_rb _ _ ?w |- _ => inversion H; subst
  | _ : ctx_ok 1 _ (InR _ ?w _ _), H : is_rb _ _ ?w |- _ => inversion H; subst
  end.

(** An inner node is first rotated outwards; its old parent becomes the node. *)
Ltac rotate_then tail rot into out Hf :=
  let Ho := fresh "Ho" in let Hr := fresh "Hr" in let Hf' := fresh "Hf" in
  let h' := fresh "h" in let r' := fresh "r" in let E := fresh "E" in
  pose proof Hf as [Ho Hr]; rb_run; rewrite into in Hf;
  edestruct rot as (h' & r' & E & Hf'); [exact Hf|]; rewrite E, !ok_bind; clear E;
  rewrite <- out in Hf'; finish_tail tail.

Lemma insert_fixup_l fuel h r c y u up a x b n : fixup_ok fuel →
  focus s sn h r (InL c y u up) (Node 1 a x b) rest → is_rb 0 n a → is_rb 0 n b →
  ctx_ok 0 n (InL c y u up) → (S (kdepth up) < S fuel)%nat →
  ∃ h' r', insert_fixup (S fuel) h r s (eid x) = Ok (h', r') ∧
    rebalanced h' r' (elems (plug (InL c y u up) (Node 1 a x b))).
Proof.
  intros IH Hf Ha Hb Hk Hfuel. inversion Hk; subst; [|by eapply insert_black_parent; eauto 10].
  cbn [insert_fixup]. rewrite (focus_root _ _ _ _ _ _ _ _ _ _ Hf).
  destruct fuel as [|fuel]; [lia|]. grandparent.
  1, 3: pose proof Hf as [Ho Hr]; destruct u; rb_steps 16; finish_tail tail_right_spec.
  - match goal with _ : context [Node 1 ?l ?e ?r'] |- _ =>
      recolour IH Hf Hfuel (Node 0 (Node 1 a x b) y u) (Node 0 l e r') end.
  - rotate_then tail_left_spec right_rotate_spec focus_InL focus_InR Hf.
  - match goal with _ : context [Node 1 ?l ?e ?r'] |- _ =>
      recolour IH Hf Hfuel (Node 0 l e r') (Node 0 (Node 1 a x b) y u) end.
  - rotate_then tail_left_spec right_rotate_spec focus_InL focus_InR Hf.
Qed.

Lemma insert_fixup_r fuel h r c y u up a x b n : fixup_ok fuel →
  focus s sn h r (InR c u y up) (Node 1 a x b) rest → is_rb 0 n a → is_rb 0 n b →
  ctx_ok 0 n (InR c u y up) → (S (kdepth up) < S fuel)%nat →
  ∃ h' r', insert_fixup (S fuel) h r s (eid x) = Ok (h', r') ∧
    rebalanced h' r' (elems (plug (InR c u y up) (Node 1 a x b))).
Proof.
  intros IH Hf Ha Hb Hk Hfuel. inversion Hk; subst; [|by eapply insert_black_parent; eauto 10].
  cbn [insert_fixup]. rewrite (focus_root _ _ _ _ _ _ _ _ _ _ Hf).
  destruct fuel as [|fuel]; [lia|]. grandparent.
  4, 6: pose proof Hf as [Ho Hr]; destruct u; rb_steps 16; finish_tail tail_left_spec.
  - rotate_then tail_right_spec left_rotate_spec focus_InR focus_InL Hf.
  - match goal with _ : context [Node 1 ?l ?e ?r'] |- _ =>
      recolour IH Hf Hfuel (Node 0 u y (Node 1 a x b)) (Node 0 l e r') end.
  - rotate_then tail_right_spec left_rotate_spec focus_InR focus_InL Hf.
  - match goal with _ : context [Node 1 ?l ?e ?r'] |- _ =>
      recolour IH Hf Hfuel (Node 0 l e r') (Node 0 u y (Node 1 a x b)) end.
Qed.

Lemma insert_fixup_spec fuel : ∀ h r k a x b n,
  focus s sn h r k (Node 1 a x b) rest → is_rb 0 n a → is_rb 0 n b → ctx_ok 0 n k →
  (kdepth k < fuel)%nat →
  ∃ h' r', insert_fixup fuel h r s (eid x) = Ok (h', r') ∧
    rebalanced h' r' (elems (plug k (Node 1 a x b))).
Proof.
  induction fuel as [|fuel IH]; intros h r k a x b n Hf Ha Hb Hk Hfuel; [lia|].
  destruct k as [pp|c y u up|c u y up].
  - cbn [insert_fixup]. rewrite (focus_root _ _ _ _ _ _ _ _ _ _ Hf).
    exists h, r. split; [done|]. eapply insert_stop; [done|done|by constructor|eauto].
  - by eapply insert_fixup_l.
  - by eapply insert_fixup_r.
Qed.
End insert_fixup.

(** ** Descent to the insertion place *)

(** The elements in order with [e] put after those it is not less than. *)
Fixpoint place (less : Z → Z → bool) (e : elt) (l : list elt) : list elt :=
  match l with
  | [] => [e]
  | x :: l => if less (ekey e) (ekey x) then e :: x :: l else x :: place less e l
  end.

Lemma place_perm less e l : place less e l ≡ₚ e :: l.
Proof.
  induction l as [|x l IH]; simpl; [done|]. destruct (less _ _); [done|].
  rewrite IH. solve_Permutation.
Qed.

Lemma place_split less e b a :
  (∀ x, x ∈ b → less (ekey e) (ekey x) = false) →
  (∀ x, x ∈ a → less (ekey e) (ekey x) = true) →
  place less e (b ++ a) = b ++ e :: a.
Proof.
  intros Hb Ha. induction b as [|x b IH]; simpl.
  - destruct a as [|y a]; [done|]. simpl. rewrite Ha; [done|]. left.
  - rewrite Hb by left. f_equal. apply IH. intros. apply Hb. by right.
Qed.

(** [ordered rank l]: the keys of [l] do not decrease in the order [rank]; the comparison
    of the tree follows [rank] on every key that is in the tree. *)
Definition ordered (rank : Z → Z) : list elt → Prop :=
  StronglySorted (λ a b, rank (ekey a) ≤ rank (ekey b)).

Definition follows (less : Z → Z → bool) (rank : Z → Z) (k : Z) (l : list elt) : Prop :=
  ∀ x, x ∈ l → less k (ekey x) = (rank k <? rank (ekey x)).

Lemma ordered_app rank l1 l2 : ordered rank (l1 ++ l2) →
  ordered rank l1 ∧ ordered rank l2 ∧
  ∀ x y, x ∈ l1 → y ∈ l2 → rank (ekey x) ≤ rank (ekey y).
Proof.
  unfold ordered. rewrite StronglySorted_app. naive_solver.
Qed.

Lemma place_ordered less rank e l : ordered rank l → follows less rank (ekey e) l →
  ordered rank (place less e l).
Proof.
  unfold ordered, follows. induction 1 as [|x l Hl IH Hx]; intros Hless; simpl.
  { by repeat constructor. }
  rewrite Hless by left. destruct (Z.ltb_spec (rank (ekey e)) (rank (ekey x))) as [Hlt|Hge].
  - constructor; [by constructor|]. apply Forall_cons. split; [lia|].
    eapply Forall_impl; [exact Hx|]. intros y Hy. simpl in Hy. lia.
  - constructor; [apply IH; intros; apply Hless; by right|].
    rewrite place_perm. apply Forall_cons. split; [lia|done].
Qed.

Fixpoint height (t : tree) : nat :=
  match t with Leaf => 0 | Node _ l _ r => S (Nat.max (height l) (height r)) end.

Lemma height_cells s t : ∀ pp, (height t ≤ length (cells s t pp))%nat.
Proof.
  induction t as [|c l IHl e r IHr]; intros pp; simpl; [lia|]. rewrite length_app.
  specialize (IHl (eid e)). specialize (IHr (eid e)). lia.
Qed.

Lemma kdepth_cells s k : ∀ p, (kdepth k ≤ length (ccells s k p))%nat.
Proof.
  induction k as [pp|c e r up IH|c l e up IH]; intros p; simpl; [lia|..];
    rewrite length_app; specialize (IH (eid e)); lia.
Qed.

(** The size of the heap bounds the height of the tree and the depth of the position. *)
Lemma focus_fuel s sn h r k t rest : focus s sn h r k t rest →
  (height t + kdepth k + length rest < size h)%nat.
Proof.
  intros [Ho _]. apply own_size in Ho. simpl in Ho. rewrite !length_app in Ho.
  pose proof (height_cells s t (cptr k)). pose proof (kdepth_cells s k (tptr s t)). lia.
Qed.

Section descent.
Context (s : ptr) (sn : ngx_rbtree_node_t) (less : Z → Z → bool) (rank : Z → Z).
Context (h : heap) (r : ptr) (node : ptr) (nn : ngx_rbtree_node_t) (rest : list cell).

(** What the descent needs of the position [k] it has reached. *)
Definition passed (k : ctx) : Prop :=
  (∀ x, x ∈ before k → less (key nn) (ekey x) = false) ∧
  (∀ x, x ∈ after k → less (key nn) (ekey x) = true).

Definition hole_side (k : ctx) : bool := match k with InL _ _ _ _ => true | _ => false end.

Lemma passed_l c e u k : ordered rank (e :: elems u) → follows less rank (key nn) (e :: elems u) →
  less (key nn) (ekey e) = true → passed k → passed (InL c e u k).
Proof.
  intros Hu Hf He [Hb Ha]. split; [done|]. simpl. intros x.
  rewrite elem_of_cons, elem_of_app. intros [->|[Hx|Hx]]; [done| |auto].
  unfold ordered in Hu. rewrite StronglySorted_cons, Forall_forall in Hu.
  destruct Hu as [Hu _]. specialize (Hu x Hx).
  rewrite Hf in He by left. rewrite Hf by (by right). apply Z.ltb_lt in He.
  apply Z.ltb_lt. simpl in Hu. lia.
Qed.

Lemma passed_r c l e k : ordered rank (elems l ++ [e]) → follows less rank (key nn) (elems l ++ [e]) →
  less (key nn) (ekey e) = false → passed k → passed (InR c l e k).
Proof.
  intros Hl Hf He [Hb Ha]. split; [|done]. simpl. intros x. rewrite !elem_of_app, list_elem_of_singleton.
  intros [Hx|[Hx|Hx]]; [auto| |by subst].
  apply ordered_app in Hl as (_ & _ & Hl). specialize (Hl x e Hx (list_elem_of_here _ _)).
  rewrite Hf in He by set_solver. rewrite Hf by set_solver. apply Z.ltb_ge in He.
  apply Z.ltb_ge. lia.
Qed.

Lemma find_place_spec t : ∀ fuel k,
  focus s sn h r k t ((node, nn) :: rest) → t ≠ Leaf → (height t < fuel)%nat →
  ordered rank (elems t) → follows less rank (key nn) (elems t) → passed k →
  ∃ k', find_place fuel less h (tptr s t) node s = Ok (cptr k', hole_side k') ∧
    (∀ pp, k' ≠ Top pp) ∧ plug k' Leaf = plug k t ∧ ctop k' = ctop k ∧ passed k'.
Proof.
  induction t as [|c l IHl e u IHu]; intros fuel k Hf Hne Hfuel Hord Hless Hk; [done|].
  destruct fuel as [|fuel]; [lia|]. cbn [elems height] in Hord, Hless, Hfuel.
  pose proof (ordered_app rank (elems l) _ Hord) as (Hl & Hu & _).
  rewrite cons_middle, app_assoc in Hord. apply ordered_app in Hord as (Hle & Hu' & _).
  assert (follows less rank (key nn) (elems l) ∧ follows less rank (key nn) (elems u) ∧
          follows less rank (key nn) (e :: elems u) ∧ follows less rank (key nn) (elems l ++ [e]))
    as (Hfl & Hfu & Hfe & Hfe') by (split_and!; intros x Hx; apply Hless; set_solver).
  pose proof Hf as [Ho _]. cbn [find_place]. do 4 (rb_red; rb_step). rb_red. cbn zeta.
  destruct (less (key nn) (ekey e)) eqn:He; do 2 (rb_red; rb_step); rb_red.
  - pose proof (passed_l c e u k Hu Hfe He Hk) as Hk'. destruct l as [|c' l' e' u'].
    + exists (InL c e u k). rb_red. by rewrite Nat.eqb_refl.
    + rb_step. apply focus_InL in Hf.
      destruct (IHl fuel _ Hf) as (k' & ? & ? & ? & ? & ?); try done; [cbn [height] in *; lia|].
      by exists k'.
  - pose proof (passed_r c l e k Hle Hfe' He Hk) as Hk'. destruct u as [|c' l' e' u'].
    + exists (InR c l e k). rb_red. by rewrite Nat.eqb_refl.
    + rb_step. apply focus_InR in Hf.
      destruct (IHu fuel _ Hf) as (k' & ? & ? & ? & ? & ?); try done; [cbn [height] in *; lia|].
      by exists k'.
Qed.

(** Attaching the node: the empty place becomes a red node. *)
Lemma attach_spec k : focus s sn h r k Leaf ((node, nn) :: rest) → (∀ pp, k ≠ Top pp) →
  ∃ h', attach h (cptr k) (hole_side k) node s = Ok h' ∧
    focus s sn h' r k (Node 1 Leaf (mk_elt node (key nn) (data nn)) Leaf) rest.
Proof.
  intros [Ho Hr] Hk. unfold attach.
  destruct k as [pp|c e u up|c u e up]; [by destruct (Hk pp)|..]; cbn [hole_side]; rb_run;
    (eexists; split; [done|]; split; [rb_own|done]).
Qed.
End descent.

(** ** The tree as its list of elements

    [rb_is h tr l rest]: the heap stores a red-black tree at [tr] whose elements in order
    are [l], apart from the cells [rest].  The sentinel's links and the root's parent
    field are unconstrained, as deletion leaves anything in them. *)
Definition rb_is (h : heap) (tr : ngx_rbtree_t) (l : list elt) (rest : list cell) : Prop :=
  ∃ t sn pp n, color sn = 0 ∧ focus (sentinel tr) sn h (root tr) (Top pp) t rest ∧
    is_rb 0 n t ∧ elems t = l.

Lemma black_root s sn h r pp c n t rest : focus s sn h r (Top pp) t rest → is_rb c n t → t ≠ Leaf →
  ∃ h' t' n', ngx_rbt_black h r = Ok h' ∧ focus s sn h' r (Top pp) t' rest ∧ is_rb 0 n' t' ∧
    elems t' = elems t.
Proof.
  intros [Ho Hr] Ht Hne. destruct t as [|c0 l e u]; [done|]. cbn [kroot tptr] in Hr. subst r.
  rb_unfold. destruct (own_st (set_color 0) h (eid e) _ _ _ Ho _) as (h' & Hs & Ho').
  exists h', (Node 0 l e u). inversion Ht; subst; (eexists; split; [exact Hs|]);
    (split; [split; [rb_own|done]|]); (split; [eauto with rb|done]).
Qed.

(** An empty tree: the node becomes the root. *)
Lemma insert_empty h tr node nn rest : rb_is h tr [] ((node, nn) :: rest) →
  ∃ h' tr', ngx_rbtree_insert h tr node = Ok (h', tr') ∧
    rb_is h' tr' [mk_elt node (key nn) (data nn)] rest ∧
    sentinel tr' = sentinel tr ∧ insert tr' = insert tr.
Proof.
  intros (t & sn & pp & n & Hsn & [Ho Hr] & Ht & Hel).
  destruct t as [|c l e u]; [|simpl in Hel; by destruct (elems l)]. cbn [kroot tptr] in Hr.
  unfold ngx_rbtree_insert. rewrite Hr, Nat.eqb_refl. rb_run.
  eexists _, (set_root tr node). split; [done|]. split; [|done].
  exists (Node 0 Leaf (mk_elt node (key nn) (data nn)) Leaf), sn, NULL, 1%nat.
  split; [done|]. split; [split; [rb_own|done]|]. split; [|done].
  eapply rb_black; constructor.
Qed.

Lemma insert_nonempty less rank h tr l node nn rest :
  insert tr = insert_with less → l ≠ [] →
  rb_is h tr l ((node, nn) :: rest) → ordered rank l → follows less rank (key nn) l →
  ∃ h' tr', ngx_rbtree_insert h tr node = Ok (h', tr') ∧
    rb_is h' tr' (place less (mk_elt node (key nn) (data nn)) l) rest ∧
    sentinel tr' = sentinel tr ∧ insert tr' = insert tr.
Proof.
  intros Hins Hne (t & sn & pp & n & Hsn & Hf & Ht & <-) Hord Hless.
  destruct t as [|c tl te tr']; [done|].
  pose proof (focus_fuel _ _ _ _ _ _ _ Hf) as Hfuel.
  assert (Nat.eqb (root tr) (sentinel tr) = false) as Hroot.
  { destruct Hf as [Ho ->]. rb_red. eapply own_neq; [exact Ho|typeclasses eauto..]. }
  unfold ngx_rbtree_insert. rewrite Hroot, Hins. unfold insert_with, depth_fuel.
  destruct (find_place_spec (sentinel tr) sn less rank h (root tr) node nn rest
              (Node c tl te tr') (S (size h)) (Top pp) Hf) as (k & Hfp & Hk & Hplug & Htop & Hpass);
    [done|simpl in *; lia|done|done|split; intros ? []%elem_of_nil|].
  assert (root tr = tptr (sentinel tr) (Node c tl te tr')) as Hr by apply Hf.
  rewrite <- Hr in Hfp. rewrite Hfp, ok_bind. clear Hr Hfp.
  rewrite focus_top, <- Hplug, <- Htop, <- focus_top in Hf.
  destruct (attach_spec _ _ _ _ _ _ _ k Hf Hk) as (h1 & -> & Hf1). rewrite ok_bind.
  cbn [plug] in Hplug. rewrite <- Hplug in Ht. destruct (unplug_rb k Leaf n Ht) as (c0 & m & Hleaf & Hck).
  inversion Hleaf; subst. pose proof (focus_fuel _ _ _ _ _ _ _ Hf1).
  destruct sn as [sk sl sr sp sc sd]. simpl in Hsn. subst sc.
  destruct (insert_fixup_spec (sentinel tr) sk sl sr sp sd rest (S (size h1)) h1 (root tr)
    k Leaf (mk_elt node (key nn) (data nn)) Leaf 0 Hf1)
    as (h2 & r2 & Hfix & (t2 & pp2 & c2 & n2 & Hf2 & Ht2 & Hne2 & Hel2)); [constructor..|done|lia|].
  cbn [eid] in Hfix. rewrite Hfix, ok_bind.
  destruct (black_root _ _ _ _ _ _ _ _ _ Hf2 Ht2 Hne2) as (h3 & t3 & n3 & -> & Hf3 & Ht3 & Hel3).
  rewrite ok_bind. eexists _, (set_root tr r2). split; [done|]. split; [|done].
  eexists t3, _, pp2, n3. split; [|split; [exact Hf3|split; [done|]]]; [done|].
  rewrite Hel3, Hel2. rewrite <- Hplug, !elems_plug. cbn [elems app].
  symmetry. apply place_split; apply Hpass.
Qed.

(** Insertion puts the element after those it is not less than and keeps the tree
    red-black and ordered. *)
Lemma insert_spec less rank h tr l node nn rest :
  insert tr = insert_with less →
  rb_is h tr l ((node, nn) :: rest) → ordered rank l → follows less rank (key nn) l →
  ∃ h' tr', ngx_rbtree_insert h tr node = Ok (h', tr') ∧
    rb_is h' tr' (place less (mk_elt node (key nn) (data nn)) l) rest ∧
    sentinel tr' = sentinel tr ∧ insert tr' = insert tr.
Proof.
  intros. destruct l; [by apply insert_empty|by eapply insert_nonempty].
Qed.
