(* ===== verification/RbDelete.v ===== *)
(** * RbDelete: deletion

    The fixup loop carries a subtree that is one black node short; [restored] is what it
    leaves behind.  Deletion proper unlinks the node or moves its successor into its
    place, which only changes the list of elements by the node deleted. *)

From S2P Require Import Prelude RbHeap RbTree RbInsert.
#[local] Open Scope Z_scope.

Section delete_fixup.
Context (s : ptr) (sk : Z) (sl sr sp : ptr) (sd : Z) (rest : list cell).
#[local] Abbreviation sn := (mk_rbnode sk sl sr sp 0 sd).

Definition restored (h : heap) (r : ptr) (l : list elt) : Prop :=
  ∃ t pp n, focus s sn h r (Top pp) t rest ∧ is_rb 0 n t ∧ elems t = l.

(** The parent field of [temp] when it is the sentinel. *)
Definition leaf_parent (t : tree) (p : ptr) : Prop := t = Leaf → sp = p.

Lemma tcolor_rb c n t : is_rb c n t → tcolor t = c.
Proof. by inversion 1. Qed.

(** A tree with a black root and black nodes below is a node. *)
Lemma is_rb_node n t : is_rb 0 (S n) t →
  ∃ c1 c2 l e r, t = Node 0 l e r ∧ is_rb c1 n l ∧ is_rb c2 n r.
Proof. inversion 1; subst. eauto 10. Qed.

Lemma ctx_ok_black n k : ctx_ok 1 n k → ctx_ok 0 n k.
Proof. inversion 1; subst; eauto with rb. Qed.

Lemma black_tree s' sn' h r pp n t rest' : focus s' sn' h r (Top pp) t rest' → is_rb 0 n t →
  color sn' = 0 →
  ∃ h', ngx_rbt_black h r = Ok h' ∧ focus s' sn' h' r (Top pp) t rest'.
Proof.
  intros [Ho Hr] Ht Hs. rb_unfold. subst r. destruct t as [|c l e u]; cbn [kroot tptr].
  - destruct (own_st (set_color 0) h s' _ _ _ Ho _) as (h' & -> & Ho').
    exists h'. split; [done|]. split; [|done]. destruct sn'. simpl in Hs. subst. exact Ho'.
  - destruct (own_st (set_color 0) h (eid e) _ _ _ Ho _) as (h' & -> & Ho').
    exists h'. split; [done|]. inversion Ht; subst. split; [rb_own|done].
Qed.

(** [temp = *root]: the last iteration. *)
Lemma delete_fixup_root fuel h r k t c n : focus s sn h r k t rest → is_rb c n t → ctx_ok c n k →
  ∃ h', delete_fixup (S fuel) h r s r = Ok (h', r) ∧ restored h' r (elems (plug k t)).
Proof.
  intros Hf Ht Hk. rewrite focus_top in Hf. destruct (plug_rb k c n t Ht Hk) as (n' & Hp).
  destruct (black_tree _ _ _ _ _ _ _ _ Hf Hp eq_refl) as (h' & Hb & Hf').
  exists h'. cbn [delete_fixup]. rewrite Nat.eqb_refl, ok_bind. cbn [negb].
  rewrite Hb, ok_bind. split; [done|]. by exists (plug k t), (ctop k), n'.
Qed.

(** Away from the root [temp] differs from it. *)
Lemma focus_not_root h r k t : focus s sn h r k t rest →
  Nat.eqb (tptr s t) r = match k with Top _ => true | _ => false end.
Proof.
  intros Hf. destruct t as [|c l e u]; [|by eapply focus_root]. destruct Hf as [Ho ->].
  destruct k as [pp|c' e' r' up|c' l' e' up]; cbn [kroot tptr]; [apply Nat.eqb_refl|..];
    (eapply (own_neq_in h); [exact Ho|typeclasses eauto|]);
    pose proof (kroot_in s up (eid e')); simpl; rewrite !fmap_app; set_solver.
Qed.

(** [temp] is red: it is blackened. *)
Lemma delete_fixup_red fuel h r k a x b n c1 c2 :
  focus s sn h r k (Node 1 a x b) rest → is_rb c1 n a → is_rb c2 n b → ctx_ok 0 (S n) k →
  ∃ h', delete_fixup (S fuel) h r s (eid x) = Ok (h', r) ∧
    restored h' r (elems (plug k (Node 1 a x b))).
Proof.
  intros Hf Ha Hb Hk. cbn [delete_fixup]. pose proof (focus_root _ _ _ _ _ _ _ _ _ _ Hf) as Hroot.
  assert ((if Nat.eqb (eid x) r then Ok false else ngx_rbt_is_black h (eid x)) = Ok false) as ->.
  { rewrite Hroot. destruct Hf as [Ho _]. destruct k; rb_unfold; [done|..];
      by erewrite (own_ld _ h (eid x)) by (first [exact Ho|typeclasses eauto]). }
  rewrite ok_bind. cbn [negb]. destruct Hf as [Ho Hr]. rb_run. eexists. split; [done|].
  assert (focus s sn h0 r k (Node 0 a x b) rest) as Hf by (split; [rb_own|done]).
  rewrite focus_top in Hf. destruct (plug_rb k 0 (S n) (Node 0 a x b)) as (n' & Hp); [eauto with rb|done|].
  exists (plug k (Node 0 a x b)), (ctop k), n'. split; [done|]. split; [done|].
  by rewrite !elems_plug.
Qed.

Definition del_ok (fuel : nat) : Prop := ∀ h r k t n,
  focus s sn h r k t rest → is_rb 0 n t → leaf_parent t (cptr k) → ctx_ok 0 (S n) k →
  (S (kdepth k) < fuel)%nat →
  ∃ h' r', delete_fixup fuel h r s (tptr s t) = Ok (h', r') ∧ restored h' r' (elems (plug k t)).

Lemma restored_eq h r l l' : restored h r l → l = l' → restored h r l'.
Proof. by intros ? <-. Qed.

Ltac restored_by H := eapply restored_eq; [exact H|]; rewrite ?elems_plug; simpl;
  repeat (rewrite <- app_assoc; simpl); done.

(** ** The sibling on the right: [temp] is a left child *)

(** Both rotations done, or a red far child to begin with. *)
Definition far_right fuel h r w temp : result (heap * ptr) :=
  tp ← ld parent h temp;
  h ← ngx_rbt_copy_color h w tp;
  tp ← ld parent h temp;
  h ← ngx_rbt_black h tp;
  wr ← ld right h w;
  h ← ngx_rbt_black h wr;
  tp ← ld parent h temp;
  '(h, root) ← ngx_rbtree_left_rotate h r s tp;
  delete_fixup fuel h root s root.

Lemma far_right_spec fuel h r c p t wl e a x b n cl up :
  focus s sn h r (InL c p (Node 0 wl e (Node 1 a x b)) up) t rest → leaf_parent t (eid p) →
  is_rb 0 n t → is_rb cl n wl → is_rb 0 n a → is_rb 0 n b →
  ctx_ok 0 (S n) (InL c p (Node 0 wl e (Node 1 a x b)) up) →
  ∃ h' r', far_right (S fuel) h r (eid e) (tptr s t) = Ok (h', r') ∧
    restored h' r' (elems (plug (InL c p (Node 0 wl e (Node 1 a x b)) up) t)).
Proof.
  intros [Ho Hr] Hlp Ht Hwl Ha Hb Hk. unfold far_right, leaf_parent in *. rb_run.
  destruct (left_rotate_spec s sn h2 r up 0 t p c wl e (Node 0 a x b) rest)
    as (h3 & r3 & -> & Hf3); [rb_focus|]. rewrite ok_bind.
  destruct (delete_fixup_root fuel h3 r3 up (Node c (Node 0 t p wl) e (Node 0 a x b)) c
              (if c =? 0 then S (S n) else S n) Hf3) as (h4 & -> & Hres);
    [inversion Hk; subst; simpl; eauto with rb..|].
  exists h4, r3. split; [done|]. restored_by Hres.
Qed.

(** The sibling [w], known to be black, and the rest of the iteration. *)
Definition sibling_right fuel h r w temp : result (heap * ptr) :=
  wl ← ld left h w;
  bl ← ngx_rbt_is_black h wl;
  both ← (if bl : bool then wr ← ld right h w; ngx_rbt_is_black h wr else Ok false);
  if both : bool then
    h ← ngx_rbt_red h w;
    tp ← ld parent h temp;
    delete_fixup fuel h r s tp
  else
    wr ← ld right h w;
    br ← ngx_rbt_is_black h wr;
    '(h, root, w) ←
      (if br : bool then
         wl ← ld left h w;
         h ← ngx_rbt_black h wl;
         h ← ngx_rbt_red h w;
         '(h, root) ← ngx_rbtree_right_rotate h r s w;
         tp ← ld parent h temp;
         w ← ld right h tp;
         Ok (h, root, w)
       else Ok (h, r, w));
    far_right fuel h root w temp.

Lemma sibling_right_spec fuel h r c p t wl e wr n cl cr up : del_ok (S (S fuel)) →
  focus s sn h r (InL c p (Node 0 wl e wr) up) t rest → leaf_parent t (eid p) →
  is_rb 0 n t → is_rb cl n wl → is_rb cr n wr →
  ctx_ok 0 (S n) (InL c p (Node 0 wl e wr) up) →
  (c = 1 ∨ (kdepth up < S fuel)%nat) →
  ∃ h' r', sibling_right (S (S fuel)) h r (eid e) (tptr s t) = Ok (h', r') ∧
    restored h' r' (elems (plug (InL c p (Node 0 wl e wr) up) t)).
Proof.
  intros IH Hf Hlp Ht Hwl Hwr Hk Hfuel. pose proof Hf as [Ho Hr].
  unfold sibling_right, leaf_parent in *.
  destruct (is_rb_color _ _ _ Hwr) as [-> | ->].
  - destruct (is_rb_color _ _ _ Hwl) as [-> | ->].
    + (* both children of the sibling are black *)
      rb_run. rewrite (tcolor_rb _ _ _ Hwl). rb_run. rewrite (tcolor_rb _ _ _ Hwr). rb_run.
      assert (focus s sn h0 r up (Node c t p (Node 1 wl e wr)) rest) as Hf0 by rb_focus.
      inversion Hk; subst.
      * destruct (delete_fixup_red (S fuel) h0 (kroot up (eid p)) up t p (Node 1 wl e wr) n 0 1 Hf0)
          as (h1 & -> & Hres); [eauto using ctx_ok_black with rb..|].
        do 2 eexists. split; [done|]. restored_by Hres.
      * destruct (IH h0 (kroot up (eid p)) up (Node 0 t p (Node 1 wl e wr)) (S n) Hf0)
          as (h1 & r1 & Hd & Hres); [eauto with rb|done|done|lia|].
        cbn [tptr] in Hd. rewrite Hd. do 2 eexists. split; [done|]. restored_by Hres.
    + (* the near child is red: rotate it to the far side *)
      inversion Hwl as [|? l y r' Hl Hr'|]; subst. rb_run. rewrite (tcolor_rb _ _ _ Hwr). rb_run.
      destruct (right_rotate_spec s sn h1 (kroot up (eid p)) (InR c t p up) 1 l y 0 r' e wr rest)
        as (h2 & r2 & -> & Hf2); [rb_focus|].
      rewrite ok_bind, focus_InR, <- focus_InL in *. pose proof Hf2 as [Ho2 Hr2]. rb_steps 4.
      edestruct (far_right_spec (S fuel) h2 r2 c p t l y r' e wr n 0 up) as (h3 & r3 & E & Hres);
        [exact Hf2|exact Hlp|eauto with rb..|inversion Hk; subst; eauto with rb|].
      exists h3, r3. split; [exact E|restored_by Hres].
  - (* the far child is red *)
    inversion Hwr; subst. rb_run.
    edestruct (far_right_spec (S fuel)) as (h3 & r3 & E & Hres); [exact Hf|exact Hlp|eauto..|].
    exists h3, r3. split; [|restored_by Hres].
    rewrite <- E. destruct (tcolor wl =? 0); rb_run; done.
Qed.

(** One iteration with [temp] a left child. *)
Lemma delete_fixup_l fuel h r c p t w n up : del_ok (S (S fuel)) →
  focus s sn h r (InL c p w up) t rest → leaf_parent t (eid p) → is_rb 0 n t →
  ctx_ok 0 (S n) (InL c p w up) → (kdepth up < S fuel)%nat →
  ∃ h' r', delete_fixup (S (S (S fuel))) h r s (tptr s t) = Ok (h', r') ∧
    restored h' r' (elems (plug (InL c p w up) t)).
Proof.
  intros IH Hf Hlp Ht Hk Hfuel. pose proof Hf as [Ho Hr]. cbn [delete_fixup].
  rewrite (focus_not_root _ _ _ _ Hf).
  assert (∃ cw, is_rb cw (S n) w ∧ (cw = 1 → c = 0)) as (cw & Hw & Hcw)
    by (inversion Hk; subst; eexists; (split; [eassumption|lia])).
  rb_unfold. rb_red. rb_step. rewrite (tcolor_rb _ _ _ Ht). rb_red. rb_step. rb_red.
  unfold leaf_parent in Hlp.
  inversion Hw as [|? wl e wr Hwl Hwr|? ? ? wl e wr Hwl Hwr]; subst.
  - (* red sibling: after a rotation the sibling is black *)
    specialize (Hcw eq_refl). subst c.
    destruct (is_rb_node _ _ Hwl) as (c1 & c2 & x & e' & y & -> & Hx & Hy).
    rb_run. destruct (left_rotate_spec s sn h1 (kroot up (eid p)) up 1 t p 0 (Node 0 x e' y) e wr rest)
      as (h2 & r2 & -> & Hf2); [rb_focus|].
    rewrite ok_bind, <- !focus_InL in *. pose proof Hf2 as [Ho2 Hr2]. rb_steps 4.
    edestruct (sibling_right_spec fuel h2 r2 1 p t x e' y n c1 c2 (InL 0 e wr up))
      as (h3 & r3 & E & Hres); [exact IH|exact Hf2|exact Hlp|done..| |by left|].
    { inversion Hk; subst. eauto with rb. }
    exists h3, r3. split; [exact E|restored_by Hres].
  - (* black sibling *)
    rb_steps 9.
    edestruct (sibling_right_spec fuel h (kroot up (eid p)) c p t wl e wr n) as (h3 & r3 & E & Hres);
      [exact IH|exact Hf|exact Hlp|done..|by right|].
    exists h3, r3. split; [exact E|exact Hres].
Qed.

(** ** The sibling on the left: [temp] is a right child *)

Definition far_left fuel h r w temp : result (heap * ptr) :=
  tp ← ld parent h temp;
  h ← ngx_rbt_copy_color h w tp;
  tp ← ld parent h temp;
  h ← ngx_rbt_black h tp;
  wl ← ld left h w;
  h ← ngx_rbt_black h wl;
  tp ← ld parent h temp;
  '(h, root) ← ngx_rbtree_right_rotate h r s tp;
  delete_fixup fuel h root s root.

Lemma far_left_spec fuel h r c p t wr e a x b n cr up :
  focus s sn h r (InR c (Node 0 (Node 1 a x b) e wr) p up) t rest → leaf_parent t (eid p) →
  is_rb 0 n t → is_rb cr n wr → is_rb 0 n a → is_rb 0 n b →
  ctx_ok 0 (S n) (InR c (Node 0 (Node 1 a x b) e wr) p up) →
  ∃ h' r', far_left (S fuel) h r (eid e) (tptr s t) = Ok (h', r') ∧
    restored h' r' (elems (plug (InR c (Node 0 (Node 1 a x b) e wr) p up) t)).
Proof.
  intros [Ho Hr] Hlp Ht Hwr Ha Hb Hk. unfold far_left, leaf_parent in *. rb_run.
  destruct (right_rotate_spec s sn h2 r up 0 (Node 0 a x b) e c wr p t rest)
    as (h3 & r3 & -> & Hf3); [rb_focus|]. rewrite ok_bind.
  destruct (delete_fixup_root fuel h3 r3 up (Node c (Node 0 a x b) e (Node 0 wr p t)) c
              (if c =? 0 then S (S n) else S n) Hf3) as (h4 & -> & Hres);
    [inversion Hk; subst; simpl; eauto with rb..|].
  exists h4, r3. split; [done|]. restored_by Hres.
Qed.

Definition sibling_left fuel h r w temp : result (heap * ptr) :=
  wl ← ld left h w;
  bl ← ngx_rbt_is_black h wl;
  both ← (if bl : bool then wr ← ld right h w; ngx_rbt_is_black h wr else Ok false);
  if both : bool then
    h ← ngx_rbt_red h w;
    tp ← ld parent h temp;
    delete_fixup fuel h r s tp
  else
    wl ← ld left h w;
    bl ← ngx_rbt_is_black h wl;
    '(h, root, w) ←
      (if bl : bool then
         wr ← ld right h w;
         h ← ngx_rbt_black h wr;
         h ← ngx_rbt_red h w;
         '(h, root) ← ngx_rbtree_left_rotate h r s w;
         tp ← ld parent h temp;
         w ← ld left h tp;
         Ok (h, root, w)
       else Ok (h, r, w));
    far_left fuel h root w temp.

Lemma sibling_left_spec fuel h r c p t wl e wr n cl cr up : del_ok (S (S fuel)) →
  focus s sn h r (InR c (Node 0 wl e wr) p up) t rest → leaf_parent t (eid p) →
  is_rb 0 n t → is_rb cl n wl → is_rb cr n wr →
  ctx_ok 0 (S n) (InR c (Node 0 wl e wr) p up) →
  (c = 1 ∨ (kdepth up < S fuel)%nat) →
  ∃ h' r', sibling_left (S (S fuel)) h r (eid e) (tptr s t) = Ok (h', r') ∧
    restored h' r' (elems (plug (InR c (Node 0 wl e wr) p up) t)).
Proof.
  intros IH Hf Hlp Ht Hwl Hwr Hk Hfuel. pose proof Hf as [Ho Hr].
  unfold sibling_left, leaf_parent in *.
  destruct (is_rb_color _ _ _ Hwl) as [-> | ->].
  - destruct (is_rb_color _ _ _ Hwr) as [-> | ->].
    + (* both children of the sibling are black *)
      rb_run. rewrite (tcolor_rb _ _ _ Hwl). rb_run. rewrite (tcolor_rb _ _ _ Hwr). rb_run.
      assert (focus s sn h0 r up (Node c (Node 1 wl e wr) p t) rest) as Hf0 by rb_focus.
      inversion Hk; subst.
      * destruct (delete_fixup_red (S fuel) h0 (kroot up (eid p)) up (Node 1 wl e wr) p t n 1 0 Hf0)
          as (h1 & -> & Hres); [eauto using ctx_ok_black with rb..|].
        do 2 eexists. split; [done|]. restored_by Hres.
      * destruct (IH h0 (kroot up (eid p)) up (Node 0 (Node 1 wl e wr) p t) (S n) Hf0)
          as (h1 & r1 & Hd & Hres); [eauto with rb|done|done|lia|].
        cbn [tptr] in Hd. rewrite Hd. do 2 eexists. split; [done|]. restored_by Hres.
    + (* the near child is red: rotate it to the far side *)
      inversion Hwr as [|? l y r' Hl Hr'|]; subst. rb_run. rewrite (tcolor_rb _ _ _ Hwl). rb_run.
      rewrite (tcolor_rb _ _ _ Hwl). rb_run.
      destruct (left_rotate_spec s sn h1 (kroot up (eid p)) (InL c p t up) 1 wl e 0 l y r' rest)
        as (h2 & r2 & -> & Hf2); [rb_focus|].
      rewrite ok_bind, focus_InL, <- focus_InR in *. pose proof Hf2 as [Ho2 Hr2]. rb_steps 4.
      edestruct (far_left_spec (S fuel) h2 r2 c p t r' y wl e l n 0 up) as (h3 & r3 & E & Hres);
        [exact Hf2|exact Hlp|eauto with rb..|inversion Hk; subst; eauto with rb|].
      exists h3, r3. split; [exact E|restored_by Hres].
  - (* the far child is red *)
    inversion Hwl; subst. rb_run.
    edestruct (far_left_spec (S fuel)) as (h3 & r3 & E & Hres); [exact Hf|exact Hlp|eauto..|].
    exists h3, r3. split; [exact E|restored_by Hres].
Qed.

(** One iteration with [temp] a right child. *)
Lemma delete_fixup_r fuel h r c p t w n up : del_ok (S (S fuel)) →
  focus s sn h r (InR c w p up) t rest → leaf_parent t (eid p) → is_rb 0 n t →
  ctx_ok 0 (S n) (InR c w p up) → (kdepth up < S fuel)%nat →
  ∃ h' r', delete_fixup (S (S (S fuel))) h r s (tptr s t) = Ok (h', r') ∧
    restored h' r' (elems (plug (InR c w p up) t)).
Proof.
  intros IH Hf Hlp Ht Hk Hfuel. pose proof Hf as [Ho Hr]. cbn [delete_fixup].
  rewrite (focus_not_root _ _ _ _ Hf).
  assert (∃ cw, is_rb cw (S n) w ∧ (cw = 1 → c = 0)) as (cw & Hw & Hcw)
    by (inversion Hk; subst; eexists; (split; [eassumption|lia])).
  rb_unfold. rb_red. rb_step. rewrite (tcolor_rb _ _ _ Ht). rb_red. rb_step. rb_red.
  unfold leaf_parent in Hlp.
  inversion Hw as [|? wl e wr Hwl Hwr|? ? ? wl e wr Hwl Hwr]; subst.
  - (* red sibling: after a rotation the sibling is black *)
    specialize (Hcw eq_refl). subst c.
    destruct (is_rb_node _ _ Hwr) as (c1 & c2 & x & e' & y & -> & Hx & Hy).
    rb_run. destruct (right_rotate_spec s sn h1 (kroot up (eid p)) up 1 wl e 0 (Node 0 x e' y) p t rest)
      as (h2 & r2 & -> & Hf2); [rb_focus|].
    rewrite ok_bind, <- !focus_InR in *. pose proof Hf2 as [Ho2 Hr2]. rb_steps 4.
    edestruct (sibling_left_spec fuel h2 r2 1 p t x e' y n c1 c2 (InR 0 wl e up))
      as (h3 & r3 & E & Hres); [exact IH|exact Hf2|exact Hlp|done..| |by left|].
    { inversion Hk; subst. eauto with rb. }
    exists h3, r3. split; [exact E|restored_by Hres].
  - (* black sibling *)
    rb_steps 9.
    edestruct (sibling_left_spec fuel h (kroot up (eid p)) c p t wl e wr n) as (h3 & r3 & E & Hres);
      [exact IH|exact Hf|exact Hlp|done..|by right|].
    exists h3, r3. split; [exact E|exact Hres].
Qed.

Lemma delete_fixup_spec fuel : del_ok fuel.
Proof.
  induction fuel as [fuel IH] using lt_wf_ind. intros h r k t n Hf Ht Hlp Hk Hfuel.
  destruct k as [pp|c p w up|c w p up]; cbn [kdepth] in Hfuel.
  - destruct fuel as [|fuel]; [lia|]. assert (tptr s t = r) as -> by (symmetry; apply Hf).
    destruct (delete_fixup_root fuel h r (Top pp) t 0 n Hf Ht) as (h' & -> & Hres); [constructor|].
    by exists h', r.
  - destruct fuel as [|[|[|fuel]]]; try lia.
    eapply delete_fixup_l; eauto. lia.
  - destruct fuel as [|[|[|fuel]]]; try lia.
    eapply delete_fixup_r; eauto. lia.
Qed.
End delete_fixup.

(** ** The leftmost node of a subtree

    [splug os t]: [t] at the end of the left spine [os], innermost first. *)
Fixpoint splug (os : list (Z * elt * tree)) (t : tree) : tree :=
  match os with [] => t | (c, e, r) :: os => splug os (Node c t e r) end.
Fixpoint spine (os : list (Z * elt * tree)) (k : ctx) : ctx :=
  match os with [] => k | (c, e, r) :: os => InL c e r (spine os k) end.

Lemma splug_snoc os c e r t : splug (os ++ [(c, e, r)]) t = Node c (splug os t) e r.
Proof. revert t. induction os as [|[[c' e'] r'] os IH]; intros t; simpl; [done|apply IH]. Qed.

Lemma plug_spine os k t : plug (spine os k) t = plug k (splug os t).
Proof. revert t. induction os as [|[[c e] r] os IH]; intros t; simpl; [done|apply IH]. Qed.

Lemma ctop_spine os k : ctop (spine os k) = ctop k.
Proof. induction os as [|[[c e] r] os IH]; simpl; done. Qed.

Lemma focus_spine s sn h r os k t rest :
  focus s sn h r (spine os k) t rest ↔ focus s sn h r k (splug os t) rest.
Proof.
  revert t. induction os as [|[[c e] u] os IH]; intros t; simpl; [done|].
  by rewrite focus_InL, IH.
Qed.

Lemma elems_splug os : ∃ l, ∀ t', elems (splug os t') = elems t' ++ l.
Proof.
  induction os as [|[[c e] r] os [l IH]]; [exists []; intros; by rewrite app_nil_r|].
  exists (e :: elems r ++ l). intros t'. simpl. rewrite IH. simpl. by rewrite <- app_assoc.
Qed.

Lemma ctx_ok_spine os : ∀ c n k k', (∀ c n, ctx_ok c n k → ctx_ok c n k') →
  ctx_ok c n (spine os k) → ctx_ok c n (spine os k').
Proof.
  induction os as [|[[c0 e] r] os IH]; intros c n k k' Hk Hs; simpl in *; [auto|].
  inversion Hs; subst; eauto with rb.
Qed.

Lemma min_loop_spec s sn h r rest t : ∀ fuel k, focus s sn h r k t rest → t ≠ Leaf →
  (height t ≤ fuel)%nat →
  ∃ os c y u, t = splug os (Node c Leaf y u) ∧
    ngx_rbtree_min_loop fuel h (tptr s t) s = Ok (eid y).
Proof.
  induction t as [|c l IHl e u _]; intros fuel k Hf Hne Hfuel; [done|].
  destruct fuel as [|fuel]; [simpl in Hfuel; lia|]. cbn [ngx_rbtree_min_loop height] in *.
  pose proof Hf as [Ho _]. rb_steps 3. destruct l as [|c' l' e' u'].
  - exists [], c, e, u. split; [done|]. rb_red. by rewrite Nat.eqb_refl.
  - rb_steps 1. apply focus_InL in Hf.
    destruct (IHl fuel _ Hf) as (os & cy & y & uy & Heq & Hrun); [done|cbn [height] in *; lia|].
    exists (os ++ [(c, e, u)]), cy, y, uy. split; [by rewrite splug_snoc, <- Heq|exact Hrun].
Qed.

Lemma min_spec s sn h r rest t k : focus s sn h r k t rest → t ≠ Leaf →
  ∃ os c y u, t = splug os (Node c Leaf y u) ∧ ngx_rbtree_min h (tptr s t) s = Ok (eid y).
Proof.
  intros Hf Hne. eapply min_loop_spec; [exact Hf|done|].
  pose proof (focus_fuel _ _ _ _ _ _ _ Hf). unfold depth_fuel. lia.
Qed.

(** ** Unlinking a node with at most one child *)
Definition only_child (a b m : tree) : Prop := (a = Leaf ∧ m = b) ∨ (b = Leaf ∧ m = a).

Definition not_top (k : ctx) : Prop := match k with Top _ => False | _ => True end.

Lemma kroot_hole k p q : not_top k → kroot k p = kroot k q.
Proof. by destruct k. Qed.

Section unlink.
Context (s : ptr) (sk : Z) (sl sr : ptr) (sd : Z) (rest : list cell).
#[local] Abbreviation sn sp := (mk_rbnode sk sl sr sp 0 sd).

Lemma unlink_spec sp h r k c a y b m : focus s (sn sp) h r k (Node c a y b) rest → not_top k →
  only_child a b m →
  ∃ h', (∀ A (f : heap → result A),
          (q ← ld parent h (eid y);
           ql ← ld left h q;
           h ← (if Nat.eqb (eid y) ql then st (set_left (tptr s m)) h q
                else st (set_right (tptr s m)) h q);
           f h) = f h') ∧
    own h' ((s, sn sp) :: (eid y, mk_rbnode (ekey y) (tptr s a) (tptr s b) (cptr k) c (edata y)) ::
            cells s m (eid y) ++ ccells s k (tptr s m) ++ rest).
Proof.
  intros [Ho Hr] Hk Hm.
  assert (cells s a (eid y) ++ cells s b (eid y) = cells s m (eid y)) as Hc
    by (destruct Hm as [[-> ->]|[-> ->]]; simpl; [done|by rewrite app_nil_r]).
  cbn [cells] in Ho. rewrite Hc in Ho. clear Hc Hm.
  destruct k as [pp|ck e u up|ck u e up]; [done|..]; rb_red.
  - edestruct (own_st (set_left (tptr s m)) h (eid e)) as (h' & Hst & Ho');
      [exact Ho|typeclasses eauto|].
    exists h'. split; [|rb_own]. intros A f. rb_steps 4. by rewrite Nat.eqb_refl, Hst.
  - edestruct (own_st (set_right (tptr s m)) h (eid e)) as (h' & Hst & Ho');
      [exact Ho|typeclasses eauto|].
    assert (Nat.eqb (eid y) (tptr s u) = false) as Hne
      by (destruct u; rb_red; (eapply (own_neq h); [exact Ho|typeclasses eauto..])).
    exists h'. split; [|rb_own]. intros A f. rb_steps 4. by rewrite Hne, Hst.
Qed.

Lemma reparent_spec sp h m p0 v cs cs1 cs2 : own h cs → Pull (s, sn sp) cs cs1 →
  PullT s m p0 cs1 cs2 →
  ∃ h' sp', st (set_parent v) h (tptr s m) = Ok h' ∧
    own h' ((s, sn sp') :: cells s m v ++ cs2) ∧ leaf_parent sp' m v.
Proof.
  unfold Pull, PullT. intros Ho Hs Hm. rewrite Hs, Hm in Ho. destruct m as [|c l e u]; rb_run.
  - eexists _, v. split; [done|]. split; [rb_own|done].
  - eexists _, sp. split; [done|]. split; [rb_own|done].
Qed.

Lemma clear_node_spec h x xn cs cs' : own h cs → Pull (x, xn) cs cs' →
  ∃ h', clear_node h x = Ok h' ∧ own h' ((x, mk_rbnode 0 NULL NULL NULL (color xn) (data xn)) :: cs').
Proof.
  unfold Pull. intros Ho Hx. rewrite Hx in Ho. unfold clear_node. rb_run.
  eexists. split; [done|]. rb_own.
Qed.

(** The end of a deletion: [m] has taken the place of a black node. *)
Lemma finish_delete sp h r k m cm n : focus s (sn sp) h r k m rest → leaf_parent sp m (cptr k) →
  is_rb cm n m → ctx_ok 0 (S n) k →
  ∃ h' r', delete_fixup (S (depth_fuel h)) h r s (tptr s m) = Ok (h', r') ∧
    restored s sk sl sr sp sd rest h' r' (elems (plug k m)).
Proof.
  intros Hf Hlp Hm Hk. destruct (is_rb_color _ _ _ Hm) as [-> | ->].
  - pose proof (focus_fuel _ _ _ _ _ _ _ Hf).
    eapply delete_fixup_spec; [exact Hf|exact Hm|exact Hlp|done|unfold depth_fuel; lia].
  - inversion Hm; subst.
    edestruct (delete_fixup_red s sk sl sr sp sd rest (depth_fuel h) h r k) as (h' & E & Hres);
      [exact Hf|eauto..|].
    cbn [tptr]. rewrite E. eauto.
Qed.
End unlink.

(** ** Moving the successor into the place of the deleted node *)
Section transplant.
Context (s : ptr) (sk : Z) (sl sr : ptr) (sd : Z) (rest : list cell).
#[local] Abbreviation sn sp := (mk_rbnode sk sl sr sp 0 sd).
#[local] Abbreviation node_here x a u k c :=
  (mk_rbnode (ekey x) (tptr s a) (tptr s u) (cptr k) c (edata x)).

Lemma replace_spec sp h r k c a x u pp y yl yr yp yc :
  own h ((s, sn sp) :: (eid y, mk_rbnode (ekey y) yl yr yp yc (edata y)) ::
         (eid x, node_here x a u k c) ::
         cells s a (eid x) ++ cells s u pp ++ ccells s k (eid x) ++ rest) →
  r = kroot k (eid x) → a ≠ Leaf →
  ∃ h' r', replace_node h r s (eid x) (eid y) = Ok (h', r') ∧
    focus s (sn sp) h' r' k (Node c a y u) ((eid x, node_here x a u k c) :: rest).
Proof.
  intros Ho Hr Ha.
  assert (Nat.eqb (eid x) r = match k with Top _ => true | _ => false end) as Hroot.
  { subst r. destruct k as [p0|c' e' r' up|c' l' e' up]; cbn [kroot]; [apply Nat.eqb_refl|..];
      (eapply (own_neq_in h); [exact Ho|typeclasses eauto|]);
      pose proof (kroot_in s up (eid e')); simpl; rewrite !fmap_app; set_solver. }
  destruct a as [|ca al ae ar]; [done|]. unfold replace_node, focus.
  destruct k as [p0|ck e w up|ck w e up]; rewrite Hroot; rb_run;
    (do 2 eexists; split; [done|split; [rb_own|done]]).
Qed.

(** The cells below a spine do not mention the node the spine hangs from, except for the
    parent of the outermost one. *)
Lemma cells_spine os k t :
  cells s t (cptr (spine os k)) ++ ccells s (spine os k) (tptr s t) ≡ₚ
  cells s (splug os t) (cptr k) ++ ccells s k (tptr s (splug os t)).
Proof.
  revert t. induction os as [|[[c e] r] os IH]; intros t; [done|].
  simpl. rewrite <- (IH (Node c t e r)). simpl. solve_Permutation.
Qed.

Lemma cptr_spine os k k' : os ≠ [] → cptr (spine os k) = cptr (spine os k').
Proof. by destruct os as [|[[c e] r] os]. Qed.

Lemma spine_in os k c a x p : eid x ∈ (ccells s (spine os (InR c a x k)) p).*1.
Proof.
  revert p. induction os as [|[[c1 e1] r1] os IH]; intros p; simpl; [by left|].
  right. rewrite fmap_app. apply elem_of_app. right. apply IH.
Qed.

Lemma transplant_spec sp h r k c a x os cs y ur :
  own h ((s, sn sp) :: (eid y, node_here y Leaf ur (spine os (InR c a x k)) cs) ::
         cells s ur (eid y) ++ ccells s (spine os (InR c a x k)) (tptr s ur) ++ rest) →
  r = kroot k (eid x) → a ≠ Leaf →
  ∃ h' r' sp' xn, transplant h r s (eid x) (eid y) (tptr s ur) = Ok (h', r') ∧
    focus s (sn sp') h' r' (spine os (InR c a y k)) ur ((eid x, xn) :: rest) ∧
    leaf_parent sp' ur (cptr (spine os (InR c a y k))) ∧ data xn = edata x.
Proof.
  intros Ho Hr Ha. unfold transplant.
  destruct os as [|[[c1 e1] r1] os].
  - cbn [spine cptr ccells] in Ho. rb_steps 3.
    edestruct (reparent_spec s sk sl sr sd sp h ur (eid y) (eid y)) as (h1 & sp1 & E & Ho1 & Hlp1);
      [exact Ho|typeclasses eauto..|].
    rewrite E, ok_bind.
    edestruct (replace_spec sp1 h1 r k c a x ur (eid y) y) as (h2 & r2 & -> & Hf2);
      [eapply own_weaken; [exact Ho1|]; cbn [cells]; solve_Permutation|done|done|].
    do 4 eexists. split; [done|]. rewrite focus_spine. simpl. rewrite focus_InR.
    split; [exact Hf2|split; [exact Hlp1|done]].
  - set (K := spine ((c1, e1, r1) :: os) (InR c a x k)) in *.
    assert (Nat.eqb (cptr K) (eid x) = false) as Hne.
    { cbn [K spine cptr ccells] in *. eapply (own_neq_in h); [exact Ho|typeclasses eauto|].
      pose proof (spine_in os k c a x (eid e1)). simpl. rewrite !fmap_app. set_solver. }
    rb_steps 2. rewrite Hne.
    edestruct (reparent_spec s sk sl sr sd sp h ur (eid y) (cptr K))
      as (h1 & sp1 & E & Ho1 & Hlp1); [exact Ho|typeclasses eauto..|]. rewrite E, ok_bind.
    set (u := splug ((c1, e1, r1) :: os) ur).
    edestruct (replace_spec sp1 h1 r k c a x u (eid x) y) as (h2 & r2 & -> & Hf2); [|done|done|].
    { eapply own_weaken; [exact Ho1|].
      trans ((s, sn sp1) :: (eid y, node_here y Leaf ur K cs) ::
             (cells s ur (cptr K) ++ ccells s K (tptr s ur)) ++ rest); [solve_Permutation|].
      unfold K at 2 3. rewrite cells_spine. simpl. fold u. solve_Permutation. }
    do 4 eexists. split; [done|]. rewrite focus_spine, focus_InR. fold u.
    split; [exact Hf2|split; [exact Hlp1|done]].
Qed.
End transplant.

(** ** [ngx_rbtree_delete] *)
Lemma unplug_elem t : ∀ k0 l1 e l2, elems t = l1 ++ e :: l2 →
  ∃ k c a b, plug k (Node c a e b) = plug k0 t ∧ ctop k = ctop k0 ∧
    before k ++ elems a = before k0 ++ l1 ∧ elems b ++ after k = l2 ++ after k0.
Proof.
  induction t as [|c l IHl x r IHr]; intros k0 l1 e l2 H; [by destruct l1|].
  simpl in H. destruct (app_eq_inv _ _ _ _ H) as [(m & Hl & Hr)|(m & Hl & Hr)].
  - destruct m as [|y m].
    + rewrite app_nil_r in Hl. injection Hr as -> ->. exists k0, c, l, r. by rewrite Hl.
    + injection Hr as <- ->. destruct (IHl (InL c x r k0) l1 e m Hl) as (k & ck & a & b & ? & ? & ? & ?).
      exists k, ck, a, b. split_and!; try done. simpl in *. by rewrite <- app_assoc.
  - destruct m as [|y m].
    + rewrite app_nil_r in Hl. injection Hr as -> <-. exists k0, c, l, r. by rewrite Hl.
    + injection Hr as <- Hr. destruct (IHr (InR c l x k0) m e l2 Hr) as (k & ck & a & b & ? & ? & He & ?).
      exists k, ck, a, b. split_and!; try done. rewrite He, Hl. simpl. rewrite <- !app_assoc. done.
Qed.

Lemma only_child_rb c n a x b m : is_rb c n (Node c a x b) → only_child a b m →
  ∃ cm, is_rb cm 0 m ∧ ((c = 1 ∧ n = 0%nat ∧ m = Leaf) ∨ (c = 0 ∧ n = 1%nat)).
Proof.
  intros Ht [[-> ->]|[-> ->]]; inversion Ht; subst;
    repeat match goal with H : is_rb _ _ Leaf |- _ => inversion H; clear H; subst end;
    eauto 8; match goal with H : is_rb 0 0 ?t |- _ => inversion H; subst end; eauto 8 with rb.
Qed.

Section delete.
Context (tr : ngx_rbtree_t) (sk : Z) (sl sr : ptr) (sd : Z) (rest : list cell).
#[local] Abbreviation s := (sentinel tr).
#[local] Abbreviation sn sp := (mk_rbnode sk sl sr sp 0 sd).

(** The result of a deletion: the tree has the elements [l], the node is cleared. *)
Definition deleted (x : elt) (l : list elt) (r : result (heap * ngx_rbtree_t)) : Prop :=
  ∃ h' tr' c', r = Ok (h', tr') ∧
    rb_is h' tr' l ((eid x, mk_rbnode 0 NULL NULL NULL c' (edata x)) :: rest) ∧
    sentinel tr' = s ∧ insert tr' = insert tr.

Lemma restored_deleted sp x l c' h' r' :
  restored s sk sl sr sp sd ((eid x, mk_rbnode 0 NULL NULL NULL c' (edata x)) :: rest) h' r' l →
  deleted x l (Ok (h', set_root tr r')).
Proof.
  intros (t & pp & n & Hf & Ht & Hl). do 3 eexists. split; [done|]. split; [|done].
  exists t, (sn sp), pp, n. done.
Qed.

(** What remains to be done once the node is unlinked and [m] is the focus. *)
Definition delete_rest h r (red : bool) node temp : result (heap * ngx_rbtree_t) :=
  h ← clear_node h node;
  if red then Ok (h, set_root tr r) else
  '(h, r) ← delete_fixup (S (depth_fuel h)) h r s temp;
  Ok (h, set_root tr r).

Lemma delete_rest_spec sp h r k m c x xn cm n : data xn = edata x →
  focus s (sn sp) h r k m ((eid x, xn) :: rest) → leaf_parent sp m (cptr k) →
  is_rb cm 0 m → ((c = 1 ∧ n = 0%nat ∧ m = Leaf) ∨ (c = 0 ∧ n = 1%nat)) → ctx_ok c n k →
  deleted x (elems (plug k m)) (delete_rest h r (negb (c =? 0)) (eid x) (tptr s m)).
Proof.
  intros Hxn [Ho Hr] Hlp Hm Hc Hk. unfold delete_rest.
  edestruct (clear_node_spec h (eid x) xn) as (h1 & -> & Ho1); [exact Ho|typeclasses eauto|].
  rewrite ok_bind, Hxn in *.
  assert (focus s (sn sp) h1 r k m ((eid x, mk_rbnode 0 NULL NULL NULL (color xn) (edata x)) :: rest))
    as Hf1 by (split; [rb_own|done]).
  destruct Hc as [(-> & -> & ->)|[-> ->]]; cbn [negb Z.eqb].
  - eapply (restored_deleted sp). rewrite focus_top in Hf1.
    destruct (plug_rb k 0 0 Leaf) as (n' & Hn'); [constructor|by apply ctx_ok_black|].
    eexists _, _, n'. split; [exact Hf1|done].
  - destruct (finish_delete _ _ _ _ _ _ _ _ _ _ _ _ _ Hf1 Hlp Hm Hk) as (h2 & r2 & -> & Hres).
    rewrite ok_bind. by eapply restored_deleted.
Qed.

(** The node is the root and has at most one child, which is red. *)
Lemma delete_root sp h pp c a x b m n :
  focus s (sn sp) h (root tr) (Top pp) (Node c a x b) rest → only_child a b m →
  is_rb c n (Node c a x b) → c = 0 →
  deleted x (elems m) (h ← ngx_rbt_black h (tptr s m); h ← clear_node h (eid x);
                       Ok (h, set_root tr (tptr s m))).
Proof.
  intros [Ho Hr] Hm Ht ->. destruct (only_child_rb _ _ _ _ _ _ Ht Hm) as (cm & Hcm & Hc).
  assert (cells s a (eid x) ++ cells s b (eid x) = cells s m (eid x)) as Hcells
    by (destruct Hm as [[-> ->]|[-> ->]]; simpl; [done|by rewrite app_nil_r]).
  cbn [cells] in Ho. rewrite Hcells in Ho. clear Hm Hcells Hc.
  unfold deleted. destruct m as [|c1 m1 y m2]; rb_steps 2;
    (edestruct (clear_node_spec h0 (eid x)) as (h1 & -> & Ho1); [eassumption|typeclasses eauto|]);
    rewrite ok_bind; eapply (restored_deleted sp).
  - exists Leaf, pp, 0%nat. split; [split; [rb_own|done]|]. split; [constructor|done].
  - exists (Node 0 m1 y m2), (eid x). inversion Hcm; subst; 
      (eexists; split; [split; [rb_own|done]|]; split; [eauto with rb|done]).
Qed.

Lemma delete_single sp h k c a x b m n :
  focus s (sn sp) h (root tr) k (Node c a x b) rest → only_child a b m →
  is_rb c n (Node c a x b) → ctx_ok c n k →
  deleted x (elems (plug k m)) (ngx_rbtree_delete h tr (eid x)).
Proof.
  intros Hf Hm Ht Hk. pose proof (focus_root _ _ _ _ _ _ _ _ _ _ Hf) as Hroot.
  pose proof Hf as [Ho Hr]. unfold ngx_rbtree_delete.
  assert (delete_pick h s (eid x) = Ok (eid x, tptr s m)) as ->.
  { unfold delete_pick. clear Hroot. destruct Hm as [[-> ->]|[-> ->]]; rb_run; done. }
  rewrite ok_bind, Hroot.
  destruct (only_child_rb _ _ _ _ _ _ Ht Hm) as (cm & Hcm & Hc).
  destruct k as [pp|ck e u up|ck u e up]; [by inversion Hk; subst; eapply delete_root|..];
    destruct (unlink_spec s sk sl sr sd rest sp h (root tr) _ c a x b m Hf I Hm) as (h1 & Hun & Ho1).
  all: unfold deleted; rb_steps 2; rewrite Hun, Nat.eqb_refl; rb_steps 2;
    (edestruct (reparent_spec s sk sl sr sd sp h1 m (eid x) (eid e)) as (h2 & sp2 & E & Ho2 & Hlp);
       [exact Ho1|typeclasses eauto..|]); rewrite E, !ok_bind; clear E Ho1 Hun.
  all: eapply (delete_rest_spec sp2); [| |exact Hlp|exact Hcm|exact Hc|exact Hk];
    [|split; [rb_own|exact Hr]]; done.
Qed.

(** ** A node with two children: its successor takes its place *)
Lemma delete_double sp h k c a x b n :
  focus s (sn sp) h (root tr) k (Node c a x b) rest → a ≠ Leaf → b ≠ Leaf →
  is_rb c n (Node c a x b) → ctx_ok c n k →
  deleted x (before k ++ elems a ++ elems b ++ after k) (ngx_rbtree_delete h tr (eid x)).
Proof.
  intros Hf Ha Hb Ht Hk. pose proof Hf as [Ho Hr]. unfold ngx_rbtree_delete.
  pose proof Hf as Hfb. rewrite <- focus_InR in Hfb.
  destruct (min_spec _ _ _ _ _ _ _ Hfb Hb) as (os & cy & y & ur & Hbeq & Hmin).
  rewrite Hbeq, <- focus_spine in Hfb. set (K := spine os (InR c a x k)) in *.
  destruct (plug_rb k c n _ Ht Hk) as (n' & Hn').
  assert (plug K (Node cy Leaf y ur) = plug k (Node c a x b)) as HK
    by (subst K; by rewrite plug_spine, Hbeq).
  rewrite <- HK in Hn'. destruct (unplug_rb _ _ _ Hn') as (c' & m & Hy & HKok).
  assert (c' = cy) as -> by (by inversion Hy).
  assert (not_top K) as Hnt by (subst K; by destruct os as [|[[? ?] ?] ?]).
  assert (only_child Leaf ur ur) as Honly by by left.
  destruct (only_child_rb _ _ _ _ _ _ Hy Honly) as (cm & Hcm & Hc).
  pose proof (focus_root _ _ _ _ _ _ _ _ _ _ Hfb) as Hroot. pose proof Hfb as [Hob _].
  assert (delete_pick h s (eid x) = Ok (eid y, tptr s ur)) as ->.
  { unfold delete_pick. destruct a as [|ca al ae ar]; [done|]. destruct b as [|cb bl be br]; [done|].
    clear Hob Hroot. rb_steps 6. cbn [tptr] in Hmin. rewrite Hmin, ok_bind.
    clear Ho. destruct Hfb as [Hob _]. rb_run. done. }
  rewrite ok_bind, Hroot.
  replace (match K with Top _ => true | _ => false end) with false by (by destruct K).
  unfold deleted. destruct (unlink_spec s sk sl sr sd rest sp h (root tr) K cy Leaf y ur ur Hfb Hnt Honly)
    as (h1 & Hun & Ho1).
  rb_steps 2. rewrite Hun. clear Hun.
  assert (Nat.eqb (eid y) (eid x) = false) as ->.
  { clear Ho1. subst K. rewrite focus_spine, <- Hbeq in Hfb. eapply own_neq_in; [exact Hob|typeclasses eauto|].
    pose proof (spine_in s os k c a x (eid y)). simpl. rewrite !fmap_app. set_solver. }
  destruct (transplant_spec s sk sl sr sd rest sp h1 (root tr) k c a x os cy y ur Ho1)
    as (h2 & r2 & sp2 & xn & -> & Hf2 & Hlp2 & Hxn); [done|done|]. rewrite ok_bind.
  replace (before k ++ elems a ++ elems b ++ after k)
    with (elems (plug (spine os (InR c a y k)) ur)).
  - eapply (delete_rest_spec sp2); [exact Hxn|exact Hf2|exact Hlp2|exact Hcm|exact Hc|].
    eapply ctx_ok_spine; [|exact HKok]. intros c0 n0 Hc0. inversion Hc0; subst; eauto with rb.
  - rewrite plug_spine, elems_plug. simpl. rewrite Hbeq.
    destruct (elems_splug os) as (l & Hl). rewrite !Hl. simpl. by rewrite <- !app_assoc.
Qed.
End delete.

(** Deletion removes exactly the element at the given node, keeps the tree red-black and
    clears the node. *)
Lemma delete_spec h tr l1 e l2 rest : rb_is h tr (l1 ++ e :: l2) rest →
  ∃ h' tr' c, ngx_rbtree_delete h tr (eid e) = Ok (h', tr') ∧
    rb_is h' tr' (l1 ++ l2) ((eid e, mk_rbnode 0 NULL NULL NULL c (edata e)) :: rest) ∧
    sentinel tr' = sentinel tr ∧ insert tr' = insert tr.
Proof.
  intros (t & sn & pp & n & Hsn & Hf & Ht & Hl).
  destruct (unplug_elem t (Top pp) l1 e l2 Hl) as (k & c & a & b & Hplug & Htop & H1 & H2).
  simpl in Hplug, Htop, H1, H2. rewrite app_nil_r in H2.
  destruct sn as [sk sl sr sp sc sd]. simpl in Hsn. subst sc.
  rewrite <- Hplug in Hf, Ht. rewrite <- Htop, <- focus_top in Hf.
  destruct (unplug_rb _ _ _ Ht) as (c' & m & Hnode & Hk).
  assert (c' = c) as -> by (by inversion Hnode).
  rewrite <- H1, <- H2.
  destruct a as [|ca al ae ar]; [|destruct b as [|cb bl be br]].
  - pose proof (delete_single tr sk sl sr sd rest sp h k c Leaf e b b m Hf) as Hd.
    rewrite elems_plug in Hd. simpl. rewrite app_nil_r. apply Hd; [by left|done|done].
  - pose proof (delete_single tr sk sl sr sd rest sp h k c _ e Leaf _ m Hf (or_intror (conj eq_refl eq_refl))) as Hd.
    rewrite elems_plug in Hd. simpl elems at 2. rewrite <- app_assoc. by apply Hd.
  - rewrite <- app_assoc. by eapply delete_double.
Qed.
