(* ===== verification/RbQuery.v ===== *)
(** * RbQuery: minimum, successor, height, and the properties of the red-black tree

    [ngx_rbtree_min] and [ngx_rbtree_next] walk the list of elements; the height is
    logarithmic in the number of elements.  The last section states what
    src/heartbeat/ngx_rbtree.c guarantees, with a witness for each property. *)

From stdpp Require Import sorting.
From S2P Require Import Prelude RbHeap RbTree RbInsert RbDelete.
#[local] Open Scope Z_scope.

(** ** Minimum and successor *)
Definition head_ptr (l : list elt) : ptr := match l with [] => NULL | e :: _ => eid e end.

Lemma min_head s sn h r k t rest : focus s sn h r k t rest → t ≠ Leaf →
  ngx_rbtree_min h (tptr s t) s = Ok (head_ptr (elems t)).
Proof.
  intros Hf Hne. destruct (min_spec _ _ _ _ _ _ _ Hf Hne) as (os & c & y & u & -> & ->).
  destruct (elems_splug os) as (l & Hl). by rewrite Hl.
Qed.

Lemma next_loop_spec s sn h r rest fuel : ∀ k c a x b,
  focus s sn h r k (Node c a x b) rest → (kdepth k < fuel)%nat →
  next_loop fuel h r (eid x) = Ok (head_ptr (after k)).
Proof.
  induction fuel as [|fuel IH]; intros k c a x b Hf Hfuel; [lia|].
  cbn [next_loop]. rewrite (focus_root _ _ _ _ _ _ _ _ _ _ Hf). pose proof Hf as [Ho _].
  destruct k as [pp|ck e u up|ck u e up]; cbn [kdepth] in Hfuel.
  - rb_run. done.
  - rb_steps 4. by rewrite Nat.eqb_refl.
  - rb_steps 4. rewrite focus_InR in Hf.
    destruct u; rb_run; (rewrite (IH up _ _ e _ Hf) by lia; done).
Qed.

Lemma next_spec h tr l1 e l2 rest : rb_is h tr (l1 ++ e :: l2) rest →
  ngx_rbtree_next h tr (eid e) = Ok (head_ptr l2).
Proof.
  intros (t & sn & pp & n & _ & Hf & _ & Hl).
  destruct (unplug_elem t (Top pp) l1 e l2 Hl) as (k & c & a & b & Hplug & Htop & _ & H2).
  simpl in Hplug, Htop, H2. rewrite app_nil_r in H2. subst l2.
  rewrite <- Hplug, <- Htop, <- focus_top in Hf. pose proof Hf as [Ho _].
  pose proof (focus_fuel _ _ _ _ _ _ _ Hf). unfold ngx_rbtree_next. destruct b as [|cb bl be br].
  - rb_steps 2. rewrite Nat.eqb_refl. cbn [negb]. eapply next_loop_spec; [exact Hf|].
    unfold depth_fuel. lia.
  - rb_steps 3. rewrite <- focus_InR in Hf.
    change (eid be) with (tptr (sentinel tr) (Node cb bl be br)).
    rewrite (min_head _ _ _ _ _ _ _ Hf) by done. cbn [elems]. by destruct (elems bl).
Qed.

Lemma min_is h tr e l rest : rb_is h tr (e :: l) rest →
  ngx_rbtree_min h (root tr) (sentinel tr) = Ok (eid e).
Proof.
  intros (t & sn & pp & n & _ & Hf & _ & Hl). assert (t ≠ Leaf) by (by intros ->).
  replace (root tr) with (tptr (sentinel tr) t) by (symmetry; apply Hf).
  by rewrite (min_head _ _ _ _ _ _ _ Hf), Hl.
Qed.

Lemma rb_is_root h tr l rest : rb_is h tr l rest →
  Nat.eqb (root tr) (sentinel tr) = match l with [] => true | _ => false end.
Proof.
  intros (t & sn & pp & n & _ & [Ho Hr] & _ & <-). rewrite Hr.
  destruct t as [|c a e b]; cbn [kroot tptr elems]; [by rewrite Nat.eqb_refl|].
  assert (Nat.eqb (eid e) (sentinel tr) = false) as ->
    by (eapply (own_neq h); [exact Ho|typeclasses eauto..]).
  by destruct (elems a).
Qed.

(** Cells the tree does not use are not touched. *)
Lemma rb_is_rest h tr l p n rest : rb_is h tr l ((p, n) :: rest) → h !! p = Some n ∧ p ≠ NULL.
Proof.
  intros (t & sn & pp & m & _ & [Ho _] & _ & _). rewrite !app_comm_cons, app_assoc in Ho.
  rewrite <- Permutation_middle in Ho. split; [by eapply own_lookup|by eapply own_not_null].
Qed.

(** ** Height *)
Lemma rb_size c n t : is_rb c n t → (2 ^ n ≤ S (length (elems t)))%nat.
Proof.
  induction 1 as [|n l e r Hl IHl Hr IHr|c1 c2 n l e r Hl IHl Hr IHr]; simpl; [done|..];
    rewrite length_app; simpl; lia.
Qed.

Lemma rb_height c n t : is_rb c n t → (height t ≤ 2 * n + Z.to_nat c)%nat.
Proof.
  induction 1 as [|n l e r Hl IHl Hr IHr|c1 c2 n l e r Hl IHl Hr IHr]; simpl in *; [lia|lia|].
  apply is_rb_color in Hl, Hr. destruct Hl as [-> | ->], Hr as [-> | ->]; simpl in *; lia.
Qed.

Lemma rb_height_log n t : is_rb 0 n t → (height t ≤ 2 * Nat.log2 (S (length (elems t))))%nat.
Proof.
  intros Ht. pose proof (rb_size _ _ _ Ht) as Hs. pose proof (rb_height _ _ _ Ht) as Hh.
  apply Nat.log2_le_mono in Hs. rewrite Nat.log2_pow2 in Hs by lia. simpl in *. lia.
Qed.

(** ** A heap with five nodes for the witnesses: the sentinel is at 100 *)
Definition fresh_node (k : Z) : ngx_rbtree_node_t := mk_rbnode k NULL NULL NULL 7 0.
Definition sentinel_cell : cell := (100%nat, mk_rbnode 0 NULL NULL NULL 9 0).
Definition free_cells (l : list (ptr * Z)) : list cell := (λ '(p, k), (p, fresh_node k)) <$> l.
Definition heap_of (cs : list cell) : heap := list_to_map cs.

Lemma heap_of_own cs : NoDup (cs.*1) → Forall (λ c, c.1 ≠ NULL) cs → own (heap_of cs) cs.
Proof.
  intros Hnd Hn. split; [done|]. rewrite Forall_forall in *. intros [p n] Hp.
  split; [by apply (Hn (p, n))|]. by apply elem_of_list_to_map.
Qed.

(** [ngx_rbtree_init] gives an empty tree. *)
Lemma init_spec h s sn cs i : own h ((s, sn) :: cs) →
  ∃ h' tr, ngx_rbtree_init h s i = Ok (h', tr) ∧ rb_is h' tr [] cs ∧ sentinel tr = s ∧ insert tr = i.
Proof.
  intros Ho. unfold ngx_rbtree_init. rb_run. do 2 eexists. split; [done|]. split; [|done].
  exists Leaf, (set_color 0 sn), NULL, 0%nat.
  split_and!; [done|split; [exact Ho0|done]|constructor|done].
Qed.

(** ** Runs of operations against a sorted list

    A node is inserted with a key stored in it, as the timers do; [abs_run] is the list of
    (address, key) pairs the tree should hold, [ops_ok] says that only free nodes are
    inserted and only present ones deleted. *)
Inductive rb_op := OpInsert (node : ptr) (k : Z) | OpDelete (node : ptr).

Fixpoint rb_run_ops (h : heap) (tr : ngx_rbtree_t) (ops : list rb_op) : result (heap * ngx_rbtree_t) :=
  match ops with
  | [] => Ok (h, tr)
  | OpInsert p k :: ops =>
      h ← st (set_key k) h p;
      '(h, tr) ← ngx_rbtree_insert h tr p; rb_run_ops h tr ops
  | OpDelete p :: ops => '(h, tr) ← ngx_rbtree_delete h tr p; rb_run_ops h tr ops
  end.

Definition pair_of (e : elt) : ptr * Z := (eid e, ekey e).

Fixpoint place_pair (less : Z → Z → bool) (x : ptr * Z) (l : list (ptr * Z)) : list (ptr * Z) :=
  match l with
  | [] => [x]
  | y :: l => if less x.2 y.2 then x :: y :: l else y :: place_pair less x l
  end.

Definition remove_pair (p : ptr) (l : list (ptr * Z)) : list (ptr * Z) := filter (λ x, x.1 ≠ p) l.

Fixpoint abs_run (less : Z → Z → bool) (l : list (ptr * Z)) (ops : list rb_op) : list (ptr * Z) :=
  match ops with
  | [] => l
  | OpInsert p k :: ops => abs_run less (place_pair less (p, k) l) ops
  | OpDelete p :: ops => abs_run less (remove_pair p l) ops
  end.

Fixpoint ops_ok (W : Z → Prop) (present free : gset ptr) (ops : list rb_op) : Prop :=
  match ops with
  | [] => True
  | OpInsert p k :: ops => p ∈ free ∧ W k ∧ ops_ok W ({[p]} ∪ present) (free ∖ {[p]}) ops
  | OpDelete p :: ops => p ∈ present ∧ ops_ok W (present ∖ {[p]}) ({[p]} ∪ free) ops
  end.

Lemma place_pairs less e l : pair_of <$> place less e l = place_pair less (pair_of e) (pair_of <$> l).
Proof.
  induction l as [|x l IH]; [done|]. cbn [place]. rewrite fmap_cons. cbn [place_pair].
  simpl (pair_of _).2. destruct (less _ _); [done|]. by rewrite fmap_cons, IH.
Qed.

Lemma remove_pairs l1 e l2 : NoDup (eid <$> l1 ++ e :: l2) →
  remove_pair (eid e) (pair_of <$> l1 ++ e :: l2) = pair_of <$> l1 ++ l2.
Proof.
  assert (∀ l, eid e ∉ eid <$> l → remove_pair (eid e) (pair_of <$> l) = pair_of <$> l) as Hother.
  { induction l as [|x l IH]; intros Hx; [done|]. rewrite fmap_cons, elem_of_cons in Hx.
    unfold remove_pair in *. rewrite fmap_cons, filter_cons_True by (simpl; intros ?; apply Hx; by left).
    rewrite IH; [done|]. intros ?. apply Hx. by right. }
  intros Hnd. rewrite fmap_app, fmap_cons in Hnd.
  apply NoDup_app in Hnd as (_ & Hn1 & Hn2). apply NoDup_cons in Hn2 as [Hn2 _].
  unfold remove_pair in *. rewrite fmap_app, fmap_cons, filter_app, filter_cons_False by (simpl; auto).
  rewrite !Hother, <- fmap_app; [done| |]; [done|]. intros Hin. apply (Hn1 _ Hin). by left.
Qed.

Section run.
Context (less : Z → Z → bool) (rank : Z → Z) (W : Z → Prop).
Context (Hless : ∀ k k', W k → W k' → less k k' = (rank k <? rank k')).

(** The invariant of a run. *)
Definition rb_inv (h : heap) (tr : ngx_rbtree_t) (l : list elt) (rest : list cell) : Prop :=
  rb_is h tr l rest ∧ insert tr = insert_with less ∧ ordered rank l ∧ Forall (λ e, W (ekey e)) l.

Lemma rb_is_perm h tr l rest rest' : rb_is h tr l rest → rest ≡ₚ rest' → rb_is h tr l rest'.
Proof.
  intros (t & sn & pp & n & Hsn & [Ho Hr] & ?) Hp. exists t, sn, pp, n.
  split; [done|]. split; [split; [|done]|done]. by rewrite <- Hp.
Qed.

Lemma rb_is_nodup h tr l rest : rb_is h tr l rest → NoDup ((eid <$> l) ++ rest.*1).
Proof.
  intros (t & sn & pp & n & _ & [[Hnd _] _] & _ & <-). simpl in Hnd.
  apply NoDup_cons in Hnd as [_ Hnd]. rewrite fmap_app, cells_ids in Hnd. done.
Qed.

(** Assigning to a node that is not in the tree. *)
Lemma rb_is_st f h tr l p n rest : rb_is h tr l ((p, n) :: rest) →
  ∃ h', st f h p = Ok h' ∧ rb_is h' tr l ((p, f n) :: rest).
Proof.
  intros (t & sn & pp & m & Hsn & [Ho Hr] & ?).
  destruct (own_st f h p n _ _ Ho _) as (h' & -> & Ho').
  exists h'. split; [done|]. exists t, sn, pp, m. split; [done|].
  split; [split; [|done]|done]. eapply own_weaken; [exact Ho'|]. solve_Permutation.
Qed.

Lemma rb_inv_st f h tr l p n rest : rb_inv h tr l ((p, n) :: rest) →
  ∃ h', st f h p = Ok h' ∧ rb_inv h' tr l ((p, f n) :: rest).
Proof.
  intros (Hrb & H). destruct (rb_is_st f _ _ _ _ _ _ Hrb) as (h' & -> & Hrb'). by exists h'.
Qed.

Lemma inv_insert h tr l p n rest k : rb_inv h tr l ((p, n) :: rest) → W k →
  ∃ h1 h' tr', st (set_key k) h p = Ok h1 ∧ ngx_rbtree_insert h1 tr p = Ok (h', tr') ∧
    rb_inv h' tr' (place less (mk_elt p k (data n)) l) rest ∧ sentinel tr' = sentinel tr.
Proof.
  intros (Hrb & Hins & Hord & HW) Hk.
  destruct (rb_is_st (set_key k) h tr l p n rest Hrb) as (h1 & -> & Hrb1).
  assert (follows less rank k l) as Hf.
  { intros x Hx. apply Hless; [done|]. rewrite Forall_forall in HW. by apply HW. }
  destruct (insert_spec less rank h1 tr l p _ rest Hins Hrb1 Hord Hf) as (h2 & tr2 & Hi & Hrb2 & Hs & Hi2).
  exists h1, h2, tr2. split; [done|]. split; [done|]. split; [|done]. split_and!.
  - exact Hrb2.
  - by rewrite Hi2.
  - by apply (place_ordered less rank (mk_elt p k (data n))).
  - rewrite place_perm. by constructor.
Qed.

Lemma inv_delete h tr l1 e l2 rest : rb_inv h tr (l1 ++ e :: l2) rest →
  ∃ h' tr' n, ngx_rbtree_delete h tr (eid e) = Ok (h', tr') ∧
    rb_inv h' tr' (l1 ++ l2) ((eid e, n) :: rest) ∧ sentinel tr' = sentinel tr.
Proof using Type.
  clear Hless.
  intros (Hrb & Hins & Hord & HW).
  destruct (delete_spec h tr l1 e l2 rest Hrb) as (h' & tr' & c & Hd & Hrb' & Hs & Hi).
  eexists h', tr', _. split; [exact Hd|]. split; [|done]. split; [exact Hrb'|]. split; [by rewrite Hi|].
  unfold ordered in *. rewrite StronglySorted_app, StronglySorted_cons in *.
  rewrite !Forall_app, Forall_cons in *. set_solver.
Qed.

Lemma pick_free (rest : list cell) p : p ∈ rest.*1 → ∃ n rest', rest ≡ₚ (p, n) :: rest'.
Proof.
  intros Hp. apply list_elem_of_fmap in Hp as ([q n] & -> & Hp).
  apply elem_of_Permutation in Hp as [rest' Hp]. eauto.
Qed.

Lemma run_spec ops : ∀ h tr l rest (present free : gset ptr),
  rb_inv h tr l rest → (∀ p, p ∈ present ↔ p ∈ eid <$> l) → (∀ p, p ∈ free ↔ p ∈ rest.*1) →
  ops_ok W present free ops →
  ∃ h' tr' l' rest', rb_run_ops h tr ops = Ok (h', tr') ∧ rb_inv h' tr' l' rest' ∧
    pair_of <$> l' = abs_run less (pair_of <$> l) ops ∧ sentinel tr' = sentinel tr.
Proof.
  induction ops as [|[p k|p] ops IH]; intros h tr l rest present free Hinv Hpres Hfree Hok;
    cbn [ops_ok rb_run_ops abs_run] in *.
  - by exists h, tr, l, rest.
  - destruct Hok as (Hp & Hk & Hok). apply Hfree in Hp.
    destruct (pick_free rest p Hp) as (n & rest' & Hperm).
    destruct Hinv as (Hrb & Hinv). pose proof (rb_is_perm _ _ _ _ _ Hrb Hperm) as Hrb'.
    destruct (inv_insert h tr l p n rest' k (conj Hrb' Hinv) Hk) as (h1 & h2 & tr2 & -> & Hi & Hinv2 & Hs2).
    rewrite ok_bind, Hi, ok_bind.
    pose proof (rb_is_nodup _ _ _ _ Hrb') as Hnd. rewrite fmap_cons, NoDup_app, NoDup_cons in Hnd.
    destruct (IH h2 tr2 _ rest' ({[p]} ∪ present) (free ∖ {[p]}) Hinv2) as (h' & tr' & l' & r' & Hr & Hi' & Hl & Hs).
    + intros q. rewrite place_perm. simpl. set_solver.
    + intros q. rewrite elem_of_difference, Hfree, Hperm. simpl. set_solver.
    + done.
    + exists h', tr', l', r'. rewrite Hl, place_pairs, Hs. done.
  - destruct Hok as (Hp & Hok). apply Hpres, list_elem_of_fmap in Hp as (e & -> & He).
    apply list_elem_of_split in He as (l1 & l2 & ->).
    destruct (inv_delete h tr l1 e l2 rest Hinv) as (h2 & tr2 & n & -> & Hinv2 & Hs2). rewrite ok_bind.
    destruct Hinv as (Hrb & _). pose proof (rb_is_nodup _ _ _ _ Hrb) as Hnd.
    apply NoDup_app in Hnd as (Hnd & _ & _).
    destruct (IH h2 tr2 _ _ (present ∖ {[eid e]}) ({[eid e]} ∪ free) Hinv2) as (h' & tr' & l' & r' & Hr & Hi' & Hl & Hs).
    + intros q. rewrite fmap_app, fmap_cons, NoDup_app, NoDup_cons in Hnd.
      rewrite elem_of_difference, Hpres, !fmap_app, fmap_cons. set_solver.
    + intros q. simpl. set_solver.
    + done.
    + exists h', tr', l', r'. rewrite Hl, remove_pairs, Hs by done. done.
Qed.
End run.

(** ** Timer keys

    In a window of half the key space the signed difference orders keys by their distance
    from the start of the window, across the wrap-around of the clock. *)
Definition timer_rank (base k : Z) : Z := u64 (k - base).
Definition timer_window (base k : Z) : Prop := u64 (k - base) < 2 ^ 63.

Lemma timer_less_rank base k k' : timer_window base k → timer_window base k' →
  timer_less k k' = (timer_rank base k <? timer_rank base k').
Proof.
  unfold timer_window, timer_rank, timer_less, s64, u64. intros H H'.
  set (a := (k - base) mod 2 ^ 64) in *. set (b := (k' - base) mod 2 ^ 64) in *.
  assert (0 ≤ a < 2 ^ 64 ∧ 0 ≤ b < 2 ^ 64) as [Ha Hb] by (split; apply Z.mod_pos_bound; lia).
  assert ((k - k') mod 2 ^ 64 = (a - b) mod 2 ^ 64) as ->.
  { unfold a, b. rewrite <- Zminus_mod. f_equal. lia. }
  destruct (Z.ltb_spec a b).
  - replace ((a - b) mod 2 ^ 64) with (a - b + 2 ^ 64) by (apply Z.mod_unique with (-1); lia).
    rewrite bool_decide_eq_false_2 by lia. apply Z.ltb_lt. lia.
  - rewrite Z.mod_small by lia. rewrite bool_decide_eq_true_2 by lia. apply Z.ltb_ge. lia.
Qed.

Lemma heap_of_fresh l : NoDup (100%nat :: l.*1) → Forall (λ x, x.1 ≠ NULL) l →
  own (heap_of (sentinel_cell :: free_cells l)) (sentinel_cell :: free_cells l).
Proof.
  intros Hnd Hn. assert ((free_cells l).*1 = l.*1) as Hf.
  { unfold free_cells. rewrite <- list_fmap_compose. apply list_fmap_ext. by intros ? [] ?. }
  apply heap_of_own; [by rewrite fmap_cons, Hf|]. apply Forall_cons. split; [done|].
  unfold free_cells. rewrite Forall_fmap. eapply Forall_impl; [exact Hn|]. by intros [].
Qed.

(** ** Properties of ngx_rbtree.c *)

(** Refinement for plain keys: on a tree initialised by [ngx_rbtree_init] with
    [ngx_rbtree_insert_value], every sequence of insertions of free nodes (with any
    unsigned key) and deletions of present ones runs without undefined behaviour and
    without running out of fuel; the tree then is a red-black tree whose elements, in
    order, are what the same sequence does to a sorted association list. *)
Theorem rbtree_refines_sorted_list h s sn cs ops :
  own h ((s, sn) :: cs) → ops_ok (λ _, True) ∅ (list_to_set cs.*1) ops →
  ∃ h0 tr0 h' tr' l rest, ngx_rbtree_init h s ngx_rbtree_insert_value = Ok (h0, tr0) ∧
    rb_run_ops h0 tr0 ops = Ok (h', tr') ∧ rb_is h' tr' l rest ∧
    ordered id l ∧ pair_of <$> l = abs_run key_less [] ops.
Proof.
  intros Ho Hok. destruct (init_spec h s sn cs ngx_rbtree_insert_value Ho)
    as (h0 & tr0 & Hi & Hrb & Hs & Hins).
  destruct (run_spec key_less id (λ _, True) (λ _ _ _ _, eq_refl) ops h0 tr0 [] cs ∅ (list_to_set cs.*1))
    as (h' & tr' & l & rest & Hr & (Hrb' & _ & Hord & _) & Hl & _); [|set_solver..|done|].
  { split; [done|]. split; [done|]. split; [constructor|done]. }
  by exists h0, tr0, h', tr', l, rest.
Qed.

Lemma rbtree_refines_sorted_list_witness :
  let ops := [OpInsert 1 5; OpInsert 2 3; OpInsert 3 9; OpInsert 4 3; OpDelete 1; OpInsert 1 4] in
  ∃ h0 tr0 h' tr' l rest,
    ngx_rbtree_init (heap_of (sentinel_cell :: free_cells [(1%nat, 0); (2%nat, 0); (3%nat, 0); (4%nat, 0)]))
      100 ngx_rbtree_insert_value = Ok (h0, tr0) ∧
    rb_run_ops h0 tr0 ops = Ok (h', tr') ∧ rb_is h' tr' l rest ∧
    ordered id l ∧ pair_of <$> l = [(2%nat, 3); (4%nat, 3); (1%nat, 4); (3%nat, 9)].
Proof.
  intros ops. apply (rbtree_refines_sorted_list _ 100 (mk_rbnode 0 NULL NULL NULL 9 0)
    (free_cells [(1%nat, 0); (2%nat, 0); (3%nat, 0); (4%nat, 0)]) ops).
  - by apply heap_of_fresh; [vm_compute; repeat constructor; set_solver|repeat constructor].
  - simpl. set_solver.
Defined.

(** C5. Refinement for timer keys: with [ngx_rbtree_insert_timer_value] the same holds in
    the order of the distance from a base time, as long as all keys lie within 2^63
    milliseconds after the base, even where the 64-bit clock wraps around. *)
Theorem timer_tree_refines_sorted_list h s sn cs base ops :
  own h ((s, sn) :: cs) → ops_ok (timer_window base) ∅ (list_to_set cs.*1) ops →
  ∃ h0 tr0 h' tr' l rest, ngx_rbtree_init h s ngx_rbtree_insert_timer_value = Ok (h0, tr0) ∧
    rb_run_ops h0 tr0 ops = Ok (h', tr') ∧ rb_is h' tr' l rest ∧
    ordered (timer_rank base) l ∧ pair_of <$> l = abs_run timer_less [] ops.
Proof.
  intros Ho Hok. destruct (init_spec h s sn cs ngx_rbtree_insert_timer_value Ho)
    as (h0 & tr0 & Hi & Hrb & Hs & Hins).
  destruct (run_spec timer_less (timer_rank base) (timer_window base) (timer_less_rank base)
    ops h0 tr0 [] cs ∅ (list_to_set cs.*1))
    as (h' & tr' & l & rest & Hr & (Hrb' & _ & Hord & _) & Hl & _); [|set_solver..|done|].
  { split; [done|]. split; [done|]. split; [constructor|constructor]. }
  by exists h0, tr0, h', tr', l, rest.
Qed.

Lemma timer_tree_refines_sorted_list_witness :
  let ops := [OpInsert 1 (2 ^ 64 - 2); OpInsert 2 3; OpInsert 3 (2 ^ 64 - 5)] in
  ∃ h0 tr0 h' tr' l rest,
    ngx_rbtree_init (heap_of (sentinel_cell :: free_cells [(1%nat, 0); (2%nat, 0); (3%nat, 0)]))
      100 ngx_rbtree_insert_timer_value = Ok (h0, tr0) ∧
    rb_run_ops h0 tr0 ops = Ok (h', tr') ∧ rb_is h' tr' l rest ∧
    ordered (timer_rank (2 ^ 64 - 10)) l ∧
    pair_of <$> l = [(3%nat, 2 ^ 64 - 5); (1%nat, 2 ^ 64 - 2); (2%nat, 3)].
Proof.
  intros ops. apply (timer_tree_refines_sorted_list _ 100 (mk_rbnode 0 NULL NULL NULL 9 0)
    (free_cells [(1%nat, 0); (2%nat, 0); (3%nat, 0)]) (2 ^ 64 - 10) ops).
  - by apply heap_of_fresh; [vm_compute; repeat constructor; set_solver|repeat constructor].
  - simpl. unfold timer_window. split_and!; try set_solver; by vm_compute.
Defined.

(** Visiting nodes from [node] on with [ngx_rbtree_next] until it returns [NULL]. *)
Fixpoint visit (n : nat) (h : heap) (tr : ngx_rbtree_t) (node : ptr) : result (list ptr) :=
  match n with
  | O => OutOfFuel
  | S n =>
      if Nat.eqb node NULL then Ok [] else
      next ← ngx_rbtree_next h tr node;
      ps ← visit n h tr next; Ok (node :: ps)
  end.

Lemma rb_is_not_null h tr l1 e l2 rest : rb_is h tr (l1 ++ e :: l2) rest → eid e ≠ NULL.
Proof.
  intros (t & sn & pp & n & _ & [[_ Hall] _] & _ & Hl).
  apply Forall_cons in Hall as [_ Hall]. apply Forall_app in Hall as [Hall _].
  assert (eid e ∈ (cells (sentinel tr) t pp).*1) as Hin.
  { rewrite cells_ids, Hl. apply list_elem_of_fmap. exists e. split; [done|]. set_solver. }
  apply list_elem_of_fmap in Hin as (c & -> & Hc). rewrite Forall_forall in Hall.
  by destruct (Hall _ Hc).
Qed.

Lemma visit_spec h tr rest l2 : ∀ l1, rb_is h tr (l1 ++ l2) rest →
  visit (S (length l2)) h tr (head_ptr l2) = Ok (eid <$> l2).
Proof.
  induction l2 as [|e l2 IH]; intros l1 Hrb; [done|].
  cbn [length visit head_ptr]. pose proof (rb_is_not_null _ _ _ _ _ _ Hrb) as Hn.
  destruct (Nat.eqb_spec (eid e) NULL) as [|_]; [done|].
  rewrite (next_spec _ _ _ _ _ _ Hrb), ok_bind.
  rewrite cons_middle, app_assoc in Hrb. cbn [visit] in IH. by rewrite (IH _ Hrb).
Qed.

(** In-order traversal: starting at [ngx_rbtree_min] and following [ngx_rbtree_next]
    visits the nodes of a non-empty tree exactly in the order of its elements and ends
    with [NULL]. *)
Theorem min_next_enumerate h tr e l rest : rb_is h tr (e :: l) rest →
  (p ← ngx_rbtree_min h (root tr) (sentinel tr); visit (S (S (length l))) h tr p) =
    Ok (eid <$> e :: l).
Proof.
  intros Hrb. rewrite (min_is _ _ _ _ _ Hrb), ok_bind. by apply (visit_spec h tr rest (e :: l) []).
Qed.

(** A tree of two nodes for the witnesses. *)
Definition two_cells : list cell :=
  [(100%nat, mk_rbnode 0 NULL NULL NULL 0 0); (1%nat, mk_rbnode 5 2%nat 100%nat NULL 0 0);
   (2%nat, mk_rbnode 3 100%nat 100%nat 1%nat 1 0)].
Definition two_tree : ngx_rbtree_t := mk_rbtree 1 100 ngx_rbtree_insert_timer_value.

Lemma two_tree_is : rb_is (heap_of two_cells) two_tree [mk_elt 2 3 0; mk_elt 1 5 0] [].
Proof.
  exists (Node 0 (Node 1 Leaf (mk_elt 2 3 0) Leaf) (mk_elt 1 5 0) Leaf),
    (mk_rbnode 0 NULL NULL NULL 0 0), NULL, 1%nat.
  split; [done|]. split; [|split; [eauto using is_rb|done]]. split; [|done].
  apply heap_of_own; [|repeat constructor; done]. vm_compute. repeat constructor; set_solver.
Qed.

Lemma min_next_enumerate_witness :
  (p ← ngx_rbtree_min (heap_of two_cells) (root two_tree) (sentinel two_tree);
   visit 3 (heap_of two_cells) two_tree p) = Ok [2%nat; 1%nat].
Proof. apply (min_next_enumerate _ _ _ _ _ two_tree_is). Defined.

(** Logarithmic descent: on a tree of [n] elements the loop of [ngx_rbtree_min] needs at
    most [2 * log2 (n + 1)] iterations. *)
Theorem min_descent_logarithmic h tr e l rest : rb_is h tr (e :: l) rest →
  ngx_rbtree_min_loop (2 * Nat.log2 (S (S (length l)))) h (root tr) (sentinel tr) = Ok (eid e).
Proof.
  intros (t & sn & pp & n & _ & Hf & Ht & Hl). assert (t ≠ Leaf) as Hne by (by intros ->).
  pose proof (rb_height_log _ _ Ht) as Hh. rewrite Hl in Hh.
  replace (root tr) with (tptr (sentinel tr) t) by (symmetry; apply Hf).
  destruct (min_loop_spec _ _ _ _ _ t _ _ Hf Hne Hh) as (os & c & y & u & -> & E).
  destruct (elems_splug os) as (l' & Hl'). rewrite Hl' in Hl. injection Hl as -> _. exact E.
Qed.

Lemma min_descent_logarithmic_witness :
  ngx_rbtree_min_loop (2 * Nat.log2 3) (heap_of two_cells) 1 100 = Ok 2%nat.
Proof. apply (min_descent_logarithmic _ _ _ _ _ two_tree_is). Defined.
