(* ===== verification/EventTimer.v ===== *)
(** * EventTimer: ngx_event_timer.c, ngx_event_timer.h and ngx_times.c of src/heartbeat

    The timers are the nodes of one red-black tree, embedded in the events.  An event and
    its [timer] member have the same address here, which is what
    [(char * ) node - offsetof(ngx_event_t, timer)] undoes.  [world] is the state all of
    src/heartbeat shares: the nodes, the tree, the clock, the events and the list of
    system calls made. *)

From stdpp Require Import sorting.
From S2P Require Import Prelude RbHeap RbTree RbInsert RbDelete RbQuery.
#[local] Open Scope Z_scope.

(** ** Constants of ngx_core.h and ngx_event_timer.h *)
Definition NGX_EVENT_READING : Z := 0x01.
Definition NGX_EVENT_WRITING : Z := 0x02.
Definition NGX_EVENT_TIMEOUT : Z := 0x40.
Definition NGX_OK : Z := 0.
Definition NGX_AGAIN : Z := -2.
Definition NGX_TIMER_INFINITE : Z := u64 (-1).
Definition NGX_TIMER_LAZY_DELAY : Z := 300.

(** ** Events *)
Record ngx_event_t := mk_event {
  fd : Z;
  arg : ptr;
  what : Z;
  status : Z;
  buffer : list Z;
  length_ : Z;
  last_active : Z;
  timer_set : Z;
  timedout : Z;
  handler : nat
}.

Definition set_timer_set v e := mk_event (fd e) (arg e) (what e) (status e) (buffer e) (length_ e)
  (last_active e) v (timedout e) (handler e).
Definition set_timedout v e := mk_event (fd e) (arg e) (what e) (status e) (buffer e) (length_ e)
  (last_active e) (timer_set e) v (handler e).
Definition set_status v e := mk_event (fd e) (arg e) (what e) v (buffer e) (length_ e)
  (last_active e) (timer_set e) (timedout e) (handler e).
Definition set_data b n e := mk_event (fd e) (arg e) (what e) (status e) b n
  (last_active e) (timer_set e) (timedout e) (handler e).
Definition set_last_active v e := mk_event (fd e) (arg e) (what e) (status e) (buffer e) (length_ e)
  v (timer_set e) (timedout e) (handler e).
Definition set_what v e := mk_event (fd e) (arg e) v (status e) (buffer e) (length_ e)
  (last_active e) (timer_set e) (timedout e) (handler e).

(** System calls, in the order they are made, and calls of event handlers. *)
Inductive sys :=
  | SysRecv (fd : Z)
  | SysSend (fd : Z) (bytes : list Z)
  | SysClose (fd : Z)
  | SysEpollAdd (fd : Z) (events : Z)
  | SysEpollMod (fd : Z) (events : Z)
  | SysEpollDel (fd : Z)
  | SysAccept (fd : Z)
  | SysFcntl (fd : Z)
  | SysEpollWait (timeout : Z)
  | SysHandler (handler : nat) (ev : ptr).

Record world := mk_world {
  nodes : heap;
  ngx_event_timer_rbtree : ngx_rbtree_t;
  ngx_current_msec : Z;
  events : gmap nat ngx_event_t;
  log : list sys
}.

(** The address of the static sentinel. *)
Definition ngx_event_timer_sentinel : ptr := 1%nat.

Definition ev_get (w : world) (ev : ptr) : result ngx_event_t := of_opt (events w !! ev).
Definition ev_set (w : world) (ev : ptr) (e : ngx_event_t) : world :=
  mk_world (nodes w) (ngx_event_timer_rbtree w) (ngx_current_msec w) (<[ev := e]> (events w)) (log w).
Definition with_tree (w : world) (h : heap) (tr : ngx_rbtree_t) : world :=
  mk_world h tr (ngx_current_msec w) (events w) (log w).
Definition with_log (w : world) (s : sys) : world :=
  mk_world (nodes w) (ngx_event_timer_rbtree w) (ngx_current_msec w) (events w) (log w ++ [s]).

(** ** ngx_times.c: [tv_sec] and [tv_usec] are what [gettimeofday] returned. *)
Definition ngx_time_update (w : world) (tv_sec tv_usec : Z) : world :=
  let sec := u64 tv_sec in
  let msec := u64 (Z.quot tv_usec 1000) in
  mk_world (nodes w) (ngx_event_timer_rbtree w) (u64 (sec * 1000 + msec)) (events w) (log w).

(** ** ngx_event_timer.c *)
Definition ngx_event_timer_init (w : world) : result (world * Z) :=
  '(h, tr) ← ngx_rbtree_init (nodes w) ngx_event_timer_sentinel ngx_rbtree_insert_timer_value;
  Ok (with_tree w h tr, NGX_OK).

Definition ngx_event_find_timer (w : world) : result Z :=
  let tr := ngx_event_timer_rbtree w in
  if Nat.eqb (root tr) ngx_event_timer_sentinel then Ok NGX_TIMER_INFINITE else
  node ← ngx_rbtree_min (nodes w) (root tr) (sentinel tr);
  k ← ld key (nodes w) node;
  let timer := s64 (k - ngx_current_msec w) in
  Ok (u64 (if 0 <? timer then timer else 0)).

(** Unlinking the timer of [ev], common to expiry and [ngx_event_del_timer]. *)
Definition unlink_timer (w : world) (ev : ptr) : result world :=
  '(h, tr) ← ngx_rbtree_delete (nodes w) (ngx_event_timer_rbtree w) ev;
  h ← st (set_left NULL) h ev;
  h ← st (set_right NULL) h ev;
  h ← st (set_parent NULL) h ev;
  let w := with_tree w h tr in
  e ← ev_get w ev;
  Ok (ev_set w ev (set_timer_set 0 e)).

(** [ev->handler(ev)]; [call h w ev] runs the function the pointer [h] stands for. *)
Definition run_handler (call : nat → world → ptr → result world) (w : world) (ev : ptr)
  : result world :=
  e ← ev_get w ev;
  call (handler e) (with_log w (SysHandler (handler e) ev)) ev.

Fixpoint ngx_event_expire_timers (fuel : nat) (call : nat → world → ptr → result world) (w : world)
  : result world :=
  match fuel with
  | O => OutOfFuel
  | S fuel =>
      let tr := ngx_event_timer_rbtree w in
      if Nat.eqb (root tr) (sentinel tr) then Ok w else
      node ← ngx_rbtree_min (nodes w) (root tr) (sentinel tr);
      k ← ld key (nodes w) node;
      if 0 <? s64 (k - ngx_current_msec w) then Ok w else
      let ev := node in
      w ← unlink_timer w ev;
      e ← ev_get w ev;
      n ← ck_int (timedout e + 1);
      let w := ev_set w ev (set_timedout n e) in
      e ← ev_get w ev;
      let w := ev_set w ev (set_what (Z.lor (what e) NGX_EVENT_TIMEOUT) e) in
      w ← run_handler call w ev;
      ngx_event_expire_timers fuel call w
  end.

(** The body of the [for] returns in its first iteration. *)
Definition ngx_event_no_timers_left (w : world) : result Z :=
  let tr := ngx_event_timer_rbtree w in
  if Nat.eqb (root tr) (sentinel tr) then Ok NGX_OK else
  node ← ngx_rbtree_min (nodes w) (root tr) (sentinel tr);
  Ok (if Nat.eqb node NULL then NGX_OK else NGX_AGAIN).

(** ** ngx_event_timer.h *)
Definition ngx_event_del_timer (w : world) (ev : ptr) : result world := unlink_timer w ev.

(** [- value] overflows on the least [ngx_int_t]. *)
Definition ngx_abs (v : Z) : result Z :=
  if 0 <=? v then Ok v else if v =? - 2 ^ 63 then Ub else Ok (- v).

Definition ngx_event_add_timer (w : world) (ev : ptr) (timer : Z) : result world :=
  let k := u64 (ngx_current_msec w + timer) in
  e ← ev_get w ev;
  '(w, again) ←
    (if timer_set e =? 0 then Ok (w, true) else
       old ← ld key (nodes w) ev;
       let diff := s64 (k - old) in
       a ← ngx_abs diff;
       if a <? NGX_TIMER_LAZY_DELAY then Ok (w, false)
       else w ← ngx_event_del_timer w ev; Ok (w, true));
  if negb again then Ok w else
  h ← st (set_key k) (nodes w) ev;
  '(h, tr) ← ngx_rbtree_insert h (ngx_event_timer_rbtree w) ev;
  let w := with_tree w h tr in
  e ← ev_get w ev;
  Ok (ev_set w ev (set_timer_set 1 e)).

(** ** The invariant

    [timers_inv base w l free]: the tree holds the timers [l] in the order of their
    distance from [base], [free] are the nodes of the events without a timer, and
    [timer_set] says which is which. *)
Definition timer_elt (p : ptr) (k d : Z) : elt := mk_elt p k d.

Record timers_inv (base : Z) (w : world) (l : list elt) (free : list cell) : Prop := {
  ti_tree : rb_inv timer_less (timer_rank base) (timer_window base) (nodes w)
              (ngx_event_timer_rbtree w) l free;
  ti_sentinel : sentinel (ngx_event_timer_rbtree w) = ngx_event_timer_sentinel;
  ti_set : ∀ p e, events w !! p = Some e → (timer_set e ≠ 0 ↔ p ∈ eid <$> l);
  ti_event : ∀ p, p ∈ eid <$> l ∨ p ∈ free.*1 → is_Some (events w !! p)
}.

(** ** An iteration of the expiry loop in two halves *)
(** Up to the call of the handler: the event and the world, or nothing when no timer is due. *)
Definition next_due (w : world) : result (option (ptr * world)) :=
  let tr := ngx_event_timer_rbtree w in
  if Nat.eqb (root tr) (sentinel tr) then Ok None else
  node ← ngx_rbtree_min (nodes w) (root tr) (sentinel tr);
  k ← ld key (nodes w) node;
  if 0 <? s64 (k - ngx_current_msec w) then Ok None else
  w ← unlink_timer w node;
  e ← ev_get w node;
  n ← ck_int (timedout e + 1);
  let w := ev_set w node (set_timedout n e) in
  e ← ev_get w node;
  Ok (Some (node, ev_set w node (set_what (Z.lor (what e) NGX_EVENT_TIMEOUT) e))).

Lemma expire_unfold fuel call w : ngx_event_expire_timers (S fuel) call w =
  (o ← next_due w; match o with None => Ok w | Some (ev, w) => w ← run_handler call w ev; ngx_event_expire_timers fuel call w end).
Proof.
  cbn [ngx_event_expire_timers]. unfold next_due. destruct (Nat.eqb _ _); [done|].
  destruct (ngx_rbtree_min _ _ _) as [node| |]; [|done|done]. rewrite !ok_bind. destruct (ld _ _ _) as [k| |]; [|done|done]. rewrite !ok_bind.
  destruct (0 <? _); [done|]. destruct (unlink_timer w node) as [w1| |]; [|done|done]. rewrite !ok_bind. destruct (ev_get w1 node) as [e| |]; [|done|done]. rewrite !ok_bind.
  destruct (ck_int _) as [n| |]; [|done|done]. rewrite !ok_bind. by destruct (ev_get (ev_set w1 node _) node).
Qed.

(** The first [k] handlers of a round. *)
Fixpoint expire_n (k : nat) (call : nat → world → ptr → result world) (w : world) : result world :=
  match k with
  | O => Ok w
  | S k => o ← next_due w; match o with None => Ok w | Some (ev, w) => w ← run_handler call w ev; expire_n k call w end
  end.

Section timers.
Context (base : Z).
Implicit Types (w : world) (l : list elt) (free : list cell) (ev : ptr).

Lemma rb_is_key h tr l1 e l2 rest : rb_is h tr (l1 ++ e :: l2) rest →
  ld key h (eid e) = Ok (ekey e).
Proof.
  intros (t & sn & pp & n & _ & Hf & _ & Hl).
  destruct (unplug_elem t (Top pp) l1 e l2 Hl) as (k & c & a & b & Hplug & Htop & _).
  simpl in Hplug, Htop. rewrite <- Hplug, <- Htop, <- focus_top in Hf. destruct Hf as [Ho _].
  cbn [cells] in Ho. by erewrite (own_ld key h) by (first [exact Ho|typeclasses eauto]).
Qed.

(** Comparing a key with the clock, when both are in the window. *)
Lemma due_rank k now : timer_window base k → timer_window base now →
  (0 <? s64 (k - now)) = (timer_rank base now <? timer_rank base k).
Proof.
  intros Hk Hn. pose proof (timer_less_rank base now k Hn Hk) as H1.
  pose proof (timer_less_rank base k now Hk Hn) as H2. unfold timer_less in *.
  unfold timer_window, timer_rank, s64, u64 in *.
  set (a := (k - base) mod 2 ^ 64) in *. set (b := (now - base) mod 2 ^ 64) in *.
  assert (0 ≤ a < 2 ^ 64 ∧ 0 ≤ b < 2 ^ 64) as [Ha Hb] by (split; apply Z.mod_pos_bound; lia).
  assert ((k - now) mod 2 ^ 64 = (a - b) mod 2 ^ 64) as ->.
  { unfold a, b. rewrite <- Zminus_mod. f_equal. lia. }
  clear H1 H2. destruct (Z.ltb_spec b a).
  - rewrite Z.mod_small by lia. rewrite bool_decide_eq_true_2 by lia. apply Z.ltb_lt. lia.
  - destruct (decide (a = b)) as [->|].
    + rewrite Z.sub_diag. by rewrite Zmod_0_l.
    + replace ((a - b) mod 2 ^ 64) with (a - b + 2 ^ 64) by (apply Z.mod_unique with (-1); lia).
      rewrite bool_decide_eq_false_2 by lia. apply Z.ltb_ge. lia.
Qed.

Lemma inv_nodup w l free : timers_inv base w l free → NoDup ((eid <$> l) ++ free.*1).
Proof. intros [[Hrb _] _ _ _]. by eapply rb_is_nodup. Qed.

(** Updating an event without touching its [timer_set]. *)
Lemma inv_ev_set w l free ev e e' : timers_inv base w l free → events w !! ev = Some e →
  timer_set e' = timer_set e → timers_inv base (ev_set w ev e') l free.
Proof.
  intros [Ht Hs Hset Hev] He Heq. split; [done|done|..]; simpl.
  - intros p x. rewrite lookup_insert. case_decide as Hp; [|by apply Hset].
    intros [= <-]. subst p. rewrite Heq. by apply Hset.
  - intros p Hp. rewrite lookup_insert. case_decide; [done|by apply Hev].
Qed.

Lemma inv_with_log w l free s : timers_inv base w l free → timers_inv base (with_log w s) l free.
Proof. by intros []. Qed.

Lemma unlink_timer_spec w l1 e l2 free : timers_inv base w (l1 ++ e :: l2) free →
  ∃ w' n evt, unlink_timer w (eid e) = Ok w' ∧
    timers_inv base w' (l1 ++ l2) ((eid e, n) :: free) ∧
    ngx_current_msec w' = ngx_current_msec w ∧ log w' = log w ∧
    events w !! eid e = Some evt ∧ events w' = <[eid e := set_timer_set 0 evt]> (events w).
Proof.
  intros Hinv. pose proof (inv_nodup _ _ _ Hinv) as Hnd. destruct Hinv as [Ht Hs Hset Hev].
  destruct (Hev (eid e)) as [ev Hevt]; [left; set_solver|].
  destruct (inv_delete _ _ _ _ _ _ _ _ _ Ht) as (h1 & tr1 & n1 & Hd & Hrb1 & Hs1).
  destruct (rb_inv_st _ _ _ (set_left NULL) _ _ _ _ _ _ Hrb1) as (h2 & E2 & Hrb2).
  destruct (rb_inv_st _ _ _ (set_right NULL) _ _ _ _ _ _ Hrb2) as (h3 & E3 & Hrb3).
  destruct (rb_inv_st _ _ _ (set_parent NULL) _ _ _ _ _ _ Hrb3) as (h4 & E4 & Hrb4).
  eexists _, _, ev. split.
  { unfold unlink_timer. rewrite Hd, ok_bind, E2, ok_bind, E3, ok_bind, E4, ok_bind.
    unfold ev_get. cbn [events with_tree]. rewrite Hevt. done. }
  split; [|done]. rewrite fmap_app, fmap_cons, !NoDup_app, NoDup_cons in Hnd.
  split; simpl; [exact Hrb4|by rewrite Hs1|..].
  - intros p x. rewrite lookup_insert. case_decide as Hp.
    + intros [= <-]. subst p. simpl. rewrite fmap_app. set_solver.
    + intros Hx. rewrite (Hset p x Hx), !fmap_app, fmap_cons. set_solver.
  - intros p Hp. rewrite lookup_insert. case_decide; [done|]. apply Hev.
    rewrite fmap_app in Hp. rewrite fmap_app, fmap_cons. set_solver.
Qed.

(** Adding the timer of an event that has none. *)
Lemma add_free_spec w l free ev e timer : timers_inv base w l free → ev ∈ free.*1 →
  events w !! ev = Some e → timer_window base (u64 (ngx_current_msec w + timer)) →
  ∃ w' d free', ngx_event_add_timer w ev timer = Ok w' ∧
    timers_inv base w' (place timer_less (mk_elt ev (u64 (ngx_current_msec w + timer)) d) l) free' ∧
    ngx_current_msec w' = ngx_current_msec w ∧ log w' = log w ∧
    events w' = <[ev := set_timer_set 1 e]> (events w) ∧ (∃ n, free ≡ₚ (ev, n) :: free').
Proof.
  intros Hinv Hfree He Hwin. pose proof (inv_nodup _ _ _ Hinv) as Hnd.
  destruct Hinv as [Ht Hs Hset Hev]. destruct (pick_free _ _ Hfree) as (n & free' & Hperm).
  assert (timer_set e = 0) as Hts.
  { destruct (decide (timer_set e = 0)); [done|]. apply NoDup_app in Hnd as (_ & Hn & _).
    exfalso. apply (Hn ev); [by apply (Hset ev e He)|done]. }
  unfold ngx_event_add_timer, ev_get. rewrite He. cbn [of_opt]. rewrite ok_bind, Hts.
  cbn [Z.eqb]. rewrite ok_bind. cbn [negb].
  destruct Ht as (Hrb & Hins & Hord & HW). pose proof (rb_is_perm _ _ _ _ _ Hrb Hperm) as Hrb'.
  destruct (inv_insert timer_less (timer_rank base) (timer_window base) (timer_less_rank base)
    (nodes w) (ngx_event_timer_rbtree w) l ev n free' (u64 (ngx_current_msec w + timer)))
    as (h1 & h2 & tr2 & -> & Hi & Hinv2 & Hs2); [by split_and!|done|].
  rewrite ok_bind, Hi, ok_bind. cbn [events with_tree]. rewrite He. cbn [of_opt]. rewrite ok_bind.
  eexists _, (data n), free'. split; [done|]. split; [|by eauto 10].
  split; simpl; [exact Hinv2|by rewrite Hs2|..].
  - intros p x. rewrite lookup_insert, place_perm, fmap_cons. simpl. case_decide as Hp.
    + intros [= <-]. subst p. simpl. split; [by left|done].
    + intros Hx. rewrite (Hset p x Hx). set_solver.
  - intros p Hp. rewrite lookup_insert. case_decide; [done|]. apply Hev.
    rewrite place_perm, fmap_cons in Hp. rewrite Hperm. set_solver.
Qed.

(** Re-adding the timer of an event that has one: a change below the lazy delay is
    ignored, otherwise the timer moves. *)
Lemma add_lazy_spec w l1 x l2 free e timer : timers_inv base w (l1 ++ x :: l2) free →
  events w !! eid x = Some e →
  Z.abs (s64 (u64 (ngx_current_msec w + timer) - ekey x)) < NGX_TIMER_LAZY_DELAY →
  ngx_event_add_timer w (eid x) timer = Ok w.
Proof.
  intros Hinv He Hd. destruct Hinv as [[Hrb _] _ Hset _].
  assert (timer_set e ≠ 0) as Hts by (apply (Hset _ _ He); set_solver).
  unfold ngx_event_add_timer, ev_get. rewrite He. cbn [of_opt]. rewrite ok_bind.
  destruct (Z.eqb_spec (timer_set e) 0); [done|].
  rewrite (rb_is_key _ _ _ _ _ _ Hrb), ok_bind.
  set (d := s64 (u64 (ngx_current_msec w + timer) - ekey x)) in *.
  assert (ngx_abs d = Ok (Z.abs d)) as ->.
  { unfold ngx_abs, NGX_TIMER_LAZY_DELAY in *. destruct (Z.leb_spec 0 d); [by rewrite Z.abs_eq|].
    destruct (Z.eqb_spec d (- 2 ^ 63)); [lia|]. by rewrite Z.abs_neq by lia. }
  rewrite ok_bind. destruct (Z.ltb_spec (Z.abs d) NGX_TIMER_LAZY_DELAY); [done|lia].
Qed.

Lemma add_move_spec w l1 x l2 free e timer : timers_inv base w (l1 ++ x :: l2) free →
  events w !! eid x = Some e → timer_window base (u64 (ngx_current_msec w + timer)) →
  let k := u64 (ngx_current_msec w + timer) in
  NGX_TIMER_LAZY_DELAY ≤ Z.abs (s64 (k - ekey x)) → s64 (k - ekey x) ≠ - 2 ^ 63 →
  ∃ w' d free', ngx_event_add_timer w (eid x) timer = Ok w' ∧
    timers_inv base w' (place timer_less (mk_elt (eid x) k d) (l1 ++ l2)) free' ∧
    ngx_current_msec w' = ngx_current_msec w.
Proof.
  intros Hinv He Hwin k Hd Hmin. pose proof Hinv as [[Hrb _] _ Hset _].
  assert (timer_set e ≠ 0) as Hts by (apply (Hset _ _ He); set_solver).
  destruct (unlink_timer_spec _ _ _ _ _ Hinv) as (w1 & n & ev & Hu & Hinv1 & Hnow & _ & Hev & Hevs).
  assert (ev = e) as -> by congruence.
  assert (ngx_event_add_timer w (eid x) timer = ngx_event_add_timer w1 (eid x) timer) as ->.
  { unfold ngx_event_add_timer, ev_get. rewrite He, Hevs, lookup_insert_eq, Hnow. fold k.
    cbn [of_opt]. rewrite !ok_bind.
    destruct (Z.eqb_spec (timer_set e) 0); [done|].
    rewrite (rb_is_key _ _ _ _ _ _ Hrb), ok_bind.
    assert (ngx_abs (s64 (k - ekey x)) = Ok (Z.abs (s64 (k - ekey x)))) as ->.
    { unfold ngx_abs. destruct (Z.leb_spec 0 (s64 (k - ekey x))); [by rewrite Z.abs_eq|].
      destruct (Z.eqb_spec (s64 (k - ekey x)) (- 2 ^ 63)); [lia|]. by rewrite Z.abs_neq by lia. }
    rewrite ok_bind. destruct (Z.ltb_spec (Z.abs (s64 (k - ekey x))) NGX_TIMER_LAZY_DELAY); [lia|].
    unfold ngx_event_del_timer. rewrite Hu, !ok_bind. cbn [negb timer_set set_timer_set Z.eqb].
    done. }
  destruct (add_free_spec w1 _ _ (eid x) (set_timer_set 0 e) timer Hinv1) as (w2 & d & free' & -> & Hi & Hn & _);
    [by left|by rewrite Hevs, lookup_insert_eq|by rewrite Hnow|].
  rewrite Hnow in *. eauto 10.
Qed.

Lemma inv_root w l free : timers_inv base w l free →
  Nat.eqb (root (ngx_event_timer_rbtree w)) (sentinel (ngx_event_timer_rbtree w)) =
    match l with [] => true | _ => false end.
Proof. intros [[Hrb _] _ _ _]. by eapply rb_is_root. Qed.

(** The earliest timer, and whether it is due. *)
Definition due (now : Z) (e : elt) : bool := timer_rank base (ekey e) <=? timer_rank base now.

Lemma ordered_head l e : ordered (timer_rank base) (e :: l) → ∀ x, x ∈ l →
  timer_rank base (ekey e) ≤ timer_rank base (ekey x).
Proof.
  unfold ordered. rewrite StronglySorted_cons, Forall_forall. intros [H _] x Hx. by apply (H x).
Qed.

Lemma due_prefix now l : ordered (timer_rank base) l →
  ∃ a b, l = a ++ b ∧ Forall (λ e, due now e = true) a ∧ Forall (λ e, due now e = false) b ∧
    filter (λ e, due now e = true) l = a.
Proof.
  induction l as [|e l IH]; intros Hord; [by exists [], []|].
  destruct (due now e) eqn:He.
  - assert (ordered (timer_rank base) l) as Hl
      by (unfold ordered in *; rewrite StronglySorted_cons in Hord; by destruct Hord).
    destruct (IH Hl) as (a & b & -> & Ha & Hb & Hf). exists (e :: a), b.
    split_and!; [done|by constructor|done|]. by rewrite filter_cons_True, Hf.
  - exists [], (e :: l). split; [done|]. split; [constructor|].
    assert (Forall (λ x, due now x = false) (e :: l)) as Hall.
    { constructor; [done|]. apply Forall_forall. intros x Hx.
      pose proof (ordered_head _ _ Hord x Hx). unfold due in *. apply Z.leb_gt in He. apply Z.leb_gt. lia. }
    split; [done|]. clear -Hall. induction Hall as [|x l' Hx _ IH]; [done|].
    rewrite filter_cons_False; [done|by rewrite Hx].
Qed.

(** What expiry does to an event before its handler runs. *)
Definition fired (e : ngx_event_t) : ngx_event_t :=
  set_what (Z.lor (what e) NGX_EVENT_TIMEOUT) (set_timedout (timedout e + 1) (set_timer_set 0 e)).

(** One iteration of the expiry loop on a due timer, up to the handler call. *)
Lemma next_due_step w e l free : timers_inv base w (e :: l) free →
  timer_window base (ngx_current_msec w) → due (ngx_current_msec w) e = true →
  (∀ evt, events w !! eid e = Some evt → INT_MIN ≤ timedout evt < INT_MAX) →
  ∃ w' n evt, events w !! eid e = Some evt ∧ next_due w = Ok (Some (eid e, w')) ∧
    timers_inv base w' l ((eid e, n) :: free) ∧
    ngx_current_msec w' = ngx_current_msec w ∧ log w' = log w ∧
    events w' = <[eid e := fired evt]> (events w).
Proof.
  intros Hinv Hnow Hdue Hcount. pose proof (inv_root _ _ _ Hinv) as Hroot.
  pose proof Hinv as [(Hrb & _ & _ & HW) _ _ _]. rewrite Forall_cons in HW. destruct HW as [HWe _].
  destruct (unlink_timer_spec w [] e l free Hinv) as (w1 & n & evt & Hu & Hinv1 & Hn1 & Hl1 & Hevt & Hev1).
  unfold next_due. rewrite Hroot, (min_is _ _ _ _ _ Hrb), ok_bind.
  rewrite (rb_is_key _ _ [] _ _ _ Hrb), ok_bind, due_rank by done.
  unfold due in Hdue. apply Z.leb_le in Hdue.
  destruct (Z.ltb_spec (timer_rank base (ngx_current_msec w)) (timer_rank base (ekey e))); [lia|].
  rewrite Hu, ok_bind. unfold ev_get. rewrite Hev1, lookup_insert_eq. cbn [of_opt]. rewrite ok_bind.
  specialize (Hcount _ Hevt).
  rewrite ck_int_Ok by (simpl; unfold INT_MIN, INT_MAX in *; lia). rewrite ok_bind.
  cbn [events ev_set]. rewrite !lookup_insert_eq. cbn [of_opt]. rewrite ok_bind.
  exists (ev_set (ev_set w1 (eid e) (set_timedout (timedout evt + 1) (set_timer_set 0 evt)))
            (eid e) (fired evt)), n, evt.
  split; [done|]. split; [reflexivity|]. split; [|split; [done|split; [done|]]].
  - eapply inv_ev_set with (e := set_timedout (timedout evt + 1) (set_timer_set 0 evt)); [|simpl; by rewrite lookup_insert_eq|done].
    eapply inv_ev_set; [exact Hinv1|by rewrite Hev1, lookup_insert_eq|done].
  - simpl. rewrite Hev1, !insert_insert_eq. done.
Qed.

(** The whole iteration. *)
Lemma expire_step fuel call w e l free : timers_inv base w (e :: l) free →
  timer_window base (ngx_current_msec w) → due (ngx_current_msec w) e = true →
  (∀ evt, events w !! eid e = Some evt → INT_MIN ≤ timedout evt < INT_MAX) →
  ∃ w' n evt, events w !! eid e = Some evt ∧
    ngx_event_expire_timers (S fuel) call w =
      (w ← call (handler evt) (with_log w' (SysHandler (handler evt) (eid e))) (eid e);
       ngx_event_expire_timers fuel call w) ∧
    timers_inv base w' l ((eid e, n) :: free) ∧
    ngx_current_msec w' = ngx_current_msec w ∧ log w' = log w ∧
    events w' = <[eid e := fired evt]> (events w).
Proof.
  intros Hinv Hwin Hdue Hcount. destruct (next_due_step w e l free Hinv Hwin Hdue Hcount) as (w' & n & evt & He & E & Hi & Hn & Hl & Hev).
  exists w', n, evt. split; [done|]. split; [|done]. rewrite expire_unfold, E, ok_bind. unfold run_handler, ev_get. by rewrite Hev, lookup_insert_eq.
Qed.

Lemma expire_stop fuel call w l free : timers_inv base w l free →
  timer_window base (ngx_current_msec w) →
  match l with [] => True | e :: _ => due (ngx_current_msec w) e = false end →
  ngx_event_expire_timers (S fuel) call w = Ok w.
Proof.
  intros Hinv Hnow Hdue. cbn [ngx_event_expire_timers]. rewrite (inv_root _ _ _ Hinv).
  destruct l as [|e l]; [done|]. destruct Hinv as [(Hrb & _ & _ & HW) _ _ _].
  rewrite Forall_cons in HW. destruct HW as [HWe _].
  rewrite (min_is _ _ _ _ _ Hrb), ok_bind, (rb_is_key _ _ [] _ _ _ Hrb), ok_bind.
  rewrite due_rank by done. unfold due in Hdue. apply Z.leb_gt in Hdue.
  destruct (Z.ltb_spec (timer_rank base (ngx_current_msec w)) (timer_rank base (ekey e))); [done|lia].
Qed.
(** ** Handlers

    What a handler may do while timers expire: leave the clock and the other events
    alone, keep the tree well formed, and arm only timers that are not due yet.  [P] is
    what the handlers need to know of the events. *)
Definition handlers_run : list sys → list ptr :=
  omap (λ s, match s with SysHandler _ ev => Some ev | _ => None end).

Class EventHandlers (now : Z) (P : gmap nat ngx_event_t → Prop)
    (call : nat → world → ptr → result world) : Prop := {
  handler_fired evs ev e : P evs → evs !! ev = Some e → timer_set e ≠ 0 →
    P (<[ev := fired e]> evs);
  handler_ok w ev e l free : timers_inv base w l free → ngx_current_msec w = now →
    P (events w) → ev ∈ free.*1 → events w !! ev = Some e →
    Z.testbit (what e) 6 = true →
    ∃ w' l' free', call (handler e) w ev = Ok w' ∧ timers_inv base w' l' free' ∧
      ngx_current_msec w' = now ∧ P (events w') ∧
      filter (λ e, due now e = true) l' = filter (λ e, due now e = true) l ∧
      handlers_run (log w') = handlers_run (log w) ∧
      ∀ p, p ≠ ev → events w' !! p = events w !! p
}.

(** [counts_ok w l]: no [timedout] counter of a due event is about to overflow. *)
Definition counts_ok (w : world) (l : list elt) : Prop :=
  ∀ p evt, p ∈ eid <$> l → events w !! p = Some evt → INT_MIN ≤ timedout evt < INT_MAX.

Lemma due_cons_inv now l e ds : ordered (timer_rank base) l →
  filter (λ e, due now e = true) l = e :: ds →
  ∃ l', l = e :: l' ∧ due now e = true ∧ filter (λ e, due now e = true) l' = ds.
Proof.
  intros Hord Hf. destruct (due_prefix now l Hord) as (a & b & -> & Ha & Hb & Hfa).
  rewrite Hf in Hfa. subst a. exists (ds ++ b). apply Forall_cons in Ha as [He Ha].
  split; [done|]. split; [done|]. revert Hf. rewrite <- app_comm_cons, filter_cons_True by done.
  by intros [= ->].
Qed.

Lemma due_nil now l : filter (λ e, due now e = true) l = [] → Forall (λ e, due now e = false) l.
Proof.
  intros Hf. apply Forall_forall. intros x Hx. destruct (due now x) eqn:E; [|done].
  assert (x ∈ filter (λ e, due now e = true) l) as H by (by apply list_elem_of_filter).
  rewrite Hf in H. set_solver.
Qed.

(** The same contract for handlers whose behaviour can be undefined, when [bad] holds of the
    world and the event they are called with. *)
Class HandlersOr (now : Z) (P : gmap nat ngx_event_t → Prop) (bad : world → ptr → Prop)
    (call : nat → world → ptr → result world) : Prop := {
  or_fired evs ev e : P evs → evs !! ev = Some e → timer_set e ≠ 0 →
    P (<[ev := fired e]> evs);
  or_ok w ev e l free : timers_inv base w l free → ngx_current_msec w = now →
    P (events w) → ev ∈ free.*1 → events w !! ev = Some e →
    Z.testbit (what e) 6 = true →
    call (handler e) w ev = Ub ∧ bad w ev ∨
    ∃ w' l' free', call (handler e) w ev = Ok w' ∧ timers_inv base w' l' free' ∧
      ngx_current_msec w' = now ∧ P (events w') ∧
      filter (λ e, due now e = true) l' = filter (λ e, due now e = true) l ∧
      handlers_run (log w') = handlers_run (log w) ∧
      ∀ p, p ≠ ev → events w' !! p = events w !! p
}.

#[export] Instance handlers_never_bad now P call : EventHandlers now P call → HandlersOr now P (λ _ _, False) call.
Proof. intros [Hf Hok]. split; [exact Hf|]. intros w ev e l free ? ? ? ? ? ?. right. by apply (Hok w ev e l free). Qed.

(** A round has run [k] handlers and calls the next one where [bad] holds. *)
Definition goes_bad (bad : world → ptr → Prop) call (k : nat) (w : world) : Prop :=
  ∃ w1 ev w2 e, expire_n k call w = Ok w1 ∧ next_due w1 = Ok (Some (ev, w2)) ∧ events w2 !! ev = Some e ∧
    bad (with_log w2 (SysHandler (handler e) ev)) ev.

Lemma counts_rest w w1 w2 e evt l ds : NoDup (eid <$> e :: l) → filter (λ e, due (ngx_current_msec w) e = true) l = ds →
  counts_ok w (e :: ds) → events w1 = <[eid e := fired evt]> (events w) → (∀ p, p ≠ eid e → events w2 !! p = events w1 !! p) → counts_ok w2 ds.
Proof.
  intros Hnd Hds Hcnt Hevs1 Hev2 p evt' Hp Hp'. assert (p ≠ eid e) as Hne.
  { intros ->. apply list_elem_of_fmap in Hp as (x & Hx & Hx'). rewrite <- Hds in Hx'.
    apply list_elem_of_filter in Hx' as [_ Hx']. rewrite fmap_cons, NoDup_cons in Hnd. destruct Hnd as [Hnd _]. apply Hnd, list_elem_of_fmap.
    by exists x. }
  rewrite Hev2 in Hp' by done. rewrite Hevs1, lookup_insert_ne in Hp' by done.
  apply (Hcnt p); [by right|done].
Qed.

Lemma expire_or_bad now P bad call `{!HandlersOr now P bad call} ds : ∀ w l free,
  timers_inv base w l free → ngx_current_msec w = now → timer_window base now → P (events w) →
  filter (λ e, due now e = true) l = ds → counts_ok w ds →
  ngx_event_expire_timers (S (length ds)) call w = Ub ∧ (∃ k, (k < length ds)%nat ∧ goes_bad bad call k w) ∨
  ∃ w' l' free', ngx_event_expire_timers (S (length ds)) call w = Ok w' ∧
    timers_inv base w' l' free' ∧ ngx_current_msec w' = now ∧ P (events w') ∧
    Forall (λ e, due now e = false) l' ∧
    handlers_run (log w') = handlers_run (log w) ++ (eid <$> ds).
Proof.
  induction ds as [|e ds IH]; intros w l free Hinv Hnow Hwin HP Hdue Hcnt.
  - right. exists w, l, free. apply due_nil in Hdue. split.
    { eapply expire_stop; [done|by rewrite Hnow|]. destruct Hdue; [done|by rewrite Hnow]. }
    split_and!; try done. by rewrite app_nil_r.
  - destruct (due_cons_inv now l e ds) as (l1 & -> & He & Hds); [apply Hinv|done|].
    destruct (next_due_step w e l1 free) as
      (w1 & n & evt & Hevt & E & Hinv1 & Hnow1 & Hlog1 & Hevs1);
      [done|by rewrite Hnow|by rewrite Hnow|intros evt Hevt; apply (Hcnt (eid e)); [by left|done]|].
    pose proof (inv_nodup _ _ _ Hinv) as Hnd. apply NoDup_app in Hnd as [Hnd _].
    assert (events w1 !! eid e = Some (fired evt)) as He1 by (by rewrite Hevs1, lookup_insert_eq).
    assert (∀ fuel, ngx_event_expire_timers (S fuel) call w = (w ← call (handler evt) (with_log w1 (SysHandler (handler evt) (eid e))) (eid e); ngx_event_expire_timers fuel call w)) as Estep.
    { intros fuel. rewrite expire_unfold, E, ok_bind. unfold run_handler, ev_get. by rewrite He1. }
    destruct (or_ok (with_log w1 (SysHandler (handler evt) (eid e))) (eid e) (fired evt)
      l1 ((eid e, n) :: free)) as [[E2 Hbad]|(w2 & l2 & free2 & E2 & Hinv2 & Hnow2 & HP2 & Hd2 & Hrun2 & Hev2)].
    { by apply inv_with_log. }
    { simpl. congruence. }
    { simpl. rewrite Hevs1. eapply or_fired; [done|done|].
      apply (ti_set _ _ _ _ Hinv _ _ Hevt). by left. }
    { by left. }
    { done. }
    { cbn [fired set_what what]. rewrite Z.lor_spec. apply orb_true_r. }
    { left. change (handler (fired evt)) with (handler evt) in E2. cbn [length]. rewrite Estep, E2. split; [done|]. exists 0%nat. split; [lia|]. by exists w, (eid e), w1, (fired evt). }
    change (handler (fired evt)) with (handler evt) in E2.
    destruct (IH w2 l2 free2) as [[E' (k & Hk & Hbad)]|(w' & l' & free' & E' & Hinv' & Hnow' & HP' & Hno & Hrun')];
      [done|done|done|done|by rewrite Hd2|eapply (counts_rest w w1 w2 e evt l1); [done|by rewrite Hnow|done|done|done]|left|right].
    + cbn [length]. rewrite Estep, E2, ok_bind. split; [done|]. exists (S k). split; [lia|]. destruct Hbad as (v1 & ev & v2 & x & En & Hrest). exists v1, ev, v2, x. split; [|done].
      cbn [expire_n]. rewrite E, ok_bind. unfold run_handler, ev_get. rewrite He1. cbn [of_opt]. rewrite ok_bind. change (handler (fired evt)) with (handler evt). by rewrite E2.
    + exists w', l', free'. cbn [length]. rewrite Estep, E2, ok_bind. split; [exact E'|]. split_and!; try done.
      rewrite Hrun', Hrun2. simpl. unfold handlers_run at 1. rewrite omap_app. simpl.
      fold (handlers_run (log w1)). rewrite Hlog1, <- app_assoc. done.
Qed.

Lemma expire_spec now P call `{!EventHandlers now P call} ds : ∀ w l free,
  timers_inv base w l free → ngx_current_msec w = now → timer_window base now → P (events w) →
  filter (λ e, due now e = true) l = ds → counts_ok w ds →
  ∃ w' l' free', ngx_event_expire_timers (S (length ds)) call w = Ok w' ∧
    timers_inv base w' l' free' ∧ ngx_current_msec w' = now ∧ P (events w') ∧
    Forall (λ e, due now e = false) l' ∧
    handlers_run (log w') = handlers_run (log w) ++ (eid <$> ds).
Proof.
  intros w l free ? ? ? ? ? ?. destruct (expire_or_bad now P (λ _ _, False) call ds w l free) as [[_ (k & _ & ? & ? & ? & ? & _ & _ & _ & [])]|?]; done.
Qed.
End timers.
