(* ===== verification/TimerTheorems.v ===== *)
(** * TimerTheorems: what the timers of src/heartbeat guarantee

    [find_timer_earliest] and [add_timer_sets_deadline] say what the operations do to the
    set of deadlines, [expire_fires_due] what an expiry round fires and when it stops;
    [timer_before_init_lost] is the one order of calls for which they do not hold. *)

From stdpp Require Import sorting.
From S2P Require Import Prelude RbHeap RbTree RbInsert RbDelete RbQuery EventTimer.
#[local] Open Scope Z_scope.

(** ** Deadlines *)
Section deadlines.
Context (base : Z).
Implicit Types (w : world) (l : list elt) (free : list cell) (ev : ptr).

(** Milliseconds from [now] to the deadline [k]; 0 when it has passed. *)
Definition wait (now k : Z) : Z := Z.max 0 (timer_rank base k - timer_rank base now).

Lemma rank_range k : 0 ≤ timer_rank base k < 2 ^ 64.
Proof. unfold timer_rank, u64. apply Z.mod_pos_bound. lia. Qed.

(** The signed difference of two keys of the window is the difference of their ranks. *)
Lemma s64_rank k k' : timer_window base k → timer_window base k' →
  s64 (k - k') = timer_rank base k - timer_rank base k'.
Proof.
  unfold timer_window, timer_rank, s64, u64. intros H H'.
  set (a := (k - base) mod 2 ^ 64) in *. set (b := (k' - base) mod 2 ^ 64) in *.
  assert (0 ≤ a < 2 ^ 64 ∧ 0 ≤ b < 2 ^ 64) as [Ha Hb] by (split; apply Z.mod_pos_bound; lia).
  assert ((k - k') mod 2 ^ 64 = (a - b) mod 2 ^ 64) as ->.
  { unfold a, b. rewrite <- Zminus_mod. f_equal. lia. }
  destruct (decide (b ≤ a)).
  - rewrite Z.mod_small by lia. by rewrite bool_decide_eq_true_2 by lia.
  - replace ((a - b) mod 2 ^ 64) with (a - b + 2 ^ 64) by (apply Z.mod_unique with (-1); lia).
    rewrite bool_decide_eq_false_2 by lia. lia.
Qed.

Lemma wait_u64 now k : timer_window base k → timer_window base now →
  u64 (if 0 <? s64 (k - now) then s64 (k - now) else 0) = wait now k.
Proof.
  intros Hk Hn. rewrite s64_rank by done. unfold wait.
  pose proof (rank_range k). pose proof (rank_range now). unfold u64.
  destruct (Z.ltb_spec 0 (timer_rank base k - timer_rank base now));
    rewrite Z.mod_small by lia; lia.
Qed.

Lemma find_timer_head w e l free : timers_inv base w (e :: l) free →
  timer_window base (ngx_current_msec w) →
  ngx_event_find_timer w = Ok (wait (ngx_current_msec w) (ekey e)).
Proof.
  intros Hinv Hnow. pose proof (inv_root _ _ _ _ Hinv) as Hroot.
  destruct Hinv as [(Hrb & _ & _ & HW) Hs _ _]. rewrite Hs in Hroot.
  unfold ngx_event_find_timer. rewrite Hroot, (min_is _ _ _ _ _ Hrb), ok_bind.
  rewrite (rb_is_key _ _ [] _ _ _ Hrb), ok_bind. apply Forall_cons in HW as [HWe _].
  by rewrite wait_u64.
Qed.

(** A timer that is not due does not change which ones are. *)
Lemma place_not_due now e l : due base now e = false →
  filter (λ e, due base now e = true) (place timer_less e l) =
  filter (λ e, due base now e = true) l.
Proof.
  intros He. induction l as [|x l IH]; cbn [place].
  - by rewrite filter_cons_False by (by rewrite He).
  - destruct (timer_less (ekey e) (ekey x)).
    + by rewrite filter_cons_False by (by rewrite He).
    + rewrite !filter_cons, IH. done.
Qed.

(** The elements of [l] other than the one of [ev]. *)
Definition others (ev : ptr) (l : list elt) : list elt := filter (λ x, eid x ≠ ev) l.

Lemma others_notin ev l : ev ∉ eid <$> l → others ev l = l.
Proof.
  induction l as [|x l IH]; intros Hn; [done|]. unfold others in *. rewrite fmap_cons in Hn.
  rewrite filter_cons_True by set_solver. rewrite IH by set_solver. done.
Qed.

Lemma others_mid ev l1 x l2 : eid x = ev → NoDup (eid <$> l1 ++ x :: l2) →
  others ev (l1 ++ x :: l2) = l1 ++ l2.
Proof.
  intros <- Hnd. rewrite fmap_app, fmap_cons, NoDup_app, NoDup_cons in Hnd.
  unfold others. rewrite filter_app, filter_cons_False by naive_solver.
  fold (others (eid x) l1) (others (eid x) l2). rewrite !others_notin by set_solver. done.
Qed.

(** The deadline [ngx_event_add_timer] leaves: a change of less than
    [NGX_TIMER_LAZY_DELAY] ms to an armed timer is ignored. *)
Definition new_deadline (l : list elt) (ev : ptr) (k : Z) : Z :=
  match list_find (λ x, eid x = ev) l with
  | Some (_, x) =>
      if Z.abs (timer_rank base k - timer_rank base (ekey x)) <? NGX_TIMER_LAZY_DELAY
      then ekey x else k
  | None => k
  end.

Lemma new_deadline_mid l1 x l2 k : NoDup (eid <$> l1 ++ x :: l2) →
  new_deadline (l1 ++ x :: l2) (eid x) k =
    if Z.abs (timer_rank base k - timer_rank base (ekey x)) <? NGX_TIMER_LAZY_DELAY
    then ekey x else k.
Proof.
  intros Hnd. unfold new_deadline.
  assert (list_find (λ y, eid y = eid x) (l1 ++ x :: l2) = Some (length l1, x)) as ->; [|done].
  apply list_find_Some. rewrite list_lookup_middle by done. split; [done|]. split; [done|].
  intros j y Hj Hlt Hy. rewrite lookup_app_l in Hj by done.
  rewrite fmap_app, fmap_cons, NoDup_app, NoDup_cons in Hnd. destruct Hnd as (_ & Hd & _).
  apply (Hd (eid y)); [|rewrite Hy; by left].
  apply list_elem_of_fmap. exists y. split; [done|]. by eapply list_elem_of_lookup_2.
Qed.

Lemma add_timer_spec w l free ev timer : timers_inv base w l free →
  ev ∈ (eid <$> l) ++ free.*1 → timer_window base (u64 (ngx_current_msec w + timer)) →
  ∃ w' l' free' d, ngx_event_add_timer w ev timer = Ok w' ∧ timers_inv base w' l' free' ∧
    ngx_current_msec w' = ngx_current_msec w ∧
    l' ≡ₚ mk_elt ev (new_deadline l ev (u64 (ngx_current_msec w + timer))) d :: others ev l.
Proof.
  intros Hinv Hin Hwin. set (k := u64 (ngx_current_msec w + timer)) in *.
  pose proof (inv_nodup _ _ _ _ Hinv) as Hnd. pose proof Hnd as Hnd'.
  apply NoDup_app in Hnd' as (Hndl & Hdis & _).
  destruct (ti_event _ _ _ _ Hinv ev) as [e He]; [by apply elem_of_app|].
  destruct (decide (ev ∈ eid <$> l)) as [Hl|Hl].
  - apply list_elem_of_fmap in Hl as (x & -> & Hx). apply list_elem_of_split in Hx as (l1 & l2 & ->).
    rewrite new_deadline_mid, others_mid by done.
    assert (timer_window base (ekey x)) as Hx.
    { destruct Hinv as [(_ & _ & _ & HW) _ _ _]. rewrite Forall_app, Forall_cons in HW. naive_solver. }
    pose proof (s64_rank k (ekey x) Hwin Hx) as Hdiff.
    destruct (Z.ltb_spec (Z.abs (timer_rank base k - timer_rank base (ekey x))) NGX_TIMER_LAZY_DELAY) as [Hlt|Hge].
    + exists w, (l1 ++ x :: l2), free, (edata x). split; [|split; [done|split; [done|]]].
      * eapply add_lazy_spec; [exact Hinv|done|fold k; by rewrite Hdiff].
      * rewrite <- Permutation_middle. by destruct x.
    + destruct (add_move_spec _ _ _ _ _ _ _ timer Hinv He Hwin) as (w' & d & free' & E & Hi & Hn).
      * by fold k; rewrite Hdiff.
      * fold k. rewrite Hdiff. pose proof (rank_range k). pose proof (rank_range (ekey x)).
        unfold timer_window, timer_rank in *. lia.
      * exists w', (place timer_less (mk_elt (eid x) k d) (l1 ++ l2)), free', d.
        split; [done|]. split; [done|]. split; [done|]. apply place_perm.
  - assert (ev ∈ free.*1) as Hf by (apply elem_of_app in Hin; naive_solver).
    destruct (add_free_spec _ _ _ _ _ _ timer Hinv Hf He Hwin) as (w' & d & free' & E & Hi & Hn & _).
    exists w', (place timer_less (mk_elt ev k d) l), free', d.
    split; [done|]. split; [done|]. split; [done|].
    rewrite place_perm, others_notin by done. unfold new_deadline.
    assert (list_find (λ x, eid x = ev) l = None) as ->; [|done].
    apply list_find_None, Forall_forall. intros x Hx Hxe. apply Hl, list_elem_of_fmap. by exists x.
Qed.
End deadlines.

(** ** Properties *)

(** The timeout handed to the poll: [ngx_event_find_timer] returns
    [NGX_TIMER_INFINITE] when no timer is armed, and otherwise exactly the time to the
    earliest deadline: while less than that has passed no timer is due, and once it has
    passed one is. *)
Theorem find_timer_earliest base w l free : timers_inv base w l free →
  timer_window base (ngx_current_msec w) →
  ∃ t, ngx_event_find_timer w = Ok t ∧
    (l = [] → t = NGX_TIMER_INFINITE) ∧
    (l ≠ [] → ∀ now', timer_rank base (ngx_current_msec w) ≤ timer_rank base now' →
       (Exists (λ e, due base now' e = true) l ↔
        t ≤ timer_rank base now' - timer_rank base (ngx_current_msec w))).
Proof.
  intros Hinv Hnow. destruct l as [|e l].
  - exists NGX_TIMER_INFINITE. split; [|done]. pose proof (inv_root _ _ _ _ Hinv) as Hroot.
    rewrite (ti_sentinel _ _ _ _ Hinv) in Hroot. unfold ngx_event_find_timer. by rewrite Hroot.
  - exists (wait base (ngx_current_msec w) (ekey e)). split; [by eapply find_timer_head|].
    split; [done|]. intros _ now' Hle. unfold wait. rewrite Exists_exists. split.
    + intros (x & Hx & Hdue). unfold due in Hdue. apply Z.leb_le in Hdue.
      assert (timer_rank base (ekey e) ≤ timer_rank base (ekey x)); [|lia].
      apply elem_of_cons in Hx as [->|Hx]; [lia|]. eapply ordered_head; [apply Hinv|done].
    + intros Ht. exists e. split; [by left|]. unfold due. apply Z.leb_le. lia.
Qed.

(** Two armed timers and one event without, for the witnesses; the clock is at 1000. *)
Definition timer_cells : list cell :=
  [(1%nat, mk_rbnode 0 NULL NULL NULL 0 0); (11%nat, mk_rbnode 5000 12%nat 1%nat NULL 0 0);
   (12%nat, mk_rbnode 900 1%nat 1%nat 11%nat 1 0); (13%nat, fresh_node 0)].
Definition timer_tree : ngx_rbtree_t := mk_rbtree 11 1 ngx_rbtree_insert_timer_value.
Definition timer_event (fd ts : Z) : ngx_event_t := mk_event fd NULL 0 0 [] 0 0 ts 0 7.
Definition timer_world : world :=
  mk_world (heap_of timer_cells) timer_tree 1000
    {[11%nat := timer_event 4 1; 12%nat := timer_event 5 1; 13%nat := timer_event 6 0]} [].
Definition timer_list : list elt := [mk_elt 12 900 0; mk_elt 11 5000 0].

Lemma timer_world_inv : timers_inv 0 timer_world timer_list [(13%nat, fresh_node 0)].
Proof.
  split.
  - split; [|split; [done|split]].
    + exists (Node 0 (Node 1 Leaf (mk_elt 12 900 0) Leaf) (mk_elt 11 5000 0) Leaf),
        (mk_rbnode 0 NULL NULL NULL 0 0), NULL, 1%nat.
      split; [done|]. split; [|split; [eauto using is_rb|done]]. split; [|done].
      apply heap_of_own; [|repeat constructor; done]. vm_compute. repeat constructor; set_solver.
    + repeat constructor; by vm_compute.
    + repeat constructor; by vm_compute.
  - done.
  - intros p e He. unfold timer_world in He. cbn [events] in He.
    rewrite !lookup_insert_Some, lookup_singleton_Some in He.
    destruct He as [(<- & <-)|(_ & [(<- & <-)|(_ & <- & <-)])]; cbn -[elem_of]; set_solver.
  - intros p Hp. cbn -[elem_of] in Hp. assert (p = 12 ∨ p = 11 ∨ p = 13)%nat as [ ->|[ ->| ->] ] by set_solver;
      by eexists.
Qed.

Lemma timer_world_window : timer_window 0 (ngx_current_msec timer_world).
Proof. done. Qed.

Lemma find_timer_earliest_witness : ∃ t, ngx_event_find_timer timer_world = Ok t ∧ t = 0.
Proof.
  destruct (find_timer_earliest 0 timer_world timer_list _ timer_world_inv timer_world_window)
    as (t & E & _ & H). exists t. split; [done|]. vm_compute in E. by injection E as <-.
Defined.

(** Arming a timer: on an event with or without a timer, [ngx_event_add_timer] leaves
    the event exactly one deadline, [ngx_current_msec + timer] or, when the event had a
    deadline less than [NGX_TIMER_LAZY_DELAY] ms away from that, the old one; the timers of
    the other events are untouched and the tree stays well formed. *)
Theorem add_timer_sets_deadline base w l free ev timer : timers_inv base w l free →
  ev ∈ (eid <$> l) ++ free.*1 → timer_window base (u64 (ngx_current_msec w + timer)) →
  ∃ w' l' free' d, ngx_event_add_timer w ev timer = Ok w' ∧ timers_inv base w' l' free' ∧
    ngx_current_msec w' = ngx_current_msec w ∧
    l' ≡ₚ mk_elt ev (new_deadline base l ev (u64 (ngx_current_msec w + timer))) d ::
          others ev l.
Proof. intros Hinv Hin Hwin. by apply add_timer_spec with free. Qed.

Lemma add_timer_sets_deadline_witness :
  ∃ w' l' free' d, ngx_event_add_timer timer_world 11 4100 = Ok w' ∧ timers_inv 0 w' l' free' ∧
    ngx_current_msec w' = 1000 ∧ l' ≡ₚ [mk_elt 11 5000 d; mk_elt 12 900 0].
Proof.
  apply (add_timer_sets_deadline 0 timer_world timer_list _ 11%nat 4100 timer_world_inv);
    [vm_compute; set_solver|done].
Defined.

(** C27. An expiry round, for any handlers that leave the clock and the other events alone
    and arm only timers in the future: [ngx_event_expire_timers] returns within
    one iteration more than there are due timers, has run the handler of
    exactly the due events, in the order of their deadlines, and leaves no due timer in a
    well-formed tree. *)
Theorem expire_fires_due base P call w l free :
  EventHandlers base (ngx_current_msec w) P call →
  timers_inv base w l free → timer_window base (ngx_current_msec w) → P (events w) →
  let ds := filter (λ e, due base (ngx_current_msec w) e = true) l in
  counts_ok w ds →
  ∃ w' l' free', ngx_event_expire_timers (S (length ds)) call w = Ok w' ∧
    timers_inv base w' l' free' ∧ ngx_current_msec w' = ngx_current_msec w ∧
    Forall (λ e, due base (ngx_current_msec w) e = false) l' ∧
    handlers_run (log w') = handlers_run (log w) ++ (eid <$> ds).
Proof.
  intros Hc Hinv Hwin HP ds Hcnt.
  destruct (expire_spec base (ngx_current_msec w) P call ds w l free) as (w' & l' & free' & H);
    [done..|]. exists w', l', free'. naive_solver.
Qed.

(** The handler of the client: it re-arms its timer, here with any delay. *)
Definition rearm_handler (timer : Z) (h : nat) (w : world) (ev : ptr) : result world :=
  ngx_event_add_timer w ev timer.

Lemma rearm_handlers base now timer : timer_window base (u64 (now + timer)) →
  (∀ d, due base now (mk_elt 0 (u64 (now + timer)) d) = false) →
  EventHandlers base now (λ _, True) (rearm_handler timer).
Proof.
  intros Hwin Hdue. split; [done|]. intros w ev e0 l free Hinv Hnow _ Hfree _ _.
  destruct (ti_event _ _ _ _ Hinv ev) as [e He]; [by right|].
  destruct (add_free_spec base w l free ev e timer Hinv Hfree He) as
    (w' & d & free' & E & Hi & Hn & Hl & Hev & _); [by rewrite Hnow|].
  rewrite Hnow in *. eexists w', _, free'. split; [exact E|]. split; [exact Hi|].
  split; [done|]. split; [done|]. split; [|split; [by rewrite Hl|]].
  - apply place_not_due, (Hdue d).
  - intros p Hp. by rewrite Hev, lookup_insert_ne.
Qed.

Lemma expire_fires_due_witness :
  ∃ w' l' free', ngx_event_expire_timers 2 (rearm_handler 250) timer_world = Ok w' ∧
    timers_inv 0 w' l' free' ∧ ngx_current_msec w' = 1000 ∧
    Forall (λ e, due 0 1000 e = false) l' ∧ handlers_run (log w') = [12%nat].
Proof.
  apply (expire_fires_due 0 (λ _, True) (rearm_handler 250) timer_world timer_list [(13%nat, fresh_node 0)]).
  - by apply rearm_handlers.
  - exact timer_world_inv.
  - exact timer_world_window.
  - done.
  - intros p evt Hp He. assert (p = 12%nat) as -> by (vm_compute in Hp; set_solver).
    vm_compute in He. injection He as <-. done.
Defined.

(** The tree before [ngx_event_timer_init]: all zero bytes, so the insertion function is
    a null pointer. *)
Definition zero_tree : ngx_rbtree_t := mk_rbtree NULL NULL (λ _ _ _ _, Ub).

Lemma st_eq f h p n : h !! p = Some n → st f h p = Ok (<[p := f n]> h).
Proof. intros H. unfold st. by rewrite H. Qed.

Lemma ld_eq {A} (f : ngx_rbtree_node_t → A) h p n : h !! p = Some n → ld f h p = Ok (f n).
Proof. intros H. unfold ld. by rewrite H. Qed.

(** The node of a timer armed in the zero tree, and the world afterwards. *)
Definition zero_node (k : Z) (n : ngx_rbtree_node_t) : ngx_rbtree_node_t :=
  set_color 0 (set_right NULL (set_left NULL (set_parent NULL (set_key k n)))).
Definition zero_armed (w : world) (ev : ptr) (n : ngx_rbtree_node_t) (e : ngx_event_t) (k : Z) : world :=
  ev_set (with_tree w (<[ev := zero_node k n]> (nodes w)) (set_root zero_tree ev)) ev (set_timer_set 1 e).

Lemma add_zero_tree w ev n e timer : ngx_event_timer_rbtree w = zero_tree →
  nodes w !! ev = Some n → events w !! ev = Some e → timer_set e = 0 →
  ngx_event_add_timer w ev timer = Ok (zero_armed w ev n e (u64 (ngx_current_msec w + timer))).
Proof.
  intros Htr Hn He Hts. unfold ngx_event_add_timer, ev_get. rewrite He. cbn [of_opt]. rewrite ok_bind, Hts.
  cbn [Z.eqb negb]. rewrite ok_bind, (st_eq _ _ _ _ Hn), ok_bind, Htr.
  unfold ngx_rbtree_insert. cbn [root sentinel zero_tree Nat.eqb NULL].
  do 3 (erewrite st_eq by apply lookup_insert_eq; rewrite ok_bind).
  unfold ngx_rbt_black. erewrite st_eq by apply lookup_insert_eq. rewrite !ok_bind.
  cbn [events with_tree]. rewrite He. cbn [of_opt]. by rewrite !insert_insert_eq.
Qed.

(** The tree that [ngx_event_timer_init] leaves. *)
Definition init_tree : ngx_rbtree_t :=
  mk_rbtree ngx_event_timer_sentinel ngx_event_timer_sentinel ngx_rbtree_insert_timer_value.

Lemma timer_init_run w sn : nodes w !! ngx_event_timer_sentinel = Some sn →
  ngx_event_timer_init w =
    Ok (with_tree w (<[ngx_event_timer_sentinel := set_color 0 sn]> (nodes w)) init_tree, NGX_OK).
Proof.
  intros Hs. unfold ngx_event_timer_init, ngx_rbtree_init, ngx_rbt_black. by rewrite (st_eq _ _ _ sn).
Qed.

(** Removing a node that is not in the tree. *)
Lemma unlink_detached w ev k n : nodes w !! NULL = None → nodes w !! ev = Some (zero_node k n) →
  ngx_event_timer_rbtree w = init_tree → ngx_event_del_timer w ev = Ub.
Proof.
  intros Hnull Hev Htr. unfold ngx_event_del_timer, unlink_timer, ngx_rbtree_delete, delete_pick.
  rewrite (ld_eq left _ _ _ Hev), ok_bind, (ld_eq right _ _ _ Hev), ok_bind, Htr.
  cbn [left right zero_node set_color set_left set_right set_key set_parent]. simpl.
  unfold ld. by rewrite Hnull.
Qed.

(** The client's order of calls: a timer armed before [ngx_event_timer_init] is lost.
    The tree is then reset with the event still marked as having a timer: no deadline
    is found, nothing expires, and removing the timer dereferences a null pointer. *)
Theorem timer_before_init_lost w ev n sn e timer call :
  ngx_event_timer_rbtree w = zero_tree → nodes w !! NULL = None →
  nodes w !! ngx_event_timer_sentinel = Some sn → nodes w !! ev = Some n →
  ev ≠ ngx_event_timer_sentinel → events w !! ev = Some e → timer_set e = 0 →
  ∃ w1 w2, ngx_event_add_timer w ev timer = Ok w1 ∧ ngx_event_timer_init w1 = Ok (w2, NGX_OK) ∧
    ngx_event_find_timer w2 = Ok NGX_TIMER_INFINITE ∧
    ngx_event_expire_timers 1 call w2 = Ok w2 ∧
    events w2 !! ev = Some (set_timer_set 1 e) ∧ ngx_event_del_timer w2 ev = Ub.
Proof.
  intros Htr Hnull Hs Hn Hne He Hts. eexists _, _. split; [by apply add_zero_tree|].
  split; [apply (timer_init_run _ sn); simpl; by rewrite lookup_insert_ne|].
  split; [done|]. split; [done|]. split; [simpl; apply lookup_insert_eq|].
  eapply unlink_detached; [| |done]; simpl.
  - rewrite !lookup_insert_ne by (first [done|congruence]). done.
  - rewrite lookup_insert_ne by done. apply lookup_insert_eq.
Qed.

Lemma timer_before_init_lost_witness :
  let h : heap := {[1%nat := fresh_node 0; 20%nat := fresh_node 0]} in
  let w := mk_world h zero_tree 1000 {[20%nat := timer_event 4 0]} [] in
  ∃ w1 w2, ngx_event_add_timer w 20 5000 = Ok w1 ∧ ngx_event_timer_init w1 = Ok (w2, NGX_OK) ∧
    ngx_event_find_timer w2 = Ok NGX_TIMER_INFINITE ∧
    ngx_event_expire_timers 1 (rearm_handler 5000) w2 = Ok w2 ∧
    events w2 !! 20%nat = Some (timer_event 4 1) ∧ ngx_event_del_timer w2 20 = Ub.
Proof.
  intros h w. by apply (timer_before_init_lost w 20 (fresh_node 0) (fresh_node 0) (timer_event 4 0)).
Defined.
