(* ===== verification/NgxReactor.v ===== *)
(** * NgxReactor: ngx_reactor.c, ngx_server.c and ngx_client.c of src/heartbeat

    The kernel is a parameter: [kernel] gives the answer of each system call as a function
    of the calls made before, so every behaviour of the network is one of them.  The event
    array of the reactor is the block of [MAX_EPOLL_EVENTS] events from [rev] on; indexing
    outside it is undefined behaviour. *)

From S2P Require Import Prelude RbHeap RbTree RbInsert RbDelete RbQuery EventTimer.
#[local] Open Scope Z_scope.

Definition BUFFER_LENGTH : Z := 4096.
Definition MAX_EPOLL_EVENTS : Z := 1024.
Definition EPOLLIN : Z := 1.
Definition EPOLLOUT : Z := 4.
(** [1000*5] and [3] of ngx_server.c. *)
Definition KEEPALIVE_INTVAL_MSEC : Z := 1000 * 5.
Definition KEEPALIVE_INTVAL_PROBES : Z := 3.

Record ngx_reactor_t := mk_reactor { epfd : Z; rev : ptr }.

(** Answers of the kernel.  [recv] gives an error or at most as many bytes as asked for,
    [send] and the others the value returned; [epoll_wait] gives an error or the ready
    events with their flags. *)
Record kernel := mk_kernel {
  k_recv : list sys → Z → option (list Z);
  k_send : list sys → Z → list Z → Z;
  k_accept : list sys → Z → Z;
  k_fcntl : list sys → Z → Z;
  k_epoll_ctl : list sys → Z → Z → Z;
  k_epoll_wait : list sys → Z → option (list (ptr * Z));
  k_time : list sys → Z * Z
}.

(** The function pointers of the event handlers. *)
Definition CLIENT_HANDLER : nat := 1.
Definition REACTOR_HANDLER : nat := 2.

Definition has (what bit : Z) : bool := negb (Z.land what bit =? 0).

(** [&reactor->ev[i]] *)
Definition ev_at (r : ngx_reactor_t) (i : Z) : result ptr :=
  if bool_decide (0 ≤ i < MAX_EPOLL_EVENTS) then Ok (rev r + Z.to_nat i)%nat else Ub.

Section program.
Context (K : kernel).

(** ** ngx_reactor.c *)
Definition ngx_event_set (w : world) (ev : ptr) (f : Z) (h : nat) (a : ptr) : result world :=
  e ← ev_get w ev;
  Ok (ev_set w ev (mk_event f a 0 (status e) (buffer e) (length_ e) (ngx_current_msec w)
                     (timer_set e) (timedout e) h)).

Definition ngx_event_add (w : world) (what_ timeout : Z) (ev : ptr) : result (world * Z) :=
  e ← ev_get w ev;
  let w := ev_set w ev (set_what (Z.lor (what e) what_) e) in
  let evs := Z.lor (if has what_ NGX_EVENT_READING then EPOLLIN else 0)
                   (if has what_ NGX_EVENT_WRITING then EPOLLOUT else 0) in
  w ← (if has what_ NGX_EVENT_TIMEOUT then ngx_event_add_timer w ev timeout else Ok w);
  e ← ev_get w ev;
  let op := if status e =? 1 then SysEpollMod (fd e) evs else SysEpollAdd (fd e) evs in
  let w := if status e =? 1 then w else ev_set w ev (set_status 1 e) in
  let ret := k_epoll_ctl K (log w) (fd e) evs in
  let w := with_log w op in
  Ok (w, if ret <? 0 then -1 else 0).

Definition ngx_event_del (w : world) (ev : ptr) : result (world * Z) :=
  e ← ev_get w ev;
  if negb (status e =? 1) then Ok (w, -1) else
  let w := ev_set w ev (set_status 0 e) in
  Ok (with_log w (SysEpollDel (fd e)), 0).

Section loop.
Context (call : nat → world → ptr → result world).

(** The ready events, in the order [epoll_wait] returned them.  The two assignments set
    bits that their guards have just found set. *)
Fixpoint dispatch (w : world) (ready : list (ptr * Z)) : result world :=
  match ready with
  | [] => Ok w
  | (ev, evs) :: ready =>
      e ← ev_get w ev;
      let w := if has evs EPOLLIN && has (what e) NGX_EVENT_READING
               then ev_set w ev (set_what (Z.lor (what e) NGX_EVENT_READING) e) else w in
      e ← ev_get w ev;
      let w := if has evs EPOLLOUT && has (what e) NGX_EVENT_WRITING
               then ev_set w ev (set_what (Z.lor (what e) NGX_EVENT_WRITING) e) else w in
      w ← run_handler call w ev;
      dispatch w ready
  end.

(** One iteration of [while (1)]; the timeout becomes an [int]. *)
Definition loop_round (fuel : nat) (w : world) : result world :=
  let delta := ngx_current_msec w in
  timer ← ngx_event_find_timer w;
  let ready := k_epoll_wait K (log w) (s32 timer) in
  let w := with_log w (SysEpollWait (s32 timer)) in
  match ready with
  | None => Ok w
  | Some ready =>
      let '(sec, usec) := k_time K (log w) in
      let w := ngx_time_update w sec usec in
      w ← dispatch w ready;
      let delta := u64 (ngx_current_msec w - delta) in
      if delta =? 0 then Ok w else ngx_event_expire_timers fuel call w
  end.

Fixpoint loop_rounds (n fuel : nat) (w : world) : result world :=
  match n with O => Ok w | S n => w ← loop_round fuel w; loop_rounds n fuel w end.

(** [n] rounds of the loop of [ngx_reactor_loop] on a valid reactor. *)
Definition ngx_reactor_loop (n fuel : nat) (w : world) : result world :=
  '(w, _) ← ngx_event_timer_init w; loop_rounds n fuel w.
End loop.

(** ** Callbacks common to both programs *)

(** [recv(fd, ev->buffer, BUFFER_LENGTH, 0)]: the bytes received are stored in the buffer. *)
Definition recv_into (w : world) (ev : ptr) (f : Z) : result (world * Z) :=
  e ← ev_get w ev;
  let answer := k_recv K (log w) f in
  let w := with_log w (SysRecv f) in
  match answer with
  | None => Ok (w, -1)
  | Some bs =>
      let bs := take (Z.to_nat BUFFER_LENGTH) bs in
      b ← memwrite (buffer e) 0 bs;
      Ok (ev_set w ev (set_data b (length_ e) e), Z.of_nat (length bs))
  end.

(** [ev->length = len; ev->buffer[len] = 0; ev->last_active = ngx_current_msec;] *)
Definition store_received (w : world) (ev : ptr) (len : Z) : result world :=
  e ← ev_get w ev;
  b ← (buffer e).[len := 0];
  Ok (ev_set w ev (set_last_active (ngx_current_msec w) (set_data b len e))).

(** [recv_cb] of the two programs: [h] is the handler and [next] what is awaited after data. *)
Definition recv_cb_with (h : nat) (next : Z) (r : ngx_reactor_t) (a : ptr) (w : world) (f : Z)
  : result (world * Z) :=
  ev ← ev_at r f;
  '(w, len) ← recv_into w ev f;
  '(w, _) ← ngx_event_del w ev;
  if 0 <? len then
    w ← store_received w ev len;
    w ← ngx_event_set w ev f h a;
    '(w, _) ← ngx_event_add w next KEEPALIVE_INTVAL_MSEC ev;
    Ok (w, len)
  else
    e ← ev_get w ev;
    Ok (with_log w (SysClose (fd e)), len).

Definition send_cb_with (h : nat) (next : Z) (r : ngx_reactor_t) (a : ptr) (w : world) (f : Z)
  : result (world * Z) :=
  ev ← ev_at r f;
  e ← ev_get w ev;
  bs ← memread (buffer e) 0 (length_ e);
  let len := k_send K (log w) f bs in
  let w := with_log w (SysSend f bs) in
  if 0 <? len then
    '(w, _) ← ngx_event_del w ev;
    w ← ngx_event_set w ev f h a;
    '(w, _) ← ngx_event_add w next KEEPALIVE_INTVAL_MSEC ev;
    Ok (w, len)
  else
    let w := with_log w (SysClose (fd e)) in
    '(w, _) ← ngx_event_del w ev;
    Ok (w, len).

(** The one reactor of a program and its address; the [arg] of an event points to it. *)
Context (r : ngx_reactor_t) (raddr : ptr).

Definition reactor_at (a : ptr) : result ngx_reactor_t :=
  if bool_decide (a = raddr ∧ a ≠ NULL) then Ok r else Ub.

(** ** ngx_server.c *)
Definition recv_cb (w : world) (f : Z) (a : ptr) : result (world * Z) :=
  r ← reactor_at a; recv_cb_with CLIENT_HANDLER NGX_EVENT_READING r a w f.

Definition send_cb (w : world) (f : Z) (a : ptr) : result (world * Z) :=
  r ← reactor_at a; send_cb_with CLIENT_HANDLER NGX_EVENT_WRITING r a w f.

(** The search for a free slot; [MAX_EPOLL_EVENTS] when there is none. *)
Fixpoint free_slot (n : nat) (r : ngx_reactor_t) (w : world) (i : Z) : result Z :=
  match n with
  | O => Ok i
  | S n =>
      ev ← ev_at r i;
      e ← ev_get w ev;
      if status e =? 0 then Ok i else free_slot n r w (i + 1)
  end.

Definition accept_cb (w : world) (f : Z) (a : ptr) : result (world * Z) :=
  if Nat.eqb a NULL then Ok (w, -1) else
  r ← reactor_at a;
  let clientfd := k_accept K (log w) f in
  let w := with_log w (SysAccept f) in
  if clientfd =? -1 then Ok (w, -1) else
  i ← free_slot (Z.to_nat MAX_EPOLL_EVENTS) r w 0;
  w ← (if i =? MAX_EPOLL_EVENTS then Ok w else
       let flag := k_fcntl K (log w) clientfd in
       let w := with_log w (SysFcntl clientfd) in
       if flag <? 0 then Ok w else
       cev ← ev_at r clientfd;
       w ← ngx_event_set w cev clientfd CLIENT_HANDLER a;
       '(w, _) ← ngx_event_add w (Z.lor NGX_EVENT_READING NGX_EVENT_TIMEOUT) KEEPALIVE_INTVAL_MSEC cev;
       Ok w);
  iev ← ev_at r i;
  _ ← ev_get w iev;
  Ok (w, 0).

Definition timeout_cb (w : world) (f : Z) (last_active_ : Z) : world * Z :=
  let delta := u64 (ngx_current_msec w - last_active_) in
  (if KEEPALIVE_INTVAL_MSEC * KEEPALIVE_INTVAL_PROBES <=? delta then with_log w (SysClose f) else w, 0).

(** A branch [if (ev->what & bit) ret = cb;] of the handlers. *)
Definition on_bit (bit : Z) (cb : world → result (world * Z)) (ev : ptr) (st : world * Z)
  : result (world * Z) :=
  e ← ev_get st.1 ev; if has (what e) bit then cb st.1 else Ok st.

Definition client_handler (w : world) (ev : ptr) : result (world * Z) :=
  st ← on_bit NGX_EVENT_READING (λ w, e ← ev_get w ev; recv_cb w (fd e) (arg e)) ev (w, 0);
  st ← on_bit NGX_EVENT_WRITING (λ w, e ← ev_get w ev; send_cb w (fd e) (arg e)) ev st;
  on_bit NGX_EVENT_TIMEOUT (λ w,
    e ← ev_get w ev;
    let '(w, ret) := timeout_cb w (fd e) (last_active e) in
    if Nat.eqb (arg e) NULL then Ok (w, -1) else
    r ← reactor_at (arg e);
    '(w, _) ← ngx_event_add w (Z.lor NGX_EVENT_READING NGX_EVENT_TIMEOUT) KEEPALIVE_INTVAL_MSEC ev;
    Ok (w, ret)) ev st.

Definition ngx_reactor_handler (w : world) (ev : ptr) : result (world * Z) :=
  '(w, _) ← on_bit NGX_EVENT_READING (λ w, e ← ev_get w ev; accept_cb w (fd e) (arg e)) ev (w, 0);
  Ok (w, 0).

(** [ev->handler(ev)] in the server; any other pointer is not a function. *)
Definition server_call (h : nat) (w : world) (ev : ptr) : result world :=
  if Nat.eqb h CLIENT_HANDLER then '(w, _) ← client_handler w ev; Ok w
  else if Nat.eqb h REACTOR_HANDLER then '(w, _) ← ngx_reactor_handler w ev; Ok w
  else Ub.

Definition ngx_reactor_addlistener (w : world) (sockfd : Z) (h : nat) : result (world * Z) :=
  if Nat.eqb raddr NULL || Nat.eqb (rev r) NULL then Ok (w, -1) else
  ev ← ev_at r sockfd;
  w ← ngx_event_set w ev sockfd h raddr;
  '(w, _) ← ngx_event_add w NGX_EVENT_READING 0 ev;
  Ok (w, 0).

(** [main] of the server after the listening socket is open, for [n] rounds. *)
Definition server_main (n fuel : nat) (w : world) (sockfd : Z) : result world :=
  '(w, _) ← ngx_reactor_addlistener w sockfd REACTOR_HANDLER;
  ngx_reactor_loop server_call n fuel w.

(** ** ngx_client.c *)
Definition c_recv_cb (w : world) (f : Z) (a : ptr) : result (world * Z) :=
  r ← reactor_at a;
  recv_cb_with CLIENT_HANDLER (Z.lor NGX_EVENT_WRITING NGX_EVENT_TIMEOUT) r a w f.

Definition c_send_cb (w : world) (f : Z) (a : ptr) : result (world * Z) :=
  r ← reactor_at a;
  send_cb_with CLIENT_HANDLER (Z.lor NGX_EVENT_READING NGX_EVENT_TIMEOUT) r a w f.

(** [timeout_cb] of the client only prints. *)
Definition c_handler (w : world) (ev : ptr) : result (world * Z) :=
  st ← on_bit NGX_EVENT_READING (λ w, e ← ev_get w ev; c_recv_cb w (fd e) (arg e)) ev (w, 0);
  st ← on_bit NGX_EVENT_WRITING (λ w, e ← ev_get w ev; c_send_cb w (fd e) (arg e)) ev st;
  on_bit NGX_EVENT_TIMEOUT (λ w,
    e ← ev_get w ev;
    if Nat.eqb (arg e) NULL then Ok (w, -1) else
    r ← reactor_at (arg e);
    let w := ev_set w ev (set_timer_set 0 e) in
    '(w, _) ← ngx_event_add w (Z.lor NGX_EVENT_READING NGX_EVENT_TIMEOUT) KEEPALIVE_INTVAL_MSEC ev;
    Ok (w, 0)) ev st.

Definition client_call (h : nat) (w : world) (ev : ptr) : result world :=
  if Nat.eqb h CLIENT_HANDLER then '(w, _) ← c_handler w ev; Ok w else Ub.

(** [main] of the client once connected, for [n] rounds. *)
Definition client_main (n fuel : nat) (w : world) (sockfd : Z) : result world :=
  ev ← ev_at r sockfd;
  w ← ngx_event_set w ev sockfd CLIENT_HANDLER raddr;
  '(w, _) ← ngx_event_add w (Z.lor NGX_EVENT_READING NGX_EVENT_TIMEOUT) KEEPALIVE_INTVAL_MSEC ev;
  ngx_reactor_loop client_call n fuel w.
End program.
