(* ===== verification/NgxServer.v ===== *)
(** * NgxServer: the event handlers of ngx_server.c

    What a connection of the server goes through: data, keepalive expiry, and the
    expiry round with the server's own handlers. *)

From stdpp Require Import sorting.
From S2P Require Import Prelude RbHeap RbTree RbInsert RbDelete RbQuery EventTimer TimerTheorems NgxReactor.
#[local] Open Scope Z_scope.

(** Running a handler on a world whose event is known. *)
Ltac w_cbn :=
  cbn [nodes ngx_event_timer_rbtree ngx_current_msec events log ev_set with_log with_tree
       fd arg what status buffer length_ last_active timer_set timedout handler of_opt
       set_what set_status set_data set_last_active set_timer_set set_timedout fst snd].
Ltac w_step := first
  [ rewrite ok_bind
  | rewrite lookup_insert_eq
  | match goal with H : events _ !! _ = Some _ |- _ => rewrite H end ].
Ltac w_run := repeat (w_step; w_cbn).

Lemma has_testbit x k : 0 ≤ k → has x (2 ^ k) = Z.testbit x k.
Proof.
  intros Hk. unfold has. destruct (Z.testbit x k) eqn:E.
  - apply negb_true_iff, Z.eqb_neq. intros H.
    assert (Z.testbit (Z.land x (2 ^ k)) k = true) as H1
      by (by rewrite Z.land_spec, E, Z.pow2_bits_true).
    rewrite H, Z.bits_0 in H1. done.
  - apply negb_false_iff, Z.eqb_eq. apply Z.bits_inj'. intros n Hn.
    rewrite Z.land_spec, Z.bits_0, Z.pow2_bits_eqb by lia.
    destruct (Z.eqb_spec k n) as [<-|]; [by rewrite E|]. apply andb_false_r.
Qed.

Section server.
Context (K : kernel) (r : ngx_reactor_t) (raddr : ptr).
Hypothesis raddr_ok : raddr ≠ NULL.
Implicit Types (w : world) (ev : ptr) (e : ngx_event_t) (f : Z).

(** The event of descriptor [f]. *)
Definition ev_of f : ptr := (rev r + Z.to_nat f)%nat.
Definition fd_ok f : Prop := 0 ≤ f < MAX_EPOLL_EVENTS.

Lemma ev_at_Ok f : fd_ok f → ev_at r f = Ok (ev_of f).
Proof. intros Hf. unfold ev_at. by rewrite bool_decide_eq_true_2. Qed.

Lemma reactor_at_Ok : reactor_at r raddr raddr = Ok r.
Proof. unfold reactor_at. by rewrite bool_decide_eq_true_2. Qed.

(** A connection: an event of the array as [accept_cb] sets it up. *)
Record conn f e : Prop := {
  conn_fd : fd e = f;
  conn_range : fd_ok f;
  conn_arg : arg e = raddr;
  conn_handler : handler e = CLIENT_HANDLER;
  conn_buffer : Z.of_nat (length (buffer e)) = BUFFER_LENGTH;
  conn_length : 0 ≤ length_ e ≤ BUFFER_LENGTH
}.

Lemma event_add_plain w what_ timeout ev e : events w !! ev = Some e →
  has what_ NGX_EVENT_TIMEOUT = false →
  let evs := Z.lor (if has what_ NGX_EVENT_READING then EPOLLIN else 0)
                   (if has what_ NGX_EVENT_WRITING then EPOLLOUT else 0) in
  ∃ ret, ngx_event_add K w what_ timeout ev =
    Ok (mk_world (nodes w) (ngx_event_timer_rbtree w) (ngx_current_msec w)
          (<[ev := set_status 1 (set_what (Z.lor (what e) what_) e)]> (events w))
          (log w ++ [if status e =? 1 then SysEpollMod (fd e) evs else SysEpollAdd (fd e) evs]), ret).
Proof.
  intros He Ht evs. unfold ngx_event_add, ev_get. rewrite He. cbn [of_opt]. rewrite ok_bind, Ht, ok_bind.
  w_cbn. rewrite lookup_insert_eq. cbn [of_opt]. rewrite ok_bind. w_cbn. fold evs.
  destruct (Z.eqb_spec (status e) 1) as [Hs|]; w_cbn.
  - eexists. do 3 f_equal. unfold with_log, ev_set. cbn. do 2 f_equal. destruct e; cbn in *; by subst.
  - eexists. do 3 f_equal. unfold with_log, ev_set. cbn. by rewrite insert_insert_eq.
Qed.

Lemma event_del_run w ev e : events w !! ev = Some e →
  ∃ ret, ngx_event_del w ev =
    Ok (mk_world (nodes w) (ngx_event_timer_rbtree w) (ngx_current_msec w)
          (<[ev := if status e =? 1 then set_status 0 e else e]> (events w))
          (log w ++ if status e =? 1 then [SysEpollDel (fd e)] else []), ret).
Proof.
  intros He. unfold ngx_event_del, ev_get. rewrite He. cbn [of_opt]. rewrite ok_bind.
  destruct (status e =? 1); cbn [negb]; eexists; [done|].
  rewrite insert_id, app_nil_r by done. by destruct w.
Qed.

Lemma event_set_run w ev e f h a : events w !! ev = Some e →
  ngx_event_set w ev f h a =
    Ok (ev_set w ev (mk_event f a 0 (status e) (buffer e) (length_ e) (ngx_current_msec w)
                      (timer_set e) (timedout e) h)).
Proof. intros He. unfold ngx_event_set, ev_get. by rewrite He. Qed.

(** The buffer after [bs] has been received and terminated. *)
Definition received (bs b : list Z) : list Z := bs ++ 0 :: drop (S (length bs)) b.

Lemma memwrite_received bs b : (length bs < length b)%nat →
  ∃ b1, memwrite b 0 bs = Ok b1 ∧ blk_store b1 (Z.of_nat (length bs)) 0 = Ok (received bs b) ∧
    length b1 = length b.
Proof.
  intros Hlen. exists (bs ++ drop (length bs) b). split; [|split].
  - by rewrite memwrite_Ok by lia.
  - unfold blk_store. rewrite length_app, length_drop, bool_decide_eq_true_2 by lia.
    rewrite Nat2Z.id, insert_take_drop by (rewrite length_app, length_drop; lia).
    rewrite take_app_length, drop_app_ge, drop_drop by lia. unfold received. do 4 f_equal. lia.
  - rewrite length_app, length_drop. lia.
Qed.

Lemma length_received bs b : (length bs < length b)%nat → length (received bs b) = length b.
Proof using Type. clear raddr_ok. intros. unfold received. rewrite length_app. simpl. rewrite length_drop. lia. Qed.

Lemma recv_into_data w ev e f bs : events w !! ev = Some e → k_recv K (log w) f = Some bs →
  Z.of_nat (length bs) < BUFFER_LENGTH → Z.of_nat (length (buffer e)) = BUFFER_LENGTH →
  ∃ b1, recv_into K w ev f =
      Ok (ev_set (with_log w (SysRecv f)) ev (set_data b1 (length_ e) e), Z.of_nat (length bs)) ∧
    blk_store b1 (Z.of_nat (length bs)) 0 = Ok (received bs (buffer e)) ∧
    length b1 = length (buffer e).
Proof.
  intros He Hr Hbs Hb. unfold recv_into, ev_get. rewrite He. cbn [of_opt]. rewrite ok_bind, Hr.
  rewrite take_ge by (unfold BUFFER_LENGTH in *; lia).
  destruct (memwrite_received bs (buffer e)) as (b2 & E2 & H3 & H4); [lia|].
  exists b2. rewrite E2, ok_bind. split_and!; [by destruct w|done..].
Qed.

(** The world in which [recv_cb] re-registers the event after data. *)
Definition after_data w f e (h : nat) (bs : list Z) : world :=
  mk_world (nodes w) (ngx_event_timer_rbtree w) (ngx_current_msec w)
    (<[ev_of f := mk_event f raddr 0 (if status e =? 1 then 0 else status e) (received bs (buffer e))
         (Z.of_nat (length bs)) (ngx_current_msec w) (timer_set e) (timedout e) h]> (events w))
    (log w ++ SysRecv f :: if status e =? 1 then [SysEpollDel f] else []).

Lemma recv_cb_to_add w f e h next bs : conn f e → events w !! ev_of f = Some e →
  k_recv K (log w) f = Some bs → 0 < Z.of_nat (length bs) < BUFFER_LENGTH →
  recv_cb_with K h next r raddr w f =
    '(w', _) ← ngx_event_add K (after_data w f e h bs) next KEEPALIVE_INTVAL_MSEC (ev_of f);
    Ok (w', Z.of_nat (length bs)).
Proof.
  intros [Hfd Hf Ha Hh Hb Hl] He Hr Hlen. unfold recv_cb_with.
  rewrite ev_at_Ok, ok_bind by done.
  destruct (recv_into_data w (ev_of f) e f bs) as (b1 & -> & Hst & Hb1); [done|done|lia|done|].
  rewrite ok_bind. destruct (event_del_run (ev_set (with_log w (SysRecv f)) (ev_of f)
    (set_data b1 (length_ e) e)) (ev_of f) (set_data b1 (length_ e) e)) as (ret & ->);
    [apply lookup_insert_eq|].
  w_cbn. rewrite ok_bind. destruct (Z.ltb_spec 0 (Z.of_nat (length bs))); [|lia].
  unfold store_received, ev_get. w_cbn. rewrite lookup_insert_eq. w_cbn. rewrite ok_bind. w_cbn.
  match goal with |- context [blk_store ?x _ _] =>
    replace x with b1 by (by destruct (status e =? 1)) end.
  rewrite Hst, !ok_bind. erewrite event_set_run by (w_cbn; apply lookup_insert_eq).
  rewrite ok_bind. unfold after_data, ev_set. w_cbn. rewrite !insert_insert_eq, Hfd, <- !app_assoc.
  by destruct (status e =? 1).
Qed.

(** [recv_cb] when data arrives and no timer is asked for. *)
Lemma recv_cb_data w f e next bs : conn f e → events w !! ev_of f = Some e →
  has next NGX_EVENT_TIMEOUT = false →
  k_recv K (log w) f = Some bs → 0 < Z.of_nat (length bs) < BUFFER_LENGTH →
  recv_cb_with K CLIENT_HANDLER next r raddr w f =
    Ok (mk_world (nodes w) (ngx_event_timer_rbtree w) (ngx_current_msec w)
          (<[ev_of f := mk_event f raddr next 1 (received bs (buffer e)) (Z.of_nat (length bs))
               (ngx_current_msec w) (timer_set e) (timedout e) CLIENT_HANDLER]> (events w))
          (log w ++ SysRecv f :: (if status e =? 1 then [SysEpollDel f] else []) ++
             [SysEpollAdd f (Z.lor (if has next NGX_EVENT_READING then EPOLLIN else 0)
                                   (if has next NGX_EVENT_WRITING then EPOLLOUT else 0))]),
        Z.of_nat (length bs)).
Proof.
  intros Hc He Hn Hr Hlen. rewrite (recv_cb_to_add w f e CLIENT_HANDLER next bs) by done.
  edestruct (event_add_plain (after_data w f e CLIENT_HANDLER bs) next KEEPALIVE_INTVAL_MSEC (ev_of f))
    as (ret' & ->); [apply lookup_insert_eq|done|].
  rewrite ok_bind. unfold after_data. w_cbn. rewrite insert_insert_eq, Z.lor_0_l, <- app_assoc.
  destruct (Z.eqb_spec (status e) 1); w_cbn; [done|]. by destruct (Z.eqb_spec (status e) 1).
Qed.

Lemma set_data_id e : set_data (buffer e) (length_ e) e = e.
Proof. by destruct e. Qed.

(** [recv_cb] on an error or an orderly shutdown of the peer. *)
Lemma recv_cb_closed w f e next : conn f e → events w !! ev_of f = Some e →
  k_recv K (log w) f = None ∨ k_recv K (log w) f = Some [] →
  ∃ len, len ≤ 0 ∧ recv_cb_with K CLIENT_HANDLER next r raddr w f =
    Ok (mk_world (nodes w) (ngx_event_timer_rbtree w) (ngx_current_msec w)
          (<[ev_of f := if status e =? 1 then set_status 0 e else e]> (events w))
          (log w ++ SysRecv f :: (if status e =? 1 then [SysEpollDel f] else []) ++ [SysClose f]),
        len).
Proof.
  intros [Hfd Hf Ha Hh Hb Hl] He Hr. unfold recv_cb_with. rewrite ev_at_Ok, ok_bind by done.
  assert (∃ len, len ≤ 0 ∧ recv_into K w (ev_of f) f = Ok (with_log w (SysRecv f), len)) as (len & Hlen & ->).
  { unfold recv_into, ev_get. rewrite He. cbn [of_opt]. rewrite ok_bind. destruct Hr as [->| ->].
    - by exists (-1).
    - exists 0. split; [done|]. rewrite take_nil, memwrite_Ok by (simpl; lia). rewrite ok_bind.
      simpl. rewrite drop_0, set_data_id. do 3 f_equal. unfold ev_set. w_cbn.
      by rewrite insert_id. }
  exists len. split; [done|]. rewrite ok_bind.
  destruct (event_del_run (with_log w (SysRecv f)) (ev_of f) e) as (ret & ->); [done|].
  rewrite ok_bind. destruct (Z.ltb_spec 0 len); [lia|]. unfold ev_get. w_cbn.
  rewrite lookup_insert_eq. w_cbn. rewrite ok_bind. w_cbn.
  replace (fd (if status e =? 1 then set_status 0 e else e)) with f by (by destruct (status e =? 1)).
  unfold with_log. w_cbn. rewrite Hfd, <- !app_assoc. done.
Qed.

(** [send_cb]: [length] bytes of the buffer go out. *)
Lemma send_cb_run w f e next : conn f e → events w !! ev_of f = Some e →
  has next NGX_EVENT_TIMEOUT = false →
  ∃ len, send_cb_with K CLIENT_HANDLER next r raddr w f =
    Ok (if 0 <? len then
          mk_world (nodes w) (ngx_event_timer_rbtree w) (ngx_current_msec w)
            (<[ev_of f := mk_event f raddr next 1 (buffer e) (length_ e) (ngx_current_msec w)
                 (timer_set e) (timedout e) CLIENT_HANDLER]> (events w))
            (log w ++ SysSend f (take (Z.to_nat (length_ e)) (buffer e)) ::
              (if status e =? 1 then [SysEpollDel f] else []) ++
              [SysEpollAdd f (Z.lor (if has next NGX_EVENT_READING then EPOLLIN else 0)
                                    (if has next NGX_EVENT_WRITING then EPOLLOUT else 0))])
        else
          mk_world (nodes w) (ngx_event_timer_rbtree w) (ngx_current_msec w)
            (<[ev_of f := if status e =? 1 then set_status 0 e else e]> (events w))
            (log w ++ SysSend f (take (Z.to_nat (length_ e)) (buffer e)) :: SysClose f ::
              (if status e =? 1 then [SysEpollDel f] else [])), len) ∧
    len = k_send K (log w) f (take (Z.to_nat (length_ e)) (buffer e)).
Proof.
  intros [Hfd Hf Ha Hh Hb Hl] He Hn. eexists. split; [|reflexivity].
  unfold send_cb_with. rewrite ev_at_Ok, ok_bind by done.
  unfold ev_get at 1. rewrite He. cbn [of_opt]. rewrite ok_bind, memread_Ok, ok_bind by lia.
  rewrite drop_0. set (bs := take _ _). destruct (Z.ltb_spec 0 (k_send K (log w) f bs)).
  - destruct (event_del_run (with_log w (SysSend f bs)) (ev_of f) e) as (ret & ->); [done|].
    rewrite ok_bind. erewrite event_set_run by (w_cbn; apply lookup_insert_eq). rewrite ok_bind. w_cbn.
    match goal with |- context [ngx_event_add K ?w' next ?t ?ev] =>
      edestruct (event_add_plain w' next t ev) as (ret' & ->) end; [w_cbn; apply lookup_insert_eq|done|].
    rewrite ok_bind. w_cbn. rewrite !insert_insert_eq, Hfd, Z.lor_0_l, <- !app_assoc.
    destruct (Z.eqb_spec (status e) 1) as [Hs|Hs]; w_cbn; [done|].
    by destruct (Z.eqb_spec (status e) 1).
  - destruct (event_del_run (with_log (with_log w (SysSend f bs)) (SysClose (fd e))) (ev_of f) e) as (ret & ->); [done|].
    rewrite ok_bind. w_cbn. rewrite Hfd, <- !app_assoc. done.
Qed.

(** ** What a callback does besides its own event: nothing the timers depend on *)
Record quiet f w w' : Prop := {
  q_nodes : nodes w' = nodes w;
  q_tree : ngx_event_timer_rbtree w' = ngx_event_timer_rbtree w;
  q_now : ngx_current_msec w' = ngx_current_msec w;
  q_run : handlers_run (log w') = handlers_run (log w);
  q_others : ∀ p, p ≠ ev_of f → events w' !! p = events w !! p;
  q_conn : ∀ e, events w !! ev_of f = Some e → conn f e →
    ∃ e', events w' !! ev_of f = Some e' ∧ conn f e' ∧ timer_set e' = timer_set e
}.

Lemma quiet_refl f w : quiet f w w.
Proof. split; eauto. Qed.

Lemma quiet_trans f w1 w2 w3 : quiet f w1 w2 → quiet f w2 w3 → quiet f w1 w3.
Proof.
  intros [] []. split; [congruence..| |].
  - intros p Hp. rewrite q_others1 by done. by apply q_others0.
  - intros e He Hc. destruct (q_conn0 e He Hc) as (e' & He' & Hc' & Ht').
    destruct (q_conn1 e' He' Hc') as (e2 & ? & ? & ?). exists e2. split_and!; [done..|congruence].
Qed.

Lemma quiet_update f w e e' xs : events w !! ev_of f = Some e → (conn f e → conn f e') →
  timer_set e' = timer_set e → handlers_run xs = [] →
  quiet f w (mk_world (nodes w) (ngx_event_timer_rbtree w) (ngx_current_msec w)
               (<[ev_of f := e']> (events w)) (log w ++ xs)).
Proof.
  intros He Hc Ht Hx. split; w_cbn; try done.
  - unfold handlers_run in *. by rewrite omap_app, Hx, app_nil_r.
  - intros p Hp. by rewrite lookup_insert_ne.
  - intros e0 He0 Hc0. rewrite He in He0. injection He0 as <-. exists e'. rewrite lookup_insert_eq. auto.
Qed.

(** The next read of [f] fills the buffer. *)
Definition full_recv w f : Prop := ∃ bs, k_recv K (log w) f = Some bs ∧ BUFFER_LENGTH ≤ Z.of_nat (length bs).

(** The NUL behind what was read goes to [buffer[BUFFER_LENGTH]]. *)
Lemma recv_cb_full w f e : conn f e → events w !! ev_of f = Some e → full_recv w f → recv_cb K r raddr w f raddr = Ub.
Proof.
  intros [Hfd Hf Ha Hh Hb Hl] He (bs & Hr & Hlen). unfold recv_cb. rewrite reactor_at_Ok, ok_bind. unfold recv_cb_with.
  rewrite ev_at_Ok, ok_bind by done. unfold recv_into, ev_get. rewrite He. w_cbn. rewrite ok_bind, Hr.
  assert (length (take (Z.to_nat BUFFER_LENGTH) bs) = length (buffer e)) as Ht
    by (rewrite length_take; unfold BUFFER_LENGTH in *; lia).
  rewrite memwrite_Ok, ok_bind, Ht, ok_bind by lia. set (b := take (Z.to_nat 0) _ ++ _).
  assert (length b = length (buffer e)) as Hlb.
  { unfold b. rewrite !length_app, Ht, length_take, length_drop. simpl. lia. }
  set (e1 := set_data b (length_ e) e).
  destruct (event_del_run (ev_set (with_log w (SysRecv f)) (ev_of f) e1) (ev_of f) e1) as (ret & ->);
    [apply lookup_insert_eq|].
  rewrite ok_bind. destruct (Z.ltb_spec 0 (Z.of_nat (length (buffer e)))) as [_|]; [|unfold BUFFER_LENGTH in *; lia].
  unfold store_received, ev_get. w_cbn. rewrite lookup_insert_eq. w_cbn. rewrite ok_bind.
  unfold blk_store. rewrite bool_decide_eq_false_2; [done|].
  replace (buffer (if status e1 =? 1 then set_status 0 e1 else e1)) with b by (by destruct (status e1 =? 1)).
  rewrite Hlb. lia.
Qed.

Lemma conn_set_status f e v : conn f e → conn f (set_status v e).
Proof. by intros []. Qed.

Lemma recv_quiet w f e : conn f e → events w !! ev_of f = Some e →
  recv_cb K r raddr w f raddr = Ub ∧ full_recv w f ∨ ∃ w' len, recv_cb K r raddr w f raddr = Ok (w', len) ∧ quiet f w w'.
Proof.
  intros Hc He. destruct (k_recv K (log w) f) as [bs|] eqn:Hr; [destruct (decide (bs = [])) as [->|Hne]|].
  2: { destruct (Z.le_gt_cases BUFFER_LENGTH (Z.of_nat (length bs))) as [Hfull|Hshort].
       { assert (full_recv w f) as Hf by (by exists bs). left. split; [by eapply recv_cb_full|done]. }
       right. unfold recv_cb. rewrite reactor_at_Ok, ok_bind.
       rewrite (recv_cb_data w f e NGX_EVENT_READING bs Hc He eq_refl Hr)
         by (split; [destruct bs; [done|simpl; lia]|done]).
       eexists _, _. split; [reflexivity|]. apply quiet_update with e; [done|..|by destruct (status e =? 1)].
       - intros [Hfd Hf Ha Hh Hb Hl].
         split; try done; cbn [buffer length_]; [|lia]. rewrite length_received; lia.
       - done. }
  all: right; unfold recv_cb; rewrite reactor_at_Ok, ok_bind; destruct (recv_cb_closed w f e NGX_EVENT_READING) as (len & _ & ->); [done|done|auto|].
  all: eexists _, _; split; [reflexivity|]; apply quiet_update with e; [done|..|by destruct (status e =? 1)];
    by destruct (status e =? 1); auto using conn_set_status.
Qed.

Lemma send_quiet w f e : conn f e → events w !! ev_of f = Some e →
  ∃ w' len, send_cb K r raddr w f raddr = Ok (w', len) ∧ quiet f w w'.
Proof.
  intros Hc He. unfold send_cb. rewrite reactor_at_Ok, ok_bind.
  destruct (send_cb_run w f e NGX_EVENT_WRITING) as (len & -> & _); [done..|].
  eexists _, _. split; [reflexivity|]. destruct (0 <? len).
  - apply quiet_update with e; [done| |done|by destruct (status e =? 1)]. by intros [].
  - apply quiet_update with e; [done|..|by destruct (status e =? 1)];
      by destruct (status e =? 1); auto using conn_set_status.
Qed.

(** A branch of the handler whose callback is quiet is quiet. *)
Lemma on_bit_quiet w0 bit cb w f e ret : quiet f w0 w → events w !! ev_of f = Some e → conn f e →
  (∃ w' len, cb w = Ok (w', len) ∧ quiet f w w') →
  ∃ w' len, on_bit bit cb (ev_of f) (w, ret) = Ok (w', len) ∧ quiet f w0 w'.
Proof.
  intros Hq He Hc (w' & len & Hcb & Hq'). unfold on_bit, ev_get. w_cbn. rewrite He. w_cbn.
  rewrite ok_bind. destruct (has (what e) bit); [|by exists w, ret].
  exists w', len. rewrite Hcb. split; [done|]. by eapply quiet_trans.
Qed.

(** The branches for reading and writing of [client_handler]. *)
Definition io_part w ev : result (world * Z) :=
  st ← on_bit NGX_EVENT_READING (λ w, e ← ev_get w ev; recv_cb K r raddr w (fd e) (arg e)) ev (w, 0);
  on_bit NGX_EVENT_WRITING (λ w, e ← ev_get w ev; send_cb K r raddr w (fd e) (arg e)) ev st.

(** The handler is called on an event whose read fills the buffer. *)
Definition fills_buffer (w : world) (ev : ptr) : Prop :=
  ∃ f e, ev = ev_of f ∧ events w !! ev = Some e ∧ fd e = f ∧ has (what e) NGX_EVENT_READING = true ∧ full_recv w f.

Lemma io_quiet w f e : conn f e → events w !! ev_of f = Some e →
  io_part w (ev_of f) = Ub ∧ fills_buffer w (ev_of f) ∨
  ∃ w' len e', io_part w (ev_of f) = Ok (w', len) ∧ quiet f w w' ∧
    events w' !! ev_of f = Some e' ∧ conn f e' ∧ timer_set e' = timer_set e.
Proof.
  intros Hc He. unfold io_part.
  assert (on_bit NGX_EVENT_READING (λ w, e ← ev_get w (ev_of f); recv_cb K r raddr w (fd e) (arg e)) (ev_of f) (w, 0) =
    if has (what e) NGX_EVENT_READING then recv_cb K r raddr w f raddr else Ok (w, 0)) as Hread.
  { unfold on_bit, ev_get. w_cbn. rewrite He. w_cbn. by rewrite !ok_bind, (conn_fd _ _ Hc), (conn_arg _ _ Hc). }
  rewrite Hread. assert ((if has (what e) NGX_EVENT_READING then recv_cb K r raddr w f raddr else Ok (w, 0)) = Ub ∧ fills_buffer w (ev_of f) ∨
    ∃ w1 l1, (if has (what e) NGX_EVENT_READING then recv_cb K r raddr w f raddr else Ok (w, 0)) = Ok (w1, l1) ∧ quiet f w w1) as [[-> Hfull]|(w1 & l1 & -> & Hq1)].
  { destruct (has (what e) NGX_EVENT_READING) eqn:Hr; [|right; exists w, 0; split; [done|apply quiet_refl]].
    destruct (recv_quiet w f e Hc He) as [[-> Hf]|?]; [left|by right]. split; [done|]. exists f, e. by rewrite (conn_fd _ _ Hc). }
  { by left. }
  right. rewrite ok_bind. destruct (q_conn _ _ _ Hq1 e He Hc) as (e1 & He1 & Hc1 & Ht1).
  destruct (on_bit_quiet w NGX_EVENT_WRITING
    (λ w, e ← ev_get w (ev_of f); send_cb K r raddr w (fd e) (arg e)) w1 f e1 l1) as (w2 & l2 & -> & Hq2);
    [done|done|done|..].
  { unfold ev_get. rewrite He1. w_cbn. rewrite ok_bind, (conn_fd _ _ Hc1), (conn_arg _ _ Hc1).
    by eapply send_quiet. }
  destruct (q_conn _ _ _ Hq2 e He Hc) as (e2 & He2 & Hc2 & Ht2). by exists w2, l2, e2.
Qed.

Section expiry.
Context (base now : Z).
Hypothesis next_window : timer_window base (u64 (now + KEEPALIVE_INTVAL_MSEC)).

Lemma inv_quiet w w' f e l free : timers_inv base w l free → quiet f w w' →
  events w !! ev_of f = Some e → conn f e → timers_inv base w' l free.
Proof using Type.
  intros [Ht Hs Hset Hev] Hq He Hc. destruct Hq as [Hn Htr Hnow Hrun Ho Hcn].
  destruct (Hcn e He Hc) as (e' & He' & _ & Hts). split.
  - by rewrite Hn, Htr.
  - by rewrite Htr.
  - intros p x Hx. destruct (decide (p = ev_of f)) as [->|Hp].
    + assert (x = e') as -> by congruence. rewrite Hts. by apply Hset.
    + apply Hset. by rewrite <- Ho.
  - intros p Hp. destruct (decide (p = ev_of f)) as [->|Hne]; [by eexists|]. rewrite Ho by done. by apply Hev.
Qed.

(** Re-registering a connection whose timer has fired. *)
Lemma event_add_rearm w f e l free : timers_inv base w l free → ngx_current_msec w = now →
  ev_of f ∈ free.*1 → events w !! ev_of f = Some e →
  ∃ w' d free' ret, ngx_event_add K w (Z.lor NGX_EVENT_READING NGX_EVENT_TIMEOUT)
      KEEPALIVE_INTVAL_MSEC (ev_of f) = Ok (w', ret) ∧
    timers_inv base w' (place timer_less (mk_elt (ev_of f) (u64 (now + KEEPALIVE_INTVAL_MSEC)) d) l) free' ∧
    ngx_current_msec w' = now ∧
    events w' = <[ev_of f := set_status 1 (set_timer_set 1 (set_what
      (Z.lor (what e) (Z.lor NGX_EVENT_READING NGX_EVENT_TIMEOUT)) e))]> (events w) ∧
    log w' = log w ++ [if status e =? 1 then SysEpollMod (fd e) EPOLLIN else SysEpollAdd (fd e) EPOLLIN].
Proof using next_window.
  intros Hinv Hnow Hfree He. unfold ngx_event_add, ev_get. rewrite He. w_cbn. rewrite ok_bind.
  change (has (Z.lor NGX_EVENT_READING NGX_EVENT_TIMEOUT) NGX_EVENT_TIMEOUT) with true. cbv iota.
  set (e1 := set_what _ e). destruct (add_free_spec base (ev_set w (ev_of f) e1) l free (ev_of f) e1
    KEEPALIVE_INTVAL_MSEC) as (w1 & d & free' & E & Hi & Hn & Hl & Hev & _).
  { by apply inv_ev_set with e. }
  { done. }
  { apply lookup_insert_eq. }
  { w_cbn. by rewrite Hnow. }
  revert E Hi Hn Hl Hev. w_cbn. rewrite Hnow. intros E Hi Hn Hl Hev.
  change (if true then ngx_event_add_timer (ev_set w (ev_of f) e1) (ev_of f) KEEPALIVE_INTVAL_MSEC
    else Ok (ev_set w (ev_of f) e1)) with
    (ngx_event_add_timer (ev_set w (ev_of f) e1) (ev_of f) KEEPALIVE_INTVAL_MSEC).
  rewrite E, ok_bind, Hev, lookup_insert_eq. w_cbn. rewrite ok_bind. w_cbn.
  change (status e1) with (status e). change (fd e1) with (fd e).
  change (Z.lor (if has (Z.lor NGX_EVENT_READING NGX_EVENT_TIMEOUT) NGX_EVENT_READING then _ else _) _)
    with EPOLLIN.
  eexists _, d, free', _. split; [reflexivity|].
  assert (events w1 !! ev_of f = Some (set_timer_set 1 e1)) as Hw1 by (by rewrite Hev, lookup_insert_eq).
  destruct (Z.eqb_spec (status e) 1) as [Hs|Hs]; w_cbn.
  - split; [by apply inv_with_log|]. split; [done|]. split; [|by rewrite Hl].
    rewrite Hev, insert_insert_eq. f_equal. unfold e1. clear -Hs. destruct e; cbn in *; by subst.
  - split; [by apply inv_with_log, inv_ev_set with (set_timer_set 1 e1)|]. split; [done|].
    split; [|by rewrite Hl]. by rewrite Hev, !insert_insert_eq.
Qed.

(** The branch for timeouts of [client_handler]. *)
Definition timeout_part (ev : ptr) : world * Z → result (world * Z) :=
  on_bit NGX_EVENT_TIMEOUT (λ w,
    e ← ev_get w ev;
    let '(w, ret) := timeout_cb w (fd e) (last_active e) in
    if Nat.eqb (arg e) NULL then Ok (w, -1) else
    r ← reactor_at r raddr (arg e);
    '(w, _) ← ngx_event_add K w (Z.lor NGX_EVENT_READING NGX_EVENT_TIMEOUT) KEEPALIVE_INTVAL_MSEC ev;
    Ok (w, ret)) ev.

Lemma client_handler_parts w ev :
  client_handler K r raddr w ev = (st ← io_part w ev; timeout_part ev st).
Proof using Type. unfold client_handler, io_part. by destruct (on_bit _ _ ev (w, 0)). Qed.

Definition due_close e : list sys :=
  if KEEPALIVE_INTVAL_MSEC * KEEPALIVE_INTVAL_PROBES <=? u64 (now - last_active e)
  then [SysClose (fd e)] else [].

Lemma timeout_part_rearm w f e l free ret : timers_inv base w l free → ngx_current_msec w = now →
  ev_of f ∈ free.*1 → events w !! ev_of f = Some e → conn f e →
  has (what e) NGX_EVENT_TIMEOUT = true →
  ∃ w' d free' ret', timeout_part (ev_of f) (w, ret) = Ok (w', ret') ∧
    timers_inv base w' (place timer_less (mk_elt (ev_of f) (u64 (now + KEEPALIVE_INTVAL_MSEC)) d) l) free' ∧
    ngx_current_msec w' = now ∧
    events w' = <[ev_of f := set_status 1 (set_timer_set 1 (set_what
      (Z.lor (what e) (Z.lor NGX_EVENT_READING NGX_EVENT_TIMEOUT)) e))]> (events w) ∧
    log w' = log w ++ due_close e ++
      [if status e =? 1 then SysEpollMod f EPOLLIN else SysEpollAdd f EPOLLIN].
Proof using next_window raddr_ok.
  intros Hinv Hnow Hfree He Hc Hto. unfold timeout_part, on_bit, ev_get. w_cbn. rewrite He. w_cbn.
  rewrite ok_bind, Hto. cbv beta iota. w_cbn. rewrite ok_bind. unfold timeout_cb. rewrite Hnow.
  set (w1 := if _ <=? _ then with_log w (SysClose (fd e)) else w).
  assert (timers_inv base w1 l free ∧ ngx_current_msec w1 = now ∧ events w1 = events w ∧
    log w1 = log w ++ due_close e) as (Hi1 & Hn1 & He1 & Hl1).
  { unfold w1, due_close. destruct (_ <=? _); [|by rewrite app_nil_r].
    split; [by apply inv_with_log|done]. }
  rewrite (conn_arg _ _ Hc), (proj2 (Nat.eqb_neq raddr NULL) raddr_ok), reactor_at_Ok, ok_bind.
  destruct (event_add_rearm w1 f e l free) as (w' & d & free' & ret' & -> & Hi & Hn & Hev & Hl);
    [done|done|done|by rewrite He1|]. rewrite ok_bind. eexists w', d, free', _.
  split; [reflexivity|]. rewrite Hev, He1, Hl, Hl1, (conn_fd _ _ Hc), <- app_assoc. done.
Qed.

(** Every event with a timer is a connection. *)
Definition timers_are_conns (evs : gmap nat ngx_event_t) : Prop :=
  ∀ ev e, evs !! ev = Some e → timer_set e ≠ 0 ∨ has (what e) NGX_EVENT_TIMEOUT = true →
    ∃ f, ev = ev_of f ∧ conn f e.

(** The server's handlers keep the contract of the timers, unless a read fills the buffer. *)
Lemma server_handlers :
  (∀ d, due base now (mk_elt 0 (u64 (now + KEEPALIVE_INTVAL_MSEC)) d) = false) →
  HandlersOr base now timers_are_conns fills_buffer (server_call K r raddr).
Proof using next_window raddr_ok.
  intros Hlate. split.
  - intros evs ev e HP He Hts ev' e' Hev'. rewrite lookup_insert in Hev'. case_decide as Hx; [|by apply HP].
    injection Hev' as <-. subst ev'. intros _. destruct (HP ev e He (or_introl Hts)) as (f & -> & Hc).
    exists f. split; [done|]. by destruct Hc.
  - intros w ev e l free Hinv Hnow HP Hfree He Hbit.
    destruct (HP ev e He) as (f & -> & Hc).
    { right. change NGX_EVENT_TIMEOUT with (2 ^ 6). by rewrite has_testbit. }
    unfold server_call. rewrite (conn_handler _ _ Hc). cbn [Nat.eqb CLIENT_HANDLER].
    rewrite client_handler_parts.
    destruct (io_quiet w f e Hc He) as [[-> Hfull]|(w1 & len & e1 & -> & Hq & He1 & Hc1 & Hts1)]; [by left|].
    right. rewrite ok_bind. pose proof (inv_quiet _ _ _ _ _ _ Hinv Hq He Hc) as Hinv1.
    assert (timers_are_conns (events w1)) as HP1.
    { intros p x Hx Hp. destruct (decide (p = ev_of f)) as [->|Hne]; [|rewrite (q_others _ _ _ Hq) in Hx by done; by apply HP].
      exists f. by replace x with e1 by congruence. }
    destruct (has (what e1) NGX_EVENT_TIMEOUT) eqn:Hto.
    + destruct (timeout_part_rearm w1 f e1 l free len) as (w' & d & free' & ret & -> & Hi & Hn & Hev & Hl);
        [done|by rewrite (q_now _ _ _ Hq)|done..|]. rewrite ok_bind.
      eexists w', _, free'. split; [reflexivity|]. split; [exact Hi|]. split; [done|]. split; [|split_and!].
      * rewrite Hev. intros p x Hx Hp. rewrite lookup_insert in Hx. case_decide; [|by apply HP1].
        injection Hx as <-. exists f. split; [done|]. by destruct Hc1.
      * apply place_not_due, (Hlate d).
      * rewrite Hl, <- (q_run _ _ _ Hq). unfold handlers_run, due_close. rewrite omap_app.
        by destruct (_ <=? _), (status e1 =? 1); simpl; rewrite app_nil_r.
      * intros p Hp. rewrite Hev, lookup_insert_ne by done. by apply (q_others _ _ _ Hq).
    + unfold timeout_part, on_bit, ev_get. w_cbn. rewrite He1. w_cbn. rewrite ok_bind, Hto, ok_bind.
      exists w1, l, free. split; [done|]. split; [done|]. split; [by rewrite (q_now _ _ _ Hq)|].
      split; [done|]. split; [done|]. split; [apply Hq|apply (q_others _ _ _ Hq)].
Qed.
End expiry.
End server.
