(* ===== verification/NgxTheorems.v ===== *)
(** * NgxTheorems: properties of the heartbeat server and client

    What happens to a connection of the server when data arrives, when its keepalive
    timer fires, and at the limits of its buffers and tables; and the first data of the
    client. *)

From stdpp Require Import sorting.
From S2P Require Import Prelude RbHeap RbTree RbInsert RbDelete RbQuery EventTimer TimerTheorems NgxReactor NgxServer.
#[local] Open Scope Z_scope.

Section runs.
Context (K : kernel) (r : ngx_reactor_t) (raddr : ptr).
Implicit Types (w : world) (e : ngx_event_t) (f : Z).

Lemma server_call_client w ev :
  server_call K r raddr CLIENT_HANDLER w ev = '(w, _) ← client_handler K r raddr w ev; Ok w.
Proof. done. Qed.

Lemma on_bit_run bit cb ev w ret e : events w !! ev = Some e →
  on_bit bit cb ev (w, ret) = if has (what e) bit then cb w else Ok (w, ret).
Proof. intros He. unfold on_bit, ev_get. w_cbn. by rewrite He. Qed.

(** The reading branch of the handler on a connection waiting to read only. *)
Lemma io_part_read w f e w1 len e1 : conn raddr f e → events w !! ev_of r f = Some e →
  has (what e) NGX_EVENT_READING = true → recv_cb K r raddr w f raddr = Ok (w1, len) →
  events w1 !! ev_of r f = Some e1 → has (what e1) NGX_EVENT_WRITING = false →
  io_part K r raddr w (ev_of r f) = Ok (w1, len).
Proof.
  intros Hc He Hr Hcb He1 Hw. unfold io_part. rewrite (on_bit_run _ _ _ w 0 e), Hr by done.
  unfold ev_get. rewrite He. w_cbn. rewrite ok_bind, (conn_fd _ _ _ Hc), (conn_arg _ _ _ Hc), Hcb, ok_bind.
  by rewrite (on_bit_run _ _ _ w1 len e1), Hw.
Qed.

(** A fired timer: the round goes on from what the handler of its connection leaves. *)
Lemma expire_handler base fuel w x l free f e (Q : world → Prop) : timers_inv base w (x :: l) free →
  timer_window base (ngx_current_msec w) → due base (ngx_current_msec w) x = true →
  eid x = ev_of r f → events w !! ev_of r f = Some e → conn raddr f e →
  INT_MIN ≤ timedout e < INT_MAX →
  (∀ w1 n, timers_inv base w1 l ((ev_of r f, n) :: free) → ngx_current_msec w1 = ngx_current_msec w →
     log w1 = log w ++ [SysHandler CLIENT_HANDLER (ev_of r f)] →
     events w1 = <[ev_of r f := fired e]> (events w) →
     ∃ ret w', client_handler K r raddr w1 (ev_of r f) = Ok (w', ret) ∧ Q w') →
  ∃ w', ngx_event_expire_timers (S fuel) (server_call K r raddr) w =
      ngx_event_expire_timers fuel (server_call K r raddr) w' ∧ Q w'.
Proof.
  intros Hinv Hwin Hdue Hx He Hc Hcnt Hrun.
  destruct (expire_step base fuel (server_call K r raddr) w x l free) as
    (w1 & n & evt & Hevt & -> & Hinv1 & Hn1 & Hl1 & Hev1); [done..|intros evt; rewrite Hx; naive_solver|].
  rewrite Hx in *. assert (evt = e) as -> by congruence. rewrite (conn_handler _ _ _ Hc).
  destruct (Hrun (with_log w1 (SysHandler CLIENT_HANDLER (ev_of r f))) n) as (ret & w' & E & HQ).
  { by apply inv_with_log. } { done. } { simpl. by rewrite Hl1. } { done. }
  exists w'. split; [|done]. by rewrite server_call_client, E, !ok_bind.
Qed.
End runs.

(** A deadline within the window. *)
Lemma rank_add base now d : 0 ≤ d → timer_rank base now + d < 2 ^ 64 →
  timer_rank base (u64 (now + d)) = timer_rank base now + d.
Proof.
  intros Hd Hlt. pose proof (rank_range base now). unfold timer_rank, u64 in *.
  rewrite Zminus_mod_idemp_l. replace (now + d - base) with ((now - base) + d) by lia.
  rewrite <- Zplus_mod_idemp_l. apply Z.mod_small. lia.
Qed.

(** ** Properties *)

(** C26. An expiry round of the server, when every armed event is a connection, the deadlines lie in
    one window of the clock and no [timedout] counter is at its limit: the round ends without
    undefined behaviour, the handler of exactly the due connections has run, in the order of
    their deadlines, and every remaining timer, re-armed ones included, is in the future.  Or
    the round is undefined, and then it has run the handlers of some of the due connections
    and calls the next one when its read fills the buffer: nothing else can go wrong. *)
Theorem server_expiry_round base K r raddr w l free : raddr ≠ NULL →
  timers_inv base w l free → timers_are_conns r raddr (events w) →
  timer_window base (ngx_current_msec w) →
  timer_rank base (ngx_current_msec w) + KEEPALIVE_INTVAL_MSEC < 2 ^ 63 →
  let ds := filter (λ x, due base (ngx_current_msec w) x = true) l in
  counts_ok w ds →
  ngx_event_expire_timers (S (length ds)) (server_call K r raddr) w = Ub ∧
    (∃ k, (k < length ds)%nat ∧ goes_bad (fills_buffer K r) (server_call K r raddr) k w) ∨
  ∃ w' l' free', ngx_event_expire_timers (S (length ds)) (server_call K r raddr) w = Ok w' ∧
    timers_inv base w' l' free' ∧ timers_are_conns r raddr (events w') ∧
    Forall (λ x, due base (ngx_current_msec w) x = false) l' ∧
    handlers_run (log w') = handlers_run (log w) ++ (eid <$> ds).
Proof.
  intros Hra Hinv Hconns Hwin Hnext ds Hcnt.
  assert (timer_rank base (u64 (ngx_current_msec w + KEEPALIVE_INTVAL_MSEC)) =
    timer_rank base (ngx_current_msec w) + KEEPALIVE_INTVAL_MSEC) as Hrank.
  { apply rank_add; unfold KEEPALIVE_INTVAL_MSEC in *; lia. }
  assert (HandlersOr base (ngx_current_msec w) (timers_are_conns r raddr) (fills_buffer K r) (server_call K r raddr)).
  { apply server_handlers; [done|..].
    - unfold timer_window. fold (timer_rank base (u64 (ngx_current_msec w + KEEPALIVE_INTVAL_MSEC))).
      by rewrite Hrank.
    - intros d. unfold due. cbn [ekey]. rewrite Hrank. apply Z.leb_gt. unfold KEEPALIVE_INTVAL_MSEC. lia. }
  destruct (expire_or_bad base (ngx_current_msec w) (timers_are_conns r raddr) (fills_buffer K r) (server_call K r raddr) ds w l free)
    as [?|(w' & l' & free' & H')]; [done..|by left|]. right. exists w', l', free'. naive_solver.
Qed.

(** A server with one connection, descriptor 5, whose timer is due at 6000. *)
Definition srv_reactor : ngx_reactor_t := mk_reactor 3 100.
Definition srv_event : ngx_event_t :=
  mk_event 5 9 NGX_EVENT_READING 1 (replicate 4096 0) 0 5900 1 0 CLIENT_HANDLER.
Definition srv_cells : list cell :=
  [(1%nat, mk_rbnode 0 NULL NULL NULL 0 0); (105%nat, mk_rbnode 6000 1%nat 1%nat NULL 0 0)].
Definition srv_world : world :=
  mk_world (heap_of srv_cells) (mk_rbtree 105 1 ngx_rbtree_insert_timer_value) 6000
    {[105%nat := srv_event]} [].
Definition srv_kernel (answer : option (list Z)) : kernel :=
  mk_kernel (λ _ _, answer) (λ _ _ bs, Z.of_nat (length bs)) (λ _ _, 6) (λ _ _, 0) (λ _ _ _, 0)
    (λ _ _, Some [(105%nat, EPOLLIN)]) (λ _, (6, 0)).

Lemma srv_conn : conn 9 5 srv_event.
Proof. by split. Qed.

Lemma srv_event_inv p e : events srv_world !! p = Some e → p = 105%nat ∧ e = srv_event.
Proof. unfold srv_world. cbn [events]. by intros [<- <-]%lookup_singleton_Some. Qed.

Lemma srv_inv : timers_inv 0 srv_world [mk_elt 105 6000 0] [].
Proof.
  split.
  - split; [|split; [done|split]].
    + exists (Node 0 Leaf (mk_elt 105 6000 0) Leaf), (mk_rbnode 0 NULL NULL NULL 0 0), NULL, 1%nat.
      split; [done|]. split; [|split; [eauto using is_rb|done]]. split; [|done].
      apply heap_of_own; [|repeat constructor; done]. vm_compute. repeat constructor; set_solver.
    + repeat constructor; by vm_compute.
    + repeat constructor; by vm_compute.
  - done.
  - intros p e He. apply srv_event_inv in He as [-> ->]. cbn -[elem_of]. set_solver.
  - intros p Hp. cbn -[elem_of] in Hp. assert (p = 105)%nat as -> by set_solver. by eexists.
Qed.

(** The peer is silent and the timer is armed again; or it has sent 4096 bytes. *)
Lemma server_expiry_round_witness :
  (∃ w' l' free', ngx_event_expire_timers 2 (server_call (srv_kernel None) srv_reactor 9) srv_world = Ok w' ∧
    timers_inv 0 w' l' free' ∧ timers_are_conns srv_reactor 9 (events w') ∧
    Forall (λ x, due 0 6000 x = false) l' ∧ handlers_run (log w') = [105%nat]) ∧
  ∃ k, (k < 1)%nat ∧ goes_bad (fills_buffer (srv_kernel (Some (replicate 4096 65))) srv_reactor) (server_call (srv_kernel (Some (replicate 4096 65))) srv_reactor 9) k srv_world.
Proof.
  assert (timers_are_conns srv_reactor 9 (events srv_world)) as Hconns.
  { intros ev e He _. apply srv_event_inv in He as [-> ->]. exists 5. split; [done|exact srv_conn]. }
  assert (counts_ok srv_world [mk_elt 105 6000 0]) as Hcnt by (intros p evt _ He; apply srv_event_inv in He as [-> ->]; done).
  pose proof (λ answer, server_expiry_round 0 (srv_kernel answer) srv_reactor 9 srv_world [mk_elt 105 6000 0] [] ltac:(done) srv_inv Hconns ltac:(done) ltac:(done) Hcnt) as H.
  split.
  - assert (match ngx_event_expire_timers 2 (server_call (srv_kernel None) srv_reactor 9) srv_world with Ub => False | _ => True end) as Hok by (vm_compute; exact I).
    destruct (H None) as [[E _]|?]; [|done].
    assert (ngx_event_expire_timers 2 (server_call (srv_kernel None) srv_reactor 9) srv_world = Ub) as E' by exact E. rewrite E' in Hok. destruct Hok.
  - destruct (H (Some (replicate 4096 65))) as [[_ ?]|(w' & l' & free' & E & _)]; [done|].
    assert (match ngx_event_expire_timers 2 (server_call (srv_kernel (Some (replicate 4096 65))) srv_reactor 9) srv_world with Ok _ => False | _ => True end) as Hub by (vm_compute; exact I).
    assert (ngx_event_expire_timers 2 (server_call (srv_kernel (Some (replicate 4096 65))) srv_reactor 9) srv_world = Ok w') as E' by exact E. rewrite E' in Hub. destruct Hub.
Defined.

(** Data on a connection: when a read gives between 1 and [BUFFER_LENGTH - 1] bytes, the
    server's handler stores them NUL-terminated with their length, stamps the connection
    with the current time and registers it for reading again; its timer, the other events
    and the clock are untouched. *)
Theorem data_refreshes_connection K r raddr w f e bs : raddr ≠ NULL → conn raddr f e →
  events w !! ev_of r f = Some e → what e = NGX_EVENT_READING → status e = 1 →
  k_recv K (log w) f = Some bs → 0 < Z.of_nat (length bs) < BUFFER_LENGTH →
  server_call K r raddr (handler e) w (ev_of r f) =
    Ok (mk_world (nodes w) (ngx_event_timer_rbtree w) (ngx_current_msec w)
          (<[ev_of r f := mk_event f raddr NGX_EVENT_READING 1 (received bs (buffer e))
               (Z.of_nat (length bs)) (ngx_current_msec w) (timer_set e) (timedout e) CLIENT_HANDLER]>
             (events w))
          (log w ++ [SysRecv f; SysEpollDel f; SysEpollAdd f EPOLLIN])).
Proof.
  intros Hra Hc He Hw Hs Hr Hlen. rewrite (conn_handler _ _ _ Hc), server_call_client, client_handler_parts.
  pose proof (recv_cb_data K r raddr Hra w f e NGX_EVENT_READING bs Hc He eq_refl Hr Hlen) as E.
  rewrite Hs in E.
  assert (recv_cb K r raddr w f raddr = _) as E' by (unfold recv_cb; rewrite reactor_at_Ok, ok_bind by done; exact E).
  erewrite io_part_read; [|exact Hc|exact He|by rewrite Hw|exact E'|apply lookup_insert_eq|done].
  rewrite ok_bind. unfold timeout_part.
  erewrite on_bit_run by (apply lookup_insert_eq). done.
Qed.

Lemma data_refreshes_connection_witness :
  server_call (srv_kernel (Some [104; 105])) srv_reactor 9 CLIENT_HANDLER srv_world 105 =
    Ok (mk_world (nodes srv_world) (ngx_event_timer_rbtree srv_world) 6000
          (<[105%nat := mk_event 5 9 NGX_EVENT_READING 1 (received [104; 105] (replicate 4096 0)) 2 6000 1 0
               CLIENT_HANDLER]> (events srv_world))
          [SysRecv 5; SysEpollDel 5; SysEpollAdd 5 EPOLLIN]).
Proof.
  apply (data_refreshes_connection (srv_kernel (Some [104; 105])) srv_reactor 9 srv_world 5 srv_event [104; 105]);
    first [done|exact srv_conn].
Defined.

(** Keepalive, as the code does it: when the timer of a silent connection fires, the
    handler also takes the reading branch, since [NGX_EVENT_READING] is still set; the
    failed read closes the descriptor at the first expiry, however recently the
    connection was active and not after [KEEPALIVE_INTVAL_PROBES] intervals, and the closed
    descriptor is registered and its timer armed again. *)
Theorem silent_connection_closed_at_first_expiry base K r raddr w x l free f e fuel :
  raddr ≠ NULL → timers_inv base w (x :: l) free → timer_window base (ngx_current_msec w) →
  timer_rank base (ngx_current_msec w) + KEEPALIVE_INTVAL_MSEC < 2 ^ 63 →
  due base (ngx_current_msec w) x = true → eid x = ev_of r f → events w !! ev_of r f = Some e →
  conn raddr f e → INT_MIN ≤ timedout e < INT_MAX → what e = NGX_EVENT_READING → status e = 1 →
  (∀ log, k_recv K log f = None) →
  ∃ w', ngx_event_expire_timers (S fuel) (server_call K r raddr) w =
      ngx_event_expire_timers fuel (server_call K r raddr) w' ∧
    log w' = log w ++ [SysHandler CLIENT_HANDLER (ev_of r f); SysRecv f; SysEpollDel f; SysClose f] ++
      due_close (ngx_current_msec w) e ++ [SysEpollAdd f EPOLLIN] ∧
    ∃ d free', timers_inv base w'
      (place timer_less (mk_elt (ev_of r f) (u64 (ngx_current_msec w + KEEPALIVE_INTVAL_MSEC)) d) l) free'.
Proof.
  intros Hra Hinv Hwin Hnext Hdue Hx He Hc Hcnt Hw Hs Hr.
  eapply (expire_handler K r raddr); [done..|]. intros w1 n Hi1 Hn1 Hl1 Hev1.
  assert (events w1 !! ev_of r f = Some (fired e)) as He1 by (rewrite Hev1; apply lookup_insert_eq).
  assert (conn raddr f (fired e)) as Hc1 by (by destruct Hc).
  destruct (recv_cb_closed K r raddr Hra w1 f (fired e) NGX_EVENT_READING) as (len & _ & E); [done|done|auto|].
  change (status (fired e)) with (status e) in E. rewrite Hs in E.
  assert (recv_cb K r raddr w1 f raddr = _) as E'
    by (unfold recv_cb; rewrite reactor_at_Ok, ok_bind by done; exact E).
  rewrite client_handler_parts. erewrite io_part_read;
    [|exact Hc1|exact He1|cbn [fired set_what what]; by rewrite Hw|exact E'|apply lookup_insert_eq
     |cbn -[Z.lor]; by rewrite Hw].
  rewrite ok_bind. set (w2 := mk_world _ _ _ _ _).
  assert (quiet r raddr f w1 w2) as Hq by (apply quiet_update with (fired e); [done| |done|done]; by intros []).
  destruct (timeout_part_rearm K r raddr Hra base (ngx_current_msec w)) with
    (w := w2) (f := f) (e := set_status 0 (fired e)) (l := l) (free := (ev_of r f, n) :: free) (ret := len)
    as (w' & d & free' & ret & -> & Hi & _ & _ & Hl).
  { unfold timer_window. fold (timer_rank base (u64 (ngx_current_msec w + KEEPALIVE_INTVAL_MSEC))).
    rewrite rank_add; unfold KEEPALIVE_INTVAL_MSEC in *; lia. }
  { by apply (inv_quiet r raddr base w1 w2 f (fired e)). }
  { done. } { by left. } { apply lookup_insert_eq. } { by destruct Hc1. }
  { cbn -[Z.lor]. by rewrite Hw. }
  exists ret, w'. split; [done|]. split; [|by eauto].
  rewrite Hl. unfold w2. w_cbn. rewrite Hl1, <- !app_assoc. done.
Qed.

Lemma silent_connection_closed_at_first_expiry_witness :
  ∃ w', ngx_event_expire_timers 2 (server_call (srv_kernel None) srv_reactor 9) srv_world =
      ngx_event_expire_timers 1 (server_call (srv_kernel None) srv_reactor 9) w' ∧
    log w' = [SysHandler CLIENT_HANDLER 105; SysRecv 5; SysEpollDel 5; SysClose 5; SysEpollAdd 5 EPOLLIN] ∧
    ∃ d free', timers_inv 0 w' [mk_elt 105 11000 d] free'.
Proof.
  apply (silent_connection_closed_at_first_expiry 0 (srv_kernel None) srv_reactor 9 srv_world
    (mk_elt 105 6000 0) [] [] 5 srv_event 1); first [done|exact srv_inv|exact srv_conn].
Defined.

(** When the timer of a connection fires with data waiting, the reading branch consumes
    the data and clears the timeout bit before it is tested: the keepalive timer is not armed
    again and the connection is no longer supervised. *)
Theorem data_at_expiry_disarms_keepalive base K r raddr w x l free f e bs fuel :
  raddr ≠ NULL → timers_inv base w (x :: l) free → timer_window base (ngx_current_msec w) →
  due base (ngx_current_msec w) x = true → eid x = ev_of r f → events w !! ev_of r f = Some e →
  conn raddr f e → INT_MIN ≤ timedout e < INT_MAX → what e = NGX_EVENT_READING → status e = 1 →
  (∀ log, k_recv K log f = Some bs) → 0 < Z.of_nat (length bs) < BUFFER_LENGTH →
  ∃ w', ngx_event_expire_timers (S fuel) (server_call K r raddr) w =
      ngx_event_expire_timers fuel (server_call K r raddr) w' ∧
    log w' = log w ++ [SysHandler CLIENT_HANDLER (ev_of r f); SysRecv f; SysEpollDel f; SysEpollAdd f EPOLLIN] ∧
    ∃ e' free', timers_inv base w' l free' ∧ ev_of r f ∈ free'.*1 ∧
      events w' !! ev_of r f = Some e' ∧ timer_set e' = 0 ∧ what e' = NGX_EVENT_READING.
Proof.
  intros Hra Hinv Hwin Hdue Hx He Hc Hcnt Hw Hs Hr Hlen.
  eapply (expire_handler K r raddr); [done..|]. intros w1 n Hi1 Hn1 Hl1 Hev1.
  assert (events w1 !! ev_of r f = Some (fired e)) as He1 by (rewrite Hev1; apply lookup_insert_eq).
  assert (conn raddr f (fired e)) as Hc1 by (by destruct Hc).
  pose proof (recv_cb_data K r raddr Hra w1 f (fired e) NGX_EVENT_READING bs Hc1 He1 eq_refl (Hr _) Hlen) as E.
  change (status (fired e)) with (status e) in E. rewrite Hs in E.
  assert (recv_cb K r raddr w1 f raddr = _) as E'
    by (unfold recv_cb; rewrite reactor_at_Ok, ok_bind by done; exact E).
  rewrite client_handler_parts. erewrite io_part_read;
    [|exact Hc1|exact He1|cbn [fired set_what what]; by rewrite Hw|exact E'|apply lookup_insert_eq|done].
  rewrite ok_bind. unfold timeout_part. erewrite on_bit_run by (apply lookup_insert_eq).
  cbn [what]. change (has NGX_EVENT_READING NGX_EVENT_TIMEOUT) with false. cbv iota.
  eexists _, _. split; [reflexivity|]. split; [cbn [log]; rewrite Hl1, <- app_assoc; done|].
  eexists _, ((ev_of r f, n) :: free). split; [|split; [by left|split; [apply lookup_insert_eq|done]]].
  eapply (inv_quiet r raddr base w1); [done| |done|done]. apply (quiet_update r raddr) with (fired e); [done| |done|done].
  intros [Hfd Hf Ha Hh Hb Hl]. split; try done; cbn [buffer length_]; [|lia]. rewrite length_received; lia.
Qed.

Lemma data_at_expiry_disarms_keepalive_witness :
  ∃ w', ngx_event_expire_timers 2 (server_call (srv_kernel (Some [104])) srv_reactor 9) srv_world =
      ngx_event_expire_timers 1 (server_call (srv_kernel (Some [104])) srv_reactor 9) w' ∧
    log w' = [SysHandler CLIENT_HANDLER 105; SysRecv 5; SysEpollDel 5; SysEpollAdd 5 EPOLLIN] ∧
    ∃ e' free', timers_inv 0 w' [] free' ∧ 105%nat ∈ free'.*1 ∧
      events w' !! 105%nat = Some e' ∧ timer_set e' = 0 ∧ what e' = NGX_EVENT_READING.
Proof.
  apply (data_at_expiry_disarms_keepalive 0 (srv_kernel (Some [104])) srv_reactor 9 srv_world
    (mk_elt 105 6000 0) [] [] 5 srv_event [104] 1); first [done|exact srv_inv|exact srv_conn].
Defined.

(** A read that fills the buffer: the terminating NUL goes to [buffer[BUFFER_LENGTH]],
    one past the end of the array. *)
Theorem full_read_overflows K r raddr w f e bs : raddr ≠ NULL → conn raddr f e →
  events w !! ev_of r f = Some e → what e = NGX_EVENT_READING →
  k_recv K (log w) f = Some bs → BUFFER_LENGTH ≤ Z.of_nat (length bs) →
  server_call K r raddr (handler e) w (ev_of r f) = Ub.
Proof.
  intros Hra Hc He Hw Hr Hlen. rewrite (conn_handler _ _ _ Hc), server_call_client, client_handler_parts.
  unfold io_part. rewrite (on_bit_run _ _ _ w 0 e), Hw by done. cbn [has Z.land Z.eqb negb NGX_EVENT_READING Pos.land].
  unfold ev_get. rewrite He. w_cbn. rewrite ok_bind, (conn_fd _ _ _ Hc), (conn_arg _ _ _ Hc).
  rewrite (recv_cb_full K r raddr Hra w f e) by (done || by exists bs). done.
Qed.

Lemma full_read_overflows_witness :
  server_call (srv_kernel (Some (replicate 4096 65))) srv_reactor 9 CLIENT_HANDLER srv_world 105 = Ub.
Proof.
  by apply (full_read_overflows (srv_kernel (Some (replicate 4096 65))) srv_reactor 9 srv_world 5 srv_event
    (replicate 4096 65)); first [exact srv_conn|done].
Defined.

(** ** Accepting *)
Definition array_ok r w : Prop := ∀ i, fd_ok i → is_Some (events w !! ev_of r i).

(** The scan stops at the first free slot, or at [MAX_EPOLL_EVENTS]. *)
Lemma free_slot_spec r w n : ∀ i, array_ok r w → 0 ≤ i → i + Z.of_nat n ≤ MAX_EPOLL_EVENTS →
  ∃ j, free_slot n r w i = Ok j ∧ i ≤ j ≤ i + Z.of_nat n ∧
    (j < i + Z.of_nat n ↔ ∃ k e, i ≤ k < i + Z.of_nat n ∧ events w !! ev_of r k = Some e ∧ status e = 0).
Proof.
  induction n as [|n IH]; intros i Harr Hi Hn.
  - exists i. split; [done|]. split; [lia|]. split; [lia|]. intros (k & e & ? & _). lia.
  - cbn [free_slot]. rewrite ev_at_Ok, ok_bind by (unfold fd_ok; lia).
    destruct (Harr i) as [e He]; [unfold fd_ok; lia|]. unfold ev_get. rewrite He. w_cbn. rewrite ok_bind.
    destruct (Z.eqb_spec (status e) 0) as [Hs|Hs].
    + exists i. split; [done|]. split; [lia|]. split; [|lia]. intros _. exists i, e. split; [lia|done].
    + destruct (IH (i + 1)) as (j & -> & Hj & Hiff); [done|lia|lia|]. exists j. split; [done|]. split; [lia|].
      split.
      * intros Hlt. destruct Hiff as [Hiff _]. destruct Hiff as (k & e' & ? & ? & ?); [lia|].
        exists k, e'. split; [lia|done].
      * intros (k & e' & Hk & Hk' & Hks). destruct (decide (k = i)) as [->|]; [congruence|].
        assert (j < i + 1 + Z.of_nat n); [|lia]. apply Hiff. exists k, e'. split; [lia|done].
Qed.

(** Accepting a connection: with a free slot in the table, a descriptor within it and no
    timer left on its event, the listener's handler registers the new descriptor for reading,
    arms its keepalive timer [KEEPALIVE_INTVAL_MSEC] from now and leaves every other event
    alone. *)
Theorem accept_registers_connection base K r raddr w l free lf le cf ce slot se :
  raddr ≠ NULL → timers_inv base w l free → array_ok r w →
  events w !! ev_of r lf = Some le → fd le = lf → arg le = raddr → what le = NGX_EVENT_READING →
  fd_ok slot → events w !! ev_of r slot = Some se → status se = 0 →
  (∀ log, k_accept K log lf = cf) → (∀ log, 0 ≤ k_fcntl K log cf) → fd_ok cf →
  ev_of r cf ∈ free.*1 → events w !! ev_of r cf = Some ce →
  timer_window base (u64 (ngx_current_msec w + KEEPALIVE_INTVAL_MSEC)) →
  ∃ w' d free', server_call K r raddr REACTOR_HANDLER w (ev_of r lf) = Ok w' ∧
    timers_inv base w' (place timer_less
      (mk_elt (ev_of r cf) (u64 (ngx_current_msec w + KEEPALIVE_INTVAL_MSEC)) d) l) free' ∧
    events w' = <[ev_of r cf := mk_event cf raddr (Z.lor NGX_EVENT_READING NGX_EVENT_TIMEOUT) 1 (buffer ce)
      (length_ ce) (ngx_current_msec w) 1 (timedout ce) CLIENT_HANDLER]> (events w) ∧
    log w' = log w ++ [SysAccept lf; SysFcntl cf;
      if status ce =? 1 then SysEpollMod cf EPOLLIN else SysEpollAdd cf EPOLLIN].
Proof.
  intros Hra Hinv Harr Hle Hfd Harg Hw Hslot Hse Hst Hacc Hfc Hcf Hfree Hce Hwin.
  unfold server_call. cbn [Nat.eqb CLIENT_HANDLER REACTOR_HANDLER]. unfold ngx_reactor_handler.
  rewrite (on_bit_run _ _ _ w 0 le), Hw by done. cbn [has Z.land Z.eqb negb NGX_EVENT_READING Pos.land].
  unfold ev_get. rewrite Hle. w_cbn. rewrite ok_bind, Hfd, Harg. unfold accept_cb.
  rewrite (proj2 (Nat.eqb_neq raddr NULL) Hra), reactor_at_Ok, ok_bind by done. rewrite Hacc.
  destruct (Z.eqb_spec cf (-1)) as [Hm|_]; [unfold fd_ok in Hcf; lia|].
  destruct (free_slot_spec r (with_log w (SysAccept lf)) (Z.to_nat MAX_EPOLL_EVENTS) 0) as (j & -> & Hj & Hiff);
    [done|done|done|]. rewrite Z2Nat.id in * by done.
  assert (j < MAX_EPOLL_EVENTS) as Hlt by (apply Hiff; exists slot, se; unfold fd_ok in Hslot; split; [lia|done]).
  rewrite ok_bind. destruct (Z.eqb_spec j MAX_EPOLL_EVENTS); [lia|].
  match goal with |- context [k_fcntl K ?x cf] => pose proof (Hfc x); destruct (Z.ltb_spec (k_fcntl K x cf) 0); [lia|] end.
  rewrite (ev_at_Ok r cf Hcf), ok_bind. erewrite event_set_run by exact Hce. rewrite ok_bind.
  set (ce' := mk_event cf raddr 0 _ _ _ _ _ _ _). set (w1 := ev_set _ _ ce').
  assert (timers_inv base w1 l free) as Hinv1
    by (apply inv_ev_set with ce; [by do 2 apply inv_with_log|done|done]).
  destruct (event_add_rearm K r base (ngx_current_msec w) Hwin w1 cf ce' l free) as
    (w' & d & free' & ret & -> & Hi & _ & Hev & Hl); [done|done|done|apply lookup_insert_eq|].
  rewrite !ok_bind. destruct (Harr j) as [ej Hej]; [unfold fd_ok; lia|].
  rewrite ev_at_Ok, ok_bind by (unfold fd_ok; lia).
  assert (is_Some (events w' !! ev_of r j)) as [x Hx].
  { rewrite Hev. unfold w1. w_cbn. rewrite !lookup_insert. by repeat case_decide. }
  unfold ev_get. rewrite Hx. w_cbn. rewrite !ok_bind. exists w', d, free'.
  split; [done|]. split; [done|]. split.
  - rewrite Hev. unfold w1. w_cbn. by rewrite insert_insert_eq.
  - rewrite Hl. unfold w1. w_cbn. by rewrite <- !app_assoc.
Qed.

(** A server with a listener on descriptor 5 and an otherwise empty table whose slots have
    the status [st]. *)
Definition blank_event (st : Z) : ngx_event_t := mk_event 0 NULL 0 st (replicate 4096 0) 0 0 0 0 0.
Definition listen_event : ngx_event_t :=
  mk_event 5 9 NGX_EVENT_READING 1 (replicate 4096 0) 0 0 0 0 REACTOR_HANDLER.
Definition blank_array (st : Z) : gmap nat ngx_event_t :=
  list_to_map ((λ i, (i, blank_event st)) <$> seq 100 1024).
Definition listen_world (st : Z) : world :=
  mk_world (heap_of [(1%nat, mk_rbnode 0 NULL NULL NULL 0 0); (106%nat, fresh_node 0)]) init_tree 6000
    (<[105%nat := listen_event]> (blank_array st)) [].

Lemma blank_array_lookup st p e : blank_array st !! p = Some e ↔ (100 ≤ p < 1124)%nat ∧ e = blank_event st.
Proof.
  unfold blank_array. rewrite <- elem_of_list_to_map.
  2: { rewrite <- list_fmap_compose. change (fst ∘ _) with (@id nat). rewrite list_fmap_id. apply NoDup_seq. }
  rewrite list_elem_of_fmap. setoid_rewrite elem_of_seq. split.
  - intros (i & [= -> ->] & Hi). split; [lia|done].
  - intros [Hp ->]. exists p. split; [done|lia].
Qed.

Lemma listen_array st : array_ok srv_reactor (listen_world st).
Proof.
  intros i Hi. unfold ev_of, fd_ok, MAX_EPOLL_EVENTS in *. cbn [rev srv_reactor events listen_world].
  rewrite lookup_insert. case_decide; [by eexists|]. exists (blank_event st). apply blank_array_lookup.
  split; [lia|done].
Qed.

Lemma listen_inv : timers_inv 0 (listen_world 0) [] [(106%nat, fresh_node 0)].
Proof.
  split.
  - split; [|split; [done|split; constructor]].
    exists Leaf, (mk_rbnode 0 NULL NULL NULL 0 0), NULL, 0%nat.
    split; [done|]. split; [|split; [eauto using is_rb|done]]. split; [|done].
    apply heap_of_own; [|repeat constructor; done]. vm_compute. repeat constructor; set_solver.
  - done.
  - intros p e. cbn [events listen_world]. rewrite lookup_insert_Some, blank_array_lookup.
    intros [(<- & <-)|(_ & _ & ->)]; simpl; set_solver.
  - intros p Hp. assert (p = 106)%nat as -> by (cbn -[elem_of] in Hp; set_solver).
    exists (blank_event 0). cbn [events listen_world]. rewrite lookup_insert_ne by done.
    apply blank_array_lookup. split; [lia|done].
Qed.

Lemma listen_lookup st : events (listen_world st) !! ev_of srv_reactor 5 = Some listen_event.
Proof. unfold listen_world. cbn [events]. apply lookup_insert_eq. Qed.

Lemma accept_registers_connection_witness :
  ∃ w' d free', server_call (srv_kernel None) srv_reactor 9 REACTOR_HANDLER (listen_world 0) 105 = Ok w' ∧
    timers_inv 0 w' [mk_elt 106 11000 d] free' ∧
    events w' = <[106%nat := mk_event 6 9 65 1 (replicate 4096 0) 0 6000 1 0 CLIENT_HANDLER]>
      (events (listen_world 0)) ∧
    log w' = [SysAccept 5; SysFcntl 6; SysEpollAdd 6 EPOLLIN].
Proof.
  assert (∀ p, (100 ≤ p < 1124)%nat → p ≠ 105%nat → events (listen_world 0) !! p = Some (blank_event 0)) as H.
  { intros p Hp Hne. unfold listen_world. cbn [events]. rewrite lookup_insert_ne by done.
    by apply blank_array_lookup. }
  refine (accept_registers_connection 0 (srv_kernel None) srv_reactor 9 (listen_world 0) []
    [(106%nat, fresh_node 0)] 5 listen_event 6 (blank_event 0) 0 (blank_event 0)
    _ listen_inv (listen_array 0) (listen_lookup 0) eq_refl eq_refl eq_refl _ _ eq_refl
    (λ _, eq_refl) _ _ _ _ _).
  - done.
  - unfold fd_ok, MAX_EPOLL_EVENTS. lia.
  - apply (H 100%nat); lia.
  - done.
  - unfold fd_ok, MAX_EPOLL_EVENTS. lia.
  - left.
  - apply (H 106%nat); lia.
  - done.
Defined.

(** The limits of the event table: when every slot is busy the handler goes on to print
    [ev[MAX_EPOLL_EVENTS].last_active], and when a slot is free but the new descriptor is
    [MAX_EPOLL_EVENTS] or more it indexes the table with that descriptor; both are accesses
    outside the array. *)
Theorem accept_beyond_table K r raddr w lf le cf : raddr ≠ NULL → array_ok r w →
  events w !! ev_of r lf = Some le → fd le = lf → arg le = raddr → what le = NGX_EVENT_READING →
  (∀ log, k_accept K log lf = cf) → (∀ log, 0 ≤ k_fcntl K log cf) → 0 ≤ cf →
  (∀ i e, fd_ok i → events w !! ev_of r i = Some e → status e ≠ 0) ∨ MAX_EPOLL_EVENTS ≤ cf →
  server_call K r raddr REACTOR_HANDLER w (ev_of r lf) = Ub.
Proof.
  intros Hra Harr Hle Hfd Harg Hw Hacc Hfc Hcf Hcase.
  unfold server_call. cbn [Nat.eqb CLIENT_HANDLER REACTOR_HANDLER]. unfold ngx_reactor_handler.
  rewrite (on_bit_run _ _ _ w 0 le), Hw by done. cbn [has Z.land Z.eqb negb NGX_EVENT_READING Pos.land].
  unfold ev_get. rewrite Hle. w_cbn. rewrite ok_bind, Hfd, Harg. unfold accept_cb.
  rewrite (proj2 (Nat.eqb_neq raddr NULL) Hra), reactor_at_Ok, ok_bind by done. rewrite Hacc.
  destruct (Z.eqb_spec cf (-1)) as [Hm|_]; [lia|].
  destruct (free_slot_spec r (with_log w (SysAccept lf)) (Z.to_nat MAX_EPOLL_EVENTS) 0) as (j & -> & Hj & Hiff);
    [done|done|done|]. rewrite Z2Nat.id in * by done. rewrite ok_bind.
  destruct (Z.eqb_spec j MAX_EPOLL_EVENTS) as [->|Hne].
  - rewrite ok_bind. unfold ev_at. by rewrite bool_decide_eq_false_2 by lia.
  - destruct Hcase as [Hbusy|Hbig].
    + assert (j < 0 + MAX_EPOLL_EVENTS) as Hlt by lia. apply Hiff in Hlt as (k & e & Hk & He & Hs).
      exfalso. by apply (Hbusy k e).
    + match goal with |- context [k_fcntl K ?x cf] =>
        pose proof (Hfc x); destruct (Z.ltb_spec (k_fcntl K x cf) 0); [lia|] end.
      assert (ev_at r cf = Ub) as ->; [|done]. unfold ev_at. by rewrite bool_decide_eq_false_2 by lia.
Qed.

Lemma accept_beyond_table_witness :
  server_call (srv_kernel None) srv_reactor 9 REACTOR_HANDLER (listen_world 1) 105 = Ub.
Proof.
  refine (accept_beyond_table (srv_kernel None) srv_reactor 9 (listen_world 1) 5 listen_event 6
    _ (listen_array 1) (listen_lookup 1) eq_refl eq_refl eq_refl (λ _, eq_refl) _ _ _).
  - done.
  - done.
  - lia.
  - left. intros i e _. unfold listen_world. cbn [events].
    rewrite lookup_insert_Some, blank_array_lookup. by intros [(_ & <-)|(_ & _ & ->)].
Defined.

(** ** The client *)
Section client.
Context (K : kernel) (r : ngx_reactor_t) (raddr : ptr).

(** Re-arming a timer whose node is in no tree. *)
Lemma event_add_detached w ev e k n what_ : events w !! ev = Some e → timer_set e ≠ 0 →
  has what_ NGX_EVENT_TIMEOUT = true →
  nodes w !! NULL = None → nodes w !! ev = Some (zero_node k n) → ngx_event_timer_rbtree w = init_tree →
  NGX_TIMER_LAZY_DELAY ≤ Z.abs (s64 (u64 (ngx_current_msec w + KEEPALIVE_INTVAL_MSEC) - k)) < 2 ^ 63 →
  ngx_event_add K w what_ KEEPALIVE_INTVAL_MSEC ev = Ub.
Proof.
  intros He Hts Hto Hnull Hn Htr Hd. unfold ngx_event_add, ev_get. rewrite He. w_cbn. rewrite ok_bind, Hto.
  assert (ngx_event_add_timer (ev_set w ev (set_what (Z.lor (what e) what_) e)) ev KEEPALIVE_INTVAL_MSEC = Ub)
    as ->; [|done].
  unfold ngx_event_add_timer, ev_get. w_cbn. rewrite lookup_insert_eq. w_cbn. rewrite ok_bind. w_cbn.
  destruct (Z.eqb_spec (timer_set e) 0); [done|]. rewrite (ld_eq key _ _ _ Hn), ok_bind.
  change (key (zero_node k n)) with k. set (d := s64 _) in *.
  assert (ngx_abs d = Ok (Z.abs d)) as ->.
  { unfold ngx_abs. destruct (Z.leb_spec 0 d); [by rewrite Z.abs_eq|].
    destruct (Z.eqb_spec d (- 2 ^ 63)); [lia|]. by rewrite Z.abs_neq by lia. }
  rewrite ok_bind. destruct (Z.ltb_spec (Z.abs d) NGX_TIMER_LAZY_DELAY); [lia|].
  by rewrite (unlink_detached _ ev k n).
Qed.

(** The world of the client when it enters the loop. *)
Definition client_ready (w : world) f n e sn : world :=
  let k := u64 (ngx_current_msec w + KEEPALIVE_INTVAL_MSEC) in
  mk_world (<[ngx_event_timer_sentinel := set_color 0 sn]> (<[ev_of r f := zero_node k n]> (nodes w)))
    init_tree (ngx_current_msec w)
    (<[ev_of r f := mk_event f raddr (Z.lor NGX_EVENT_READING NGX_EVENT_TIMEOUT) 1 (buffer e) (length_ e)
       (ngx_current_msec w) 1 (timedout e) CLIENT_HANDLER]> (events w))
    (log w ++ [SysEpollAdd f EPOLLIN]).

Lemma client_start w f n e sn rounds fuel : fd_ok f → ngx_event_timer_rbtree w = zero_tree →
  nodes w !! ngx_event_timer_sentinel = Some sn → nodes w !! ev_of r f = Some n →
  ev_of r f ≠ ngx_event_timer_sentinel → events w !! ev_of r f = Some e → timer_set e = 0 → status e = 0 →
  client_main K r raddr rounds fuel w f =
    loop_rounds K (client_call K r raddr) rounds fuel (client_ready w f n e sn).
Proof.
  intros Hf Htr Hs Hn Hne He Hts Hst. unfold client_main. rewrite ev_at_Ok, ok_bind by done.
  rewrite (event_set_run _ _ e), ok_bind by done. set (e1 := mk_event f raddr 0 _ _ _ _ _ _ _).
  unfold ngx_event_add, ev_get. w_cbn. rewrite lookup_insert_eq. w_cbn. rewrite ok_bind.
  change (has (Z.lor NGX_EVENT_READING NGX_EVENT_TIMEOUT) NGX_EVENT_TIMEOUT) with true. cbv iota.
  set (e2 := set_what _ e1). set (w2 := ev_set _ _ e2).
  assert (ngx_event_add_timer w2 (ev_of r f) KEEPALIVE_INTVAL_MSEC =
    Ok (zero_armed w2 (ev_of r f) n e2 (u64 (ngx_current_msec w2 + KEEPALIVE_INTVAL_MSEC)))) as E
    by (apply add_zero_tree; [done|done|apply lookup_insert_eq|done]).
  change (if true then ngx_event_add_timer w2 (ev_of r f) KEEPALIVE_INTVAL_MSEC else Ok w2) with
    (ngx_event_add_timer w2 (ev_of r f) KEEPALIVE_INTVAL_MSEC).
  rewrite E, ok_bind. unfold zero_armed. w_cbn. rewrite lookup_insert_eq. w_cbn. rewrite ok_bind. w_cbn.
  change (status e2) with (status e). rewrite Hst. cbn [Z.eqb].
  rewrite ok_bind. unfold ngx_reactor_loop.
  rewrite (timer_init_run _ sn) by (unfold w2; w_cbn; by rewrite lookup_insert_ne).
  rewrite ok_bind. unfold client_ready, with_tree, with_log, ev_set, w2. w_cbn.
  by rewrite !insert_insert_eq.
Qed.
End client.

(** The first data of the client: started with a zeroed event table, as long as its
    first poll reports data that arrives [NGX_TIMER_LAZY_DELAY] ms or more after the start,
    the handler re-arms the timer that [ngx_event_timer_init] has lost and removes it from a tree that
    does not hold it: the client dereferences a null pointer. *)
Theorem client_first_data_crashes K r raddr w f n e sn bs sec usec fuel : raddr ≠ NULL → fd_ok f →
  ngx_event_timer_rbtree w = zero_tree → nodes w !! NULL = None →
  nodes w !! ngx_event_timer_sentinel = Some sn → nodes w !! ev_of r f = Some n →
  ev_of r f ≠ ngx_event_timer_sentinel → events w !! ev_of r f = Some e →
  e = mk_event 0 NULL 0 0 (replicate (Z.to_nat BUFFER_LENGTH) 0) 0 0 0 0 0 →
  (∀ log t, k_epoll_wait K log t = Some [(ev_of r f, EPOLLIN)]) → (∀ log, k_time K log = (sec, usec)) →
  (∀ log, k_recv K log f = Some bs) → 0 < Z.of_nat (length bs) < BUFFER_LENGTH →
  let start := u64 (ngx_current_msec w + KEEPALIVE_INTVAL_MSEC) in
  let later := u64 (ngx_current_msec (ngx_time_update w sec usec) + KEEPALIVE_INTVAL_MSEC) in
  NGX_TIMER_LAZY_DELAY ≤ Z.abs (s64 (later - start)) < 2 ^ 63 →
  client_main K r raddr 1 fuel w f = Ub.
Proof.
  intros Hra Hf Htr Hnull Hs Hn Hne He Hzero Hpoll Htime Hr Hlen start later Hd.
  rewrite (client_start K r raddr w f n e sn) by (by subst e). subst e.
  cbn [loop_rounds]. unfold loop_round. set (w1 := client_ready _ _ _ _ _ _ _).
  assert (ngx_event_find_timer w1 = Ok NGX_TIMER_INFINITE) as -> by done.
  rewrite ok_bind, Hpoll, Htime. cbn [dispatch]. set (w2 := ngx_time_update _ sec usec).
  set (e1 := mk_event f raddr (Z.lor NGX_EVENT_READING NGX_EVENT_TIMEOUT) 1 (replicate (Z.to_nat BUFFER_LENGTH) 0) 0
    (ngx_current_msec w) 1 0 CLIENT_HANDLER).
  assert (events w2 !! ev_of r f = Some e1) as He2 by apply lookup_insert_eq.
  unfold ev_get. rewrite He2. w_cbn. rewrite ok_bind.
  change (has EPOLLIN EPOLLIN && has (what e1) NGX_EVENT_READING) with true. cbv iota.
  change (set_what (Z.lor (what e1) NGX_EVENT_READING) e1) with e1. w_cbn.
  rewrite lookup_insert_eq. w_cbn. rewrite ok_bind.
  change (has EPOLLIN EPOLLOUT) with false. cbn [andb]. unfold run_handler, ev_get. w_cbn.
  rewrite lookup_insert_eq. w_cbn. rewrite ok_bind. unfold client_call. cbn [handler e1 Nat.eqb CLIENT_HANDLER].
  set (w3 := with_log (ev_set w2 (ev_of r f) e1) _).
  assert (events w3 !! ev_of r f = Some e1) as He3 by apply lookup_insert_eq.
  assert (conn raddr f e1) as Hc by (split; try done; cbn [buffer e1]; by rewrite length_replicate).
  unfold c_handler. rewrite (on_bit_run _ _ _ w3 0 e1) by done.
  change (has (what e1) NGX_EVENT_READING) with true. cbv iota beta.
  unfold ev_get. rewrite He3. w_cbn. rewrite ok_bind. change (arg e1) with raddr. change (fd e1) with f.
  unfold c_recv_cb. rewrite reactor_at_Ok, ok_bind by done.
  rewrite (recv_cb_to_add K r raddr Hra w3 f e1 CLIENT_HANDLER _ bs) by done.
  erewrite event_add_detached; [done|apply lookup_insert_eq|done|done| | |done|exact Hd].
  - cbn -[lookup insert]. rewrite !lookup_insert_ne by (first [done|congruence]). done.
  - cbn -[lookup insert]. rewrite lookup_insert_ne by done. apply lookup_insert_eq.
Qed.

Lemma client_first_data_crashes_witness :
  let zero_event := mk_event 0 NULL 0 0 (replicate (Z.to_nat BUFFER_LENGTH) 0) 0 0 0 0 0 in
  let w := mk_world {[1%nat := fresh_node 0; 105%nat := fresh_node 0]} zero_tree 1000
             {[105%nat := zero_event]} [] in
  client_main (srv_kernel (Some [104])) srv_reactor 9 1 0 w 5 = Ub.
Proof.
  intros zero_event w.
  by apply (client_first_data_crashes (srv_kernel (Some [104])) srv_reactor 9 w 5 (fresh_node 0) zero_event
    (fresh_node 0) [104] 6 0).
Defined.
