(* ===== verification/NgxCodec.v ===== *)
(** * NgxCodec: ngx_filed.c and ngx_binary_protocol.c of src/heartbeat

    The fields of the binary messages.  The machine is little-endian with 64-bit longs; the
    memory form of an integer of [n] bytes is [le_bytes n] (Prelude.v), and [htonl] reverses four
    bytes.  A buffer is a block of bytes and a field a position in it. *)

From S2P Require Import Prelude.
#[local] Open Scope Z_scope.

(** ** Byte order *)

(** [htonl], [ntohl], [htons] and [ntohs] on a little-endian machine. *)
Definition htonl (z : Z) : Z := le_val (rev (le_bytes 4 z)).
Definition htons (z : Z) : Z := le_val (rev (le_bytes 2 z)).

(** The memory form of a byte-swapped integer is its big-endian form. *)
Definition be_bytes (n : nat) (z : Z) : list Z := rev (le_bytes n z).

Lemma be_bytes_bytes n z : Forall is_byte (be_bytes n z).
Proof. apply Forall_rev, le_bytes_bytes. Qed.

Lemma swap_bytes n z : le_bytes n (le_val (rev (le_bytes n z))) = be_bytes n z.
Proof.
  rewrite <- (length_le_bytes n z) at 1. rewrite <- length_rev. apply le_bytes_val, be_bytes_bytes.
Qed.

Lemma swap_swap n z : le_val (rev (le_bytes n (le_val (rev (le_bytes n z))))) = z mod 256 ^ Z.of_nat n.
Proof. rewrite swap_bytes. unfold be_bytes. rewrite rev_involutive. apply le_val_bytes. Qed.

Lemma le_val_range bs : Forall is_byte bs → 0 ≤ le_val bs < 256 ^ Z.of_nat (length bs).
Proof.
  induction 1 as [|b bs Hb _ IH]; [done|]. cbn [length le_val]. unfold is_byte in Hb.
  rewrite Nat2Z.inj_succ, Z.pow_succ_r by lia. nia.
Qed.

(** ** ngx_filed.c *)
Definition ngx_get_filed_int (buffer : list Z) (off : Z) : result Z :=
  bs ← memread buffer off 8;
  Ok (htonl (u32 (le_val bs))).

Definition ngx_set_filed_int (buffer : list Z) (off filed : Z) : result (list Z) :=
  let filed := htonl (u32 filed) in
  memwrite buffer off (le_bytes 8 filed).

Definition ngx_get_filed_short (buffer : list Z) (off : Z) : result Z :=
  bs ← memread buffer off 2;
  Ok (htons (le_val bs)).

Definition ngx_set_filed_short (buffer : list Z) (off filed : Z) : result (list Z) :=
  let filed := htons (u16 filed) in
  memwrite buffer off (le_bytes 2 filed).

(** The branch for little-endian machines. *)
Definition ngx_get_filed_long (buffer : list Z) (off : Z) : result Z :=
  bs ← memread buffer off 8;
  let filed := le_val bs in
  Ok (Z.lor (htonl (u32 (Z.land (Z.shiftr filed 32) 0xffffffff)))
            (u64 (Z.shiftl (htonl (u32 (Z.land filed 0xffffffff))) 32))).

Definition ngx_set_filed_long (buffer : list Z) (off filed : Z) : result (list Z) :=
  let lo := u32 (Z.shiftr (u64 (Z.shiftl filed 32)) 32) in
  let filed := Z.lor (u64 (Z.shiftl (htonl lo) 32)) (htonl (u32 (Z.shiftr filed 32))) in
  memwrite buffer off (le_bytes 8 filed).

(** ** Halves of a 64-bit integer *)
Lemma le_val_app a b : le_val (a ++ b) = le_val a + 256 ^ Z.of_nat (length a) * le_val b.
Proof.
  induction a as [|x a IH]; [simpl; lia|]. cbn [app length le_val].
  rewrite IH, Nat2Z.inj_succ, Z.pow_succ_r by lia. lia.
Qed.

Lemma htonl_range z : 0 ≤ htonl z < 2 ^ 32.
Proof.
  unfold htonl. pose proof (le_val_range _ (be_bytes_bytes 4 z)) as H.
  unfold be_bytes in H. by rewrite length_rev, length_le_bytes in H.
Qed.

Lemma htonl_val bs : length bs = 4%nat → Forall is_byte bs → htonl (le_val bs) = le_val (rev bs).
Proof. intros Hl Hb. unfold htonl. by rewrite <- Hl, le_bytes_val. Qed.

(** The memory form of a byte-swapped half is the big-endian form of the half. *)
Lemma le_bytes_htonl z : le_bytes 4 (htonl z) = be_bytes 4 z.
Proof. apply swap_bytes. Qed.

Lemma le_bytes_halves hi lo : 0 ≤ lo < 2 ^ 32 →
  le_bytes 8 (hi * 2 ^ 32 + lo) = le_bytes 4 lo ++ le_bytes 4 hi.
Proof.
  intros Hlo. rewrite (le_bytes_app 4 4). change (256 ^ Z.of_nat 4) with (2 ^ 32).
  rewrite <- (le_bytes_mod 4 (hi * 2 ^ 32 + lo) 4), Z.add_comm by lia. change (256 ^ Z.of_nat 4) with (2 ^ 32).
  rewrite Z_mod_plus_full, Z.mod_small by lia. f_equal. f_equal.
  rewrite Z.div_add, Z.div_small by lia. lia.
Qed.

(** [ngx_get_filed_long] reads eight bytes most significant first. *)
Lemma get_long_spec buffer off bs : memread buffer off 8 = Ok bs → length bs = 8%nat →
  Forall is_byte bs → ngx_get_filed_long buffer off = Ok (le_val (rev bs)).
Proof.
  intros Hr Hl Hb. unfold ngx_get_filed_long. rewrite Hr, ok_bind. f_equal.
  rewrite <- (take_drop 4 bs) in Hb |- *. set (b1 := take 4 bs) in *. set (b2 := drop 4 bs) in *.
  assert (length b1 = 4%nat ∧ length b2 = 4%nat) as [H1 H2]
    by (unfold b1, b2; rewrite length_take, length_drop; lia).
  apply Forall_app in Hb as [Hb1 Hb2].
  pose proof (le_val_range _ Hb1) as R1. pose proof (le_val_range _ Hb2) as R2. rewrite H1 in R1. rewrite H2 in R2.
  change (256 ^ Z.of_nat 4) with (2 ^ 32) in *.
  rewrite le_val_app, H1, rev_app_distr, le_val_app, length_rev, H2. change (256 ^ Z.of_nat 4) with (2 ^ 32).
  change 0xffffffff with (Z.ones 32). rewrite !Z.land_ones, Z.shiftr_div_pow2 by lia.
  replace ((le_val b1 + 2 ^ 32 * le_val b2) / 2 ^ 32) with (le_val b2) by (apply Z.div_unique with (le_val b1); lia).
  replace ((le_val b1 + 2 ^ 32 * le_val b2) mod 2 ^ 32) with (le_val b1) by (apply Z.mod_unique with (le_val b2); lia).
  unfold u32, u64. rewrite !Z.mod_mod, (Z.mod_small (le_val b1)), (Z.mod_small (le_val b2)) by lia. rewrite !htonl_val by done.
  pose proof (le_val_range (rev b1) ltac:(by apply Forall_rev)) as R3.
  pose proof (le_val_range (rev b2) ltac:(by apply Forall_rev)) as R4.
  rewrite length_rev, H1 in R3. rewrite length_rev, H2 in R4. change (256 ^ Z.of_nat 4) with (2 ^ 32) in *.
  rewrite Z.shiftl_mul_pow2, Z.mod_small, <- Z.shiftl_mul_pow2 by lia.
  rewrite Z.lor_comm, lor_shift by lia. lia.
Qed.

(** [ngx_set_filed_long] writes the eight bytes most significant first. *)
Lemma set_long_spec buffer off z : 0 ≤ z < 2 ^ 64 →
  ngx_set_filed_long buffer off z = memwrite buffer off (be_bytes 8 z).
Proof.
  intros Hz. unfold ngx_set_filed_long. f_equal.
  assert (u32 (Z.shiftr (u64 (Z.shiftl z 32)) 32) = z mod 2 ^ 32) as ->.
  { unfold u32, u64. rewrite Z.shiftl_mul_pow2, Z.shiftr_div_pow2 by lia.
    change (2 ^ 64) with (2 ^ 32 * 2 ^ 32). rewrite Z.mul_mod_distr_r, Z.div_mul by lia.
    apply Z.mod_mod. lia. }
  unfold u32, u64. rewrite Z.shiftr_div_pow2 by lia.
  pose proof (htonl_range (z mod 2 ^ 32)). pose proof (htonl_range ((z / 2 ^ 32) mod 2 ^ 32)).
  rewrite Z.shiftl_mul_pow2, (Z.mod_small (_ * _)), <- Z.shiftl_mul_pow2, lor_shift, le_bytes_halves by lia.
  rewrite !le_bytes_htonl. unfold be_bytes. rewrite (le_bytes_app 4 4), rev_app_distr.
  change (2 ^ 32) with (256 ^ Z.of_nat 4). by rewrite !le_bytes_mod by lia.
Qed.

(** ** ngx_binary_protocol.c

    Each message with its layout: [uid] takes eight bytes, so [pwd_len] and [status] are at
    8, [pwd] at 9, [mobile] at 1, and the sizes are those of the structures.  [decode]
    allocates a structure, so the bytes it does not set are an argument. *)
Record ngx_login_req_msg_t := mk_login_req { lq_uid : Z; lq_pwd_len : Z; lq_pwd : list Z }.
Record ngx_login_rsp_msg_t := mk_login_rsp { lr_uid : Z; lr_status : Z }.
Record ngx_mobilecode_req_msg_t := mk_mobile_req { mq_len : Z; mq_mobile : list Z }.

Definition ngx_binary_decode_heartbeat (buffer : list Z) : result Z := ngx_get_filed_int buffer 0.

(** The address of the field, not its value, is written. *)
Definition ngx_binary_encode_heartbeat (buffer : list Z) (uid_address : Z) : result (list Z * Z) :=
  b ← ngx_set_filed_int buffer 0 uid_address; Ok (b, 8).

Definition ngx_binary_encode_login_req (buffer : list Z) (msg : ngx_login_req_msg_t) : result (list Z * Z) :=
  b ← ngx_set_filed_int buffer 0 (lq_uid msg);
  b ← b.[8 := u8 (lq_pwd_len msg)];
  b ← memcpy b 9 (lq_pwd msg) 0 (lq_pwd_len msg);
  Ok (b, 40).

Definition ngx_binary_decode_login_rsp (buffer : list Z) : result ngx_login_rsp_msg_t :=
  uid ← ngx_get_filed_int buffer 0;
  status ← buffer.[8];
  Ok (mk_login_rsp uid status).

Definition ngx_binary_encode_login_rsp (buffer : list Z) (msg : ngx_login_rsp_msg_t) : result (list Z * Z) :=
  b ← ngx_set_filed_int buffer 0 (lr_uid msg);
  b ← b.[8 := u8 (lr_status msg)];
  Ok (b, 16).

Definition ngx_binary_decode_mobilecode_req (buffer fresh : list Z) : result ngx_mobilecode_req_msg_t :=
  len ← buffer.[0];
  mobile ← memcpy fresh 0 buffer 1 len;
  Ok (mk_mobile_req len mobile).

Definition ngx_binary_encode_mobilecode_req (buffer : list Z) (msg : ngx_mobilecode_req_msg_t)
  : result (list Z * Z) :=
  b ← buffer.[0 := u8 (mq_len msg)];
  b ← memcpy b 1 (mq_mobile msg) 0 (mq_len msg);
  Ok (b, 16).

(** ** Properties *)

(** A long field travels in network byte order and comes back: within the buffer,
    [ngx_set_filed_long] stores the eight bytes of [z] most significant first,
    changing nothing else, and [ngx_get_filed_long] reads [z] back. *)
Theorem filed_long_roundtrip buffer off z : 0 ≤ z < 2 ^ 64 → 0 ≤ off →
  off + 8 ≤ Z.of_nat (length buffer) →
  ∃ b, ngx_set_filed_long buffer off z = Ok b ∧ length b = length buffer ∧
    memread b off 8 = Ok (be_bytes 8 z) ∧ ngx_get_filed_long b off = Ok z.
Proof.
  intros Hz Hoff Hlen. rewrite set_long_spec by done.
  destruct (memwrite buffer off (be_bytes 8 z)) as [b| |] eqn:Hw;
    [|rewrite memwrite_Ok in Hw; [done|lia|unfold be_bytes; rewrite length_rev, length_le_bytes; lia]..].
  pose proof (memread_memwrite _ _ _ _ Hw) as [Hr Hl].
  unfold be_bytes in Hr. rewrite length_rev, length_le_bytes in Hr. change (Z.of_nat 8) with 8 in Hr.
  exists b. split; [done|]. split; [done|]. split; [done|].
  rewrite (get_long_spec _ _ _ Hr) by (first [by rewrite length_rev, length_le_bytes|apply be_bytes_bytes]).
  rewrite rev_involutive, le_val_bytes. by rewrite Z.mod_small by done.
Qed.

Lemma filed_long_roundtrip_witness :
  ∃ b, ngx_set_filed_long (repeat 0 12) 2 0x0102030405060708 = Ok b ∧ length b = 12%nat ∧
    memread b 2 8 = Ok [1; 2; 3; 4; 5; 6; 7; 8] ∧ ngx_get_filed_long b 2 = Ok 0x0102030405060708.
Proof. by apply (filed_long_roundtrip (repeat 0 12) 2 0x0102030405060708). Defined.

(** An int field loses the upper half of its 64-bit type: [ngx_set_filed_int] stores
    the lower 32 bits most significant first, followed by four zero bytes, and
    [ngx_get_filed_int] reads back [z mod 2^32], whatever the sign of [z]. *)
Theorem filed_int_truncates buffer off z : 0 ≤ off → off + 8 ≤ Z.of_nat (length buffer) →
  ∃ b, ngx_set_filed_int buffer off z = Ok b ∧ length b = length buffer ∧
    memread b off 8 = Ok (be_bytes 4 z ++ [0; 0; 0; 0]) ∧ ngx_get_filed_int b off = Ok (z mod 2 ^ 32).
Proof.
  intros Hoff Hlen. unfold ngx_set_filed_int.
  assert (le_bytes 8 (htonl (u32 z)) = be_bytes 4 z ++ [0; 0; 0; 0]) as Hb.
  { pose proof (htonl_range (u32 z)). replace (htonl (u32 z)) with (0 * 2 ^ 32 + htonl (u32 z)) by lia.
    rewrite le_bytes_halves, le_bytes_htonl by done. f_equal. unfold be_bytes, u32.
    change (2 ^ 32) with (256 ^ Z.of_nat 4). by rewrite le_bytes_mod. }
  destruct (memwrite buffer off (le_bytes 8 (htonl (u32 z)))) as [b| |] eqn:Hw;
    [|rewrite memwrite_Ok in Hw; [done|lia|rewrite length_le_bytes; lia]..].
  pose proof (memread_memwrite _ _ _ _ Hw) as [Hr Hl]. rewrite length_le_bytes in Hr.
  change (Z.of_nat 8) with 8 in Hr. exists b. split; [done|]. split; [done|]. split; [by rewrite Hr, Hb|].
  unfold ngx_get_filed_int. rewrite Hr, ok_bind, le_val_bytes. f_equal.
  pose proof (htonl_range (u32 z)). unfold u32 at 1. change (256 ^ Z.of_nat 8) with (2 ^ 64).
  rewrite (Z.mod_small (htonl _)), (Z.mod_small (htonl _)) by lia.
  unfold htonl. rewrite swap_swap. change (256 ^ Z.of_nat 4) with (2 ^ 32). apply Z.mod_mod. lia.
Qed.

Lemma filed_int_truncates_witness :
  ∃ b, ngx_set_filed_int (repeat 7 8) 0 (-2) = Ok b ∧ length b = 8%nat ∧
    memread b 0 8 = Ok [255; 255; 255; 254; 0; 0; 0; 0] ∧ ngx_get_filed_int b 0 = Ok (2 ^ 32 - 2).
Proof. by apply (filed_int_truncates (repeat 7 8) 0 (-2)). Defined.

(** The request of a mobile code: with at most 15 digits it is decoded as it was
    encoded; a received length above 15 makes [memcpy] write past the [mobile] array. *)
Theorem mobilecode_req_roundtrip buffer fresh len mobile :
  length fresh = 15%nat → length mobile = 15%nat → (16 ≤ length buffer)%nat → 0 ≤ len < 256 →
  (len ≤ 15 → ∃ b m, ngx_binary_encode_mobilecode_req buffer (mk_mobile_req len mobile) = Ok (b, 16) ∧
     ngx_binary_decode_mobilecode_req b fresh = Ok m ∧ mq_len m = len ∧
     take (Z.to_nat len) (mq_mobile m) = take (Z.to_nat len) mobile) ∧
  (15 < len → ∀ b, blk_load b 0 = Ok len → ngx_binary_decode_mobilecode_req b fresh = Ub).
Proof.
  intros Hf Hm Hb Hlen. split.
  - intros Hle. unfold ngx_binary_encode_mobilecode_req. cbn [mq_len mq_mobile].
    unfold blk_store. rewrite bool_decide_eq_true_2, ok_bind by lia.
    change (Z.to_nat 0) with 0%nat. unfold u8. rewrite (Z.mod_small len) by lia.
    set (b0 := <[0%nat := len]> buffer). assert (length b0 = length buffer) as Hb0 by apply length_insert.
    unfold memcpy. rewrite memread_Ok, ok_bind, drop_0 by lia. set (bs := take (Z.to_nat len) mobile).
    assert (length bs = Z.to_nat len) as Hbs by (unfold bs; rewrite length_take; lia).
    destruct (memwrite b0 1 bs) as [b| |] eqn:Hw; [|rewrite memwrite_Ok in Hw by lia; done..].
    pose proof (memread_memwrite _ _ _ _ Hw) as [Hr Hl].
    destruct (memwrite fresh 0 bs) as [m| |] eqn:Hm2; [|rewrite memwrite_Ok in Hm2 by lia; done..].
    exists b, (mk_mobile_req len m). rewrite ok_bind. split; [done|].
    assert (blk_load b 0 = Ok len) as Hld.
    { apply blk_load_Ok; [done|]. rewrite memwrite_Ok in Hw by lia. injection Hw as <-.
      rewrite lookup_app_l by (rewrite length_take; lia). rewrite lookup_take_lt by (simpl; lia).
      apply list_lookup_insert_eq. lia. }
    unfold ngx_binary_decode_mobilecode_req, memcpy. rewrite Hld, ok_bind.
    rewrite Hbs, Z2Nat.id in Hr by lia. rewrite Hr, ok_bind, Hm2, ok_bind. split; [done|]. split; [done|].
    cbn [mq_mobile]. rewrite memwrite_Ok in Hm2 by lia. injection Hm2 as <-.
    rewrite take_app_le, take_ge by lia. done.
  - intros Hgt b Hb0. unfold ngx_binary_decode_mobilecode_req. rewrite Hb0, ok_bind. unfold memcpy, memread.
    case_bool_decide as Hr; [|done]. rewrite ok_bind. unfold memwrite. rewrite bool_decide_eq_false_2; [done|].
    rewrite length_take, length_drop. lia.
Qed.

Lemma mobilecode_req_roundtrip_witness :
  (11 ≤ 15 → ∃ b m, ngx_binary_encode_mobilecode_req (repeat 0 16) (mk_mobile_req 11 (repeat 49 15)) = Ok (b, 16) ∧
     ngx_binary_decode_mobilecode_req b (repeat 7 15) = Ok m ∧ mq_len m = 11 ∧
     take 11 (mq_mobile m) = take 11 (repeat 49 15)) ∧
  (15 < 11 → ∀ b, blk_load b 0 = Ok 11 → ngx_binary_decode_mobilecode_req b (repeat 7 15) = Ub).
Proof. by apply (mobilecode_req_roundtrip (repeat 0 16) (repeat 7 15) 11 (repeat 49 15)); simpl; lia. Defined.
