(* ===== verification/CDouble.v ===== *)
(** * CDouble: what cJSON.c uses of the C library's floating point

    A [double] is a binary64 value of the Standard Library's [SpecFloat].  [strtod] reads the
    longest decimal prefix and rounds it to nearest even, [fmt_g P] is the conversion
    ["%1.Pg"] of [sprintf]; both work on exact integers, so they are correctly rounded. *)

From Stdlib Require Import Floats.SpecFloat.
From S2P Require Import Prelude.
#[local] Open Scope Z_scope.

Definition double : Type := spec_float.
Definition PREC : Z := 53.
Definition EMAX : Z := 1024.

Definition Z_to_double (z : Z) : double := binary_normalize PREC EMAX z 0 false.

(** ** strtod *)
Definition is_digit (c : Z) : bool := (48 <=? c) && (c <=? 57).

(** The digits at the head of [s]: their value after [acc], their number and the rest. *)
Fixpoint scan_digits (s : list Z) (acc : Z) (n : nat) : Z * nat * list Z :=
  match s with
  | c :: s' => if is_digit c then scan_digits s' (10 * acc + (c - 48)) (S n) else (acc, n, s)
  | [] => (acc, n, [])
  end.

(** [m * 10^e], correctly rounded; [m] is not negative. *)
Definition dec_to_double (neg : bool) (m e : Z) : double :=
  match m with
  | Z.pos _ =>
      if 0 <=? e then
        match m * 10 ^ e with
        | Z.pos p => binary_round PREC EMAX neg p 0
        | _ => S754_nan
        end
      else
        let '(q, e', l) := SFdiv_core_binary PREC EMAX m 0 (10 ^ (- e)) 0 in
        binary_round_aux PREC EMAX neg q e' l
  | _ => S754_zero neg
  end.

Definition scan_sign (s : list Z) : bool * nat * list Z :=
  match s with
  | c :: s' => if c =? 45 then (true, 1%nat, s') else if c =? 43 then (false, 1%nat, s') else (false, O, s)
  | [] => (false, O, s)
  end.

(** An exponent part at the head of [s] and the characters it takes; without a digit there
    is none. *)
Definition scan_exp (s : list Z) : Z * nat :=
  match s with
  | c :: s1 =>
      if (c =? 101) || (c =? 69) then
        let '(neg, k, s2) := scan_sign s1 in
        let '(v, n, _) := scan_digits s2 0 0 in
        match n with
        | O => (0, O)
        | S _ => (if neg : bool then - v else v, S (k + n))
        end
      else (0, O)
  | [] => (0, O)
  end.

(** The value of the longest number at the head of [s] and the characters read: 0 when there
    is no number. *)
Definition strtod (s : list Z) : double * nat :=
  let '(neg, k0, s1) := scan_sign s in
  let '(v1, n1, s2) := scan_digits s1 0 0 in
  let '(v2, n2, dot, s3) :=
    match s2 with
    | c :: t => if c =? 46 then let '(v, n, r) := scan_digits t v1 0 in
                  if Nat.eqb (n1 + n) 0 then (v1, O, O, s2) else (v, n, 1%nat, r)
                else (v1, O, O, s2)
    | [] => (v1, O, O, s2)
    end in
  if Nat.eqb (n1 + n2) 0 then (S754_zero false, O)
  else
    let '(ex, n3) := scan_exp s3 in
    (dec_to_double neg v2 (ex - Z.of_nat n2), k0 + n1 + dot + n2 + n3)%nat.

(** ** sprintf("%1.Pg") *)

(** The [n] decimal digits of [z], most significant first. *)
Fixpoint dec_digits (n : nat) (z : Z) : list Z :=
  match n with O => [] | S n => dec_digits n (z / 10) ++ [48 + z mod 10] end.

(** The number of decimal digits of [z]. *)
Fixpoint num_digits_fuel (fuel : nat) (z : Z) : nat :=
  match fuel with
  | O => O
  | S fuel => if z <=? 0 then O else S (num_digits_fuel fuel (z / 10))
  end.
Definition num_digits (z : Z) : nat := num_digits_fuel (Z.to_nat (Z.log2 z + 1)) z.

(** Decimal representation of a non-negative integer. *)
Definition show_nat (z : Z) : list Z := if z =? 0 then [48] else dec_digits (num_digits z) z.
Definition show_Z (z : Z) : list Z := if z <? 0 then 45 :: show_nat (- z) else show_nat z.

(** [10^k <= num / den] *)
Definition ge10 (num den k : Z) : bool :=
  if 0 <=? k then den * 10 ^ k <=? num else den <=? num * 10 ^ (- k).

(** The largest [k] with [10^k <= num / den]. *)
Definition ilog10 (num den : Z) : Z :=
  let k := Z.of_nat (num_digits num) - Z.of_nat (num_digits den) in
  if ge10 num den k then k else k - 1.

(** [num / den] to the nearest integer, ties to even. *)
Definition div_round (num den : Z) : Z :=
  let q := num / den in
  let r := num mod den in
  match Z.compare (2 * r) den with
  | Lt => q
  | Eq => if Z.even q then q else q + 1
  | Gt => q + 1
  end.

Definition scaled (num den k : Z) : Z :=
  if 0 <=? k then div_round (num * 10 ^ k) den else div_round num (den * 10 ^ (- k)).

(** Trailing zeros, and the point with them, are not printed. *)
Fixpoint strip_zeros (s : list Z) : list Z :=
  match s with
  | [] => []
  | c :: s => match strip_zeros s with
              | [] => if c =? 48 then [] else [c]
              | t => c :: t
              end
  end.

Definition with_point (int frac : list Z) : list Z :=
  match strip_zeros frac with [] => int | f => int ++ 46 :: f end.

Definition show_exp (x : Z) : list Z :=
  101 :: (if x <? 0 then 45 else 43) ::
  (if Z.abs x <? 10 then [48] else []) ++ show_nat (Z.abs x).

Definition fmt_g (P : nat) (d : double) : list Z :=
  match d with
  | S754_nan => [110; 97; 110]
  | S754_infinity s => (if s then [45] else []) ++ [105; 110; 102]
  | S754_zero s => (if s then [45] else []) ++ [48]
  | S754_finite s m e =>
      let num := if 0 <=? e then Z.pos m * 2 ^ e else Z.pos m in
      let den := if 0 <=? e then 1 else 2 ^ (- e) in
      let x0 := ilog10 num den in
      let r0 := scaled num den (Z.of_nat P - 1 - x0) in
      let '(r, x) := if r0 =? 10 ^ Z.of_nat P then (10 ^ (Z.of_nat P - 1), x0 + 1) else (r0, x0) in
      let ds := dec_digits P r in
      (if s then [45] else []) ++
      (if (-4 <=? x) && (x <? Z.of_nat P) then
         if 0 <=? x then with_point (take (Z.to_nat (x + 1)) ds) (drop (Z.to_nat (x + 1)) ds)
         else with_point [48] (replicate (Z.to_nat (- x - 1)) 48 ++ ds)
       else with_point (take 1 ds) (drop 1 ds) ++ show_exp x)
  end.

(** ** Arithmetic and conversions of cJSON.c *)

(** [2^-52] *)
Definition DBL_EPSILON : double := S754_finite false 4503599627370496 (-104).

Definition fabs (d : double) : double := SFabs d.
Definition isnan (d : double) : bool := match d with S754_nan => true | _ => false end.
Definition isinf (d : double) : bool := match d with S754_infinity _ => true | _ => false end.

(** [(int) d] of a [d] whose integral part is an [int]. *)
Definition double_to_int (d : double) : Z :=
  match d with
  | S754_finite s m e =>
      let a := if 0 <=? e then Z.pos m * 2 ^ e else Z.pos m / 2 ^ (- e) in
      if s then - a else a
  | _ => 0
  end.

(** ** Decimal digits *)
Lemma num_digits_fuel_spec fuel : ∀ z, 0 < z → z < 2 ^ Z.of_nat fuel →
  (0 < num_digits_fuel fuel z)%nat ∧
  10 ^ (Z.of_nat (num_digits_fuel fuel z) - 1) ≤ z < 10 ^ Z.of_nat (num_digits_fuel fuel z).
Proof.
  induction fuel as [|fuel IH]; intros z Hz Hlt; [simpl in Hlt; lia|].
  cbn [num_digits_fuel]. destruct (Z.leb_spec z 0); [lia|].
  rewrite Nat2Z.inj_succ, Z.pow_succ_r in Hlt by lia.
  pose proof (Z.div_mod z 10 ltac:(lia)) as Hdm. pose proof (Z.mod_pos_bound z 10 ltac:(lia)) as Hmb.
  destruct (decide (z < 10)) as [Hs|Hb].
  - assert (num_digits_fuel fuel (z / 10) = O) as ->.
    { rewrite Z.div_small by lia. by destruct fuel. }
    simpl. lia.
  - assert (0 < z / 10) as Hd by lia.
    destruct (IH (z / 10)) as (Hn & H1 & H2); [lia|lia|]. set (n := num_digits_fuel fuel (z / 10)) in *.
    split; [lia|]. replace (Z.of_nat (S n) - 1) with (Z.succ (Z.of_nat n - 1)) by lia.
    rewrite Nat2Z.inj_succ, !Z.pow_succ_r by lia. lia.
Qed.

Lemma num_digits_spec z : 0 < z →
  (0 < num_digits z)%nat ∧ 10 ^ (Z.of_nat (num_digits z) - 1) ≤ z < 10 ^ Z.of_nat (num_digits z).
Proof.
  intros Hz. pose proof (Z.log2_spec z Hz). pose proof (Z.log2_nonneg z).
  apply num_digits_fuel_spec; [done|]. rewrite Z2Nat.id by lia. replace (Z.log2 z + 1) with (Z.succ (Z.log2 z)) by lia. lia.
Qed.

Lemma length_dec_digits n : ∀ z, length (dec_digits n z) = n.
Proof. induction n as [|n IH]; intros z; [done|]. cbn [dec_digits]. rewrite length_app, IH. simpl. lia. Qed.

Lemma dec_digits_app n m z : 0 ≤ z →
  dec_digits (n + m) z = dec_digits n (z / 10 ^ Z.of_nat m) ++ dec_digits m z.
Proof.
  revert z. induction m as [|m IH]; intros z Hz.
  - rewrite Nat.add_0_r. simpl. by rewrite Z.div_1_r, app_nil_r.
  - rewrite Nat.add_succ_r. cbn [dec_digits]. rewrite IH by (apply Z.div_pos; lia).
    rewrite Nat2Z.inj_succ, Z.pow_succ_r, Z.div_div, app_assoc by lia. done.
Qed.

Lemma dec_digits_zero n : dec_digits n 0 = replicate n 48.
Proof.
  induction n as [|n IH]; [done|]. cbn [dec_digits]. rewrite Z.div_0_l, IH by lia. simpl.
  by rewrite <- replicate_S_end.
Qed.

Lemma dec_digits_mod n m : ∀ z, (n ≤ m)%nat → 0 ≤ z → dec_digits n (z mod 10 ^ Z.of_nat m) = dec_digits n z.
Proof.
  revert m. induction n as [|n IH]; intros m z Hm Hz; [done|]. destruct m as [|m]; [lia|]. cbn [dec_digits].
  rewrite Nat2Z.inj_succ, Z.pow_succ_r, Z.rem_mul_r by lia.
  pose proof (Z.mod_pos_bound z 10). f_equal.
  - rewrite <- (IH m (z / 10)) by (first [lia|apply Z.div_pos; lia]). f_equal. symmetry.
    apply Z.div_unique with (z mod 10); [left|]; lia.
  - do 2 f_equal. symmetry. apply Z.mod_unique with ((z / 10) mod 10 ^ Z.of_nat m); [left|]; lia.
Qed.

Lemma is_digit_dec z : is_digit (48 + z mod 10) = true.
Proof. pose proof (Z.mod_pos_bound z 10). unfold is_digit. apply andb_true_intro. split; apply Z.leb_le; lia. Qed.

Lemma dec_digits_digit n : ∀ z, Forall (λ c, is_digit c = true) (dec_digits n z).
Proof.
  induction n as [|n IH]; intros z; [done|]. cbn [dec_digits]. apply Forall_app. split; [done|].
  repeat constructor. apply is_digit_dec.
Qed.

(** Scanning printed digits gives the number back. *)
Lemma scan_digits_app ds : ∀ rest acc k, Forall (λ c, is_digit c = true) ds →
  match rest with c :: _ => is_digit c = false | [] => True end →
  scan_digits (ds ++ rest) acc k =
    (foldl (λ a c, 10 * a + (c - 48)) acc ds, (k + length ds)%nat, rest).
Proof.
  induction ds as [|d ds IH]; intros rest acc k Hds Hrest; cbn [app scan_digits foldl length].
  - rewrite Nat.add_0_r. destruct rest as [|c rest]; [done|]. cbn [scan_digits]. by rewrite Hrest.
  - apply Forall_cons in Hds as [Hd Hds]. rewrite Hd, IH by done. f_equal. f_equal. lia.
Qed.

Lemma foldl_dec_digits n : ∀ z acc, 0 ≤ z < 10 ^ Z.of_nat n →
  foldl (λ a c, 10 * a + (c - 48)) acc (dec_digits n z) = acc * 10 ^ Z.of_nat n + z.
Proof.
  induction n as [|n IH]; intros z acc Hz; [simpl in *; lia|]. cbn [dec_digits].
  rewrite Nat2Z.inj_succ, Z.pow_succ_r in * by lia. rewrite foldl_app.
  pose proof (Z.div_mod z 10 ltac:(lia)) as Hdm. pose proof (Z.mod_pos_bound z 10 ltac:(lia)) as Hmb.
  rewrite IH by (split; [apply Z.div_pos; lia|apply Z.div_lt_upper_bound; lia]). cbn [foldl]. lia.
Qed.

(** ** Integers *)
Lemma digits2_pos_log p : Z.pos (digits2_pos p) = Z.log2 (Z.pos p) + 1.
Proof.
  induction p as [p IH|p IH|]; cbn [digits2_pos]; [..|done].
  - rewrite Pos2Z.inj_succ, IH. rewrite (Pos2Z.inj_xI p), Z.log2_succ_double by lia. lia.
  - rewrite Pos2Z.inj_succ, IH. rewrite (Pos2Z.inj_xO p), Z.log2_double by lia. lia.
Qed.

Lemma iter_xO n p : Z.pos (Pos.iter xO p n) = Z.pos p * 2 ^ Z.pos n.
Proof.
  induction n as [|n IH] using Pos.peano_ind; [simpl; lia|].
  rewrite Pos.iter_succ, Pos2Z.inj_xO, IH, Pos2Z.inj_succ, Z.pow_succ_r by lia. lia.
Qed.

Lemma shr_fexp_id m e : fexp PREC EMAX (Z.pos (digits2_pos m) + e) = e →
  shr_fexp PREC EMAX (Z.pos m) e loc_Exact = (Build_shr_record (Z.pos m) false false, e).
Proof. intros H. unfold shr_fexp, Zdigits2. rewrite H, Z.sub_diag. done. Qed.

(** An integer below 2^53 is represented exactly. *)
Lemma binary_round_int neg p : Z.pos p < 2 ^ 53 →
  ∃ m k, binary_round PREC EMAX neg p 0 = S754_finite neg m (- k) ∧ 0 ≤ k ∧
    Z.pos m = Z.pos p * 2 ^ k ∧ 2 ^ 52 ≤ Z.pos m < 2 ^ 53.
Proof.
  intros Hp. pose proof (Z.log2_spec (Z.pos p) ltac:(lia)) as Hl. pose proof (Z.log2_nonneg (Z.pos p)) as Hn.
  assert (Z.log2 (Z.pos p) < 53) as Hlt by (apply Z.log2_lt_pow2; lia).
  set (k := 52 - Z.log2 (Z.pos p)). set (L := Z.log2 (Z.pos p)) in *.
  assert (fexp PREC EMAX (Z.pos (digits2_pos p) + 0) = - k) as He.
  { rewrite digits2_pos_log. fold L. unfold fexp, emin, PREC, EMAX, k. lia. }
  assert (∃ m, shl_align p 0 (- k) = (m, - k) ∧ Z.pos m = Z.pos p * 2 ^ k) as (m & Hs & Hm).
  { unfold shl_align. destruct (decide (k = 0)) as [->|Hk]; [exists p; split; [done|lia]|].
    destruct (- k - 0) as [|q|q] eqn:E; [lia|lia|]. eexists. split; [reflexivity|].
    rewrite iter_xO. replace (Z.pos q) with k by lia. done. }
  assert (2 ^ 52 ≤ Z.pos m < 2 ^ 53) as Hr.
  { rewrite Hm. replace (2 ^ 52) with (2 ^ L * 2 ^ k) by (rewrite <- Z.pow_add_r by lia; f_equal; lia).
    replace (2 ^ 53) with (2 ^ (Z.succ L) * 2 ^ k) by (rewrite <- Z.pow_add_r by lia; f_equal; lia).
    assert (0 < 2 ^ k) by (apply Z.pow_pos_nonneg; lia). nia. }
  exists m, k. split; [|split; [lia|done]]. unfold binary_round. rewrite He, Hs. unfold binary_round_aux.
  assert (Z.log2 (Z.pos m) = 52) as Hlm by (apply Z.log2_unique; lia).
  rewrite !shr_fexp_id; cbn [shr_m loc_of_shr_record round_nearest_even];
    try (rewrite digits2_pos_log, Hlm; unfold fexp, emin, PREC, EMAX; lia).
  rewrite shr_fexp_id by (rewrite digits2_pos_log, Hlm; unfold fexp, emin, PREC, EMAX; lia).
  cbn [shr_m]. destruct (Z.leb_spec (- k) (EMAX - PREC)); [done|unfold EMAX, PREC in *; lia].
Qed.

Lemma ge10_mono num den a b : 0 < den → 0 < num → a ≤ b → ge10 num den b = true → ge10 num den a = true.
Proof.
  unfold ge10. intros Hd Hn Hab. destruct (Z.leb_spec 0 b), (Z.leb_spec 0 a); rewrite ?Z.leb_le; intros Hge; try lia.
  - assert (10 ^ a ≤ 10 ^ b) by (apply Z.pow_le_mono_r; lia). nia.
  - assert (0 < 10 ^ b) by (apply Z.pow_pos_nonneg; lia). assert (0 < 10 ^ (- a)) by (apply Z.pow_pos_nonneg; lia). nia.
  - assert (10 ^ (- b) ≤ 10 ^ (- a)) by (apply Z.pow_le_mono_r; lia). nia.
Qed.

Lemma ilog10_spec num den : 0 < num → 0 < den →
  ge10 num den (ilog10 num den) = true ∧ ge10 num den (ilog10 num den + 1) = false.
Proof.
  intros Hn Hd. destruct (num_digits_spec num Hn) as (Nn & Ln & Un). destruct (num_digits_spec den Hd) as (Nd & Ld & Ud).
  set (a := Z.of_nat (num_digits num)) in *. set (b := Z.of_nat (num_digits den)) in *.
  assert (ge10 num den (a - b - 1) = true) as Hlow.
  { unfold ge10. destruct (Z.leb_spec 0 (a - b - 1)); apply Z.leb_le.
    - assert (10 ^ (a - 1) = 10 ^ b * 10 ^ (a - b - 1)) by (rewrite <- Z.pow_add_r by lia; f_equal; lia).
      assert (0 < 10 ^ (a - b - 1)) by (apply Z.pow_pos_nonneg; lia). nia.
    - assert (10 ^ b = 10 ^ (a - 1) * 10 ^ (- (a - b - 1))) by (rewrite <- Z.pow_add_r by lia; f_equal; lia).
      assert (0 < 10 ^ (- (a - b - 1))) by (apply Z.pow_pos_nonneg; lia). nia. }
  assert (ge10 num den (a - b + 1) = false) as Hhigh.
  { unfold ge10. destruct (Z.leb_spec 0 (a - b + 1)); apply Z.leb_gt.
    - assert (10 ^ a = 10 ^ (b - 1) * 10 ^ (a - b + 1)) by (rewrite <- Z.pow_add_r by lia; f_equal; lia).
      assert (0 < 10 ^ (a - b + 1)) by (apply Z.pow_pos_nonneg; lia). nia.
    - assert (10 ^ (b - 1) = 10 ^ a * 10 ^ (- (a - b + 1))) by (rewrite <- Z.pow_add_r by lia; f_equal; lia).
      assert (0 < 10 ^ (- (a - b + 1))) by (apply Z.pow_pos_nonneg; lia). nia. }
  unfold ilog10. fold a b. destruct (ge10 num den (a - b)) eqn:E; [done|].
  split; [done|]. by replace (a - b - 1 + 1) with (a - b) by lia.
Qed.

(** The decimal exponent of an integer given as a fraction. *)
Lemma ilog10_int n den : 0 < n → 0 < den → ilog10 (n * den) den = Z.of_nat (num_digits n) - 1.
Proof.
  intros Hn Hd. destruct (ilog10_spec (n * den) den) as [H1 H2]; [nia|done|].
  destruct (num_digits_spec n Hn) as (Nn & Ln & Un). set (x := ilog10 (n * den) den) in *.
  set (a := Z.of_nat (num_digits n)) in *.
  assert (ge10 (n * den) den (a - 1) = true) as G1.
  { unfold ge10. destruct (Z.leb_spec 0 (a - 1)); [|lia]. apply Z.leb_le. nia. }
  assert (ge10 (n * den) den a = false) as G2.
  { unfold ge10. destruct (Z.leb_spec 0 a); [|lia]. apply Z.leb_gt. nia. }
  destruct (Z.lt_trichotomy x (a - 1)) as [Hx|[Hx|Hx]]; [|done|].
  - rewrite (ge10_mono (n * den) den (x + 1) (a - 1)) in H2; [done|lia|nia|lia|done].
  - rewrite (ge10_mono (n * den) den a x) in G2; [done|lia|nia|lia|done].
Qed.

Lemma div_round_exact q den : 0 < den → div_round (q * den) den = q.
Proof.
  intros Hd. unfold div_round. rewrite Z.div_mul, Z.mod_mul by lia.
  destruct (Z.compare_spec (2 * 0) den); lia.
Qed.

Lemma strip_zeros_zeros n : strip_zeros (replicate n 48) = [].
Proof. induction n as [|n IH]; [done|]. simpl. by rewrite IH. Qed.

Lemma num_digits_le z n : 0 < z → z < 10 ^ Z.of_nat n → (num_digits z ≤ n)%nat.
Proof.
  intros Hz Hlt. destruct (num_digits_spec z Hz) as (Hn & Hl & _).
  destruct (decide (num_digits z ≤ n)%nat) as [|Hgt]; [done|].
  assert (10 ^ Z.of_nat n ≤ 10 ^ (Z.of_nat (num_digits z) - 1)) by (apply Z.pow_le_mono_r; lia). lia.
Qed.

Lemma fmt_g_int neg p : Z.pos p < 10 ^ 15 →
  fmt_g 15 (binary_round PREC EMAX neg p 0) = (if neg then [45] else []) ++ show_nat (Z.pos p).
Proof.
  intros Hp. destruct (binary_round_int neg p) as (m & k & -> & Hk & Hm & _); [lia|].
  unfold fmt_g. set (num := if 0 <=? - k then _ else _). set (den := if 0 <=? - k then 1 else _).
  assert (den = 2 ^ k ∧ num = Z.pos p * den) as [Hden Hnum].
  { unfold num, den. destruct (Z.leb_spec 0 (- k)).
    - assert (k = 0) as -> by lia. simpl in *. lia.
    - rewrite Z.opp_involutive, Hm. done. }
  assert (0 < den) as Hd by (rewrite Hden; apply Z.pow_pos_nonneg; lia).
  destruct (num_digits_spec (Z.pos p)) as (Hn & Hlo & Hhi); [lia|].
  pose proof (num_digits_le (Z.pos p) 15 ltac:(lia) ltac:(exact Hp)) as Hn15.
  rewrite Hnum, ilog10_int by lia. set (n := num_digits (Z.pos p)) in *.
  replace (Z.of_nat 15 - 1 - (Z.of_nat n - 1)) with (Z.of_nat (15 - n)) by lia.
  assert (scaled (Z.pos p * den) den (Z.of_nat (15 - n)) = Z.pos p * 10 ^ Z.of_nat (15 - n)) as ->.
  { unfold scaled. destruct (Z.leb_spec 0 (Z.of_nat (15 - n))); [|lia].
    rewrite <- Z.mul_assoc, (Z.mul_comm den), Z.mul_assoc. by apply div_round_exact. }
  set (r := Z.pos p * 10 ^ Z.of_nat (15 - n)).
  assert (r < 10 ^ Z.of_nat 15) as Hr.
  { unfold r. replace (10 ^ Z.of_nat 15) with (10 ^ Z.of_nat n * 10 ^ Z.of_nat (15 - n))
      by (rewrite <- Z.pow_add_r by lia; f_equal; lia).
    apply Z.mul_lt_mono_pos_r; [apply Z.pow_pos_nonneg; lia|done]. }
  destruct (Z.eqb_spec r (10 ^ Z.of_nat 15)); [lia|]. f_equal.
  destruct (Z.leb_spec (-4) (Z.of_nat n - 1)), (Z.ltb_spec (Z.of_nat n - 1) (Z.of_nat 15)); try lia.
  cbn [andb]. destruct (Z.leb_spec 0 (Z.of_nat n - 1)); [|lia].
  replace (Z.to_nat (Z.of_nat n - 1 + 1)) with n by lia.
  assert (0 < 10 ^ Z.of_nat (15 - n)) as Hpow by (apply Z.pow_pos_nonneg; lia).
  assert (dec_digits 15 r = dec_digits n (Z.pos p) ++ replicate (15 - n) 48) as ->.
  { replace 15%nat with (n + (15 - n))%nat at 1 by lia. rewrite dec_digits_app by (unfold r; lia).
    unfold r. rewrite Z.div_mul by lia. f_equal.
    rewrite <- (dec_digits_mod _ (15 - n)) by lia. rewrite Z.mod_mul by lia. apply dec_digits_zero. }
  pose proof (length_dec_digits n (Z.pos p)) as Hlen.
  rewrite take_app_le, take_ge, drop_app_ge, Hlen by lia. rewrite Nat.sub_diag, drop_0.
  unfold with_point. rewrite strip_zeros_zeros. done.
Qed.

(** The text of an integer printed with 15 digits. *)
Lemma fmt_g_Z n : Z.abs n < 10 ^ 15 → fmt_g 15 (Z_to_double n) = show_Z n.
Proof.
  intros Hn. unfold Z_to_double, binary_normalize, show_Z. destruct n as [|p|p]; [done|..].
  - rewrite fmt_g_int by lia. destruct (Z.ltb_spec (Z.pos p) 0); [lia|done].
  - rewrite fmt_g_int by lia. destruct (Z.ltb_spec (Z.neg p) 0); [done|lia].
Qed.

(** A character that cannot continue a number. *)
Definition stops_number (c : Z) : bool :=
  negb (is_digit c || (c =? 46) || (c =? 101) || (c =? 69)).

Lemma scan_exp_stop rest : match rest with c :: _ => stops_number c = true | [] => True end →
  scan_exp rest = (0, O).
Proof.
  destruct rest as [|c rest]; [done|]. unfold stops_number, scan_exp. rewrite negb_true_iff, !orb_false_iff.
  intros (((_ & _) & He) & HE). by rewrite He, HE.
Qed.

Lemma show_nat_digits z : 0 ≤ z → ∃ c ds, show_nat z = c :: ds ∧ Forall (λ c, is_digit c = true) (show_nat z) ∧
  foldl (λ a c, 10 * a + (c - 48)) 0 (show_nat z) = z.
Proof.
  intros Hz. unfold show_nat. destruct (Z.eqb_spec z 0) as [->|Hne]; [by exists 48, []; repeat constructor|].
  destruct (num_digits_spec z) as (Hn & Hlo & Hhi); [lia|].
  pose proof (length_dec_digits (num_digits z) z) as Hlen.
  destruct (dec_digits (num_digits z) z) as [|c ds] eqn:E; [simpl in Hlen; lia|].
  exists c, ds. split; [done|]. rewrite <- E. split; [apply dec_digits_digit|].
  rewrite foldl_dec_digits by lia. lia.
Qed.

Lemma strtod_unsigned z rest : 0 ≤ z →
  match rest with c :: _ => stops_number c = true | [] => True end →
  ∀ neg k0 s, scan_sign s = (neg, k0, show_nat z ++ rest) →
  strtod s = (dec_to_double neg z 0, k0 + length (show_nat z))%nat.
Proof.
  intros Hz Hrest neg k0 s Hs. unfold strtod. rewrite Hs.
  destruct (show_nat_digits z Hz) as (c & ds & E & Hd & Hv).
  rewrite scan_digits_app, Hv; [|done|].
  2: { destruct rest as [|c' rest]; [done|]. unfold stops_number in Hrest.
       rewrite negb_true_iff, !orb_false_iff in Hrest. apply Hrest. }
  assert (match rest with
    | c :: t => if c =? 46 then let '(v, n, r) := scan_digits t z 0 in
                  if Nat.eqb (0 + length (show_nat z) + n) 0 then (z, O, O, rest) else (v, n, 1%nat, r)
                else (z, O, O, rest)
    | [] => (z, O, O, rest)
    end = (z, O, O, rest)) as ->.
  { destruct rest as [|c' rest]; [done|]. unfold stops_number in Hrest.
    rewrite negb_true_iff, !orb_false_iff in Hrest. destruct Hrest as (((_ & ->) & _) & _). done. }
  rewrite E at 1. cbn [length plus Nat.eqb]. rewrite (scan_exp_stop _ Hrest). f_equal; lia.
Qed.

(** [strtod] reads a printed integer back. *)
Lemma strtod_show_Z n rest : match rest with c :: _ => stops_number c = true | [] => True end →
  strtod (show_Z n ++ rest) = (Z_to_double n, length (show_Z n)).
Proof.
  intros Hrest. unfold show_Z. destruct (Z.ltb_spec n 0) as [Hn|Hn].
  - rewrite (strtod_unsigned (- n) rest ltac:(lia) Hrest true 1 _) by done.
    cbn [length]. f_equal. destruct n as [|p|p]; [lia|lia|]. unfold dec_to_double. by rewrite Z.mul_1_r.
  - rewrite (strtod_unsigned n rest ltac:(lia) Hrest false 0 _).
    + cbn [plus]. f_equal. destruct n as [|p|p]; [done| |lia]. unfold dec_to_double. by rewrite Z.mul_1_r.
    + destruct (show_nat_digits n Hn) as (c & ds & E & Hd & _). rewrite E in *. cbn [app scan_sign].
      apply Forall_cons in Hd as [Hd _]. unfold is_digit in Hd. apply andb_true_iff in Hd as [Hd1 Hd2].
      rewrite Z.leb_le in *. destruct (Z.eqb_spec c 45), (Z.eqb_spec c 43); [lia..|done].
Qed.

(** [strtod] reads no further than its text. *)
Lemma scan_digits_length s : ∀ acc n v k r, scan_digits s acc n = (v, k, r) → (k + length r = n + length s)%nat.
Proof.
  induction s as [|c s IH]; intros acc n v k r; cbn [scan_digits]; [by intros [= <- <- <-]|].
  destruct (is_digit c); [|by intros [= <- <- <-]]. intros E. apply IH in E. simpl. lia.
Qed.

Lemma scan_sign_length s neg k r : scan_sign s = (neg, k, r) → (k + length r = length s)%nat.
Proof.
  destruct s as [|c s]; cbn [scan_sign]; [by intros [= <- <- <-]|].
  destruct (c =? 45); [by intros [= <- <- <-]|]. destruct (c =? 43); by intros [= <- <- <-].
Qed.

Lemma scan_exp_length s e k : scan_exp s = (e, k) → (k ≤ length s)%nat.
Proof.
  destruct s as [|c s]; cbn [scan_exp]; [by intros [= <- <-]|].
  destruct (_ || _); [|intros [= <- <-]; simpl; lia].
  destruct (scan_sign s) as [[neg k0] s2] eqn:E1. apply scan_sign_length in E1.
  destruct (scan_digits s2 0 0) as [[v n] r] eqn:E2. apply scan_digits_length in E2.
  destruct n; intros [= <- <-]; simpl in *; lia.
Qed.

Lemma strtod_length s d k : strtod s = (d, k) → (k ≤ length s)%nat.
Proof.
  unfold strtod. destruct (scan_sign s) as [[neg k0] s1] eqn:E1. apply scan_sign_length in E1.
  destruct (scan_digits s1 0 0) as [[v1 n1] s2] eqn:E2. apply scan_digits_length in E2.
  set (tup := match s2 with [] => _ | _ :: _ => _ end).
  assert (tup.1.1.2 + tup.1.2 + length tup.2 = length s2)%nat as Htup.
  { unfold tup. destruct s2 as [|c t]; [done|]. destruct (c =? 46); [|done].
    destruct (scan_digits t v1 0) as [[v n] r] eqn:E3. apply scan_digits_length in E3.
    destruct (Nat.eqb (n1 + n) 0); simpl in *; lia. }
  destruct tup as [[[v2 n2] dot] s3]. simpl in Htup.
  destruct (Nat.eqb (n1 + n2) 0); [intros [= <- <-]; lia|].
  destruct (scan_exp s3) as [ex n3] eqn:E4. apply scan_exp_length in E4. intros [= <- <-]. lia.
Qed.
(** ** The length and the characters of a formatted number *)
Definition text_char (c : Z) : Prop := 43 ≤ c < 128 ∧ c ≠ 47.

Lemma length_strip_zeros s : (length (strip_zeros s) ≤ length s)%nat.
Proof. induction s as [|c s IH]; simpl; [done|]. destruct (strip_zeros s); [case_match|]; simpl in *; lia. Qed.

Lemma strip_zeros_chars s : Forall text_char s → Forall text_char (strip_zeros s).
Proof.
  induction 1 as [|c s Hc _ IH]; simpl; [done|]. destruct (strip_zeros s) eqn:E; [case_match|]; auto.
Qed.

Lemma with_point_bounds int frac n : (length int + length frac ≤ n)%nat → Forall text_char int → Forall text_char frac →
  (length (with_point int frac) ≤ S n)%nat ∧ Forall text_char (with_point int frac).
Proof.
  intros Hn Hi Hf. unfold with_point. pose proof (length_strip_zeros frac) as Hl. apply strip_zeros_chars in Hf.
  destruct (strip_zeros frac) eqn:E; [split; [lia|done]|]. rewrite length_app. cbn [length] in *. split; [lia|].
  apply Forall_app. split; [done|]. constructor; [unfold text_char; lia|done].
Qed.

Lemma digits_chars n z : Forall text_char (dec_digits n z).
Proof.
  eapply Forall_impl; [apply dec_digits_digit|]. intros c. unfold is_digit, text_char.
  rewrite andb_true_iff, !Z.leb_le. lia.
Qed.

Lemma show_nat_bounds z n : (0 < n)%nat → 0 ≤ z < 10 ^ Z.of_nat n →
  (length (show_nat z) ≤ n)%nat ∧ Forall text_char (show_nat z).
Proof.
  intros Hn Hz. unfold show_nat. destruct (Z.eqb_spec z 0).
  - split; [simpl; lia|]. repeat constructor; unfold text_char; lia.
  - rewrite length_dec_digits. split; [|apply digits_chars]. apply num_digits_le; lia.
Qed.

Lemma show_exp_bounds x : Z.abs x < 1000 → (length (show_exp x) ≤ 5)%nat ∧ Forall text_char (show_exp x).
Proof.
  intros Hx. unfold show_exp. cbn [length]. rewrite length_app.
  assert (Forall text_char (if Z.abs x <? 10 then [48] else [])) as Hc.
  { case_match; [|done]. constructor; [unfold text_char; lia|done]. }
  assert (Forall text_char [101; if x <? 0 then 45 else 43]) as Hs.
  { constructor; [unfold text_char; lia|]. constructor; [unfold text_char; destruct (x <? 0); lia|done]. }
  inversion_clear Hs as [|? ? H1 Hs']. inversion_clear Hs' as [|? ? H2 _].
  destruct (Z.ltb_spec (Z.abs x) 10).
  - destruct (show_nat_bounds (Z.abs x) 1) as [Hl Hf]; [lia|simpl; lia|]. split; [simpl; lia|].
    do 2 (constructor; [done|]). constructor; [unfold text_char; lia|done].
  - destruct (show_nat_bounds (Z.abs x) 3) as [Hl Hf]; [lia|simpl; lia|]. split; [simpl; lia|].
    by do 2 (constructor; [done|]).
Qed.

(** The decimal exponent of a double. *)
Lemma ilog10_double m e : valid_binary PREC EMAX (S754_finite false m e) = true →
  let num := if 0 <=? e then Z.pos m * 2 ^ e else Z.pos m in
  let den := if 0 <=? e then 1 else 2 ^ (- e) in
  -324 ≤ ilog10 num den ≤ 308.
Proof.
  intros Hv num den. revert Hv. unfold valid_binary, bounded, canonical_mantissa. rewrite andb_true_iff, Z.leb_le.
  unfold fexp, emin. rewrite digits2_pos_log. intros [He%Z.eqb_eq Hle].
  pose proof (Z.log2_nonneg (Z.pos m)) as Hln. pose proof (Z.log2_spec (Z.pos m) ltac:(lia)) as [_ Hlt].
  assert (Z.log2 (Z.pos m) < 53 ∧ -1074 ≤ e ≤ 971) as [Hm Hee] by (unfold PREC, EMAX in *; lia).
  assert (Z.pos m < 2 ^ 53) as Hm2.
  { eapply Z.lt_le_trans; [exact Hlt|]. apply Z.pow_le_mono_r; lia. }
  assert (0 < num ∧ 0 < den) as [Hnum Hden].
  { unfold num, den. destruct (Z.leb_spec 0 e); split; lia || (apply Z.pow_pos_nonneg; lia). }
  destruct (ilog10_spec num den Hnum Hden) as [Hlo Hhi]. split.
  - destruct (decide (-324 ≤ ilog10 num den)) as [|Hn]; [done|]. exfalso.
    assert (ge10 num den (-324) = true) as Hg.
    { unfold ge10. change (0 <=? -324) with false. cbn [Z.opp]. apply Z.leb_le. unfold num, den.
      assert (2 ^ 1074 ≤ 10 ^ 324) by (apply Z.leb_le; vm_compute; reflexivity).
      destruct (Z.leb_spec 0 e). { assert (0 < 2 ^ e) by (apply Z.pow_pos_nonneg; lia). nia. }
      assert (2 ^ (- e) ≤ 2 ^ 1074) by (apply Z.pow_le_mono_r; lia). nia. }
    rewrite (ge10_mono num den (ilog10 num den + 1) (-324)) in Hhi by (done || lia). done.
  - destruct (decide (ilog10 num den ≤ 308)) as [|Hn]; [done|]. exfalso.
    assert (ge10 num den 309 = false) as Hg.
    { unfold ge10. change (0 <=? 309) with true. cbn iota. apply Z.leb_gt. unfold num, den.
      assert (2 ^ 1024 < 10 ^ 309) by (apply Z.ltb_lt; vm_compute; reflexivity).
      destruct (Z.leb_spec 0 e).
      - assert (2 ^ e ≤ 2 ^ 971) by (apply Z.pow_le_mono_r; lia). change (2 ^ 1024) with (2 ^ 53 * 2 ^ 971) in *. nia.
      - assert (0 < 2 ^ (- e)) by (apply Z.pow_pos_nonneg; lia).
        assert (2 ^ 53 ≤ 2 ^ 1024) by (apply Z.pow_le_mono_r; lia). nia. }
    rewrite (ge10_mono num den 309 (ilog10 num den)) in Hg by (done || lia). done.
Qed.

(** At most 24 characters with 17 digits. *)
Lemma fmt_g_bounds P d : (0 < P ≤ 17)%nat → valid_binary PREC EMAX d = true →
  (length (fmt_g P d) ≤ 24)%nat ∧ Forall text_char (fmt_g P d).
Proof.
  intros HP Hd. assert (∀ s : bool, Forall text_char (if s then [45] else [])) as Hsign.
  { intros []; repeat constructor; unfold text_char; lia. }
  destruct d as [s|s| |s m e]; unfold fmt_g.
  1-2: split; [destruct s; simpl; lia|]. 1-2: apply Forall_app; split; [done|]; repeat constructor; unfold text_char; lia.
  { split; [simpl; lia|]. repeat constructor; unfold text_char; lia. }
  pose proof (ilog10_double m e Hd) as Hx. cbv zeta in Hx |- *.
  set (num := if 0 <=? e then _ else _) in *. set (den := if 0 <=? e then 1 else _) in *. set (x0 := ilog10 num den) in *.
  set (r0 := scaled num den _). set (rx := if r0 =? _ then _ else _).
  assert (-324 ≤ rx.2 ≤ 309) as Hrx by (unfold rx; case_match; simpl; lia). destruct rx as [r x]. cbn [snd] in Hrx.
  pose proof (digits_chars P r) as Hds. pose proof (length_dec_digits P r) as Hlen.
  set (ds := dec_digits P r) in *. clearbody ds. clear -Hds Hlen Hrx HP Hsign.
  assert (∀ body, (length body ≤ 23)%nat ∧ Forall text_char body →
    (length ((if s then [45%Z] else []) ++ body) ≤ 24)%nat ∧ Forall text_char ((if s then [45] else []) ++ body)) as Hwrap.
  { intros body [Hl Hb]. rewrite length_app. split; [destruct s; simpl; lia|]. by apply Forall_app. }
  apply Hwrap. destruct ((-4 <=? x) && (x <? Z.of_nat P)) eqn:Efix.
  - apply andb_true_iff in Efix as [E1%Z.leb_le E2%Z.ltb_lt]. destruct (Z.leb_spec 0 x).
    + edestruct (with_point_bounds (take (Z.to_nat (x + 1)) ds) (drop (Z.to_nat (x + 1)) ds) 17) as [? ?].
      * rewrite length_take, length_drop. lia.
      * by apply Forall_take.
      * by apply Forall_drop.
      * split; [lia|done].
    + edestruct (with_point_bounds [48] (replicate (Z.to_nat (- x - 1)) 48 ++ ds) 21) as [? ?].
      * rewrite length_app, length_replicate. simpl. lia.
      * repeat constructor; unfold text_char; lia.
      * apply Forall_app. split; [|done]. apply Forall_replicate. unfold text_char; lia.
      * split; [lia|done].
  - edestruct (with_point_bounds (take 1 ds) (drop 1 ds) 17) as [? ?].
    + rewrite length_take, length_drop. lia.
    + by apply Forall_take.
    + by apply Forall_drop.
    + destruct (show_exp_bounds x) as [? ?]; [lia|]. rewrite length_app. split; [lia|]. by apply Forall_app.
Qed.

(** ** Reading a formatted number back *)
Definition digits (s : list Z) : Prop := Forall (λ c, is_digit c = true) s.
Definition digits_value (ds : list Z) : Z := foldl (λ a c, 10 * a + (c - 48)) 0 ds.

(** Sign, integral part, fraction and exponent. *)
Definition decimal (neg : bool) (ip fp ex : list Z) : list Z :=
  (if neg then [45] else []) ++ ip ++ (match fp with [] => [] | _ => 46 :: fp end) ++ ex.

(** No exponent, or the exponent [x]. *)
Definition exponent_text (ex : list Z) (x : Z) : Prop := ex = [] ∧ x = 0 ∨ ex = show_exp x.

Lemma show_nat_is_digits z : 0 ≤ z → digits (show_nat z) ∧ show_nat z ≠ [] ∧ digits_value (show_nat z) = z.
Proof. intros Hz. destruct (show_nat_digits z Hz) as (c & ds & E & Hd & Hv). split; [done|]. split; [by rewrite E|done]. Qed.

Lemma scan_exp_text ex x : exponent_text ex x → scan_exp ex = (x, length ex) ∧ match ex with c :: _ => c = 101 | [] => True end.
Proof.
  intros [[-> ->]| ->]; [done|]. split; [|done]. destruct (show_nat_is_digits (Z.abs x) ltac:(lia)) as (Hd & Hne & Hv).
  set (pad := if Z.abs x <? 10 then [48] else []). assert (digits (pad ++ show_nat (Z.abs x)) ∧ digits_value (pad ++ show_nat (Z.abs x)) = Z.abs x) as [Hd' Hv'].
  { unfold pad. case_match; [|done]. split; [by constructor|]. exact Hv. }
  unfold show_exp. fold pad. cbn [scan_exp Z.eqb Pos.eqb orb]. set (ds := pad ++ show_nat (Z.abs x)) in *.
  assert (scan_sign ((if x <? 0 then 45 else 43) :: ds) = (x <? 0, 1%nat, ds)) as -> by (by destruct (x <? 0)).
  assert (scan_digits ds 0 0 = (Z.abs x, length ds, [])) as ->.
  { pose proof (scan_digits_app ds [] 0 0 Hd' I) as E. rewrite app_nil_r in E. rewrite E. unfold digits_value in Hv'. by rewrite Hv'. }
  assert (length ds ≠ 0%nat) as Hl. { unfold ds. rewrite length_app. destruct (show_nat (Z.abs x)); [done|cbn; lia]. }
  destruct (length ds) as [|n] eqn:En; [done|]. cbn [length]. rewrite En. f_equal. destruct (Z.ltb_spec x 0); lia.
Qed.

Lemma strtod_decimal neg ip fp ex x : digits ip → ip ≠ [] → digits fp → exponent_text ex x →
  strtod (decimal neg ip fp ex) = (dec_to_double neg (digits_value (ip ++ fp)) (x - Z.of_nat (length fp)), length (decimal neg ip fp ex)).
Proof.
  intros Hip Hne Hfp Hex. destruct (scan_exp_text ex x Hex) as [Ex He]. unfold strtod, decimal.
  set (tail := (match fp with [] => [] | _ => 46 :: fp end) ++ ex).
  assert (scan_sign ((if neg then [45] else []) ++ ip ++ tail) = (neg, length (if neg then [45] else []), ip ++ tail)) as ->.
  { destruct neg; [done|]. destruct ip as [|c ip]; [done|]. apply Forall_cons in Hip as [Hc _]. unfold is_digit in Hc.
    apply andb_true_iff in Hc as [H1%Z.leb_le H2%Z.leb_le]. cbn [app scan_sign]. destruct (Z.eqb_spec c 45), (Z.eqb_spec c 43); lia || done. }
  assert (match ex with c :: _ => is_digit c = false | [] => True end) as Hed by (destruct ex as [|c ex]; [done|by rewrite He]).
  rewrite scan_digits_app; [|done|unfold tail; destruct fp; [exact Hed|done]]. cbn [plus].
  assert (length ip ≠ 0%nat) as Hl by (destruct ip; [done|cbn; lia]).
  assert (∀ t, ex = t → match t with [] => True | c :: _ => (c =? 46) = false end) as Hdot by (intros t <-; destruct ex as [|c ex]; [done|by rewrite He]).
  unfold tail. destruct fp as [|f fp].
  - cbn [app]. destruct ex as [|c ex]; [|rewrite (Hdot _ eq_refl)]; rewrite (proj2 (Nat.eqb_neq _ 0)) by lia; rewrite Ex, ?app_nil_r, ?length_app; cbn [length]; f_equal; try (f_equal; lia); lia.
  - cbn [app Z.eqb Pos.eqb]. change (f :: fp ++ ex) with ((f :: fp) ++ ex). rewrite scan_digits_app by done. cbn [plus].
    rewrite !(proj2 (Nat.eqb_neq _ 0)) by lia. rewrite Ex. f_equal.
    + f_equal. unfold digits_value. by rewrite foldl_app.
    + rewrite !length_app. cbn [length]. rewrite length_app. cbn [length]. lia.
Qed.

Lemma digits_strip s : digits s → digits (strip_zeros s).
Proof. induction 1 as [|c s Hc _ IH]; simpl; [constructor|]. destruct (strip_zeros s); [case_match; by repeat constructor|by constructor]. Qed.

Lemma with_point_decimal (neg : bool) ip fp ex : (if neg then [45] else []) ++ with_point ip fp ++ ex = decimal neg ip (strip_zeros fp) ex.
Proof. unfold with_point, decimal. destruct (strip_zeros fp); [done|]. by rewrite <- app_assoc. Qed.

(** A formatted double has the shape [strtod] reads. *)
Lemma fmt_g_decimal P d : (0 < P)%nat → isnan d || isinf d = false →
  ∃ neg ip fp ex x, fmt_g P d = decimal neg ip fp ex ∧ digits ip ∧ ip ≠ [] ∧ digits fp ∧ exponent_text ex x.
Proof.
  intros HP Hd. destruct d as [s|s| |s m e]; [| done..|].
  { exists s, [48], [], [], 0. split; [by destruct s|]. split; [by repeat constructor|]. split; [done|]. split; [constructor|by left]. }
  cbn [fmt_g]. cbv zeta. set (num := if 0 <=? e then _ else _). set (den := if 0 <=? e then 1 else _). set (x0 := ilog10 num den).
  set (r0 := scaled num den _). destruct (if r0 =? _ then _ else _) as [r x]. pose proof (dec_digits_digit P r) as Hds. pose proof (length_dec_digits P r) as Hl.
  set (ds := dec_digits P r) in *. clearbody ds.
  assert (∀ k, (0 < k)%nat → take k ds ≠ []) as Htake by (intros k Hk Hn; apply (f_equal length) in Hn; rewrite length_take in Hn; cbn in Hn; lia).
  destruct ((-4 <=? x) && (x <? Z.of_nat P)); [destruct (Z.leb_spec 0 x)|].
  - exists s, (take (Z.to_nat (x + 1)) ds), (strip_zeros (drop (Z.to_nat (x + 1)) ds)), [], 0. rewrite <- with_point_decimal, app_nil_r.
    split; [done|]. split; [by apply Forall_take|]. split; [apply Htake; lia|]. split; [by apply digits_strip, Forall_drop|by left].
  - exists s, [48], (strip_zeros (replicate (Z.to_nat (- x - 1)) 48 ++ ds)), [], 0. rewrite <- with_point_decimal, app_nil_r.
    split; [done|]. split; [by repeat constructor|]. split; [done|]. split; [|by left]. apply digits_strip, Forall_app. split; [by apply Forall_replicate|done].
  - exists s, (take 1 ds), (strip_zeros (drop 1 ds)), (show_exp x), x. rewrite <- with_point_decimal.
    split; [done|]. split; [by apply Forall_take|]. split; [apply Htake; lia|]. split; [by apply digits_strip, Forall_drop|by right].
Qed.
