(* ===== verification/CDoubleRound.v ===== *)
(** * CDoubleRound: [strtod] rounds to nearest, and 17 digits are enough

    The rounding of SpecFloat is the nearest representable number, ties to even; what [strtod]
    returns is a number of the format; and a double that is printed with 17 digits is read back
    as itself. *)

From Stdlib Require Import Floats.SpecFloat.
From S2P Require Import Prelude CDouble.
#[local] Open Scope Z_scope.

(** ** Shifting right *)
(** The quotient of [N] by [D] with the bits that tell how the remainder lies to one half. *)
Definition quot_record (N D : Z) : shr_record :=
  Build_shr_record (N / D) (D <=? 2 * (N mod D)) (negb ((2 * (N mod D) =? D) || (N mod D =? 0))).

Lemma shr_1_spec m r s : 0 ≤ m → shr_1 (Build_shr_record m r s) = Build_shr_record (m / 2) (Z.odd m) (r || s).
Proof.
  intros Hm. rewrite <- Z.div2_div. destruct m as [|p|p]; [done| |lia]. by destruct p.
Qed.

Lemma shr_1_quot N D : 0 ≤ N → 0 < D → shr_1 (quot_record N D) = quot_record N (D * 2).
Proof.
  intros HN HD. unfold quot_record. rewrite shr_1_spec by (apply Z.div_pos; lia). rewrite Z.div_div by lia.
  pose proof (Z.mod_pos_bound N D HD) as Hr. rewrite Z.rem_mul_r by lia. rewrite Zmod_odd.
  set (x := N mod D) in *. f_equal; destruct (Z.odd (N / D)); bool_case; cbn; lia || done.
Qed.

Lemma iter_quot p : ∀ N D, 0 ≤ N → 0 < D → SpecFloat.iter_pos shr_1 p (quot_record N D) = quot_record N (D * 2 ^ Z.pos p).
Proof.
  induction p as [p IH|p IH|]; intros N D HN HD; cbn [SpecFloat.iter_pos].
  - rewrite shr_1_quot, IH, IH by (done || lia || (apply Z.mul_pos_pos; [lia|apply Z.pow_pos_nonneg; lia])).
    f_equal. rewrite (Pos2Z.inj_xI p), Z.pow_add_r, Z.pow_mul_r, Z.pow_1_r by lia. change (2 ^ 2) with (2 * 2). rewrite Z.pow_mul_l. lia.
  - rewrite IH, IH by (done || lia || (apply Z.mul_pos_pos; [lia|apply Z.pow_pos_nonneg; lia])).
    f_equal. rewrite (Pos2Z.inj_xO p), Z.pow_mul_r by lia. change (2 ^ 2) with (2 * 2). rewrite Z.pow_mul_l. lia.
  - by apply shr_1_quot.
Qed.

Lemma shr_quot N D e n : 0 ≤ N → 0 < D → 0 ≤ n → shr (quot_record N D) e n = (quot_record N (D * 2 ^ n), e + n).
Proof.
  intros HN HD Hn. destruct n as [|p|p]; [|by cbn [shr]; rewrite iter_quot|lia]. cbn [shr]. by rewrite Z.pow_0_r, Z.mul_1_r, Z.add_0_r.
Qed.

Lemma round_quot N D : 0 < D → round_nearest_even (shr_m (quot_record N D)) (loc_of_shr_record (quot_record N D)) = div_round N D.
Proof.
  intros HD. unfold quot_record, div_round. pose proof (Z.mod_pos_bound N D HD) as Hr. set (x := N mod D) in *. cbn [shr_m].
  destruct (Z.compare_spec (2 * x) D); bool_case; cbn; done || lia.
Qed.

Lemma location_quot N D : 0 < D → shr_record_of_loc (N / D) (new_location D (N mod D)) = quot_record N D.
Proof.
  intros HD. unfold quot_record, new_location, new_location_even, new_location_odd. pose proof (Z.mod_pos_bound N D HD) as Hr. set (x := N mod D) in *.
  pose proof (Zmod_even D) as He. pose proof (Z.div_mod D 2 ltac:(lia)) as Hdm. destruct (Z.even D).
  - destruct (Z.eqb_spec x 0), (Z.compare_spec (2 * x) D); bool_case; cbn; done || lia.
  - destruct (Z.eqb_spec x 0), (Z.compare_spec (2 * x + 1) D); bool_case; cbn; done || lia.
Qed.

(** [div_round] is the integer that is nearest. *)
Lemma div_round_nearest N D m : 0 < D → (2 * m - 1) * D < 2 * N < (2 * m + 1) * D → div_round N D = m.
Proof.
  intros HD H. unfold div_round. pose proof (Z.div_mod N D ltac:(lia)) as Hdm. pose proof (Z.mod_pos_bound N D HD) as Hr.
  set (x := N mod D) in *. set (q := N / D) in *. assert (q = m ∨ q = m - 1) as [->| ->] by nia; destruct (Z.compare_spec (2 * x) D); try lia; nia.
Qed.

Lemma div_round_bounds N D : 0 < D → 2 * div_round N D * D - D ≤ 2 * N ≤ 2 * div_round N D * D + D ∧ N / D ≤ div_round N D ≤ N / D + 1.
Proof.
  intros HD. unfold div_round. pose proof (Z.div_mod N D ltac:(lia)) as Hdm. pose proof (Z.mod_pos_bound N D HD) as Hr.
  set (x := N mod D) in *. set (q := N / D) in *. destruct (Z.compare_spec (2 * x) D); [destruct (Z.even q)| |]; nia.
Qed.

(** ** Digits *)
Lemma Zdigits2_le q k : 0 ≤ k → 0 ≤ q < 2 ^ k → Zdigits2 q ≤ k.
Proof.
  intros Hk Hq. destruct q as [|p|p]; [done| |lia]. cbn [Zdigits2]. rewrite digits2_pos_log.
  assert (Z.log2 (Z.pos p) < k); [|lia]. apply Z.log2_lt_pow2; lia.
Qed.

Lemma Zdigits2_ge q k : 0 ≤ k → 2 ^ k ≤ q → k + 1 ≤ Zdigits2 q.
Proof.
  intros Hk Hq. pose proof (Z.pow_pos_nonneg 2 k ltac:(lia) Hk). destruct q as [|p|p]; [lia| |lia]. cbn [Zdigits2]. rewrite digits2_pos_log.
  assert (k ≤ Z.log2 (Z.pos p)); [|lia]. by apply Z.log2_le_pow2.
Qed.

Lemma Zdigits2_bound q : 0 ≤ q → 0 ≤ Zdigits2 q ∧ q < 2 ^ Zdigits2 q ∧ (0 < q → 2 ^ (Zdigits2 q - 1) ≤ q).
Proof.
  intros Hq. destruct q as [|p|p]; [done| |lia]. cbn [Zdigits2]. rewrite digits2_pos_log. pose proof (Z.log2_spec (Z.pos p) ltac:(lia)) as [H1 H2].
  pose proof (Z.log2_nonneg (Z.pos p)). split; [lia|]. split; [done|]. intros _. by replace (Z.log2 (Z.pos p) + 1 - 1) with (Z.log2 (Z.pos p)) by lia.
Qed.

Lemma fexp_max x : fexp PREC EMAX x = Z.max (x - 53) (-1074).
Proof. reflexivity. Qed.

(** ** The rounding of a quotient [N / D * 2^e] *)
(** The exponent at which it is rounded. *)
Definition round_exp (N D e : Z) : Z := fexp PREC EMAX (Zdigits2 (N / D) + e).

(** The integer [m] it is rounded to there, as a number of the format. *)
Definition rounded (s : bool) (m e : Z) : double :=
  if m =? 0 then S754_zero s
  else if m =? 2 ^ 53 then (if e + 1 <=? 971 then S754_finite s (Z.to_pos (2 ^ 52)) (e + 1) else S754_infinity s)
  else if e <=? 971 then S754_finite s (Z.to_pos m) e else S754_infinity s.

(** [m] fits the format, at the exponent [e]. *)
Definition fits (m e : Z) : Prop := 0 ≤ m ≤ 2 ^ 53 ∧ (2 ^ 52 ≤ m ∨ e = -1074) ∧ -1074 ≤ e.

Lemma fits_digits m e : fits m e → 0 < m < 2 ^ 53 → fexp PREC EMAX (Zdigits2 m + e) = e.
Proof.
  intros (Hm & Hlo & He) Hr. rewrite fexp_max. pose proof (Zdigits2_le m 53 ltac:(lia) ltac:(lia)) as Hd. destruct Hlo as [Hlo| ->]; [|lia].
  pose proof (Zdigits2_ge m 52 ltac:(lia) Hlo). lia.
Qed.

Lemma rounded_valid s m e : fits m e → valid_binary PREC EMAX (rounded s m e) = true.
Proof.
  intros Hf. unfold rounded. destruct (Z.eqb_spec m 0); [done|]. destruct (Z.eqb_spec m (2 ^ 53)).
  - destruct (Z.leb_spec (e + 1) 971); [|done]. cbn [valid_binary]. unfold bounded, canonical_mantissa. rewrite andb_true_iff, Z.leb_le. split; [|done].
    apply Z.eqb_eq. rewrite fexp_max. destruct Hf as (_ & _ & He). change (Z.pos (digits2_pos (Z.to_pos (2 ^ 52)))) with 53. lia.
  - destruct (Z.leb_spec e 971); [|done]. cbn [valid_binary]. unfold bounded, canonical_mantissa. rewrite andb_true_iff, Z.leb_le. split; [|done].
    apply Z.eqb_eq. pose proof Hf as (Hm & _). rewrite <- (fits_digits m e Hf) at 2 by lia. destruct m as [|p|p]; [lia|done|lia].
Qed.

Lemma round_aux_rounded s m e : fits m e →
  (let '(mrs, e2) := shr_fexp PREC EMAX m e loc_Exact in
   match shr_m mrs with
   | Z0 => S754_zero s
   | Z.pos m => if e2 <=? EMAX - PREC then S754_finite s m e2 else S754_infinity s
   | Z.neg _ => S754_nan
   end) = rounded s m e.
Proof.
  intros Hf. unfold shr_fexp, rounded. pose proof Hf as (Hm & _ & He). destruct (Z.eqb_spec m 0) as [->|H0].
  { cbn [Zdigits2]. rewrite fexp_max. assert (Z.max (0 + e - 53) (-1074) - e ≤ 0) as Hn by lia. by destruct (Z.max (0 + e - 53) (-1074) - e). }
  destruct (Z.eqb_spec m (2 ^ 53)) as [->|H1].
  - rewrite fexp_max. change (Zdigits2 (2 ^ 53)) with 54. replace (Z.max (54 + e - 53) (-1074) - e) with 1 by lia. reflexivity.
  - rewrite fits_digits, Z.sub_diag by (done || lia). cbn [shr shr_record_of_loc shr_m]. destruct m as [|p|p]; [lia|done|lia].
Qed.

(** The quotient's digits say at which exponent it has 53. *)
Lemma quotient_fits N D e : 0 ≤ N → 0 < D → e ≤ round_exp N D e → let x := round_exp N D e in fits (div_round N (D * 2 ^ (x - e))) x.
Proof.
  intros HN HD He x. set (q := N / D). assert (x = Z.max (Zdigits2 q + e - 53) (-1074)) as Ex by (unfold x, round_exp; by rewrite fexp_max).
  fold x in He. clearbody x. assert (0 ≤ q) as Hq by (apply Z.div_pos; lia).
  pose proof (Zdigits2_bound q Hq) as (Hd0 & Hd1 & Hd2). remember (x - e) as n eqn:En. assert (0 ≤ n) as Hn by lia.
  assert (0 < 2 ^ n) as Hpn by (apply Z.pow_pos_nonneg; lia). pose proof (div_round_bounds N (D * 2 ^ n) ltac:(nia)) as [_ Hb].
  rewrite <- Z.div_div in Hb by lia. fold q in Hb. assert (q < 2 ^ 53 * 2 ^ n) as Hlt.
  { rewrite <- Z.pow_add_r by lia. eapply Z.lt_le_trans; [exact Hd1|]. apply Z.pow_le_mono_r; lia. }
  assert (q / 2 ^ n < 2 ^ 53) as Hq53 by (apply Z.div_lt_upper_bound; lia). assert (0 ≤ q / 2 ^ n) by (apply Z.div_pos; lia).
  split; [lia|]. split; [|lia]. destruct (decide (x = -1074)) as [|Hx]; [by right|left].
  assert (2 ^ 52 ≤ q / 2 ^ n); [|lia]. apply Z.div_le_lower_bound; [lia|]. rewrite <- Z.pow_add_r by lia.
  assert (0 < q) as Hq0. { destruct (decide (q = 0)) as [E|]; [|lia]. rewrite E in *. cbn [Zdigits2] in *. lia. }
  eapply Z.le_trans; [|exact (Hd2 Hq0)]. apply Z.pow_le_mono_r; lia.
Qed.

Lemma binary_round_aux_spec s N D e l : 0 ≤ N → 0 < D → shr_record_of_loc (N / D) l = quot_record N D → e ≤ round_exp N D e →
  let x := round_exp N D e in binary_round_aux PREC EMAX s (N / D) e l = rounded s (div_round N (D * 2 ^ (x - e))) x.
Proof.
  intros HN HD Hl He x. unfold binary_round_aux. assert (shr_fexp PREC EMAX (N / D) e l = (quot_record N (D * 2 ^ (x - e)), x)) as ->.
  { unfold shr_fexp. rewrite Hl. fold (round_exp N D e). fold x. rewrite shr_quot by (done || lia). f_equal. lia. }
  assert (0 < 2 ^ (x - e)) by (apply Z.pow_pos_nonneg; lia). rewrite round_quot by nia.
  apply round_aux_rounded. by apply quotient_fits.
Qed.

(** ** What [strtod] computes *)
(** [M * 10^E] as a quotient. *)
Lemma dec_to_double_spec s M E : 0 < M → ∃ N D e, 0 ≤ N ∧ 0 < D ∧ -1074 ≤ e ∧ e ≤ round_exp N D e ∧
  N * 2 ^ (e + 1074) * 10 ^ Z.max 0 (- E) = M * 10 ^ Z.max 0 E * 2 ^ 1074 * D ∧
  dec_to_double s M E = rounded s (div_round N (D * 2 ^ (round_exp N D e - e))) (round_exp N D e).
Proof.
  intros HM. unfold dec_to_double. destruct M as [|p|p]; [lia| |lia]. destruct (Z.leb_spec 0 E) as [HE|HE].
  - rewrite (Z.max_r 0 E), (Z.max_l 0 (- E)) by lia. assert (0 < 10 ^ E) as Hp by (apply Z.pow_pos_nonneg; lia).
    destruct (Z.pos p * 10 ^ E) as [|w|w] eqn:Ew; [lia| |lia]. unfold binary_round.
    set (f := fexp PREC EMAX (Z.pos (digits2_pos w) + 0)). assert (-1074 ≤ f) as Hf by (unfold f; rewrite fexp_max; lia).
    assert (∃ mz, shl_align w 0 f = (mz, Z.min f 0) ∧ Z.pos mz = Z.pos w * 2 ^ (- Z.min f 0)) as (mz & -> & Emz).
    { unfold shl_align. destruct (f - 0) as [|k|k] eqn:Ek.
      - exists w. rewrite (Z.min_r f 0) by lia. by rewrite Z.pow_0_r, Z.mul_1_r.
      - exists w. rewrite (Z.min_r f 0) by lia. by rewrite Z.pow_0_r, Z.mul_1_r.
      - exists (Pos.iter xO w k). rewrite (Z.min_l f 0) by lia. split; [done|]. rewrite iter_xO. do 2 f_equal. lia. }
    set (e := Z.min f 0) in *. assert (Z.pos (digits2_pos mz) + e = Z.pos (digits2_pos w) + 0) as Hdig.
    { rewrite !digits2_pos_log, Emz, Z.log2_mul_pow2 by lia. lia. }
    exists (Z.pos mz), 1, e. assert (round_exp (Z.pos mz) 1 e = f) as Hre by (unfold round_exp; rewrite Z.div_1_r; cbn [Zdigits2]; by rewrite Hdig).
    split; [lia|]. split; [lia|]. split; [unfold e; lia|]. rewrite Hre. split; [unfold e; lia|]. split.
    + rewrite Emz, Z.pow_0_r. rewrite <- (Z.mul_assoc (Z.pos w)), <- Z.pow_add_r by (unfold e; lia). replace (- e + (e + 1074)) with 1074 by lia. lia.
    + pose proof (binary_round_aux_spec s (Z.pos mz) 1 e loc_Exact) as H. rewrite Hre, Z.div_1_r in H. apply H; [lia|lia| |unfold e; lia].
      unfold quot_record. by rewrite Z.div_1_r, Z.mod_1_r.
  - rewrite (Z.max_l 0 E), (Z.max_r 0 (- E)) by lia. set (T := 10 ^ (- E)). assert (0 < T) as HT by (apply Z.pow_pos_nonneg; lia).
    unfold SFdiv_core_binary. rewrite !Z.add_0_r, Z.sub_diag. set (e := Z.min (fexp PREC EMAX _) 0). assert (-1074 ≤ e ≤ 0) as He by (unfold e; rewrite fexp_max; lia).
    assert (match 0 - e with Z0 => Z.pos p | Z.pos _ => Z.shiftl (Z.pos p) (0 - e) | Z.neg _ => 0 end = Z.pos p * 2 ^ (- e)) as ->.
    { destruct (0 - e) eqn:Ee; [replace (- e) with 0 by lia; by rewrite Z.pow_0_r, Z.mul_1_r|rewrite <- Ee, Z.shiftl_mul_pow2 by lia; do 2 f_equal; lia|lia]. }
    set (N := Z.pos p * 2 ^ (- e)). assert (0 < 2 ^ (- e)) as Hpe by (apply Z.pow_pos_nonneg; lia). assert (0 < N) as HN by (unfold N; lia).
    pose proof (Z_div_mod_full N T) as _. assert (Z.div_eucl N T = (N / T, N mod T)) as -> by (unfold Z.div, Z.modulo; by destruct (Z.div_eucl N T)).
    assert (e ≤ round_exp N T e) as Hre.
    { unfold round_exp. rewrite fexp_max. destruct (decide (e = -1074)) as [->|Hne]; [lia|]. set (d1 := Zdigits2 (Z.pos p)) in *. set (d2 := Zdigits2 T) in *.
      assert (e ≤ d1 - d2 - 53) as Hed by (unfold e in *; rewrite fexp_max in *; lia).
      destruct (Zdigits2_bound (Z.pos p) ltac:(lia)) as (_ & _ & Hp). specialize (Hp ltac:(lia)). fold d1 in Hp. destruct (Zdigits2_bound T ltac:(lia)) as (Hd2 & Ht & _). fold d2 in Ht, Hd2.
      assert (0 < d1) as Hd1 by (unfold d1; cbn; lia).
      assert (2 ^ (d1 - 1 - d2 - e) ≤ N / T) as Hq; [|apply Zdigits2_ge in Hq; lia]. apply Z.div_le_lower_bound; [lia|].
      eapply Z.le_trans; [apply Z.mul_le_mono_nonneg_r; [apply Z.pow_nonneg; lia|apply Z.lt_le_incl, Ht]|]. rewrite <- Z.pow_add_r by lia.
      unfold N. eapply Z.le_trans; [|apply Z.mul_le_mono_nonneg_r; [lia|exact Hp]]. rewrite <- Z.pow_add_r by lia. apply Z.pow_le_mono_r; lia. }
    exists N, T, e. split; [lia|]. split; [done|]. split; [lia|]. split; [done|]. split.
    + unfold N. rewrite Z.pow_0_r. rewrite <- (Z.mul_assoc (Z.pos p)), <- Z.pow_add_r by lia. replace (- e + (e + 1074)) with 1074 by lia. lia.
    + apply binary_round_aux_spec; [lia|done|by apply location_quot|done].
Qed.

(** Whatever the text, [strtod] returns a number of the format. *)
Lemma dec_to_double_valid s M E : valid_binary PREC EMAX (dec_to_double s M E) = true.
Proof.
  destruct M as [|p|p]; [done| |done]. destruct (dec_to_double_spec s (Z.pos p) E) as (N & D & e & HN & HD & _ & He & _ & ->); [lia|].
  by apply rounded_valid, quotient_fits.
Qed.

Lemma strtod_valid s : valid_binary PREC EMAX (strtod s).1 = true.
Proof.
  unfold strtod. destruct (scan_sign s) as [[neg k0] s1]. destruct (scan_digits s1 0 0) as [[v1 n1] s2].
  destruct (match s2 with [] => _ | _ :: _ => _ end) as [[[v2 n2] dot] s3]. destruct (Nat.eqb (n1 + n2) 0); [done|].
  destruct (scan_exp s3). apply dec_to_double_valid.
Qed.

(** ** The nearest double *)
(** How the quotient lies to the exponent it is rounded at. *)
Lemma round_exp_range N D e : 0 ≤ N → 0 < D → -1074 ≤ e → e ≤ round_exp N D e → let X := 2 ^ (round_exp N D e + 1074) in
  N * 2 ^ (e + 1074) < 2 ^ 53 * X * D ∧ (-1074 < round_exp N D e → 2 ^ 52 * X * D ≤ N * 2 ^ (e + 1074)).
Proof.
  intros HN HD He Hx X. set (q := N / D). assert (round_exp N D e = Z.max (Zdigits2 q + e - 53) (-1074)) as Ex by (unfold round_exp; by rewrite fexp_max).
  subst X. remember (round_exp N D e) as x eqn:E0. clear E0. assert (0 ≤ q) as Hq by (apply Z.div_pos; lia).
  pose proof (Zdigits2_bound q Hq) as (Hd0 & Hd1 & Hd2). pose proof (Z.div_mod N D ltac:(lia)) as Hdm. pose proof (Z.mod_pos_bound N D HD) as Hr. fold q in Hdm.
  assert (0 < 2 ^ (e + 1074)) as HW by (apply Z.pow_pos_nonneg; lia). split.
  - assert (q + 1 ≤ 2 ^ (53 + x - e)) as Hle. { eapply Z.le_trans; [apply Z.le_succ_l, Hd1|]. apply Z.pow_le_mono_r; lia. }
    assert (2 ^ 53 * 2 ^ (x + 1074) = 2 ^ (53 + x - e) * 2 ^ (e + 1074)) as ->. { rewrite <- !Z.pow_add_r by lia. f_equal. lia. }
    assert (N < D * 2 ^ (53 + x - e)) by nia. nia.
  - intros Hlt. assert (0 < q) as Hq0. { destruct (decide (q = 0)) as [E|]; [|lia]. rewrite E in *. cbn [Zdigits2] in *. lia. }
    specialize (Hd2 Hq0). assert (2 ^ (52 + x - e) ≤ q) as Hle. { eapply Z.le_trans; [|exact Hd2]. apply Z.pow_le_mono_r; lia. }
    assert (2 ^ 52 * 2 ^ (x + 1074) = 2 ^ (52 + x - e) * 2 ^ (e + 1074)) as ->. { rewrite <- !Z.pow_add_r by lia. f_equal. lia. }
    assert (D * 2 ^ (52 + x - e) ≤ N) by nia. nia.
Qed.

(** A quotient within half a unit of [m * 2^em] - a quarter below a power of two - is rounded
    to it. *)
Lemma rounded_nearest s m em N D e : 0 ≤ N → 0 < D → -1074 ≤ e → e ≤ round_exp N D e →
  fits m em → 0 < m < 2 ^ 53 → em ≤ 971 → let U := 2 ^ (em + 1074) in let P := N * 2 ^ (e + 1074) in
  (2 * m - 1) * U * D < 2 * P → 2 * P < (2 * m + 1) * U * D → (m = 2 ^ 52 → (4 * m - 1) * U * D < 4 * P) →
  rounded s (div_round N (D * 2 ^ (round_exp N D e - e))) (round_exp N D e) = S754_finite s (Z.to_pos m) em.
Proof.
  intros HN HD He Hx (_ & Hlo & Hem) Hm Hem2 U P H1 H2 H3. destruct (round_exp_range N D e HN HD He Hx) as [R1 R2]. fold P in R1, R2.
  remember (round_exp N D e) as x eqn:E0. clear E0. assert (0 < 2 ^ (e + 1074)) as HW by (apply Z.pow_pos_nonneg; lia).
  assert (0 < U) as HU by (apply Z.pow_pos_nonneg; lia).
  assert (2 ^ (x + 1074) = 2 ^ (x - e) * 2 ^ (e + 1074)) as EX by (rewrite <- Z.pow_add_r by lia; f_equal; lia).
  assert (∀ k, (2 * k - 1) * 2 ^ (x + 1074) * D < 2 * P → 2 * P < (2 * k + 1) * 2 ^ (x + 1074) * D → div_round N (D * 2 ^ (x - e)) = k) as Hnear.
  { intros k G1 G2. rewrite EX in G1, G2. assert (0 < 2 ^ (x - e)) by (apply Z.pow_pos_nonneg; lia). apply div_round_nearest; [nia|]. unfold P in G1, G2. nia. }
  destruct (Z.lt_trichotomy x em) as [Hlt|[->|Hgt]].
  - assert (2 ^ (x + 1074) * 2 ^ (em - x) = U) as EU by (unfold U; rewrite <- Z.pow_add_r by lia; f_equal; lia).
    assert (0 < 2 ^ (x + 1074)) by (apply Z.pow_pos_nonneg; lia). assert (2 ≤ 2 ^ (em - x)) by (apply (Z.pow_le_mono_r 2 1); lia).
    assert (m = 2 ^ 52) as ->. { destruct (decide (m ≤ 2 ^ 52)); [lia|]. assert (2 ^ 53 * 2 ^ (x + 1074) ≤ 2 ^ 52 * U) by nia. nia. }
    specialize (H3 eq_refl). assert (em = x + 1) as ->.
    { destruct (decide (em = x + 1)); [done|]. assert (4 ≤ 2 ^ (em - x)) by (apply (Z.pow_le_mono_r 2 2); lia). assert (2 ^ 54 * 2 ^ (x + 1074) ≤ 2 ^ 52 * U) by nia. nia. }
    replace (x + 1 - x) with 1 in EU by lia. rewrite (Hnear (2 ^ 53)) by nia. unfold rounded. cbn [Z.eqb]. rewrite Z.eqb_refl. by rewrite (proj2 (Z.leb_le (x + 1) 971)).
  - rewrite (Hnear m) by done. unfold rounded. rewrite !(proj2 (Z.eqb_neq m _)), (proj2 (Z.leb_le em 971)) by lia. done.
  - assert (2 ^ (em + 1074) * 2 ^ (x - em) = 2 ^ (x + 1074)) as EU by (rewrite <- Z.pow_add_r by lia; f_equal; lia). fold U in EU.
    assert (2 ≤ 2 ^ (x - em)) by (apply (Z.pow_le_mono_r 2 1); lia). specialize (R2 ltac:(lia)). assert (2 ^ 53 * U ≤ 2 ^ 52 * 2 ^ (x + 1074)) by nia. nia.
Qed.

Lemma valid_fits s m e : valid_binary PREC EMAX (S754_finite s m e) = true → fits (Z.pos m) e ∧ Z.pos m < 2 ^ 53 ∧ e ≤ 971.
Proof.
  cbn [valid_binary]. unfold bounded, canonical_mantissa. rewrite andb_true_iff, Z.leb_le, fexp_max. intros [He%Z.eqb_eq Hle].
  pose proof (Zdigits2_bound (Z.pos m) ltac:(lia)) as (_ & Hd1 & Hd2). cbn [Zdigits2] in *. specialize (Hd2 ltac:(lia)).
  assert (Z.pos m < 2 ^ 53). { eapply Z.lt_le_trans; [exact Hd1|]. apply Z.pow_le_mono_r; lia. }
  split; [|split; [done|exact Hle]]. split; [lia|]. split; [|lia]. destruct (decide (e = -1074)); [by right|left].
  replace 52 with (Z.pos (digits2_pos m) - 1) by lia. done.
Qed.

(** [M * 10^E] within a [10^16]-th of a double is that double. *)
Lemma dec_to_double_nearest s m em M E : valid_binary PREC EMAX (S754_finite s m em) = true → 0 < M →
  let A := M * 10 ^ Z.max 0 E * 2 ^ 1074 in let B := Z.pos m * 2 ^ (em + 1074) * 10 ^ Z.max 0 (- E) in
  2 * Z.abs (A - B) * 10 ^ 16 ≤ B → dec_to_double s M E = S754_finite s m em.
Proof.
  intros Hv HM A B HAB. destruct (valid_fits s m em Hv) as (Hf & Hm & Hem). pose proof Hf as (_ & _ & Hem1).
  destruct (dec_to_double_spec s M E HM) as (N & D & e & HN & HD & He & Hx & Heq & ->). fold A in Heq.
  set (K := 10 ^ Z.max 0 (- E)) in *. assert (0 < K) as HK by (apply Z.pow_pos_nonneg; lia). set (U := 2 ^ (em + 1074)) in *.
  assert (0 < U) as HU by (apply Z.pow_pos_nonneg; lia). set (P := N * 2 ^ (e + 1074)) in *.
  assert (2 * Z.abs (A - B) < U * K ∧ (Z.pos m = 2 ^ 52 → 4 * Z.abs (A - B) < U * K)) as [G1 G2] by (unfold B in *; split; intros; nia).
  change m with (Z.to_pos (Z.pos m)). apply rounded_nearest; try done; fold U P.
  - apply (Z.mul_lt_mono_pos_r K); [done|]. assert ((2 * Z.pos m - 1) * (U * K) < 2 * A) by (unfold B in *; lia). nia.
  - apply (Z.mul_lt_mono_pos_r K); [done|]. assert (2 * A < (2 * Z.pos m + 1) * (U * K)) by (unfold B in *; lia). nia.
  - intros Em. specialize (G2 Em). apply (Z.mul_lt_mono_pos_r K); [done|]. assert ((4 * Z.pos m - 1) * (U * K) < 4 * A) by (unfold B in *; lia). nia.
Qed.

(** ** The value of a formatted double *)
Lemma digits_value_snoc_zeros ds z : digits_value (ds ++ replicate z 48) = digits_value ds * 10 ^ Z.of_nat z.
Proof.
  induction z as [|z IH]; [by rewrite app_nil_r, Z.mul_1_r|]. rewrite replicate_S_end, app_assoc. unfold digits_value in *.
  rewrite foldl_app, IH. cbn [foldl]. rewrite Nat2Z.inj_succ, Z.pow_succ_r by lia. lia.
Qed.

Lemma digits_value_zeros_app z ds : digits_value (replicate z 48 ++ ds) = digits_value ds.
Proof. unfold digits_value. induction z as [|z IH]; [done|]. exact IH. Qed.

Lemma strip_zeros_spec s : ∃ z, s = strip_zeros s ++ replicate z 48.
Proof.
  induction s as [|c s [z IH]]; [by exists O|]. cbn [strip_zeros]. destruct (strip_zeros s) as [|d t].
  - cbn [app] in IH. destruct (Z.eqb_spec c 48) as [->|]; [by exists (S z); rewrite IH|by exists z; rewrite IH].
  - exists z. cbn [app] in *. by rewrite <- IH.
Qed.

Lemma digits_value_dec n z : 0 ≤ z < 10 ^ Z.of_nat n → digits_value (dec_digits n z) = z.
Proof. intros Hz. unfold digits_value. rewrite foldl_dec_digits by done. lia. Qed.

(** The digits that are left when the zeros are cut, and their exponent. *)
Lemma stripped_value ip fp r : digits_value (ip ++ fp) = r →
  ∃ z : nat, digits_value (ip ++ strip_zeros fp) * 10 ^ Z.of_nat z = r ∧ (length (strip_zeros fp) + z = length fp)%nat.
Proof.
  intros <-. destruct (strip_zeros_spec fp) as [z E]. exists z. split.
  - rewrite <- digits_value_snoc_zeros, <- app_assoc. by rewrite <- E.
  - rewrite E at 2. by rewrite length_app, length_replicate.
Qed.

Lemma ge10_shift num den x k : 0 ≤ x + k → ge10 num den x = (10 ^ (x + k) * (den * 10 ^ Z.max 0 (- k)) <=? num * 10 ^ Z.max 0 k).
Proof.
  intros Hxk. transitivity (den * 10 ^ Z.max 0 x <=? num * 10 ^ Z.max 0 (- x)).
  { unfold ge10. destruct (Z.leb_spec 0 x).
    - rewrite (Z.max_r 0 x), (Z.max_l 0 (- x)) by lia. by rewrite Z.pow_0_r, Z.mul_1_r.
    - rewrite (Z.max_l 0 x), (Z.max_r 0 (- x)) by lia. by rewrite Z.pow_0_r, Z.mul_1_r. }
  assert (∀ n, 0 < 10 ^ Z.max 0 n) as Hp by (intros; apply Z.pow_pos_nonneg; lia).
  assert (10 ^ (x + k) * 10 ^ Z.max 0 (- k) * 10 ^ Z.max 0 (- x) = 10 ^ Z.max 0 x * 10 ^ Z.max 0 k) as E by (rewrite <- !Z.pow_add_r by lia; f_equal; lia).
  pose proof (Hp (- x)). pose proof (Hp k). generalize dependent (10 ^ Z.max 0 (- k)). generalize dependent (10 ^ (x + k)). intros T K E.
  generalize dependent (10 ^ Z.max 0 k). generalize dependent (10 ^ Z.max 0 (- x)). generalize dependent (10 ^ Z.max 0 x). intros X Y Hy W0 Hz E.
  apply eq_true_iff_eq. rewrite !Z.leb_le. rewrite (Z.mul_le_mono_pos_r (den * X) _ W0), (Z.mul_le_mono_pos_r (T * _) _ Y) by done.
  replace (T * (den * K) * Y) with (den * (T * K * Y)) by lia. rewrite E. by replace (num * W0 * Y) with (num * Y * W0) by lia; replace (den * (X * W0)) with (den * X * W0) by lia.
Qed.

(** The number of digits and the exponent of [fmt_g] before the carry. *)
Lemma scaled_bounds P num den : 0 < num → 0 < den → (0 < P)%nat → let k := Z.of_nat P - 1 - ilog10 num den in let r := scaled num den k in
  let N := num * 10 ^ Z.max 0 k in let D := den * 10 ^ Z.max 0 (- k) in
  2 * Z.abs (r * D - N) ≤ D ∧ 10 ^ (Z.of_nat P - 1) * D ≤ N ∧ 0 < r ≤ 10 ^ Z.of_nat P.
Proof.
  intros Hn Hd HP k r N D. destruct (ilog10_spec num den Hn Hd) as [G1 G2]. set (x0 := ilog10 num den) in *.
  assert (r = div_round N D) as Er.
  { unfold r, scaled, N, D. destruct (Z.leb_spec 0 k).
    - rewrite (Z.max_r 0 k), (Z.max_l 0 (- k)) by lia. by rewrite Z.pow_0_r, Z.mul_1_r.
    - rewrite (Z.max_l 0 k), (Z.max_r 0 (- k)) by lia. by rewrite Z.pow_0_r, Z.mul_1_r. }
  assert (0 < 10 ^ Z.max 0 (- k)) as Hk1 by (apply Z.pow_pos_nonneg; lia). assert (0 < 10 ^ Z.max 0 k) as Hk2 by (apply Z.pow_pos_nonneg; lia).
  assert (0 < D) as HD by (unfold D; nia). destruct (div_round_bounds N D HD) as [B1 B2]. rewrite <- Er in B1, B2.
  assert (10 ^ (Z.of_nat P - 1) * D ≤ N ∧ N < 10 ^ Z.of_nat P * D) as [L1 L2].
  { rewrite (ge10_shift num den x0 k), Z.leb_le in G1 by lia. rewrite (ge10_shift num den (x0 + 1) k), Z.leb_gt in G2 by lia.
    replace (x0 + k) with (Z.of_nat P - 1) in G1 by lia. replace (x0 + 1 + k) with (Z.of_nat P) in G2 by lia. done. }
  pose proof (Z.pow_pos_nonneg 10 (Z.of_nat P - 1) ltac:(lia) ltac:(lia)). pose proof (Z.pow_pos_nonneg 10 (Z.of_nat P) ltac:(lia) ltac:(lia)).
  split; [lia|]. split; [done|]. clearbody r N D. split; [|]; nia.
Qed.

(** The text of a double, with its digits and their exponent. *)
Lemma fmt_g_value P s m e : (0 < P)%nat →
  let num := if 0 <=? e then Z.pos m * 2 ^ e else Z.pos m in let den := if 0 <=? e then 1 else 2 ^ (- e) in
  let k := Z.of_nat P - 1 - ilog10 num den in
  ∃ ip fp ex x z, fmt_g P (S754_finite s m e) = decimal s ip fp ex ∧ (digits ip ∧ ip ≠ [] ∧ digits fp ∧ exponent_text ex x) ∧
    0 ≤ z ∧ digits_value (ip ++ fp) * 10 ^ z = scaled num den k ∧ x - Z.of_nat (length fp) = z - k.
Proof.
  intros HP num den k. assert (0 < num ∧ 0 < den) as [Hn Hd].
  { unfold num, den. destruct (Z.leb_spec 0 e); split; lia || (apply Z.mul_pos_pos; [lia|]; apply Z.pow_pos_nonneg; lia) || (apply Z.pow_pos_nonneg; lia). }
  destruct (scaled_bounds P num den Hn Hd HP) as (_ & _ & Hr). fold k in Hr. cbn [fmt_g]. cbv zeta. fold num den. fold k.
  set (r0 := scaled num den k) in *. set (x0 := ilog10 num den) in *.
  assert (∃ r x c, (if r0 =? 10 ^ Z.of_nat P then (10 ^ (Z.of_nat P - 1), x0 + 1) else (r0, x0)) = (r, x) ∧
    0 ≤ r < 10 ^ Z.of_nat P ∧ 0 ≤ c ∧ r * 10 ^ c = r0 ∧ x = x0 + c) as (r & x & c & -> & Hrange & Hc & Er & ->).
  { destruct (Z.eqb_spec r0 (10 ^ Z.of_nat P)) as [E|E].
    - exists (10 ^ (Z.of_nat P - 1)), (x0 + 1), 1. split; [done|]. split; [split; [apply Z.pow_nonneg; lia|apply Z.pow_lt_mono_r; lia]|]. split; [lia|]. split; [|done].
      rewrite E, <- Z.pow_add_r by lia. f_equal. lia.
    - exists r0, x0, 0. split; [done|]. split; [lia|]. split; [lia|]. split; lia. }
  pose proof (digits_value_dec P r Hrange) as Hv. pose proof (dec_digits_digit P r) as Hds. pose proof (length_dec_digits P r) as Hl.
  set (ds := dec_digits P r) in *. clearbody ds. set (x := x0 + c).
  assert (∀ n, (0 < n)%nat → take n ds ≠ []) as Htake by (intros n Hn' E; apply (f_equal length) in E; rewrite length_take in E; cbn in E; lia).
  assert (∀ ip fp y, digits_value (ip ++ fp) = r → y - Z.of_nat (length fp) = c - k → ∃ z,
    0 ≤ z ∧ digits_value (ip ++ strip_zeros fp) * 10 ^ z = r0 ∧ y - Z.of_nat (length (strip_zeros fp)) = z - k) as Hstrip.
  { intros ip fp y Hval Hy. destruct (stripped_value ip fp r Hval) as (z & Ez & Hlen). exists (Z.of_nat z + c). split; [lia|]. split; [|lia].
    by rewrite Z.pow_add_r, Z.mul_assoc, Ez by lia. }
  destruct ((-4 <=? x) && (x <? Z.of_nat P)) eqn:Ex; [apply andb_true_iff in Ex as [_ Ex%Z.ltb_lt]; destruct (Z.leb_spec 0 x)|].
  - destruct (Hstrip (take (Z.to_nat (x + 1)) ds) (drop (Z.to_nat (x + 1)) ds) 0) as (z & Hz); [by rewrite take_drop|rewrite length_drop; unfold x, k in *; lia|].
    eexists _, _, [], 0, z. rewrite <- with_point_decimal, app_nil_r. split; [done|]. split; [|done].
    split; [by apply Forall_take|]. split; [apply Htake; lia|]. split; [by apply digits_strip, Forall_drop|by left].
  - destruct (Hstrip [48] (replicate (Z.to_nat (- x - 1)) 48 ++ ds) 0) as (z & Hz).
    { rewrite app_assoc. change ([48] ++ replicate (Z.to_nat (- x - 1)) 48) with (replicate (S (Z.to_nat (- x - 1))) 48). by rewrite digits_value_zeros_app. }
    { rewrite length_app, length_replicate. unfold x, k in *. lia. }
    eexists _, _, [], 0, z. rewrite <- with_point_decimal, app_nil_r. split; [done|]. split; [|done].
    split; [by repeat constructor|]. split; [done|]. split; [|by left]. apply digits_strip, Forall_app. split; [by apply Forall_replicate|done].
  - destruct (Hstrip (take 1 ds) (drop 1 ds) x) as (z & Hz); [by rewrite take_drop|rewrite length_drop; unfold x, k in *; lia|].
    eexists _, _, _, x, z. rewrite <- with_point_decimal. split; [done|]. split; [|done].
    split; [by apply Forall_take|]. split; [apply Htake; lia|]. split; [by apply digits_strip, Forall_drop|by right].
Qed.

(** The text differs from the double by the same part as the digits from the scaled quotient. *)
Lemma close_quotient v w num den p q a b mU T C : 0 < den → 0 < p → 0 < b → 0 < T → a * p = w * q * b → num * T = mU * den →
  2 * Z.abs (v * w * (den * q) - num * p) ≤ den * q → C * (den * q) ≤ num * p → 0 ≤ C →
  2 * Z.abs (v * a * T - mU * b) * C ≤ mU * b.
Proof.
  intros Hd Hp Hb HT Ea Em H1 H2 HC. apply (Z.mul_le_mono_pos_r _ _ (p * den)); [nia|].
  assert (Z.abs (v * a * T - mU * b) * (p * den) = Z.abs (v * w * (den * q) - num * p) * (T * b)) as E.
  { rewrite <- (Z.abs_eq (p * den)), <- (Z.abs_eq (T * b)), <- !Z.abs_mul by nia. f_equal.
    transitivity (v * (a * p) * T * den - (mU * den) * b * p); [ring|]. rewrite Ea, <- Em. ring. }
  replace (2 * Z.abs (v * a * T - mU * b) * C * (p * den)) with (2 * (Z.abs (v * a * T - mU * b) * (p * den)) * C) by ring. rewrite E.
  replace (mU * b * (p * den)) with (num * p * (T * b)) by (transitivity ((num * T) * (b * p)); [ring|rewrite Em; ring]).
  transitivity (C * (den * q) * (T * b)); [|apply Z.mul_le_mono_nonneg_r; [nia|done]].
  replace (2 * (Z.abs (v * w * (den * q) - num * p) * (T * b)) * C) with (2 * Z.abs (v * w * (den * q) - num * p) * (T * b * C)) by ring.
  replace (C * (den * q) * (T * b)) with (den * q * (T * b * C)) by ring. apply Z.mul_le_mono_nonneg_r; [nia|done].
Qed.

(** A double that is written with 17 digits is read back. *)
Lemma strtod_fmt_g_17 d : valid_binary PREC EMAX d = true → isnan d || isinf d = false → (strtod (fmt_g 17 d)).1 = d.
Proof.
  intros Hv Hd. destruct d as [s|s| |s m e]; [by destruct s|done|done|]. destruct (fmt_g_value 17 s m e ltac:(lia)) as (ip & fp & ex & x & z & -> & (Hip & Hne & Hfp & Hex) & Hz & Hr & Hx).
  rewrite (strtod_decimal s ip fp ex x) by done. cbn [fst]. set (num := if 0 <=? e then _ else _) in *. set (den := if 0 <=? e then 1 else _) in *.
  set (k := Z.of_nat 17 - 1 - ilog10 num den) in *. destruct (valid_fits s m e Hv) as (Hf & _ & _). pose proof Hf as (_ & _ & He).
  assert (0 < num ∧ 0 < den ∧ num * 2 ^ 1074 = Z.pos m * 2 ^ (e + 1074) * den) as (Hn & Hdn & Hnd).
  { unfold num, den. destruct (Z.leb_spec 0 e).
    - assert (0 < 2 ^ e) by (apply Z.pow_pos_nonneg; lia). rewrite Z.pow_add_r by lia. lia.
    - assert (0 < 2 ^ (- e)) by (apply Z.pow_pos_nonneg; lia). split; [lia|]. split; [done|]. rewrite <- Z.mul_assoc, <- Z.pow_add_r by lia. do 2 f_equal. lia. }
  destruct (scaled_bounds 17 num den Hn Hdn ltac:(lia)) as (B1 & B2 & B3 & _). fold k in B1, B2, B3. rewrite <- Hr in B1, B3.
  set (v := digits_value (ip ++ fp)) in *. assert (0 < 10 ^ z) as Hz10 by (apply Z.pow_pos_nonneg; lia). assert (0 < v) as Hvpos by nia.
  apply dec_to_double_nearest; [done|done|]. rewrite Hx. change (Z.of_nat 17 - 1) with 16 in B2.
  set (T := 2 ^ 1074) in *. set (U := 2 ^ (e + 1074)) in *. assert (0 < T) by (by apply Z.pow_pos_nonneg). assert (0 < U) by (apply Z.pow_pos_nonneg; lia).
  assert (10 ^ Z.max 0 (z - k) * 10 ^ Z.max 0 k = 10 ^ z * 10 ^ Z.max 0 (- k) * 10 ^ Z.max 0 (- (z - k))) as E by (rewrite <- !Z.pow_add_r by lia; f_equal; lia).
  assert (∀ n, 0 < 10 ^ Z.max 0 n) as Hp by (intros; apply Z.pow_pos_nonneg; lia). pose proof (Hp (- (z - k))). pose proof (Hp k). pose proof (Hp (- k)).
  clearbody T U num den v.
  apply (close_quotient v (10 ^ z) num den (10 ^ Z.max 0 k) (10 ^ Z.max 0 (- k))); done.
Qed.
