(* ===== verification/CJson.v ===== *)
(** * CJson: the items of cJSON.c and its parser

    Items are values: [child] is the list the [next] pointers link, a string the bytes before
    its NUL.  cJSON.h is not part of the repository, so its constants are the class [CJsonH].
    Memory is bounds-checked: the text is a block and every read of it can be undefined
    behaviour; allocation may fail, as the oracle [alloc] says. *)

From Stdlib Require Import Floats.SpecFloat.
From S2P Require Import Prelude CDouble.
#[local] Open Scope Z_scope.

(** ** Constants of cJSON.h *)
Class CJsonH := {
  cJSON_Invalid : Z; cJSON_False : Z; cJSON_True : Z; cJSON_NULL : Z; cJSON_Number : Z;
  cJSON_String : Z; cJSON_Array : Z; cJSON_Object : Z; cJSON_Raw : Z;
  cJSON_IsReference : Z; cJSON_StringIsConst : Z;
  CJSON_NESTING_LIMIT : Z
}.

(** The kinds are distinct values of the low byte, the flags bits above it. *)
Class CJsonHOk `{CJsonH} : Prop := {
  kinds_distinct : NoDup [cJSON_False; cJSON_True; cJSON_NULL; cJSON_Number; cJSON_String;
                          cJSON_Array; cJSON_Object; cJSON_Raw];
  kinds_low : Forall (λ k, Z.land k 0xFF = k) [cJSON_False; cJSON_True; cJSON_NULL; cJSON_Number;
                          cJSON_String; cJSON_Array; cJSON_Object; cJSON_Raw];
  invalid_other : cJSON_Invalid ∉ [cJSON_False; cJSON_True; cJSON_NULL; cJSON_Number; cJSON_String;
                          cJSON_Array; cJSON_Object; cJSON_Raw];
  flags_high : Z.land cJSON_IsReference 0xFF = 0 ∧ Z.land cJSON_StringIsConst 0xFF = 0;
  flags_apart : cJSON_IsReference ≠ 0 ∧ Z.land cJSON_IsReference cJSON_StringIsConst = 0;
  nesting_limit_pos : 0 < CJSON_NESTING_LIMIT
}.

Inductive cJSON : Type :=
  Item (type_ : Z) (valuestring : option (list Z)) (valueint : Z) (valuedouble : double)
       (string_ : option (list Z)) (child : list cJSON).

Definition type_ i := let '(Item t _ _ _ _ _) := i in t.
Definition valuestring i := let '(Item _ v _ _ _ _) := i in v.
Definition valueint i := let '(Item _ _ n _ _ _) := i in n.
Definition valuedouble i := let '(Item _ _ _ d _ _) := i in d.
Definition string_ i := let '(Item _ _ _ _ s _) := i in s.
Definition child i := let '(Item _ _ _ _ _ c) := i in c.

(** [cJSON_New_Item] clears the item. *)
Definition zero_item : cJSON := Item 0 None 0 (S754_zero false) None [].
Definition sizeof_cJSON : Z := 64.

Fixpoint c_str (b : list Z) : list Z :=
  match b with [] => [] | c :: b => if c =? 0 then [] else c :: c_str b end.

(** [strlen]: without a NUL in the block the read runs out of it. *)
Fixpoint strlen (b : list Z) : result Z :=
  match b with
  | [] => Ub
  | c :: b => if c =? 0 then Ok 0 else n ← strlen b; Ok (n + 1)
  end.

(** Saturated conversion of a number to [valueint]. *)
Definition sat_int (number : double) : Z :=
  if SFleb (Z_to_double INT_MAX) number then INT_MAX
  else if SFleb number (Z_to_double INT_MIN) then INT_MIN
  else double_to_int number.

(** ** The parse buffer *)
Record parse_buffer := mk_pb {
  content : list Z;
  pb_length : Z;
  offset : Z;
  depth : Z;
  allocs : nat
}.
Definition set_offset o b := mk_pb (content b) (pb_length b) o (depth b) (allocs b).
Definition set_depth d b := mk_pb (content b) (pb_length b) (offset b) d (allocs b).

Definition can_read (b : parse_buffer) (size : Z) : bool := offset b + size <=? pb_length b.
Definition can_access_at_index (b : parse_buffer) (index : Z) : bool := offset b + index <? pb_length b.
Definition buffer_at (b : parse_buffer) (i : Z) : result Z := blk_load (content b) (offset b + i).

(** [can_access_at_index(buffer, 0) && buffer_at_offset(buffer)[0] == c] *)
Definition accessible_is (b : parse_buffer) (c : Z) : result bool :=
  if can_access_at_index b 0 then x ← buffer_at b 0; Ok (x =? c) else Ok false.

Section parse.
Context `{CJsonH} (alloc : nat → Z → bool) (junk : Z).

Definition allocate (b : parse_buffer) (n : Z) : bool * parse_buffer :=
  (alloc (allocs b) n, mk_pb (content b) (pb_length b) (offset b) (depth b) (S (allocs b))).

(** ** Numbers *)
Definition number_char (c : Z) : bool :=
  is_digit c || (c =? 43) || (c =? 45) || (c =? 101) || (c =? 69) || (c =? 46).

(** The loop that copies at most 63 characters; the decimal point is a dot. *)
Fixpoint copy_number (n : nat) (b : parse_buffer) (i : Z) : result (list Z) :=
  match n with
  | O => Ok []
  | S n =>
      if can_access_at_index b i then
        c ← buffer_at b i;
        if number_char c then t ← copy_number n b (i + 1); Ok (c :: t) else Ok []
      else Ok []
  end.

Definition parse_number (item : cJSON) (b : parse_buffer) : result (option cJSON * parse_buffer) :=
  number_c_string ← copy_number 63 b 0;
  let '(number, consumed) := strtod number_c_string in
  if Nat.eqb consumed 0 then Ok (None, b)
  else Ok (Some (Item cJSON_Number (valuestring item) (sat_int number) number (string_ item) (child item)),
           set_offset (offset b + Z.of_nat consumed) b).

(** ** Strings *)
Definition hex_digit (c : Z) : option Z :=
  if (48 <=? c) && (c <=? 57) then Some (c - 48)
  else if (65 <=? c) && (c <=? 70) then Some (10 + c - 65)
  else if (97 <=? c) && (c <=? 102) then Some (10 + c - 97)
  else None.

(** [n] digits are left to read at [pos]; an invalid digit makes the result 0. *)
Fixpoint hex4_loop (n : nat) (text : list Z) (pos h : Z) : result Z :=
  match n with
  | O => Ok h
  | S n =>
      c ← text.[pos];
      match hex_digit c with
      | None => Ok 0
      | Some d =>
          let h := u32 (h + d) in
          hex4_loop n text (pos + 1) (match n with O => h | S _ => u32 (Z.shiftl h 4) end)
      end
  end.

Definition parse_hex4 (text : list Z) (input : Z) : result Z := hex4_loop 4 text input 0.

(** The continuation bytes, last one first, then the first byte. *)
Fixpoint utf8_tail (n : nat) (codepoint : Z) (acc : list Z) : Z * list Z :=
  match n with
  | O => (codepoint, acc)
  | S n => utf8_tail n (Z.shiftr codepoint 6) (u8 (Z.land (Z.lor codepoint 0x80) 0xBF) :: acc)
  end.

Definition utf8_encode (codepoint : Z) (utf8_length : nat) (first_byte_mark : Z) : list Z :=
  let '(codepoint, tail) := utf8_tail (utf8_length - 1) codepoint [] in
  (if Nat.ltb 1 utf8_length then u8 (Z.land (Z.lor codepoint first_byte_mark) 0xFF)
   else u8 (Z.land codepoint 0x7F)) :: tail.

(** The length of the sequence read, 0 on failure, and the bytes it stands for. *)
Definition utf16_literal_to_utf8 (text : list Z) (input_pointer input_end : Z) : result (Z * list Z) :=
  if input_end - input_pointer <? 6 then Ok (0, []) else
  first_code ← parse_hex4 text (input_pointer + 2);
  if (0xDC00 <=? first_code) && (first_code <=? 0xDFFF) then Ok (0, []) else
  '(sequence_length, codepoint) ←
    (if (0xD800 <=? first_code) && (first_code <=? 0xDBFF) then
       let second_sequence := input_pointer + 6 in
       if input_end - second_sequence <? 6 then Ok (0, 0) else
       c0 ← text.[second_sequence];
       c1 ← (if c0 =? 92 then text.[second_sequence + 1] else Ok 0);
       if negb ((c0 =? 92) && (c1 =? 117)) then Ok (0, 0) else
       second_code ← parse_hex4 text (second_sequence + 2);
       if (second_code <? 0xDC00) || (0xDFFF <? second_code) then Ok (0, 0) else
       Ok (12, 0x10000 + Z.lor (Z.shiftl (Z.land first_code 0x3FF) 10) (Z.land second_code 0x3FF))
     else Ok (6, first_code));
  if sequence_length =? 0 then Ok (0, []) else
  if codepoint <? 0x80 then Ok (sequence_length, utf8_encode codepoint 1 0)
  else if codepoint <? 0x800 then Ok (sequence_length, utf8_encode codepoint 2 0xC0)
  else if codepoint <? 0x10000 then Ok (sequence_length, utf8_encode codepoint 3 0xE0)
  else if codepoint <=? 0x10FFFF then Ok (sequence_length, utf8_encode codepoint 4 0xF0)
  else Ok (0, []).

(** The search for the closing quote: its position and the number of escapes. *)
Fixpoint find_end (fuel : nat) (b : parse_buffer) (input_end skipped : Z) : result (option (Z * Z)) :=
  match fuel with
  | O => OutOfFuel
  | S fuel =>
      if input_end <? pb_length b then
        c ← (content b).[input_end];
        if c =? 34 then Ok (Some (input_end, skipped))
        else if c =? 92 then
          if pb_length b <=? input_end + 1 then Ok None
          else find_end fuel b (input_end + 2) (skipped + 1)
        else find_end fuel b (input_end + 1) skipped
      else Ok None
  end.

(** The byte a two-character escape stands for. *)
Definition simple_escape (c : Z) : option Z :=
  if c =? 98 then Some 8 else if c =? 102 then Some 12 else if c =? 110 then Some 10
  else if c =? 114 then Some 13 else if c =? 116 then Some 9
  else if (c =? 34) || (c =? 92) || (c =? 47) then Some c else None.

(** The conversion loop: the block and the position of the terminating NUL, or the position
    of the error. *)
Fixpoint unescape (fuel : nat) (text : list Z) (input_pointer input_end : Z) (output : list Z)
    (output_pointer : Z) : result (list Z * Z + Z) :=
  match fuel with
  | O => OutOfFuel
  | S fuel =>
      if negb (input_pointer <? input_end) then Ok (inl (output, output_pointer)) else
      c ← text.[input_pointer];
      if negb (c =? 92) then
        output ← output.[output_pointer := c];
        unescape fuel text (input_pointer + 1) input_end output (output_pointer + 1)
      else if input_end - input_pointer <? 1 then Ok (inr input_pointer) else
        c1 ← text.[input_pointer + 1];
        if c1 =? 117 then
          '(sequence_length, bytes) ← utf16_literal_to_utf8 text input_pointer input_end;
          if sequence_length =? 0 then Ok (inr input_pointer) else
          output ← memwrite output output_pointer bytes;
          unescape fuel text (input_pointer + sequence_length) input_end output
            (output_pointer + Z.of_nat (length bytes))
        else
          match simple_escape c1 with
          | None => Ok (inr input_pointer)
          | Some x =>
              output ← output.[output_pointer := x];
              unescape fuel text (input_pointer + 2) input_end output (output_pointer + 1)
          end
  end.

(** Enough iterations for any loop over the text. *)
Definition text_fuel (b : parse_buffer) : nat := S (Z.to_nat (pb_length b)).

(** The string, and on failure the position of the error. *)
Definition parse_string (b : parse_buffer) : result (option (list Z) * parse_buffer) :=
  let start := offset b + 1 in
  c ← buffer_at b 0;
  if negb (c =? 34) then Ok (None, set_offset start b) else
  e ← find_end (text_fuel b) b start 0;
  match e with
  | None => Ok (None, set_offset start b)
  | Some (input_end, skipped_bytes) =>
      let allocation_length := input_end - offset b - skipped_bytes in
      let '(ok, b) := allocate b (allocation_length + 1) in
      if negb ok then Ok (None, set_offset start b) else
      let output := replicate (Z.to_nat (allocation_length + 1)) junk in
      r ← unescape (text_fuel b) (content b) start input_end output 0;
      match r with
      | inr p => Ok (None, set_offset p b)
      | inl (output, output_pointer) =>
          output ← output.[output_pointer := 0];
          Ok (Some (c_str output), set_offset (input_end + 1) b)
      end
  end.

(** ** Whitespace *)
Fixpoint skip_loop (fuel : nat) (b : parse_buffer) : result parse_buffer :=
  match fuel with
  | O => OutOfFuel
  | S fuel =>
      if can_access_at_index b 0 then
        c ← buffer_at b 0;
        if c <=? 32 then skip_loop fuel (set_offset (offset b + 1) b) else Ok b
      else Ok b
  end.

Definition buffer_skip_whitespace (b : parse_buffer) : result parse_buffer :=
  if negb (can_access_at_index b 0) then Ok b else
  b ← skip_loop (text_fuel b) b;
  Ok (if offset b =? pb_length b then set_offset (offset b - 1) b else b).

(** [strncmp(buffer_at_offset(buffer), lit, n) == 0] for a literal without NUL. *)
Definition literal_at (b : parse_buffer) (lit : list Z) : result bool :=
  bs ← memread (content b) (offset b) (Z.of_nat (length lit));
  Ok (bool_decide (bs = lit)).

(** A literal is compared only when enough bytes are left. *)
Definition reads_literal (b : parse_buffer) (lit : list Z) : result bool :=
  if can_read b (Z.of_nat (length lit)) then literal_at b lit else Ok false.

Definition skip_utf8_bom (b : parse_buffer) : result parse_buffer :=
  if can_access_at_index b 4 then
    bom ← literal_at b [0xEF; 0xBB; 0xBF];
    Ok (if bom : bool then set_offset (offset b + 3) b else b)
  else Ok b.

(** ** Values *)
Definition lit_null : list Z := [110; 117; 108; 108].
Definition lit_false : list Z := [102; 97; 108; 115; 101].
Definition lit_true : list Z := [116; 114; 117; 101].

Definition with_type (t : Z) (i : cJSON) : cJSON :=
  Item t (valuestring i) (valueint i) (valuedouble i) (string_ i) (child i).
Definition with_child (t : Z) (c : list cJSON) (i : cJSON) : cJSON :=
  Item t (valuestring i) (valueint i) (valuedouble i) (string_ i) c.

Definition parser : Type := cJSON → parse_buffer → result (option cJSON * parse_buffer).

(** The elements of an array; [pv] parses a value. *)
Fixpoint array_loop (n : nat) (pv : parser) (acc : list cJSON) (b : parse_buffer)
  : result (option (list cJSON) * parse_buffer) :=
  match n with
  | O => OutOfFuel
  | S n =>
      let '(ok, b) := allocate b sizeof_cJSON in
      if negb ok then Ok (None, b) else
      b ← buffer_skip_whitespace (set_offset (offset b + 1) b);
      '(v, b) ← pv zero_item b;
      match v with
      | None => Ok (None, b)
      | Some v =>
          b ← buffer_skip_whitespace b;
          comma ← accessible_is b 44;
          if comma : bool then array_loop n pv (acc ++ [v]) b
          else
            close ← accessible_is b 93;
            Ok (if close : bool then (Some (acc ++ [v]), b) else (None, b))
      end
  end.

Definition parse_array (pv : parser) (item : cJSON) (b : parse_buffer)
  : result (option cJSON * parse_buffer) :=
  if CJSON_NESTING_LIMIT <=? depth b then Ok (None, b) else
  let b := set_depth (depth b + 1) b in
  c ← buffer_at b 0;
  if negb (c =? 91) then Ok (None, b) else
  b ← buffer_skip_whitespace (set_offset (offset b + 1) b);
  let success (l : list cJSON) (b : parse_buffer) :=
    (Some (with_child cJSON_Array l item), set_offset (offset b + 1) (set_depth (depth b - 1) b)) in
  empty ← accessible_is b 93;
  if empty : bool then Ok (success [] b) else
  if negb (can_access_at_index b 0) then Ok (None, set_offset (offset b - 1) b) else
  '(l, b) ← array_loop (text_fuel b) pv [] (set_offset (offset b - 1) b);
  Ok (match l with Some l => success l b | None => (None, b) end).

(** The members of an object. *)
Fixpoint object_loop (n : nat) (pv : parser) (acc : list cJSON) (b : parse_buffer)
  : result (option (list cJSON) * parse_buffer) :=
  match n with
  | O => OutOfFuel
  | S n =>
      let '(ok, b) := allocate b sizeof_cJSON in
      if negb ok then Ok (None, b) else
      b ← buffer_skip_whitespace (set_offset (offset b + 1) b);
      '(name, b) ← parse_string b;
      match name with
      | None => Ok (None, b)
      | Some name =>
          b ← buffer_skip_whitespace b;
          colon ← accessible_is b 58;
          if negb colon then Ok (None, b) else
          b ← buffer_skip_whitespace (set_offset (offset b + 1) b);
          '(v, b) ← pv (Item cJSON_String None 0 (S754_zero false) (Some name) []) b;
          match v with
          | None => Ok (None, b)
          | Some v =>
              b ← buffer_skip_whitespace b;
              comma ← accessible_is b 44;
              if comma : bool then object_loop n pv (acc ++ [v]) b
              else
                close ← accessible_is b 125;
                Ok (if close : bool then (Some (acc ++ [v]), b) else (None, b))
          end
      end
  end.

Definition parse_object (pv : parser) (item : cJSON) (b : parse_buffer)
  : result (option cJSON * parse_buffer) :=
  if CJSON_NESTING_LIMIT <=? depth b then Ok (None, b) else
  let b := set_depth (depth b + 1) b in
  opens ← accessible_is b 123;
  if negb opens then Ok (None, b) else
  b ← buffer_skip_whitespace (set_offset (offset b + 1) b);
  let success (l : list cJSON) (b : parse_buffer) :=
    (Some (with_child cJSON_Object l item), set_offset (offset b + 1) (set_depth (depth b - 1) b)) in
  empty ← accessible_is b 125;
  if empty : bool then Ok (success [] b) else
  if negb (can_access_at_index b 0) then Ok (None, set_offset (offset b - 1) b) else
  '(l, b) ← object_loop (text_fuel b) pv [] (set_offset (offset b - 1) b);
  Ok (match l with Some l => success l b | None => (None, b) end).

(** [fuel] bounds the nesting of arrays and objects. *)
Fixpoint parse_value (fuel : nat) (item : cJSON) (b : parse_buffer) : result (option cJSON * parse_buffer) :=
  match fuel with
  | O => OutOfFuel
  | S fuel =>
      is_null ← reads_literal b lit_null;
      if is_null : bool then Ok (Some (with_type cJSON_NULL item), set_offset (offset b + 4) b) else
      is_false ← reads_literal b lit_false;
      if is_false : bool then Ok (Some (with_type cJSON_False item), set_offset (offset b + 5) b) else
      is_true ← reads_literal b lit_true;
      if is_true : bool then
        Ok (Some (Item cJSON_True (valuestring item) 1 (valuedouble item) (string_ item) (child item)),
            set_offset (offset b + 4) b)
      else
      if negb (can_access_at_index b 0) then Ok (None, b) else
      c ← buffer_at b 0;
      if c =? 34 then
        '(s, b) ← parse_string b;
        Ok (match s with
            | Some s => (Some (Item cJSON_String (Some s) (valueint item) (valuedouble item) (string_ item)
                                 (child item)), b)
            | None => (None, b)
            end)
      else if (c =? 45) || is_digit c then parse_number item b
      else if c =? 91 then parse_array (parse_value fuel) item b
      else if c =? 123 then parse_object (parse_value fuel) item b
      else Ok (None, b)
  end.

(** ** Entry points: the item, and the position [return_parse_end] points to. *)
Definition nesting_fuel : nat := S (Z.to_nat CJSON_NESTING_LIMIT).

Definition error_position (b : parse_buffer) : Z :=
  if offset b <? pb_length b then offset b else if 0 <? pb_length b then pb_length b - 1 else 0.

Definition cJSON_ParseWithLengthOpts (value : list Z) (buffer_length : Z) (require_null_terminated : bool)
  : result (option cJSON * Z) :=
  if buffer_length =? 0 then Ok (None, 0) else
  let '(ok, b) := allocate (mk_pb value buffer_length 0 0 0) sizeof_cJSON in
  if negb ok then Ok (None, error_position b) else
  b ← skip_utf8_bom b;
  b ← buffer_skip_whitespace b;
  '(item, b) ← parse_value nesting_fuel zero_item b;
  match item with
  | None => Ok (None, error_position b)
  | Some item =>
      if require_null_terminated then
        b ← buffer_skip_whitespace b;
        c ← (if pb_length b <=? offset b then Ok 1 else buffer_at b 0);
        Ok (if c =? 0 then (Some item, offset b) else (None, error_position b))
      else Ok (Some item, offset b)
  end.

Definition cJSON_ParseWithOpts (value : list Z) (require_null_terminated : bool) : result (option cJSON * Z) :=
  n ← strlen value; cJSON_ParseWithLengthOpts value (n + 1) require_null_terminated.

Definition cJSON_Parse (value : list Z) : result (option cJSON * Z) := cJSON_ParseWithOpts value false.
Definition cJSON_ParseWithLength (value : list Z) (buffer_length : Z) : result (option cJSON * Z) :=
  cJSON_ParseWithLengthOpts value buffer_length false.
End parse.

(** The constants of release 1.7.13, for the witnesses. *)
#[export] Instance cjson_h : CJsonH :=
  { cJSON_Invalid := 0; cJSON_False := 1; cJSON_True := 2; cJSON_NULL := 4; cJSON_Number := 8;
    cJSON_String := 16; cJSON_Array := 32; cJSON_Object := 64; cJSON_Raw := 128;
    cJSON_IsReference := 256; cJSON_StringIsConst := 512; CJSON_NESTING_LIMIT := 1000 }.

#[export] Instance cjson_h_ok : CJsonHOk.
Proof. split; [repeat constructor; set_solver|by repeat constructor|set_solver|done|done|done]. Qed.
