(* ===== verification/CJsonSafe.v ===== *)
(** * CJsonSafe: the parser of cJSON.c on NUL-terminated texts

    On a text whose last byte is NUL the parser stays within the text and within the
    blocks it allocates, whatever the bytes and whichever allocations fail, and returns. *)

From Stdlib Require Import Floats.SpecFloat.
From S2P Require Import Prelude CDouble CJson.
#[local] Open Scope Z_scope.

(** ** Pure parts *)
Lemma hex_digit_range c d : hex_digit c = Some d → 0 ≤ d ≤ 15.
Proof.
  unfold hex_digit. repeat case_match; intros [= <-];
    match goal with E : _ && _ = true |- _ => apply andb_true_iff in E as [Ea Eb] end;
    rewrite Z.leb_le in *; lia.
Qed.

Lemma hex4_loop_range n : ∀ text pos h v, (0 < n ≤ 4)%nat → 0 ≤ h → h + 16 ≤ 16 ^ (5 - Z.of_nat n) →
  hex4_loop n text pos h = Ok v → 0 ≤ v < 65536.
Proof.
  induction n as [|n IH]; intros text pos h v Hn Hh Hb; [lia|]. cbn [hex4_loop].
  intros E. apply bind_Ok in E as (c & _ & E). destruct (hex_digit c) as [d|] eqn:Ed; [|by injection E as <-].
  apply hex_digit_range in Ed.
  assert (16 ^ (5 - Z.of_nat (S n)) ≤ 16 ^ 4) by (apply Z.pow_le_mono_r; lia).
  assert (u32 (h + d) = h + d) as Hu by (unfold u32; rewrite Z.mod_small; lia). rewrite Hu in E.
  destruct n as [|n].
  - cbn [hex4_loop] in E. injection E as <-. simpl in Hb. lia.
  - rewrite Z.shiftl_mul_pow2 in E by lia. assert (u32 ((h + d) * 2 ^ 4) = (h + d) * 16) as Hu2.
    { unfold u32. rewrite Z.mod_small; lia. }
    rewrite Hu2 in E. eapply IH in E; [done|lia|lia|].
    replace (5 - Z.of_nat (S n)) with (Z.succ (5 - Z.of_nat (S (S n)))) by lia. rewrite Z.pow_succ_r by lia. lia.
Qed.

Lemma parse_hex4_range text input v : parse_hex4 text input = Ok v → 0 ≤ v < 65536.
Proof. apply hex4_loop_range; simpl; lia. Qed.

Lemma length_utf8_tail n : ∀ cp acc, length (utf8_tail n cp acc).2 = (n + length acc)%nat.
Proof. induction n as [|n IH]; intros cp acc; cbn [utf8_tail]; [done|]. rewrite IH. simpl. lia. Qed.

Lemma length_utf8_encode cp n mark : (0 < n)%nat → length (utf8_encode cp n mark) = n.
Proof.
  intros Hn. unfold utf8_encode. pose proof (length_utf8_tail (n - 1) cp []) as Hl.
  destruct (utf8_tail (n - 1) cp []) as [c t]. cbn [length snd] in *. simpl in Hl. lia.
Qed.

(** Reads within a block succeed. *)
Lemma blk_load_in b i : 0 ≤ i < Z.of_nat (length b) → ∃ c, blk_load b i = Ok c.
Proof.
  intros Hi. destruct (lookup_lt_is_Some_2 b (Z.to_nat i)) as [c Hc]; [lia|].
  exists c. apply blk_load_Ok; [lia|done].
Qed.

Lemma blk_store_in b i v : 0 ≤ i < Z.of_nat (length b) → ∃ b', blk_store b i v = Ok b' ∧ length b' = length b.
Proof.
  intros Hi. unfold blk_store. rewrite bool_decide_eq_true_2 by done. eexists. split; [done|]. apply length_insert.
Qed.

Lemma hex4_in text pos : 0 ≤ pos → pos + 4 ≤ Z.of_nat (length text) → ∃ v, parse_hex4 text pos = Ok v.
Proof.
  unfold parse_hex4. assert (∀ n pos h, 0 ≤ pos → pos + Z.of_nat n ≤ Z.of_nat (length text) →
    ∃ v, hex4_loop n text pos h = Ok v) as Hgen; [|intros; apply Hgen; simpl; lia].
  clear pos. induction n as [|n IH]; intros pos h Hp Hl; cbn [hex4_loop]; [by eexists|].
  destruct (blk_load_in text pos) as (c & ->); [lia|]. rewrite ok_bind.
  destruct (hex_digit c) as [d|]; [|by eexists]. destruct n as [|n]; [by eexists|]. apply IH; lia.
Qed.

(** The outcomes of [utf16_literal_to_utf8]. *)
Lemma utf16_cases text p e : 0 ≤ p → e ≤ Z.of_nat (length text) →
  ∃ len bytes, utf16_literal_to_utf8 text p e = Ok (len, bytes) ∧
    (len = 0 ∨ (len = 6 ∧ p + 6 ≤ e ∧ (1 ≤ length bytes ≤ 3)%nat) ∨
     (len = 12 ∧ p + 12 ≤ e ∧ length bytes = 4%nat)).
Proof.
  intros Hp He. unfold utf16_literal_to_utf8.
  destruct (Z.ltb_spec (e - p) 6); [exists 0, []; eauto|].
  destruct (hex4_in text (p + 2)) as (v & Hv); [lia|lia|]. pose proof (parse_hex4_range _ _ _ Hv) as Rv.
  rewrite Hv, ok_bind. destruct ((0xDC00 <=? v) && (v <=? 0xDFFF)) eqn:E1; [exists 0, []; eauto|].
  destruct ((0xD800 <=? v) && (v <=? 0xDBFF)) eqn:E2.
  - destruct (Z.ltb_spec (e - (p + 6)) 6); [exists 0, []; eauto|].
    destruct (blk_load_in text (p + 6)) as (c0 & ->); [lia|]. rewrite ok_bind.
    destruct (blk_load_in text (p + 6 + 1)) as (c1 & Hc1); [lia|].
    destruct (Z.eqb_spec c0 92); [rewrite Hc1|]; rewrite ok_bind; cbn [andb negb]; [|exists 0, []; eauto].
    destruct (Z.eqb_spec c1 117); cbn [negb]; [|exists 0, []; eauto].
    destruct (hex4_in text (p + 6 + 2)) as (v2 & Hv2); [lia|lia|]. pose proof (parse_hex4_range _ _ _ Hv2) as Rv2.
    rewrite Hv2, ok_bind. destruct ((v2 <? 0xDC00) || (0xDFFF <? v2)); [exists 0, []; eauto|]. rewrite ok_bind.
    cbn [Z.eqb]. set (cp := 0x10000 + _).
    assert (0x10000 ≤ cp ≤ 0x10FFFF) as Hcp.
    { unfold cp. change 0x3FF with (Z.ones 10). rewrite !Z.land_ones by lia.
      pose proof (Z.mod_pos_bound v (2 ^ 10)). pose proof (Z.mod_pos_bound v2 (2 ^ 10)).
      rewrite lor_shift by lia. lia. }
    destruct (Z.ltb_spec cp 0x80); [lia|]. destruct (Z.ltb_spec cp 0x800); [lia|].
    destruct (Z.ltb_spec cp 0x10000); [lia|]. destruct (Z.leb_spec cp 0x10FFFF); [|lia].
    eexists 12, _. split; [reflexivity|]. right; right. split; [done|]. split; [lia|].
    by apply length_utf8_encode; lia.
  - rewrite ok_bind. cbn [Z.eqb].
    destruct (v <? 0x80); [|destruct (v <? 0x800); [|destruct (Z.ltb_spec v 0x10000); [|lia]]].
    all: eexists 6, _; split; [reflexivity|]; right; left; split; [done|]; split; [lia|].
    all: rewrite length_utf8_encode; lia.
Qed.

(** ** The two passes of [parse_string]

    [pending e nl]: [nl j] is the number of escapes the first pass has counted in the
    positions from [j] to [e]; two backslashes it counted are never neighbours. *)
Record pending (text : list Z) (e : Z) (nl : Z → Z) : Prop := {
  pn_end : ∀ j, e ≤ j → nl j = 0;
  pn_mono : ∀ j, nl (j + 1) ≤ nl j;
  pn_two : ∀ j, nl j ≤ nl (j + 2) + 1;
  pn_plain : ∀ j c, blk_load text j = Ok c → c ≠ 92 → nl (j + 1) = nl j;
  pn_range : ∀ j, 0 ≤ nl j ≤ Z.max 0 (e - j)
}.

Lemma pending_nil text e : pending text e (λ _, 0).
Proof. split; intros; lia. Qed.

(** A counted backslash at [i], before everything counted so far. *)
Lemma pending_escape text e nl i : pending text e nl → i + 2 ≤ e → blk_load text i = Ok 92 →
  (∀ j, j < i + 2 → nl j = nl (i + 2)) →
  pending text e (λ j, if j <=? i then nl (i + 2) + 1 else nl j).
Proof.
  intros [He Hm Ht Hp Hr] Hie Hi Hc. split; intros j.
  - intros Hj. destruct (Z.leb_spec j i); [lia|]. by apply He.
  - destruct (Z.leb_spec j i), (Z.leb_spec (j + 1) i); try lia; [|by apply Hm].
    rewrite (Hc (j + 1)) by lia. lia.
  - destruct (Z.leb_spec j i), (Z.leb_spec (j + 2) i); try lia; [|by apply Ht].
    destruct (decide (j + 2 = i + 2)) as [->|]; [lia|]. rewrite (Hc (j + 2)) by lia. lia.
  - intros c Hl Hne. destruct (Z.leb_spec j i), (Z.leb_spec (j + 1) i); try lia.
    + assert (j = i) as -> by lia. congruence.
    + by eapply Hp.
  - pose proof (Hr j). pose proof (Hr (i + 2)). destruct (Z.leb_spec j i); lia.
Qed.

Section text.
Context `{CJsonH} (alloc : nat → Z → bool) (junk : Z) (text : list Z) (L : Z).
Hypothesis text_length : 0 < L ≤ Z.of_nat (length text).
Hypothesis text_nul : blk_load text (L - 1) = Ok 0.
Implicit Types (b : parse_buffer).

(** A parse buffer over this text. *)
Definition over b : Prop := content b = text ∧ pb_length b = L.

Lemma load_in i : 0 ≤ i < L → ∃ c, blk_load text i = Ok c.
Proof. intros Hi. apply blk_load_in. lia. Qed.

(** A byte other than NUL is not the last one. *)
Lemma not_last i c : blk_load text i = Ok c → c ≠ 0 → i < L → i + 1 < L.
Proof. intros Hi Hc Hlt. destruct (decide (i = L - 1)) as [->|]; [congruence|lia]. Qed.

Lemma find_end_spec fuel b : over b → ∀ i skipped, 0 ≤ i → (Z.to_nat (L - i) < fuel)%nat →
  ∃ r, find_end fuel b i skipped = Ok r ∧
    match r with
    | None => True
    | Some (e, n) => i ≤ e ∧ e + 1 < L ∧ ∃ nl, pending text e nl ∧ n = skipped + nl i ∧
        ∀ j, j < i → nl j = nl i
    end.
Proof.
  intros [Hct Hlen]. induction fuel as [|fuel IH]; intros i skipped Hi Hf; [lia|]. cbn [find_end].
  rewrite Hlen, Hct. destruct (Z.ltb_spec i L); [|by exists None].
  destruct (load_in i) as (c & Hc); [lia|]. rewrite Hc, ok_bind.
  destruct (Z.eqb_spec c 34) as [->|].
  { eexists. split; [done|]. split; [lia|]. split; [by eapply not_last|].
    exists (λ _, 0). split; [apply pending_nil|]. split; [lia|done]. }
  destruct (Z.eqb_spec c 92) as [->|].
  - destruct (Z.leb_spec L (i + 1)); [by exists None|].
    destruct (IH (i + 2) (skipped + 1)) as (r & -> & Hr); [lia|lia|]. exists r. split; [done|].
    destruct r as [[e m]|]; [|done]. destruct Hr as (Hie & He & nl & Hp & Hn & Hcst).
    split; [lia|]. split; [done|]. eexists. split; [by apply (pending_escape text e nl i)|].
    cbn beta. rewrite (proj2 (Z.leb_le i i)) by lia. split; [lia|].
    intros j Hj. destruct (Z.leb_spec j i); lia.
  - destruct (IH (i + 1) skipped) as (r & -> & Hr); [lia|lia|]. exists r. split; [done|].
    destruct r as [[e m]|]; [|done]. destruct Hr as (Hie & He & nl & Hp & Hn & Hcst).
    split; [lia|]. split; [done|]. exists nl. split; [done|].
    assert (nl (i + 1) = nl i) as Heq by (by eapply pn_plain). split; [lia|].
    intros j Hj. rewrite (Hcst j) by lia. lia.
Qed.

(** Room for what is left to convert. *)
Definition room (e : Z) (nl : Z → Z) (p : Z) (output : list Z) (op : Z) : Prop :=
  0 ≤ op ∧ op + (e - p) - nl p + 2 ≤ Z.of_nat (length output).

Lemma pn_step k text' e nl j : pending text' e nl → (0 < k)%nat →
  nl j ≤ nl (j + 2 * Z.of_nat k) + Z.of_nat k.
Proof.
  intros Hp Hk. induction k as [|k IH]; [lia|]. destruct k as [|k].
  - pose proof (pn_two _ _ _ Hp j). replace (j + 2 * Z.of_nat 1) with (j + 2) by lia. lia.
  - pose proof (pn_two _ _ _ Hp (j + 2 * Z.of_nat (S k))) as Ht.
    replace (j + 2 * Z.of_nat (S k) + 2) with (j + 2 * Z.of_nat (S (S k))) in Ht by lia.
    specialize (IH ltac:(lia)). lia.
Qed.

Lemma memwrite_in dst off bs : 0 ≤ off → off + Z.of_nat (length bs) ≤ Z.of_nat (length dst) →
  ∃ d, memwrite dst off bs = Ok d ∧ length d = length dst.
Proof.
  intros Ho Hl. destruct (memwrite dst off bs) as [d| |] eqn:E; [|rewrite memwrite_Ok in E by done; done..].
  exists d. split; [done|]. by apply (memread_memwrite _ _ _ _ E).
Qed.

Lemma unescape_spec fuel e nl : pending text e nl → e + 1 < L → ∀ p output op,
  0 ≤ p ≤ e + 1 → (Z.to_nat (e - p) < fuel)%nat → room e nl p output op →
  ∃ r, unescape fuel text p e output op = Ok r ∧
    match r with
    | inr _ => True
    | inl (output', op') => 0 ≤ op' < Z.of_nat (length output')
    end.
Proof.
  intros Hp He. induction fuel as [|fuel IH]; intros p output op Hpe Hf [Hop Hroom]; [lia|]. cbn [unescape].
  destruct (Z.ltb_spec p e) as [Hlt|]; cbn [negb].
  2: { eexists. split; [done|]. rewrite (pn_end _ _ _ Hp p) in Hroom by lia. cbv iota beta. lia. }
  pose proof (pn_range _ _ _ Hp p) as Hrg.
  destruct (load_in p) as (c & Hc); [lia|]. rewrite Hc, ok_bind.
  destruct (Z.eqb_spec c 92) as [->|Hne]; cbn [negb].
  2: { destruct (blk_store_in output op c) as (o' & -> & Hl); [lia|]. rewrite ok_bind. apply IH; [lia|lia|].
       split; [lia|]. rewrite Hl, (pn_plain _ _ _ Hp p c) by done. lia. }
  destruct (Z.ltb_spec (e - p) 1); [lia|].
  destruct (load_in (p + 1)) as (c1 & Hc1); [lia|]. rewrite Hc1, ok_bind.
  destruct (Z.eqb_spec c1 117) as [->|].
  - destruct (utf16_cases text p e) as (len & bytes & -> & Hcase); [lia|lia|]. rewrite ok_bind.
    destruct (Z.eqb_spec len 0); [by eexists|].
    assert (∃ k, len = 2 * Z.of_nat k ∧ (0 < k)%nat ∧ p + len ≤ e ∧ Z.of_nat (length bytes) ≤ Z.of_nat k) as (k & -> & Hk & Hlen & Hb).
    { destruct Hcase as [|[(-> & ? & ?)|(-> & ? & ?)]]; [done|exists 3%nat; lia|exists 6%nat; lia]. }
    pose proof (pn_step k text e nl p Hp Hk). pose proof (pn_range _ _ _ Hp (p + 2 * Z.of_nat k)).
    destruct (memwrite_in output op bytes) as (o' & -> & Hl); [lia|lia|]. rewrite ok_bind.
    apply IH; [lia|lia|]. split; [lia|]. rewrite Hl. lia.
  - destruct (simple_escape c1) as [x|]; [|by eexists].
    pose proof (pn_two _ _ _ Hp p). pose proof (pn_range _ _ _ Hp (p + 2)).
    destruct (blk_store_in output op x) as (o' & -> & Hl); [lia|]. rewrite ok_bind.
    apply IH; [lia|lia|]. split; [lia|]. rewrite Hl. lia.
Qed.

(** ** What a successful step of the parser leaves: further on, before the NUL *)
Definition advanced b b' : Prop :=
  over b' ∧ depth b' = depth b ∧ offset b < offset b' < L.

Lemma parse_string_spec b : over b → 0 ≤ offset b < L →
  ∃ r b', parse_string alloc junk b = Ok (r, b') ∧ (is_Some r → advanced b b').
Proof.
  intros Hov Ho. pose proof Hov as [Hct Hlen]. unfold parse_string, buffer_at.
  rewrite Hct, Z.add_0_r. destruct (load_in (offset b)) as (c & ->); [lia|]. rewrite ok_bind.
  destruct (Z.eqb_spec c 34) as [->|]; cbn [negb]; [|eexists None, _; split; [done|]; by intros []].
  destruct (find_end_spec (text_fuel b) b Hov (offset b + 1) 0) as (r & -> & Hr);
    [lia|unfold text_fuel; rewrite Hlen; lia|]. rewrite ok_bind.
  destruct r as [[e m]|]; [|eexists None, _; split; [done|]; by intros []].
  destruct Hr as (Hie & He & nl & Hp & Hn & _). unfold allocate.
  destruct (alloc _ _); cbn [negb]; [|eexists None, _; split; [done|]; by intros []].
  cbn [content]. rewrite Hct. pose proof (pn_range _ _ _ Hp (offset b + 1)).
  destruct (unescape_spec (text_fuel b) e nl Hp He (offset b + 1)
    (replicate (Z.to_nat (e - offset b - m + 1)) junk) 0) as (u & Hu & Hcase);
    [lia|unfold text_fuel; rewrite Hlen; lia|split; [lia|rewrite length_replicate; lia]|].
  change (text_fuel (mk_pb _ _ _ _ _)) with (text_fuel b). rewrite Hu, ok_bind.
  destruct u as [[o' op']|q]; [|eexists None, _; split; [done|]; by intros []].
  destruct (blk_store_in o' op' 0) as (o2 & -> & _); [lia|]. rewrite ok_bind.
  eexists _, _. split; [reflexivity|]. intros _. repeat split; simpl; lia.
Qed.

Lemma copy_number_spec n b : over b → ∀ i, 0 ≤ offset b + i →
  ∃ t, copy_number n b i = Ok t ∧ (t ≠ [] → offset b + i + Z.of_nat (length t) < L).
Proof.
  intros [Hct Hlen]. induction n as [|n IH]; intros i Hi; cbn [copy_number]; [by exists []|].
  unfold can_access_at_index, buffer_at. rewrite Hlen, Hct.
  destruct (Z.ltb_spec (offset b + i) L); [|by exists []].
  destruct (load_in (offset b + i)) as (c & Hc); [lia|]. rewrite Hc, ok_bind.
  destruct (number_char c) eqn:Hn; [|by exists []].
  destruct (IH (i + 1)) as (t & -> & Ht); [lia|]. rewrite ok_bind. exists (c :: t). split; [done|]. intros _.
  assert (offset b + i + 1 < L) by (apply not_last with c; [done|by intros ->|lia]).
  destruct t as [|c' t]; [simpl; lia|]. specialize (Ht ltac:(done)). simpl in *. lia.
Qed.

Lemma parse_number_spec item b : over b → 0 ≤ offset b < L →
  ∃ r b', parse_number item b = Ok (r, b') ∧ (is_Some r → advanced b b').
Proof.
  intros Hov Ho. unfold parse_number. destruct (copy_number_spec 63 b Hov 0) as (t & -> & Ht); [lia|].
  rewrite ok_bind. destruct (strtod t) as [d k] eqn:E. apply strtod_length in E.
  destruct (Nat.eqb_spec k 0); [eexists None, _; split; [done|]; by intros []|].
  eexists _, _. split; [reflexivity|]. intros _. assert (t ≠ []) by (intros ->; simpl in *; lia).
  specialize (Ht ltac:(done)). destruct Hov. repeat split; simpl; lia || done.
Qed.

(** ** Whitespace and literals *)
Lemma skip_loop_spec fuel : ∀ b, over b → 0 ≤ offset b ≤ L → (Z.to_nat (L - offset b) < fuel)%nat →
  ∃ b', skip_loop fuel b = Ok b' ∧ over b' ∧ depth b' = depth b ∧ offset b ≤ offset b' ≤ L.
Proof.
  induction fuel as [|fuel IH]; intros b Hov Ho Hf; [lia|]. pose proof Hov as [Hct Hlen]. cbn [skip_loop].
  unfold can_access_at_index, buffer_at. rewrite Hct, Hlen, Z.add_0_r.
  destruct (Z.ltb_spec (offset b) L); [|exists b; split_and!; done || lia].
  destruct (load_in (offset b)) as (c & ->); [lia|]. rewrite ok_bind.
  destruct (c <=? 32); [|exists b; split_and!; done || lia].
  destruct (IH (set_offset (offset b + 1) b)) as (b' & -> & Hov' & Hd' & Ho'); [done|simpl; lia|simpl; lia|].
  exists b'. simpl in *. split_and!; done || lia.
Qed.

Lemma skip_ws_spec b : over b → 0 ≤ offset b ≤ L →
  ∃ b', buffer_skip_whitespace b = Ok b' ∧ over b' ∧ depth b' = depth b ∧
    offset b ≤ offset b' ≤ L ∧ (offset b < L → offset b' < L).
Proof.
  intros Hov Ho. unfold buffer_skip_whitespace, can_access_at_index. rewrite Z.add_0_r.
  pose proof Hov as [Hct Hlen]. rewrite Hlen. destruct (Z.ltb_spec (offset b) L); cbn [negb].
  2: { exists b. split_and!; done || lia. }
  destruct (skip_loop_spec (text_fuel b) b) as (b' & -> & Hov' & Hd' & Ho'); [done|lia|unfold text_fuel; rewrite Hlen; lia|].
  rewrite ok_bind. pose proof Hov' as [Hct' Hlen']. rewrite Hlen'. eexists. split; [reflexivity|].
  destruct (Z.eqb_spec (offset b') L); simpl; split_and!; done || lia.
Qed.

Lemma accessible_is_spec b c : over b → 0 ≤ offset b →
  ∃ t, accessible_is b c = Ok t ∧ (t = true → offset b < L ∧ (c ≠ 0 → offset b + 1 < L)).
Proof.
  intros [Hct Hlen] Ho. unfold accessible_is, can_access_at_index, buffer_at. rewrite Hct, Hlen, Z.add_0_r.
  destruct (Z.ltb_spec (offset b) L); [|by exists false].
  destruct (load_in (offset b)) as (x & Hx); [lia|]. rewrite Hx, ok_bind. eexists. split; [done|].
  intros ->%Z.eqb_eq. split; [lia|]. intros Hc. by eapply not_last.
Qed.

Lemma reads_literal_spec b lit : over b → 0 ≤ offset b → lit ≠ [] → last lit ≠ Some 0 →
  ∃ t, reads_literal b lit = Ok t ∧ (t = true → offset b + Z.of_nat (length lit) < L).
Proof.
  intros [Hct Hlen] Ho Hne Hlast. unfold reads_literal, can_read, literal_at. rewrite Hct, Hlen.
  destruct (Z.leb_spec (offset b + Z.of_nat (length lit)) L) as [Hle|]; [|by exists false].
  rewrite memread_Ok, ok_bind by lia. eexists. split; [done|]. intros Heq%bool_decide_eq_true.
  destruct (decide (offset b + Z.of_nat (length lit) = L)) as [HL|]; [|lia]. exfalso. apply Hlast.
  assert (0 < length lit)%nat as Hpos by (destruct lit; [done|simpl; lia]).
  rewrite last_lookup. set (k := pred (length lit)). assert (k < length lit)%nat by lia.
  assert (lit !! k = text !! Z.to_nat (L - 1)) as ->.
  { rewrite <- Heq, lookup_take_lt, lookup_drop by lia. f_equal. lia. }
  revert text_nul. unfold blk_load. rewrite bool_decide_eq_true_2 by lia. by intros ?%of_opt_Ok.
Qed.

(** ** Arrays, objects, values *)
Definition pv_ok (d : Z) (pv : parser) : Prop := ∀ item b, over b → depth b = d → 0 ≤ offset b < L →
  ∃ r b', pv item b = Ok (r, b') ∧ (is_Some r → advanced b b').

(** A failed outcome satisfies any claim about successes. *)
Ltac give_up_branch := eexists None, _; split; [reflexivity|by intros []].

Lemma array_loop_spec d pv n : pv_ok d pv → ∀ acc b, over b → depth b = d → 0 ≤ offset b → offset b + 1 < L →
  (Z.to_nat (L - offset b) < n)%nat →
  ∃ r b', array_loop alloc n pv acc b = Ok (r, b') ∧
    (is_Some r → over b' ∧ depth b' = d ∧ offset b < offset b' ∧ offset b' + 1 < L).
Proof.
  intros Hpv. induction n as [|n IH]; intros acc b Hov Hd Ho HoL Hf; [lia|]. cbn [array_loop]. unfold allocate.
  destruct (alloc _ _); cbn [negb]; [|give_up_branch].
  match goal with |- context [buffer_skip_whitespace ?x] => destruct (skip_ws_spec x)
    as (b1 & -> & Hov1 & Hd1 & Ho1 & Hlt1) end; [done|simpl; lia|]. rewrite ok_bind. cbn [set_offset offset depth] in *.
  destruct (Hpv zero_item b1) as (r & b2 & -> & Hr); [done|congruence|lia|]. rewrite ok_bind.
  destruct r as [v|]; [|give_up_branch]. destruct (Hr ltac:(done)) as (Hov2 & Hd2 & Ho2).
  destruct (skip_ws_spec b2) as (b3 & -> & Hov3 & Hd3 & Ho3 & Hlt3); [done|lia|]. rewrite ok_bind.
  destruct (accessible_is_spec b3 44) as (t & -> & Ht); [done|lia|]. rewrite ok_bind. destruct t.
  - destruct (Ht eq_refl) as [_ Hc]. specialize (Hc ltac:(done)).
    destruct (IH (acc ++ [v]) b3) as (r & b4 & -> & Hr4); [done|congruence|lia|lia|lia|].
    eexists _, _. split; [reflexivity|]. intros Hs. destruct (Hr4 Hs) as (? & ? & ? & ?). split_and!; done || lia.
  - destruct (accessible_is_spec b3 93) as (t & -> & Ht'); [done|lia|]. rewrite ok_bind. destruct t; [|give_up_branch].
    destruct (Ht' eq_refl) as [_ Hc]. specialize (Hc ltac:(done)).
    eexists _, _. split; [reflexivity|]. intros _. split_and!; congruence || lia || done.
Qed.

Lemma object_loop_spec d pv n : pv_ok d pv → ∀ acc b, over b → depth b = d → 0 ≤ offset b → offset b + 1 < L →
  (Z.to_nat (L - offset b) < n)%nat →
  ∃ r b', object_loop alloc junk n pv acc b = Ok (r, b') ∧
    (is_Some r → over b' ∧ depth b' = d ∧ offset b < offset b' ∧ offset b' + 1 < L).
Proof.
  intros Hpv. induction n as [|n IH]; intros acc b Hov Hd Ho HoL Hf; [lia|]. cbn [object_loop]. unfold allocate.
  destruct (alloc _ _); cbn [negb]; [|give_up_branch].
  match goal with |- context [buffer_skip_whitespace ?x] => destruct (skip_ws_spec x)
    as (b1 & -> & Hov1 & Hd1 & Ho1 & Hlt1) end; [done|simpl; lia|]. rewrite ok_bind. cbn [set_offset offset depth] in *.
  destruct (parse_string_spec b1) as (s & b2 & -> & Hs2); [done|lia|]. rewrite ok_bind.
  destruct s as [name|]; [|give_up_branch]. destruct (Hs2 ltac:(done)) as (Hov2 & Hd2 & Ho2).
  destruct (skip_ws_spec b2) as (b3 & -> & Hov3 & Hd3 & Ho3 & Hlt3); [done|lia|]. rewrite ok_bind.
  destruct (accessible_is_spec b3 58) as (t & -> & Ht); [done|lia|]. rewrite ok_bind.
  destruct t; cbn [negb]; [|give_up_branch]. destruct (Ht eq_refl) as [_ Hcol]. specialize (Hcol ltac:(done)).
  destruct (skip_ws_spec (set_offset (offset b3 + 1) b3)) as (b4 & -> & Hov4 & Hd4 & Ho4 & Hlt4);
    [done|simpl; lia|]. rewrite ok_bind. cbn [set_offset offset depth] in *.
  destruct (Hpv (Item cJSON_String None 0 (S754_zero false) (Some name) []) b4) as (r & b5 & -> & Hr);
    [done|congruence|lia|]. rewrite ok_bind.
  destruct r as [v|]; [|give_up_branch]. destruct (Hr ltac:(done)) as (Hov5 & Hd5 & Ho5).
  destruct (skip_ws_spec b5) as (b6 & -> & Hov6 & Hd6 & Ho6 & Hlt6); [done|lia|]. rewrite ok_bind.
  destruct (accessible_is_spec b6 44) as (t & -> & Ht6); [done|lia|]. rewrite ok_bind. destruct t.
  - destruct (Ht6 eq_refl) as [_ Hc]. specialize (Hc ltac:(done)).
    destruct (IH (acc ++ [v]) b6) as (r & b7 & -> & Hr7); [done|congruence|lia|lia|lia|].
    eexists _, _. split; [reflexivity|]. intros Hs. destruct (Hr7 Hs) as (? & ? & ? & ?). split_and!; done || lia.
  - destruct (accessible_is_spec b6 125) as (t & -> & Ht'); [done|lia|]. rewrite ok_bind. destruct t; [|give_up_branch].
    destruct (Ht' eq_refl) as [_ Hc]. specialize (Hc ltac:(done)).
    eexists _, _. split; [reflexivity|]. intros _. split_and!; congruence || lia || done.
Qed.

Lemma parse_array_spec pv item b : over b → 0 ≤ offset b < L →
  (depth b < CJSON_NESTING_LIMIT → pv_ok (depth b + 1) pv) →
  ∃ r b', parse_array alloc pv item b = Ok (r, b') ∧ (is_Some r → advanced b b').
Proof.
  intros Hov Ho Hpv. unfold parse_array. destruct (Z.leb_spec CJSON_NESTING_LIMIT (depth b)); [give_up_branch|].
  specialize (Hpv ltac:(done)). pose proof Hov as [Hct Hlen]. set (b0 := set_depth (depth b + 1) b).
  assert (over b0) as Hov0 by done.
  unfold buffer_at. change (content b0) with (content b). change (offset b0) with (offset b).
  rewrite Hct, Z.add_0_r. destruct (load_in (offset b)) as (c & Hc); [lia|]. rewrite Hc, ok_bind.
  destruct (Z.eqb_spec c 91) as [->|]; cbn [negb]; [|give_up_branch].
  assert (offset b + 1 < L) as Hnx by (apply not_last with 91; done || lia).
  destruct (skip_ws_spec (set_offset (offset b + 1) b0)) as (b1 & -> & Hov1 & Hd1 & Ho1 & Hlt1);
    [done|simpl; lia|]. rewrite ok_bind. cbn [set_offset offset depth b0 set_depth] in *.
  destruct (accessible_is_spec b1 93) as (t & -> & Ht); [done|lia|]. rewrite ok_bind. destruct t.
  - eexists _, _. split; [reflexivity|]. intros _. destruct (Ht eq_refl) as [_ Hcl]. specialize (Hcl ltac:(done)).
    destruct Hov1. repeat split; simpl; done || lia.
  - unfold can_access_at_index. pose proof Hov1 as [_ Hlen1]. rewrite Hlen1, Z.add_0_r.
    destruct (Z.ltb_spec (offset b1) L); [|lia]. cbn [negb].
    destruct (array_loop_spec (depth b + 1) pv (text_fuel b1) Hpv [] (set_offset (offset b1 - 1) b1))
      as (r & b2 & -> & Hr); [done|done|simpl; lia|simpl; lia|unfold text_fuel; rewrite Hlen1; simpl; lia|].
    rewrite ok_bind. destruct r as [l|]; [|give_up_branch]. destruct (Hr ltac:(done)) as (Hov2 & Hd2 & Ho2 & HL2).
    eexists _, _. split; [reflexivity|]. intros _. cbn [set_offset offset] in *. destruct Hov2.
    repeat split; simpl; done || lia.
Qed.

Lemma parse_object_spec pv item b : over b → 0 ≤ offset b < L →
  (depth b < CJSON_NESTING_LIMIT → pv_ok (depth b + 1) pv) →
  ∃ r b', parse_object alloc junk pv item b = Ok (r, b') ∧ (is_Some r → advanced b b').
Proof.
  intros Hov Ho Hpv. unfold parse_object. destruct (Z.leb_spec CJSON_NESTING_LIMIT (depth b)); [give_up_branch|].
  specialize (Hpv ltac:(done)). pose proof Hov as [Hct Hlen]. set (b0 := set_depth (depth b + 1) b).
  assert (over b0) as Hov0 by done.
  destruct (accessible_is_spec b0 123) as (t & -> & Ht0); [done|simpl; lia|]. rewrite ok_bind.
  destruct t; cbn [negb]; [|give_up_branch]. destruct (Ht0 eq_refl) as [_ Hnx]. specialize (Hnx ltac:(done)).
  destruct (skip_ws_spec (set_offset (offset b0 + 1) b0)) as (b1 & -> & Hov1 & Hd1 & Ho1 & Hlt1);
    [done|simpl in *; lia|]. rewrite ok_bind. cbn [set_offset offset depth b0 set_depth] in *.
  destruct (accessible_is_spec b1 125) as (t & -> & Ht); [done|lia|]. rewrite ok_bind. destruct t.
  - eexists _, _. split; [reflexivity|]. intros _. destruct (Ht eq_refl) as [_ Hcl]. specialize (Hcl ltac:(done)).
    destruct Hov1. repeat split; simpl; done || lia.
  - unfold can_access_at_index. pose proof Hov1 as [_ Hlen1]. rewrite Hlen1, Z.add_0_r.
    destruct (Z.ltb_spec (offset b1) L); [|lia]. cbn [negb].
    destruct (object_loop_spec (depth b + 1) pv (text_fuel b1) Hpv [] (set_offset (offset b1 - 1) b1))
      as (r & b2 & -> & Hr); [done|done|simpl; lia|simpl; lia|unfold text_fuel; rewrite Hlen1; simpl; lia|].
    rewrite ok_bind. destruct r as [l|]; [|give_up_branch]. destruct (Hr ltac:(done)) as (Hov2 & Hd2 & Ho2 & HL2).
    eexists _, _. split; [reflexivity|]. intros _. cbn [set_offset offset] in *. destruct Hov2.
    repeat split; simpl; done || lia.
Qed.

Lemma parse_value_spec fuel : ∀ d, d ≤ CJSON_NESTING_LIMIT → (Z.to_nat (CJSON_NESTING_LIMIT - d) < fuel)%nat →
  pv_ok d (parse_value alloc junk fuel).
Proof.
  induction fuel as [|fuel IH]; intros d Hd Hf item b Hov Hdep Ho; [lia|]. cbn [parse_value].
  destruct (reads_literal_spec b lit_null) as (t & -> & Ht); [done|lia|done|done|]. rewrite ok_bind.
  destruct t. { specialize (Ht eq_refl). destruct Hov. eexists _, _. split; [reflexivity|]. intros _. repeat split; simpl in *; done || lia. }
  destruct (reads_literal_spec b lit_false) as (t & -> & Htf); [done|lia|done|done|]. rewrite ok_bind.
  destruct t. { specialize (Htf eq_refl). destruct Hov. eexists _, _. split; [reflexivity|]. intros _. repeat split; simpl in *; done || lia. }
  destruct (reads_literal_spec b lit_true) as (t & -> & Htt); [done|lia|done|done|]. rewrite ok_bind.
  destruct t. { specialize (Htt eq_refl). destruct Hov. eexists _, _. split; [reflexivity|]. intros _. repeat split; simpl in *; done || lia. }
  unfold can_access_at_index, buffer_at. pose proof Hov as [Hct Hlen]. rewrite Hlen, Hct, Z.add_0_r.
  destruct (Z.ltb_spec (offset b) L); [|lia]. cbn [negb].
  destruct (load_in (offset b)) as (c & ->); [lia|]. rewrite ok_bind.
  destruct (c =? 34).
  { destruct (parse_string_spec b) as (s & b' & -> & Hs); [done|lia|]. rewrite ok_bind.
    destruct s; [|give_up_branch]. eexists _, _. split; [reflexivity|]. intros _. by apply Hs. }
  assert (depth b < CJSON_NESTING_LIMIT → pv_ok (depth b + 1) (parse_value alloc junk fuel)) as Hpv
    by (intros; apply IH; lia).
  destruct ((c =? 45) || is_digit c); [by apply parse_number_spec|].
  destruct (c =? 91); [by apply parse_array_spec|].
  destruct (c =? 123); [by apply parse_object_spec|]. give_up_branch.
Qed.
Lemma skip_utf8_bom_spec b : over b → 0 ≤ offset b < L →
  ∃ b', skip_utf8_bom b = Ok b' ∧ over b' ∧ depth b' = depth b ∧ offset b ≤ offset b' < L.
Proof using text_length.
  intros [Hct Hlen] Ho. unfold skip_utf8_bom, can_access_at_index, literal_at. rewrite Hct, Hlen.
  destruct (Z.ltb_spec (offset b + 4) L); [|exists b; split_and!; done || lia].
  rewrite memread_Ok, ok_bind by (simpl; lia). eexists. split; [reflexivity|].
  case_match; split_and!; cbn [set_offset offset]; done || lia.
Qed.

Lemma error_position_spec b : over b → 0 ≤ offset b → 0 ≤ error_position b < L.
Proof using text_length.
  intros [_ Hlen] Ho. unfold error_position. rewrite Hlen. repeat case_match; bool_case; lia.
Qed.

(** The entry point, for either value of the flag. *)
Lemma parse_opts_ok require : 0 < CJSON_NESTING_LIMIT →
  ∃ r p, cJSON_ParseWithLengthOpts alloc junk text L require = Ok (r, p).
Proof using text_length text_nul.
  intros Hlim. unfold cJSON_ParseWithLengthOpts, allocate. cbn [allocs content pb_length offset depth].
  destruct (Z.eqb_spec L 0); [eauto|].
  destruct (alloc _ _); cbn [negb]; [|eauto].
  destruct (skip_utf8_bom_spec (mk_pb text L 0 0 1)) as (b1 & -> & Hov1 & Hd1 & Ho1); [done|simpl; lia|].
  rewrite ok_bind. cbn [offset depth] in *.
  destruct (skip_ws_spec b1) as (b2 & -> & Hov2 & Hd2 & Ho2 & Hlt2); [done|lia|]. rewrite ok_bind.
  destruct (parse_value_spec nesting_fuel 0 ltac:(lia) ltac:(unfold nesting_fuel; lia) zero_item b2)
    as (v & b3 & -> & Hv); [done|congruence|lia|]. rewrite ok_bind.
  destruct v as [v|]; [|eauto]. destruct (Hv ltac:(done)) as (Hov3 & _ & Ho3). destruct require; [|eauto].
  destruct (skip_ws_spec b3) as (b4 & -> & Hov4 & _ & Ho4 & Hlt4); [done|lia|]. rewrite ok_bind.
  unfold buffer_at. pose proof Hov4 as [-> ->]. destruct (Z.leb_spec L (offset b4)); [rewrite ok_bind; eauto|].
  destruct (load_in (offset b4 + 0)) as (c & ->); [lia|]. rewrite ok_bind. case_match; eauto.
Qed.
End text.

(** ** C strings *)
Lemma strlen_cstr s rest : Forall (λ c, c ≠ 0) s → strlen (s ++ 0 :: rest) = Ok (Z.of_nat (length s)).
Proof.
  induction 1 as [|c s Hc _ IH]; cbn [app strlen length]; [done|].
  rewrite (proj2 (Z.eqb_neq c 0) Hc), IH, ok_bind. f_equal. lia.
Qed.

Lemma cstr_nul s rest : blk_load (s ++ 0 :: rest) (Z.of_nat (length s) + 1 - 1) = Ok 0.
Proof. apply blk_load_Ok; [lia|]. replace (Z.to_nat _) with (length s + 0)%nat by lia. rewrite lookup_app_r, Nat.add_comm, Nat.add_sub by lia. done. Qed.

(** C6. [cJSON_ParseWithOpts], and so [cJSON_Parse], on any NUL-terminated text: whatever the
    bytes, whatever lies behind the NUL, whichever allocations fail and whatever the fresh
    blocks hold, the parser returns, with an item or without, and never accesses memory
    outside the text and its own blocks. *)
Theorem cJSON_Parse_safe `{CJsonHOk} (alloc : nat → Z → bool) (junk : Z) (s rest : list Z) (require : bool) :
  Forall (λ c, c ≠ 0) s →
  ∃ r p, cJSON_ParseWithOpts alloc junk (s ++ 0 :: rest) require = Ok (r, p).
Proof.
  intros Hs. unfold cJSON_ParseWithOpts. rewrite strlen_cstr, ok_bind by done.
  apply parse_opts_ok; [rewrite length_app; simpl; lia|apply cstr_nul|apply nesting_limit_pos].
Qed.

(** A text cut in the middle of a string, with an allocator that fails from its third call. *)
Lemma cJSON_Parse_safe_witness :
  ∃ r p, cJSON_ParseWithOpts (λ n _, Nat.leb n 2) 170 ([123; 34; 92; 117; 100; 56; 49] ++ 0 :: [34; 34]) true = Ok (r, p).
Proof. apply cJSON_Parse_safe. repeat constructor; lia. Defined.
