(* ===== verification/CJsonPrint.v ===== *)
(** * CJsonPrint: the printer of cJSON.c

    The print buffer, and the functions of cJSON.c that render an item into it as programs of
    a monad over bounds-checked memory: a function that returns [false] has the outcome
    [None].  The pointer [ensure] returns is the buffer at its offset.  [alloc] says which
    allocations succeed, [junk] is the content of fresh memory and [has_realloc] whether
    the hooks offer [realloc]. *)

From Stdlib Require Import Floats.SpecFloat.
From S2P Require Import Prelude CDouble CJson.
#[local] Open Scope Z_scope.

(** ** The print buffer; [pallocs] counts the allocations made *)
Record printbuffer := mk_pr {
  pbuf : option (list Z);
  plength : Z;
  poffset : Z;
  pdepth : Z;
  noalloc : bool;
  format : bool;
  pallocs : nat
}.

Definition set_poffset o p := mk_pr (pbuf p) (plength p) o (pdepth p) (noalloc p) (format p) (pallocs p).
Definition set_pdepth d p := mk_pr (pbuf p) (plength p) (poffset p) d (noalloc p) (format p) (pallocs p).
Definition set_pbuf b p := mk_pr b (plength p) (poffset p) (pdepth p) (noalloc p) (format p) (pallocs p).

(** A function that renders into the buffer: [None] is [return false]. *)
Definition printer (A : Type) : Type := printbuffer → result (option A * printbuffer).

#[export] Instance printer_ret : MRet printer := λ A a p, Ok (Some a, p).
#[export] Instance printer_bind : MBind printer := λ A B f m p,
  match m p with
  | Ok (Some a, p) => f a p
  | Ok (None, p) => Ok (None, p)
  | Ub => Ub
  | OutOfFuel => OutOfFuel
  end.

Definition fail {A} : printer A := λ p, Ok (None, p).
Definition get : printer printbuffer := λ p, Ok (Some p, p).

(** Bytes written at the pointer [ensure] returned, [off] bytes further. *)
Definition put (off : Z) (bytes : list Z) : printer unit := λ p,
  b ← of_opt (pbuf p);
  b ← memwrite b (poffset p + off) bytes;
  Ok (Some tt, set_pbuf (Some b) p).

Definition advance (n : Z) : printer unit := λ p, Ok (Some tt, set_poffset (poffset p + n) p).
Definition deeper (n : Z) : printer unit := λ p, Ok (Some tt, set_pdepth (pdepth p + n) p).

Section print.
Context `{CJsonH} (alloc : nat → Z → bool) (junk : Z) (has_realloc : bool).

(** The block of a successful reallocation: [realloc] keeps the old bytes, the manual copy
    those up to the offset. *)
Definition grown (p : printbuffer) (b : list Z) (newsize : Z) : result (list Z) :=
  let fresh := replicate (Z.to_nat newsize) junk in
  if has_realloc then memwrite fresh 0 (take (Z.to_nat newsize) b)
  else memcpy fresh 0 b 0 (poffset p + 1).

Definition ensure (needed : Z) : printer unit := λ p,
  match pbuf p with
  | None => Ok (None, p)
  | Some b =>
      if (0 <? plength p) && (plength p <=? poffset p) then Ok (None, p) else
      if INT_MAX <? needed then Ok (None, p) else
      let needed := u64 (needed + poffset p + 1) in
      if needed <=? plength p then Ok (Some tt, p) else
      if noalloc p then Ok (None, p) else
      if (INT_MAX / 2 <? needed) && (INT_MAX <? needed) then Ok (None, p) else
      let newsize := if INT_MAX / 2 <? needed then INT_MAX else needed * 2 in
      if alloc (pallocs p) newsize then
        b ← grown p b newsize;
        Ok (Some tt, mk_pr (Some b) newsize (poffset p) (pdepth p) (noalloc p) (format p) (S (pallocs p)))
      else
        Ok (None, mk_pr None 0 (poffset p) (pdepth p) (noalloc p) (format p) (S (pallocs p)))
  end.

Definition update_offset : printer unit := λ p,
  match pbuf p with
  | None => Ok (Some tt, p)
  | Some b =>
      tail ← (if bool_decide (0 ≤ poffset p) then Ok (drop (Z.to_nat (poffset p)) b) else Ub);
      n ← strlen tail;
      Ok (Some tt, set_poffset (poffset p + n) p)
  end.

(** ** Numbers *)
Definition compare_double (a b : double) : bool :=
  let maxVal := if SFltb (fabs b) (fabs a) then fabs a else fabs b in
  SFleb (fabs (SFsub PREC EMAX a b)) (SFmul PREC EMAX maxVal DBL_EPSILON).

(** [sscanf("%lg", &test)] succeeds and recovers [d]. *)
Definition recovers (text : list Z) (d : double) : bool :=
  let '(test, consumed) := strtod text in
  negb (Nat.eqb consumed 0) && compare_double test d.

Definition number_text (d : double) : list Z :=
  if isnan d || isinf d then lit_null
  else if recovers (fmt_g 15 d) d then fmt_g 15 d else fmt_g 17 d.

Definition print_number (item : cJSON) : printer unit := λ p,
  let text := number_text (valuedouble item) in
  let length := Z.of_nat (length text) in
  number_buffer ← memwrite (replicate 26 0) 0 (text ++ [0]);
  if 25 <? length then Ok (None, p) else
  (ensure (length + 1);;
   put 0 (take (Z.to_nat length) number_buffer ++ [0]);;
   advance length) p.

(** ** Strings *)
Definition escapes (c : Z) : Z :=
  if (c =? 34) || (c =? 92) || (c =? 8) || (c =? 12) || (c =? 10) || (c =? 13) || (c =? 9) then 1
  else if c <? 32 then 5 else 0.

Definition escape_characters (input : list Z) : Z := foldr (λ c n, escapes c + n) 0 input.

Definition hex_char (d : Z) : Z := if d <? 10 then 48 + d else 97 + d - 10.

(** The bytes one character writes and how far the output pointer moves; the [sprintf] of
    the last case also writes a NUL. *)
Definition escaped (c : Z) : list Z * Z :=
  if (31 <? c) && negb (c =? 34) && negb (c =? 92) then ([c], 1)
  else if c =? 92 then ([92; 92], 2)
  else if c =? 34 then ([92; 34], 2)
  else if c =? 8 then ([92; 98], 2)
  else if c =? 12 then ([92; 102], 2)
  else if c =? 10 then ([92; 110], 2)
  else if c =? 13 then ([92; 114], 2)
  else if c =? 9 then ([92; 116], 2)
  else ([92; 117; 48; 48; hex_char (c / 16); hex_char (c mod 16); 0], 6).

Fixpoint escape_loop (input : list Z) (output_pointer : Z) : printer unit :=
  match input with
  | [] => mret tt
  | c :: input =>
      let '(bytes, n) := escaped c in
      put output_pointer bytes;; escape_loop input (output_pointer + n)
  end.

Definition print_string_ptr (input : option (list Z)) : printer unit :=
  match input with
  | None => ensure 3;; put 0 [34; 34; 0]
  | Some input =>
      let output_length := Z.of_nat (length input) + escape_characters input in
      ensure (output_length + 3);;
      if escape_characters input =? 0 then
        put 0 [34];; put 1 input;; put (output_length + 1) [34];; put (output_length + 2) [0]
      else
        put 0 [34];; escape_loop input 1;; put (output_length + 1) [34];; put (output_length + 2) [0]
  end.

(** ** Values *)
(** The loop over the elements; [pv] prints a value. *)
Definition print_elements (pv : cJSON → printer unit) : list cJSON → printer unit :=
  fix elements (l : list cJSON) : printer unit :=
    match l with
    | [] => mret tt
    | current_element :: l =>
        (pv current_element;; update_offset);;
        p ← get;
        (if l is [] then mret tt else
           let length := if format p then 2 else 1 in
           ensure (length + 1);;
           put 0 ([44] ++ (if format p then [32] else []) ++ [0]);;
           advance length);;
        elements l
    end.

Definition print_array (pv : cJSON → printer unit) (child : list cJSON) : printer unit :=
  ensure 1;;
  put 0 [91];; advance 1;; deeper 1;;
  print_elements pv child;;
  ensure 2;;
  put 0 [93; 0];; deeper (-1).

Definition tabs (n : Z) : list Z := replicate (Z.to_nat n) 9.

(** The loop over the members. *)
Definition print_members (pv : cJSON → printer unit) : list cJSON → printer unit :=
  fix members (l : list cJSON) : printer unit :=
    match l with
    | [] => mret tt
    | current_item :: l =>
        p ← get;
        (if format p then ensure (pdepth p);; put 0 (tabs (pdepth p));; advance (pdepth p) else mret tt);;
        (print_string_ptr (string_ current_item);; update_offset);;
        (let length := if format p then 2 else 1 in
         ensure length;; put 0 ([58] ++ (if format p then [9] else []));; advance length);;
        (pv current_item;; update_offset);;
        (let length := (if format p then 1 else 0) + (if l is [] then 0 else 1) in
         ensure (length + 1);;
         put 0 ((if l is [] then [] else [44]) ++ (if format p then [10] else []) ++ [0]);;
         advance length);;
        members l
    end.

Definition print_object (pv : cJSON → printer unit) (child : list cJSON) : printer unit :=
  p ← get;
  let length := if format p then 2 else 1 in
  ensure (length + 1);;
  put 0 ([123] ++ (if format p then [10] else []));; advance length;; deeper 1;;
  print_members pv child;;
  p ← get;
  ensure (if format p then pdepth p + 1 else 2);;
  put 0 ((if format p then tabs (pdepth p - 1) else []) ++ [125; 0]);; deeper (-1).

Fixpoint print_value (item : cJSON) : printer unit :=
  let kind := Z.land (type_ item) 0xFF in
  if kind =? cJSON_NULL then ensure 5;; put 0 (lit_null ++ [0])
  else if kind =? cJSON_False then ensure 6;; put 0 (lit_false ++ [0])
  else if kind =? cJSON_True then ensure 5;; put 0 (lit_true ++ [0])
  else if kind =? cJSON_Number then print_number item
  else if kind =? cJSON_Raw then
    match valuestring item with
    | None => fail
    | Some s => ensure (Z.of_nat (length s) + 1);; put 0 (s ++ [0])
    end
  else if kind =? cJSON_String then print_string_ptr (valuestring item)
  else if kind =? cJSON_Array then print_array print_value (child item)
  else if kind =? cJSON_Object then print_object print_value (child item)
  else fail.

(** ** Entry points *)
Definition new_printbuffer (b : list Z) (length : Z) (na fmt : bool) (n : nat) : printbuffer :=
  mk_pr (Some b) length 0 0 na fmt n.

(** The block returned, with the text at its start. *)
Definition print (item : cJSON) (fmt : bool) : result (option (list Z)) :=
  if negb (alloc 0 256) then Ok None else
  '(r, p) ← (print_value item;; update_offset) (new_printbuffer (replicate 256 junk) 256 false fmt 1);
  match r with
  | None => Ok None
  | Some _ =>
      let size := poffset p + 1 in
      if negb (alloc (pallocs p) size) then Ok None else
      b ← of_opt (pbuf p);
      let fresh := replicate (Z.to_nat size) junk in
      if has_realloc then printed ← memwrite fresh 0 (take (Z.to_nat size) b); Ok (Some printed)
      else
        printed ← memcpy fresh 0 b 0 (Z.min (plength p) size);
        printed ← printed.[poffset p := 0];
        Ok (Some printed)
  end.

Definition cJSON_Print (item : cJSON) : result (option (list Z)) := print item true.
Definition cJSON_PrintUnformatted (item : cJSON) : result (option (list Z)) := print item false.

Definition cJSON_PrintBuffered (item : cJSON) (prebuffer : Z) (fmt : bool) : result (option (list Z)) :=
  if prebuffer <? 0 then Ok None else
  if negb (alloc 0 prebuffer) then Ok None else
  '(r, p) ← print_value item (new_printbuffer (replicate (Z.to_nat prebuffer) junk) prebuffer false fmt 1);
  match r with None => Ok None | Some _ => Ok (pbuf p) end.

(** The answer and the caller's buffer. *)
Definition cJSON_PrintPreallocated (item : cJSON) (buffer : option (list Z)) (length : Z) (fmt : bool)
  : result (bool * option (list Z)) :=
  match buffer with
  | None => Ok (false, None)
  | Some b =>
      if length <? 0 then Ok (false, Some b) else
      '(r, p) ← print_value item (new_printbuffer b length true fmt 0);
      Ok (if r is Some _ then true else false, pbuf p)
  end.
End print.
