(* ===== verification/CJsonRender.v ===== *)
(** * CJsonRender: the text of an item, and the printer of CJsonPrint against it

    [render] is the text of an item as a function.  The printer refines it: what it leaves
    in the buffer is that text, and it fails only for an item without text, for want of
    room, or of memory. *)

From Stdlib Require Import Floats.SpecFloat.
From S2P Require Import Prelude CDouble CJson CJsonPrint.
#[local] Open Scope Z_scope.

(** ** Specification *)
Definition escape_text (c : Z) : list Z :=
  if (c =? 34) || (c =? 92) then [92; c]
  else if c =? 8 then [92; 98]
  else if c =? 12 then [92; 102]
  else if c =? 10 then [92; 110]
  else if c =? 13 then [92; 114]
  else if c =? 9 then [92; 116]
  else if c <? 32 then [92; 117; 48; 48; hex_char (c / 16); hex_char (c mod 16)]
  else [c].

Definition render_string (s : option (list Z)) : list Z :=
  [34] ++ flat_map escape_text (default [] s) ++ [34].

Section render.
Context `{CJsonH} (fmt : bool).

(** A list rendered by [f], [sep] behind every element but the last. *)
Definition render_list (f : cJSON → option (list Z)) (sep : bool → list Z) :=
  fix render_list (l : list cJSON) : option (list Z) :=
    match l with
    | [] => Some []
    | x :: l => t ← f x; ts ← render_list l; Some (t ++ sep (if l is [] then true else false) ++ ts)
    end.

Definition array_sep (is_last : bool) : list Z :=
  if is_last then [] else [44] ++ (if fmt then [32] else []).
Definition member_sep (is_last : bool) : list Z :=
  (if is_last then [] else [44]) ++ (if fmt then [10] else []).

Fixpoint render (depth : Z) (item : cJSON) : option (list Z) :=
  let kind := Z.land (type_ item) 0xFF in
  if kind =? cJSON_NULL then Some lit_null
  else if kind =? cJSON_False then Some lit_false
  else if kind =? cJSON_True then Some lit_true
  else if kind =? cJSON_Number then Some (number_text (valuedouble item))
  else if kind =? cJSON_Raw then valuestring item
  else if kind =? cJSON_String then Some (render_string (valuestring item))
  else if kind =? cJSON_Array then
    ts ← render_list (render (depth + 1)) array_sep (child item);
    Some ([91] ++ ts ++ [93])
  else if kind =? cJSON_Object then
    ts ← render_list (λ x,
           t ← render (depth + 1) x;
           Some ((if fmt then tabs (depth + 1) else []) ++ render_string (string_ x) ++
                 [58] ++ (if fmt then [9] else []) ++ t)) member_sep (child item);
    Some ([123] ++ (if fmt then [10] else []) ++ ts ++ (if fmt then tabs depth else []) ++ [125])
  else None.
End render.

(** ** Well-formed items: strings without NUL, numbers that are doubles *)
Definition cstring (s : list Z) : Prop := Forall (λ c, 0 < c < 256) s.
Definition opt_cstring (s : option (list Z)) : Prop := if s is Some s then cstring s else True.

Inductive wf_item : cJSON → Prop :=
  Wf_item t vs n d s ch : opt_cstring vs → valid_binary PREC EMAX d = true → opt_cstring s →
    Forall wf_item ch → wf_item (Item t vs n d s ch).

(** Items are trees: induction with the hypothesis for every child. *)
Lemma cJSON_tree_ind (P : cJSON → Prop) :
  (∀ t vs n d s ch, Forall P ch → P (Item t vs n d s ch)) → ∀ i, P i.
Proof.
  intros IH. fix go 1. intros [t vs n d s ch]. apply IH.
  induction ch as [|x ch IHch]; constructor; [apply go|exact IHch].
Qed.

Lemma Forall_wf (P : cJSON → Prop) ch : Forall (λ y, wf_item y → P y) ch → Forall wf_item ch →
  Forall (λ y, wf_item y ∧ P y) ch.
Proof. intros HP. induction HP as [|y l Hy _ IH]; intros Hwf; inversion Hwf; subst; constructor; auto. Qed.

(** ** Characters of the specification *)
Lemma escape_text_chars c : 0 < c < 256 → Forall (λ c, 0 < c) (escape_text c).
Proof.
  intros Hc. unfold escape_text. pose proof (Z.div_lt_upper_bound c 16 16). pose proof (Z.div_pos c 16).
  pose proof (Z.mod_pos_bound c 16). repeat case_match; repeat (constructor; [first [lia|unfold hex_char; case_match; lia]|]); done.
Qed.

Lemma length_escaped c : length (escape_text c) = Z.to_nat (1 + escapes c).
Proof. unfold escape_text, escapes. bool_case; by subst; try lia. Qed.

(** What [escaped] writes is the specification's text, and perhaps a NUL behind it. *)
Lemma escaped_text c : ∃ z, escaped c = (escape_text c ++ z, Z.of_nat (length (escape_text c))) ∧
  (length z ≤ 1)%nat.
Proof.
  unfold escaped, escape_text. destruct (Z.ltb_spec 31 c); bool_case; subst; try lia; cbn [orb andb negb];
    first [by exists []; split; [|simpl; lia]|by exists [0]; split; [|simpl; lia]].
Qed.

Lemma length_flat_escape s : Z.of_nat (length (flat_map escape_text s)) = Z.of_nat (length s) + escape_characters s.
Proof.
  induction s as [|c s IH]; [done|]. cbn [flat_map length escape_characters foldr].
  rewrite length_app, Nat2Z.inj_add, IH, length_escaped. unfold escape_characters.
  assert (0 ≤ escapes c) by (unfold escapes; repeat case_match; lia). lia.
Qed.

Lemma escapes_nonneg c : 0 ≤ escapes c.
Proof. unfold escapes. repeat case_match; lia. Qed.

Lemma no_escapes s : escape_characters s = 0 → flat_map escape_text s = s.
Proof.
  induction s as [|c s IH]; [done|]. cbn [escape_characters foldr flat_map]. change (foldr _ _ s) with (escape_characters s).
  intros E. pose proof (escapes_nonneg c) as Hc.
  assert (0 ≤ escape_characters s) as Hs.
  { clear. induction s as [|x s IH]; [done|]. cbn [escape_characters foldr]. change (foldr _ _ s) with (escape_characters s).
    pose proof (escapes_nonneg x). lia. }
  rewrite IH by lia. assert (escapes c = 0) as Ec by lia. clear -Ec. unfold escape_text. unfold escapes in Ec.
  revert Ec. bool_case; by cbn [orb].
Qed.

(** ** Outcomes of a printer

    [good p b]: the buffer is the block [b] and has room to go on.  [avail p] is the room a
    print can reach. *)
Section refine.
Context `{CJsonH} (alloc : nat → Z → bool) (junk : Z) (has_realloc : bool).
Implicit Types (p : printbuffer).

Definition good p (b : list Z) : Prop :=
  pbuf p = Some b ∧ plength p = Z.of_nat (length b) ∧ plength p ≤ INT_MAX ∧ 0 ≤ poffset p ≤ plength p ∧
  (poffset p < plength p ∨ noalloc p = true ∨ (has_realloc = true ∧ plength p = 0)).

Definition avail p : Z := if noalloc p then plength p else INT_MAX.

(** Without an allocation that fails, more room was needed than there can be. *)
Definition fails p (need : Z) : Prop := (noalloc p = true ∨ ∀ k n, alloc k n = true) → avail p < need.

Definition same p p' : Prop :=
  noalloc p' = noalloc p ∧ format p' = format p ∧ (noalloc p = true → plength p' = plength p).

(** Text appended, and for the [last] function of a value: terminated, the offset anywhere in it. *)
Definition wrote (last : bool) p (b : list Z) p' (b' : list Z) (t : list Z) : Prop :=
  let e := poffset p + Z.of_nat (length t) in
  if last then
    poffset p ≤ poffset p' ≤ e ∧ e + 2 ≤ plength p' ∧
    take (Z.to_nat (e + 1)) b' = take (Z.to_nat (poffset p)) b ++ t ++ [0]
  else poffset p' = e ∧ take (Z.to_nat e) b' = take (Z.to_nat (poffset p)) b ++ t.

(** [m] renders [ot] in a buffer of format [f] at depth [d] and leaves it at depth [d']. *)
Definition renders (last f : bool) (d : Z) (m : printer unit) (ot : option (list Z)) (d' : Z) : Prop :=
  ∀ p b, good p b → format p = f → pdepth p = d → ∃ r p', m p = Ok (r, p') ∧
    match r with
    | Some _ => ∃ b' t, ot = Some t ∧ good p' b' ∧ same p p' ∧ pdepth p' = d' ∧ wrote last p b p' b' t
    | None => (∀ t, ot = Some t → fails p (poffset p + Z.of_nat (length t) + 2)) ∧
        (noalloc p = true → ∃ b', pbuf p' = Some b' ∧ length b' = length b)
    end.

Lemma same_refl p : same p p.
Proof. done. Qed.

Lemma same_trans p1 p2 p3 : same p1 p2 → same p2 p3 → same p1 p3.
Proof. intros (Hn & Hf & Hl) (Hn' & Hf' & Hl'). split_and!; [congruence|congruence|]. intros E. rewrite Hl', Hl; congruence. Qed.

Lemma same_avail p p' : same p p' → avail p' = avail p.
Proof. intros (Hn & _ & Hl). unfold avail. rewrite Hn. destruct (noalloc p); [by apply Hl|done]. Qed.

Lemma same_fails p p' need : same p p' → fails p' need → fails p need.
Proof. intros Hs Hf Hr. rewrite <- (same_avail p p' Hs). apply Hf. destruct Hs as (-> & _). done. Qed.

Lemma fails_mono p a b : fails p a → a ≤ b → fails p b.
Proof. intros Hf Hab Hr. specialize (Hf Hr). lia. Qed.

Lemma renders_ext last f d m m' ot d' : (∀ p, m p = m' p) → renders last f d m ot d' → renders last f d m' ot d'.
Proof. intros E Hm p b Hg Hf Hd. rewrite <- E. by apply Hm. Qed.

Lemma renders_text last f d m ot ot' d' : ot = ot' → renders last f d m ot d' → renders last f d m ot' d'.
Proof. by intros ->. Qed.

(** Knowing format and depth. *)
Lemma renders_get last f d (m : printbuffer → printer unit) ot d' :
  (∀ p, format p = f → pdepth p = d → renders last f d (m p) ot d') → renders last f d (p ← get; m p) ot d'.
Proof. intros Hm p b Hg Hf Hd. change ((p ← get; m p) p) with (m p p). by apply (Hm p). Qed.

Lemma renders_seq last f d m1 ot1 d1 m2 ot2 d2 :
  renders false f d m1 ot1 d1 → renders last f d1 m2 ot2 d2 →
  renders last f d (m1;; m2) (t1 ← ot1; t2 ← ot2; Some (t1 ++ t2)) d2.
Proof.
  intros H1 H2 p b Hg Hf Hd. destruct (H1 p b Hg Hf Hd) as (r & p1 & E1 & Hr1).
  change ((m1;; m2) p) with (match m1 p with Ok (Some a, p) => m2 p | Ok (None, p) => Ok (None, p)
    | Ub => Ub | OutOfFuel => OutOfFuel end). rewrite E1. destruct r as [[]|].
  - destruct Hr1 as (b1 & t1 & -> & Hg1 & Hs1 & Hd1 & Ho1 & Ht1).
    destruct (H2 p1 b1 Hg1) as (r & p2 & -> & Hr2); [destruct Hs1 as (_ & ? & _); congruence|done|].
    eexists _, _. split; [reflexivity|]. destruct r as [[]|].
    + destruct Hr2 as (b2 & t2 & -> & Hg2 & Hs2 & Hd2 & Hw). exists b2, (t1 ++ t2). split; [done|]. split; [done|].
      split; [by eapply same_trans|]. split; [done|]. unfold wrote in *. rewrite length_app, Ho1 in *.
      rewrite Ht1 in Hw. replace (poffset p + Z.of_nat (length t1) + Z.of_nat (length t2))
        with (poffset p + Z.of_nat (length t1 + length t2)) in Hw by lia. destruct last.
      * destruct Hw as (? & ? & ->). rewrite <- !app_assoc. split_and!; done || lia.
      * destruct Hw as (? & ->). rewrite <- !app_assoc. done.
    + destruct Hr2 as [Hfl Hna]. split.
      * intros t Et. destruct ot2 as [t2|]; [|done]. injection Et as <-. eapply same_fails; [done|].
        eapply fails_mono; [by apply Hfl|]. rewrite length_app. lia.
      * intros E. destruct Hs1 as (? & _ & Hl). destruct Hna as (b' & ? & ?); [congruence|].
        exists b'. split; [done|]. destruct Hg as (_ & Hl0 & _), Hg1 as (_ & Hl1 & _). specialize (Hl E). lia.
  - destruct Hr1 as [Hfl Hna]. eexists _, _. split; [reflexivity|]. split; [|done].
    intros t Et. destruct ot1 as [t1|]; [|done]. destruct ot2 as [t2|]; [|done]. injection Et as <-.
    eapply fails_mono; [by apply Hfl|]. rewrite length_app. lia.
Qed.

Lemma renders_ret f d : renders false f d (mret tt) (Some []) d.
Proof.
  intros p b Hg Hf Hd. eexists _, _. split; [reflexivity|]. exists b, []. split; [done|]. split; [done|].
  split; [apply same_refl|]. split; [done|]. split; [simpl; lia|]. by rewrite Z.add_0_r, app_nil_r.
Qed.

(** ** Room *)
Lemma grown_spec p b newsize : good p b → noalloc p = false → plength p ≤ newsize → 0 < newsize →
  ∃ b', grown junk has_realloc p b newsize = Ok b' ∧ Z.of_nat (length b') = newsize ∧
    take (Z.to_nat (poffset p)) b' = take (Z.to_nat (poffset p)) b.
Proof.
  intros (_ & Hl & _ & Ho & Hroom) Hn Hle Hpos. unfold grown, memcpy. destruct has_realloc.
  - rewrite memwrite_Ok by (rewrite ?length_take, ?length_replicate; lia). eexists. split; [done|].
    rewrite (take_ge b) by lia. rewrite !length_app, length_take, length_drop, length_replicate. split; [lia|].
    change (Z.to_nat 0) with 0%nat. rewrite take_0, app_nil_l, take_app_le by lia. done.
  - destruct Hroom as [Hroom|[?|[? _]]]; [|congruence|done].
    rewrite memread_Ok, ok_bind by lia. change (Z.to_nat 0) with 0%nat. rewrite drop_0.
    rewrite memwrite_Ok by (rewrite ?length_take, ?length_replicate; lia). eexists. split; [done|].
    rewrite !length_app, !length_take, length_drop, length_replicate. split; [lia|].
    change (Z.to_nat 0) with 0%nat. rewrite take_0, app_nil_l, take_app_le by (rewrite length_take; lia).
    rewrite take_take. f_equal. lia.
Qed.

Lemma ensure_spec p b n : good p b → 0 ≤ n → ∃ r p', ensure alloc junk has_realloc n p = Ok (r, p') ∧
  match r with
  | Some _ => ∃ b', good p' b' ∧ same p p' ∧ poffset p' = poffset p ∧ pdepth p' = pdepth p ∧
      take (Z.to_nat (poffset p)) b' = take (Z.to_nat (poffset p)) b ∧ poffset p + n + 1 ≤ plength p'
  | None => fails p (poffset p + n + 1) ∧ (noalloc p = true → ∃ b', pbuf p' = Some b' ∧ length b' = length b)
  end.
Proof.
  intros Hg Hn. pose proof Hg as (Hb & Hl & Hmax & Ho & Hroom). unfold ensure. rewrite Hb.
  assert (∀ q, pbuf q = Some b → noalloc p = true → ∃ b', pbuf q = Some b' ∧ length b' = length b) as Hkeep by eauto.
  destruct ((0 <? plength p) && (plength p <=? poffset p)) eqn:Efull.
  { apply andb_true_iff in Efull as [E1%Z.ltb_lt E2%Z.leb_le]. eexists None, _. split; [reflexivity|]. split; [|by apply Hkeep].
    intros _. unfold avail. destruct (noalloc p); [lia|]. exfalso. destruct Hroom as [?|[?|[_ ?]]]; done || lia. }
  clear Efull. destruct (Z.ltb_spec INT_MAX n).
  { eexists None, _. split; [reflexivity|]. split; [|by apply Hkeep]. intros _. unfold avail. case_match; lia. }
  assert (u64 (n + poffset p + 1) = n + poffset p + 1) as ->.
  { unfold u64. apply Z.mod_small. unfold INT_MAX in *. lia. }
  destruct (Z.leb_spec (n + poffset p + 1) (plength p)).
  { eexists (Some tt), _. split; [reflexivity|]. exists b. split_and!; done || lia. }
  destruct (noalloc p) eqn:Ena.
  { eexists None, _. split; [reflexivity|]. split; [|by eauto]. intros _. unfold avail. rewrite Ena. lia. }
  destruct ((INT_MAX / 2 <? n + poffset p + 1) && (INT_MAX <? n + poffset p + 1)) eqn:Ebig.
  { apply andb_true_iff in Ebig as [_ E%Z.ltb_lt]. eexists None, _. split; [reflexivity|]. split; [|done].
    intros _. unfold avail. rewrite Ena. lia. }
  set (newsize := if _ <? _ then INT_MAX else _).
  assert (n + poffset p + 1 ≤ newsize ≤ INT_MAX) as Hns.
  { unfold newsize. revert Ebig. change (INT_MAX / 2) with 1073741823. unfold INT_MAX. bool_case; cbn [andb]; done || lia. }
  destruct (alloc (pallocs p) newsize) eqn:Eal.
  - destruct (grown_spec p b newsize) as (b' & -> & Hl' & Ht'); [done|done|lia|lia|]. rewrite ok_bind.
    eexists (Some tt), _. split; [reflexivity|]. exists b'. unfold good, same. cbn. split_and!; congruence || lia || done.
  - eexists None, _. split; [reflexivity|]. split; [|done]. intros [?|Hall]; [congruence|]. by rewrite Hall in Eal.
Qed.

(** ** Bytes written behind the offset

    [written p b ws]: the buffer [b] of [p] holds [ws] from the offset on. *)
Definition written p (b : list Z) (pre ws : list Z) : Prop :=
  pbuf p = Some b ∧ 0 ≤ poffset p ∧ Z.of_nat (length pre) = poffset p ∧ take (length pre + length ws) b = pre ++ ws.

Lemma put_spec p b pre ws bytes k : written p b pre ws →
  poffset p + Z.of_nat (length ws) + Z.of_nat (length bytes) ≤ Z.of_nat (length b) → (k ≤ length bytes)%nat →
  ∃ b', put (Z.of_nat (length ws)) bytes p = Ok (Some tt, set_pbuf (Some b') p) ∧ length b' = length b ∧
    written (set_pbuf (Some b') p) b' pre (ws ++ take k bytes).
Proof.
  intros (Hb & Ho & Hpre & Ht) Hlen Hk. unfold put. rewrite Hb. cbn [of_opt]. rewrite ok_bind.
  rewrite memwrite_Ok, ok_bind by lia. eexists. split; [reflexivity|].
  split; [rewrite !length_app, length_take, length_drop; lia|].
  split; [done|]. split; [done|]. split; [done|].
  rewrite length_app, length_take. rewrite Nat.min_l by done.
  replace (Z.to_nat (poffset p + Z.of_nat (length ws))) with (length pre + length ws)%nat by lia.
  rewrite Ht, (take_app_ge (pre ++ ws)) by (rewrite length_app; lia).
  replace (_ - length (pre ++ ws))%nat with k by (rewrite length_app; lia).
  rewrite take_app_le by lia. by rewrite <- app_assoc.
Qed.

Lemma written_0 p b : good p b → written p b (take (Z.to_nat (poffset p)) b) [].
Proof.
  intros (Hb & Hl & _ & Ho & _). assert (length (take (Z.to_nat (poffset p)) b) = Z.to_nat (poffset p)) as E
    by (rewrite length_take; lia). split; [done|]. split; [lia|]. rewrite E. split; [lia|].
  by rewrite app_nil_r, Nat.add_0_r.
Qed.

(** [ensure], the bytes, and the offset moved over the first [k] of them. *)
Lemma renders_emit0 f d n bytes k :
  (k ≤ length bytes ≤ S k)%nat → Z.of_nat (length bytes) ≤ n + 1 → Z.of_nat k ≤ n ≤ Z.of_nat k + 1 →
  renders false f d (ensure alloc junk has_realloc n;; put 0 bytes;; advance (Z.of_nat k)) (Some (take k bytes)) d.
Proof.
  intros Hk Hb Hn.
  intros p b Hg Hf Hd. destruct (ensure_spec p b n Hg) as (r & p1 & E & Hr); [lia|].
  unfold mbind at 1, printer_bind at 1. rewrite E. destruct r as [[]|].
  + destruct Hr as (b1 & Hg1 & Hs1 & Ho1 & Hd1 & Ht1 & Hroom).
    pose proof (written_0 p1 b1 Hg1) as Hw. pose proof Hg1 as (Hb1 & Hl1 & Hm1 & Hop & _).
    destruct (put_spec p1 b1 _ [] bytes k Hw) as (b2 & Hput & Hl2 & Hw2); [simpl; lia|lia|].
    unfold mbind at 1, printer_bind at 1. cbn [length] in Hput. change (Z.of_nat 0) with 0 in Hput. rewrite Hput.
    eexists _, _. split; [reflexivity|]. exists b2, (take k bytes). split; [done|].
    destruct Hw2 as (_ & _ & Hpre & Ht2). cbn [app] in Ht2. rewrite Ho1, Ht1 in Ht2.
    assert (length (take (Z.to_nat (poffset p)) b) = Z.to_nat (poffset p)) as Htk.
    { destruct Hg as (_ & ? & _ & ? & _). rewrite length_take. lia. }
    rewrite Htk, length_take, Nat.min_l in Ht2 by lia.
    split; [|split; [by destruct Hs1|split; [cbn; congruence|]]].
    { split; [done|]. cbn [plength poffset set_poffset set_pbuf]. split; [lia|]. split; [lia|]. split; [lia|]. left. lia. }
    unfold wrote. rewrite length_take, Nat.min_l by lia. cbn [poffset set_poffset set_pbuf]. split; [lia|].
    replace (Z.to_nat (poffset p + Z.of_nat k)) with (Z.to_nat (poffset p) + k)%nat by (destruct Hg as (_ & _ & _ & ? & _); lia).
    done.
  + eexists _, _. split; [reflexivity|]. destruct Hr as [Hfl Hna]. split; [|done]. intros t [= <-].
    eapply fails_mono; [done|]. rewrite length_take. lia.
Qed.

Lemma renders_emit f d n bytes k ot last m d' :
  (k ≤ length bytes ≤ S k)%nat → Z.of_nat (length bytes) ≤ n + 1 → Z.of_nat k ≤ n ≤ Z.of_nat k + 1 →
  renders last f d m ot d' →
  renders last f d (ensure alloc junk has_realloc n;; put 0 bytes;; advance (Z.of_nat k);; m)
    (t ← ot; Some (take k bytes ++ t)) d'.
Proof.
  intros Hk Hb Hn Hm. eapply renders_text; [|eapply (renders_ext last f d
    ((ensure alloc junk has_realloc n;; put 0 bytes;; advance (Z.of_nat k));; m));
    [|eapply (renders_seq last f d _ (Some (take k bytes)) d); [by apply renders_emit0|exact Hm]]].
  - by destruct ot.
  - intros p. unfold mbind, printer_bind. repeat case_match; simplify_eq; done.
Qed.

Lemma take_prefix (l r : list Z) n m : (n ≤ m)%nat → take m l = r → take n l = take n r.
Proof. intros Hn <-. rewrite take_take. f_equal. lia. Qed.

(** What is left once text and terminator are in the buffer: the offset may move over the text. *)
Lemma wrote_last p b p1 b1 p2 b2 ws t k dd : good p b → good p1 b1 → same p p1 → poffset p1 = poffset p →
  take (Z.to_nat (poffset p)) b1 = take (Z.to_nat (poffset p)) b → p2 = set_pbuf (Some b2) p1 →
  length b2 = length b1 → poffset p + Z.of_nat (length t) + 2 ≤ plength p1 → 0 ≤ k ≤ Z.of_nat (length t) →
  written p2 b2 (take (Z.to_nat (poffset p1)) b1) ws → (∃ z, ws = t ++ 0 :: z) →
  let p3 := set_pdepth (pdepth p1 + dd) (set_poffset (poffset p2 + k) p2) in
  good p3 b2 ∧ same p p3 ∧ wrote true p b p3 b2 t.
Proof.
  intros Hg Hg1 Hs Ho Ht -> Hl Hroom Hk (_ & _ & Hpre & Hw) [z ->]. pose proof Hg1 as (Hb1 & Hl1 & Hm1 & Hop & _).
  cbn zeta. cbn [poffset set_pbuf]. split; [|split; [by destruct Hs|]].
  - split; [done|]. cbn [plength poffset set_poffset set_pbuf set_pdepth]. split; [lia|]. split; [lia|]. split; [lia|].
    left. lia.
  - unfold wrote. cbn [plength poffset set_poffset set_pbuf set_pdepth]. split; [lia|]. split; [lia|].
    cbn [poffset set_pbuf] in Hpre. rewrite Ho, Ht in Hw, Hpre.
    etransitivity; [eapply take_prefix; [|exact Hw]; rewrite length_app; simpl; lia|].
    replace (_ ++ t ++ 0 :: z) with ((take (Z.to_nat (poffset p)) b ++ t ++ [0]) ++ z)
      by (rewrite <- !app_assoc; done).
    rewrite take_app_le by (rewrite !length_app; simpl; lia). apply take_ge. rewrite !length_app. simpl. lia.
Qed.

Lemma renders_finish f d n t k dd (fin : printer unit) :
  n = Z.of_nat (length t) + 1 → 0 ≤ k ≤ Z.of_nat (length t) →
  (∀ p, fin p = Ok (Some tt, set_pdepth (pdepth p + dd) (set_poffset (poffset p + k) p))) →
  renders true f d (ensure alloc junk has_realloc n;; put 0 (t ++ [0]);; fin) (Some t) (d + dd).
Proof.
  intros Hn Hk Hfin p b Hg Hf Hd. destruct (ensure_spec p b n Hg) as (r & p1 & E & Hr); [lia|].
  unfold mbind at 1, printer_bind at 1. rewrite E. destruct r as [[]|].
  - destruct Hr as (b1 & Hg1 & Hs1 & Ho1 & Hd1 & Ht1 & Hroom). pose proof Hg1 as (Hb1 & Hl1 & Hm1 & Hop & _).
    destruct (put_spec p1 b1 _ [] (t ++ [0]) (length (t ++ [0])) (written_0 p1 b1 Hg1)) as (b2 & Hput & Hl2 & Hw2);
      [rewrite length_app; simpl; lia|done|].
    unfold mbind at 1, printer_bind at 1. cbn [length] in Hput. change (Z.of_nat 0) with 0 in Hput. rewrite Hput, Hfin.
    rewrite firstn_all in Hw2. eexists _, _. split; [reflexivity|]. exists b2, t. split; [done|].
    destruct (wrote_last p b p1 b1 _ b2 _ t k dd Hg Hg1 Hs1 Ho1 Ht1 eq_refl Hl2 ltac:(lia) Hk Hw2) as (? & ? & ?);
      [by exists []|]. split; [done|]. split; [done|]. split; [cbn; lia|done].
  - eexists _, _. split; [reflexivity|]. destruct Hr as [Hfl Hna]. split; [|done]. intros t' [= <-].
    eapply fails_mono; [done|]. lia.
Qed.

Lemma strlen_prefix t z : Forall (λ c, 0 < c) t → strlen (t ++ 0 :: z) = Ok (Z.of_nat (length t)).
Proof.
  induction 1 as [|c t Hc _ IH]; [done|]. cbn [app strlen length]. destruct (Z.eqb_spec c 0); [lia|].
  rewrite IH, ok_bind. f_equal. lia.
Qed.

(** [update_offset] moves the offset to the end of the text. *)
Lemma update_offset_spec p b p' b' t : good p b → good p' b' → wrote true p b p' b' t → Forall (λ c, 0 < c) t →
  update_offset p' = Ok (Some tt, set_poffset (poffset p + Z.of_nat (length t)) p').
Proof.
  intros (_ & Hl & _ & Ho & _) (Hb' & Hl' & _ & Ho' & _) (Hbt & Hroom & Ht) Hpos. unfold update_offset.
  rewrite Hb', bool_decide_eq_true_2, ok_bind by lia. set (i := Z.to_nat (poffset p' - poffset p)).
  assert (∃ z, drop (Z.to_nat (poffset p')) b' = drop i t ++ 0 :: z) as [z ->].
  { rewrite <- (take_drop (Z.to_nat (poffset p + Z.of_nat (length t) + 1)) b'), Ht.
    eexists. rewrite drop_app_le by (rewrite !length_app, length_take; simpl; lia).
    rewrite drop_app_ge by (rewrite length_take; lia). rewrite length_take.
    replace (Z.to_nat (poffset p') - _)%nat with i by lia. rewrite drop_app_le, <- app_assoc by lia. reflexivity. }
  rewrite strlen_prefix, ok_bind by (by apply Forall_drop). do 3 f_equal. rewrite length_drop. lia.
Qed.

Lemma renders_update f d m ot d' : renders true f d m ot d' → (∀ t, ot = Some t → Forall (λ c, 0 < c) t) →
  renders false f d (m;; update_offset) ot d'.
Proof.
  intros Hm Hpos p b Hg Hf Hd. destruct (Hm p b Hg Hf Hd) as (r & p1 & E & Hr).
  unfold mbind, printer_bind. rewrite E. destruct r as [[]|]; [|by eexists _, _].
  destruct Hr as (b1 & t & -> & Hg1 & Hs1 & Hd1 & Hw). rewrite (update_offset_spec p b p1 b1 t) by auto.
  eexists _, _. split; [reflexivity|]. exists b1, t. destruct Hw as (Ho & Hroom & Ht).
  pose proof Hg1 as (Hb1 & Hl1 & Hm1 & Hop & _). pose proof Hg as (_ & _ & _ & Hop0 & _).
  split; [done|]. split; [|split; [by destruct Hs1|split; [done|]]].
  - split; [done|]. cbn [plength poffset set_poffset]. split; [lia|]. split; [lia|]. split; [lia|]. left. lia.
  - split; [done|]. etransitivity; [eapply take_prefix; [|exact Ht]; lia|]. rewrite app_assoc, take_app_le by (rewrite length_app, length_take; destruct Hg as (_ & ? & _); lia).
    apply take_ge. rewrite length_app, length_take. lia.
Qed.

(** ** Strings *)
Lemma bind_run {A B} (m : printer A) (k : A → printer B) p a p' : m p = Ok (Some a, p') → (m ≫= k) p = k a p'.
Proof. intros E. unfold mbind, printer_bind. by rewrite E. Qed.

Lemma bind_fail {A B} (m : printer A) (k : A → printer B) p p' : m p = Ok (None, p') → (m ≫= k) p = Ok (None, p').
Proof. intros E. unfold mbind, printer_bind. by rewrite E. Qed.

Lemma escape_loop_spec input : ∀ p b pre ws, written p b pre ws →
  poffset p + Z.of_nat (length ws) + Z.of_nat (length (flat_map escape_text input)) + 2 ≤ Z.of_nat (length b) →
  ∃ b', escape_loop input (Z.of_nat (length ws)) p = Ok (Some tt, set_pbuf (Some b') p) ∧ length b' = length b ∧
    written (set_pbuf (Some b') p) b' pre (ws ++ flat_map escape_text input).
Proof.
  induction input as [|c input IH]; intros p b pre ws Hw Hlen.
  - exists b. pose proof Hw as (Hb & _). split; [cbn; by destruct p; simpl in *; subst|]. split; [done|].
    cbn [flat_map]. rewrite app_nil_r. by destruct p; simpl in *; subst.
  - cbn [escape_loop flat_map] in *. destruct (escaped_text c) as (z & -> & Hz). rewrite length_app in Hlen.
    destruct (put_spec p b pre ws (escape_text c ++ z) (length (escape_text c)) Hw) as (b1 & Hput & Hl1 & Hw1);
      [rewrite length_app; lia|rewrite length_app; lia|].
    rewrite (bind_run _ _ _ _ _ Hput). rewrite take_app_le, firstn_all in Hw1 by done.
    rewrite <- Nat2Z.inj_add, <- length_app.
    destruct (IH _ b1 pre (ws ++ escape_text c) Hw1) as (b2 & -> & Hl2 & Hw2);
      [rewrite length_app; cbn [poffset set_pbuf]; lia|].
    exists b2. split; [done|]. split; [lia|]. by rewrite <- app_assoc in Hw2.
Qed.

(** A byte written behind what is there. *)
Lemma put_next p b pre ws bytes off : written p b pre ws → off = Z.of_nat (length ws) →
  poffset p + Z.of_nat (length ws) + Z.of_nat (length bytes) ≤ Z.of_nat (length b) →
  ∃ b', put off bytes p = Ok (Some tt, set_pbuf (Some b') p) ∧ length b' = length b ∧
    written (set_pbuf (Some b') p) b' pre (ws ++ bytes).
Proof.
  intros Hw -> Hlen. destruct (put_spec p b pre ws bytes (length bytes) Hw) as (b' & ? & ? & Hw'); [lia|done|].
  rewrite firstn_all in Hw'. by exists b'.
Qed.

(** The quotes around what [body] writes. *)
Lemma quoted_spec p b pre s (body : printer unit) L :
  written p b pre [] → L = Z.of_nat (length (flat_map escape_text s)) → poffset p + L + 3 ≤ Z.of_nat (length b) →
  (∀ p b, written p b pre [34] → poffset p + L + 3 ≤ Z.of_nat (length b) →
     ∃ b', body p = Ok (Some tt, set_pbuf (Some b') p) ∧ length b' = length b ∧
       written (set_pbuf (Some b') p) b' pre ([34] ++ flat_map escape_text s)) →
  ∃ b', (put 0 [34];; body;; put (L + 1) [34];; put (L + 2) [0]) p = Ok (Some tt, set_pbuf (Some b') p) ∧
    length b' = length b ∧ written (set_pbuf (Some b') p) b' pre (render_string (Some s) ++ [0]).
Proof.
  intros Hw HL Hlen Hbody.
  destruct (put_next p b pre [] [34] 0 Hw) as (b1 & E1 & Hl1 & Hw1); [done|simpl; lia|].
  rewrite (bind_run _ _ _ _ _ E1). destruct (Hbody _ b1 Hw1) as (b2 & E2 & Hl2 & Hw2); [cbn [poffset set_pbuf]; lia|].
  rewrite (bind_run _ _ _ _ _ E2).
  destruct (put_next _ b2 pre _ [34] (L + 1) Hw2) as (b3 & E3 & Hl3 & Hw3);
    [rewrite length_app; simpl; lia|rewrite length_app; cbn [poffset set_pbuf length]; lia|].
  rewrite (bind_run _ _ _ _ _ E3).
  destruct (put_next _ b3 pre _ [0] (L + 2) Hw3) as (b4 & E4 & Hl4 & Hw4);
    [rewrite !length_app; simpl; lia|rewrite !length_app; cbn [poffset set_pbuf length]; lia|].
  exists b4. split; [exact E4|]. split; [lia|]. unfold render_string. cbn [default]. by rewrite <- !app_assoc in *.
Qed.

Lemma seq_ret (m1 m2 : printer unit) p : (m1;; m2;; mret tt) p = (m1;; m2) p.
Proof.
  unfold mbind, printer_bind, mret, printer_ret. destruct (m1 p) as [[[[]|] p1]| |]; [|done..].
  by destruct (m2 p1) as [[[[]|] p2]| |].
Qed.

Lemma set_pdepth_0 p : set_pdepth (pdepth p + 0) (set_poffset (poffset p + 0) p) = p.
Proof. destruct p; cbn. by rewrite !Z.add_0_r. Qed.

Lemma print_string_spec f d s : renders true f d (print_string_ptr alloc junk has_realloc s) (Some (render_string s)) d.
Proof.
  rewrite <- (Z.add_0_r d) at 2. destruct s as [s|]; cbn [print_string_ptr].
  2: { apply (renders_ext _ _ _ (ensure alloc junk has_realloc 3;; put 0 ([34; 34] ++ [0]);; mret tt)).
    { apply seq_ret. }
    apply (renders_finish f d 3 [34; 34] 0); [done|simpl; lia|]. intros p. by rewrite set_pdepth_0. }
  intros p b Hg Hf Hd. pose proof (length_flat_escape s) as HL. set (L := Z.of_nat (length s) + escape_characters s) in *.
  assert (Z.of_nat (length (render_string (Some s))) = L + 2) as Ht.
  { unfold render_string. cbn [default]. rewrite !length_app. simpl. lia. }
  destruct (ensure_spec p b (L + 3) Hg) as (r & p1 & E & Hr); [lia|].
  unfold mbind at 1, printer_bind at 1. rewrite E. destruct r as [[]|].
  - destruct Hr as (b1 & Hg1 & Hs1 & Ho1 & Hd1 & Ht1 & Hroom). pose proof Hg1 as (Hb1 & Hl1 & Hm1 & Hop & _).
    assert (∃ b2, (if escape_characters s =? 0
        then put 0 [34];; put 1 s;; put (L + 1) [34];; put (L + 2) [0]
        else put 0 [34];; escape_loop s 1;; put (L + 1) [34];; put (L + 2) [0]) p1 = Ok (Some tt, set_pbuf (Some b2) p1) ∧
      length b2 = length b1 ∧ written (set_pbuf (Some b2) p1) b2 (take (Z.to_nat (poffset p1)) b1) (render_string (Some s) ++ [0]))
      as (b2 & -> & Hl2 & Hw2).
    { pose proof (written_0 p1 b1 Hg1) as Hw. destruct (Z.eqb_spec (escape_characters s) 0) as [Hno|].
      - apply quoted_spec; [done|lia|lia|]. intros q c Hq Hlen. rewrite no_escapes in * by done.
        apply put_next; [done|done|]. cbn [length]. lia.
      - apply quoted_spec; [done|lia|lia|]. intros q c Hq Hlen. apply (escape_loop_spec s q c _ [34]); [done|]. cbn [length]. lia. }
    eexists _, _. split; [reflexivity|]. exists b2, (render_string (Some s)). split; [done|].
    destruct (wrote_last p b p1 b1 _ b2 _ (render_string (Some s)) 0 0 Hg Hg1 Hs1 Ho1 Ht1 eq_refl Hl2 ltac:(lia) ltac:(lia) Hw2) as (Hga & Hsa & Hwa);
      [by exists []|]. change (pdepth p1) with (pdepth (set_pbuf (Some b2) p1)) in Hga, Hsa, Hwa.
    rewrite set_pdepth_0 in Hga, Hsa, Hwa. split; [done|]. split; [done|]. split; [cbn; lia|done].
  - eexists _, _. split; [reflexivity|]. destruct Hr as [Hfl Hna]. split; [|done]. intros t' [= <-].
    eapply fails_mono; [done|]. lia.
Qed.

(** ** Numbers *)
Lemma number_text_bounds d : valid_binary PREC EMAX d = true →
  (length (number_text d) ≤ 24)%nat ∧ Forall text_char (number_text d).
Proof.
  intros Hd. unfold number_text. destruct (isnan d || isinf d).
  { split; [simpl; lia|]. repeat constructor; done. }
  case_match; apply fmt_g_bounds; done || lia.
Qed.

Lemma print_number_spec f d item : valid_binary PREC EMAX (valuedouble item) = true →
  renders true f d (print_number alloc junk has_realloc item) (Some (number_text (valuedouble item))) d.
Proof.
  intros Hv. destruct (number_text_bounds _ Hv) as [Hl _]. set (text := number_text _) in *.
  rewrite <- (Z.add_0_r d) at 2. eapply renders_ext; [|apply (renders_finish f d (Z.of_nat (length text) + 1) text
    (Z.of_nat (length text)) 0 (advance (Z.of_nat (length text)))); [done|lia|]].
  - intros p. unfold print_number. fold text. rewrite memwrite_Ok by (rewrite ?length_app, ?length_replicate; simpl; lia).
    rewrite ok_bind. destruct (Z.ltb_spec 25 (Z.of_nat (length text))); [lia|].
    rewrite Nat2Z.id. change (Z.to_nat 0) with 0%nat. rewrite take_0, app_nil_l, <- app_assoc, take_app_le, firstn_all by done.
    done.
  - intros p. unfold advance. destruct p; cbn. by rewrite Z.add_0_r.
Qed.

(** ** Arrays and objects *)
Lemma renders_deeper last f d k (m : printer unit) ot d' :
  renders last f (d + k) m ot d' → renders last f d (deeper k;; m) ot d'.
Proof.
  intros Hm p b Hg Hf Hd. destruct (Hm (set_pdepth (pdepth p + k) p) b) as (r & p' & E & Hr); [done|done|cbn; lia|].
  exists r, p'. split; [exact E|]. exact Hr.
Qed.

Lemma render_string_pos s : opt_cstring s → Forall (λ c, 0 < c) (render_string s).
Proof.
  intros Hs. unfold render_string. constructor; [lia|]. apply Forall_app. split; [|repeat constructor].
  destruct s as [s|]; [|done]. cbn [default]. induction Hs as [|c s Hc _ IH]; [done|]. cbn [flat_map].
  apply Forall_app. split; [by apply escape_text_chars|done].
Qed.

(** Functions that render every item of a list. *)
Definition item_ok (pv : cJSON → printer unit) (f : bool) (x : cJSON) : Prop :=
  wf_item x ∧ (∀ d, 0 ≤ d → renders true f d (pv x) (render f d x) d) ∧
  (∀ d t, render f d x = Some t → Forall (λ c, 0 < c) t).

Lemma print_elements_spec pv f d l : 0 ≤ d → Forall (item_ok pv f) l →
  renders false f d (print_elements alloc junk has_realloc pv l) (render_list (render f d) (array_sep f) l) d.
Proof.
  intros Hd. induction 1 as [|x l (Hwf & Hx & Hpos) _ IH]; [apply renders_ret|].
  cbn [print_elements render_list].
  eapply (renders_text _ _ _ _ (t ← render f d x; ts ← (t1 ← Some (array_sep f (if l is [] then true else false));
    t2 ← render_list (render f d) (array_sep f) l; Some (t1 ++ t2)); Some (t ++ ts))).
  { destruct (render f d x); [|done]. cbn. by destruct (render_list _ _ l). }
  apply (renders_seq _ _ _ _ _ d); [apply renders_update; [by apply Hx|apply Hpos]|].
  apply renders_get. intros p Hf _. apply (renders_seq _ _ _ _ _ d); [|exact IH]. rewrite Hf.
  destruct l as [|y l]; [apply renders_ret|]. destruct f.
  - by apply (renders_emit0 _ _ 3 [44; 32; 0] 2); simpl; lia.
  - by apply (renders_emit0 _ _ 2 [44; 0] 1); simpl; lia.
Qed.

Lemma print_array_spec pv f d l : 0 ≤ d → Forall (item_ok pv f) l →
  renders true f d (print_array alloc junk has_realloc pv l)
    (ts ← render_list (render f (d + 1)) (array_sep f) l; Some ([91] ++ ts ++ [93])) d.
Proof.
  intros Hd Hl. unfold print_array.
  apply (renders_text _ _ _ _ (t ← (t1 ← render_list (render f (d + 1)) (array_sep f) l; t2 ← Some [93]; Some (t1 ++ t2));
    Some (take 1 [91] ++ t))); [by destruct (render_list _ _ l)|].
  apply (renders_emit f d 1 [91] 1); [simpl; lia..|]. apply renders_deeper.
  apply (renders_seq _ _ _ _ _ (d + 1)); [apply print_elements_spec; [lia|exact Hl]|].
  replace d with (d + 1 + -1) at 2 by lia. apply (renders_finish f (d + 1) 2 [93] 0); [done|simpl; lia|].
  intros p. unfold deeper. destruct p; cbn. by rewrite Z.add_0_r.
Qed.

Lemma length_tabs n : 0 ≤ n → Z.of_nat (length (tabs n)) = n.
Proof. intros. unfold tabs. rewrite length_replicate. lia. Qed.

Definition member_text (f : bool) (d : Z) (x : cJSON) : option (list Z) :=
  t ← render f d x;
  Some ((if f then tabs d else []) ++ render_string (string_ x) ++ [58] ++ (if f then [9] else []) ++ t).

Lemma print_members_spec pv f d l : 0 ≤ d → Forall (item_ok pv f) l →
  renders false f d (print_members alloc junk has_realloc pv l) (render_list (member_text f d) (member_sep f) l) d.
Proof.
  intros Hd. induction 1 as [|x l (Hwf & Hx & Hpos) _ IH]; [apply renders_ret|].
  cbn [print_members render_list].
  apply (renders_text _ _ _ _ (t1 ← Some (if f then tabs d else []);
    t2 ← (t2 ← Some (render_string (string_ x)); t3 ← (t3 ← Some ([58] ++ (if f then [9] else []));
      t4 ← (t4 ← render f d x; t5 ← (t5 ← Some (member_sep f (if l is [] then true else false));
        t6 ← render_list (member_text f d) (member_sep f) l; Some (t5 ++ t6)); Some (t4 ++ t5));
      Some (t3 ++ t4)); Some (t2 ++ t3)); Some (t1 ++ t2))).
  { unfold member_text. destruct (render f d x); [|done]. cbn. destruct (render_list _ _ l); [|done].
    cbn [mbind option_bind]. f_equal. rewrite <- !app_assoc. f_equal. cbn [app]. rewrite <- !app_assoc. cbn [app]. by rewrite <- !app_assoc. }
  apply renders_get. intros p Hf Hdp. rewrite Hf, Hdp. apply (renders_seq _ _ _ _ _ d).
  { destruct f; [|apply renders_ret]. pose proof (length_tabs _ Hd) as Hlt. cbn iota.
    pose proof (renders_emit0 true d d (tabs d) (length (tabs d))) as He. rewrite Hlt, firstn_all in He. apply He; lia. }
  apply (renders_seq _ _ _ _ _ d).
  { apply renders_update; [apply print_string_spec|]. intros t [= <-]. apply render_string_pos. by inversion Hwf. }
  apply (renders_seq _ _ _ _ _ d).
  { destruct f; [by apply (renders_emit0 _ _ 2 [58; 9] 2); simpl; lia|by apply (renders_emit0 _ _ 1 [58] 1); simpl; lia]. }
  apply (renders_seq _ _ _ _ _ d); [apply renders_update; [by apply Hx|apply Hpos]|].
  apply (renders_seq _ _ _ _ _ d); [|exact IH]. destruct f, l.
  - by apply (renders_emit0 _ _ 2 [10; 0] 1); simpl; lia.
  - by apply (renders_emit0 _ _ 3 [44; 10; 0] 2); simpl; lia.
  - by apply (renders_emit0 _ _ 1 [0] 0); simpl; lia.
  - by apply (renders_emit0 _ _ 2 [44; 0] 1); simpl; lia.
Qed.

Lemma print_object_spec pv f d l : 0 ≤ d → Forall (item_ok pv f) l →
  renders true f d (print_object alloc junk has_realloc pv l)
    (ts ← render_list (member_text f (d + 1)) (member_sep f) l;
     Some ([123] ++ (if f then [10] else []) ++ ts ++ (if f then tabs d else []) ++ [125])) d.
Proof.
  intros Hd Hl. unfold print_object.
  apply (renders_text _ _ _ _ (t ← (t1 ← render_list (member_text f (d + 1)) (member_sep f) l;
    t2 ← Some ((if f then tabs d else []) ++ [125]); Some (t1 ++ t2));
    Some (take (if f then 2 else 1) ([123] ++ (if f then [10] else [])) ++ t))).
  { destruct (render_list _ _ l); [|done]. cbn. by destruct f. }
  apply renders_get. intros p Hf _. rewrite Hf.
  assert (∀ m ot, renders true f (d + 1) m ot d → renders true f d
    (ensure alloc junk has_realloc ((if f then 2 else 1) + 1);; put 0 ([123] ++ (if f then [10] else []));;
     advance (if f then 2 else 1);; deeper 1;; m)
    (t ← ot; Some (take (if f then 2 else 1) ([123] ++ (if f then [10] else [])) ++ t)) d) as Hopen.
  { intros m ot Hm. destruct f.
    - by apply (renders_emit true d 3 [123; 10] 2); [simpl; lia..|apply renders_deeper].
    - by apply (renders_emit false d 2 [123] 1); [simpl; lia..|apply renders_deeper]. }
  apply Hopen. apply (renders_seq _ _ _ _ _ (d + 1)); [by apply print_members_spec; [lia|exact Hl]|].
  apply renders_get. intros q Hfq Hdq. rewrite Hfq, Hdq. replace d with (d + 1 + -1) at 4 by lia.
  replace ((if f then tabs (d + 1 - 1) else []) ++ [125; 0]) with (((if f then tabs d else []) ++ [125]) ++ [0]).
  2: { replace (d + 1 - 1) with d by lia. by rewrite <- app_assoc. }
  pose proof (length_tabs d Hd) as Hlt. apply (renders_finish f (d + 1) _ _ 0).
  - destruct f; rewrite length_app; simpl; lia.
  - lia.
  - intros r. unfold deeper. destruct r; cbn. by rewrite Z.add_0_r.
Qed.

(** ** Values *)
Lemma render_list_pos (rd : cJSON → option (list Z)) sep l : (∀ b, Forall (λ c, 0 < c) (sep b)) →
  Forall (λ x, ∀ t, rd x = Some t → Forall (λ c, 0 < c) t) l →
  ∀ ts, render_list rd sep l = Some ts → Forall (λ c, 0 < c) ts.
Proof.
  intros Hsep. induction 1 as [|x l Hx _ IH]; intros ts; cbn [render_list]; [by intros [= <-]|].
  destruct (rd x) as [t|]; [|done]. cbn. destruct (render_list rd sep l) as [ts'|]; [|done]. cbn. intros [= <-].
  apply Forall_app. split; [by apply Hx|]. apply Forall_app. split; [apply Hsep|by apply IH].
Qed.

Lemma tabs_pos n : Forall (λ c, 0 < c) (tabs n).
Proof. apply Forall_replicate. lia. Qed.

Lemma render_pos f i : wf_item i → ∀ d t, render f d i = Some t → Forall (λ c, 0 < c) t.
Proof.
  induction i as [t0 vs n x s ch IH] using cJSON_tree_ind. intros Hwf d t. inversion Hwf as [? ? ? ? ? ? Hvs Hd Hs Hch]; subst.
  cbn [render type_ valuestring valuedouble child].
  do 3 (case_match; [intros [= <-]; repeat constructor|]).
  case_match; [intros [= <-]; eapply Forall_impl; [by apply number_text_bounds|unfold text_char; lia]|].
  case_match; [intros ->; eapply Forall_impl; [exact Hvs|]; cbn; lia|].
  case_match; [intros [= <-]; by apply render_string_pos|].
  assert (Forall (λ y, wf_item y ∧ ∀ d t, render f d y = Some t → Forall (λ c, 0 < c) t) ch) as Hall.
  { by apply (Forall_wf (λ y, ∀ d t, render f d y = Some t → Forall (λ c, 0 < c) t)). }
  case_match; [|case_match; [|done]].
  - destruct (render_list _ _ ch) as [ts|] eqn:E; [|done]. intros [= <-].
    constructor; [lia|]. apply Forall_app. split; [|repeat constructor].
    eapply render_list_pos, E; [|eapply Forall_impl; [exact Hall|]; intros y [_ Hy]; apply Hy].
    intros []; [done|]. unfold array_sep. destruct f; repeat constructor.
  - destruct (render_list _ _ ch) as [ts|] eqn:E; [|done]. intros [= <-].
    constructor; [lia|]. apply Forall_app. split; [destruct f; repeat constructor|].
    apply Forall_app. split; [|apply Forall_app; split; [destruct f; [apply tabs_pos|done]|repeat constructor]].
    eapply render_list_pos, E; [intros []; unfold member_sep; destruct f; repeat constructor|].
    eapply Forall_impl; [exact Hall|]. intros y [Hwy Hy] u. cbn beta. destruct (render f (d + 1) y) as [ty|] eqn:Ey; [|done].
    intros <-%(inj Some). apply Forall_app. split; [destruct f; [apply tabs_pos|done]|].
    apply Forall_app. split; [apply render_string_pos; by inversion Hwy|]. constructor; [lia|].
    apply Forall_app. split; [destruct f; repeat constructor|by eapply Hy].
Qed.

Lemma renders_literal f d n t : n = Z.of_nat (length t) + 1 →
  renders true f d (ensure alloc junk has_realloc n;; put 0 (t ++ [0])) (Some t) d.
Proof.
  intros Hn. apply (renders_ext _ _ _ (ensure alloc junk has_realloc n;; put 0 (t ++ [0]);; mret tt)); [apply seq_ret|].
  rewrite <- (Z.add_0_r d) at 2. apply (renders_finish f d n t 0); [done|lia|]. intros p. by rewrite set_pdepth_0.
Qed.

Lemma renders_fail f d : renders true f d fail None d.
Proof.
  intros p b (Hb & _) _ _. exists None, p. split; [done|]. split; [done|]. intros _. by exists b.
Qed.

Lemma print_value_spec f i : wf_item i → ∀ d, 0 ≤ d →
  renders true f d (print_value alloc junk has_realloc i) (render f d i) d.
Proof.
  induction i as [t0 vs n x s ch IH] using cJSON_tree_ind. intros Hwf d Hd. inversion Hwf as [? ? ? ? ? ? Hvs Hx Hs Hch]; subst.
  assert (Forall (item_ok (print_value alloc junk has_realloc) f) ch) as Hall.
  { eapply Forall_impl; [apply (Forall_wf _ _ IH Hch)|]. intros y [Hy Hr]. split; [done|]. split; [done|by apply render_pos]. }
  cbn [render print_value type_ valuestring valuedouble child].
  do 3 (case_match; [by apply renders_literal|]).
  case_match; [by apply (print_number_spec f d (Item t0 vs n x s ch))|].
  case_match; [destruct vs; [by apply renders_literal|apply renders_fail]|].
  case_match; [apply print_string_spec|].
  case_match; [by apply print_array_spec|].
  case_match; [by apply print_object_spec|apply renders_fail].
Qed.
End refine.

(** ** Entry points *)

Lemma print_spec `{CJsonH} (alloc : nat → Z → bool) (junk : Z) (has_realloc : bool) (item : cJSON) (fmt : bool) :
  wf_item item →
  ∃ r, print alloc junk has_realloc item fmt = Ok r ∧
    match r with
    | Some printed => ∃ t, render fmt 0 item = Some t ∧ printed = t ++ [0]
    | None => (∀ k n, alloc k n = true) → ∀ t, render fmt 0 item = Some t → INT_MAX < Z.of_nat (length t) + 2
    end.
Proof.
  intros Hwf. unfold print. destruct (alloc 0%nat 256) eqn:E0; cbn [negb].
  2: { eexists. split; [done|]. intros Hall. by rewrite Hall in E0. }
  set (p0 := new_printbuffer _ _ _ _ _).
  assert (good has_realloc p0 (replicate (Z.to_nat 256) junk)) as Hg0.
  { unfold good. cbn. rewrite length_replicate. split_and!; done || unfold INT_MAX; lia. }
  destruct (print_value_spec alloc junk has_realloc fmt item Hwf 0 ltac:(lia) p0 _ Hg0 eq_refl eq_refl) as (r & p & E & Hr).
  destruct r as [[]|].
  - destruct Hr as (b & t & Ht & Hg & Hs & Hd & Hw).
    rewrite (bind_run _ _ _ _ _ E), (update_offset_spec _ p0 _ p b t Hg0 Hg Hw) by (by eapply render_pos). rewrite ok_bind.
    cbn [poffset set_poffset p0 new_printbuffer plength pbuf pallocs].
    destruct (alloc (pallocs p) _) eqn:E1; cbn [negb].
    2: { eexists. split; [done|]. intros Hall. by rewrite Hall in E1. }
    destruct Hw as (Ho & Hroom & Htk). destruct Hg as (Hb & Hl & _). rewrite Hb. cbn [of_opt]. rewrite ok_bind.
    cbn [poffset p0 new_printbuffer] in *. change (Z.to_nat 0) with 0%nat in Htk. rewrite take_0, app_nil_l in Htk.
    assert (∀ junk' : Z, memwrite (replicate (Z.to_nat (0 + Z.of_nat (length t) + 1)) junk') 0 (t ++ [0]) = Ok (t ++ [0])) as Hmw.
    { intros j. rewrite memwrite_Ok by (rewrite ?length_app, ?length_replicate; simpl; lia).
      change (Z.to_nat 0) with 0%nat. rewrite take_0, app_nil_l, drop_ge, app_nil_r; [done|].
      rewrite length_app, length_replicate. simpl. lia. }
    destruct has_realloc.
    + rewrite Htk, Hmw, ok_bind. eexists. split; [done|]. by exists t.
    + unfold memcpy. rewrite Z.min_r, memread_Ok, ok_bind by lia. change (Z.to_nat 0) with 0%nat. rewrite drop_0, Htk, Hmw, ok_bind.
      unfold blk_store. rewrite bool_decide_eq_true_2, ok_bind by (rewrite length_app; simpl; lia).
      eexists. split; [done|]. exists t. split; [done|]. apply list_insert_id.
      rewrite lookup_app_r by lia. replace (_ - _)%nat with 0%nat by lia. done.
  - rewrite (bind_fail _ _ _ _ E), ok_bind. eexists. split; [done|]. intros Hall t Ht. destruct Hr as [Hfl _]. specialize (Hfl t Ht (or_intror Hall)).
    unfold avail in Hfl. cbn in Hfl. lia.
Qed.

(** C3. [cJSON_Print] and [cJSON_PrintUnformatted] refine [render]: on a well-formed item
    they never access memory outside their blocks, whichever hooks are installed and
    whichever allocations fail.  A block they return is exactly the text of the item and its
    terminating NUL; when every allocation succeeds they return [NULL] only for an item that
    has no text, or whose text with two more bytes exceeds [INT_MAX]. *)
Theorem print_refines_render `{CJsonH} (alloc : nat → Z → bool) (junk : Z) (has_realloc : bool) (item : cJSON) (fmt : bool) :
  wf_item item →
  ∃ r, print alloc junk has_realloc item fmt = Ok r ∧
    match r with
    | Some printed => ∃ t, render fmt 0 item = Some t ∧ printed = t ++ [0]
    | None => (∀ k n, alloc k n = true) → ∀ t, render fmt 0 item = Some t → INT_MAX < Z.of_nat (length t) + 2
    end.
Proof. apply print_spec. Qed.

(** An object with an escaped key over a number, a string and a nested array. *)
Definition sample_item : cJSON :=
  Item cJSON_Object None 0 (S754_zero false) None
    [Item cJSON_Number None 12 (Z_to_double 12) (Some [97; 34]) [];
     Item cJSON_Array None 0 (S754_zero false) (Some [98])
       [Item cJSON_String (Some [10; 1; 200]) 0 (S754_zero false) None [];
        Item cJSON_True None 1 (S754_zero false) None []]].

Lemma sample_item_wf : wf_item sample_item.
Proof. repeat (constructor; cbn; try done). Qed.

Lemma print_refines_render_witness :
  ∃ r, print (λ _ _, true) 170 false sample_item true = Ok r ∧
    match r with
    | Some printed => ∃ t, render true 0 sample_item = Some t ∧ printed = t ++ [0]
    | None => (nat → Z → true = true) → ∀ t, render true 0 sample_item = Some t → INT_MAX < Z.of_nat (length t) + 2
    end.
Proof. apply (print_refines_render (λ _ _, true)), sample_item_wf. Defined.

(** C25. [cJSON_PrintPreallocated] on a buffer of [length] bytes writes nothing beyond it,
    and returns [true] exactly when the item has a text that fits with two more bytes; the
    buffer then starts with the text and its terminating NUL. *)
Theorem preallocated_exact `{CJsonH} (alloc : nat → Z → bool) (junk : Z) (has_realloc : bool) (item : cJSON) (fmt : bool)
    (buffer : list Z) :
  wf_item item → Z.of_nat (length buffer) ≤ INT_MAX →
  ∃ ok b, cJSON_PrintPreallocated alloc junk has_realloc item (Some buffer) (Z.of_nat (length buffer)) fmt = Ok (ok, Some b) ∧
    length b = length buffer ∧
    (ok = true ↔ ∃ t, render fmt 0 item = Some t ∧ (length t + 2 ≤ length buffer)%nat) ∧
    (ok = true → ∀ t, render fmt 0 item = Some t → take (length t + 1) b = t ++ [0]).
Proof.
  intros Hwf Hlen. unfold cJSON_PrintPreallocated. destruct (Z.ltb_spec (Z.of_nat (length buffer)) 0); [lia|].
  set (p0 := new_printbuffer _ _ _ _ _).
  assert (good has_realloc p0 buffer) as Hg0 by (unfold good; cbn; split_and!; done || lia || by right; left).
  destruct (print_value_spec alloc junk has_realloc fmt item Hwf 0 ltac:(lia) p0 _ Hg0 eq_refl eq_refl) as (r & p & -> & Hr).
  rewrite ok_bind. destruct r as [[]|].
  - destruct Hr as (b & t & Ht & (Hb & Hl & _) & (_ & _ & Hs) & _ & Ho & Hroom & Htk). specialize (Hs eq_refl).
    cbn [poffset p0 new_printbuffer plength] in *. rewrite Hb. exists true, b. split; [done|]. split; [lia|]. split.
    + split; [|done]. intros _. exists t. split; [done|lia].
    + intros _ t' Ht'. rewrite Ht in Ht'. injection Ht' as <-.
      change (Z.to_nat 0) with 0%nat in Htk. rewrite take_0, app_nil_l in Htk. rewrite <- Htk. f_equal. lia.
  - destruct Hr as [Hfl Hna]. destruct (Hna eq_refl) as (b & -> & Hlb). exists false, b. split; [done|]. split; [done|].
    split; [|done]. split; [done|]. intros (t & Ht & Hfit). exfalso. specialize (Hfl t Ht (or_introl eq_refl)).
    unfold avail in Hfl. cbn in Hfl. lia.
Qed.

(** The text of the sample without formatting takes 33 bytes: 34 are not enough, 35 are. *)
Lemma preallocated_exact_witness :
  (∃ ok b, cJSON_PrintPreallocated (λ _ _, true) 170 true sample_item (Some (replicate 35 7)) 35 false = Ok (ok, Some b) ∧
    length b = 35%nat ∧ (ok = true ↔ ∃ t, render false 0 sample_item = Some t ∧ (length t + 2 ≤ 35)%nat) ∧
    (ok = true → ∀ t, render false 0 sample_item = Some t → take (length t + 1) b = t ++ [0])).
Proof. apply (preallocated_exact (λ _ _, true) 170 true sample_item false (replicate 35 7)); [apply sample_item_wf|by apply Z.leb_le]. Defined.

Example preallocated_sample :
  option_map length (render false 0 sample_item) = Some 33%nat ∧
  (∃ b, cJSON_PrintPreallocated (λ _ _, true) 170 true sample_item (Some (replicate 34 7)) 34 false = Ok (false, Some b)) ∧
  (∃ b, cJSON_PrintPreallocated (λ _ _, true) 170 true sample_item (Some (replicate 35 7)) 35 false = Ok (true, Some b)).
Proof. vm_compute. split; [done|]. split; by eexists. Qed.

(** The first [ensure] on an empty block. *)
Lemma ensure_empty junk n fmt : 0 ≤ n ≤ INT_MAX - 1 → ensure (λ _ _, true) junk false n (new_printbuffer [] 0 false fmt 1) = Ub.
Proof.
  intros Hn. unfold ensure. cbn [pbuf plength poffset noalloc new_printbuffer]. change (0 <? 0) with false. cbn [andb].
  destruct (Z.ltb_spec INT_MAX n); [lia|]. assert (u64 (n + 0 + 1) = n + 1) as ->.
  { unfold u64. rewrite Z.mod_small; unfold INT_MAX in *; lia. }
  destruct (Z.leb_spec (n + 1) 0); [lia|]. destruct (Z.ltb_spec INT_MAX (n + 1)); [lia|]. rewrite andb_false_r.
  done.
Qed.

Lemma bind_ub {A B} (m : printer A) (k : A → printer B) p : m p = Ub → (m ≫= k) p = Ub.
Proof. intros E. unfold mbind, printer_bind. by rewrite E. Qed.

(** [cJSON_PrintBuffered] with an initial size of 0 and hooks without [realloc] reads a
    byte past its block, for every well-formed item whose text is not too long: the manual
    reallocation copies [offset + 1] bytes of a block that has none. *)
Theorem buffered_zero_overreads `{CJsonH} (junk : Z) (item : cJSON) (fmt : bool) (t : list Z) :
  wf_item item → render fmt 0 item = Some t → Z.of_nat (length t) + 2 ≤ INT_MAX →
  cJSON_PrintBuffered (λ _ _, true) junk false item 0 fmt = Ub.
Proof.
  intros Hwf Ht Hlen. unfold cJSON_PrintBuffered. cbn [Z.ltb Z.compare negb]. change (Z.to_nat 0) with 0%nat. cbn [replicate].
  set (p0 := new_printbuffer _ _ _ _ _). assert (print_value (λ _ _, true) junk false item p0 = Ub) as ->; [|done].
  assert (∀ n (k : unit → printer unit), 0 ≤ n ≤ INT_MAX - 1 → (ensure (λ _ _, true) junk false n ≫= k) p0 = Ub) as Hub.
  { intros n k Hn. by apply bind_ub, ensure_empty. }
  destruct item as [t0 vs n x s ch]. inversion Hwf as [? ? ? ? ? ? Hvs Hx Hs Hch]; subst.
  cbn [render print_value type_ valuestring valuedouble child] in *.
  do 3 (case_match; [by apply Hub|]).
  case_match.
  { destruct (number_text_bounds _ Hx) as [Hl _]. unfold print_number. cbn [valuedouble]. set (text := number_text x) in *.
    rewrite memwrite_Ok, ok_bind by (rewrite ?length_app, ?length_replicate; simpl; lia).
    destruct (Z.ltb_spec 25 (Z.of_nat (length text))); [lia|]. apply Hub. unfold INT_MAX. lia. }
  case_match; [subst; apply Hub; lia|].
  case_match.
  { injection Ht as <-. destruct vs as [vs|]; [|by apply Hub]. cbn [print_string_ptr]. apply Hub.
    revert Hlen. unfold render_string. cbn [default]. rewrite !length_app, !Nat2Z.inj_add, length_flat_escape.
    pose proof (length_flat_escape vs). simpl. lia. }
  case_match; [by apply Hub|]. case_match; [|done]. unfold print_object. unfold get at 1. unfold mbind at 1, printer_bind at 1.
  apply Hub. destruct (format p0); unfold INT_MAX; lia.
Qed.

Lemma buffered_zero_overreads_witness :
  cJSON_PrintBuffered (λ _ _, true) 170 false sample_item 0 false = Ub.
Proof. eapply buffered_zero_overreads; [apply sample_item_wf|by vm_compute|by apply Z.leb_le]. Defined.
