(* ===== verification/CJsonRoundtrip.v ===== *)
(** * CJsonRoundtrip: what the printer of cJSON.c prints, its parser reads back

    The texts of [render], formatted or not, of the items the parser itself builds. *)

From Stdlib Require Import Floats.SpecFloat.
From S2P Require Import Prelude CDouble CDoubleRound CJson CJsonPrint CJsonRender.
#[local] Open Scope Z_scope.

(** ** Integers are printed with 15 digits *)
Lemma shr_1_nonneg r : 0 ≤ shr_m r → 0 ≤ shr_m (shr_1 r).
Proof. destruct r as [[|[]|] ? ?]; simpl; lia. Qed.

Lemma shr_nonneg r e n : 0 ≤ shr_m r → 0 ≤ shr_m (fst (shr r e n)).
Proof.
  intros Hr. destruct n as [|n|n]; [done| |done]. cbn [shr fst]. revert r Hr.
  induction n as [n IH|n IH|]; intros r Hr; cbn [iter_pos].
  - by apply IH, IH, shr_1_nonneg.
  - by apply IH, IH.
  - by apply shr_1_nonneg.
Qed.

Lemma shr_fexp_nonneg m e l : 0 ≤ m → 0 ≤ shr_m (fst (shr_fexp PREC EMAX m e l)).
Proof. intros Hm. apply shr_nonneg. by destruct l as [|[]]. Qed.

Lemma round_nonneg m l : 0 ≤ m → 0 ≤ round_nearest_even m l.
Proof. intros Hm. unfold round_nearest_even. repeat case_match; lia. Qed.

(** Rounding a positive number does not make it negative or NaN. *)
Lemma rounded_nonneg m e l : 0 ≤ m → SFleb (S754_zero false) (binary_round_aux PREC EMAX false m e l) = true.
Proof.
  intros Hm. unfold binary_round_aux. destruct (shr_fexp PREC EMAX m e l) as [r1 e1] eqn:E1.
  pose proof (shr_fexp_nonneg m e l Hm) as H1. rewrite E1 in H1. cbn [fst] in H1.
  destruct (shr_fexp PREC EMAX (round_nearest_even (shr_m r1) (loc_of_shr_record r1)) e1 loc_Exact) as [r2 e2] eqn:E2.
  pose proof (shr_fexp_nonneg _ e1 loc_Exact (round_nonneg _ (loc_of_shr_record r1) H1)) as H2.
  rewrite E2 in H2. cbn [fst] in H2. destruct (shr_m r2); [done| |lia]. by case_match.
Qed.

Lemma compare_double_refl d : isnan d = false → isinf d = false → compare_double d d = true.
Proof.
  destruct d as [s|s| |s m e]; try done; intros _ _; unfold compare_double; [by destruct s|].
  assert (fabs (SFsub PREC EMAX (S754_finite s m e) (S754_finite s m e)) = S754_zero false) as ->.
  { unfold SFsub. by rewrite Z.sub_diag. }
  case_match; cbn [fabs SFabs DBL_EPSILON SFmul xorb]; by apply rounded_nonneg.
Qed.

Lemma integer_not_special n : isnan (Z_to_double n) = false ∧ isinf (Z_to_double n) = false ∨ 2 ^ 53 ≤ Z.abs n.
Proof.
  destruct (decide (Z.abs n < 2 ^ 53)); [left|right; lia]. destruct n as [|p|p]; [done|..]; unfold Z_to_double, binary_normalize.
  all: destruct (binary_round_int false p) as (m & k & E & _); [lia|]; destruct (binary_round_int true p) as (m' & k' & E' & _); [lia|].
  all: by rewrite ?E, ?E'.
Qed.

Lemma number_text_Z n : Z.abs n < 10 ^ 15 → number_text (Z_to_double n) = show_Z n.
Proof.
  intros Hn. destruct (integer_not_special n) as [[Hnan Hinf]|]; [|lia]. unfold number_text. rewrite Hnan, Hinf. cbn [orb].
  rewrite fmt_g_Z by done. unfold recovers. pose proof (strtod_show_Z n [] I) as Hs. rewrite app_nil_r in Hs. rewrite Hs.
  rewrite compare_double_refl by done. destruct (show_Z n) eqn:E; [|done]. exfalso. revert E. unfold show_Z, show_nat.
  assert (∀ z, 0 < z → dec_digits (num_digits z) z ≠ []) as Hd.
  { intros z Hz E%(f_equal length). rewrite length_dec_digits in E. destruct (num_digits_spec z Hz). simpl in E. lia. }
  destruct (Z.ltb_spec n 0); [done|]. destruct (Z.eqb_spec n 0); [done|]. apply Hd. lia.
Qed.

(** What [strtod] makes of the text of a number. *)
Definition reread (d : double) : double := (strtod (number_text d)).1.

Lemma reread_Z n : Z.abs n < 10 ^ 15 → reread (Z_to_double n) = Z_to_double n.
Proof. intros Hn. unfold reread. rewrite number_text_Z by done. pose proof (strtod_show_Z n [] I) as E. rewrite app_nil_r in E. by rewrite E. Qed.

Lemma number_text_decimal d : isnan d || isinf d = false →
  ∃ neg ip fp ex x, number_text d = decimal neg ip fp ex ∧ digits ip ∧ ip ≠ [] ∧ digits fp ∧ exponent_text ex x.
Proof. intros Hd. unfold number_text. rewrite Hd. case_match; apply fmt_g_decimal; done || lia. Qed.

(** A number printed with 15 digits is read back as one the printer takes for equal. *)
Lemma reread_15 d : isnan d || isinf d = false → recovers (fmt_g 15 d) d = true → compare_double (reread d) d = true.
Proof.
  intros Hd Hr. unfold reread, number_text. rewrite Hd, Hr. unfold recovers in Hr. destruct (strtod (fmt_g 15 d)) as [t k].
  by apply andb_true_iff in Hr as [_ Hr].
Qed.

(** With 17 digits it is read back exactly, so the printer takes every finite number for equal
    to what is read back. *)
Lemma reread_17 d : valid_binary PREC EMAX d = true → isnan d || isinf d = false → recovers (fmt_g 15 d) d = false → reread d = d.
Proof. intros Hv Hd Hr. unfold reread, number_text. rewrite Hd, Hr. by apply strtod_fmt_g_17. Qed.

Lemma reread_close d : valid_binary PREC EMAX d = true → isnan d || isinf d = false → compare_double (reread d) d = true.
Proof.
  intros Hv Hd. destruct (recovers (fmt_g 15 d) d) eqn:Hr; [by apply reread_15|]. rewrite reread_17 by done.
  apply orb_false_iff in Hd as [Hn Hi]. by apply compare_double_refl.
Qed.

Lemma digit_number c : is_digit c = true → number_char c = true.
Proof. intros Hc. unfold number_char. by rewrite Hc. Qed.

Lemma digits_number s : digits s → Forall (λ c, number_char c = true) s.
Proof. intros Hs. eapply Forall_impl; [exact Hs|]. exact digit_number. Qed.

Lemma decimal_chars neg ip fp ex x : digits ip → ip ≠ [] → digits fp → exponent_text ex x →
  Forall (λ c, number_char c = true) (decimal neg ip fp ex) ∧ ∃ c t, decimal neg ip fp ex = c :: t ∧ (c =? 45) || is_digit c = true.
Proof.
  intros Hip Hne Hfp Hex. split.
  - unfold decimal. rewrite !Forall_app. split_and!; [destruct neg; by repeat constructor|by apply digits_number|destruct fp; [done|by constructor; [|apply digits_number]]|].
    destruct Hex as [[-> _]| ->]; [done|]. unfold show_exp. constructor; [done|]. constructor; [by destruct (x <? 0)|].
    apply Forall_app. split; [case_match; by repeat constructor|]. apply digits_number, show_nat_is_digits. lia.
  - unfold decimal. destruct neg; [by eexists 45, _|]. destruct ip as [|c ip]; [done|]. apply Forall_cons in Hip as [Hc _]. eexists c, _. split; [done|]. by rewrite Hc, orb_true_r.
Qed.

Lemma number_text_reads d : isnan d || isinf d = false →
  strtod (number_text d) = (reread d, length (number_text d)) ∧ Forall (λ c, number_char c = true) (number_text d) ∧
  ∃ c t, number_text d = c :: t ∧ (c =? 45) || is_digit c = true.
Proof.
  intros Hd. destruct (number_text_decimal d Hd) as (neg & ip & fp & ex & x & E & Hip & Hne & Hfp & Hex). unfold reread. rewrite E.
  split; [by rewrite (strtod_decimal neg ip fp ex x)|by eapply decimal_chars].
Qed.

Lemma number_first c : (c =? 45) || is_digit c = true → c = 45 ∨ 48 ≤ c ≤ 57.
Proof. intros [->%Z.eqb_eq|Hc]%orb_true_iff; [by left|]. unfold is_digit in Hc. apply andb_true_iff in Hc. rewrite !Z.leb_le in Hc. lia. Qed.

(** ** The text ahead of a position *)
Section roundtrip.
Context `{CJsonHOk}.
Implicit Types (b : parse_buffer).

Definition sees b (i : Z) (s : list Z) : Prop :=
  0 ≤ i ∧ i + Z.of_nat (length s) ≤ pb_length b ∧ s `prefix_of` drop (Z.to_nat i) (content b).

Lemma sees_app b i s1 s2 : sees b i (s1 ++ s2) → sees b i s1 ∧ sees b (i + Z.of_nat (length s1)) s2.
Proof.
  intros (Hi & Hl & z & Hz). rewrite length_app in Hl. split.
  - split; [done|]. split; [lia|]. exists (s2 ++ z). by rewrite Hz, app_assoc.
  - split; [lia|]. split; [lia|]. exists z.
    replace (Z.to_nat (i + Z.of_nat (length s1))) with (Z.to_nat i + length s1)%nat by lia.
    rewrite <- drop_drop, Hz, <- app_assoc, drop_app_ge, Nat.sub_diag by lia. done.
Qed.

Lemma sees_load b i c s : sees b i (c :: s) → blk_load (content b) i = Ok c ∧ i < pb_length b.
Proof.
  intros (Hi & Hl & z & Hz). cbn [length] in Hl. split; [|lia]. apply blk_load_Ok; [done|].
  rewrite <- (Nat.add_0_r (Z.to_nat i)), <- lookup_drop, Hz. done.
Qed.

Lemma sees_cons b i c s : sees b i (c :: s) → sees b (i + 1) s.
Proof. intros Hs. change (c :: s) with ([c] ++ s) in Hs. apply sees_app in Hs as [_ Hs]. done. Qed.

Lemma sees_read b i s : sees b i s → s ≠ [] → memread (content b) i (Z.of_nat (length s)) = Ok s.
Proof.
  intros (Hi & Hl & z & Hz) Hs. assert (length s + length z = length (content b) - Z.to_nat i)%nat as Hlen.
  { rewrite <- length_drop, Hz, length_app. done. }
  assert (0 < length s)%nat by (destruct s; [done|simpl; lia]).
  rewrite memread_Ok by lia. by rewrite Hz, Nat2Z.id, take_app_le, firstn_all by done.
Qed.

(** The bytes behind a position decide a comparison with a literal. *)
Lemma reads_literal_false b c s l lit : sees b (offset b) (c :: s) → c ≠ l → pb_length b ≤ Z.of_nat (length (content b)) →
  reads_literal b (l :: lit) = Ok false.
Proof.
  intros Hs Hne Hlen. unfold reads_literal, can_read, literal_at. case_match eqn:E; [|done].
  apply Z.leb_le in E. destruct Hs as (Hi & _ & z & Hz). rewrite memread_Ok, ok_bind by lia. f_equal.
  apply bool_decide_eq_false_2. rewrite Hz, Nat2Z.id. cbn [length take app]. congruence.
Qed.

Lemma reads_literal_true b lit : sees b (offset b) lit → lit ≠ [] → reads_literal b lit = Ok true.
Proof.
  intros Hs Hne. unfold reads_literal, can_read, literal_at. pose proof Hs as (Hi & Hl & Hz).
  rewrite (proj2 (Z.leb_le _ _) Hl). rewrite (sees_read b _ lit), ok_bind by done. by rewrite bool_decide_eq_true_2.
Qed.

(** A successful step over [n] bytes. *)
Definition moved b b' (n : Z) : Prop :=
  content b' = content b ∧ pb_length b' = pb_length b ∧ depth b' = depth b ∧ offset b' = offset b + n.

Lemma moved_trans b1 b2 b3 n m : moved b1 b2 n → moved b2 b3 m → moved b1 b3 (n + m).
Proof. intros (? & ? & ? & ?) (? & ? & ? & ?). unfold moved. split_and!; congruence || lia. Qed.

Lemma moved_sees b b' n i s : moved b b' n → sees b' i s ↔ sees b i s.
Proof. intros (Hc & Hl & _). unfold sees. by rewrite Hc, Hl. Qed.

Lemma moved_offset b n : moved b (set_offset (offset b + n) b) n.
Proof. done. Qed.

(** ** Whitespace *)
Definition blank (s : list Z) : Prop := Forall (λ c, c ≤ 32) s.

Lemma skip_loop_blank ws : ∀ b c s fuel, blank ws → 32 < c → sees b (offset b) (ws ++ c :: s) → (length ws < fuel)%nat →
  skip_loop fuel b = Ok (set_offset (offset b + Z.of_nat (length ws)) b).
Proof.
  induction ws as [|w ws IH]; intros b c s fuel Hws Hc Hs Hf; (destruct fuel as [|fuel]; [simpl in Hf; lia|]); cbn [skip_loop app] in *;
    unfold can_access_at_index, buffer_at; rewrite Z.add_0_r; pose proof (sees_load _ _ _ _ Hs) as [Hld Hlt];
    rewrite (proj2 (Z.ltb_lt _ _) Hlt), Hld, ok_bind.
  - destruct (Z.leb_spec c 32); [lia|]. f_equal. destruct b; cbn. unfold set_offset. f_equal; cbn. lia.
  - inversion Hws; subst. destruct (Z.leb_spec w 32); [|lia]. rewrite (IH _ c s); [|done|done| |simpl in Hf; lia].
    + f_equal. unfold set_offset. cbn [length offset content pb_length depth allocs]. f_equal. lia.
    + cbn [set_offset offset]. by apply sees_cons in Hs.
Qed.

Lemma skip_ws_blank ws b c s : blank ws → 32 < c → sees b (offset b) (ws ++ c :: s) →
  buffer_skip_whitespace b = Ok (set_offset (offset b + Z.of_nat (length ws)) b).
Proof.
  intros Hws Hc Hs. pose proof Hs as (Ho & Hl & _). rewrite length_app in Hl. cbn [length] in Hl.
  unfold buffer_skip_whitespace, can_access_at_index. rewrite Z.add_0_r.
  destruct (Z.ltb_spec (offset b) (pb_length b)); [|lia]. cbn [negb].
  rewrite (skip_loop_blank ws b c s), ok_bind by (done || unfold text_fuel; lia).
  cbn [set_offset offset pb_length]. destruct (Z.eqb_spec (offset b + Z.of_nat (length ws)) (pb_length b)); [lia|done].
Qed.

(** No whitespace ahead. *)
Lemma skip_ws_none b c s : 32 < c → sees b (offset b) (c :: s) → buffer_skip_whitespace b = Ok b.
Proof.
  intros Hc Hs. rewrite (skip_ws_blank [] b c s) by (done || by constructor). cbn [length]. rewrite Z.add_0_r. by destruct b.
Qed.

Lemma accessible_is_sees b c s x : sees b (offset b) (c :: s) → accessible_is b x = Ok (c =? x).
Proof.
  intros Hs. unfold accessible_is, can_access_at_index, buffer_at. rewrite Z.add_0_r.
  apply sees_load in Hs as [-> Hlt]. rewrite (proj2 (Z.ltb_lt _ _) Hlt). done.
Qed.
(** ** Strings *)
Lemma hex_char_digit d : 0 ≤ d < 16 → hex_digit (hex_char d) = Some d ∧ hex_char d ≠ 34 ∧ hex_char d ≠ 92.
Proof.
  intros Hd. unfold hex_char, hex_digit. destruct (Z.ltb_spec d 10).
  - bool_case; cbn [andb]; try lia. split; [f_equal; lia|lia].
  - bool_case; cbn [andb]; try lia. split; [f_equal; lia|lia].
Qed.

(** The three forms of a printed character. *)
Lemma escape_shape c : 0 < c < 256 →
  (escape_text c = [c] ∧ c ≠ 34 ∧ c ≠ 92) ∨
  (∃ x, escape_text c = [92; x] ∧ x ≠ 117 ∧ simple_escape x = Some c) ∨
  (∃ h1 h2, escape_text c = [92; 117; 48; 48; h1; h2] ∧ hex_digit h1 = Some (c / 16) ∧ hex_digit h2 = Some (c mod 16) ∧
     c < 32 ∧ h1 ≠ 34 ∧ h1 ≠ 92 ∧ h2 ≠ 34 ∧ h2 ≠ 92).
Proof.
  intros Hc. unfold escape_text.
  destruct (Z.eqb_spec c 34); [subst; right; left; by exists 34|].
  destruct (Z.eqb_spec c 92); [subst; right; left; by exists 92|]. cbn [orb].
  destruct (Z.eqb_spec c 8); [subst; right; left; by exists 98|].
  destruct (Z.eqb_spec c 12); [subst; right; left; by exists 102|].
  destruct (Z.eqb_spec c 10); [subst; right; left; by exists 110|].
  destruct (Z.eqb_spec c 13); [subst; right; left; by exists 114|].
  destruct (Z.eqb_spec c 9); [subst; right; left; by exists 116|].
  destruct (Z.ltb_spec c 32); [|by left]. right; right.
  destruct (hex_char_digit (c / 16)) as (? & ? & ?); [split; [apply Z.div_pos; lia|apply Z.div_lt_upper_bound; lia]|].
  destruct (hex_char_digit (c mod 16)) as (? & ? & ?); [apply Z.mod_pos_bound; lia|].
  exists (hex_char (c / 16)), (hex_char (c mod 16)). split_and!; done.
Qed.

Definition escapes_in (s : list Z) : Z := foldr (λ c n, (if Nat.eqb (length (escape_text c)) 1 then 0 else 1) + n) 0 s.

Lemma escapes_in_le s : cstring s → 0 ≤ escapes_in s ∧
  Z.of_nat (length s) + escapes_in s ≤ Z.of_nat (length (flat_map escape_text s)).
Proof.
  induction 1 as [|c s Hc _ IH]; [done|]. cbn [escapes_in foldr flat_map length]. change (foldr _ 0 s) with (escapes_in s).
  rewrite length_app. destruct (escape_shape c Hc) as [(E & _)|[(x & E & _)|(h1 & h2 & E & _)]]; rewrite E; simpl; lia.
Qed.

(** One step of the search for the closing quote. *)
Lemma find_end_plain fuel b i k c s : sees b i (c :: s) → c ≠ 34 → c ≠ 92 →
  find_end (S fuel) b i k = find_end fuel b (i + 1) k.
Proof.
  intros Hs H34 H92. cbn [find_end]. apply sees_load in Hs as [-> Hlt]. rewrite (proj2 (Z.ltb_lt _ _) Hlt), ok_bind.
  by rewrite (proj2 (Z.eqb_neq _ _) H34), (proj2 (Z.eqb_neq _ _) H92).
Qed.

Lemma find_end_escape fuel b i k x s : sees b i (92 :: x :: s) →
  find_end (S fuel) b i k = find_end fuel b (i + 2) (k + 1).
Proof.
  intros Hs. cbn [find_end]. pose proof (sees_load _ _ _ _ (sees_cons _ _ _ _ Hs)) as [_ Hlt2].
  apply sees_load in Hs as [-> Hlt]. rewrite (proj2 (Z.ltb_lt _ _) Hlt), ok_bind. cbn [Z.eqb Pos.eqb].
  destruct (Z.leb_spec (pb_length b) (i + 1)); [lia|done].
Qed.

Lemma find_end_text s : ∀ b i k fuel rest, cstring s → sees b i (flat_map escape_text s ++ 34 :: rest) →
  (length (flat_map escape_text s) < fuel)%nat →
  find_end fuel b i k = Ok (Some (i + Z.of_nat (length (flat_map escape_text s)), k + escapes_in s)).
Proof.
  induction s as [|c s IH]; intros b i k fuel rest Hc Hs Hf.
  { destruct fuel as [|fuel]; [simpl in Hf; lia|]. cbn [find_end flat_map app length escapes_in foldr] in *.
    apply sees_load in Hs as [-> Hlt]. rewrite (proj2 (Z.ltb_lt _ _) Hlt), ok_bind. cbn [Z.eqb Pos.eqb]. by rewrite !Z.add_0_r. }
  inversion Hc as [|? ? Hc1 Hc2]; subst. cbn [flat_map escapes_in foldr] in *. change (foldr _ 0 s) with (escapes_in s).
  rewrite length_app in Hf |- *. rewrite <- app_assoc in Hs.
  assert (sees b (i + Z.of_nat (length (escape_text c))) (flat_map escape_text s ++ 34 :: rest)) as Hs2
    by (by apply sees_app in Hs as [_ Hs]).
  destruct (escape_shape c Hc1) as [(E & ? & ?)|[(x & E & _)|(h1 & h2 & E & _ & _ & _ & ? & ? & ? & ?)]]; rewrite E in *;
    cbn [app length] in *.
  - destruct fuel as [|fuel]; [lia|]. erewrite find_end_plain by done. rewrite (IH _ _ _ _ rest) by (done || lia).
    do 3 f_equal; simpl; lia.
  - destruct fuel as [|fuel]; [lia|]. erewrite find_end_escape by done. rewrite (IH _ _ _ _ rest) by (done || lia).
    do 3 f_equal; simpl; lia.
  - do 5 (destruct fuel as [|fuel]; [lia|]). erewrite find_end_escape by done.
    do 2 apply sees_cons in Hs. replace (i + 1 + 1) with (i + 2) in Hs by lia.
    erewrite find_end_plain by done. apply sees_cons in Hs. erewrite find_end_plain by done. apply sees_cons in Hs.
    erewrite find_end_plain by done. apply sees_cons in Hs. erewrite find_end_plain by done.
    replace (i + 2 + 1 + 1 + 1 + 1) with (i + Z.of_nat 6) by lia.
    rewrite (IH _ _ _ _ rest) by (done || lia). do 3 f_equal; simpl; lia.
Qed.

(** The output block with the bytes converted so far. *)
Definition filled (o0 o : list Z) (op : Z) (done : list Z) : Prop :=
  length o = length o0 ∧ op = Z.of_nat (length done) ∧ take (length done) o = done.

Lemma filled_write o0 o op ds bytes : filled o0 o op ds → op + Z.of_nat (length bytes) ≤ Z.of_nat (length o0) →
  ∃ o', memwrite o op bytes = Ok o' ∧ filled o0 o' (op + Z.of_nat (length bytes)) (ds ++ bytes).
Proof.
  intros (Hl & -> & Ht) Hlen. rewrite memwrite_Ok by lia. eexists. split; [done|]. unfold filled.
  rewrite !length_app, length_take, length_drop, Nat2Z.id, Ht. split; [lia|]. split; [lia|].
  rewrite app_assoc, take_app_le by (rewrite length_app; lia). apply take_ge. rewrite length_app. lia.
Qed.

Lemma blk_store_memwrite o i c : blk_store o i c = memwrite o i [c].
Proof.
  unfold blk_store, memwrite. cbn [length]. case_bool_decide as H1.
  - rewrite bool_decide_eq_true_2 by lia. f_equal. rewrite insert_take_drop by lia. by rewrite Nat.add_1_r.
  - by rewrite bool_decide_eq_false_2 by lia.
Qed.

Lemma filled_store o0 o op ds c : filled o0 o op ds → op + 1 ≤ Z.of_nat (length o0) →
  ∃ o', blk_store o op c = Ok o' ∧ filled o0 o' (op + 1) (ds ++ [c]).
Proof. intros Hf Hl. rewrite blk_store_memwrite. by apply (filled_write o0 o op ds [c]). Qed.

Lemma hex4_control b i h1 h2 c s : sees b i (48 :: 48 :: h1 :: h2 :: s) → 0 < c < 32 →
  hex_digit h1 = Some (c / 16) → hex_digit h2 = Some (c mod 16) → parse_hex4 (content b) i = Ok c.
Proof.
  intros Hs Hc E1 E2. unfold parse_hex4. cbn [hex4_loop].
  pose proof (sees_load _ _ _ _ Hs) as [-> _]. apply sees_cons in Hs. rewrite ok_bind. change (hex_digit 48) with (Some 0). cbn iota.
  pose proof (sees_load _ _ _ _ Hs) as [-> _]. apply sees_cons in Hs. rewrite ok_bind. change (hex_digit 48) with (Some 0). cbn iota.
  pose proof (sees_load _ _ _ _ Hs) as [-> _]. apply sees_cons in Hs. rewrite ok_bind, E1.
  pose proof (sees_load _ _ _ _ Hs) as [-> _]. rewrite ok_bind, E2. f_equal.
  pose proof (Z.div_mod c 16). pose proof (Z.mod_pos_bound c 16). assert (0 ≤ c / 16 ≤ 1) as Hq.
  { split; [apply Z.div_pos; lia|]. assert (c / 16 < 2) by (apply Z.div_lt_upper_bound; lia). lia. }
  change (u32 (Z.shiftl (u32 (u32 (Z.shiftl (u32 (0 + 0)) 4) + 0)) 4)) with 0.
  assert (∀ z, 0 ≤ z < 2 ^ 32 → u32 z = z) as Hu by (intros; by apply Z.mod_small).
  rewrite Z.add_0_l, (Hu (c / 16)), Z.shiftl_mul_pow2, (Hu (_ * _)), Hu by lia. lia.
Qed.
Lemma unescape_text s : ∀ b i e fuel rest o0 o op ds, cstring s → sees b i (flat_map escape_text s ++ 34 :: rest) →
  e = i + Z.of_nat (length (flat_map escape_text s)) → (length (flat_map escape_text s) < fuel)%nat →
  filled o0 o op ds → op + Z.of_nat (length s) ≤ Z.of_nat (length o0) →
  ∃ o', unescape fuel (content b) i e o op = Ok (inl (o', op + Z.of_nat (length s))) ∧
    filled o0 o' (op + Z.of_nat (length s)) (ds ++ s).
Proof.
  induction s as [|c s IH]; intros b i e fuel rest o0 o op ds Hc Hs He Hf Hfl Hlen;
    (destruct fuel as [|fuel]; [lia|]); cbn [unescape].
  { cbn [flat_map length] in He. destruct (Z.ltb_spec i e); [lia|]. cbn [negb length]. exists o.
    by rewrite Z.add_0_r, app_nil_r. }
  pose proof (Forall_inv Hc) as Hc1. pose proof (Forall_inv_tail Hc) as Hc2. subst e. cbn [flat_map length] in *. rewrite length_app in Hf |- *. rewrite <- app_assoc in Hs.
  assert (sees b (i + Z.of_nat (length (escape_text c))) (flat_map escape_text s ++ 34 :: rest)) as Hs2
    by (by apply sees_app in Hs as [_ Hs]).
  replace (op + Z.of_nat (S (length s))) with (op + 1 + Z.of_nat (length s)) by lia.
  replace (ds ++ c :: s) with ((ds ++ [c]) ++ s) by (by rewrite <- app_assoc).
  destruct (escape_shape c Hc1) as [(E & Hn34 & Hn92)|[(x & E & Hn117 & Hx)|(h1 & h2 & E & Hh1 & Hh2 & Hlt & _)]];
    rewrite E in *; cbn [app length] in *.
  - destruct (Z.ltb_spec i (i + Z.of_nat (1 + length (flat_map escape_text s)))); [|lia]. cbn [negb].
    pose proof (sees_load _ _ _ _ Hs) as [-> _]. rewrite ok_bind, (proj2 (Z.eqb_neq _ _) Hn92). cbn [negb].
    destruct (filled_store o0 o op ds c Hfl) as (o1 & -> & Hfl1); [lia|]. rewrite ok_bind.
    apply (IH b (i + 1) _ fuel rest o0); done || lia.
  - destruct (Z.ltb_spec i (i + Z.of_nat (2 + length (flat_map escape_text s)))); [|lia]. cbn [negb].
    pose proof (sees_load _ _ _ _ Hs) as [-> _]. rewrite ok_bind. cbn [Z.eqb Pos.eqb negb].
    destruct (Z.ltb_spec (i + Z.of_nat (2 + length (flat_map escape_text s)) - i) 1); [lia|].
    pose proof (sees_load _ _ _ _ (sees_cons _ _ _ _ Hs)) as [-> _]. rewrite ok_bind, (proj2 (Z.eqb_neq _ _) Hn117), Hx.
    destruct (filled_store o0 o op ds c Hfl) as (o1 & -> & Hfl1); [lia|]. rewrite ok_bind.
    apply (IH b (i + 2) _ fuel rest o0); done || lia.
  - set (e := i + Z.of_nat (6 + length (flat_map escape_text s))).
    destruct (Z.ltb_spec i e); [|lia]. cbn [negb].
    pose proof (sees_load _ _ _ _ Hs) as [-> _]. rewrite ok_bind. cbn [Z.eqb Pos.eqb negb].
    destruct (Z.ltb_spec (e - i) 1); [lia|].
    pose proof (sees_load _ _ _ _ (sees_cons _ _ _ _ Hs)) as [-> _]. rewrite ok_bind. cbn [Z.eqb Pos.eqb].
    assert (utf16_literal_to_utf8 (content b) i e = Ok (6, [c])) as ->.
    { unfold utf16_literal_to_utf8. destruct (Z.ltb_spec (e - i) 6); [lia|].
      assert (parse_hex4 (content b) (i + 2) = Ok c) as ->.
      { apply (hex4_control b (i + 2) h1 h2 c (flat_map escape_text s ++ 34 :: rest)); [|lia|done|done].
        do 2 apply sees_cons in Hs. by replace (i + 1 + 1) with (i + 2) in Hs by lia. }
      rewrite ok_bind. destruct (Z.leb_spec 0xDC00 c); [lia|]. destruct (Z.leb_spec 0xD800 c); [lia|]. cbn [andb].
      rewrite ok_bind. cbn [Z.eqb]. destruct (Z.ltb_spec c 0x80); [|lia].
      unfold utf8_encode. cbn [Nat.sub utf8_tail Nat.ltb Nat.leb]. do 3 f_equal.
      change 0x7F with (Z.ones 7). rewrite Z.land_ones by lia. unfold u8. by rewrite (Z.mod_small c), Z.mod_small by lia. }
    rewrite ok_bind. cbn [Z.eqb Pos.eqb].
    destruct (filled_write o0 o op ds [c] Hfl) as (o1 & -> & Hfl1); [simpl; lia|]. rewrite ok_bind. cbn [length] in *.
    apply (IH b (i + 6) _ fuel rest o0); done || lia.
Qed.

Lemma c_str_prefix s z : cstring s → c_str (s ++ 0 :: z) = s.
Proof. induction 1 as [|c s Hc _ IH]; [done|]. cbn [app c_str]. destruct (Z.eqb_spec c 0); [lia|]. by rewrite IH. Qed.

(** A printed string is read back. *)
Lemma parse_string_text junk s b rest : cstring s → sees b (offset b) (render_string (Some s) ++ rest) →
  ∃ b', parse_string (λ _ _, true) junk b = Ok (Some s, b') ∧ moved b b' (Z.of_nat (length (render_string (Some s)))).
Proof.
  intros Hs Hsee. unfold parse_string, buffer_at. rewrite Z.add_0_r. unfold render_string in *. change (default [] (Some s)) with s in *.
  rewrite <- !app_assoc in Hsee. cbn [app] in Hsee. rewrite length_app. cbn [length]. rewrite length_app. cbn [length].
  pose proof (sees_load _ _ _ _ Hsee) as [-> _]. rewrite ok_bind. cbn [Z.eqb Pos.eqb negb].
  apply sees_cons in Hsee. pose proof Hsee as (Ho & Hl & _). rewrite length_app in Hl. cbn [length] in Hl.
  destruct (escapes_in_le s Hs) as [He1 He2]. set (n := length (flat_map escape_text s)) in *.
  rewrite (find_end_text s b (offset b + 1) 0 _ rest) by (done || unfold text_fuel; fold n; lia).
  rewrite ok_bind. fold n. unfold allocate. cbn [negb content]. set (al := _ - offset b - _).
  assert (al = Z.of_nat n + 1 - escapes_in s) as Hal by (unfold al; lia). clearbody al.
  set (out := replicate (Z.to_nat (al + 1)) junk). assert (Z.of_nat (length out) = al + 1) as Hout.
  { unfold out. rewrite length_replicate. lia. }
  destruct (unescape_text s b (offset b + 1) (offset b + 1 + Z.of_nat n) (text_fuel (mk_pb (content b) (pb_length b) (offset b) (depth b) (S (allocs b)))) rest out out 0 [] Hs Hsee)
    as (o' & -> & Hfl); [by fold n|fold n; unfold text_fuel; cbn [pb_length]; lia|by split|lia|].
  rewrite ok_bind. cbn [app] in Hfl.
  destruct (filled_store out o' _ s 0 Hfl) as (o2 & -> & Hl2 & _ & Ht2); [lia|]. rewrite ok_bind.
  assert (c_str o2 = s) as ->.
  { rewrite <- (take_drop (length (s ++ [0])) o2), Ht2, <- app_assoc. by apply c_str_prefix. }
  eexists. split; [reflexivity|]. unfold moved. cbn [content pb_length depth offset set_offset]. split_and!; done || lia.
Qed.

(** ** Numbers *)
Lemma copy_number_text t : ∀ b i n c rest, Forall (λ c, number_char c = true) t → number_char c = false →
  sees b (offset b + i) (t ++ c :: rest) → (length t ≤ n)%nat → copy_number n b i = Ok t.
Proof.
  induction t as [|x t IH]; intros b i n c rest Ht Hc Hs Hn.
  - destruct n as [|n]; cbn [copy_number]; [done|]. cbn [app] in Hs. unfold can_access_at_index, buffer_at.
    apply sees_load in Hs as [-> Hlt]. by rewrite (proj2 (Z.ltb_lt _ _) Hlt), ok_bind, Hc.
  - inversion Ht as [|? ? Hx Ht']; subst. destruct n as [|n]; [simpl in Hn; lia|]. cbn [copy_number app] in *.
    unfold can_access_at_index, buffer_at. pose proof (sees_load _ _ _ _ Hs) as [-> Hlt].
    rewrite (proj2 (Z.ltb_lt _ _) Hlt), ok_bind, Hx. apply sees_cons in Hs.
    rewrite (IH b (i + 1) n c rest); [done|done|done| |simpl in Hn; lia]. by rewrite Z.add_assoc.
Qed.

Lemma parse_number_text d b ty vs k c rest item : valid_binary PREC EMAX d = true → isnan d || isinf d = false → number_char c = false →
  sees b (offset b) (number_text d ++ c :: rest) → item = Item ty vs 0 (S754_zero false) k [] →
  ∃ b', parse_number item b = Ok (Some (Item cJSON_Number vs (sat_int (reread d)) (reread d) k []), b') ∧
    moved b b' (Z.of_nat (length (number_text d))).
Proof.
  intros Hv Hd Hc Hs ->. destruct (number_text_reads d Hd) as (Hst & Hch & c0 & t & E & _). unfold parse_number.
  rewrite (copy_number_text (number_text d) b 0 63 c rest), ok_bind;
    [|done|done|by rewrite Z.add_0_r|pose proof (number_text_bounds d Hv); lia].
  rewrite Hst, E. cbn [length Nat.eqb]. eexists. split; [done|]. done.
Qed.

(** ** The items the parser builds, nested at most [d] deep; a number is any double *)
Inductive canonical : nat → cJSON → Prop :=
  | canonical_null d k : canonical d (Item cJSON_NULL None 0 (S754_zero false) k [])
  | canonical_false d k : canonical d (Item cJSON_False None 0 (S754_zero false) k [])
  | canonical_true d k : canonical d (Item cJSON_True None 1 (S754_zero false) k [])
  | canonical_number d k x : valid_binary PREC EMAX x = true →
      canonical d (Item cJSON_Number None (sat_int x) x k [])
  | canonical_string d k s : cstring s → canonical d (Item cJSON_String (Some s) 0 (S754_zero false) k [])
  | canonical_array d k l : Forall (canonical d) l → Forall (λ x, string_ x = None) l →
      canonical (S d) (Item cJSON_Array None 0 (S754_zero false) k l)
  | canonical_object d k l : Forall (canonical d) l → Forall (λ x, ∃ s, string_ x = Some s ∧ cstring s) l →
      canonical (S d) (Item cJSON_Object None 0 (S754_zero false) k l).

(** What is read back: each finite number is what [strtod] makes of its text, and an infinite
    one, which is printed as [null], is a null. *)
Fixpoint read_back (v : cJSON) : cJSON :=
  match v with
  | Item t vs n x k ch =>
      if t =? cJSON_Number then
        if isnan x || isinf x then Item cJSON_NULL None 0 (S754_zero false) k []
        else Item cJSON_Number None (sat_int (reread x)) (reread x) k []
      else Item t vs n x k (map read_back ch)
  end.

(** [recovered v v']: [v'] is what the text of [v] keeps.  A finite number comes back as one that
    [compare_double] takes for equal to it - as itself, where 15 digits do not get that far and
    17 are printed - with the [valueint] of that number; an infinite one is a null. *)
Inductive recovered : cJSON → cJSON → Prop :=
  | recovered_number vs n x y k ch : isnan x || isinf x = false → compare_double y x = true →
      (recovers (fmt_g 15 x) x = false → y = x) → valid_binary PREC EMAX y = true →
      recovered (Item cJSON_Number vs n x k ch) (Item cJSON_Number None (sat_int y) y k [])
  | recovered_special vs n x k ch : isnan x || isinf x = true →
      recovered (Item cJSON_Number vs n x k ch) (Item cJSON_NULL None 0 (S754_zero false) k [])
  | recovered_other t vs n x k ch ch' : t ≠ cJSON_Number → Forall2 recovered ch ch' →
      recovered (Item t vs n x k ch) (Item t vs n x k ch').

(** The numbers of an item, and those that are read back exactly: integers below 10^15 and what
    is printed with 17 digits. *)
Fixpoint numbers (v : cJSON) : list double :=
  match v with Item t _ _ x _ ch => if t =? cJSON_Number then [x] else flat_map numbers ch end.

Definition exact_number (x : double) : Prop :=
  isnan x || isinf x = false ∧ (recovers (fmt_g 15 x) x = false ∨ ∃ n, Z.abs n < 10 ^ 15 ∧ x = Z_to_double n).

Lemma read_back_string v : string_ (read_back v) = string_ v.
Proof. destruct v as [t vs n x k ch]. cbn. repeat case_match; done. Qed.

Lemma read_back_other t vs n x k ch : t ≠ cJSON_Number → read_back (Item t vs n x k ch) = Item t vs n x k (map read_back ch).
Proof. intros Ht. cbn. by rewrite (proj2 (Z.eqb_neq _ _)). Qed.

Lemma read_back_number vs n x k ch : read_back (Item cJSON_Number vs n x k ch) =
  if isnan x || isinf x then Item cJSON_NULL None 0 (S754_zero false) k [] else Item cJSON_Number None (sat_int (reread x)) (reread x) k [].
Proof. cbn. by rewrite Z.eqb_refl. Qed.

Lemma other_kinds : cJSON_NULL ≠ cJSON_Number ∧ cJSON_False ≠ cJSON_Number ∧ cJSON_True ≠ cJSON_Number ∧ cJSON_String ≠ cJSON_Number ∧
  cJSON_Array ≠ cJSON_Number ∧ cJSON_Object ≠ cJSON_Number.
Proof. pose proof kinds_distinct as Hnd. rewrite !NoDup_cons, !not_elem_of_cons in Hnd. destruct_and! Hnd. split_and!; congruence. Qed.

Lemma read_back_recovered v : ∀ d, canonical d v → recovered v (read_back v).
Proof.
  induction v as [t vs n x k ch IH] using cJSON_tree_ind. intros d Hv. destruct (decide (t = cJSON_Number)) as [->|Ht].
  - assert (valid_binary PREC EMAX x = true) as Hx. { destruct other_kinds as (K1 & K2 & K3 & K4 & K5 & K6). by inversion Hv; subst. }
    rewrite read_back_number. destruct (isnan x || isinf x) eqn:Hd; [by constructor|].
    constructor; [done|by apply reread_close|by apply reread_17|apply strtod_valid].
  - rewrite read_back_other by done. constructor; [done|]. assert (∃ d', Forall (canonical d') ch) as [d' Hch].
    { inversion Hv; subst; try (exists O; constructor); by eexists. }
    rewrite Forall2_fmap_r. rewrite Forall_forall in IH, Hch. apply Forall_Forall2_diag, Forall_forall. intros y Hy. by eapply IH, Hch.
Qed.

Lemma read_back_exact v : ∀ d, canonical d v → Forall exact_number (numbers v) → read_back v = v.
Proof.
  induction v as [t vs n x k ch IH] using cJSON_tree_ind. intros d Hv Hex. destruct (decide (t = cJSON_Number)) as [->|Ht].
  - destruct other_kinds as (K1 & K2 & K3 & K4 & K5 & K6). inversion Hv as [| | |? ? ? Hx|? ? ? | |]; subst; try done.
    rewrite read_back_number. cbn [numbers] in Hex. rewrite Z.eqb_refl in Hex. apply Forall_singleton in Hex as [Hd [Hr|(m & Hm & ->)]]; rewrite Hd.
    + by rewrite reread_17.
    + by rewrite reread_Z.
  - rewrite read_back_other by done. cbn [numbers] in Hex. rewrite (proj2 (Z.eqb_neq _ _) Ht) in Hex. f_equal. assert (∃ d', Forall (canonical d') ch) as [d' Hch].
    { inversion Hv; subst; try (exists O; constructor); by eexists. }
    clear Hv. induction ch as [|y ch IHch]; [done|]. cbn [flat_map] in Hex. apply Forall_app in Hex as [Hy Hex].
    apply Forall_cons in IH as [IHy IH]. apply Forall_cons in Hch as [Hcy Hch]. cbn [map]. f_equal; [by apply (IHy d')|by apply IHch].
Qed.

(** The kinds are told apart. *)
Lemma render_kinds f d :
  (∀ vs n x k ch, render f d (Item cJSON_NULL vs n x k ch) = Some lit_null) ∧
  (∀ vs n x k ch, render f d (Item cJSON_False vs n x k ch) = Some lit_false) ∧
  (∀ vs n x k ch, render f d (Item cJSON_True vs n x k ch) = Some lit_true) ∧
  (∀ vs n x k ch, render f d (Item cJSON_Number vs n x k ch) = Some (number_text x)) ∧
  (∀ vs n x k ch, render f d (Item cJSON_String vs n x k ch) = Some (render_string vs)) ∧
  (∀ vs n x k ch, render f d (Item cJSON_Array vs n x k ch) =
     ts ← render_list (render f (d + 1)) (array_sep f) ch; Some ([91] ++ ts ++ [93])) ∧
  (∀ vs n x k ch, render f d (Item cJSON_Object vs n x k ch) =
     ts ← render_list (member_text f (d + 1)) (member_sep f) ch;
     Some ([123] ++ (if f then [10] else []) ++ ts ++ (if f then tabs d else []) ++ [125])).
Proof.
  pose proof kinds_distinct as Hnd. rewrite !NoDup_cons, !not_elem_of_cons in Hnd. destruct_and! Hnd.
  pose proof kinds_low as Hlow. rewrite !Forall_cons in Hlow. destruct_and! Hlow.
  split_and!; intros vs n x k ch; cbn [render type_ valuestring valuedouble child].
  all: match goal with E : Z.land ?k 0xFF = ?k |- context [Z.land ?k 0xFF] => rewrite E end.
  all: repeat match goal with |- context [Z.eqb ?a ?b] => rewrite (proj2 (Z.eqb_neq a b)) by congruence end.
  all: by rewrite Z.eqb_refl.
Qed.
(** [pv] reads the text of [x] back, in front of anything that cannot continue a number. *)
Definition reads (pv : parser) (item x : cJSON) (f : bool) (dep D : Z) : Prop := ∀ t b c rest,
  render f dep x = Some t → pb_length b ≤ Z.of_nat (length (content b)) → depth b = D → number_char c = false →
  sees b (offset b) (t ++ c :: rest) → ∃ b', pv item b = Ok (Some (read_back x), b') ∧ moved b b' (Z.of_nat (length t)).

(** The text of an item starts with something that is neither blank nor a bracket that closes. *)
Definition starts (t : list Z) : Prop := ∃ c t', t = c :: t' ∧ 32 < c < 128 ∧ c ≠ 93 ∧ c ≠ 125.

Lemma render_starts v d f dep t : canonical d v → render f dep v = Some t → starts t.
Proof.
  intros Hv. destruct (render_kinds f dep) as (Rn & Rf & Rt & Rnum & Rs & Ra & Ro). unfold starts.
  destruct Hv as [? k|? k|? k|? k x Hx|? k s Hs|? k l _ _|? k l _ _]; rewrite ?Rn, ?Rf, ?Rt, ?Rnum, ?Rs, ?Ra, ?Ro.
  1-3: intros [= <-]; eexists _, _; split; [done|lia].
  - intros [= <-]. destruct (isnan x || isinf x) eqn:Hs.
    { unfold number_text. rewrite Hs. eexists _, _. split; [done|lia]. }
    destruct (number_text_reads x Hs) as (_ & _ & c & t' & -> & Hc). exists c, t'. split; [done|]. apply number_first in Hc. lia.
  - intros [= <-]. eexists _, _. split; [done|lia].
  - destruct (render_list _ _ l); [|done]. intros [= <-]. eexists _, _. split; [done|lia].
  - destruct (render_list _ _ l); [|done]. intros [= <-]. eexists _, _. split; [done|lia].
Qed.

Lemma blank_not_number c : c ≤ 32 → number_char c = false.
Proof. intros Hc. unfold number_char, is_digit. bool_case; simpl; try lia; done. Qed.

Lemma moved_alloc b n : moved b (snd (allocate (λ _ _, true) b n)) 0.
Proof. unfold moved. cbn. split_and!; done || lia. Qed.

Lemma array_loop_text pv f dep D l : ∀ b acc ts ws c0 rest n,
  l ≠ [] → Forall (λ x, reads pv zero_item x f dep D ∧ ∀ t, render f dep x = Some t → starts t) l →
  render_list (render f dep) (array_sep f) l = Some ts → blank ws →
  sees b (offset b) (c0 :: ws ++ ts ++ 93 :: rest) → pb_length b ≤ Z.of_nat (length (content b)) → depth b = D →
  (length l ≤ n)%nat →
  ∃ b', array_loop (λ _ _, true) n pv acc b = Ok (Some (acc ++ map read_back l), b') ∧
    moved b b' (1 + Z.of_nat (length ws) + Z.of_nat (length ts)).
Proof.
  induction l as [|x l IH]; intros b acc ts ws c0 rest n Hne Hall Hts Hws Hs Hfit Hd Hn; [done|].
  destruct n as [|n]; [simpl in Hn; lia|]. inversion Hall as [|? ? [Hx Hst] Hall']; subst.
  cbn [render_list] in Hts. destruct (render f dep x) as [t|] eqn:Ex; [|done]. cbn [mbind option_bind] in Hts.
  destruct (render_list (render f dep) (array_sep f) l) as [ts'|] eqn:El; [|done]. cbn [mbind option_bind] in Hts.
  apply (inj Some) in Hts as <-. destruct (Hst t eq_refl) as (c & t' & Ht & [Hc _] & _). clear Hst.
  rewrite <- !app_assoc in Hs. cbn [array_loop]. unfold allocate. cbn [negb].
  apply sees_cons in Hs. set (b1 := set_offset _ (mk_pb _ _ _ _ _)).
  assert (moved b b1 1) as M1 by done. assert (offset b1 = offset b + 1) as O1 by done.
  rewrite <- O1, <- (moved_sees b b1 1) in Hs by done.
  rewrite (skip_ws_blank ws b1 c (t' ++ array_sep f (if l is [] then true else false) ++ ts' ++ 93 :: rest)), ok_bind
    by (done || by rewrite Ht in Hs).
  set (b2 := set_offset _ b1). pose proof (moved_trans _ _ _ _ _ M1 (moved_offset b1 (Z.of_nat (length ws)))) as M2. fold b2 in M2.
  apply sees_app in Hs as [_ Hs]. change (offset b1 + Z.of_nat (length ws)) with (offset b2) in Hs.
  change (sees b2 (offset b2) (t ++ array_sep f (if l is [] then true else false) ++ ts' ++ 93 :: rest)) in Hs.
  assert (∃ c2 r2, array_sep f (if l is [] then true else false) ++ ts' ++ 93 :: rest = c2 :: r2 ∧ number_char c2 = false ∧
    32 < c2 ∧ (l = [] → c2 = 93) ∧ (l ≠ [] → c2 = 44 ∧ r2 = (if f then [32] else []) ++ ts' ++ 93 :: rest)) as (c2 & r2 & E2 & Hc2 & Hc2' & Hnil & Hcons).
  { destruct l as [|y l]; [injection El as <-; by exists 93, rest|]. unfold array_sep. cbn [app]. by eexists 44, _. }
  rewrite E2 in Hs. destruct (Hx t b2 c2 r2 Ex) as (b3 & -> & M3); [by destruct M2 as (-> & -> & _)|by destruct M2 as (_ & _ & -> & _)|done|done|].
  rewrite ok_bind. pose proof (moved_trans _ _ _ _ _ M2 M3) as M3'.
  apply sees_app in Hs as [_ Hs]. assert (sees b3 (offset b3) (c2 :: r2)) as Hs3.
  { rewrite (moved_sees _ _ _ _ _ M3). by destruct M3 as (_ & _ & _ & ->). }
  rewrite (skip_ws_none b3 c2 r2), ok_bind, (accessible_is_sees b3 c2 r2 44), ok_bind by done.
  destruct l as [|y l].
  - rewrite (Hnil eq_refl) in *. cbn [Z.eqb Pos.eqb]. rewrite (accessible_is_sees b3 93 r2 93), ok_bind by done.
    cbn [Z.eqb Pos.eqb]. eexists. split; [done|]. injection El as <-. cbn [array_sep]. rewrite !app_nil_r.
    replace (1 + _ + _) with (1 + Z.of_nat (length ws) + Z.of_nat (length t)) by lia. exact M3'.
  - destruct (Hcons ltac:(done)) as [-> ->]. cbn [Z.eqb Pos.eqb].
    destruct (IH b3 (acc ++ [read_back x]) ts' (if f then [32] else []) 44 rest n) as (b4 & -> & M4);
      [done|done|done|destruct f; by repeat constructor|done|by destruct M3' as (-> & -> & _)|by destruct M3' as (_ & _ & -> & _)|simpl in *; lia|].
    eexists. split; [by rewrite <- app_assoc|]. pose proof (moved_trans _ _ _ _ _ M3' M4) as M.
    unfold array_sep. cbn [app length]. rewrite !length_app. cbn [length]. rewrite length_app.
    replace (1 + Z.of_nat (length ws) + Z.of_nat (length t + S (length (if f then [32] else []) + length ts'))) with
      (1 + Z.of_nat (length ws) + Z.of_nat (length t) + (1 + Z.of_nat (length (if f then [32] else [])) + Z.of_nat (length ts'))) by lia.
    exact M.
Qed.
Definition key_item (s : list Z) : cJSON := Item cJSON_String None 0 (S754_zero false) (Some s) [].

Definition member_ok (pv : parser) (f : bool) (dep D : Z) (x : cJSON) : Prop :=
  ∃ s, string_ x = Some s ∧ cstring s ∧ reads pv (key_item s) x f dep D ∧ ∀ t, render f dep x = Some t → starts t.

(** The first bytes of what follows a member. *)
Lemma member_sep_next f (l : list cJSON) rest' ws2 rest : blank ws2 →
  ∃ c r, member_sep f (if l is [] then true else false) ++ (if l is [] then ws2 ++ 125 :: rest else rest') = c :: r ∧
    number_char c = false.
Proof.
  intros Hws. unfold member_sep. destruct l; cbn [app]; [|by eexists 44, _].
  destruct f; cbn [app]; [by eexists 10, _|]. destruct ws2 as [|w ws2]; [by eexists 125, _|]. inversion Hws; subst.
  eexists w, _. split; [done|]. by apply blank_not_number.
Qed.

Lemma tabs_blank n : blank (tabs n).
Proof. apply Forall_replicate. lia. Qed.

Lemma render_members_cons f dep x l ts : render_list (member_text f dep) (member_sep f) (x :: l) = Some ts →
  ∃ t ts', render f dep x = Some t ∧ render_list (member_text f dep) (member_sep f) l = Some ts' ∧
    ts = (if f then tabs dep else []) ++ render_string (string_ x) ++ 58 :: (if f then [9] else []) ++ t ++
         member_sep f (if l is [] then true else false) ++ ts'.
Proof.
  cbn [render_list]. destruct (member_text f dep x) as [m|] eqn:Em; [|done]. cbn [mbind option_bind].
  destruct (render_list _ _ l) as [ts'|]; [|done]. cbn [mbind option_bind]. intros Hts%(inj Some).
  unfold member_text in Em. destruct (render f dep x) as [t|]; [|done]. apply (inj Some) in Em. exists t, ts'.
  split; [done|]. split; [done|]. rewrite <- Hts, <- Em. by rewrite <- !app_assoc.
Qed.

(** One member: key, colon and value, then whatever follows. *)
Lemma member_step junk pv f dep D x s b acc ws sp t tail c0 n :
  cstring s → reads pv (key_item s) x f dep D → render f dep x = Some t → starts t → blank ws → blank sp →
  sees b (offset b) (c0 :: ws ++ render_string (Some s) ++ 58 :: sp ++ t ++ tail) →
  pb_length b ≤ Z.of_nat (length (content b)) → depth b = D → (∃ c2 r2, tail = c2 :: r2 ∧ number_char c2 = false) →
  ∃ b', moved b b' (2 + Z.of_nat (length ws + length (render_string (Some s)) + length sp + length t)) ∧
    object_loop (λ _ _, true) junk (S n) pv acc b =
      (b ← buffer_skip_whitespace b';
       comma ← accessible_is b 44;
       if comma : bool then object_loop (λ _ _, true) junk n pv (acc ++ [read_back x]) b
       else close ← accessible_is b 125; Ok (if close : bool then (Some (acc ++ [read_back x]), b) else (None, b))).
Proof.
  intros Hkey Hx Ex Hst Hws Hsp Hs Hfit Hd (c2 & r2 & -> & Hc2). destruct Hst as (c & t' & Ht & [Hc _] & _).
  cbn [object_loop]. unfold allocate. cbn [negb].
  apply sees_cons in Hs. set (b1 := set_offset _ (mk_pb _ _ _ _ _)).
  assert (moved b b1 1) as M1 by done. assert (offset b1 = offset b + 1) as O1 by done.
  rewrite <- O1, <- (moved_sees b b1 1) in Hs by done.
  rewrite (skip_ws_blank ws b1 34 (flat_map escape_text s ++ [34] ++ 58 :: sp ++ t ++ c2 :: r2)), ok_bind;
    [|done|lia|revert Hs; unfold render_string; by rewrite <- !app_assoc].
  set (b2 := set_offset _ b1). pose proof (moved_trans _ _ _ _ _ M1 (moved_offset b1 (Z.of_nat (length ws)))) as M2. fold b2 in M2.
  apply sees_app in Hs as [_ Hs].
  change (sees b2 (offset b2) (render_string (Some s) ++ 58 :: sp ++ t ++ c2 :: r2)) in Hs.
  destruct (parse_string_text junk s b2 _ Hkey Hs) as (b3 & -> & M3). rewrite ok_bind.
  apply sees_app in Hs as [_ Hs]. rewrite <- (moved_sees _ _ _ _ _ M3) in Hs. pose proof M3 as (_ & _ & _ & O3).
  rewrite <- O3 in Hs. rewrite (skip_ws_none b3 58 _ ltac:(lia) Hs), ok_bind, (accessible_is_sees b3 58 _ 58 Hs), ok_bind.
  cbn [Z.eqb Pos.eqb negb]. apply sees_cons in Hs. set (b4 := set_offset (offset b3 + 1) b3).
  assert (moved b3 b4 1) as M4 by done. change (sees b4 (offset b4) (sp ++ t ++ c2 :: r2)) in Hs.
  rewrite (skip_ws_blank sp b4 c (t' ++ c2 :: r2)), ok_bind; [|done|done|by rewrite Ht in Hs].
  set (b5 := set_offset _ b4). assert (moved b4 b5 (Z.of_nat (length sp))) as M5 by done.
  apply sees_app in Hs as [_ Hs]. change (sees b5 (offset b5) (t ++ c2 :: r2)) in Hs.
  pose proof (moved_trans _ _ _ _ _ (moved_trans _ _ _ _ _ (moved_trans _ _ _ _ _ M2 M3) M4) M5) as M. fold (key_item s).
  destruct (Hx t b5 c2 r2 Ex) as (b6 & -> & M6); [by destruct M as (-> & -> & _)|by destruct M as (_ & _ & -> & _)|done|done|].
  rewrite ok_bind. exists b6. split; [|done]. pose proof (moved_trans _ _ _ _ _ M M6) as M'. revert M'.
  match goal with |- moved _ _ ?a → moved _ _ ?b => replace b with a by lia end. done.
Qed.

Lemma object_loop_text junk pv f dep D l : ∀ b acc core ws ws2 c0 rest n,
  l ≠ [] → Forall (member_ok pv f dep D) l →
  render_list (member_text f dep) (member_sep f) l = Some ((if f then tabs dep else []) ++ core) → blank ws → blank ws2 →
  sees b (offset b) (c0 :: ws ++ core ++ ws2 ++ 125 :: rest) → pb_length b ≤ Z.of_nat (length (content b)) → depth b = D →
  (length l ≤ n)%nat →
  ∃ b', object_loop (λ _ _, true) junk n pv acc b = Ok (Some (acc ++ map read_back l), b') ∧
    moved b b' (1 + Z.of_nat (length ws) + Z.of_nat (length core) + Z.of_nat (length ws2)).
Proof.
  induction l as [|x l IH]; intros b acc core ws ws2 c0 rest n Hne Hall Hts Hws Hws2 Hs Hfit Hd Hn; [done|].
  destruct n as [|n]; [simpl in Hn; lia|]. inversion Hall as [|? ? (s & Ekey & Hkey & Hx & Hst) Hall']; subst.
  apply render_members_cons in Hts as (t & ts' & Ex & El & Hts). apply app_inv_head in Hts as ->. rewrite Ekey in *.
  set (tail := member_sep f (if l is [] then true else false) ++ ts' ++ ws2 ++ 125 :: rest).
  assert (sees b (offset b) (c0 :: ws ++ render_string (Some s) ++ 58 :: (if f then [9] else []) ++ t ++ tail)) as Hs'.
  { revert Hs. unfold tail. rewrite <- !app_assoc. cbn [app]. by rewrite <- !app_assoc. }
  destruct (member_sep_next f l (ts' ++ ws2 ++ 125 :: rest) ws2 rest Hws2) as (c2 & r2 & E2 & Hc2).
  assert (tail = c2 :: r2) as Etail.
  { rewrite <- E2. unfold tail. destruct l; [by injection El as <-|done]. }
  destruct (member_step junk pv f dep (depth b) x s b acc ws (if f then [9] else []) t tail c0 n) as (b6 & M' & ->);
    [done|done|done|by apply Hst|done|destruct f; by repeat constructor|done|done|done|by eauto|].
  clear Hs. rename Hs' into Hs. apply sees_cons in Hs. do 2 apply sees_app in Hs as [_ Hs]. apply sees_cons in Hs.
  do 2 apply sees_app in Hs as [_ Hs]. rewrite <- (moved_sees _ _ _ _ _ M') in Hs. pose proof M' as (_ & _ & _ & O6).
  replace (_ + _) with (offset b6) in Hs by lia. clear Etail E2. unfold tail, member_sep in *.
  destruct l as [|y l].
  - injection El as <-. cbn [app] in Hs. rewrite app_assoc in Hs.
    assert (blank ((if f then [10] else []) ++ ws2)) as Hb by (apply Forall_app; split; [destruct f; by repeat constructor|done]).
    rewrite (skip_ws_blank _ b6 125 rest Hb ltac:(lia) Hs), ok_bind. set (b7 := set_offset _ b6).
    apply sees_app in Hs as [_ Hs]. change (sees b7 (offset b7) (125 :: rest)) in Hs.
    rewrite !(accessible_is_sees b7 125 rest) by done. rewrite !ok_bind. cbn [Z.eqb Pos.eqb].
    eexists. split; [done|]. assert (moved b6 b7 (Z.of_nat (length ((if f then [10] else []) ++ ws2)))) as M7 by done.
    pose proof (moved_trans _ _ _ _ _ M' M7) as M. rewrite ?length_app in *. cbn [length] in *. rewrite ?length_app in *. cbn [length] in *.
    revert M. match goal with |- moved _ _ ?a → moved _ _ ?b => replace b with a by lia end. done.
  - cbn [app] in Hs. rewrite (skip_ws_none b6 44 _ ltac:(lia) Hs), ok_bind, (accessible_is_sees b6 44 _ 44 Hs), ok_bind.
    cbn [Z.eqb Pos.eqb]. pose proof El as El'. apply render_members_cons in El' as (ty & ts2 & _ & _ & Ets').
    set (core' := render_string (string_ y) ++ _) in Ets'.
    destruct (IH b6 (acc ++ [read_back x]) core' ((if f then [10] else []) ++ (if f then tabs dep else [])) ws2 44 rest n) as (b8 & -> & M8).
    + done.
    + done.
    + by rewrite El, Ets'.
    + apply Forall_app. split; [destruct f; by repeat constructor|destruct f; [apply tabs_blank|done]].
    + done.
    + rewrite Ets' in Hs. by rewrite <- !app_assoc in *.
    + by destruct M' as (-> & -> & _).
    + by destruct M' as (_ & _ & -> & _).
    + simpl in *. lia.
    + eexists. split; [by rewrite <- app_assoc|]. pose proof (moved_trans _ _ _ _ _ M' M8) as M. rewrite Ets'.
      rewrite ?length_app in *. cbn [length] in *. rewrite ?length_app in *. cbn [length] in *. rewrite ?length_app in *.
      revert M. match goal with |- moved _ _ ?a → moved _ _ ?b => replace b with a by lia end. done.
Qed.
(** ** Values *)
Lemma parse_value_dispatch junk fuel item b c s : sees b (offset b) (c :: s) → pb_length b ≤ Z.of_nat (length (content b)) →
  c ≠ 110 → c ≠ 102 → c ≠ 116 →
  parse_value (λ _ _, true) junk (S fuel) item b =
    if c =? 34 then
      '(s, b) ← parse_string (λ _ _, true) junk b;
      Ok (match s with
          | Some s => (Some (Item cJSON_String (Some s) (valueint item) (valuedouble item) (string_ item) (child item)), b)
          | None => (None, b)
          end)
    else if (c =? 45) || is_digit c then parse_number item b
    else if c =? 91 then parse_array (λ _ _, true) (parse_value (λ _ _, true) junk fuel) item b
    else if c =? 123 then parse_object (λ _ _, true) junk (parse_value (λ _ _, true) junk fuel) item b
    else Ok (None, b).
Proof.
  intros Hs Hfit H1 H2 H3. cbn [parse_value]. unfold lit_null, lit_false, lit_true.
  rewrite !(reads_literal_false b c s) by done. rewrite !ok_bind.
  unfold can_access_at_index, buffer_at. rewrite Z.add_0_r. apply sees_load in Hs as [-> Hlt].
  by rewrite (proj2 (Z.ltb_lt _ _) Hlt), ok_bind.
Qed.

Lemma length_render_list rd sep l : (∀ x t, x ∈ l → rd x = Some t → (0 < length t)%nat) →
  ∀ ts, render_list rd sep l = Some ts → (length l ≤ length ts)%nat.
Proof.
  induction l as [|x l IH]; intros Hpos ts; cbn [render_list length]; [lia|].
  destruct (rd x) as [t|] eqn:E; [|done]. cbn [mbind option_bind].
  destruct (render_list rd sep l) as [ts'|]; [|done]. cbn [mbind option_bind]. intros <-%(inj Some).
  pose proof (Hpos x t (list_elem_of_here _ _) E).
  assert (length l ≤ length ts')%nat by (apply IH; [|done]; intros y u Hy; apply Hpos; by constructor).
  rewrite !length_app. lia.
Qed.

Lemma parse_array_text junk fuel f dep D l ty k : 
  Forall (λ x, reads (parse_value (λ _ _, true) junk fuel) zero_item x f (dep + 1) (D + 1) ∧
            ∀ t, render f (dep + 1) x = Some t → starts t) l → D < CJSON_NESTING_LIMIT →
  ∀ t b c rest, (ts ← render_list (render f (dep + 1)) (array_sep f) l; Some ([91] ++ ts ++ [93])) = Some t →
    pb_length b ≤ Z.of_nat (length (content b)) → depth b = D → sees b (offset b) (t ++ c :: rest) →
  ∃ b', parse_array (λ _ _, true) (parse_value (λ _ _, true) junk fuel) (Item ty None 0 (S754_zero false) k []) b =
    Ok (Some (Item cJSON_Array None 0 (S754_zero false) k (map read_back l)), b') ∧ moved b b' (Z.of_nat (length t)).
Proof.
  intros Hall Hlim t b c rest Ht Hfit Hd Hs. destruct (render_list _ _ l) as [ts|] eqn:El; [|done]. apply (inj Some) in Ht as <-.
  unfold parse_array. destruct (Z.leb_spec CJSON_NESTING_LIMIT (depth b)); [lia|]. set (b0 := set_depth (depth b + 1) b).
  cbn [app] in Hs. rewrite <- app_assoc in Hs. cbn [app] in Hs. unfold buffer_at. rewrite Z.add_0_r. change (content b0) with (content b).
  change (offset b0) with (offset b). pose proof (sees_load _ _ _ _ Hs) as [-> _]. rewrite ok_bind. cbn [Z.eqb Pos.eqb negb].
  assert (∃ c1 r1, ts ++ 93 :: c :: rest = c1 :: r1 ∧ 32 < c1 ∧ (l = [] → c1 = 93) ∧ (l ≠ [] → c1 ≠ 93)) as (c1 & r1 & E1 & Hc1 & Hnil & Hcons).
  { destruct l as [|x l]; [injection El as <-; by exists 93, (c :: rest)|]. inversion Hall as [|? ? [_ Hst] _]; subst.
    cbn [render_list] in El. destruct (render f (dep + 1) x) as [t|] eqn:Ex; [|done]. cbn [mbind option_bind] in El.
    destruct (render_list _ _ l); [|done]. apply (inj Some) in El as <-. destruct (Hst t eq_refl) as (c1 & t' & -> & [? _] & ? & _).
    eexists c1, _. split; [done|]. done. }
  pose proof (sees_cons _ _ _ _ Hs) as Hs1. rewrite E1 in Hs1. set (b1 := set_offset (offset b + 1) b0).
  change (sees b1 (offset b1) (c1 :: r1)) in Hs1. rewrite (skip_ws_none b1 c1 r1), ok_bind, (accessible_is_sees b1 c1 r1 93), ok_bind by done.
  destruct l as [|x l].
  - rewrite (Hnil eq_refl). cbn [Z.eqb Pos.eqb]. injection El as <-. eexists. split; [done|]. unfold moved. cbn. split_and!; done || lia.
  - rewrite (proj2 (Z.eqb_neq c1 93)) by (by apply Hcons). unfold can_access_at_index. rewrite Z.add_0_r.
    pose proof (sees_load _ _ _ _ Hs1) as [_ Hlt]. rewrite (proj2 (Z.ltb_lt _ _) Hlt). cbn [negb].
    assert (set_offset (offset b1 - 1) b1 = b0) as ->.
    { unfold b1, b0, set_offset, set_depth. cbn. f_equal. lia. }
    destruct (array_loop_text (parse_value (λ _ _, true) junk fuel) f (dep + 1) (D + 1) (x :: l) b0 [] ts [] 91 (c :: rest) (text_fuel b1))
      as (b2 & -> & M2); [done|done|done|by constructor|done|done|cbn; lia| |].
    { pose proof Hs as (Ho & Hl & _). cbn [length] in Hl. rewrite length_app in Hl. unfold text_fuel. change (pb_length b1) with (pb_length b).
      assert (length (x :: l) ≤ length ts)%nat; [|lia]. eapply length_render_list, El. intros y ty' Hy Ey.
      rewrite Forall_forall in Hall. destruct (Hall y Hy) as [_ Hst]. destruct (Hst _ Ey) as (? & ? & -> & _). simpl. lia. }
    rewrite ok_bind. eexists. split; [done|]. destruct M2 as (? & ? & Hdep & Hoff). unfold moved.
    cbn [content pb_length depth offset set_offset set_depth b0 length app] in *. rewrite length_app. cbn [length].
    split_and!; done || lia.
Qed.
(** Stepping back by one byte. *)
Lemma byte_before b i w x s : sees b i (x :: w ++ s) → ∃ c0, sees b (i + Z.of_nat (length w)) (c0 :: s).
Proof.
  intros Hs. destruct (decide (w = [])) as [->|E]; [exists x; by rewrite Z.add_0_r|]. destruct (exists_last E) as (w' & c0 & ->). exists c0.
  rewrite <- app_assoc in Hs. apply (sees_app b i (x :: w')) in Hs as [_ Hs]. rewrite length_app. cbn [length] in *.
  by replace (i + Z.of_nat (length w' + 1)) with (i + Z.of_nat (S (length w'))) by lia.
Qed.

Lemma parse_object_text junk fuel f dep D l ty k :
  Forall (member_ok (parse_value (λ _ _, true) junk fuel) f (dep + 1) (D + 1)) l → D < CJSON_NESTING_LIMIT →
  ∀ t b c rest, (ts ← render_list (member_text f (dep + 1)) (member_sep f) l;
      Some ([123] ++ (if f then [10] else []) ++ ts ++ (if f then tabs dep else []) ++ [125])) = Some t →
    pb_length b ≤ Z.of_nat (length (content b)) → depth b = D → sees b (offset b) (t ++ c :: rest) →
  ∃ b', parse_object (λ _ _, true) junk (parse_value (λ _ _, true) junk fuel) (Item ty None 0 (S754_zero false) k []) b =
    Ok (Some (Item cJSON_Object None 0 (S754_zero false) k (map read_back l)), b') ∧ moved b b' (Z.of_nat (length t)).
Proof.
  intros Hall Hlim t b c rest Ht Hfit Hd Hs. destruct (render_list _ _ l) as [ts|] eqn:El; [|done]. apply (inj Some) in Ht as <-.
  set (nl := if f then [10] else []) in *. set (tb := if f then tabs dep else []) in *.
  assert (blank nl) as Bnl by (unfold nl; destruct f; by repeat constructor).
  assert (blank tb) as Btb by (unfold tb; destruct f; [apply tabs_blank|by constructor]).
  unfold parse_object. destruct (Z.leb_spec CJSON_NESTING_LIMIT (depth b)); [lia|]. set (b0 := set_depth (depth b + 1) b).
  rewrite <- !app_assoc in Hs. cbn [app] in Hs. change (sees b0 (offset b0) (123 :: nl ++ ts ++ tb ++ 125 :: c :: rest)) in Hs.
  rewrite (accessible_is_sees b0 123 _ 123 Hs), ok_bind. cbn [Z.eqb Pos.eqb negb].
  pose proof (sees_cons _ _ _ _ Hs) as Hs1. set (b1 := set_offset (offset b0 + 1) b0).
  change (sees b1 (offset b1) (nl ++ ts ++ tb ++ 125 :: c :: rest)) in Hs1. destruct l as [|x l].
  - injection El as <-. cbn [app] in Hs1. rewrite app_assoc in Hs1.
    rewrite (skip_ws_blank (nl ++ tb) b1 125 (c :: rest)), ok_bind; [|by apply Forall_app|lia|done].
    apply sees_app in Hs1 as [_ Hs1]. set (b2 := set_offset _ b1) in *. change (sees b2 (offset b2) (125 :: c :: rest)) in Hs1.
    rewrite (accessible_is_sees b2 125 _ 125 Hs1), ok_bind. cbn [Z.eqb Pos.eqb]. eexists. split; [done|].
    unfold moved, b2, b1, b0. cbn. rewrite !length_app. cbn. split_and!; done || lia.
  - pose proof El as El'. apply render_members_cons in El' as (t & ts' & _ & _ & Ets).
    set (core := render_string (string_ x) ++ _) in Ets. rewrite Ets in Hs1, Hs.
    set (tb1 := if f then tabs (dep + 1) else []) in *.
    assert (blank tb1) as Btb1 by (unfold tb1; destruct f; [apply tabs_blank|by constructor]).
    assert (∃ core', core = 34 :: core') as [core' Ecore] by (unfold core, render_string; by eexists).
    rewrite <- app_assoc, (app_assoc nl) in Hs1.
    assert (sees b1 (offset b1) ((nl ++ tb1) ++ 34 :: core' ++ tb ++ 125 :: c :: rest)) as Hs1' by (by rewrite Ecore in Hs1).
    rewrite (skip_ws_blank (nl ++ tb1) b1 34 (core' ++ tb ++ 125 :: c :: rest)), ok_bind; [|by apply Forall_app|lia|done].
    clear Hs1. rename Hs1' into Hs1.
    set (b2 := set_offset (offset b1 + Z.of_nat (length (nl ++ tb1))) b1) in *. apply sees_app in Hs1 as [_ Hs1].
    change (sees b2 (offset b2) (34 :: core' ++ tb ++ 125 :: c :: rest)) in Hs1.
    rewrite (accessible_is_sees b2 34 _ 125 Hs1), ok_bind. cbn [Z.eqb Pos.eqb]. unfold can_access_at_index. rewrite Z.add_0_r.
    pose proof (sees_load _ _ _ _ Hs1) as [_ Hlt]. rewrite (proj2 (Z.ltb_lt _ _) Hlt). cbn [negb].
    set (b3 := set_offset (offset b2 - 1) b2).
    assert (∃ c0, sees b3 (offset b3) (c0 :: core ++ tb ++ 125 :: c :: rest)) as [c0 Hs3].
    { destruct (byte_before b0 (offset b0) (nl ++ tb1) 123 (core ++ tb ++ 125 :: c :: rest)) as [c0 Hc0]; [by rewrite <- !app_assoc in Hs |- *|].
      exists c0. assert (offset b3 = offset b0 + Z.of_nat (length (nl ++ tb1))) as -> by (unfold b3, b2; cbn; lia). exact Hc0. }
    destruct (object_loop_text junk (parse_value (λ _ _, true) junk fuel) f (dep + 1) (D + 1) (x :: l) b3 [] core [] tb c0 (c :: rest) (text_fuel b2))
      as (b4 & -> & M4); [done|done|by rewrite El, Ets|by constructor|done|done|done|cbn; lia| |].
    { pose proof Hs as (Ho & Hl & _). cbn [length] in Hl. rewrite !length_app in Hl. unfold text_fuel. change (pb_length b2) with (pb_length b).
      change (pb_length b0) with (pb_length b) in Hl.
      assert (length (x :: l) ≤ length ts)%nat as Hle.
      { eapply length_render_list, El. intros y u _ Ey. unfold member_text in Ey. destruct (render f (dep + 1) y); [|done].
        apply (inj Some) in Ey as <-. rewrite !length_app. cbn [length]. lia. }
      rewrite Ets, length_app in Hle. cbn [length] in *. lia. }
    rewrite ok_bind. eexists. split; [done|]. destruct M4 as (? & ? & Hdep & Hoff). unfold moved.
    cbn [content pb_length depth offset set_offset set_depth b3 b2 b1 b0 length app] in *. rewrite Ets, ?length_app in *. cbn [length].
    unfold b3, b2, b1, b0 in Hoff. cbn [offset set_offset set_depth] in Hoff. rewrite ?length_app in Hoff.
    split_and!; done || lia.
Qed.
Lemma reads_literal_other b c s : sees b (offset b) (c :: s) → pb_length b ≤ Z.of_nat (length (content b)) →
  (c ≠ 110 → reads_literal b lit_null = Ok false) ∧ (c ≠ 102 → reads_literal b lit_false = Ok false).
Proof. intros Hs Hfit. split; intros; by eapply reads_literal_false. Qed.

Lemma value_text junk v : ∀ d fuel f dep D ty, canonical d v → (d < fuel)%nat → D + Z.of_nat d ≤ CJSON_NESTING_LIMIT →
  reads (parse_value (λ _ _, true) junk fuel) (Item ty None 0 (S754_zero false) (string_ v) []) v f dep D.
Proof.
  induction v as [t0 vs n0 x0 s0 ch IH] using cJSON_tree_ind. intros d fuel f dep D ty Hv Hf Hlim t b c rest Ht Hfit Hd Hc Hs.
  destruct fuel as [|fuel]; [lia|]. destruct (render_kinds f dep) as (Rn & Rf & Rt & Rnum & Rs & Ra & Ro).
  destruct other_kinds as (K1 & K2 & K3 & K4 & K5 & K6).
  inversion Hv as [? k|? k|? k|? k x Hx|? k s Hcs|d' k l Hl Hk|d' k l Hl Hk]; subst; cbn [string_] in *; rewrite ?read_back_other, ?read_back_number by done.
  - rewrite Rn in Ht. apply (inj Some) in Ht as <-. cbn [parse_value]. apply sees_app in Hs as [Hs _].
    rewrite (reads_literal_true b lit_null Hs), ok_bind by done. eexists. split; [done|]. done.
  - rewrite Rf in Ht. apply (inj Some) in Ht as <-. cbn [parse_value]. apply sees_app in Hs as [Hs _].
    destruct (reads_literal_other b _ _ Hs Hfit) as [E1 _].
    rewrite (E1 ltac:(lia)), ok_bind, (reads_literal_true b lit_false Hs), ok_bind by done. eexists. split; [done|]. done.
  - rewrite Rt in Ht. apply (inj Some) in Ht as <-. cbn [parse_value]. apply sees_app in Hs as [Hs _].
    destruct (reads_literal_other b _ _ Hs Hfit) as [E1 E2].
    rewrite (E1 ltac:(lia)), ok_bind, (E2 ltac:(lia)), ok_bind, (reads_literal_true b lit_true Hs), ok_bind by done.
    eexists. split; [done|]. done.
  - rewrite Rnum in Ht. apply (inj Some) in Ht as <-. destruct (isnan x0 || isinf x0) eqn:Hsp.
    { unfold number_text in Hs |- *. rewrite Hsp in Hs |- *. cbn [parse_value]. apply sees_app in Hs as [Hs _].
      rewrite (reads_literal_true b lit_null Hs), ok_bind by done. eexists. split; [done|]. done. }
    pose proof Hs as Hs0. destruct (number_text_reads x0 Hsp) as (_ & _ & c0 & t' & E & Hc0). rewrite E in Hs0. cbn [app] in Hs0.
    pose proof (number_first c0 Hc0) as Hr. rewrite (parse_value_dispatch junk fuel _ b c0 _ Hs0 Hfit) by lia. rewrite (proj2 (Z.eqb_neq c0 34)), Hc0 by lia.
    by apply (parse_number_text x0 b ty None s0 c rest).
  - rewrite Rs in Ht. apply (inj Some) in Ht as <-. pose proof Hs as Hs'. unfold render_string in Hs'. cbn [app] in Hs'.
    rewrite (parse_value_dispatch junk fuel _ b 34 _ Hs' Hfit) by lia. cbn [Z.eqb Pos.eqb].
    destruct (parse_string_text junk s b _ Hcs Hs) as (b' & -> & M). rewrite ok_bind. by eexists.
  - rewrite Ra in Ht. assert (∃ s, t = 91 :: s) as [s ->] by (destruct (render_list _ _ ch); [|done]; injection Ht as <-; by eexists).
    rewrite (parse_value_dispatch junk fuel _ b 91 _ Hs Hfit) by lia. cbn [Z.eqb Pos.eqb orb]. change (is_digit 91) with false. cbn iota.
    eapply (parse_array_text junk fuel f dep (depth b) ch); try done; [|lia].
    rewrite !Forall_forall in *. intros x Hx. split; [|intros u Hu; eapply render_starts; [by apply Hl|exact Hu]].
    replace zero_item with (Item 0 None 0 (S754_zero false) (string_ x) []) by (by rewrite (Hk x Hx)). apply (IH x Hx d'); [by apply Hl|lia|lia].
  - rewrite Ro in Ht. assert (∃ s, t = 123 :: s) as [s ->] by (destruct (render_list _ _ ch); [|done]; injection Ht as <-; by eexists).
    rewrite (parse_value_dispatch junk fuel _ b 123 _ Hs Hfit) by lia. cbn [Z.eqb Pos.eqb orb]. change (is_digit 123) with false. cbn iota.
    eapply (parse_object_text junk fuel f dep (depth b) ch); try done; [|lia].
    rewrite !Forall_forall in *. intros x Hx. destruct (Hk x Hx) as (s1 & E1 & Hs1). exists s1. split; [done|]. split; [done|].
    split; [|intros u Hu; eapply render_starts; [by apply Hl|exact Hu]].
    unfold key_item. rewrite <- E1. apply (IH x Hx d'); [by apply Hl|lia|lia].
Qed.

(** Every canonical item has a text. *)
Lemma render_list_some rd sep l : Forall (λ x, is_Some (rd x)) l → is_Some (render_list rd sep l).
Proof.
  induction 1 as [|x l [t Ht] _ [ts IH]]; [by eexists|]. cbn [render_list]. rewrite Ht. cbn [mbind option_bind]. rewrite IH. by eexists.
Qed.

Lemma render_some f v : ∀ d dep, canonical d v → is_Some (render f dep v).
Proof.
  induction v as [t0 vs n0 x0 s0 ch IH] using cJSON_tree_ind. intros d dep Hv.
  destruct (render_kinds f dep) as (Rn & Rf & Rt & Rnum & Rs & Ra & Ro).
  inversion Hv as [? k|? k|? k|? k x Hx|? k s Hcs|d' k l Hl Hk|d' k l Hl Hk]; subst;
    rewrite ?Rn, ?Rf, ?Rt, ?Rnum, ?Rs, ?Ra, ?Ro; try by eexists.
  - destruct (render_list_some (render f (dep + 1)) (array_sep f) ch) as [ts ->]; [|by eexists].
    rewrite !Forall_forall in *. intros x Hx. by eapply IH, Hl.
  - destruct (render_list_some (member_text f (dep + 1)) (member_sep f) ch) as [ts ->]; [|by eexists].
    rewrite !Forall_forall in *. intros x Hx. unfold member_text. destruct (IH x Hx d' (dep + 1) (Hl x Hx)) as [t ->]. by eexists.
Qed.

(** Canonical items are well-formed. *)
Lemma canonical_wf v : ∀ d, canonical d v → opt_cstring (string_ v) → wf_item v.
Proof.
  induction v as [t0 vs n0 x0 s0 ch IH] using cJSON_tree_ind. intros d Hv Hk. cbn [string_] in Hk.
  inversion Hv as [? k|? k|? k|? k x Hx|? k s Hcs|d' k l Hl Hkeys|d' k l Hl Hkeys]; subst; constructor; try done;
    try (by constructor).
  - rewrite !Forall_forall in *. intros x Hx. eapply IH; [done|by apply Hl|]. by rewrite (Hkeys x Hx).
  - rewrite !Forall_forall in *. intros x Hx. eapply IH; [done|by apply Hl|]. by destruct (Hkeys x Hx) as (s & -> & ?).
Qed.
(** ** Whole texts *)
Lemma skip_ws_nul b : sees b (offset b) [0] → offset b + 1 = pb_length b → buffer_skip_whitespace b = Ok b.
Proof.
  intros Hs Hend. unfold buffer_skip_whitespace, can_access_at_index. rewrite Z.add_0_r. destruct Hs as (Ho & Hl & z & Hz).
  destruct (Z.ltb_spec (offset b) (pb_length b)); [|lia]. cbn [negb]. unfold text_fuel.
  assert (∃ k, Z.to_nat (pb_length b) = S k) as [k ->] by (exists (Z.to_nat (pb_length b) - 1)%nat; lia).
  cbn [skip_loop]. unfold can_access_at_index, buffer_at. rewrite !Z.add_0_r. destruct (Z.ltb_spec (offset b) (pb_length b)); [|lia].
  assert (blk_load (content b) (offset b) = Ok 0) as ->.
  { apply blk_load_Ok; [done|]. by rewrite <- (Nat.add_0_r (Z.to_nat (offset b))), <- lookup_drop, Hz. }
  rewrite ok_bind.
  cbn [Z.leb Z.compare set_offset offset pb_length]. destruct (Z.ltb_spec (offset b + 1) (pb_length b)); [lia|]. rewrite ok_bind.
  cbn [set_offset offset pb_length]. destruct (Z.eqb_spec (offset b + 1) (pb_length b)); [|lia]. f_equal. destruct b; cbn.
  unfold set_offset. cbn. f_equal. lia.
Qed.

Lemma skip_bom_none b c s : sees b (offset b) (c :: s) → c < 128 → pb_length b ≤ Z.of_nat (length (content b)) →
  skip_utf8_bom b = Ok b.
Proof.
  intros (Ho & Hl & z & Hz) Hc Hfit. unfold skip_utf8_bom, can_access_at_index, literal_at.
  destruct (Z.ltb_spec (offset b + 4) (pb_length b)); [|done]. rewrite memread_Ok, ok_bind by (simpl; lia). rewrite Hz.
  rewrite bool_decide_eq_false_2; [done|]. cbn. intros E. injection E as E _. lia.
Qed.

Lemma parse_text junk v d f t rest : canonical d v → Z.of_nat d ≤ CJSON_NESTING_LIMIT → string_ v = None →
  render f 0 v = Some t →
  cJSON_ParseWithOpts (λ _ _, true) junk (t ++ 0 :: rest) true = Ok (Some (read_back v), Z.of_nat (length t)).
Proof.
  intros Hv Hlim Hk Ht. assert (wf_item v) as Hwf by (eapply canonical_wf; [done|by rewrite Hk]).
  unfold cJSON_ParseWithOpts. rewrite strlen_prefix, ok_bind by (by eapply render_pos).
  unfold cJSON_ParseWithLengthOpts, allocate. destruct (Z.eqb_spec (Z.of_nat (length t) + 1) 0); [lia|]. cbn [negb allocs content pb_length offset depth].
  set (b := mk_pb _ _ _ _ _). assert (sees b 0 (t ++ [0])) as Hs.
  { split; [done|]. split; [rewrite length_app; simpl; lia|]. exists rest. cbn. by rewrite <- app_assoc. }
  assert (pb_length b ≤ Z.of_nat (length (content b))) as Hfit by (cbn; rewrite length_app; simpl; lia).
  destruct (render_starts v d f 0 t Hv Ht) as (c & t' & Et & [Hc1 Hc2] & _).
  assert (sees b (offset b) (c :: t' ++ [0])) as Hs1 by (by rewrite Et in Hs).
  rewrite (skip_bom_none b c (t' ++ [0])), ok_bind, (skip_ws_none b c (t' ++ [0])), ok_bind by (done || lia).
  destruct (value_text junk v d nesting_fuel f 0 0 0 Hv) with t b 0 (@nil Z) as (b' & E & M);
    [unfold nesting_fuel; lia|lia|done|done|done|done|done|].
  rewrite Hk in E. change (Item 0 None 0 (S754_zero false) None []) with zero_item in E. rewrite E, ok_bind.
  pose proof M as (Mc & Ml & _ & Mo). cbn [offset b] in Mo. rewrite Z.add_0_l in Mo.
  apply sees_app in Hs as [_ Hs]. rewrite Z.add_0_l, <- Mo, <- (moved_sees _ _ _ _ _ M) in Hs.
  rewrite (skip_ws_nul b'), ok_bind by (done || rewrite Ml, Mo; done). unfold buffer_at. rewrite Z.add_0_r.
  apply sees_load in Hs as [-> Hlt]. destruct (Z.leb_spec (pb_length b') (offset b')); [lia|]. rewrite ok_bind. cbn [Z.eqb]. by rewrite Mo.
Qed.
End roundtrip.

(** C1. Printing and parsing an item.  Every item of the parser's own type (literals, numbers of
    any value, strings of any bytes but NUL, arrays and objects nested up to the limit;
    [parsed_canonical] of CJsonShape says that the parser returns no other) has a text, which is
    printed, formatted or not, when allocations succeed and its length fits an [int], and which
    the parser, whatever lies behind its NUL, reads to the end as the same
    item, its numbers apart: a finite number is read back as one that [compare_double] takes for
    equal, exactly where 17 digits are printed, and an infinite one, printed as [null], as a
    null.  When each number of the item is an integer below 10^15 or needs the 17 digits, the
    very item comes back. *)
Theorem print_parse_roundtrip `{CJsonHOk} (junk junk' : Z) (has_realloc : bool) (v : cJSON) (d : nat) (fmt : bool) :
  canonical d v → Z.of_nat d ≤ CJSON_NESTING_LIMIT → string_ v = None →
  ∃ t v', render fmt 0 v = Some t ∧
    (Z.of_nat (length t) + 2 ≤ INT_MAX → print (λ _ _, true) junk has_realloc v fmt = Ok (Some (t ++ [0]))) ∧
    (∀ rest, cJSON_ParseWithOpts (λ _ _, true) junk' (t ++ 0 :: rest) true = Ok (Some v', Z.of_nat (length t))) ∧
    recovered v v' ∧ (Forall exact_number (numbers v) → v' = v).
Proof.
  intros Hv Hd Hk. destruct (render_some fmt v d 0 Hv) as [t Ht]. exists t, (read_back v). split; [done|]. split; [|split].
  - intros Hlen. assert (wf_item v) as Hwf by (eapply canonical_wf; [done|by rewrite Hk]).
    destruct (print_spec (λ _ _, true) junk has_realloc v fmt Hwf) as ([printed|] & -> & Hr).
    + destruct Hr as (t' & Ht' & ->). rewrite Ht in Ht'. by injection Ht' as <-.
    + specialize (Hr ltac:(done) t Ht). lia.
  - intros rest. by eapply parse_text.
  - split; [by eapply read_back_recovered|by eapply read_back_exact].
Qed.

(** [{"a":[0.30000000000000004,1e999,0.1234567890123456],"b":"x"}]: the first number is printed
    with 15 digits and read back as 0.3, the second as a null, the third exactly. *)
Definition tenths : double := S754_finite false 5404319552844596 (-54).
Definition number_item (x : double) (k : option (list Z)) : cJSON := Item cJSON_Number None (sat_int x) x k [].
Definition numbers_item : cJSON :=
  Item cJSON_Object None 0 (S754_zero false) None
    [Item cJSON_Array None 0 (S754_zero false) (Some [97])
       [number_item tenths None; number_item (S754_infinity false) None; number_item (S754_finite false 8895999183877721 (-56)) None];
     Item cJSON_String (Some [120]) 0 (S754_zero false) (Some [98]) []].

Lemma numbers_canonical : canonical 2 numbers_item.
Proof.
  apply canonical_object.
  - constructor; [|constructor; [|done]]; [|apply canonical_string; by repeat constructor].
    apply canonical_array; [|by repeat constructor]. repeat (constructor; [by apply canonical_number; vm_compute|]). constructor.
  - constructor; [|constructor; [|done]]; eexists; (split; [done|by repeat constructor]).
Qed.

Lemma print_parse_roundtrip_witness :
  ∃ t v', render true 0 numbers_item = Some t ∧
    (Z.of_nat (length t) + 2 ≤ INT_MAX → print (λ _ _, true) 170 false numbers_item true = Ok (Some (t ++ [0]))) ∧
    (∀ rest, cJSON_ParseWithOpts (λ _ _, true) 7 (t ++ 0 :: rest) true = Ok (Some v', Z.of_nat (length t))) ∧
    recovered numbers_item v' ∧ (Forall exact_number (numbers numbers_item) → v' = numbers_item).
Proof. apply (print_parse_roundtrip 170 7 false numbers_item 2 true); [apply numbers_canonical|done|done]. Defined.

(** The check for 15 digits does not find out that another number is read back. *)
Example tenths_lost : reread tenths = S754_finite false 5404319552844595 (-54) ∧ recovers (fmt_g 15 tenths) tenths = true ∧
  reread (S754_finite false 8895999183877721 (-56)) = S754_finite false 8895999183877721 (-56).
Proof. by vm_compute. Qed.

(** [cJSON_ParseWithLength] trusts a length: when the bytes it is given end right behind
    a comma in an object, [parse_string] reads the byte after the last one, whatever the
    member before the comma. *)
Theorem parse_with_length_overreads `{CJsonHOk} (junk : Z) (x : cJSON) (d : nat) (key t : list Z) :
  canonical d x → string_ x = Some key → cstring key → Z.of_nat d < CJSON_NESTING_LIMIT → render false 1 x = Some t →
  let text := [123] ++ render_string (Some key) ++ [58] ++ t ++ [44] in
  cJSON_ParseWithLength (λ _ _, true) junk text (Z.of_nat (length text)) = Ub.
Proof.
  intros Hx Hkey Hcs Hd Ht text. unfold cJSON_ParseWithLength, cJSON_ParseWithLengthOpts, allocate.
  destruct (Z.eqb_spec (Z.of_nat (length text)) 0); [done|]. cbn [negb allocs content pb_length offset depth].
  set (b := mk_pb _ _ _ _ _). assert (sees b (offset b) text) as Hs by (split; [done|split; [simpl; lia|exists []; by rewrite app_nil_r]]).
  assert (pb_length b ≤ Z.of_nat (length (content b))) as Hfit by done.
  assert (∃ r, text = 123 :: 34 :: r) as [r Er] by (unfold text, render_string; by eexists). rewrite Er in Hs.
  rewrite (skip_bom_none b 123 (34 :: r)), ok_bind, (skip_ws_none b 123 (34 :: r)), ok_bind by (done || lia).
  unfold nesting_fuel. rewrite (parse_value_dispatch junk _ zero_item b 123 (34 :: r)) by (done || lia).
  cbn [Z.eqb Pos.eqb orb]. change (is_digit 123) with false. cbn iota. unfold parse_object. change (depth b) with 0.
  destruct (Z.leb_spec CJSON_NESTING_LIMIT 0); [lia|]. set (b0 := set_depth 1 b).
  change (set_depth (0 + 1) b) with b0. rewrite (accessible_is_sees b0 123 (34 :: r)), ok_bind by done. cbn [Z.eqb Pos.eqb negb].
  set (b1 := set_offset (offset b0 + 1) b0). pose proof (sees_cons _ _ _ _ Hs) as Hs1. change (sees b1 (offset b1) (34 :: r)) in Hs1.
  rewrite (skip_ws_none b1 34 r), ok_bind, (accessible_is_sees b1 34 r), ok_bind by (done || lia). cbn [Z.eqb Pos.eqb].
  unfold can_access_at_index. rewrite Z.add_0_r. pose proof (sees_load _ _ _ _ Hs1) as [_ Hlt].
  rewrite (proj2 (Z.ltb_lt _ _) Hlt). cbn [negb]. change (set_offset (offset b1 - 1) b1) with b0.
  destruct (member_step junk (parse_value (λ _ _, true) junk (Z.to_nat CJSON_NESTING_LIMIT)) false 1 1 x key b0 [] [] [] t [44] 123
    (pred (text_fuel b1))) as (b2 & M & E); [done| |done|by apply (render_starts x d false 1)|by constructor|by constructor| |done|done|exists 44, []; done|].
  { unfold key_item. rewrite <- Hkey. apply (value_text junk x d); [done|lia|lia]. }
  { rewrite <- Er in Hs. exact Hs. }
  change (S (pred (text_fuel b1))) with (text_fuel b1) in E. rewrite E. clear E.
  assert (sees b2 (offset b2) [44]) as Hs2.
  { rewrite (moved_sees _ _ _ _ _ M). destruct M as (_ & _ & _ & ->). rewrite <- Er in Hs.
    apply sees_cons in Hs. do 3 apply sees_app in Hs as [_ Hs]. revert Hs.
    match goal with |- sees _ ?i _ → sees _ ?j _ => replace j with i; [done|] end. cbn [length]. change (offset b0) with (offset b). lia. }
  rewrite (skip_ws_none b2 44 []), ok_bind, (accessible_is_sees b2 44 [] 44), ok_bind by (done || lia). cbn [Z.eqb Pos.eqb].
  assert (offset b2 + 1 = pb_length b2 ∧ pb_length b2 = Z.of_nat (length (content b2))) as [Hend Hcl].
  { destruct M as (Mc & Ml & _ & Mo). rewrite Mo, Ml, Mc. split; [|done]. cbn [pb_length b0 set_depth b offset].
    unfold text. rewrite !length_app. cbn [length]. lia. }
  assert (∃ k, pred (text_fuel b1) = S k) as [k ->].
  { exists (length text - 1)%nat. unfold text_fuel. cbn [pb_length b1 b0 b set_offset set_depth]. rewrite Er. simpl. lia. }
  cbn [object_loop]. unfold allocate at 1. cbn [negb]. set (b3 := set_offset _ (mk_pb _ _ _ _ _)).
  assert (buffer_skip_whitespace b3 = Ok b3) as ->.
  { unfold buffer_skip_whitespace, can_access_at_index. rewrite Z.add_0_r. cbn [b3 offset set_offset pb_length].
    by rewrite Hend, Z.ltb_irrefl. }
  rewrite ok_bind. assert (parse_string (λ _ _, true) junk b3 = Ub) as ->; [|done].
  unfold parse_string, buffer_at, blk_load. rewrite Z.add_0_r. cbn [b3 offset set_offset content].
  rewrite bool_decide_eq_true_2, lookup_ge_None_2 by (destruct Hs2; lia). done.
Qed.

(** [{"1":1,] with a length of 7. *)
Lemma parse_with_length_overreads_witness :
  cJSON_ParseWithLength (λ _ _, true) 170 [123; 34; 49; 34; 58; 49; 44] 7 = Ub.
Proof.
  apply (parse_with_length_overreads 170 (Item cJSON_Number None (sat_int (Z_to_double 1)) (Z_to_double 1) (Some [49]) []) 0 [49] [49]);
    [by apply canonical_number; vm_compute|done|by repeat constructor|done|by vm_compute].
Defined.
