(* ===== verification/CJsonOps.v ===== *)
(** * CJsonOps: creation, duplication, lookup and comparison of cJSON items

    The functions of cJSON.c that build or read whole items, on the values of CJson: the
    [next] chain of a container is the list of its children.  Those that allocate take the
    number of allocations made so far and return the new one.  Deleting an item frees it and
    leaves nothing to say about values. *)

From Stdlib Require Import Floats.SpecFloat.
From S2P Require Import Prelude CDouble CJson CJsonPrint CJsonRender.
#[local] Open Scope Z_scope.

Section create.
Context `{CJsonH} (alloc : nat → Z → bool).

(** A function that allocates: what it returns, and the number of allocations. *)
Definition maker (A : Type) : Type := nat → option A * nat.

Definition cJSON_New_Item : maker cJSON := λ n, (if alloc n sizeof_cJSON then Some zero_item else None, S n).

Definition cJSON_strdup (string : option (list Z)) : maker (list Z) := λ n,
  match string with
  | None => (None, n)
  | Some s => (if alloc n (Z.of_nat (length s) + 1) then Some s else None, S n)
  end.

(** ** cJSON_Create... *)
Definition create_typed (t : Z) : maker cJSON := λ n,
  let '(item, n) := cJSON_New_Item n in (option_map (with_type t) item, n).

Definition cJSON_CreateNull : maker cJSON := create_typed cJSON_NULL.
Definition cJSON_CreateTrue : maker cJSON := create_typed cJSON_True.
Definition cJSON_CreateFalse : maker cJSON := create_typed cJSON_False.
Definition cJSON_CreateBool (boolean : bool) : maker cJSON := create_typed (if boolean then cJSON_True else cJSON_False).
Definition cJSON_CreateArray : maker cJSON := create_typed cJSON_Array.
Definition cJSON_CreateObject : maker cJSON := create_typed cJSON_Object.

Definition cJSON_CreateNumber (num : double) : maker cJSON := λ n,
  let '(item, n) := cJSON_New_Item n in
  (option_map (λ i, Item cJSON_Number (valuestring i) (sat_int num) num (string_ i) (child i)) item, n).

(** A string of kind [t], or nothing when either allocation fails or there is no string. *)
Definition create_text (t : Z) (string : option (list Z)) : maker cJSON := λ n,
  let '(item, n) := cJSON_New_Item n in
  match item with
  | None => (None, n)
  | Some i =>
      let '(s, n) := cJSON_strdup string n in
      (option_map (λ s, Item t (Some s) (valueint i) (valuedouble i) (string_ i) (child i)) s, n)
  end.

Definition cJSON_CreateString (string : option (list Z)) : maker cJSON := create_text cJSON_String string.
Definition cJSON_CreateRaw (raw : option (list Z)) : maker cJSON := create_text cJSON_Raw raw.

Definition cJSON_CreateStringReference (string : option (list Z)) : maker cJSON := λ n,
  let '(item, n) := cJSON_New_Item n in
  (option_map (λ i, Item (Z.lor cJSON_String cJSON_IsReference) string (valueint i) (valuedouble i) (string_ i) (child i)) item, n).

Definition create_container_reference (t : Z) (children : list cJSON) : maker cJSON := λ n,
  let '(item, n) := cJSON_New_Item n in
  (option_map (with_child (Z.lor t cJSON_IsReference) children) item, n).

Definition cJSON_CreateObjectReference (children : list cJSON) : maker cJSON := create_container_reference cJSON_Object children.
Definition cJSON_CreateArrayReference (children : list cJSON) : maker cJSON := create_container_reference cJSON_Array children.

(** The loop of the functions that create an array of [count] elements. *)
Fixpoint create_loop {A} (create : A → maker cJSON) (numbers : list A) (acc : list cJSON) : maker (list cJSON) := λ n,
  match numbers with
  | [] => (Some acc, n)
  | x :: numbers =>
      let '(item, n) := create x n in
      match item with
      | None => (None, n)
      | Some i => create_loop create numbers (acc ++ [i]) n
      end
  end.

(** [numbers] is [None] for a null pointer, else an array; reading past it is undefined. *)
Definition create_array {A} (create : A → maker cJSON) (numbers : option (list A)) (count : Z) (n : nat)
  : result (option cJSON * nat) :=
  match numbers with
  | None => Ok (None, n)
  | Some numbers =>
      if count <? 0 then Ok (None, n) else
      let '(a, n) := cJSON_CreateArray n in
      match a with
      | None => Ok (None, n)
      | Some a =>
          if bool_decide (Z.to_nat count ≤ length numbers)%nat then
            let '(l, n) := create_loop create (take (Z.to_nat count) numbers) [] n in
            Ok (option_map (λ l, with_child (type_ a) l a) l, n)
          else Ub
      end
  end.

Definition cJSON_CreateIntArray : option (list Z) → Z → nat → result (option cJSON * nat) :=
  create_array (λ x, cJSON_CreateNumber (Z_to_double x)).
(** The conversion of a [float] to [double] is exact, so both take doubles. *)
Definition cJSON_CreateFloatArray : option (list double) → Z → nat → result (option cJSON * nat) :=
  create_array cJSON_CreateNumber.
Definition cJSON_CreateDoubleArray : option (list double) → Z → nat → result (option cJSON * nat) :=
  create_array cJSON_CreateNumber.
Definition cJSON_CreateStringArray : option (list (option (list Z))) → Z → nat → result (option cJSON * nat) :=
  create_array cJSON_CreateString.

(** ** Setting a value *)
Definition cJSON_SetNumberHelper (object : cJSON) (number : double) : cJSON * double :=
  (Item (type_ object) (valuestring object) (sat_int number) number (string_ object) (child object), number).

(** The new object and the string returned, [None] for [NULL]; a string that fits is copied
    over the old one, another one into a new block. *)
Definition cJSON_SetValuestring (object : cJSON) (s : list Z) (n : nat) : result (cJSON * option (list Z) * nat) :=
  let set v := Item (type_ object) (Some v) (valueint object) (valuedouble object) (string_ object) (child object) in
  if (Z.land (type_ object) cJSON_String =? 0) || negb (Z.land (type_ object) cJSON_IsReference =? 0)
  then Ok (object, None, n) else
  old ← of_opt (valuestring object);
  if (length s <=? length old)%nat then Ok (set s, Some s, n) else
  let '(copy, n) := cJSON_strdup (Some s) n in
  match copy with
  | None => Ok (object, None, n)
  | Some copy => Ok (set copy, Some copy, n)
  end.

(** ** cJSON_Duplicate *)
Definition duplicate_children (dup : cJSON → maker cJSON) : list cJSON → maker (list cJSON) :=
  fix children (l : list cJSON) : maker (list cJSON) := λ n,
    match l with
    | [] => (Some [], n)
    | child :: l =>
        let '(newchild, n) := dup child n in
        match newchild with
        | None => (None, n)
        | Some newchild =>
            let '(rest, n) := children l n in (option_map (cons newchild) rest, n)
        end
    end.

(** A pointer that is null is copied as null. *)
Definition dup_pointer (s : option (list Z)) (constant : bool) : maker (option (list Z)) := λ n,
  match s with
  | None => (Some None, n)
  | Some s => if constant then (Some (Some s), n) else let '(c, n) := cJSON_strdup (Some s) n in (option_map Some c, n)
  end.

Fixpoint cJSON_Duplicate (recurse : bool) (item : cJSON) : maker cJSON := λ n,
  let '(newitem, n) := cJSON_New_Item n in
  match newitem with
  | None => (None, n)
  | Some _ =>
      let t := Z.ldiff (type_ item) cJSON_IsReference in
      let '(vs, n) := dup_pointer (valuestring item) false n in
      match vs with
      | None => (None, n)
      | Some vs =>
          let '(key, n) := dup_pointer (string_ item) (negb (Z.land (type_ item) cJSON_StringIsConst =? 0)) n in
          match key with
          | None => (None, n)
          | Some key =>
              let newitem := Item t vs (valueint item) (valuedouble item) key in
              if negb recurse then (Some (newitem []), n) else
              let '(l, n) := duplicate_children (cJSON_Duplicate true) (child item) n in
              (option_map newitem l, n)
          end
      end
  end.
End create.

(** ** cJSON_Is... *)
Section kinds.
Context `{CJsonH}.

Definition is_kind (t : Z) (item : option cJSON) : bool :=
  match item with None => false | Some i => Z.land (type_ i) 0xFF =? t end.

Definition cJSON_IsInvalid := is_kind cJSON_Invalid.
Definition cJSON_IsFalse := is_kind cJSON_False.
Definition cJSON_IsTrue := is_kind cJSON_True.
Definition cJSON_IsNull := is_kind cJSON_NULL.
Definition cJSON_IsNumber := is_kind cJSON_Number.
Definition cJSON_IsString := is_kind cJSON_String.
Definition cJSON_IsArray := is_kind cJSON_Array.
Definition cJSON_IsObject := is_kind cJSON_Object.
Definition cJSON_IsRaw := is_kind cJSON_Raw.
Definition cJSON_IsBool (item : option cJSON) : bool :=
  match item with None => false | Some i => negb (Z.land (type_ i) (Z.lor cJSON_True cJSON_False) =? 0) end.

Definition cJSON_GetStringValue (item : option cJSON) : option (list Z) :=
  match item with None => None | Some i => if cJSON_IsString item then valuestring i else None end.
Definition cJSON_GetNumberValue (item : option cJSON) : double :=
  match item with None => S754_nan | Some i => if cJSON_IsNumber item then valuedouble i else S754_nan end.

(** ** Lookup *)
Definition tolower (c : Z) : Z := if (65 <=? c) && (c <=? 90) then c + 32 else c.

(** The loop over two strings; behind a list is its NUL. *)
Fixpoint case_insensitive_loop (string1 string2 : list Z) : Z :=
  match string1, string2 with
  | [], [] => 0
  | [], c2 :: _ => 0 - tolower c2
  | c1 :: _, [] => tolower c1 - 0
  | c1 :: string1, c2 :: string2 =>
      if tolower c1 =? tolower c2 then case_insensitive_loop string1 string2 else tolower c1 - tolower c2
  end.

Definition case_insensitive_strcmp (string1 string2 : option (list Z)) : Z :=
  match string1, string2 with
  | Some s1, Some s2 => case_insensitive_loop s1 s2
  | _, _ => 1
  end.

Fixpoint get_object_item (l : list cJSON) (name : list Z) (case_sensitive : bool) : option cJSON :=
  match l with
  | [] => None
  | current :: l =>
      match string_ current with
      | None => if case_sensitive then None else get_object_item l name case_sensitive
      | Some s =>
          if (if case_sensitive then bool_decide (name = s) else case_insensitive_strcmp (Some name) (Some s) =? 0)
          then Some current else get_object_item l name case_sensitive
      end
  end.

(** ** cJSON_Compare, of items that share no memory, so that no two are identical *)
Fixpoint compare_elements (cmp : cJSON → cJSON → result bool) (a b : list cJSON) : result bool :=
  match a, b with
  | x :: a, y :: b => e ← cmp x y; if e : bool then compare_elements cmp a b else Ok false
  | [], [] => Ok true
  | _, _ => Ok false
  end.

(** Every member of [a] has an equal one in [b]. *)
Fixpoint compare_members (cmp : cJSON → cJSON → result bool) (case_sensitive : bool) (b a : list cJSON) : result bool :=
  match a with
  | [] => Ok true
  | x :: a =>
      match (name ← string_ x; get_object_item b name case_sensitive) with
      | None => Ok false
      | Some y => e ← cmp x y; if e : bool then compare_members cmp case_sensitive b a else Ok false
      end
  end.

(** [fuel] bounds the nesting. *)
Fixpoint cJSON_Compare (fuel : nat) (case_sensitive : bool) (a b : cJSON) : result bool :=
  match fuel with
  | O => OutOfFuel
  | S fuel =>
      let kind := Z.land (type_ a) 0xFF in
      if negb (kind =? Z.land (type_ b) 0xFF) || cJSON_IsInvalid (Some a) then Ok false else
      if (kind =? cJSON_False) || (kind =? cJSON_True) || (kind =? cJSON_NULL) then Ok true
      else if kind =? cJSON_Number then Ok (compare_double (valuedouble a) (valuedouble b))
      else if (kind =? cJSON_String) || (kind =? cJSON_Raw) then
        match valuestring a, valuestring b with
        | Some s, Some s' => Ok (bool_decide (s = s'))
        | _, _ => Ok false
        end
      else if kind =? cJSON_Array then
        compare_elements (cJSON_Compare fuel case_sensitive) (child a) (child b)
      else if kind =? cJSON_Object then
        e ← compare_members (cJSON_Compare fuel case_sensitive) case_sensitive (child b) (child a);
        if e : bool then compare_members (cJSON_Compare fuel case_sensitive) case_sensitive (child a) (child b)
        else Ok false
      else Ok false
  end.
End kinds.
