(* ===== verification/CJsonCompare.v ===== *)
(** * CJsonCompare: cJSON_Compare against equality of values

    Equality of JSON values, up to the order of members, and what the comparison of cJSON.c
    decides of it. *)

From Stdlib Require Import Floats.SpecFloat.
From S2P Require Import Prelude CDouble CJson CJsonPrint CJsonRender CJsonOps.
#[local] Open Scope Z_scope.

(** ** The comparison of numbers is symmetric *)
Lemma fabs_rounded s s' m e l : fabs (binary_round_aux PREC EMAX s m e l) = fabs (binary_round_aux PREC EMAX s' m e l).
Proof. unfold binary_round_aux. repeat case_match; simplify_eq; done. Qed.

Lemma fabs_sub_sym a b : fabs (SFsub PREC EMAX a b) = fabs (SFsub PREC EMAX b a).
Proof.
  destruct a as [s|s| |s m e], b as [s'|s'| |s' m' e']; try done; try (by destruct s, s'); try (by destruct s); try (by destruct s').
  unfold SFsub. rewrite (Z.min_comm e' e). set (x := cond_Zopp s _). set (y := cond_Zopp s' _).
  clearbody x y. replace (y - x) with (- (x - y)) by lia. destruct (x - y) as [|p|p]; [done|..];
    rewrite ?Pos2Z.opp_pos, ?Pos2Z.opp_neg; unfold binary_normalize, binary_round; case_match; apply fabs_rounded.
Qed.

Lemma SFltb_antisym x y : SFltb x y = true → SFltb y x = false.
Proof.
  unfold SFltb, SFcompare. destruct x as [s|s| |s m e], y as [s'|s'| |s' m' e']; try done; try (by destruct s, s'); try (by destruct s); try (by destruct s').
  destruct s, s'; try done; rewrite (Z.compare_antisym e e'); destruct (e ?= e'); cbn [CompOpp]; try done;
    fold (Pos.compare m m'); fold (Pos.compare m' m); rewrite (Pos.compare_antisym m m'); by destruct (m ?= m')%positive.
Qed.

(** Neither below the other: the same absolute value, or no number. *)
Lemma fabs_incomparable a b : SFltb (fabs a) (fabs b) = false → SFltb (fabs b) (fabs a) = false →
  fabs a = fabs b ∨ isnan a = true ∨ isnan b = true.
Proof.
  unfold SFltb, SFcompare. destruct a as [s|s| |s m e], b as [s'|s'| |s' m' e']; cbn [fabs SFabs isnan]; try (by right; left); try (by right; right); try (by left); try done.
  intros H1 H2. left. rewrite (Z.compare_antisym e e') in H2. destruct (Z.compare_spec e e') as [->|?|?]; [|done|done].
  cbn [CompOpp] in *. fold (Pos.compare m m') in H1. fold (Pos.compare m' m) in H2. rewrite (Pos.compare_antisym m m') in H2.
  destruct (Pos.compare_spec m m') as [->|?|?]; done.
Qed.

Lemma compare_double_sym a b : compare_double a b = compare_double b a.
Proof.
  unfold compare_double. rewrite (fabs_sub_sym b a). destruct (SFltb (fabs b) (fabs a)) eqn:E1.
  - by rewrite (SFltb_antisym _ _ E1).
  - destruct (SFltb (fabs a) (fabs b)) eqn:E2; [done|]. destruct (fabs_incomparable a b E2 E1) as [->|[Hn|Hn]]; [done|..].
    + destruct a; try done; by destruct b.
    + destruct b; try done; by destruct a.
Qed.

Section compare.
Context `{CJsonHOk}.

(** ** Equality of JSON values *)
Definition kind (i : cJSON) : Z := Z.land (type_ i) 0xFF.

Inductive same_value : cJSON → cJSON → Prop :=
  | same_literal a b : kind a = kind b → kind a ∈ [cJSON_False; cJSON_True; cJSON_NULL] → same_value a b
  | same_number a b : kind a = cJSON_Number → kind b = cJSON_Number →
      compare_double (valuedouble a) (valuedouble b) = true → same_value a b
  | same_text a b s : kind a = kind b → kind a ∈ [cJSON_String; cJSON_Raw] → valuestring a = Some s → valuestring b = Some s →
      same_value a b
  | same_array a b : kind a = cJSON_Array → kind b = cJSON_Array → Forall2 same_value (child a) (child b) → same_value a b
  | same_object a b l : kind a = cJSON_Object → kind b = cJSON_Object → child a ≡ₚ l →
      Forall2 (λ x y, string_ x = string_ y ∧ same_value x y) l (child b) → same_value a b.

(** Every object inside has a key for each member, and no key twice. *)
Inductive distinct_keys : cJSON → Prop :=
  Distinct t vs n d s ch : (Z.land t 0xFF = cJSON_Object → NoDup (map string_ ch) ∧ Forall (λ x, is_Some (string_ x)) ch) →
    Forall distinct_keys ch → distinct_keys (Item t vs n d s ch).

Fixpoint height (i : cJSON) : nat := S (foldr (λ x m, max (height x) m) 0%nat (child i)).

Lemma height_child i x : x ∈ child i → (height x < height i)%nat.
Proof.
  destruct i as [t vs n d s ch]. cbn [height child]. induction ch as [|y ch IH]; [by intros ?%elem_of_nil|].
  intros [->|Hx]%elem_of_cons; cbn [foldr]; [lia|]. specialize (IH Hx). lia.
Qed.

Lemma Forall2_perm {A B} (R : A → B → Prop) l l' k : l ≡ₚ l' → Forall2 R l k → ∃ k', k ≡ₚ k' ∧ Forall2 R l' k'.
Proof.
  intros Hp. revert k. induction Hp as [|x l l' Hp IH|x y l|l1 l2 l3 Hp1 IH1 Hp2 IH2]; intros k HF.
  - by exists k.
  - inversion HF as [|? y ? k1 Hxy HF']; subst. destruct (IH k1 HF') as (k' & Hk & HF2). exists (y :: k').
    split; [by f_equiv|by constructor].
  - inversion HF as [|? z ? k1 Hz HF']; subst. inversion HF' as [|? w ? k2 Hw HF2]; subst. exists (w :: z :: k2).
    split; [by constructor|]. by repeat constructor.
  - destruct (IH1 k HF) as (k1 & Hk1 & HF1). destruct (IH2 k1 HF1) as (k2 & Hk2 & HF2). exists k2. split; [by etrans|done].
Qed.

Lemma Forall2_flip_impl {A} (R R' : A → A → Prop) l k : (∀ x y, x ∈ l → R x y → R' y x) → Forall2 R l k → Forall2 R' k l.
Proof.
  intros HR HF. induction HF as [|x y l k Hxy _ IH]; constructor; [apply HR; [constructor|done]|].
  apply IH. intros; apply HR; [by constructor|done].
Qed.

Lemma same_value_sym a : ∀ b, same_value a b → same_value b a.
Proof.
  induction a as [t vs n d s ch IH] using cJSON_tree_ind. rewrite Forall_forall in IH.
  intros b Hs. inversion Hs as [? ? Hk Hin|? ? Hk Hk' Hc|? ? s' Hk Hin E E'|? ? Hk Hk' HF|? ? l Hk Hk' Hp HF]; subst; cbn [child] in *.
  - apply same_literal; [done|by rewrite <- Hk].
  - apply same_number; [done|done|by rewrite compare_double_sym].
  - apply (same_text _ _ s'); [done|by rewrite <- Hk|done|done].
  - apply same_array; [done|done|]. eapply Forall2_flip_impl, HF. intros x y Hx. by apply IH.
  - destruct (Forall2_perm _ _ _ _ (symmetry Hp) HF) as (k' & Hk2 & HF2). apply (same_object _ _ k'); [done|done|done|].
    eapply Forall2_flip_impl, HF2. intros x y Hx [? ?]. split; [done|by apply IH].
Qed.

(** ** Lookup by key, when keys are distinct *)
Lemma get_object_item_spec l name y : NoDup (map string_ l) → Forall (λ x, is_Some (string_ x)) l →
  get_object_item l name true = Some y ↔ y ∈ l ∧ string_ y = Some name.
Proof.
  intros Hnd Hall. induction l as [|x l IH]; cbn [get_object_item map] in *; [split; [done|by intros [?%elem_of_nil ?]]|].
  inversion Hall as [|? ? [s Es] Hall']; subst. apply NoDup_cons in Hnd as [Hx Hnd]. rewrite Es in *. case_bool_decide as E.
  - subst s. split; [intros [= <-]; split; [constructor|done]|]. intros [[->|Hy]%elem_of_cons Ey]; [done|].
    exfalso. apply Hx. rewrite <- Ey. by apply list_elem_of_fmap_2.
  - rewrite IH by done. split; intros [Hy Ey]; (split; [|done]); [by constructor|].
    apply elem_of_cons in Hy as [->|]; [|done]. rewrite Es in Ey. congruence.
Qed.

Lemma key_inj l x y : NoDup (map string_ l) → x ∈ l → y ∈ l → string_ x = string_ y → x = y.
Proof.
  intros Hnd [i Hi]%list_elem_of_lookup [j Hj]%list_elem_of_lookup E.
  assert (i = j) as <-; [|congruence]. apply (NoDup_lookup (map string_ l) i j (string_ x)); [done| |].
  - by rewrite list_lookup_fmap, Hi.
  - rewrite list_lookup_fmap, Hj. simpl. congruence.
Qed.

(** ** The loops of the comparison, for a comparison [cmp] that decides [R] *)
Definition decides (cmp : cJSON → cJSON → result bool) (R : cJSON → cJSON → Prop) (x y : cJSON) : Prop :=
  ∃ r, cmp x y = Ok r ∧ (r = true ↔ R x y).

Lemma compare_elements_spec cmp (R : cJSON → cJSON → Prop) a : ∀ b,
  (∀ x y, x ∈ a → y ∈ b → decides cmp R x y) →
  ∃ r, compare_elements cmp a b = Ok r ∧ (r = true ↔ Forall2 R a b).
Proof.
  induction a as [|x a IH]; intros [|y b] Hd; cbn [compare_elements].
  { exists true. split; [done|]. split; [intros _; constructor|done]. }
  { exists false. split; [done|]. split; [done|by inversion 1]. }
  { exists false. split; [done|]. split; [done|by inversion 1]. }
  destruct (Hd x y) as (e & -> & He); [constructor|constructor|]. rewrite ok_bind. destruct e.
  - destruct (IH b) as (r & -> & Hr); [intros; apply Hd; by constructor|]. exists r. split; [done|]. rewrite Hr.
    split; [intros; constructor; [by apply He|done]|by inversion 1].
  - exists false. split; [done|]. split; [done|]. inversion 1; subst. by apply He.
Qed.

(** A member with the same key and an equal value. *)
Definition has_match (R : cJSON → cJSON → Prop) (b : list cJSON) (x : cJSON) : Prop :=
  ∃ y, y ∈ b ∧ string_ x = string_ y ∧ R x y.

Lemma compare_members_spec cmp (R : cJSON → cJSON → Prop) b a :
  NoDup (map string_ b) → Forall (λ x, is_Some (string_ x)) b → Forall (λ x, is_Some (string_ x)) a →
  (∀ x y, x ∈ a → y ∈ b → decides cmp R x y) →
  ∃ r, compare_members cmp true b a = Ok r ∧ (r = true ↔ Forall (has_match R b) a).
Proof.
  intros Hnd Hb Ha Hd. induction a as [|x a IH]; cbn [compare_members].
  { eexists. split; [done|]. by split; [constructor|]. }
  inversion Ha as [|? ? [name Ex] Ha']; subst. rewrite Ex. cbn [mbind option_bind].
  destruct (get_object_item b name true) as [y|] eqn:Ey.
  - apply get_object_item_spec in Ey as [Hy Ekey]; [|done..].
    destruct (Hd x y) as (e & -> & He); [constructor|done|]. rewrite ok_bind. destruct e.
    + destruct IH as (r & -> & Hr); [done|intros; apply Hd; [by constructor|done]|]. exists r. split; [done|]. rewrite Hr.
      split; [|by inversion 1]. intros HF. constructor; [|done]. exists y. split; [done|]. split; [congruence|by apply He].
    + exists false. split; [done|]. split; [done|]. inversion 1 as [|? ? (z & Hz & Ez & HR)]; subst.
      apply He. assert (y = z) as ->; [|done]. apply (key_inj b); congruence.
  - exists false. split; [done|]. split; [done|]. inversion 1 as [|? ? (z & Hz & Ez & HR)]; subst.
    assert (get_object_item b name true = Some z); [|congruence]. apply get_object_item_spec; [done|done|]. split; congruence.
Qed.

(** Matches both ways are a permutation of equal members. *)
Lemma matches_permutation (R : cJSON → cJSON → Prop) a b : NoDup (map string_ a) → NoDup (map string_ b) →
  Forall (has_match R b) a → Forall (λ y, ∃ x, x ∈ a ∧ string_ y = string_ x) b →
  ∃ l, a ≡ₚ l ∧ Forall2 (λ x y, string_ x = string_ y ∧ R x y) l b.
Proof.
  intros Ha Hb Hab Hba. rewrite Forall_forall in Hab.
  assert (∃ l, Forall2 (λ x y, x ∈ a ∧ string_ x = string_ y ∧ R x y) l b) as [l Hl].
  { assert (∀ y, y ∈ b → y ∈ b) as Hin by done. revert Hin Hba. generalize b at 1 3 4. intros b'. induction b' as [|y b' IH]; intros Hin Hba.
    - by exists [].
    - inversion Hba as [|? ? (x & Hx & Exy) Hba']; subst. destruct IH as [l Hl]; [intros; apply Hin; by constructor|done|].
      exists (x :: l). constructor; [|done]. split; [done|]. split; [done|].
      destruct (Hab x Hx) as (z & Hz & Ez & HR). assert (y = z) as ->; [|done]. apply (key_inj b); [done|apply Hin; constructor|done|congruence]. }
  exists l. split; [|eapply Forall2_impl; [exact Hl|]; naive_solver].
  assert (map string_ l = map string_ b) as Ekeys.
  { clear -Hl. induction Hl as [|x y l b (_ & E & _) _ IH]; [done|]. cbn [map]. by rewrite E, IH. }
  apply NoDup_Permutation.
  - by apply NoDup_fmap_1 in Ha.
  - apply (NoDup_fmap_1 string_). change (fmap string_ l) with (map string_ l). by rewrite Ekeys.
  - intros x. split.
    + intros Hx. destruct (Hab x Hx) as (y & Hy & Exy & _). apply list_elem_of_lookup in Hy as [i Hi].
      destruct (Forall2_lookup_r _ _ _ _ _ Hl Hi) as (x' & Hx' & Hin & Ex' & _).
      assert (x = x') as ->; [|by eapply list_elem_of_lookup_2]. apply (key_inj a); congruence.
    + intros [i Hi]%list_elem_of_lookup. by destruct (Forall2_lookup_l _ _ _ _ _ Hl Hi) as (y & _ & Hin & _).
Qed.

(** ** The comparison decides equality *)
Lemma same_value_kind a b : same_value a b → kind a = kind b.
Proof. inversion 1; congruence. Qed.

Lemma height_pos i : (0 < height i)%nat.
Proof. destruct i; simpl; lia. Qed.

Lemma distinct_inv i : distinct_keys i →
  (kind i = cJSON_Object → NoDup (map string_ (child i)) ∧ Forall (λ x, is_Some (string_ x)) (child i)) ∧
  Forall distinct_keys (child i).
Proof. inversion 1; subst. done. Qed.

Ltac set_members :=
  repeat match goal with E : _ ∈ _ |- _ => progress rewrite ?elem_of_cons, ?elem_of_nil in E end; exfalso; intuition congruence.

(** What equality is for each kind. *)
Lemma same_value_cases a b : kind a = kind b →
  (kind a ∈ [cJSON_False; cJSON_True; cJSON_NULL] → same_value a b) ∧
  (kind a = cJSON_Number → same_value a b ↔ compare_double (valuedouble a) (valuedouble b) = true) ∧
  (kind a ∈ [cJSON_String; cJSON_Raw] → same_value a b ↔ ∃ s, valuestring a = Some s ∧ valuestring b = Some s) ∧
  (kind a = cJSON_Array → same_value a b ↔ Forall2 same_value (child a) (child b)) ∧
  (kind a = cJSON_Object → same_value a b ↔ ∃ l, child a ≡ₚ l ∧ Forall2 (λ x y, string_ x = string_ y ∧ same_value x y) l (child b)) ∧
  (kind a ∉ [cJSON_False; cJSON_True; cJSON_NULL; cJSON_Number; cJSON_String; cJSON_Array; cJSON_Object; cJSON_Raw] → ¬ same_value a b).
Proof.
  intros Ek. pose proof kinds_distinct as Hnd. rewrite !NoDup_cons, !not_elem_of_cons in Hnd. destruct_and! Hnd.
  rewrite !elem_of_cons, !elem_of_nil. split_and!.
  - intros Hk. apply same_literal; [done|]. by rewrite !elem_of_cons, elem_of_nil.
  - intros Hk. split; [|by apply same_number; congruence]. inversion 1; subst; try done; set_members.
  - intros Hk. split; [|intros (s & E1 & E2); apply (same_text _ _ s); [done|by rewrite !elem_of_cons, elem_of_nil|done|done]].
    inversion 1; subst; try (by eexists); set_members.
  - intros Hk. split; [|by apply same_array; congruence]. inversion 1; subst; try done; set_members.
  - intros Hk. split; [|intros (l & ? & ?); by apply (same_object _ _ l); congruence].
    inversion 1; subst; try (by eexists); set_members.
  - intros Hk. inversion 1; subst; set_members.
Qed.

Lemma compare_decides fuel : ∀ a b, distinct_keys a → distinct_keys b → (height a ≤ fuel ∨ height b ≤ fuel)%nat →
  decides (cJSON_Compare fuel true) same_value a b.
Proof.
  induction fuel as [|fuel IH]; intros a b Da Db Hh; [pose proof (height_pos a); pose proof (height_pos b); lia|].
  assert (∀ x y, x ∈ child a → y ∈ child b →
    decides (cJSON_Compare fuel true) same_value x y ∧ decides (cJSON_Compare fuel true) same_value y x) as Hch.
  { intros x y Hx Hy. apply distinct_inv in Da as [_ Da]. apply distinct_inv in Db as [_ Db]. rewrite Forall_forall in Da, Db.
    pose proof (height_child a x Hx). pose proof (height_child b y Hy). split; apply IH; auto; lia. }
  clear IH Hh. unfold decides. cbn [cJSON_Compare]. unfold cJSON_IsInvalid, is_kind. fold (kind a) (kind b).
  destruct (Z.eqb_spec (kind a) (kind b)) as [Ek|Hne]; cbn [negb orb].
  2: { exists false. split; [done|]. split; [done|]. by intros ?%same_value_kind. }
  destruct (same_value_cases a b Ek) as (Clit & Cnum & Ctxt & Carr & Cobj & Cother).
  destruct (Z.eqb_spec (kind a) cJSON_Invalid) as [Hinv|_].
  { exists false. split; [done|]. split; [done|]. intros Hs. exfalso. apply Cother; [|done]. rewrite Hinv. apply invalid_other. }
  destruct ((kind a =? cJSON_False) || (kind a =? cJSON_True) || (kind a =? cJSON_NULL)) eqn:E1.
  { exists true. split; [done|]. split; [intros _; apply Clit|done]. rewrite !orb_true_iff, !Z.eqb_eq in E1. set_solver. }
  destruct (Z.eqb_spec (kind a) cJSON_Number) as [Hk|Hnum].
  { eexists. split; [done|]. by rewrite (Cnum Hk). }
  destruct ((kind a =? cJSON_String) || (kind a =? cJSON_Raw)) eqn:E2.
  { assert (kind a ∈ [cJSON_String; cJSON_Raw]) as Hk by (rewrite !orb_true_iff, !Z.eqb_eq in E2; set_solver).
    setoid_rewrite (Ctxt Hk). destruct (valuestring a) as [s|], (valuestring b) as [s'|]; eexists; (split; [done|]);
      rewrite ?bool_decide_eq_true; naive_solver. }
  destruct (Z.eqb_spec (kind a) cJSON_Array) as [Hk|Harr].
  { setoid_rewrite (Carr Hk). apply compare_elements_spec. intros x y Hx Hy. by destruct (Hch x y Hx Hy). }
  destruct (Z.eqb_spec (kind a) cJSON_Object) as [Hk|Hobj].
  2: { exists false. split; [done|]. split; [done|]. intros Hs. exfalso. apply Cother; [|done].
    repeat match goal with E : (_ || _) = false |- _ => apply orb_false_iff in E as [? ?] end.
    repeat match goal with E : (_ =? _) = false |- _ => apply Z.eqb_neq in E end.
    rewrite !elem_of_cons, elem_of_nil. intros Hin. destruct_or! Hin; congruence. }
  setoid_rewrite (Cobj Hk). destruct (distinct_inv a Da) as [[Na Sa] _]; [done|]. destruct (distinct_inv b Db) as [[Nb Sb] _]; [congruence|].
  destruct (compare_members_spec (cJSON_Compare fuel true) same_value (child b) (child a)) as (r1 & -> & H1); [done..| |].
  { intros x y Hx Hy. by destruct (Hch x y Hx Hy). }
  destruct (compare_members_spec (cJSON_Compare fuel true) same_value (child a) (child b)) as (r2 & E & H2); [done..| |].
  { intros x y Hx Hy. by destruct (Hch y x Hy Hx). }
  rewrite ok_bind, E. exists (r1 && r2). split; [by destruct r1|]. rewrite andb_true_iff, H1, H2. split.
  - intros [Hab Hba]. apply matches_permutation; [done|done|done|]. eapply Forall_impl; [exact Hba|].
    intros y (x & Hx & Ex & _). by exists x.
  - intros (l & Hp & HF). rewrite !Forall_forall. split; intros x Hx.
    + rewrite Hp in Hx. apply list_elem_of_lookup in Hx as [i Hi]. destruct (Forall2_lookup_l _ _ _ _ _ HF Hi) as (y & Hy & ? & ?).
      exists y. split; [by eapply list_elem_of_lookup_2|done].
    + apply list_elem_of_lookup in Hx as [i Hi]. destruct (Forall2_lookup_r _ _ _ _ _ HF Hi) as (y & Hy & ? & Hs).
      exists y. split; [rewrite Hp; by eapply list_elem_of_lookup_2|]. split; [done|]. by apply same_value_sym.
Qed.
End compare.

(** C10. [cJSON_Compare], case-sensitively, on two items that share no memory and whose
    objects have no key twice, decides equality of JSON values: the same kinds, numbers equal
    up to rounding, the same strings, equal elements in the same order and equal members in
    any order.  The nesting of either item bounds the recursion. *)
Theorem compare_is_value_equality `{CJsonHOk} (fuel : nat) (a b : cJSON) :
  distinct_keys a → distinct_keys b → (min (height a) (height b) ≤ fuel)%nat →
  ∃ r, cJSON_Compare fuel true a b = Ok r ∧ (r = true ↔ same_value a b).
Proof. intros Da Db Hh. apply compare_decides; [done|done|lia]. Qed.

Definition num (k : option (list Z)) (n : Z) : cJSON := Item cJSON_Number None (sat_int (Z_to_double n)) (Z_to_double n) k [].
Definition obj (k : option (list Z)) (l : list cJSON) : cJSON := Item cJSON_Object None 0 (S754_zero false) k l.

(** The members of the second object in the other order. *)
Lemma compare_is_value_equality_witness :
  ∃ r, cJSON_Compare 2 true (obj None [num (Some [97]) 1; num (Some [98]) 2]) (obj None [num (Some [98]) 2; num (Some [97]) 1]) = Ok r ∧
    (r = true ↔ same_value (obj None [num (Some [97]) 1; num (Some [98]) 2]) (obj None [num (Some [98]) 2; num (Some [97]) 1])).
Proof.
  assert (∀ x y, x ≠ y → distinct_keys (obj None [num (Some [x]) 1; num (Some [y]) 2]) ∧ distinct_keys (obj None [num (Some [y]) 2; num (Some [x]) 1])) as Hd.
  { intros x y Hxy. assert (∀ z n, distinct_keys (num (Some [z]) n)) as Hn by (intros; constructor; [done|constructor]).
    split; constructor; try (by repeat constructor); intros _; (split; [|by repeat constructor]);
      cbn [map string_]; (constructor; [|constructor; [|constructor]]); set_solver. }
  apply compare_is_value_equality; [by apply Hd|by apply Hd|simpl; lia].
Defined.

(** A key that occurs twice: an object and its copy differ. *)
Example compare_copy_of_duplicate_keys :
  cJSON_Compare 2 true (obj None [num (Some [97]) 1; num (Some [97]) 2]) (obj None [num (Some [97]) 1; num (Some [97]) 2]) = Ok false.
Proof. by vm_compute. Qed.
