(* ===== verification/CJsonClone.v ===== *)
(** * CJsonClone: cJSON_Duplicate makes a clone or nothing *)

From Stdlib Require Import Floats.SpecFloat.
From S2P Require Import Prelude CDouble CJson CJsonPrint CJsonRender CJsonRoundtrip CJsonOps.
#[local] Open Scope Z_scope.

Section clone.
Context `{CJsonHOk}.

(** The item with everything in it, references become owned. *)
Fixpoint clone (i : cJSON) : cJSON :=
  Item (Z.ldiff (type_ i) cJSON_IsReference) (valuestring i) (valueint i) (valuedouble i) (string_ i) (map clone (child i)).

(** A pure kind has no flag to clear. *)
Lemma kind_no_flag k : Z.land k 0xFF = k → Z.ldiff k cJSON_IsReference = k.
Proof.
  intros Hk. rewrite <- Hk at 1. rewrite <- Hk at 2. apply Z.bits_inj'. intros i Hi. rewrite Z.ldiff_spec, !Z.land_spec.
  destruct (Z.testbit 255 i) eqn:E; [|by rewrite !andb_false_r].
  assert (Z.testbit cJSON_IsReference i = false) as ->; [|by rewrite andb_true_r].
  destruct flags_high as [Hr _]. assert (Z.testbit (Z.land cJSON_IsReference 0xFF) i = false) as Hb by (rewrite Hr; apply Z.bits_0).
  rewrite Z.land_spec, E, andb_true_r in Hb. done.
Qed.

Lemma clone_canonical i : ∀ d, canonical d i → clone i = i.
Proof.
  induction i as [t vs vi x s ch IH] using cJSON_tree_ind. intros d Hc.
  assert (Z.land t 0xFF = t) as Ht.
  { pose proof kinds_low as Hlow. rewrite Forall_forall in Hlow. apply Hlow. inversion Hc; subst; set_solver. }
  assert (map clone ch = ch) as Hch.
  { inversion Hc; subst; try done; (assert (Forall (λ y, clone y = y) ch) as HF;
      [rewrite !Forall_forall in *; naive_solver|clear -HF; induction HF as [|y l E _ IHl]; [done|by cbn; rewrite E, IHl]]). }
  cbn [clone type_ valuestring valueint valuedouble string_ child]. by rewrite Hch, kind_no_flag.
Qed.
Context (alloc : nat → Z → bool).

(** [r] is [v], or nothing because an allocation failed. *)
Definition makes {A} (r : option A) (v : A) : Prop := (r = None ∧ ∃ k n, alloc k n = false) ∨ r = Some v.

Lemma dup_pointer_spec s constant n : ∃ r n', dup_pointer alloc s constant n = (r, n') ∧ makes r s.
Proof.
  unfold dup_pointer, cJSON_strdup. destruct s as [s|]; [|eexists _, _; split; [done|by right]].
  destruct constant; [eexists _, _; split; [done|by right]|]. destruct (alloc n _) eqn:E; eexists _, _; (split; [done|]); [by right|].
  left. eauto.
Qed.

Lemma duplicate_children_spec dup l :
  Forall (λ x, ∀ n, ∃ r n', dup x n = (r, n') ∧ makes r (clone x)) l →
  ∀ n, ∃ r n', duplicate_children dup l n = (r, n') ∧ makes r (map clone l).
Proof.
  induction 1 as [|x l Hx _ IH]; intros n; cbn [duplicate_children]; [eexists _, _; split; [done|by right]|].
  destruct (Hx n) as (r & n1 & -> & [[-> Hf]| ->]); [eexists _, _; split; [done|by left]|].
  destruct (IH n1) as (r2 & n2 & -> & [[-> Hf]| ->]); eexists _, _; (split; [done|]); [by left|by right].
Qed.

Lemma duplicate_makes item : ∀ n, ∃ r n', cJSON_Duplicate alloc true item n = (r, n') ∧ makes r (clone item).
Proof.
  induction item as [t vs vi d s ch IH] using cJSON_tree_ind. intros n. cbn [cJSON_Duplicate clone]. unfold cJSON_New_Item.
  destruct (alloc n sizeof_cJSON) eqn:E; [|eexists _, _; split; [done|left; eauto]]. cbn [type_ valuestring string_ child valueint valuedouble].
  destruct (dup_pointer_spec vs false (S n)) as (r1 & n1 & -> & [[-> Hf]| ->]); [eexists _, _; split; [done|by left]|].
  destruct (dup_pointer_spec s (negb (Z.land t cJSON_StringIsConst =? 0)) n1) as (r2 & n2 & -> & [[-> Hf]| ->]);
    [eexists _, _; split; [done|by left]|].
  cbn [negb]. destruct (duplicate_children_spec _ _ IH n2) as (r3 & n3 & -> & [[-> Hf]| ->]);
    eexists _, _; (split; [done|]); [by left|by right].
Qed.

End clone.

(** C20. [cJSON_Duplicate] with [recurse] is all or nothing: it returns [NULL] only when an
    allocation fails, and else the item with every descendant, value and key, owned instead
    of referenced.  The clone of an item the parser builds is that item; without [recurse]
    it is the item without children. *)
Theorem duplicate_clones `{CJsonHOk} (alloc : nat → Z → bool) (item : cJSON) (n : nat) :
  (∃ r n', cJSON_Duplicate alloc true item n = (r, n') ∧
     ((r = None ∧ ∃ k z, alloc k z = false) ∨ r = Some (clone item))) ∧
  (∀ d, canonical d item → clone item = item) ∧
  (∀ v n', cJSON_Duplicate alloc false item n = (Some v, n') → v = with_child (type_ (clone item)) [] (clone item)).
Proof.
  split; [apply duplicate_makes|]. split; [apply clone_canonical|]. intros v n'. destruct item as [t vs vi d s ch].
  cbn [cJSON_Duplicate type_ valuestring string_ child valueint valuedouble clone with_child]. unfold cJSON_New_Item.
  destruct (alloc n sizeof_cJSON); [|done].
  destruct (dup_pointer_spec alloc vs false (S n)) as (r1 & n1 & -> & [[-> _]| ->]); [done|].
  destruct (dup_pointer_spec alloc s (negb (Z.land t cJSON_StringIsConst =? 0)) n1) as (r2 & n2 & -> & [[-> _]| ->]); [done|].
  cbn [negb]. by intros [= <- _].
Qed.

Lemma duplicate_clones_witness :
  (∃ r n', cJSON_Duplicate (λ k _, Nat.ltb k 9) true sample_item 0%nat = (r, n') ∧
     ((r = None ∧ ∃ k z, (λ k (_ : Z), Nat.ltb k 9) k z = false) ∨ r = Some (clone sample_item))) ∧
  (∀ d, canonical d sample_item → clone sample_item = sample_item) ∧
  (∀ v n', cJSON_Duplicate (λ k _, Nat.ltb k 9) false sample_item 0%nat = (Some v, n') →
     v = with_child (type_ (clone sample_item)) [] (clone sample_item)).
Proof. apply (duplicate_clones (λ k _, Nat.ltb k 9)). Defined.
