(* ===== verification/CJsonMinify.v ===== *)
(** * CJsonMinify: cJSON_Minify, which compacts a text inside its own block

    The two pointers into the block, [json] that reads and [into] that writes, are offsets.
    The specification [strip] is a function of the text; the block ends as the stripped text
    and its NUL in front of what was there. *)

From S2P Require Import Prelude CDouble CJson CJsonPrint CJsonRender.
#[local] Open Scope Z_scope.

(** ** The code *)
Fixpoint skip_oneline_loop (fuel : nat) (b : list Z) (input : Z) : result Z :=
  match fuel with
  | O => OutOfFuel
  | S fuel =>
      c ← b.[input];
      if c =? 0 then Ok input
      else if c =? 10 then Ok (input + 1)
      else skip_oneline_loop fuel b (input + 1)
  end.

Definition skip_oneline_comment (b : list Z) (input : Z) : result Z :=
  skip_oneline_loop (S (length b)) b (input + 2).

Fixpoint skip_multiline_loop (fuel : nat) (b : list Z) (input : Z) : result Z :=
  match fuel with
  | O => OutOfFuel
  | S fuel =>
      c ← b.[input];
      if c =? 0 then Ok input else
      closes ← (if c =? 42 then d ← b.[input + 1]; Ok (d =? 47) else Ok false);
      if closes : bool then Ok (input + 2) else skip_multiline_loop fuel b (input + 1)
  end.

Definition skip_multiline_comment (b : list Z) (input : Z) : result Z :=
  skip_multiline_loop (S (length b)) b (input + 2).

(** The block, [*input] and [*output]. *)
Fixpoint minify_string_loop (fuel : nat) (b : list Z) (input output : Z) : result (list Z * Z * Z) :=
  match fuel with
  | O => OutOfFuel
  | S fuel =>
      c ← b.[input];
      if c =? 0 then Ok (b, input, output) else
      b ← b.[output := c];
      c ← b.[input];
      if c =? 34 then b ← b.[output := 34]; Ok (b, input + 1, output + 1) else
      quote ← (if c =? 92 then d ← b.[input + 1]; Ok (d =? 34) else Ok false);
      if quote : bool then
        d ← b.[input + 1];
        b ← b.[output + 1 := d];
        minify_string_loop fuel b (input + 1 + 1) (output + 1 + 1)
      else minify_string_loop fuel b (input + 1) (output + 1)
  end.

Definition minify_string (b : list Z) (input output : Z) : result (list Z * Z * Z) :=
  c ← b.[input];
  b ← b.[output := c];
  minify_string_loop (S (length b)) b (input + 1) (output + 1).

Definition blank_char (c : Z) : bool := (c =? 32) || (c =? 9) || (c =? 13) || (c =? 10).

(** The block and [into] at the end of the text. *)
Fixpoint minify_loop (fuel : nat) (b : list Z) (json into : Z) : result (list Z * Z) :=
  match fuel with
  | O => OutOfFuel
  | S fuel =>
      c ← b.[json];
      if c =? 0 then Ok (b, into)
      else if blank_char c then minify_loop fuel b (json + 1) into
      else if c =? 47 then
        d ← b.[json + 1];
        if d =? 47 then json ← skip_oneline_comment b json; minify_loop fuel b json into
        else if d =? 42 then json ← skip_multiline_comment b json; minify_loop fuel b json into
        else minify_loop fuel b (json + 1) into
      else if c =? 34 then '(b, json, into) ← minify_string b json into; minify_loop fuel b json into
      else b ← b.[into := c]; minify_loop fuel b (json + 1) (into + 1)
  end.

Definition cJSON_Minify (json : option (list Z)) : result (option (list Z)) :=
  match json with
  | None => Ok None
  | Some b =>
      '(b, into) ← minify_loop (S (length b)) b 0 0;
      b ← b.[into := 0]; Ok (Some b)
  end.

(** ** Specification: the text that is left, by what the reader is in *)
Inductive mode := Plain | Str | Line | Block.

Fixpoint strip (m : mode) (t : list Z) : list Z :=
  match t with
  | [] => []
  | c :: t' =>
      match m with
      | Plain =>
          if blank_char c then strip Plain t'
          else if c =? 47 then
            match t' with
            | d :: t'' => if d =? 47 then strip Line t'' else if d =? 42 then strip Block t'' else strip Plain t'
            | [] => []
            end
          else if c =? 34 then c :: strip Str t'
          else c :: strip Plain t'
      | Str =>
          if c =? 34 then c :: strip Plain t'
          else if c =? 92 then
            match t' with
            | d :: t'' => if d =? 34 then c :: d :: strip Str t'' else c :: strip Str t'
            | [] => [c]
            end
          else c :: strip Str t'
      | Line => if c =? 10 then strip Plain t' else strip Line t'
      | Block =>
          if c =? 42 then
            match t' with
            | d :: t'' => if d =? 47 then strip Plain t'' else strip Block t'
            | [] => []
            end
          else strip Block t'
      end
  end.

Lemma strip_le m t : (length (strip m t) ≤ length t)%nat.
Proof.
  enough (∀ n m t, length t < n → length (strip m t) ≤ length t)%nat as Hn by (apply (Hn (S (length t))); lia).
  clear m t; induction n as [|n IH]; intros m [|c t'] Hn; cbn [strip length] in *; try lia.
  assert (∀ m, (length (strip m t') ≤ length t')%nat) as H1 by (intros; apply IH; lia).
  destruct t' as [|d t'']; [destruct m; repeat case_match; simpl; lia|].
  assert (∀ m, (length (strip m t'') ≤ length t'')%nat) as H2 by (intros; apply IH; simpl in Hn; lia).
  pose proof (H1 Plain). pose proof (H1 Str). pose proof (H1 Line). pose proof (H1 Block).
  pose proof (H2 Plain). pose proof (H2 Str). pose proof (H2 Line). pose proof (H2 Block).
  destruct m; repeat case_match; cbn [length] in *; lia.
Qed.

(** ** The block while it is compacted: [out] is written, the rest as it was *)
Section block.
Context (b0 junk : list Z).

Definition work (out : list Z) : list Z := out ++ drop (length out) b0.

(** [t] and a NUL are left to read at [i]. *)
Definition remains (i : nat) (t : list Z) : Prop := drop i b0 = t ++ 0 :: junk ∧ Forall (λ c, c ≠ 0) t.

Lemma remains_cons i c t : remains i (c :: t) → remains (S i) t ∧ c ≠ 0 ∧ (i < length b0)%nat.
Proof.
  intros [E Hf]. apply Forall_cons in Hf as [? ?]. split; [|split; [done|]].
  - split; [|done]. change (S i) with (1 + i)%nat. rewrite Nat.add_comm, <- drop_drop, E. done.
  - apply (f_equal length) in E. rewrite length_drop in E. simpl in E. lia.
Qed.

Lemma load_at i out c r : (length out ≤ i)%nat → drop i b0 = c :: r → blk_load (work out) (Z.of_nat i) = Ok c.
Proof.
  intros Hi E. apply blk_load_Ok; [lia|]. unfold work. rewrite Nat2Z.id, lookup_app_r, lookup_drop by done.
  replace (length out + (i - length out))%nat with (i + 0)%nat by lia. by rewrite <- lookup_drop, E.
Qed.

Lemma load_text i out c t : (length out ≤ i)%nat → remains i (c :: t) → blk_load (work out) (Z.of_nat i) = Ok c.
Proof. intros Hi [E _]. by eapply load_at. Qed.

Lemma load_end i out : (length out ≤ i)%nat → remains i [] → blk_load (work out) (Z.of_nat i) = Ok 0.
Proof. intros Hi [E _]. by eapply load_at. Qed.

Lemma store_at out c : (length out < length b0)%nat → blk_store (work out) (Z.of_nat (length out)) c = Ok (work (out ++ [c])).
Proof.
  intros Hl. unfold blk_store, work. rewrite bool_decide_eq_true_2 by (rewrite length_app, length_drop; lia).
  rewrite Nat2Z.id. f_equal. destruct (drop (length out) b0) as [|d r] eqn:E; [apply (f_equal length) in E; rewrite length_drop in E; simpl in E; lia|].
  rewrite insert_app_r_alt, Nat.sub_diag by done. cbn [insert list_insert]. rewrite <- app_assoc, length_app. cbn [length].
  rewrite <- drop_drop, E. done.
Qed.

(** The byte just copied reads the same at its source. *)
Lemma load_copied i out c t : (length out ≤ i)%nat → remains i (c :: t) → blk_load (work (out ++ [c])) (Z.of_nat i) = Ok c.
Proof.
  intros Hi Hr. destruct (decide (length out = i)) as [<-|]; [|eapply load_text; [rewrite length_app; simpl; lia|done]].
  apply blk_load_Ok; [lia|]. unfold work. rewrite Nat2Z.id, <- app_assoc, lookup_app_r, Nat.sub_diag by done. done.
Qed.

Lemma next_is i out t x : (length out ≤ i)%nat → remains i t → x ≠ 0 →
  ∃ d, blk_load (work out) (Z.of_nat i) = Ok d ∧ (d =? x) = (if t is c :: _ then c =? x else false).
Proof.
  intros Hi Hr Hx. destruct t as [|c t]; [exists 0|exists c]; (split; [by eapply load_end || by eapply load_text|]); [|done].
  destruct (Z.eqb_spec 0 x); [congruence|done].
Qed.

Ltac step_nat := rewrite <- ?(Nat2Z.inj_add _ 1), ?Nat.add_1_r.

Lemma string_loop fuel : ∀ i out t, remains i t → (length out ≤ i)%nat → (length t < fuel)%nat →
  ∃ i' out' t', minify_string_loop fuel (work out) (Z.of_nat i) (Z.of_nat (length out)) =
    Ok (work out', Z.of_nat i', Z.of_nat (length out')) ∧ remains i' t' ∧ (length out' ≤ i')%nat ∧
    (length t' ≤ length t)%nat ∧ out ++ strip Str t = out' ++ strip Plain t'.
Proof.
  induction fuel as [|fuel IH]; intros i out t Hr Hi Hf; [lia|]. cbn [minify_string_loop].
  destruct t as [|c t]; [rewrite (load_end i out) by done; by exists i, out, []|].
  rewrite (load_text i out c t), ok_bind by done. destruct (remains_cons _ _ _ Hr) as (Hr' & Hc & Hlen).
  rewrite (proj2 (Z.eqb_neq c 0)) by done. rewrite store_at, ok_bind by lia. rewrite (load_copied i out c t), ok_bind by done.
  assert (length (out ++ [c]) = S (length out)) as Hl by (rewrite length_app; simpl; lia).
  assert (∀ z, Z.of_nat z + 1 = Z.of_nat (S z)) as HS by lia. simpl in Hf.
  assert (∃ i' out' t', minify_string_loop fuel (work (out ++ [c])) (Z.of_nat i + 1) (Z.of_nat (length out) + 1) =
    Ok (work out', Z.of_nat i', Z.of_nat (length out')) ∧ remains i' t' ∧ (length out' ≤ i')%nat ∧
    (length t' ≤ S (length t))%nat ∧ out ++ c :: strip Str t = out' ++ strip Plain t') as Hstep.
  { rewrite !HS, <- Hl. destruct (IH (S i) (out ++ [c]) t) as (i' & out' & t' & E & ? & ? & ? & Et); [done|lia|lia|].
    exists i', out', t'. split_and!; [done|done|done|lia|]. by rewrite <- Et, <- app_assoc. }
  cbn [strip length]. destruct (Z.eqb_spec c 34) as [->|Hq].
  - assert (blk_store (work (out ++ [34])) (Z.of_nat (length out)) 34 = Ok (work (out ++ [34]))) as ->.
    { unfold blk_store. rewrite bool_decide_eq_true_2 by (unfold work; rewrite !length_app, length_drop; simpl; lia).
      rewrite Nat2Z.id, list_insert_id; [done|]. unfold work. by rewrite <- app_assoc, lookup_app_r, Nat.sub_diag. }
    rewrite ok_bind, !HS, <- Hl. exists (S i), (out ++ [34]), t. split_and!; [done|done|lia|lia|]. by rewrite <- app_assoc.
  - destruct (Z.eqb_spec c 92) as [->|Hb]; [|exact Hstep]. rewrite !HS in Hstep |- *.
    destruct (next_is (S i) (out ++ [92]) t 34) as (d & Ed & Hd); [lia|done|done|]. rewrite Ed, !ok_bind, Hd, ?HS.
    destruct t as [|x t]; [exact Hstep|]. destruct (Z.eqb_spec x 34) as [->|]; [|exact Hstep].
    apply Z.eqb_eq in Hd as ->. destruct (remains_cons _ _ _ Hr') as (Hr2 & _ & Hlen2).
    rewrite <- Hl. rewrite store_at, ok_bind by lia.
    assert (length ((out ++ [92]) ++ [34]) = S (length (out ++ [92]))) as Hl2 by (rewrite length_app; simpl; lia).
    rewrite <- Hl2. simpl in Hf. destruct (IH (S (S i)) ((out ++ [92]) ++ [34]) t) as (i' & out' & t' & E & ? & ? & ? & Et); [done|lia|lia|].
    exists i', out', t'. split_and!; [done|done|done|simpl; lia|]. by rewrite <- Et, <- !app_assoc.
Qed.

Lemma oneline_loop fuel out : ∀ i t, remains i t → (length out ≤ i)%nat → (length t < fuel)%nat →
  ∃ i' t', skip_oneline_loop fuel (work out) (Z.of_nat i) = Ok (Z.of_nat i') ∧ remains i' t' ∧ (i ≤ i')%nat ∧
    (length t' ≤ length t)%nat ∧ strip Line t = strip Plain t'.
Proof.
  induction fuel as [|fuel IH]; intros i t Hr Hi Hf; [lia|]. cbn [skip_oneline_loop].
  destruct t as [|c t]; [rewrite (load_end i out) by done; by exists i, []|].
  rewrite (load_text i out c t), ok_bind by done. destruct (remains_cons _ _ _ Hr) as (Hr' & Hc & Hlen).
  rewrite (proj2 (Z.eqb_neq c 0)) by done. replace (Z.of_nat i + 1) with (Z.of_nat (S i)) by lia. simpl in Hf. cbn [strip length].
  destruct (c =? 10); [exists (S i), t; split_and!; done || lia|].
  destruct (IH (S i) t) as (i' & t' & ? & ? & ? & ? & ?); [done|lia|lia|]. exists i', t'. split_and!; done || lia.
Qed.

Lemma multiline_loop fuel out : ∀ i t, remains i t → (length out ≤ i)%nat → (length t < fuel)%nat →
  ∃ i' t', skip_multiline_loop fuel (work out) (Z.of_nat i) = Ok (Z.of_nat i') ∧ remains i' t' ∧ (i ≤ i')%nat ∧
    (length t' ≤ length t)%nat ∧ strip Block t = strip Plain t'.
Proof.
  induction fuel as [|fuel IH]; intros i t Hr Hi Hf; [lia|]. cbn [skip_multiline_loop].
  destruct t as [|c t]; [rewrite (load_end i out) by done; by exists i, []|].
  rewrite (load_text i out c t), ok_bind by done. destruct (remains_cons _ _ _ Hr) as (Hr' & Hc & Hlen).
  rewrite (proj2 (Z.eqb_neq c 0)) by done. replace (Z.of_nat i + 1) with (Z.of_nat (S i)) by lia. simpl in Hf. cbn [strip length].
  assert (∃ i' t', skip_multiline_loop fuel (work out) (Z.of_nat (S i)) = Ok (Z.of_nat i') ∧ remains i' t' ∧ (i ≤ i')%nat ∧
    (length t' ≤ S (length t))%nat ∧ strip Block t = strip Plain t') as Hstep.
  { destruct (IH (S i) t) as (i' & t' & ? & ? & ? & ? & ?); [done|lia|lia|]. exists i', t'. split_and!; done || lia. }
  destruct (c =? 42); [|exact Hstep]. destruct (next_is (S i) out t 47) as (d & -> & Hd); [lia|done|done|].
  rewrite !ok_bind, Hd. destruct t as [|x t]; [exact Hstep|]. destruct (x =? 47); [|exact Hstep].
  destruct (remains_cons _ _ _ Hr') as (Hr2 & _). exists (S (S i)), t. split_and!; [f_equal; lia|done|lia|simpl; lia|done].
Qed.

Lemma length_work out : (length out ≤ length b0)%nat → length (work out) = length b0.
Proof. intros. unfold work. rewrite length_app, length_drop. lia. Qed.

Lemma remains_length i t : remains i t → (i + length t < length b0)%nat.
Proof. intros [E _]. apply (f_equal length) in E. rewrite length_drop, length_app in E. simpl in E. lia. Qed.

(** The whole loop: what is written is the stripped text. *)
Lemma minify_loop_spec fuel : ∀ i out t, remains i t → (length out ≤ i)%nat → (length t < fuel)%nat →
  minify_loop fuel (work out) (Z.of_nat i) (Z.of_nat (length out)) =
    Ok (work (out ++ strip Plain t), Z.of_nat (length (out ++ strip Plain t))) ∧ (length (strip Plain t) ≤ length t)%nat.
Proof.
  induction fuel as [|fuel IH]; intros i out t Hr Hi Hf; [lia|]. cbn [minify_loop].
  destruct t as [|c t]; [rewrite (load_end i out) by done; cbn [strip]; rewrite app_nil_r; split; [done|simpl; lia]|].
  rewrite (load_text i out c t), ok_bind by done. destruct (remains_cons _ _ _ Hr) as (Hr' & Hc & Hlen).
  rewrite (proj2 (Z.eqb_neq c 0)) by done. assert (∀ z, Z.of_nat z + 1 = Z.of_nat (S z)) as HS by lia. rewrite !HS.
  pose proof (remains_length _ _ Hr) as Hrl. simpl in Hf, Hrl. cbn [strip length]. assert (∀ t', (length t' ≤ length t)%nat → ∀ i', remains i' t' →
    (length out ≤ i')%nat → minify_loop fuel (work out) (Z.of_nat i') (Z.of_nat (length out)) =
      Ok (work (out ++ strip Plain t'), Z.of_nat (length (out ++ strip Plain t'))) ∧ (length (strip Plain t') ≤ S (length t))%nat) as Hgo.
  { intros t' Ht i' Hr2 Hi2. destruct (IH i' out t' Hr2 Hi2) as [-> ?]; [lia|]. split; [done|lia]. }
  destruct (blank_char c); [apply Hgo; done || lia|]. destruct (Z.eqb_spec c 47) as [->|Hs].
  { destruct (next_is (S i) out t 47) as (d & Ed & Hd); [lia|done|done|]. rewrite Ed, ok_bind, Hd.
    destruct (next_is (S i) out t 42) as (d' & Ed' & Hd'); [lia|done|done|]. assert (d' = d) as -> by congruence. rewrite Hd'.
    destruct t as [|x t]; [by apply (Hgo []); [|done|lia]|].
    destruct (remains_cons _ _ _ Hr') as (Hr2 & _ & _). unfold skip_oneline_comment, skip_multiline_comment.
    replace (Z.of_nat i + 2) with (Z.of_nat (S (S i))) by lia. rewrite length_work by lia. simpl in Hrl. destruct (x =? 47).
    - destruct (oneline_loop (S (length b0)) out (S (S i)) t) as (i' & t' & -> & ? & ? & ? & ->); [done|lia|lia|].
      rewrite ok_bind. apply Hgo; [simpl; lia|done|lia].
    - destruct (x =? 42); [|by apply Hgo; [|done|lia]].
      destruct (multiline_loop (S (length b0)) out (S (S i)) t) as (i' & t' & -> & ? & ? & ? & ->); [done|lia|lia|].
      rewrite ok_bind. apply Hgo; [simpl; lia|done|lia]. }
  assert (length (out ++ [c]) = S (length out)) as Hl by (rewrite length_app; simpl; lia).
  destruct (Z.eqb_spec c 34) as [->|Hq].
  - unfold minify_string. rewrite (load_text i out 34 t), ok_bind by done. rewrite store_at, ok_bind, !HS, <- Hl by lia.
    rewrite length_work by lia. destruct (string_loop (S (length b0)) (S i) (out ++ [34]) t) as (i' & out' & t' & -> & Hr2 & ? & ? & Et); [done|lia|lia|].
    rewrite ok_bind. destruct (IH i' out' t') as [-> Hle]; [done|done|lia|].
    replace (out ++ 34 :: strip Str t) with (out' ++ strip Plain t') by (by rewrite <- Et, <- app_assoc). split; [done|].
    pose proof (strip_le Str t). simpl; lia.
  - rewrite store_at, ok_bind, <- Hl by lia. destruct (IH (S i) (out ++ [c]) t) as [-> ?]; [done|lia|lia|].
    rewrite <- app_assoc. split; [done|simpl; lia].
Qed.
End block.

(** ** The text of an item without its layout

    [erases t t']: at any place outside strings, stripping [t] leaves [t']. *)
Definition erases (t t' : list Z) : Prop := ∀ rest, strip Plain (t ++ rest) = t' ++ strip Plain rest.

Lemma erases_nil : erases [] [].
Proof. intros rest. done. Qed.

Lemma erases_app t1 t1' t2 t2' : erases t1 t1' → erases t2 t2' → erases (t1 ++ t2) (t1' ++ t2').
Proof. intros H1 H2 rest. by rewrite <- app_assoc, H1, H2, app_assoc. Qed.

Lemma erases_blank t : Forall (λ c, blank_char c = true) t → erases t [].
Proof. intros Ht rest. induction Ht as [|c t Hc _ IH]; [done|]. cbn [strip app]. by rewrite Hc. Qed.

Definition kept (c : Z) : Prop := 32 < c ∧ c ≠ 34 ∧ c ≠ 47.

Lemma erases_kept t : Forall kept t → erases t t.
Proof.
  intros Ht rest. induction Ht as [|c t Hc _ IH]; [done|]. cbn [strip app]. unfold kept in Hc. unfold blank_char.
  by repeat (rewrite (proj2 (Z.eqb_neq c _)) by lia; cbn [orb]); rewrite IH.
Qed.

(** A backslash in front of the closing quote would hide it. *)
Definition no_final_backslash (s : option (list Z)) : Prop := last (default [] s) ≠ Some 92.

Lemma escape_kept c rest : 0 < c < 256 → (c = 92 → head rest ≠ Some 34) →
  strip Str (escape_text c ++ rest) = escape_text c ++ strip Str rest.
Proof.
  intros Hc Hb. assert (∀ x l, x ≠ 34 → x ≠ 92 → strip Str (x :: l) = x :: strip Str l) as Hone.
  { intros x l H1 H2. cbn [strip]. by rewrite (proj2 (Z.eqb_neq _ _) H1), (proj2 (Z.eqb_neq _ _) H2). }
  assert (∀ x l, x ≠ 34 → strip Str (92 :: x :: l) = 92 :: strip Str (x :: l)) as Hesc.
  { intros x l Hx. cbn [strip]. by rewrite (proj2 (Z.eqb_neq x 34) Hx). }
  assert (∀ d, 0 ≤ d → hex_char d ≠ 34 ∧ hex_char d ≠ 92 ∨ 15 < d) as Hhex by (intros d Hd; unfold hex_char; case_match; lia).
  unfold escape_text. destruct (Z.eqb_spec c 34) as [->|H1]; [done|]. destruct (Z.eqb_spec c 92) as [->|H2]; cbn [orb app].
  - rewrite Hesc by done. cbn [strip]. cbn. destruct rest as [|d r]; [done|]. specialize (Hb eq_refl). cbn in Hb.
    rewrite (proj2 (Z.eqb_neq d 34)) by congruence. done.
  - repeat (case_match; [cbn [app]; by rewrite Hesc, Hone by done|]). destruct (Z.ltb_spec c 32); cbn [app]; [|by rewrite Hone].
    destruct (Hhex (c / 16)) as [[? ?]|?]; [apply Z.div_pos; lia| |pose proof (Z.div_lt_upper_bound c 16 16); lia].
    destruct (Hhex (c mod 16)) as [[? ?]|?]; [apply Z.mod_pos_bound; lia| |pose proof (Z.mod_pos_bound c 16); lia].
    by rewrite Hesc, !Hone by done.
Qed.

Lemma escape_head c l : 0 < c < 256 → head (escape_text c ++ l) ≠ Some 34.
Proof. intros Hc. unfold escape_text. repeat case_match; cbn; try done. intros [= ->]. done. Qed.

Lemma flat_escape_kept s : ∀ rest, cstring s → last s ≠ Some 92 →
  strip Str (flat_map escape_text s ++ 34 :: rest) = flat_map escape_text s ++ 34 :: strip Plain rest.
Proof.
  induction s as [|c s IH]; intros rest Hs Hl; [done|]. apply Forall_cons in Hs as [Hc Hs]. cbn [flat_map].
  rewrite <- !app_assoc. rewrite escape_kept; [|done|].
  - rewrite IH; [done|done|]. destruct s; [done|exact Hl].
  - intros ->. destruct s as [|x s]; [done|]. apply Forall_cons in Hs as [Hx _]. cbn [flat_map]. rewrite <- app_assoc. by apply escape_head.
Qed.

Lemma erases_string s : opt_cstring s → no_final_backslash s → erases (render_string s) (render_string s).
Proof.
  intros Hs Hl rest. unfold render_string. rewrite <- !app_assoc. cbn [app strip]. cbn. f_equal.
  apply flat_escape_kept; [destruct s; [done|constructor]|exact Hl].
Qed.

(** No raw text, and no string or key that ends in a backslash. *)
Inductive minifiable `{CJsonH} : cJSON → Prop :=
  Minifiable t vs n d s ch : Z.land t 0xFF ≠ cJSON_Raw → no_final_backslash vs → no_final_backslash s →
    Forall minifiable ch → minifiable (Item t vs n d s ch).

Lemma erases_list (r r' : cJSON → option (list Z)) sep sep' l :
  (∀ b, erases (sep b) (sep' b)) → Forall (λ x, ∀ t, r x = Some t → ∃ t', r' x = Some t' ∧ erases t t') l →
  ∀ ts, render_list r sep l = Some ts → ∃ ts', render_list r' sep' l = Some ts' ∧ erases ts ts'.
Proof.
  intros Hsep. induction 1 as [|x l Hx _ IH]; intros ts; cbn [render_list]; [intros [= <-]; eexists; split; [done|apply erases_nil]|].
  destruct (r x) as [t|]; [|done]. destruct (Hx t) as (t' & -> & Ht); [done|]. cbn [mbind option_bind].
  destruct (render_list r sep l) as [ts0|]; [|done]. destruct (IH ts0) as (ts' & -> & Hts); [done|]. intros [= <-]. eexists. split; [done|].
  apply erases_app; [done|]. by apply erases_app.
Qed.

Lemma render_erases `{CJsonH} i : wf_item i → minifiable i → ∀ d d' t, render true d i = Some t →
  ∃ t', render false d' i = Some t' ∧ erases t t'.
Proof.
  induction i as [ty vs n x s ch IH] using cJSON_tree_ind. intros Hwf Hm d d' t.
  inversion Hwf as [? ? ? ? ? ? Hvs Hx Hs Hch]; subst. inversion Hm as [? ? ? ? ? ? Hraw Hb Hbs Hmch]; subst.
  assert (Forall (λ y, ∀ d d' t, render true d y = Some t → ∃ t', render false d' y = Some t' ∧ erases t t') ch) as Hall.
  { rewrite !Forall_forall in *. intros y Hy. apply IH; [done|by apply Hch|by apply Hmch]. }
  assert (Forall (λ y, erases (render_string (string_ y)) (render_string (string_ y))) ch) as Hkeys.
  { rewrite !Forall_forall in *. intros y Hy. specialize (Hch y Hy). specialize (Hmch y Hy). inversion Hch; subst. inversion Hmch; subst. by apply erases_string. }
  clear IH Hwf Hm Hch Hmch. assert (∀ c, kept c → erases [c] [c]) as Hc1 by (intros; apply erases_kept; by constructor).
  assert (∀ n, erases (tabs n) []) as Htabs by (intros; apply erases_blank; by apply Forall_replicate).
  cbn [render type_ valuestring valuedouble child]. set (k := Z.land ty 0xFF) in *.
  assert (∀ l, Forall kept l → ∀ t, Some l = Some t → ∃ t', Some l = Some t' ∧ erases t t') as Hlit.
  { intros l Hl t0 [= <-]. eexists. split; [done|]. by apply erases_kept. }
  do 3 (case_match; [apply Hlit; by repeat constructor|]). case_match.
  { apply Hlit. eapply Forall_impl; [by apply number_text_bounds|]. unfold text_char, kept. lia. }
  destruct (Z.eqb_spec k cJSON_Raw); [done|]. case_match; [intros [= <-]; eexists; split; [done|by apply erases_string]|].
  case_match; [|case_match; [|done]].
  - intros E. destruct (render_list (render true (d + 1)) _ ch) as [ts|] eqn:Ets; [|done]. injection E as <-.
    destruct (erases_list (render true (d + 1)) (render false (d' + 1)) (array_sep true) (array_sep false) ch) with (3 := Ets) as (ts' & -> & Hts).
    { intros []; [apply erases_nil|]. apply erases_app; [by apply Hc1|by apply erases_blank; repeat constructor]. }
    { eapply Forall_impl; [exact Hall|]. intros y Hy t1. apply Hy. }
    eexists. split; [done|]. apply (erases_app [91] [91]); [by apply Hc1|]. apply erases_app; [done|by apply Hc1].
  - intros E. destruct (render_list _ _ ch) as [ts|] eqn:Ets; [|done]. injection E as <-.
    destruct (erases_list (member_text true (d + 1)) (member_text false (d' + 1)) (member_sep true) (member_sep false) ch) with (3 := Ets) as (ts' & Ets' & Hts).
    { intros b. unfold member_sep. destruct b; repeat apply erases_app; first [by apply Hc1|by apply erases_blank; repeat constructor|apply erases_nil]. }
    { rewrite Forall_forall in *. intros y Hy t1. unfold member_text.
      destruct (render true (d + 1) y) as [ty1|] eqn:Ey; [|done]. destruct (Hall y Hy _ (d' + 1) _ Ey) as (t2 & -> & Ht2).
      intros <-%(inj Some). eexists. split; [done|]. apply (erases_app (tabs (d + 1)) []); [apply Htabs|].
      apply (erases_app (render_string (string_ y)) (render_string (string_ y))); [by apply Hkeys|].
      apply (erases_app [58] [58]); [by apply Hc1|]. by apply (erases_app [9] []); [apply erases_blank; repeat constructor|]. }
    unfold member_text in Ets'. rewrite Ets'.
    eexists. split; [done|]. apply (erases_app [123] [123]); [by apply Hc1|]. apply (erases_app [10] []); [by apply erases_blank; repeat constructor|].
    apply erases_app; [done|]. apply (erases_app _ []); [apply Htabs|by apply Hc1].
Qed.

(** Any text and what its block becomes. *)
Lemma minify_run t junk : Forall (λ c, c ≠ 0) t →
  cJSON_Minify (Some (t ++ 0 :: junk)) =
    Ok (Some (strip Plain t ++ 0 :: drop (S (length (strip Plain t))) (t ++ 0 :: junk))).
Proof.
  intros Ht. set (b := t ++ 0 :: junk). unfold cJSON_Minify. assert (remains b junk 0 t) as Hr by (by split).
  destruct (minify_loop_spec b junk (S (length b)) 0 [] t Hr) as [E Hle]; [done|unfold b; rewrite length_app; lia|].
  assert (work b [] = b) as Hw by done. cbn [length app] in E. rewrite Hw in E. change (Z.of_nat 0) with 0 in E. rewrite E, ok_bind.
  pose proof (remains_length _ _ _ _ Hr) as Hl. rewrite store_at, ok_bind by lia. unfold work. rewrite length_app. cbn [length].
  by rewrite <- app_assoc, Nat.add_1_r.
Qed.

(** C29. [cJSON_Minify] returns on every NUL-terminated text, reads nothing behind the NUL
    and writes nothing outside the text: the block ends as the text stripped of its blanks
    and comments, a NUL and the old bytes behind it. *)
Theorem minify_strips (t junk : list Z) : Forall (λ c, c ≠ 0) t →
  cJSON_Minify (Some (t ++ 0 :: junk)) =
    Ok (Some (strip Plain t ++ 0 :: drop (S (length (strip Plain t))) (t ++ 0 :: junk))) ∧
  (length (strip Plain t) ≤ length t)%nat.
Proof. split; [by apply minify_run|apply strip_le]. Qed.

(** [[1,//x] and a line with [" /"]] *)
Lemma minify_strips_witness :
  cJSON_Minify (Some ([91; 49; 44; 47; 47; 120; 10; 32; 34; 32; 47; 34; 93] ++ 0 :: [7])) =
    Ok (Some (strip Plain [91; 49; 44; 47; 47; 120; 10; 32; 34; 32; 47; 34; 93] ++ 0 ::
      drop (S (length (strip Plain [91; 49; 44; 47; 47; 120; 10; 32; 34; 32; 47; 34; 93])))
        ([91; 49; 44; 47; 47; 120; 10; 32; 34; 32; 47; 34; 93] ++ 0 :: [7]))) ∧
  (length (strip Plain [91; 49; 44; 47; 47; 120; 10; 32; 34; 32; 47; 34; 93]%Z) ≤ 13)%nat.
Proof. apply minify_strips. by repeat constructor. Defined.

(** C18. Minifying what [cJSON_Print] returns gives what [cJSON_PrintUnformatted] returns, with two
    exceptions that [minifiable] names: an item of the kind [cJSON_Raw], whose text is printed
    as it is and may hold blanks or comments of its own, and a string or a name that ends in a
    backslash. *)
Theorem minify_of_print `{CJsonH} (alloc alloc' : nat → Z → bool) (junk junk' : Z) (has_realloc : bool) (item : cJSON)
  (formatted unformatted : list Z) :
  wf_item item → minifiable item →
  print alloc junk has_realloc item true = Ok (Some formatted) →
  print alloc' junk' has_realloc item false = Ok (Some unformatted) →
  ∃ old, cJSON_Minify (Some formatted) = Ok (Some (unformatted ++ old)).
Proof.
  intros Hwf Hm E1 E2. destruct (print_spec alloc junk has_realloc item true Hwf) as (r1 & E1' & H1).
  rewrite E1 in E1'. injection E1' as <-. destruct H1 as (t & Ht & ->).
  destruct (print_spec alloc' junk' has_realloc item false Hwf) as (r2 & E2' & H2).
  rewrite E2 in E2'. injection E2' as <-. destruct H2 as (t' & Ht' & ->).
  destruct (render_erases item Hwf Hm 0 0 t Ht) as (t2 & Ht2 & He). assert (t2 = t') as -> by congruence.
  assert (strip Plain t = t') as Es. { specialize (He []). cbn [strip] in He. by rewrite !app_nil_r in He. }
  rewrite minify_run, Es; [eexists; by rewrite <- app_assoc|].
  eapply Forall_impl; [by eapply render_pos|]. cbn. lia.
Qed.

(** [[" ", null]] *)
Definition layout_item : cJSON :=
  Item cJSON_Array None 0 (Floats.SpecFloat.S754_zero false) None
    [Item cJSON_String (Some [32]) 0 (Floats.SpecFloat.S754_zero false) None [];
     Item cJSON_NULL None 0 (Floats.SpecFloat.S754_zero false) None []].

Lemma minify_of_print_witness :
  ∃ old, cJSON_Minify (Some [91; 34; 32; 34; 44; 32; 110; 117; 108; 108; 93; 0]) =
    Ok (Some ([91; 34; 32; 34; 44; 110; 117; 108; 108; 93; 0] ++ old)).
Proof.
  apply (minify_of_print (λ _ _, true) (λ _ _, true) 170 7 false layout_item); [..|by vm_compute|by vm_compute];
    repeat constructor; done.
Defined.

(** A string that ends in a backslash hides its closing quote: the blank in the next string
    is lost.  The text is [["\\","a b"]]. *)
Example minify_loses_blank :
  cJSON_Minify (Some [91; 34; 92; 92; 34; 44; 34; 97; 32; 98; 34; 93; 0]) =
    Ok (Some [91; 34; 92; 92; 34; 44; 34; 97; 98; 34; 93; 0; 0]).
Proof. by vm_compute. Qed.
