(* ===== verification/CJsonTree.v ===== *)
(** * CJsonTree: the item trees of cJSON.c in memory, and the functions that edit them

    Items are nodes of a heap, linked by [next], [prev] and [child] as in the code, and each
    function reads and assigns these fields in the order of the code.  Strings stay values,
    so freeing one is no step, and a name passed to a function is no part of an item.  The
    functions that allocate take the number of allocations made so far. *)

From Stdlib Require Import Floats.SpecFloat.
From S2P Require Import Prelude CDouble CJson CJsonPrint CJsonOps.
#[local] Open Scope Z_scope.

(** ** Memory *)
Abbreviation cptr := (option nat).

Record node := mk_node {
  next : cptr;
  prev : cptr;
  nd_child : cptr;
  nd_type : Z;
  nd_valuestring : option (list Z);
  nd_valueint : Z;
  nd_valuedouble : double;
  nd_string : option (list Z)
}.

Abbreviation cheap := (gmap nat node).

Definition set_next (p : cptr) n := mk_node p (prev n) (nd_child n) (nd_type n) (nd_valuestring n) (nd_valueint n) (nd_valuedouble n) (nd_string n).
Definition set_prev (p : cptr) n := mk_node (next n) p (nd_child n) (nd_type n) (nd_valuestring n) (nd_valueint n) (nd_valuedouble n) (nd_string n).
Definition set_child (p : cptr) n := mk_node (next n) (prev n) p (nd_type n) (nd_valuestring n) (nd_valueint n) (nd_valuedouble n) (nd_string n).
Definition set_type (t : Z) n := mk_node (next n) (prev n) (nd_child n) t (nd_valuestring n) (nd_valueint n) (nd_valuedouble n) (nd_string n).
Definition set_string (s : option (list Z)) n := mk_node (next n) (prev n) (nd_child n) (nd_type n) (nd_valuestring n) (nd_valueint n) (nd_valuedouble n) s.

(** Reading a field and assigning one; a pointer that is null or outside the heap is undefined. *)
Definition rd {A} (f : node → A) (h : cheap) (p : cptr) : result A :=
  q ← of_opt p; n ← of_opt (h !! q); Ok (f n).
Definition wr (f : node → node) (h : cheap) (p : cptr) : result cheap :=
  q ← of_opt p; n ← of_opt (h !! q); Ok (<[q := f n]> h).
Definition free (h : cheap) (p : cptr) : result cheap :=
  q ← of_opt p; _ ← of_opt (h !! q); Ok (delete q h).

(** Loops that follow [next] visit every node at most once. *)
Definition chain_fuel (h : cheap) : nat := S (size h).

Section tree.
Context `{CJsonH} (alloc : nat → Z → bool).

(** A leaf in a new node. *)
Definition leaf (i : cJSON) : node :=
  mk_node None None None (type_ i) (valuestring i) (valueint i) (valuedouble i) (string_ i).

(** [constant]: the flag [cJSON_StringIsConst]; [reference]: [cJSON_IsReference]. *)
Definition is_ref (t : Z) : bool := negb (Z.land t cJSON_IsReference =? 0).

(** ** cJSON_Delete *)
Fixpoint delete_loop (fuel : nat) (h : cheap) (item : cptr) : result cheap :=
  match fuel with
  | O => OutOfFuel
  | S fuel =>
      match item with
      | None => Ok h
      | Some _ =>
          next ← rd next h item;
          t ← rd nd_type h item;
          c ← rd nd_child h item;
          h ← (if negb (is_ref t) && bool_decide (c ≠ None) then delete_loop fuel h c else Ok h);
          h ← free h item;
          delete_loop fuel h next
      end
  end.

Definition cJSON_Delete (h : cheap) (item : cptr) : result cheap := delete_loop (chain_fuel h) h item.

(** ** Reading a container *)
Fixpoint size_loop (fuel : nat) (h : cheap) (child : cptr) (size : Z) : result Z :=
  match fuel with
  | O => OutOfFuel
  | S fuel =>
      match child with
      | None => Ok size
      | Some _ => c ← rd next h child; size_loop fuel h c (u64 (size + 1))
      end
  end.

Definition cJSON_GetArraySize (h : cheap) (array : cptr) : result Z :=
  match array with
  | None => Ok 0
  | Some _ => child ← rd nd_child h array; size ← size_loop (chain_fuel h) h child 0; Ok (s32 size)
  end.

Fixpoint item_loop (index : nat) (h : cheap) (current_child : cptr) : result cptr :=
  match current_child, index with
  | None, _ | _, O => Ok current_child
  | Some _, S index => c ← rd next h current_child; item_loop index h c
  end.

Definition get_array_item (h : cheap) (array : cptr) (index : Z) : result cptr :=
  match array with
  | None => Ok None
  | Some _ => child ← rd nd_child h array; item_loop (Z.to_nat index) h child
  end.

Definition cJSON_GetArrayItem (h : cheap) (array : cptr) (index : Z) : result cptr :=
  if index <? 0 then Ok None else get_array_item h array index.

(** The two loops of [get_object_item] stop at a key that matches, the first one also where
    there is no key. *)
Fixpoint object_item_loop (fuel : nat) (h : cheap) (name : list Z) (case_sensitive : bool) (current : cptr) : result cptr :=
  match fuel with
  | O => OutOfFuel
  | S fuel =>
      match current with
      | None => Ok None
      | Some _ =>
          s ← rd nd_string h current;
          let go_on := if case_sensitive
            then match s with None => false | Some s => negb (bool_decide (name = s)) end
            else negb (case_insensitive_strcmp (Some name) s =? 0) in
          if go_on then c ← rd next h current; object_item_loop fuel h name case_sensitive c
          else Ok (match s with None => None | Some _ => current end)
      end
  end.

Definition object_item (h : cheap) (object : cptr) (name : option (list Z)) (case_sensitive : bool) : result cptr :=
  match object, name with
  | Some _, Some name =>
      child ← rd nd_child h object; object_item_loop (chain_fuel h) h name case_sensitive child
  | _, _ => Ok None
  end.

Definition cJSON_GetObjectItem (h : cheap) (object : cptr) (string : option (list Z)) := object_item h object string false.
Definition cJSON_GetObjectItemCaseSensitive (h : cheap) (object : cptr) (string : option (list Z)) := object_item h object string true.
Definition cJSON_HasObjectItem (h : cheap) (object : cptr) (string : option (list Z)) : result bool :=
  p ← cJSON_GetObjectItem h object string; Ok (bool_decide (p ≠ None)).

(** ** Adding *)
Definition suffix_object (h : cheap) (prev item : cptr) : result cheap :=
  h ← wr (set_next item) h prev;
  wr (set_prev prev) h item.

(** The new node is at an address not in use. *)
Definition create_reference (h : cheap) (item : cptr) (n : nat) : result (cptr * cheap * nat) :=
  match item with
  | None => Ok (None, h, n)
  | Some _ =>
      if alloc n sizeof_cJSON then
        i ← rd (λ i, i) h item;
        let reference := set_prev None (set_next None (set_type (Z.lor (nd_type i) cJSON_IsReference) (set_string None i))) in
        let p := fresh (dom h) in Ok (Some p, <[p := reference]> h, S n)
      else Ok (None, h, S n)
  end.

Fixpoint last_loop (fuel : nat) (h : cheap) (child : cptr) : result cptr :=
  match fuel with
  | O => OutOfFuel
  | S fuel =>
      c ← rd next h child;
      match c with None => Ok child | Some _ => last_loop fuel h c end
  end.

Definition add_item_to_array (h : cheap) (array item : cptr) : result (bool * cheap) :=
  if bool_decide (item = None) || bool_decide (array = None) || bool_decide (array = item) then Ok (false, h) else
  child ← rd nd_child h array;
  match child with
  | None =>
      h ← wr (set_child item) h array;
      h ← wr (set_prev item) h item;
      h ← wr (set_next None) h item;
      Ok (true, h)
  | Some _ =>
      p ← rd prev h child;
      tail ← (match p with Some _ => Ok p | None => last_loop (chain_fuel h) h child end);
      h ← suffix_object h tail item;
      first ← rd nd_child h array;
      h ← wr (set_prev item) h first;
      Ok (true, h)
  end.

Definition cJSON_AddItemToArray := add_item_to_array.

Definition add_item_to_object (h : cheap) (object : cptr) (string : option (list Z)) (item : cptr) (constant_key : bool) (n : nat)
  : result (bool * cheap * nat) :=
  match object, string, item with
  | Some _, Some _, Some _ =>
      if bool_decide (object = item) then Ok (false, h, n) else
      let '(new_key, n) := if constant_key then (string, n) else cJSON_strdup alloc string n in
      match new_key with
      | None => Ok (false, h, n)
      | Some _ =>
          t ← rd nd_type h item;
          let new_type := if constant_key then Z.lor t cJSON_StringIsConst else Z.ldiff t cJSON_StringIsConst in
          h ← wr (set_string new_key) h item;
          h ← wr (set_type new_type) h item;
          '(ok, h) ← add_item_to_array h object item;
          Ok (ok, h, n)
      end
  | _, _, _ => Ok (false, h, n)
  end.

Definition cJSON_AddItemToObject h object string item n := add_item_to_object h object string item false n.
Definition cJSON_AddItemToObjectCS h object string item n := add_item_to_object h object string item true n.

Definition cJSON_AddItemReferenceToArray (h : cheap) (array item : cptr) (n : nat) : result (bool * cheap * nat) :=
  match array with
  | None => Ok (false, h, n)
  | Some _ =>
      '(r, h, n) ← create_reference h item n;
      '(ok, h) ← add_item_to_array h array r;
      Ok (ok, h, n)
  end.

Definition cJSON_AddItemReferenceToObject (h : cheap) (object : cptr) (string : option (list Z)) (item : cptr) (n : nat)
  : result (bool * cheap * nat) :=
  match object, string with
  | Some _, Some _ =>
      '(r, h, n) ← create_reference h item n;
      add_item_to_object h object string r false n
  | _, _ => Ok (false, h, n)
  end.

(** [cJSON_Add...ToObject]: a new item, deleted again when it cannot be added. *)
Definition add_created (create : maker cJSON) (h : cheap) (object : cptr) (name : option (list Z)) (n : nat)
  : result (cptr * cheap * nat) :=
  let '(i, n) := create n in
  let '(p, h) := match i with
                 | None => (None, h)
                 | Some i => let p := fresh (dom h) in (Some p, <[p := leaf i]> h)
                 end in
  '(ok, h, n) ← add_item_to_object h object name p false n;
  if ok : bool then Ok (p, h, n) else h ← cJSON_Delete h p; Ok (None, h, n).

Definition cJSON_AddNullToObject := add_created (cJSON_CreateNull alloc).
Definition cJSON_AddTrueToObject := add_created (cJSON_CreateTrue alloc).
Definition cJSON_AddFalseToObject := add_created (cJSON_CreateFalse alloc).
Definition cJSON_AddBoolToObject (boolean : bool) := add_created (cJSON_CreateBool alloc boolean).
Definition cJSON_AddNumberToObject (number : double) := add_created (cJSON_CreateNumber alloc number).
Definition cJSON_AddStringToObject (string : option (list Z)) := add_created (cJSON_CreateString alloc string).
Definition cJSON_AddRawToObject (raw : option (list Z)) := add_created (cJSON_CreateRaw alloc raw).
Definition cJSON_AddObjectToObject := add_created (cJSON_CreateObject alloc).
Definition cJSON_AddArrayToObject := add_created (cJSON_CreateArray alloc).

(** ** Detaching *)
Definition cJSON_DetachItemViaPointer (h : cheap) (parent item : cptr) : result (cptr * cheap) :=
  if bool_decide (parent = None) || bool_decide (item = None) then Ok (None, h) else
  first ← rd nd_child h parent;
  h ← (if bool_decide (item ≠ first) then
         p ← rd prev h item; x ← rd next h item; wr (set_next x) h p
       else Ok h);
  x ← rd next h item;
  h ← (if bool_decide (x ≠ None) then p ← rd prev h item; wr (set_prev p) h x else Ok h);
  first ← rd nd_child h parent;
  h ← (if bool_decide (item = first) then
         x ← rd next h item; wr (set_child x) h parent
       else
         x ← rd next h item;
         if bool_decide (x = None) then
           p ← rd prev h item; first ← rd nd_child h parent; wr (set_prev p) h first
         else Ok h);
  h ← wr (set_prev None) h item;
  h ← wr (set_next None) h item;
  Ok (item, h).

Definition cJSON_DetachItemFromArray (h : cheap) (array : cptr) (which : Z) : result (cptr * cheap) :=
  if which <? 0 then Ok (None, h) else
  item ← get_array_item h array which;
  cJSON_DetachItemViaPointer h array item.

Definition cJSON_DeleteItemFromArray (h : cheap) (array : cptr) (which : Z) : result cheap :=
  '(item, h) ← cJSON_DetachItemFromArray h array which; cJSON_Delete h item.

Definition detach_from_object (case_sensitive : bool) (h : cheap) (object : cptr) (string : option (list Z)) : result (cptr * cheap) :=
  to_detach ← object_item h object string case_sensitive;
  cJSON_DetachItemViaPointer h object to_detach.

Definition cJSON_DetachItemFromObject := detach_from_object false.
Definition cJSON_DetachItemFromObjectCaseSensitive := detach_from_object true.

Definition cJSON_DeleteItemFromObject (h : cheap) (object : cptr) (string : option (list Z)) : result cheap :=
  '(item, h) ← cJSON_DetachItemFromObject h object string; cJSON_Delete h item.
Definition cJSON_DeleteItemFromObjectCaseSensitive (h : cheap) (object : cptr) (string : option (list Z)) : result cheap :=
  '(item, h) ← cJSON_DetachItemFromObjectCaseSensitive h object string; cJSON_Delete h item.

(** ** Inserting and replacing *)
Definition cJSON_InsertItemInArray (h : cheap) (array : cptr) (which : Z) (newitem : cptr) : result (bool * cheap) :=
  if which <? 0 then Ok (false, h) else
  after_inserted ← get_array_item h array which;
  match after_inserted with
  | None => add_item_to_array h array newitem
  | Some _ =>
      h ← wr (set_next after_inserted) h newitem;
      p ← rd prev h after_inserted;
      h ← wr (set_prev p) h newitem;
      h ← wr (set_prev newitem) h after_inserted;
      first ← rd nd_child h array;
      h ← (if bool_decide (after_inserted = first) then wr (set_child newitem) h array
           else p ← rd prev h newitem; wr (set_next newitem) h p);
      Ok (true, h)
  end.

(** The branch that makes the parent or the previous item point to the replacement. *)
Definition replace_previous (h : cheap) (parent item replacement : cptr) : result cheap :=
  first ← rd nd_child h parent;
  if bool_decide (first = item) then
    p ← rd prev h first;
    first ← rd nd_child h parent;
    h ← (if bool_decide (p = first) then wr (set_prev replacement) h replacement else Ok h);
    wr (set_child replacement) h parent
  else
    p ← rd prev h replacement;
    h ← (if bool_decide (p ≠ None) then wr (set_next replacement) h p else Ok h);
    x ← rd next h replacement;
    if bool_decide (x = None) then first ← rd nd_child h parent; wr (set_prev replacement) h first else Ok h.

Definition cJSON_ReplaceItemViaPointer (h : cheap) (parent item replacement : cptr) : result (bool * cheap) :=
  if bool_decide (parent = None) || bool_decide (replacement = None) || bool_decide (item = None) then Ok (false, h) else
  if bool_decide (replacement = item) then Ok (true, h) else
  x ← rd next h item;
  h ← wr (set_next x) h replacement;
  p ← rd prev h item;
  h ← wr (set_prev p) h replacement;
  x ← rd next h replacement;
  h ← (if bool_decide (x ≠ None) then wr (set_prev replacement) h x else Ok h);
  h ← replace_previous h parent item replacement;
  h ← wr (set_next None) h item;
  h ← wr (set_prev None) h item;
  h ← cJSON_Delete h item;
  Ok (true, h).

Definition cJSON_ReplaceItemInArray (h : cheap) (array : cptr) (which : Z) (newitem : cptr) : result (bool * cheap) :=
  if which <? 0 then Ok (false, h) else
  item ← get_array_item h array which;
  cJSON_ReplaceItemViaPointer h array item newitem.

(** The new key may be null when its allocation fails; the replacement takes place all the same. *)
Definition replace_item_in_object (h : cheap) (object : cptr) (string : option (list Z)) (replacement : cptr)
  (case_sensitive : bool) (n : nat) : result (bool * cheap * nat) :=
  match replacement, string with
  | Some _, Some _ =>
      t ← rd nd_type h replacement;
      let '(new_key, n) := cJSON_strdup alloc string n in
      h ← wr (set_string new_key) h replacement;
      h ← wr (set_type (Z.ldiff t cJSON_StringIsConst)) h replacement;
      item ← object_item h object string case_sensitive;
      '(ok, h) ← cJSON_ReplaceItemViaPointer h object item replacement;
      Ok (ok, h, n)
  | _, _ => Ok (false, h, n)
  end.

Definition cJSON_ReplaceItemInObject h object string newitem n := replace_item_in_object h object string newitem false n.
Definition cJSON_ReplaceItemInObjectCaseSensitive h object string newitem n := replace_item_in_object h object string newitem true n.
End tree.
