(* ===== verification/CJsonLinks.v ===== *)
(** * CJsonLinks: the doubly linked chains of items

    [seg] describes a stretch of nodes by the list of their addresses, [chain] the children
    of a container: the first item's [prev] is null or the last item, which is what the
    functions of cJSON.c keep.  [edited] says what a function may change on the way. *)

From S2P Require Import Prelude CDouble CJson CJsonOps CJsonTree.
#[local] Open Scope Z_scope.

(** ** Segments *)
Definition hd_or (l : list nat) (nx : cptr) : cptr := match l with [] => nx | p :: _ => Some p end.
Definition last_or (l : list nat) (pv : cptr) : cptr := match last l with Some p => Some p | None => pv end.

Fixpoint seg (h : cheap) (pv : cptr) (l : list nat) (nx : cptr) : Prop :=
  match l with
  | [] => True
  | p :: l => (∃ n, h !! p = Some n ∧ prev n = pv ∧ next n = hd_or l nx) ∧ seg h (Some p) l nx
  end.

Lemma seg_app h l1 : ∀ pv l2 nx, seg h pv (l1 ++ l2) nx ↔ seg h pv l1 (hd_or l2 nx) ∧ seg h (last_or l1 pv) l2 nx.
Proof.
  induction l1 as [|p l1 IH]; intros pv l2 nx; [naive_solver|]. cbn [app seg]. rewrite IH.
  assert (hd_or (l1 ++ l2) nx = hd_or l1 (hd_or l2 nx)) as -> by (by destruct l1).
  assert (last_or (p :: l1) pv = last_or l1 (Some p)) as ->; [|tauto].
  unfold last_or. destruct l1 as [|q l1]; [done|]. rewrite last_cons_cons. destruct (last (q :: l1)) eqn:E; [done|].
  by apply last_None in E.
Qed.

Lemma last_or_snoc l z pv : last_or (l ++ [z]) pv = Some z.
Proof. unfold last_or. by rewrite last_snoc. Qed.

Lemma seg_frame h h' l : ∀ pv nx, (∀ q, q ∈ l → h' !! q = h !! q) → seg h pv l nx → seg h' pv l nx.
Proof.
  induction l as [|p l IH]; intros pv nx Hq; [done|]. intros [(n & E & ?) Hs]. split.
  - exists n. rewrite Hq; [done|constructor].
  - apply IH; [intros; apply Hq; by constructor|done].
Qed.

Lemma seg_insert h pv l nx p n : p ∉ l → seg h pv l nx → seg (<[p := n]> h) pv l nx.
Proof. intros Hp. apply seg_frame. intros q Hq. rewrite lookup_insert_ne; [done|congruence]. Qed.

Lemma seg_delete h pv l nx p : p ∉ l → seg h pv l nx → seg (delete p h) pv l nx.
Proof. intros Hp. apply seg_frame. intros q Hq. rewrite lookup_delete_ne; [done|congruence]. Qed.

(** The two ends can be relinked. *)
Lemma seg_set_prev h pv pv' p l nx n : p ∉ l → h !! p = Some n →
  seg h pv (p :: l) nx → seg (<[p := set_prev pv' n]> h) pv' (p :: l) nx.
Proof.
  intros Hp E [(n' & E' & _ & Hn) Hs]. split; [|by apply seg_insert].
  exists (set_prev pv' n). rewrite lookup_insert_eq. split; [done|]. split; [done|]. cbn. congruence.
Qed.

Lemma seg_set_next h pv l z nx nx' n : z ∉ l → h !! z = Some n →
  seg h pv (l ++ [z]) nx → seg (<[z := set_next nx' n]> h) pv (l ++ [z]) nx'.
Proof.
  intros Hz E. rewrite !seg_app. intros [H1 [(n' & E' & Hp & _) _]]. split; [by apply seg_insert|]. split; [|done].
  exists (set_next nx' n). rewrite lookup_insert_eq. split; [done|]. cbn. split; [congruence|done].
Qed.

Lemma seg_single h pv p nx n : h !! p = Some n → prev n = pv → next n = nx → seg h pv [p] nx.
Proof. intros. split; [|done]. by exists n. Qed.

Lemma seg_lookup h pv l nx p : seg h pv l nx → p ∈ l → is_Some (h !! p).
Proof.
  revert pv. induction l as [|q l IH]; intros pv Hs Hp; [by apply elem_of_nil in Hp|]. destruct Hs as [(n & E & _) Hs].
  apply elem_of_cons in Hp as [->|Hp]; [by eexists|by eapply IH].
Qed.

(** The node in the middle of a segment. *)
Lemma seg_middle h pv l1 y l2 nx : seg h pv (l1 ++ y :: l2) nx → ∃ n, h !! y = Some n ∧
  prev n = last_or l1 pv ∧ next n = hd_or l2 nx ∧ seg h pv l1 (Some y) ∧ seg h (Some y) l2 nx.
Proof. intros (Hl & (n & ? & ? & ?) & Hr)%seg_app. by exists n. Qed.

Definition chain (h : cheap) (l : list nat) : Prop :=
  NoDup l ∧ ∃ pv, seg h pv l None ∧ (pv = None ∨ pv = last l).

Lemma chain_frame h h' l : (∀ q, q ∈ l → h' !! q = h !! q) → chain h l → chain h' l.
Proof. intros Hq (Hnd & pv & Hs & Hp). split; [done|]. exists pv. split; [by eapply seg_frame|done]. Qed.

(** ** What a function changes *)
Definition relinked (n n' : node) : Prop :=
  nd_child n' = nd_child n ∧ nd_type n' = nd_type n ∧ nd_valuestring n' = nd_valuestring n ∧
  nd_valueint n' = nd_valueint n ∧ nd_valuedouble n' = nd_valuedouble n ∧ nd_string n' = nd_string n.

#[export] Instance relinked_preorder : PreOrder relinked.
Proof. split; [by repeat split|]. unfold relinked. intros x y z. naive_solver congruence. Qed.

(** The container [a] gets another first child, the items of [D] other neighbours. *)
Definition edited (a : nat) (D : list nat) (h h' : cheap) : Prop :=
  (∀ n, h !! a = Some n → ∃ c, h' !! a = Some (set_child c n)) ∧
  (∀ q, q ∈ D → q ≠ a → ∀ n, h !! q = Some n → ∃ n', h' !! q = Some n' ∧ relinked n n') ∧
  (∀ q, q ∉ D → q ≠ a → h' !! q = h !! q).

#[export] Instance edited_preorder a D : PreOrder (edited a D).
Proof.
  split.
  - intros h. split_and!; [|intros q _ _ n E; by exists n|done]. intros n E. exists (nd_child n). by destruct n.
  - intros h1 h2 h3 (A1 & B1 & C1) (A2 & B2 & C2). split_and!.
    + intros n E. destruct (A1 n E) as [c E']. destruct (A2 _ E') as [c' E'']. exists c'. by destruct n.
    + intros q Hq Hne n E. destruct (B1 q Hq Hne n E) as (n1 & E1 & R1). destruct (B2 q Hq Hne n1 E1) as (n2 & E2 & R2).
      exists n2. split; [done|]. by etrans.
    + intros q Hq Hne. by rewrite C2, C1.
Qed.

Lemma edited_link a D h p n n' : h !! p = Some n → relinked n n' → p ∈ D → p ≠ a → edited a D h (<[p := n']> h).
Proof.
  intros E Hr Hp Hne. split_and!.
  - intros m Em. exists (nd_child m). rewrite lookup_insert_ne by done. by destruct m.
  - intros q Hq Hqa m Em. destruct (decide (q = p)) as [->|]; [rewrite lookup_insert_eq|rewrite lookup_insert_ne by done; by exists m].
    exists n'. split; [done|]. congruence.
  - intros q Hq _. rewrite lookup_insert_ne; [done|]. by intros ->.
Qed.

Lemma edited_child a D h n c : h !! a = Some n → edited a D h (<[a := set_child c n]> h).
Proof.
  intros E. split_and!.
  - intros m Em. exists c. rewrite lookup_insert_eq. congruence.
  - intros q _ Hq m Em. rewrite lookup_insert_ne by done. by exists m.
  - intros q _ Hq. by rewrite lookup_insert_ne.
Qed.

Lemma edited_same a D h h' q : edited a D h h' → q ∉ D → q ≠ a → h' !! q = h !! q.
Proof. intros (_ & _ & C). apply C. Qed.

Lemma relinked_next p n : relinked n (set_next p n).
Proof. by repeat split. Qed.
Lemma relinked_prev p n : relinked n (set_prev p n).
Proof. by repeat split. Qed.
Lemma relinked_both x p n : relinked n (set_prev p (set_next x n)).
Proof. by repeat split. Qed.
#[export] Hint Resolve relinked_next relinked_prev relinked_both : core.

(** ** Reads and assignments that succeed *)
Lemma rd_Ok {A} (f : node → A) h p n : h !! p = Some n → rd f h (Some p) = Ok (f n).
Proof. intros E. unfold rd. cbn. by rewrite E. Qed.

Lemma wr_Ok f h p n : h !! p = Some n → wr f h (Some p) = Ok (<[p := f n]> h).
Proof. intros E. unfold wr. cbn. by rewrite E. Qed.

Lemma seg_prev_new h pv p l nx pv' : NoDup (p :: l) → seg h pv (p :: l) nx →
  ∃ n, h !! p = Some n ∧ wr (set_prev pv') h (Some p) = Ok (<[p := set_prev pv' n]> h) ∧
    seg (<[p := set_prev pv' n]> h) pv' (p :: l) nx.
Proof.
  intros [Hp _]%NoDup_cons Hs. assert (is_Some (h !! p)) as [n E] by (destruct Hs as [(n & ? & _) _]; by eexists).
  exists n. split; [done|]. split; [by apply wr_Ok|]. by apply (seg_set_prev h pv).
Qed.

Lemma seg_next_new h pv l z nx nx' : NoDup (l ++ [z]) → seg h pv (l ++ [z]) nx →
  ∃ n, h !! z = Some n ∧ wr (set_next nx') h (Some z) = Ok (<[z := set_next nx' n]> h) ∧
    seg (<[z := set_next nx' n]> h) pv (l ++ [z]) nx'.
Proof.
  intros (_ & Hz & _)%NoDup_app Hs. destruct (seg_middle _ _ _ _ _ _ Hs) as (n & E & _). exists n. split; [done|].
  split; [by apply wr_Ok|]. apply (seg_set_next h pv l z nx); [|done|done]. intros Hin. apply (Hz z); [done|constructor].
Qed.

(** ** Containers, and the editing functions on the links *)
Definition container (h : cheap) (a : nat) (l : list nat) : Prop :=
  (∃ n, h !! a = Some n ∧ nd_child n = head l) ∧ chain h l ∧ a ∉ l.

Lemma chain_length h l : chain h l → (length l ≤ size h)%nat.
Proof.
  intros (Hnd & pv & Hs & _). rewrite <- size_dom. assert (size (list_to_set l : gset nat) = length l) as <- by (by apply size_list_to_set).
  apply subseteq_size. intros q. rewrite elem_of_list_to_set, elem_of_dom. by eapply seg_lookup.
Qed.

Lemma last_loop_spec h l : ∀ pv fuel p z, seg h pv (p :: l) None → last (p :: l) = Some z → (length l < fuel)%nat →
  last_loop fuel h (Some p) = Ok (Some z).
Proof.
  induction l as [|q l IH]; intros pv [|fuel] p z Hs Hz Hf; try lia; cbn [last_loop];
    destruct Hs as [(n & E & _ & Hn) Hs]; rewrite (rd_Ok _ _ _ _ E), ok_bind, Hn; cbn [hd_or].
  - cbn in Hz. congruence.
  - eapply IH; [done|done|simpl in Hf; lia].
Qed.

Lemma add_links h a l x nx : container h a l → x ≠ a → x ∉ l → h !! x = Some nx → next nx = None →
  ∃ h', add_item_to_array h (Some a) (Some x) = Ok (true, h') ∧ edited a (x :: l) h h' ∧ container h' a (l ++ [x]).
Proof.
  intros ((n & Ea & Hc) & (Hnd & pv & Hs & Hpv) & Hal) Hxa Hxl Ex Hx. unfold add_item_to_array.
  rewrite !bool_decide_eq_false_2 by congruence. cbn [orb]. rewrite (rd_Ok _ _ _ _ Ea), ok_bind, Hc.
  destruct l as [|p l]; cbn [head].
  - rewrite (wr_Ok _ _ _ _ Ea), ok_bind. rewrite (wr_Ok _ _ x nx), ok_bind by (by rewrite lookup_insert_ne).
    rewrite (wr_Ok _ _ x (set_prev (Some x) nx)), ok_bind by (by rewrite lookup_insert_eq). eexists. split; [done|]. split.
    + etrans; [by apply (edited_child a [x] h n (Some x))|].
      etrans; [apply (edited_link a [x] _ x nx (set_prev (Some x) nx)); [by rewrite lookup_insert_ne|done|constructor|done]|].
      apply (edited_link a [x] _ x (set_prev (Some x) nx)); [by rewrite lookup_insert_eq|done|constructor|done].
    + split; [|split; [|set_solver]].
      * exists (set_child (Some x) n). by rewrite 2!lookup_insert_ne, lookup_insert_eq by done.
      * split; [apply NoDup_singleton|]. exists (Some x). split; [|by right]. by eapply seg_single; [rewrite lookup_insert_eq|..].
  - destruct (exists_last (l := p :: l)) as (l0 & z & El); [done|]. pose proof Hs as Hs0. rewrite El in Hs, Hnd.
    assert (rd prev h (Some p) = Ok pv) as ->.
    { destruct Hs0 as [(m & Em & <- & _) _]. by rewrite (rd_Ok _ _ _ _ Em). }
    rewrite ok_bind. assert ((match pv with Some _ => Ok pv | None => last_loop (chain_fuel h) h (Some p) end) = Ok (Some z)) as ->.
    { destruct Hpv as [->|Hpv]; [|rewrite El, last_snoc in Hpv; by rewrite Hpv].
      eapply last_loop_spec; [exact Hs0|by rewrite El, last_snoc|]. unfold chain_fuel.
      assert (chain h (p :: l)) as Hch by (split; [by rewrite El|]; eexists; split; [exact Hs0|by left]).
      apply chain_length in Hch. simpl in Hch. lia. }
    rewrite ok_bind. destruct (seg_next_new _ _ _ _ _ (Some x) Hnd Hs) as (m & Em & Ew & Hs1). unfold suffix_object. rewrite Ew.
    assert (z ∈ p :: l) as Hz by (rewrite El; set_solver). assert (z ≠ x) as Hzx by congruence. assert (z ≠ a) as Hza by congruence.
    set (h1 := <[z := _]> h) in *. assert (h1 !! x = Some nx) as Ex1 by (unfold h1; by rewrite lookup_insert_ne).
    rewrite ok_bind, (wr_Ok _ _ _ _ Ex1), ok_bind. set (h2 := <[x := _]> h1).
    assert (h2 !! a = Some n) as Ea2 by (unfold h2, h1; by rewrite !lookup_insert_ne by congruence).
    rewrite (rd_Ok _ _ _ _ Ea2), ok_bind, Hc. cbn [head].
    assert (NoDup (p :: (l ++ [x]))) as Hnd2.
    { change (p :: l ++ [x]) with ((p :: l) ++ [x]). rewrite El. apply NoDup_app. split; [done|]. split; [|apply NoDup_singleton].
      intros q Hq ->%list_elem_of_singleton. apply Hxl. by rewrite El. }
    assert (seg h2 pv (p :: (l ++ [x])) None) as Hs2.
    { change (p :: l ++ [x]) with ((p :: l) ++ [x]). rewrite El. apply seg_app. split.
      - apply seg_insert; [by rewrite <- El|done].
      - rewrite last_or_snoc. eapply seg_single; [unfold h2; by rewrite lookup_insert_eq|done|done]. }
    destruct (seg_prev_new _ _ _ _ _ (Some x) Hnd2 Hs2) as (m' & Em' & -> & Hs3). rewrite ok_bind. eexists. split; [done|]. split.
    + etrans; [by apply (edited_link a (x :: p :: l) h z m (set_next (Some x) m)); [| |constructor|]|].
      etrans; [by apply (edited_link a (x :: p :: l) h1 x nx (set_prev (Some z) nx)); [| |constructor|]|].
      apply (edited_link a _ h2 p m'); [done|done|by do 2 constructor|]. intros ->. apply Hal. constructor.
    + split; [|split].
      * exists n. rewrite lookup_insert_ne; [done|]. intros ->. apply Hal. constructor.
      * split; [done|]. exists (Some x). split; [done|]. right. by rewrite last_snoc.
      * rewrite elem_of_app, list_elem_of_singleton. by intros [?|?].
Qed.

Lemma container_insert h a l y m : container h a l → y ∉ l → y ≠ a → container (<[y := m]> h) a l.
Proof.
  intros ((n & E & Hc) & Hch & Ha) Hy Hya. split; [|split; [|done]].
  - exists n. by rewrite lookup_insert_ne.
  - eapply chain_frame, Hch. intros q Hq. rewrite lookup_insert_ne; [done|congruence].
Qed.

(** The last assignments of a detachment. *)
Lemma cleared_links h h3 a D l y m : edited a D h h3 → container h3 a l → y ∉ l → y ≠ a → y ∈ D → h3 !! y = Some m →
  ∃ h', (h ← wr (set_prev None) h3 (Some y); h ← wr (set_next None) h (Some y); Ok (Some y, h)) = Ok (Some y, h') ∧
    edited a D h h' ∧ container h' a l ∧ ∃ n, h' !! y = Some n ∧ next n = None.
Proof.
  intros He Hc Hl Hya HD E. rewrite (wr_Ok _ _ _ _ E), ok_bind. rewrite (wr_Ok _ _ y (set_prev None m)), ok_bind by (by rewrite lookup_insert_eq).
  eexists. split; [done|]. split; [|split].
  - etrans; [exact He|]. etrans; [by apply (edited_link a D h3 y m (set_prev None m))|].
    apply (edited_link a D _ y (set_prev None m)); [by rewrite lookup_insert_eq|done..].
  - by do 2 (apply container_insert; [|done|done]).
  - eexists. by rewrite lookup_insert_eq.
Qed.

(** A container around one of its items. *)
Lemma container_split h a l1 y l2 : container h a (l1 ++ y :: l2) → ∃ n m pv,
  (h !! a = Some n ∧ nd_child n = head (l1 ++ y :: l2)) ∧
  (h !! y = Some m ∧ prev m = last_or l1 pv ∧ next m = hd_or l2 None) ∧
  (seg h pv l1 (Some y) ∧ seg h (Some y) l2 None ∧ (pv = None ∨ pv = last (l1 ++ y :: l2))) ∧
  (NoDup l1 ∧ NoDup l2 ∧ y ∉ l1 ∧ y ∉ l2 ∧ (∀ q, q ∈ l2 → q ∉ l1)) ∧ (a ∉ l1 ∧ a ≠ y ∧ a ∉ l2).
Proof.
  intros ((n & Ea & Hc) & (Hnd & pv & Hs & Hpv) & Hal). destruct (seg_middle _ _ _ _ _ _ Hs) as (m & Em & Hmp & Hmn & Hs1 & Hs2).
  apply NoDup_app in Hnd as (Hnd1 & Hdis & (Hy2 & Hnd2)%NoDup_cons). exists n, m, pv. split_and!; try done; try set_solver.
Qed.

Lemma NoDup_join (l1 l2 : list nat) : NoDup l1 → NoDup l2 → (∀ q, q ∈ l2 → q ∉ l1) → NoDup (l1 ++ l2).
Proof. intros H1 H2 Hd. apply NoDup_app. split; [done|]. split; [|done]. intros q Hq Hq2. by apply (Hd q). Qed.

Lemma nil_or_snoc (l : list nat) : l = [] ∨ ∃ l0 z, l = l0 ++ [z].
Proof. destruct l as [|z l0 _] using rev_ind; [by left|right; by eexists _, _]. Qed.

Lemma exists_head (l0 : list nat) z : ∃ p l', l0 ++ [z] = p :: l'.
Proof. destruct l0; by eexists _, _. Qed.

Lemma detach_first h a y l2 : container h a (y :: l2) →
  ∃ h', cJSON_DetachItemViaPointer h (Some a) (Some y) = Ok (Some y, h') ∧ edited a (y :: l2) h h' ∧
    container h' a l2 ∧ ∃ n, h' !! y = Some n ∧ next n = None.
Proof.
  intros Hcon. destruct (container_split _ _ [] _ _ Hcon) as (n & m & pv & (Ea & Hc) & (Em & Hmp & Hmn) & (_ & Hs2 & Hpv) & (_ & Hnd2 & _ & Hy2 & _) & (_ & Hay & Ha2)).
  cbn [last_or last app head] in *. unfold cJSON_DetachItemViaPointer. rewrite !bool_decide_eq_false_2 by done. cbn [orb].
  rewrite (rd_Ok nd_child _ _ _ Ea), ok_bind, Hc. rewrite bool_decide_eq_false_2, ok_bind by (intros []; done).
  rewrite (rd_Ok next _ _ _ Em), ok_bind, Hmn.
  assert (∃ h1, (if bool_decide (hd_or l2 None ≠ None) then p ← rd prev h (Some y); wr (set_prev p) h (hd_or l2 None) else Ok h) = Ok h1 ∧
    edited a (y :: l2) h h1 ∧ seg h1 pv l2 None ∧ h1 !! a = Some n ∧ h1 !! y = Some m) as (h1 & -> & He1 & Hs & Ea1 & Em1).
  { destruct l2 as [|w l2]; cbn [hd_or]; [rewrite bool_decide_eq_false_2 by (intros []; done); exists h; by split_and!|].
    rewrite bool_decide_eq_true_2 by done. rewrite (rd_Ok prev _ _ _ Em), ok_bind, Hmp.
    destruct (seg_prev_new _ _ _ _ _ pv Hnd2 Hs2) as (k & Ek & -> & Hs'). eexists. split; [done|]. apply not_elem_of_cons in Hy2 as [? ?].
    apply not_elem_of_cons in Ha2 as [? ?]. split; [apply (edited_link _ _ _ w k); [done|done|by do 2 constructor|done]|].
    split; [done|]. by rewrite !lookup_insert_ne by congruence. }
  rewrite ok_bind, (rd_Ok nd_child _ _ _ Ea1), ok_bind, Hc. rewrite bool_decide_eq_true_2 by done. rewrite (rd_Ok next _ _ _ Em1), ok_bind, Hmn, (wr_Ok _ _ _ _ Ea1), ok_bind.
  apply (cleared_links h _ a (y :: l2) l2 y m); [|split_and!|done|done|constructor|by rewrite lookup_insert_ne].
  - etrans; [exact He1|]. by apply edited_child.
  - exists (set_child (hd_or l2 None) n). rewrite lookup_insert_eq. by destruct l2.
  - split; [done|]. destruct l2 as [|w l2]; [by exists None; split; [|left]|]. exists pv. split; [by apply seg_insert|].
    destruct Hpv as [->| ->]; [by left|right; by rewrite last_cons_cons].
  - done.
Qed.

Lemma detach_later h a l0 z y l2 : container h a ((l0 ++ [z]) ++ y :: l2) →
  ∃ h', cJSON_DetachItemViaPointer h (Some a) (Some y) = Ok (Some y, h') ∧ edited a ((l0 ++ [z]) ++ y :: l2) h h' ∧
    container h' a ((l0 ++ [z]) ++ l2) ∧ ∃ n, h' !! y = Some n ∧ next n = None.
Proof.
  intros Hcon. destruct (container_split _ _ _ _ _ Hcon) as (n & m & pv & (Ea & Hc) & (Em & Hmp & Hmn) & (Hs1 & Hs2 & Hpv) & (Hnd1 & Hnd2 & Hy1 & Hy2 & Hdis) & (Ha1 & Hay & Ha2)).
  rewrite last_or_snoc in Hmp. set (D := (l0 ++ [z]) ++ y :: l2) in *. assert (z ∈ l0 ++ [z]) as Hz by set_solver.
  assert (z ≠ y ∧ z ≠ a ∧ z ∉ l2 ∧ z ∈ D) as (Hzy & Hza & Hz2 & HzD) by (unfold D; split_and!; [congruence|congruence|by intros ?%Hdis|set_solver]).
  destruct (exists_head l0 z) as (p & l' & El). assert (head D = Some p) as Hhd by (unfold D; by rewrite El). rewrite Hhd in Hc.
  assert (p ∈ l0 ++ [z]) as Hp by (rewrite El; constructor). assert (p ≠ y ∧ p ≠ a ∧ p ∈ D) as (Hpy & Hpa & HpD) by (unfold D; split_and!; [congruence|congruence|set_solver]).
  unfold cJSON_DetachItemViaPointer. rewrite !bool_decide_eq_false_2 by done. cbn [orb].
  rewrite (rd_Ok nd_child _ _ _ Ea), ok_bind, Hc. rewrite bool_decide_eq_true_2 by congruence.
  rewrite (rd_Ok prev _ _ _ Em), ok_bind, Hmp, (rd_Ok next _ _ _ Em), ok_bind, Hmn.
  destruct (seg_next_new _ _ _ _ _ (hd_or l2 None) Hnd1 Hs1) as (k & Ek & -> & Hs1'). rewrite ok_bind.
  assert (edited a D h (<[z := set_next (hd_or l2 None) k]> h)) as He1 by (by apply (edited_link a D h z k)).
  set (h1 := <[z := _]> h) in *. assert (∀ q, q ≠ z → h1 !! q = h !! q) as Hh1 by (intros q Hq; unfold h1; by rewrite lookup_insert_ne).
  assert (h1 !! y = Some m) as Em1 by (by rewrite Hh1). assert (h1 !! a = Some n) as Ea1 by (by rewrite Hh1).
  rewrite (rd_Ok next _ _ _ Em1), ok_bind, Hmn. apply (seg_frame h h1) in Hs2; [|intros q Hq; apply Hh1; congruence].
  destruct l2 as [|w l2]; cbn [hd_or] in *.
  - rewrite bool_decide_eq_false_2, ok_bind by (intros []; done). rewrite (rd_Ok nd_child _ _ _ Ea1), ok_bind, Hc.
    rewrite bool_decide_eq_false_2 by congruence. rewrite (rd_Ok next _ _ _ Em1), ok_bind, Hmn, bool_decide_eq_true_2 by done.
    rewrite (rd_Ok prev _ _ _ Em1), ok_bind, Hmp, ok_bind. rewrite El in Hnd1, Hs1'.
    destruct (seg_prev_new _ _ _ _ _ (Some z) Hnd1 Hs1') as (k' & Ek' & -> & Hs3). rewrite ok_bind, app_nil_r.
    apply (cleared_links h _ a D _ y m); [|split_and!|done|done|set_solver|by rewrite lookup_insert_ne].
    + etrans; [exact He1|]. by apply (edited_link a D h1 p k').
    + exists n. rewrite lookup_insert_ne, Hc, El by done. done.
    + split; [by rewrite El|]. exists (Some z). rewrite El. split; [done|]. right. by rewrite <- El, last_snoc.
    + done.
  - apply not_elem_of_cons in Hy2 as [? ?]. apply not_elem_of_cons in Ha2 as [? ?].
    rewrite bool_decide_eq_true_2 by done. rewrite (rd_Ok prev _ _ _ Em1), ok_bind, Hmp.
    destruct (seg_prev_new _ _ _ _ _ (Some z) Hnd2 Hs2) as (k' & Ek' & -> & Hs3). rewrite ok_bind. set (h2 := <[w := _]> h1) in *.
    assert (h2 !! y = Some m) as Em2 by (unfold h2; by rewrite lookup_insert_ne). assert (h2 !! a = Some n) as Ea2 by (unfold h2; by rewrite lookup_insert_ne).
    rewrite (rd_Ok nd_child _ _ _ Ea2), ok_bind, Hc. rewrite bool_decide_eq_false_2 by congruence.
    rewrite (rd_Ok next _ _ _ Em2), ok_bind, Hmn, bool_decide_eq_false_2, ok_bind by done.
    apply (cleared_links h _ a D _ y m); [|split_and!|set_solver|done|set_solver|done].
    + etrans; [exact He1|]. apply (edited_link a D h1 w k'); [done|done|set_solver|done].
    + exists n. rewrite Ea2, Hc, El. done.
    + split; [by apply NoDup_join|]. exists pv. split; [|unfold D in Hpv; rewrite !last_app in *; by rewrite last_cons_cons in Hpv].
      apply seg_app. rewrite last_or_snoc. split; [|done]. apply seg_insert; [|done]. apply Hdis. constructor.
    + set_solver.
Qed.

Lemma detach_links h a l1 y l2 : container h a (l1 ++ y :: l2) →
  ∃ h', cJSON_DetachItemViaPointer h (Some a) (Some y) = Ok (Some y, h') ∧ edited a (l1 ++ y :: l2) h h' ∧
    container h' a (l1 ++ l2) ∧ ∃ n, h' !! y = Some n ∧ next n = None.
Proof.
  destruct l1 as [|z l0 _] using rev_ind; [apply detach_first|apply detach_later].
Qed.

(** ** Insertion and replacement *)
Lemma item_loop_spec h l : ∀ pv i, seg h pv l None → item_loop i h (head l) = Ok (l !! i).
Proof.
  induction l as [|p l IH]; intros pv i Hs; [by destruct i|]. destruct i as [|i]; [done|]. cbn [item_loop head].
  destruct Hs as [(n & E & _ & Hn) Hs]. rewrite (rd_Ok _ _ _ _ E), ok_bind, Hn. pose proof (IH _ i Hs) as Hi. by destruct l.
Qed.

Lemma get_item_spec h a l i : container h a l → get_array_item h (Some a) i = Ok (l !! Z.to_nat i).
Proof.
  intros ((n & E & Hc) & (_ & pv & Hs & _) & _). unfold get_array_item. rewrite (rd_Ok _ _ _ _ E), ok_bind, Hc. by eapply item_loop_spec.
Qed.

(** [x] gets the neighbours [nx] and [pv]. *)
Lemma link_new h a D x n nx pv : h !! x = Some n → x ∈ D → x ≠ a →
  let h' := <[x := set_prev pv (set_next nx n)]> (<[x := set_next nx n]> h) in
  wr (set_next nx) h (Some x) = Ok (<[x := set_next nx n]> h) ∧
  wr (set_prev pv) (<[x := set_next nx n]> h) (Some x) = Ok h' ∧ edited a D h h' ∧
  h' !! x = Some (set_prev pv (set_next nx n)) ∧ ∀ q, q ≠ x → (<[x := set_next nx n]> h) !! q = h !! q ∧ h' !! q = h !! q.
Proof.
  intros E HD Hne h'. split; [by apply wr_Ok|]. split; [apply wr_Ok; by rewrite lookup_insert_eq|]. split; [|split].
  - etrans; [by apply (edited_link a D h x n (set_next nx n))|].
    apply (edited_link a D _ x (set_next nx n)); [by rewrite lookup_insert_eq|done..].
  - unfold h'. by rewrite lookup_insert_eq.
  - intros q Hq. unfold h'. by rewrite !lookup_insert_ne.
Qed.

Lemma insert_links h a l1 y l2 x nx which : container h a (l1 ++ y :: l2) → x ≠ a → x ∉ l1 ++ y :: l2 → h !! x = Some nx →
  0 ≤ which → Z.to_nat which = length l1 →
  ∃ h', cJSON_InsertItemInArray h (Some a) which (Some x) = Ok (true, h') ∧ edited a (x :: l1 ++ y :: l2) h h' ∧
    container h' a (l1 ++ x :: y :: l2).
Proof.
  intros Hcon Hxa Hxl Ex Hw Hlen. unfold cJSON_InsertItemInArray. destruct (Z.ltb_spec which 0); [lia|].
  rewrite (get_item_spec _ _ _ _ Hcon), ok_bind, Hlen, list_lookup_middle by done.
  destruct (container_split _ _ _ _ _ Hcon) as (n & m & pv & (Ea & Hc) & (Em & Hmp & Hmn) & (Hs1 & Hs2 & Hpv) & (Hnd1 & Hnd2 & Hy1 & Hy2 & Hdis) & (Ha1 & Hay & Ha2)).
  set (D := x :: l1 ++ y :: l2) in *. assert (x ≠ y ∧ x ∉ l1 ∧ x ∉ l2) as (Hxy & Hx1 & Hx2) by set_solver.
  assert (x ∈ D ∧ y ∈ D) as [HxD HyD] by (unfold D; set_solver).
  destruct (link_new h a D x nx (Some y) (last_or l1 pv) Ex HxD Hxa) as (-> & Ew & He2 & Ex2 & Hsame). set (h2 := <[x := set_prev _ _]> _) in *.
  rewrite ok_bind. destruct (Hsame y) as [Hy1' Hy2']; [done|]. rewrite (rd_Ok prev _ _ m), ok_bind, Hmp, Ew, ok_bind by congruence.
  rewrite (wr_Ok _ _ y m), ok_bind by congruence. set (h3 := <[y := _]> h2).
  assert (∀ q, q ≠ x → q ≠ y → h3 !! q = h !! q) as Hh3 by (intros q Hq Hqy; unfold h3; rewrite lookup_insert_ne by done; by apply Hsame).
  assert (h3 !! x = Some (set_prev (last_or l1 pv) (set_next (Some y) nx))) as Ex3 by (unfold h3; by rewrite lookup_insert_ne).
  assert (edited a D h h3) as He3 by (etrans; [exact He2|apply (edited_link a D h2 y m); [congruence|done|done|done]]).
  rewrite (rd_Ok nd_child _ _ n), ok_bind, Hc by (rewrite Hh3; congruence).
  assert (seg h3 (Some x) (y :: l2) None) as Hs3.
  { split; [exists (set_prev (Some x) m); unfold h3; by rewrite lookup_insert_eq|]. eapply seg_frame; [|exact Hs2]. intros q Hq. apply Hh3; congruence. }
  assert (seg h3 pv l1 (Some y)) as Hs1' by (eapply seg_frame; [|exact Hs1]; intros q Hq; apply Hh3; congruence).
  assert (NoDup (l1 ++ x :: y :: l2)) as Hnd.
  { apply NoDup_join; [done|apply NoDup_cons; split; [set_solver|by apply NoDup_cons]|].
    intros q [->|[->|Hq]%elem_of_cons]%elem_of_cons; [done|done|by apply Hdis]. }
  assert (a ∉ l1 ++ x :: y :: l2) as Hal by set_solver.
  destruct (nil_or_snoc l1) as [->|(l0 & z & ->)].
  - rewrite bool_decide_eq_true_2 by done. rewrite (wr_Ok _ _ a n), ok_bind by (rewrite Hh3; congruence). eexists. split; [done|]. split.
    + etrans; [exact He3|]. apply edited_child. rewrite Hh3; congruence.
    + split; [|split; [|done]]; [exists (set_child (Some x) n); by rewrite lookup_insert_eq|]. split; [done|]. exists pv.
      split; [|destruct Hpv as [->| ->]; [by left|right; cbn [app]; by rewrite last_cons_cons]]. apply seg_insert; [done|].
      split; [|done]. eexists. split; [exact Ex3|]. done.
  - destruct (exists_head l0 z) as (p & l' & El). assert (p ∈ l0 ++ [z]) as Hp by (rewrite El; constructor).
    rewrite bool_decide_eq_false_2 by (rewrite El; cbn; congruence).
    rewrite (rd_Ok prev _ _ _ Ex3), ok_bind, last_or_snoc in *. cbn [set_prev prev].
    destruct (seg_next_new _ _ _ _ _ (Some x) Hnd1 Hs1') as (k & Ek & -> & Hs1''). rewrite ok_bind. eexists. split; [done|].
    assert (z ∈ l0 ++ [z]) as Hz by set_solver. assert (z ≠ a ∧ z ∈ D ∧ z ≠ x ∧ z ∉ y :: l2) as (Hza & HzD & Hzx & Hzy).
    { unfold D. split_and!; [congruence|set_solver|congruence|]. intros [->|Hin]%elem_of_cons; [done|by apply (Hdis z)]. }
    split; [etrans; [exact He3|by apply (edited_link a D h3 z k)]|]. split; [|split; [|done]].
    + exists n. rewrite lookup_insert_ne, Hh3 by congruence. split; [done|]. rewrite Hc, El. done.
    + split; [done|]. exists pv. split; [|destruct Hpv as [->| ->]; [by left|right; by rewrite !last_app, !last_cons_cons]].
      apply seg_app. split; [done|]. rewrite last_or_snoc. split; [|by apply seg_insert].
      eexists. split; [by rewrite lookup_insert_ne|]. done.
Qed.

Section replace.
Context `{CJsonH}.

(** The last assignments of a replacement, before the old item is deleted. *)
Lemma dropped_links (h h3 : cheap) a D l (x : bool) y m : edited a D h h3 → container h3 a l → y ∉ l → y ≠ a → y ∈ D → h3 !! y = Some m →
  ∃ h', (h ← wr (set_next None) h3 (Some y); h ← wr (set_prev None) h (Some y); h ← cJSON_Delete h (Some y); Ok (x, h)) =
      (h ← cJSON_Delete h' (Some y); Ok (x, h)) ∧
    edited a D h h' ∧ container h' a l ∧ ∃ n, h' !! y = Some n ∧ next n = None.
Proof.
  intros He Hc Hl Hya HD E. rewrite (wr_Ok _ _ _ _ E), ok_bind. rewrite (wr_Ok _ _ y (set_next None m)), ok_bind by (by rewrite lookup_insert_eq).
  eexists. split; [done|]. split; [|split].
  - etrans; [exact He|]. etrans; [by apply (edited_link a D h3 y m (set_next None m))|].
    apply (edited_link a D _ y (set_next None m)); [by rewrite lookup_insert_eq|done..].
  - by do 2 (apply container_insert; [|done|done]).
  - eexists. by rewrite lookup_insert_eq.
Qed.

(** In front of [y], which the container no longer needs, the first item or a later one. *)
Lemma replace_at_first h h3 a x y l2 n m nx pv : edited a (x :: y :: l2) h h3 →
  h3 !! a = Some n → nd_child n = Some y → h3 !! y = Some m → prev m = pv → h3 !! x = Some nx → prev nx = pv → next nx = hd_or l2 None →
  seg h3 (Some x) l2 None → (pv = None ∨ pv = last (y :: l2)) → NoDup (x :: l2) → y ∉ l2 → x ≠ y → a ∉ x :: y :: l2 →
  ∃ h', replace_previous h3 (Some a) (Some y) (Some x) = Ok h' ∧ edited a (x :: y :: l2) h h' ∧ container h' a (x :: l2) ∧ h' !! y = Some m.
Proof.
  intros He3 Ea3 Hc Em3 Hmp Ex3 Hxp Hxn Hs3 Hpv Hnd Hy2 Hxy Ha. apply not_elem_of_cons in Ha as [Hxa Ha].
  apply not_elem_of_cons in Ha as [Hya Ha]. set (D := x :: y :: l2) in *. assert (x ∈ D) as HxD by constructor.
  unfold replace_previous. rewrite (rd_Ok nd_child _ _ _ Ea3), ok_bind, Hc, bool_decide_eq_true_2 by done.
  rewrite (rd_Ok prev _ _ _ Em3), ok_bind, Hmp, ok_bind.
  assert (∃ h4 pv', (if bool_decide (pv = Some y) then wr (set_prev (Some x)) h3 (Some x) else Ok h3) = Ok h4 ∧
    edited a D h h4 ∧ h4 !! a = Some n ∧ h4 !! y = Some m ∧ seg h4 pv' (x :: l2) None ∧ (pv' = None ∨ pv' = last (x :: l2)))
    as (h4 & pv' & -> & He4 & Ea4 & Em4 & Hs4 & Hpv').
  { assert (seg h3 pv (x :: l2) None) as Hs4 by (split; [by exists nx|done]).
    destruct (seg_prev_new _ _ _ _ _ (Some x) Hnd Hs4) as (k & Ek & Ewx & Hsx). case_bool_decide as Hpy.
    - rewrite Ewx. eexists _, (Some x). split; [done|]. split; [etrans; [exact He3|by apply (edited_link a D h3 x k)]|].
      rewrite !lookup_insert_ne by congruence. split_and!; [done|done|done|]. right. destruct l2 as [|w l2]; [done|].
      destruct Hpv as [->|Hpv]; [done|]. exfalso. rewrite Hpy, last_cons_cons in Hpv. apply Hy2. by apply last_Some_elem_of.
    - exists h3, pv. split_and!; try done. destruct Hpv as [->|Hpv]; [by left|]. destruct l2; [by rewrite Hpv in Hpy|].
      right. by rewrite last_cons_cons in *. }
  rewrite ok_bind, (wr_Ok _ _ _ _ Ea4). eexists. split; [done|]. split; [etrans; [exact He4|by apply edited_child]|]. split; [|by rewrite lookup_insert_ne].
  split; [exists (set_child (Some x) n); by rewrite lookup_insert_eq|]. split; [|set_solver]. split; [done|]. exists pv'. split; [|done].
  apply seg_insert; [set_solver|done].
Qed.

Lemma replace_at_later h h3 a l0 z x y l2 n m nx pv : let D := x :: (l0 ++ [z]) ++ y :: l2 in edited a D h h3 →
  h3 !! a = Some n → nd_child n = head (l0 ++ [z]) → h3 !! y = Some m → h3 !! x = Some nx → prev nx = Some z → next nx = hd_or l2 None →
  seg h3 pv (l0 ++ [z]) (Some y) → seg h3 (Some x) l2 None → (pv = None ∨ pv = last ((l0 ++ [z]) ++ y :: l2)) →
  NoDup ((l0 ++ [z]) ++ x :: l2) → y ∉ l0 ++ [z] → x ≠ y → a ∉ D →
  ∃ h', replace_previous h3 (Some a) (Some y) (Some x) = Ok h' ∧ edited a D h h' ∧ container h' a ((l0 ++ [z]) ++ x :: l2) ∧ h' !! y = Some m.
Proof.
  intros D He3 Ea3 Hc Em3 Ex3 Hxp Hxn Hs1 Hs3 Hpv Hnd Hy1 Hxy Ha. destruct (exists_head l0 z) as (p & l' & El).
  assert (p ∈ l0 ++ [z]) as Hp by (rewrite El; constructor). assert (z ∈ l0 ++ [z]) as Hz by set_solver.
  pose proof Hnd as (Hnd1 & Hdis & (Hx2 & Hnd2)%NoDup_cons)%NoDup_app.
  assert (x ∉ l0 ++ [z]) as Hx1 by (intros Hin; apply (Hdis x Hin); constructor).
  assert (p ≠ y ∧ p ≠ x ∧ z ≠ x ∧ z ≠ y) as (Hpy & Hpx & Hzx & Hzy) by (split_and!; congruence).
  assert (z ∈ D ∧ p ∈ D ∧ x ∈ D ∧ a ≠ z ∧ a ≠ p ∧ a ≠ x ∧ z ∉ l2) as (HzD & HpD & HxD & Haz & Hap & Hax & Hz2).
  { unfold D in *. split_and!; [set_solver..|]. intros Hin. apply (Hdis z Hz). by constructor. }
  unfold replace_previous. rewrite (rd_Ok nd_child _ _ _ Ea3), ok_bind, Hc, El. cbn [head]. rewrite bool_decide_eq_false_2 by congruence.
  rewrite (rd_Ok prev _ _ _ Ex3), ok_bind, Hxp, bool_decide_eq_true_2 by done.
  destruct (seg_next_new _ _ _ _ _ (Some x) Hnd1 Hs1) as (k & Ek & -> & Hs4). rewrite ok_bind. set (h4 := <[z := _]> h3) in *.
  assert (h4 !! x = Some nx ∧ h4 !! a = Some n ∧ h4 !! y = Some m) as (Ex4 & Ea4 & Em4) by (unfold h4; by rewrite !lookup_insert_ne).
  assert (edited a D h h4) as He4 by (etrans; [exact He3|by apply (edited_link a D h3 z k)]).
  assert (seg h4 pv ((l0 ++ [z]) ++ x :: l2) None) as Hs.
  { apply seg_app. split; [done|]. rewrite last_or_snoc. split; [by exists nx|by apply seg_insert]. }
  assert (a ∉ (l0 ++ [z]) ++ x :: l2) as Hal by (unfold D in Ha; set_solver).
  rewrite (rd_Ok next _ _ _ Ex4), ok_bind, Hxn. destruct l2 as [|w l2]; cbn [hd_or].
  - rewrite bool_decide_eq_true_2 by done. rewrite (rd_Ok nd_child _ _ _ Ea4), ok_bind, Hc, El. cbn [head].
    rewrite El in Hs, Hnd. rewrite ?El. destruct (seg_prev_new _ _ _ _ _ (Some x) Hnd Hs) as (k' & Ek' & -> & Hs5). eexists. split; [done|].
    split; [etrans; [exact He4|by apply (edited_link a D h4 p k')]|]. split; [|by rewrite lookup_insert_ne].
    split; [exists n; rewrite lookup_insert_ne, Hc, El by done; done|]. split; [|by rewrite <- El]. split; [done|]. exists (Some x). split; [done|].
    right. by rewrite last_snoc.
  - rewrite bool_decide_eq_false_2 by done. exists h4. split; [done|]. split; [done|]. split; [|done].
    assert (container h4 a ((l0 ++ [z]) ++ x :: w :: l2)) as Hdone; [|by rewrite El in Hdone].
    split; [exists n; split; [exact Ea4|by rewrite Hc, El]|]. split; [|done]. split; [done|]. exists pv. split; [done|].
    rewrite !last_app, !last_cons_cons in *. done.
Qed.

Lemma replace_links h a l1 y l2 x nx : container h a (l1 ++ y :: l2) → x ≠ a → x ∉ l1 ++ y :: l2 → h !! x = Some nx →
  ∃ h', cJSON_ReplaceItemViaPointer h (Some a) (Some y) (Some x) = (h ← cJSON_Delete h' (Some y); Ok (true, h)) ∧
    edited a (x :: l1 ++ y :: l2) h h' ∧ container h' a (l1 ++ x :: l2) ∧ ∃ n, h' !! y = Some n ∧ next n = None.
Proof.
  intros Hcon Hxa Hxl Ex. unfold cJSON_ReplaceItemViaPointer. rewrite !bool_decide_eq_false_2 by done. cbn [orb].
  destruct (container_split _ _ _ _ _ Hcon) as (n & m & pv & (Ea & Hc) & (Em & Hmp & Hmn) & (Hs1 & Hs2 & Hpv) & (Hnd1 & Hnd2 & Hy1 & Hy2 & Hdis) & (Ha1 & Hay & Ha2)).
  set (D := x :: l1 ++ y :: l2) in *. assert (x ≠ y ∧ x ∉ l1 ∧ x ∉ l2) as (Hxy & Hx1 & Hx2) by set_solver.
  assert (x ∈ D ∧ y ∈ D) as [HxD HyD] by (unfold D; set_solver). rewrite bool_decide_eq_false_2 by congruence.
  rewrite (rd_Ok next _ _ m), ok_bind, Hmn by done.
  destruct (link_new h a D x nx (hd_or l2 None) (last_or l1 pv) Ex HxD Hxa) as (-> & Ew & He2 & Ex2 & Hsame). set (h2 := <[x := set_prev _ _]> _) in *.
  rewrite ok_bind. destruct (Hsame y) as [Hy1' Hy2']; [done|]. rewrite (rd_Ok prev _ _ m), ok_bind, Hmp, Ew, ok_bind by congruence.
  set (nx' := set_prev (last_or l1 pv) (set_next (hd_or l2 None) nx)) in *. rewrite (rd_Ok next _ _ _ Ex2), ok_bind. change (next nx') with (hd_or l2 None).
  assert (∃ h3, (if bool_decide (hd_or l2 None ≠ None) then wr (set_prev (Some x)) h2 (hd_or l2 None) else Ok h2) = Ok h3 ∧
    edited a D h h3 ∧ seg h3 (Some x) l2 None ∧ ∀ q, q ∉ l2 → h3 !! q = h2 !! q) as (h3 & -> & He3 & Hs3 & Hh3).
  { destruct l2 as [|w l2]; cbn [hd_or]; [rewrite bool_decide_eq_false_2 by (intros []; done); by exists h2|].
    rewrite bool_decide_eq_true_2 by done. assert (seg h2 (Some y) (w :: l2) None) as Hs2'.
    { eapply seg_frame; [|exact Hs2]. intros q Hq. apply Hsame. congruence. }
    destruct (seg_prev_new _ _ _ _ _ (Some x) Hnd2 Hs2') as (k & Ek & -> & Hs'). eexists. split; [done|]. split; [|split; [done|]].
    - etrans; [exact He2|]. apply (edited_link a D h2 w k); [done|done|unfold D; set_solver|set_solver].
    - intros q Hq. rewrite lookup_insert_ne; [done|]. intros ->. apply Hq. constructor. }
  rewrite ok_bind. assert (∀ q, q ∉ l2 → q ≠ x → h3 !! q = h !! q) as Hh by (intros q ? ?; rewrite Hh3 by done; by apply Hsame).
  assert (h3 !! a = Some n ∧ h3 !! y = Some m ∧ h3 !! x = Some nx') as (Ea3 & Em3 & Ex3) by (rewrite !Hh by congruence; by rewrite Hh3).
  assert (seg h3 pv l1 (Some y)) as Hs1' by (eapply seg_frame; [|exact Hs1]; intros q Hq; apply Hh; [by intros ?%Hdis|congruence]).
  assert (NoDup (l1 ++ x :: l2)) as Hnd by (apply NoDup_join; [done|by apply NoDup_cons|]; intros q [->|Hq]%elem_of_cons; [done|by apply Hdis]).
  assert (a ∉ D) as HaD by (unfold D; set_solver).
  assert (∃ h4, replace_previous h3 (Some a) (Some y) (Some x) = Ok h4 ∧ edited a D h h4 ∧ container h4 a (l1 ++ x :: l2) ∧ h4 !! y = Some m)
    as (h4 & -> & He4 & Hcon4 & Em4).
  { destruct (nil_or_snoc l1) as [->|(l0 & z & ->)]; [by eapply (replace_at_first h h3 a x y l2 n m nx' pv)|].
    eapply (replace_at_later h h3 a l0 z x y l2 n m nx' pv); try done; [rewrite Hc; by destruct l0|cbn; by rewrite last_or_snoc]. }
  rewrite ok_bind. apply (dropped_links h h4 a D _ true y m); [done|done|set_solver|done|done|done].
Qed.
End replace.
