(* ===== verification/CJsonForest.v ===== *)
(** * CJsonForest: trees of items in the heap, and the values they hold

    [item h p v F]: the node [p] of [h] is the root of a tree that holds the value [v] in
    the nodes of [F], and in no others.  A reference owns no children.  Deleting such a tree
    frees [F]; relinking the children of a container rearranges them. *)

From stdpp Require Import gmap sets.
From S2P Require Import Prelude CDouble CJson CJsonRender CJsonOps CJsonTree CJsonLinks.
#[local] Open Scope Z_scope.

(** ** Footprints that do not overlap *)
Fixpoint apart (Fs : list (gset nat)) : Prop :=
  match Fs with [] => True | X :: Fs => X ## ⋃ Fs ∧ apart Fs end.

Lemma apart_perm Fs Gs : Fs ≡ₚ Gs → apart Fs → apart Gs.
Proof.
  induction 1 as [|X Fs Gs Hp IH|X Y Fs|Fs Gs Hs _ IH1 _ IH2]; cbn [apart union_list foldr]; [done|..|naive_solver].
  - intros [Hd Ha]. split; [|by apply IH]. rewrite <- (union_list_permutation_proper_L _ _ Hp). done.
  - set_solver.
Qed.

Lemma apart_lookup Fs i j X Y q : apart Fs → Fs !! i = Some X → Fs !! j = Some Y → q ∈ X → q ∈ Y → i = j.
Proof.
  assert (∀ i (Fs : list (gset nat)) Z, Fs !! i = Some Z → Z ⊆ ⋃ Fs) as Hsub.
  { intros k Gs Z Hk q' Hq. apply elem_of_union_list. exists Z. split; [by eapply list_elem_of_lookup_2|done]. }
  revert i j. induction Fs as [|Z Fs IH]; intros i j Ha Hi Hj HX HY; [done|]. destruct Ha as [Hd Ha].
  destruct i as [|i], j as [|j]; [done|..]; cbn in Hi, Hj; [| |f_equal; by apply IH];
    exfalso; [apply Hsub in Hj|apply Hsub in Hi]; set_solver.
Qed.

(** ** Trees *)
Section forest.
Context `{CJsonH}.

Definition fields (n : node) (v : cJSON) : Prop :=
  nd_type n = type_ v ∧ nd_valuestring n = valuestring v ∧ nd_valueint n = valueint v ∧
  nd_valuedouble n = valuedouble v ∧ nd_string n = string_ v.

Inductive item (h : cheap) : nat → cJSON → gset nat → Prop :=
  | item_ref p n v : h !! p = Some n → fields n v → is_ref (type_ v) = true → child v = [] → item h p v {[p]}
  | item_own p n v l Fs : h !! p = Some n → fields n v → is_ref (type_ v) = false → nd_child n = head l → chain h l →
      Forall3 (item h) l (child v) Fs → apart ({[p]} :: Fs) → item h p v ({[p]} ∪ ⋃ Fs).

Lemma item_root h p v F : item h p v F → p ∈ F ∧ ∃ n, h !! p = Some n ∧ fields n v.
Proof. destruct 1; (split; [set_solver|by eexists]). Qed.

Lemma items_cover h l vs Fs q : Forall3 (item h) l vs Fs → q ∈ l → q ∈ ⋃ Fs.
Proof.
  induction 1 as [|p v F l vs Fs Hi _ IH]; [by intros ?%elem_of_nil|]. cbn [union_list foldr]. apply item_root in Hi as [? _].
  intros [->|?]%elem_of_cons; set_solver.
Qed.

Lemma Forall3_change {A B C} (P Q : A → B → C → Prop) l k m :
  (∀ i x y z, l !! i = Some x → k !! i = Some y → m !! i = Some z → P x y z → Q x y z) → Forall3 P l k m → Forall3 Q l k m.
Proof.
  intros HPQ HF. induction HF as [|x y z l k m Hx HF IH]; constructor; [by apply (HPQ 0%nat x y z)|].
  apply IH. intros i. apply (HPQ (S i)).
Qed.

Lemma in_union (Fs : list (gset nat)) i F : Fs !! i = Some F → F ⊆ ⋃ Fs.
Proof. intros Hi q Hq. apply elem_of_union_list. exists F. split; [by eapply list_elem_of_lookup_2|done]. Qed.

Lemma item_inv h p v F : item h p v F → ∃ n, h !! p = Some n ∧ fields n v ∧
  (is_ref (type_ v) = true ∧ child v = [] ∧ F = {[p]} ∨
   is_ref (type_ v) = false ∧ ∃ l Fs, nd_child n = head l ∧ chain h l ∧ Forall3 (item h) l (child v) Fs ∧
     apart ({[p]} :: Fs) ∧ F = {[p]} ∪ ⋃ Fs).
Proof. destruct 1; eexists; (split; [done|]); (split; [done|]); [by left|right]. split; [done|]. by eexists _, _. Qed.

(** A tree depends on its nodes only, and not on how its root is linked. *)
Lemma item_relink h h' v : ∀ p F, (∀ q, q ∈ F → q ≠ p → h' !! q = h !! q) →
  (∀ n, h !! p = Some n → ∃ n', h' !! p = Some n' ∧ relinked n n') → item h p v F → item h' p v F.
Proof.
  induction v as [t vs vi vd s ch IH] using cJSON_tree_ind. intros p F Hq Hp Hi. rewrite Forall_forall in IH.
  apply item_inv in Hi as (n & E & Hf & Hcase). destruct (Hp n E) as (n' & E' & R). unfold relinked in R. destruct_and! R.
  assert (fields n' (Item t vs vi vd s ch)) as Hf' by (unfold fields in *; destruct_and! Hf; split_and!; congruence).
  destruct Hcase as [(Hr & Hc & ->)|(Hr & l & Fs & Hc & Hch & HF & Ha & ->)]; [by eapply item_ref|].
  pose proof Ha as [Hpd _]. assert (∀ q, q ∈ ⋃ Fs → h' !! q = h !! q) as Hq' by (intros q Hin; apply Hq; set_solver).
  apply (item_own _ _ n' _ l Fs); [done|done|done|congruence| | |done].
  - eapply chain_frame, Hch. intros q Hql. apply Hq'. by eapply items_cover.
  - eapply Forall3_change; [|exact HF]. intros i x y F' Hx Hy HF' Hxy. pose proof (in_union _ _ _ HF') as Hsub.
    apply IH; [by eapply list_elem_of_lookup_2|intros q Hin _; by apply Hq', Hsub| |done].
    intros m Em. exists m. split; [|done]. rewrite Hq'; [done|]. apply Hsub. by apply item_root in Hxy as [? _].
Qed.

Lemma item_frame h h' p v F : (∀ q, q ∈ F → h' !! q = h !! q) → item h p v F → item h' p v F.
Proof.
  intros Hq Hi. eapply item_relink; [intros q Hin _; by apply Hq| |exact Hi]. intros n E. exists n. split; [|done].
  rewrite Hq; [done|]. by apply item_root in Hi as [? _].
Qed.

Lemma items_frame h h' l vs Fs : (∀ q, q ∈ ⋃ Fs → h' !! q = h !! q) → Forall3 (item h) l vs Fs → Forall3 (item h') l vs Fs.
Proof.
  intros Hq. apply Forall3_change. intros i x y F _ _ HF. apply item_frame. intros q Hin. apply Hq. by eapply in_union.
Qed.

Lemma item_dom h v : ∀ p F q, item h p v F → q ∈ F → is_Some (h !! q).
Proof.
  induction v as [t vs vi vd s ch IH] using cJSON_tree_ind. intros p F q Hi Hq. rewrite Forall_forall in IH.
  apply item_inv in Hi as (n & E & _ & [(_ & _ & ->)|(_ & l & Fs & _ & _ & HF & _ & ->)]).
  - apply elem_of_singleton in Hq as ->. by eexists.
  - apply elem_of_union in Hq as [->%elem_of_singleton|Hq]; [by eexists|].
    apply elem_of_union_list in Hq as (X & HX & Hq). apply list_elem_of_lookup in HX as [i Hi].
    destruct (Forall3_lookup_r _ _ _ _ _ _ HF Hi) as (x & y & Hx & Hy & Hxy). eapply IH; [by eapply list_elem_of_lookup_2|exact Hxy|done].
Qed.

(** ** Deletion frees the tree and nothing else *)
Definition removed (F : gset nat) (h : cheap) : cheap := filter (λ kn, kn.1 ∉ F) h.

Lemma lookup_removed F h q : removed F h !! q = if decide (q ∈ F) then None else h !! q.
Proof.
  unfold removed. case_decide as Hq.
  - apply map_lookup_filter_None. right. intros n _ Hn. by apply Hn.
  - destruct (h !! q) as [n|] eqn:E; [by apply map_lookup_filter_Some|]. apply map_lookup_filter_None. by left.
Qed.

Lemma free_root h F p : is_Some (h !! p) → p ∉ F → free (removed F h) (Some p) = Ok (removed ({[p]} ∪ F) h).
Proof.
  intros [n E] Hp. unfold free. cbn [of_opt]. rewrite ok_bind, lookup_removed, decide_False, E by done. cbn [of_opt]. rewrite ok_bind.
  f_equal. apply map_eq. intros q. destruct (decide (q = p)) as [->|].
  - by rewrite lookup_delete_eq, lookup_removed, decide_True by set_solver.
  - rewrite lookup_delete_ne, !lookup_removed by done. repeat case_decide; set_solver.
Qed.

Lemma removed_twice F G h : removed G (removed F h) = removed (F ∪ G) h.
Proof. apply map_eq. intros q. rewrite !lookup_removed. repeat case_decide; set_solver. Qed.

Lemma removed_empty h : removed ∅ h = h.
Proof. apply map_eq. intros q. by rewrite lookup_removed, decide_False by set_solver. Qed.

Lemma delete_loop_spec fuel : ∀ h pv l vs Fs, seg h pv l None → NoDup l → Forall3 (item h) l vs Fs → apart Fs → (size (⋃ Fs) < fuel)%nat →
  delete_loop fuel h (head l) = Ok (removed (⋃ Fs) h).
Proof.
  induction fuel as [|fuel IH]; intros h pv l vs Fs Hs Hnd HF Ha Hf; [lia|].
  destruct HF as [|p v F l vs Fs Hi HF]; cbn [delete_loop head union_list foldr]; [by rewrite removed_empty|].
  destruct Hs as [(n & E & _ & Hn) Hs], Ha as [Hd Ha]. apply NoDup_cons in Hnd as [Hpl Hnd].
  rewrite (rd_Ok next _ _ _ E), ok_bind, Hn, (rd_Ok nd_type _ _ _ E), ok_bind, (rd_Ok nd_child _ _ _ E), ok_bind.
  pose proof (item_dom _ _ _ _ p Hi) as Hpd. destruct (item_root _ _ _ _ Hi) as [HpF _]. specialize (Hpd HpF).
  change (foldr union ∅ Fs) with (⋃ Fs). assert (∀ q, q ∈ ⋃ Fs → removed F h !! q = h !! q) as Hkeep.
  { intros q Hq. rewrite lookup_removed, decide_False; [done|]. set_solver. }
  assert (delete_loop fuel (removed F h) (hd_or l None) = Ok (removed (⋃ Fs) (removed F h))) as Hrest.
  { replace (hd_or l None) with (head l) by (by destruct l). eapply (IH _ (Some p) l vs Fs); [|done| |done|].
    - eapply seg_frame, Hs. intros q Hq. apply Hkeep. by eapply items_cover.
    - by eapply items_frame.
    - eapply Nat.lt_le_trans; [apply (subset_size (⋃ Fs) (F ∪ ⋃ Fs)); set_solver|]. cbn in Hf. lia. }
  enough (∃ F0, F = {[p]} ∪ F0 ∧ p ∉ F0 ∧ (if negb (is_ref (nd_type n)) && bool_decide (nd_child n ≠ None) then delete_loop fuel h (nd_child n) else Ok h) = Ok (removed F0 h))
    as (F0 & -> & Hp0 & ->) by (rewrite ok_bind, free_root, ok_bind, Hrest, removed_twice by done; done).
  apply item_inv in Hi as (n' & E' & Hfd & Hcase). assert (n' = n) as -> by congruence. destruct Hfd as (-> & _).
  destruct Hcase as [(-> & _ & ->)|(-> & lc & Fs0 & -> & (Hndc & pvc & Hsc & _) & HFc & [Hpd0 Ha0] & ->)].
  { exists ∅. split; [set_solver|]. split; [set_solver|]. by rewrite removed_empty. }
  exists (⋃ Fs0). split; [done|]. split; [set_solver|]. cbn [negb andb]. destruct lc as [|c lc]; cbn [head].
  { inversion HFc; subst. rewrite bool_decide_eq_false_2 by (intros []; done). by rewrite removed_empty. }
  rewrite bool_decide_eq_true_2 by done. eapply (IH h pvc (c :: lc)); [done|done|done|done|].
  eapply Nat.lt_le_trans; [apply (subset_size (⋃ Fs0) (({[p]} ∪ ⋃ Fs0) ∪ ⋃ Fs)); set_solver|]. cbn in Hf. lia.
Qed.

Lemma delete_item h p v F n : item h p v F → h !! p = Some n → next n = None → cJSON_Delete h (Some p) = Ok (removed F h).
Proof.
  intros Hi E Hn. unfold cJSON_Delete. replace F with (⋃ [F]) by (cbn; set_solver).
  apply (delete_loop_spec (chain_fuel h) h (prev n) [p] [v] [F]); [by eapply seg_single|apply NoDup_singleton|by repeat constructor|cbn; set_solver|].
  unfold chain_fuel. rewrite <- size_dom. apply le_n_S, subseteq_size. intros q. rewrite elem_of_dom. intros Hq.
  eapply item_dom; [exact Hi|]. cbn in Hq. set_solver.
Qed.

(** ** Rearranged children *)
Definition set_children (v : cJSON) (ch : list cJSON) : cJSON :=
  Item (type_ v) (valuestring v) (valueint v) (valuedouble v) (string_ v) ch.

Lemma item_container h a v F : item h a v F → is_ref (type_ v) = false → ∃ n l Fs,
  h !! a = Some n ∧ fields n v ∧ container h a l ∧ Forall3 (item h) l (child v) Fs ∧ apart ({[a]} :: Fs) ∧ F = {[a]} ∪ ⋃ Fs.
Proof.
  intros Hi Hr. apply item_inv in Hi as (n & E & Hf & [(Hr' & _)|(_ & l & Fs & Hc & Hch & HF & Ha & ->)]); [congruence|].
  exists n, l, Fs. split; [done|]. split; [done|]. split; [|done]. split; [by exists n|]. split; [done|]. destruct Ha as [Hd _]. intros Hin. apply (items_cover _ _ _ _ _ HF) in Hin. set_solver.
Qed.

Lemma item_edit h h' a v n D l Fs vs : h !! a = Some n → fields n v → is_ref (type_ v) = false → edited a D h h' →
  container h' a l → Forall3 (item h) l vs Fs → apart ({[a]} :: Fs) → (∀ q, q ∈ D → q ∈ l ∨ q ∉ ⋃ Fs) →
  item h' a (set_children v vs) ({[a]} ∪ ⋃ Fs) ∧ ∃ c, h' !! a = Some (set_child c n).
Proof.
  intros E Hf Hr (Hea & HeD & Hsame) ((n' & E' & Hc) & Hch & Hal) HF Ha HD. destruct (Hea n E) as [c Ec].
  split; [|by exists c]. rewrite Ec in E'. injection E' as <-.
  apply (item_own _ _ (set_child c n) _ l Fs); [done|done|done|done|done| |done].
  eapply Forall3_change; [|exact HF]. intros i x y F Hx Hy HFi Hxy. cbn [apart] in Ha. destruct Ha as [Had Ha].
  pose proof (in_union _ _ _ HFi) as Hsub. assert (x ∈ l) as Hxl by (by eapply list_elem_of_lookup_2).
  assert (∀ q, q ∈ F → q ≠ a) as Hqa by (intros q Hq ->; set_solver). destruct (item_root _ _ _ _ Hxy) as [HxF (m & Em & _)].
  eapply item_relink; [| |exact Hxy].
  - intros q Hq Hqx. apply Hsame; [|by apply Hqa]. intros HqD. destruct (HD q HqD) as [Hql|Hqn]; [|by apply Hqn, Hsub].
    apply list_elem_of_lookup in Hql as [j Hj]. destruct (Forall3_lookup_l _ _ _ _ _ _ HF Hj) as (y' & F' & _ & HFj & Hj').
    apply item_root in Hj' as [Hq' _]. assert (i = j) as <- by (by eapply apart_lookup). congruence.
  - intros k Ek. destruct (decide (x ∈ D)) as [HxD|HxD]; [by apply HeD; [|apply Hqa|]|]. exists k. split; [|done]. rewrite Hsame; [done|done|by apply Hqa].
Qed.

(** A tree of its own: nothing follows its root. *)
Definition tree (h : cheap) (p : nat) (v : cJSON) (F : gset nat) : Prop :=
  item h p v F ∧ ∃ n, h !! p = Some n ∧ next n = None.

Lemma tree_edit h h' a v F n D l Fs vs : tree h a v F → h !! a = Some n → fields n v → is_ref (type_ v) = false → edited a D h h' →
  container h' a l → Forall3 (item h) l vs Fs → apart ({[a]} :: Fs) → (∀ q, q ∈ D → q ∈ l ∨ q ∉ ⋃ Fs) →
  tree h' a (set_children v vs) ({[a]} ∪ ⋃ Fs).
Proof.
  intros [_ (n0 & E0 & Hn0)] E Hf Hr He Hcon HF Ha HD. destruct (item_edit h h' a v n D l Fs vs) as [Hi [c Ec]]; try done.
  split; [done|]. eexists. split; [exact Ec|]. cbn. congruence.
Qed.

(** A container opened: its node, its children and their footprints. *)
Record opened (h : cheap) (a : nat) (v : cJSON) (F : gset nat) (n : node) (l : list nat) (Fs : list (gset nat)) : Prop := {
  op_tree : tree h a v F;
  op_node : h !! a = Some n;
  op_fields : fields n v;
  op_own : is_ref (type_ v) = false;
  op_links : container h a l;
  op_items : Forall3 (item h) l (child v) Fs;
  op_apart : apart ({[a]} :: Fs);
  op_foot : F = {[a]} ∪ ⋃ Fs
}.

Lemma tree_open h a v F : tree h a v F → is_ref (type_ v) = false → ∃ n l Fs, opened h a v F n l Fs.
Proof.
  intros Ht Hr. pose proof Ht as [Hi _]. destruct (item_container _ _ _ _ Hi Hr) as (n & l & Fs & ? & ? & ? & ? & ? & ?).
  exists n, l, Fs. by constructor.
Qed.

Lemma opened_cover h a v F n l Fs q : opened h a v F n l Fs → q ∈ l → q ∈ ⋃ Fs ∧ q ∈ F.
Proof.
  intros Ho Hq. pose proof (items_cover _ _ _ _ q (op_items _ _ _ _ _ _ _ Ho) Hq). split; [done|].
  rewrite (op_foot _ _ _ _ _ _ _ Ho). set_solver.
Qed.

Lemma opened_edit h h' a v F n l0 Fs0 D l Fs vs : opened h a v F n l0 Fs0 → edited a D h h' → container h' a l →
  Forall3 (item h) l vs Fs → apart ({[a]} :: Fs) → (∀ q, q ∈ D → q ∈ l ∨ q ∉ ⋃ Fs) → tree h' a (set_children v vs) ({[a]} ∪ ⋃ Fs).
Proof. intros []. by eapply tree_edit. Qed.

(** A new child between two others. *)
Lemma put_apart (a : gset nat) Fs1 Fs2 Fx : apart (a :: Fs1 ++ Fs2) → a ∪ ⋃ (Fs1 ++ Fs2) ## Fx →
  apart (a :: Fs1 ++ Fx :: Fs2) ∧ a ∪ ⋃ (Fs1 ++ Fx :: Fs2) = (a ∪ ⋃ (Fs1 ++ Fs2)) ∪ Fx.
Proof.
  intros Ha Hd. assert (Fs1 ++ Fx :: Fs2 ≡ₚ Fx :: Fs1 ++ Fs2) as Hp by (symmetry; apply Permutation_middle). split.
  - apply (apart_perm (a :: Fx :: Fs1 ++ Fs2)); [by apply perm_skip|]. cbn [apart] in *. destruct Ha as [Ha1 Ha2].
    cbn [union_list foldr]. change (foldr union ∅ (Fs1 ++ Fs2)) with (⋃ (Fs1 ++ Fs2)). split_and!; [set_solver..|done].
  - rewrite Hp. cbn [union_list foldr]. change (foldr union ∅ (Fs1 ++ Fs2)) with (⋃ (Fs1 ++ Fs2)). set_solver.
Qed.

Lemma put_tree h h' a va Fa n l1 l2 Fs x vx Fx vs1 vs2 : opened h a va Fa n (l1 ++ l2) Fs → tree h x vx Fx → Fa ## Fx →
  child va = vs1 ++ vs2 → length vs1 = length l1 → edited a (x :: l1 ++ l2) h h' → container h' a (l1 ++ x :: l2) →
  tree h' a (set_children va (vs1 ++ vx :: vs2)) (Fa ∪ Fx) ∧ ∀ q, q ∉ Fa ∪ Fx → h' !! q = h !! q.
Proof.
  intros Ho [Hx _] Hd Hch Hlen He Hcon. destruct (item_root _ _ _ _ Hx) as [HxF _].
  pose proof (op_items _ _ _ _ _ _ _ Ho) as HF. rewrite Hch in HF.
  apply Forall3_app_inv_l in HF as (vs1' & vs2' & Fs1 & Fs2 & Hvs & -> & HF1 & HF2).
  destruct (app_inj_1 _ _ _ _ ltac:(rewrite Hlen; exact (Forall3_length_lm _ _ _ _ HF1)) Hvs) as [<- <-].
  pose proof (op_foot _ _ _ _ _ _ _ Ho) as HFa. destruct (put_apart {[a]} Fs1 Fs2 Fx) as [Ha Heq]; [apply Ho|by rewrite <- HFa|].
  rewrite <- HFa in Heq. split.
  - rewrite <- Heq. eapply opened_edit; [exact Ho|exact He|exact Hcon|apply Forall3_app; [done|by constructor]|exact Ha|].
    intros q Hq. left. set_solver.
  - intros q Hq. eapply edited_same; [exact He| |set_solver]. intros [->|Hin]%elem_of_cons; [set_solver|].
    apply (opened_cover _ _ _ _ _ _ _ _ Ho) in Hin. set_solver.
Qed.

Lemma fresh_child h a va Fa n l Fs x vx Fx : opened h a va Fa n l Fs → tree h x vx Fx → Fa ## Fx → x ≠ a ∧ x ∉ l.
Proof.
  intros Ho [Hx _] Hd. apply item_root in Hx as [Hx _]. split; [rewrite (op_foot _ _ _ _ _ _ _ Ho) in Hd; set_solver|].
  intros Hin. apply (opened_cover _ _ _ _ _ _ _ _ Ho) in Hin. set_solver.
Qed.

Lemma add_tree h a va Fa n l Fs x vx Fx : opened h a va Fa n l Fs → tree h x vx Fx → Fa ## Fx →
  ∃ h', add_item_to_array h (Some a) (Some x) = Ok (true, h') ∧ tree h' a (set_children va (child va ++ [vx])) (Fa ∪ Fx) ∧
    ∀ q, q ∉ Fa ∪ Fx → h' !! q = h !! q.
Proof.
  intros Ho Hx Hd. destruct (fresh_child _ _ _ _ _ _ _ _ _ _ Ho Hx Hd) as [Hxa Hxl]. pose proof Hx as [_ (nx & Ex & Hnx)].
  destruct (add_links h a l x nx) as (h' & E' & He & Hcon'); [apply Ho|done..|]. exists h'. split; [done|].
  apply (put_tree h h' a va Fa n l [] Fs x vx Fx (child va) []); rewrite ?app_nil_r; try done.
  symmetry. eapply Forall3_length_lm, Ho.
Qed.

Lemma insert_tree h a va Fa n l Fs x vx Fx which : opened h a va Fa n l Fs → tree h x vx Fx → Fa ## Fx → 0 ≤ which →
  ∃ h', cJSON_InsertItemInArray h (Some a) which (Some x) = Ok (true, h') ∧
    tree h' a (set_children va (take (Z.to_nat which) (child va) ++ vx :: drop (Z.to_nat which) (child va))) (Fa ∪ Fx) ∧
    ∀ q, q ∉ Fa ∪ Fx → h' !! q = h !! q.
Proof.
  intros Ho Hx Hd Hw. pose proof (Forall3_length_lm _ _ _ _ (op_items _ _ _ _ _ _ _ Ho)) as Hlen.
  destruct (l !! Z.to_nat which) as [y|] eqn:Ey.
  - destruct (fresh_child _ _ _ _ _ _ _ _ _ _ Ho Hx Hd) as [Hxa Hxl]. pose proof Hx as [_ (nx & Ex & _)].
    pose proof (take_drop_middle _ _ _ Ey) as El. pose proof (lookup_lt_Some _ _ _ Ey) as Hlt. rewrite <- El in Ho, Hxl.
    destruct (insert_links h a (take (Z.to_nat which) l) y (drop (S (Z.to_nat which)) l) x nx which) as (h' & -> & He & Hcon');
      [apply Ho|done|done|done|done|rewrite length_take; lia|]. exists h'. split; [done|].
    eapply put_tree; [exact Ho|exact Hx|done|by rewrite take_drop|rewrite !length_take; lia|exact He|exact Hcon'].
  - apply lookup_ge_None in Ey. rewrite take_ge, drop_ge by lia. destruct (add_tree _ _ _ _ _ _ _ _ _ _ Ho Hx Hd) as (h' & E & Ht & Hsame).
    exists h'. split; [|done]. unfold cJSON_InsertItemInArray. destruct (Z.ltb_spec which 0); [lia|].
    rewrite (get_item_spec _ _ _ _ (op_links _ _ _ _ _ _ _ Ho)), ok_bind, (proj2 (lookup_ge_None l _)) by done. done.
Qed.

(** A child taken out: the two trees it leaves, after links of [D] have changed. *)
Lemma taken_tree h h' a va Fa n l1 y l2 Fs vs1 v vs2 D : opened h a va Fa n (l1 ++ y :: l2) Fs → child va = vs1 ++ v :: vs2 →
  length vs1 = length l1 → (∀ q, q ∈ D → q ∈ Fa → q ∈ l1 ++ y :: l2) → edited a D h h' → (∃ m, h' !! y = Some m ∧ next m = None) →
  ∃ Fs1 Fy Fs2, Fs = Fs1 ++ Fy :: Fs2 ∧ Forall3 (item h) l1 vs1 Fs1 ∧ Forall3 (item h) l2 vs2 Fs2 ∧ tree h' y v Fy ∧
    apart ({[a]} :: Fs1 ++ Fs2) ∧ {[a]} ∪ ⋃ (Fs1 ++ Fs2) ## Fy ∧ Fa = ({[a]} ∪ ⋃ (Fs1 ++ Fs2)) ∪ Fy.
Proof.
  intros Ho Hch Hlen HD He (m & Em & Hm). pose proof (op_items _ _ _ _ _ _ _ Ho) as HF. rewrite Hch in HF.
  apply Forall3_app_inv_l in HF as (vs1' & vs2' & Fs1 & Fs2' & Hvs & -> & HF1 & HF2).
  destruct (app_inj_1 _ _ _ _ ltac:(rewrite Hlen; exact (Forall3_length_lm _ _ _ _ HF1)) Hvs) as [<- <-].
  inversion HF2 as [|? ? Fy ? ? Fs2 Hy HF2']; subst. exists Fs1, Fy, Fs2. split; [done|]. split; [done|]. split; [done|].
  pose proof (op_apart _ _ _ _ _ _ _ Ho) as Ha. pose proof (op_foot _ _ _ _ _ _ _ Ho) as HFa.
  assert (Fs1 ++ Fy :: Fs2 ≡ₚ Fy :: Fs1 ++ Fs2) as Hp by (symmetry; apply Permutation_middle). rewrite Hp in HFa.
  pose proof Ha as [Had Hap]. apply (apart_perm _ _ (perm_skip {[a]} Hp)) in Ha. cbn [apart union_list foldr] in Ha, HFa.
  change (foldr union ∅ (Fs1 ++ Fs2)) with (⋃ (Fs1 ++ Fs2)) in Ha, HFa. destruct Ha as (Ha1 & Ha2 & Ha3).
  split; [|split; [cbn [apart]; split; [set_solver|done]|split; [set_solver|set_solver]]]. split; [|by exists m].
  destruct He as (Hea & HeD & Hsame). destruct (item_root _ _ _ _ Hy) as [HyF (k & Ek & _)]. assert (y ≠ a) as Hya by (intros ->; set_solver).
  eapply item_relink; [| |exact Hy].
  - intros q Hq Hqy. assert (q ≠ a) as Hqa by (intros ->; set_solver). apply Hsame; [|done]. intros HqD. apply HD in HqD; [|rewrite HFa; set_solver].
    apply list_elem_of_lookup in HqD as [j Hj]. assert (length l1 = length Fs1) as Hlen1 by (by eapply Forall3_length_lr).
    destruct (Forall3_lookup_l _ _ _ _ _ _ (op_items _ _ _ _ _ _ _ Ho) Hj) as (y' & F' & _ & HFj & [Hq' _]%item_root).
    assert (length Fs1 = j) as <-; [|rewrite <- Hlen1, list_lookup_middle in Hj by done; congruence].
    eapply apart_lookup; [exact Hap| |exact HFj|exact Hq|exact Hq']. by rewrite list_lookup_middle.
  - intros k' Ek'. destruct (decide (y ∈ D)) as [HyD|HyD]; [by apply HeD|]. exists k'. split; [by rewrite Hsame|done].
Qed.

Lemma detach_tree h a va Fa n l Fs i y v : opened h a va Fa n l Fs → l !! i = Some y → child va !! i = Some v →
  ∃ h' Fa' Fy, cJSON_DetachItemViaPointer h (Some a) (Some y) = Ok (Some y, h') ∧
    tree h' a (set_children va (delete i (child va))) Fa' ∧ tree h' y v Fy ∧ Fa' ## Fy ∧ Fa = Fa' ∪ Fy ∧
    ∀ q, q ∉ Fa → h' !! q = h !! q.
Proof.
  intros Ho Hy Hv. pose proof (lookup_lt_Some _ _ _ Hy) as Hlt. pose proof (lookup_lt_Some _ _ _ Hv) as Hlt'.
  pose proof (take_drop_middle _ _ _ Hy) as El. pose proof (take_drop_middle _ _ _ Hv) as Ev.
  rewrite <- El in Ho. destruct (detach_links h a (take i l) y (drop (S i) l)) as (h' & -> & He & Hcon & Hm); [apply Ho|].
  edestruct (taken_tree h h' a va Fa n (take i l) y (drop (S i) l) Fs) as (Fs1 & Fy & Fs2 & -> & HF1 & HF2 & Ty & Ha & Hd & HFa);
    [exact Ho|by rewrite Ev|rewrite !length_take; lia|by intros q Hq _|exact He|exact Hm|].
  exists h', ({[a]} ∪ ⋃ (Fs1 ++ Fs2)), Fy. split; [done|]. split; [|split; [done|split; [done|split; [done|]]]].
  - rewrite delete_take_drop. eapply opened_edit; [exact Ho|exact He|exact Hcon|by apply Forall3_app|exact Ha|].
    intros q Hq. destruct (decide (q = y)) as [->|]; [right|left; set_solver]. destruct Ty as [[HyF _]%item_root _]. set_solver.
  - intros q Hq. eapply edited_same; [exact He| |set_solver]. intros Hin. apply (opened_cover _ _ _ _ _ _ _ _ Ho) in Hin. set_solver.
Qed.

Lemma tree_frame h h' p v F : (∀ q, q ∈ F → h' !! q = h !! q) → tree h p v F → tree h' p v F.
Proof.
  intros Hq [Hi (n & E & Hn)]. split; [by eapply item_frame|]. exists n. rewrite Hq; [done|]. by apply item_root in Hi as [? _].
Qed.

Lemma replace_tree h a va Fa n l Fs i y v x vx Fx : opened h a va Fa n l Fs → l !! i = Some y → child va !! i = Some v →
  tree h x vx Fx → Fa ## Fx →
  ∃ h' Fa', cJSON_ReplaceItemViaPointer h (Some a) (Some y) (Some x) = Ok (true, h') ∧
    tree h' a (set_children va (<[i := vx]> (child va))) Fa' ∧ Fa' ⊆ Fa ∪ Fx ∧ (∀ q, q ∉ Fa ∪ Fx → h' !! q = h !! q) ∧
    ∀ q, q ∈ Fa ∪ Fx → q ∉ Fa' → h' !! q = None.
Proof.
  intros Ho Hy Hv Hx Hd. pose proof (lookup_lt_Some _ _ _ Hy) as Hlt. pose proof (lookup_lt_Some _ _ _ Hv) as Hlt'.
  pose proof (take_drop_middle _ _ _ Hy) as El. pose proof (take_drop_middle _ _ _ Hv) as Ev.
  destruct (fresh_child _ _ _ _ _ _ _ _ _ _ Ho Hx Hd) as [Hxa Hxl]. pose proof Hx as [Hxi (nx & Ex & _)]. rewrite <- El in Ho, Hxl.
  destruct (item_root _ _ _ _ Hxi) as [HxF _].
  destruct (replace_links h a (take i l) y (drop (S i) l) x nx) as (h1 & -> & He & Hcon & Hm); [apply Ho|done|done|done|].
  edestruct (taken_tree h h1 a va Fa n (take i l) y (drop (S i) l) Fs) as (Fs1 & Fy & Fs2 & -> & HF1 & HF2 & Ty & Ha & Hdy & HFa);
    [exact Ho|by rewrite Ev|rewrite !length_take; lia| |exact He|exact Hm|]; [intros q [->|Hq]%elem_of_cons; [set_solver|done]|].
  destruct (put_apart {[a]} Fs1 Fs2 Fx Ha) as [Ha' Heq]; [set_solver|]. pose proof Ty as [[HyF _]%item_root _].
  destruct Hm as (m & Em & Hm). rewrite (delete_item h1 y v Fy m), ok_bind by (done || apply Ty).
  exists (removed Fy h1), ({[a]} ∪ ⋃ (Fs1 ++ Fx :: Fs2)). split; [done|]. split; [|split; [rewrite Heq; set_solver|split]].
  - rewrite (insert_take_drop _ _ _ Hlt'). eapply (tree_frame h1).
    2: { eapply opened_edit; [exact Ho|exact He|exact Hcon|apply Forall3_app; [exact HF1|by constructor]|exact Ha'|].
         intros q Hq. destruct (decide (q = y)) as [->|]; [right; rewrite union_list_app_L; cbn; rewrite union_list_app_L in *; set_solver|left; set_solver]. }
    intros q Hq. rewrite lookup_removed, decide_False; [done|]. rewrite Heq in Hq. set_solver.
  - intros q Hq. rewrite lookup_removed, decide_False by set_solver. eapply edited_same; [exact He| |set_solver].
    intros [->|Hin]%elem_of_cons; [set_solver|]. apply (opened_cover _ _ _ _ _ _ _ _ Ho) in Hin. set_solver.
  - intros q Hq Hn. rewrite lookup_removed, decide_True; [done|]. rewrite Heq in Hn. set_solver.
Qed.

(** ** Other changes to a root *)
Definition with_key (t : Z) (k : option (list Z)) (v : cJSON) : cJSON :=
  Item t (valuestring v) (valueint v) (valuedouble v) k (child v).

Lemma with_key_tree h x v F n t k : tree h x v F → h !! x = Some n → is_ref t = is_ref (type_ v) →
  tree (<[x := set_type t (set_string k n)]> h) x (with_key t k v) F ∧
  ∀ q, q ∉ F → <[x := set_type t (set_string k n)]> h !! q = h !! q.
Proof.
  intros [Hi (n' & E' & Hn)] E Ht. assert (n' = n) as -> by congruence. pose proof Hi as [HxF _]%item_root. split; [split|].
  - apply item_inv in Hi as (n' & E2 & Hf & Hcase). assert (n' = n) as -> by congruence.
    assert (fields (set_type t (set_string k n)) (with_key t k v)) as Hf' by (unfold fields in *; destruct_and! Hf; by split_and!).
    destruct Hcase as [(Hr & Hc & ->)|(Hr & l & Fs & Hc & Hch & HF & Ha & ->)].
    { eapply item_ref; [by rewrite lookup_insert_eq|done|cbn; congruence|done]. }
    pose proof Ha as [Had _]. assert (∀ q, q ∈ ⋃ Fs → <[x := set_type t (set_string k n)]> h !! q = h !! q) as Hq.
    { intros q Hq. rewrite lookup_insert_ne; [done|]. intros ->. set_solver. }
    eapply (item_own _ _ (set_type t (set_string k n)) _ l Fs); [by rewrite lookup_insert_eq|done|cbn; congruence|done| | |done].
    + eapply chain_frame, Hch. intros q Hql. apply Hq. by eapply items_cover.
    + by eapply items_frame.
  - exists (set_type t (set_string k n)). by rewrite lookup_insert_eq.
  - intros q Hq. rewrite lookup_insert_ne; [done|congruence].
Qed.

Definition reference (v : cJSON) : cJSON :=
  Item (Z.lor (type_ v) cJSON_IsReference) (valuestring v) (valueint v) (valuedouble v) None [].

(** A reference to any item, at a new address. *)
Lemma reference_tree h p n v : h !! p = None → fields n v → is_ref (Z.lor (type_ v) cJSON_IsReference) = true →
  let r := set_prev None (set_next None (set_type (Z.lor (nd_type n) cJSON_IsReference) (set_string None n))) in
  tree (<[p := r]> h) p (reference v) {[p]}.
Proof.
  intros Hp Hf Hr r. split; [|exists r; by rewrite lookup_insert_eq]. eapply item_ref; [by rewrite lookup_insert_eq| |done|done].
  unfold fields in *. destruct_and! Hf. unfold r. cbn. split_and!; congruence.
Qed.
End forest.

(** C21. [cJSON_Delete] on the root of a tree of items returns and frees exactly the nodes
    of the tree, each one once; children that an item only refers to stay, and so does every
    node of another tree. *)
Theorem delete_frees_exactly `{CJsonH} (h : gmap nat node) (p : nat) (v : cJSON) (F : gset nat) (n : node) :
  item h p v F → h !! p = Some n → next n = None →
  ∃ h', cJSON_Delete h (Some p) = Ok h' ∧ ∀ q, h' !! q = if decide (q ∈ F) then None else h !! q.
Proof. intros Hi E Hn. exists (removed F h). split; [by eapply delete_item|]. intros q. apply lookup_removed. Qed.

(** An array with one element, next to an item it refers to. *)
Definition referring_heap : gmap nat node :=
  <[1%nat := mk_node None None (Some 2%nat) cJSON_Array None 0 (Floats.SpecFloat.S754_zero false) None]>
  (<[2%nat := mk_node None None (Some 3%nat) (Z.lor cJSON_Array cJSON_IsReference) None 0 (Floats.SpecFloat.S754_zero false) None]>
  (<[3%nat := mk_node None None None cJSON_True None 0 (Floats.SpecFloat.S754_zero false) None]> ∅)).

Lemma delete_frees_exactly_witness :
  ∃ h', cJSON_Delete referring_heap (Some 1%nat) = Ok h' ∧
    ∀ q, h' !! q = if decide (q ∈ ({[1%nat]} ∪ ⋃ [{[2%nat]}] : gset nat)) then None else referring_heap !! q.
Proof.
  eapply (delete_frees_exactly referring_heap 1
    (Item cJSON_Array None 0 (Floats.SpecFloat.S754_zero false) None
       [Item (Z.lor cJSON_Array cJSON_IsReference) None 0 (Floats.SpecFloat.S754_zero false) None []])); [|reflexivity|done].
  eapply (item_own _ _ _ _ [2%nat] [{[2%nat]}]); [reflexivity|done|done|done| | |cbn; set_solver].
  - split; [apply NoDup_singleton|]. exists None. split; [|by left]. eapply seg_single; [reflexivity|done..].
  - constructor; [|constructor]. eapply item_ref; [reflexivity|done..].
Defined.
