(* ===== verification/CJsonEdit.v ===== *)
(** * CJsonEdit: the editing functions of cJSON.c refine edits of values

    A heap of item trees is described by the map from its roots to their values.  Every
    editing function is a step on such maps: it changes the list of children of a value and
    which roots there are, and no other value.  No node is lost or freed twice. *)

From stdpp Require Import gmap sets.
From S2P Require Import Prelude CDouble CJson CJsonRender CJsonOps CJsonTree CJsonLinks CJsonForest.
#[local] Open Scope Z_scope.

Section edit.
Context `{CJsonHOk} (alloc : nat → Z → bool).

(** ** Keys *)
Definition key_matches (case_sensitive : bool) (name s : list Z) : bool :=
  if case_sensitive then bool_decide (name = s) else case_insensitive_strcmp (Some name) (Some s) =? 0.

(** The index of the member [name]; case-sensitively the search ends at an item without key. *)
Fixpoint find_key (case_sensitive : bool) (name : list Z) (l : list cJSON) : option nat :=
  match l with
  | [] => None
  | v :: l =>
      match string_ v with
      | None => if case_sensitive then None else S <$> find_key case_sensitive name l
      | Some s => if key_matches case_sensitive name s then Some 0%nat else S <$> find_key case_sensitive name l
      end
  end.

Lemma find_key_get cs name l : get_object_item l name cs = find_key cs name l ≫= (l !!.).
Proof.
  induction l as [|v l IH]; [done|]. cbn [get_object_item find_key]. unfold key_matches.
  destruct (string_ v) as [s|]; [|destruct cs; [done|]; rewrite IH; by destruct (find_key false name l)].
  destruct (if cs then _ else _); [done|]. rewrite IH. by destruct (find_key cs name l).
Qed.

Lemma find_key_Some cs name l i : find_key cs name l = Some i → is_Some (l !! i).
Proof.
  revert i. induction l as [|v l IH]; intros i; [done|]. cbn [find_key].
  assert (∀ o, (∀ j, o = Some j → is_Some (l !! j)) → S <$> o = Some i → is_Some ((v :: l) !! i)) as HS.
  { intros [j|] Hj [= <-]. by apply Hj. }
  repeat case_match; [..|]; try done; try (apply HS, IH); intros [= <-]; by eexists.
Qed.

Lemma object_item_loop_spec h cs name l vs Fs : Forall3 (item h) l vs Fs → ∀ pv fuel, seg h pv l None → (length l < fuel)%nat →
  object_item_loop fuel h name cs (head l) = Ok (find_key cs name vs ≫= (l !!.)).
Proof.
  induction 1 as [|p v F l vs Fs Hi _ IH]; intros pv [|fuel] Hs Hf; try (simpl in Hf; lia); [done|]. cbn [object_item_loop head find_key].
  destruct Hs as [(n & E & _ & Hn) Hs]. destruct (item_root _ _ _ _ Hi) as [_ (n' & E' & Hfd)]. assert (n' = n) as -> by congruence.
  rewrite (rd_Ok nd_string _ _ _ E), ok_bind, (rd_Ok next _ _ _ E), Hn. destruct Hfd as (_ & _ & _ & _ & ->).
  assert (hd_or l None = head l) as -> by (by destruct l). simpl in Hf. specialize (IH (Some p) fuel Hs ltac:(lia)). unfold key_matches.
  destruct (string_ v) as [s|], cs; cbn [negb]; [..|done|].
  - case_bool_decide; cbn [negb]; [done|]. rewrite ok_bind, IH. by destruct (find_key true name vs).
  - destruct (case_insensitive_strcmp (Some name) (Some s) =? 0); cbn [negb]; [done|]. rewrite ok_bind, IH. by destruct (find_key false name vs).
  - cbn. rewrite IH. by destruct (find_key false name vs).
Qed.

Lemma object_item_spec h a va Fa n l Fs cs name : opened h a va Fa n l Fs →
  object_item h (Some a) (Some name) cs = Ok (find_key cs name (child va) ≫= (l !!.)).
Proof.
  intros Ho. pose proof (op_links _ _ _ _ _ _ _ Ho) as ((n' & E & Hc) & Hch & _). unfold object_item.
  rewrite (rd_Ok _ _ _ _ E), ok_bind, Hc. pose proof (chain_length _ _ Hch). destruct Hch as (_ & pv & Hs & _).
  eapply object_item_loop_spec; [by eapply op_items|exact Hs|unfold chain_fuel; lia].
Qed.

(** ** Edits, as calls and as steps on values *)
Inductive edit :=
  | Add (a x : nat)
  | AddKey (constant : bool) (a : nat) (key : list Z) (x : nat)
  | AddReference (a x : nat)
  | Insert (a : nat) (which : Z) (x : nat)
  | Detach (a : nat) (which : Z)
  | DetachKey (case_sensitive : bool) (a : nat) (key : list Z)
  | Replace (a : nat) (which : Z) (x : nat)
  | ReplaceKey (case_sensitive : bool) (a : nat) (key : list Z) (x : nat)
  | AddNew (create : maker cJSON) (a : nat) (key : list Z)
  | Delete (x : nat).

Inductive outcome := Done (b : bool) | Got (p : cptr).

Definition run (e : edit) (h : cheap) (n : nat) : result (outcome * cheap * nat) :=
  match e with
  | Add a x => '(b, h) ← cJSON_AddItemToArray h (Some a) (Some x); Ok (Done b, h, n)
  | AddKey constant a key x =>
      '(b, h, n) ← (if constant then cJSON_AddItemToObjectCS alloc h (Some a) (Some key) (Some x) n
                    else cJSON_AddItemToObject alloc h (Some a) (Some key) (Some x) n); Ok (Done b, h, n)
  | AddReference a x => '(b, h, n) ← cJSON_AddItemReferenceToArray alloc h (Some a) (Some x) n; Ok (Done b, h, n)
  | Insert a which x => '(b, h) ← cJSON_InsertItemInArray h (Some a) which (Some x); Ok (Done b, h, n)
  | Detach a which => '(p, h) ← cJSON_DetachItemFromArray h (Some a) which; Ok (Got p, h, n)
  | DetachKey cs a key => '(p, h) ← detach_from_object cs h (Some a) (Some key); Ok (Got p, h, n)
  | Replace a which x => '(b, h) ← cJSON_ReplaceItemInArray h (Some a) which (Some x); Ok (Done b, h, n)
  | ReplaceKey cs a key x => '(b, h, n) ← replace_item_in_object alloc h (Some a) (Some key) (Some x) cs n; Ok (Done b, h, n)
  | AddNew create a key => '(p, h, n) ← add_created alloc create h (Some a) (Some key) n; Ok (Got p, h, n)
  | Delete x => h ← cJSON_Delete h (Some x); Ok (Done true, h, n)
  end.

(** The roots an edit names: a container that is no reference, and another item. *)
Definition root (M : gmap nat cJSON) (x : nat) : Prop := is_Some (M !! x).
Definition holder (M : gmap nat cJSON) (a : nat) : Prop := ∃ v, M !! a = Some v ∧ is_ref (type_ v) = false.
Definition alloc_fails : Prop := ∃ k z, alloc k z = false.
(** [create] makes an item without children, or fails when an allocation does. *)
Definition creates (create : maker cJSON) : Prop :=
  ∀ n r n', create n = (r, n') → match r with Some i => child i = [] | None => alloc_fails end.
Definition enabled (e : edit) (M : gmap nat cJSON) : Prop :=
  match e with
  | Add a x | AddKey _ a _ x | Insert a _ x | Replace a _ x | ReplaceKey _ a _ x => holder M a ∧ root M x ∧ a ≠ x
  | AddReference a x => holder M a ∧ root M x
  | Detach a _ | DetachKey _ a _ => holder M a
  | AddNew create a _ => holder M a ∧ creates create
  | Delete x => root M x
  end.

Definition update (M : gmap nat cJSON) (a : nat) (f : list cJSON → list cJSON) : gmap nat cJSON :=
  alter (λ v, set_children v (f (child v))) a M.
Definition key_type (constant : bool) (t : Z) : Z := if constant then Z.lor t cJSON_StringIsConst else Z.ldiff t cJSON_StringIsConst.
Definition insert_child (i : nat) (v : cJSON) (l : list cJSON) : list cJSON := take i l ++ v :: drop i l.
Definition nth_child (M : gmap nat cJSON) (a : nat) (which : Z) : option cJSON :=
  if which <? 0 then None else v ← M !! a; child v !! Z.to_nat which.
Definition key_index (M : gmap nat cJSON) (cs : bool) (a : nat) (key : list Z) : option nat := v ← M !! a; find_key cs key (child v).

Inductive step : edit → gmap nat cJSON → outcome → gmap nat cJSON → Prop :=
  | step_add a x v M : M !! x = Some v → step (Add a x) M (Done true) (update (delete x M) a (λ l, l ++ [v]))
  | step_add_key constant a key x v M : M !! x = Some v →
      step (AddKey constant a key x) M (Done true)
        (update (delete x M) a (λ l, l ++ [with_key (key_type constant (type_ v)) (Some key) v]))
  | step_add_key_fails a key x M : alloc_fails → step (AddKey false a key x) M (Done false) M
  | step_add_reference a x v M : M !! x = Some v → step (AddReference a x) M (Done true) (update M a (λ l, l ++ [reference v]))
  | step_add_reference_fails a x M : alloc_fails → step (AddReference a x) M (Done false) M
  | step_insert a which x v M : 0 ≤ which → M !! x = Some v →
      step (Insert a which x) M (Done true) (update (delete x M) a (insert_child (Z.to_nat which) v))
  | step_insert_negative a which x M : which < 0 → step (Insert a which x) M (Done false) M
  | step_detach a which y v M : nth_child M a which = Some v → M !! y = None →
      step (Detach a which) M (Got (Some y)) (<[y := v]> (update M a (delete (Z.to_nat which))))
  | step_detach_none a which M : nth_child M a which = None → step (Detach a which) M (Got None) M
  | step_detach_key cs a key i y v M : key_index M cs a key = Some i → nth_child M a (Z.of_nat i) = Some v → M !! y = None →
      step (DetachKey cs a key) M (Got (Some y)) (<[y := v]> (update M a (delete i)))
  | step_detach_key_none cs a key M : key_index M cs a key = None → step (DetachKey cs a key) M (Got None) M
  | step_replace a which x v M : is_Some (nth_child M a which) → M !! x = Some v →
      step (Replace a which x) M (Done true) (update (delete x M) a (<[Z.to_nat which := v]>))
  | step_replace_none a which x M : nth_child M a which = None → step (Replace a which x) M (Done false) M
  | step_replace_key cs a key key' i x v M : key_index M cs a key = Some i → M !! x = Some v → (key' = Some key ∨ key' = None ∧ alloc_fails) →
      step (ReplaceKey cs a key x) M (Done true) (update (delete x M) a (<[i := with_key (key_type false (type_ v)) key' v]>))
  | step_replace_key_none cs a key key' x v M : key_index M cs a key = None → M !! x = Some v → (key' = Some key ∨ key' = None ∧ alloc_fails) →
      step (ReplaceKey cs a key x) M (Done false) (<[x := with_key (key_type false (type_ v)) key' v]> M)
  | step_add_new create a key i p n n' M : create n = (Some i, n') →
      step (AddNew create a key) M (Got (Some p)) (update M a (λ l, l ++ [with_key (key_type false (type_ i)) (Some key) i]))
  | step_add_new_fails create a key M : alloc_fails → step (AddNew create a key) M (Got None) M
  | step_delete x M : step (Delete x) M (Done true) (delete x M).

(** ** Heaps of trees *)
Definition forest (h : cheap) (M : gmap nat cJSON) (F : nat → gset nat) : Prop :=
  (∀ p v, M !! p = Some v → tree h p v (F p)) ∧
  (∀ p q v w, M !! p = Some v → M !! q = Some w → p ≠ q → F p ## F q) ∧
  (∀ q, is_Some (h !! q) → ∃ p v, M !! p = Some v ∧ q ∈ F p).
Definition world (h : cheap) (M : gmap nat cJSON) : Prop := ∃ F, forest h M F.

(** The trees in [U] are replaced by those of [M'] whose roots lie in [U]. *)
Lemma forest_update h h' M M' F G U : forest h M F →
  (∀ p v, M !! p = Some v → F p ⊆ U ∨ F p ## U) → (∀ q, q ∉ U → h' !! q = h !! q) → (∀ p, p ∉ U → M' !! p = M !! p) →
  (∀ p v, M' !! p = Some v → p ∈ U → tree h' p v (G p) ∧ G p ⊆ U) →
  (∀ p q v w, M' !! p = Some v → M' !! q = Some w → p ∈ U → q ∈ U → p ≠ q → G p ## G q) →
  (∀ q, q ∈ U → is_Some (h' !! q) → ∃ p v, M' !! p = Some v ∧ p ∈ U ∧ q ∈ G p) → world h' M'.
Proof.
  intros (HT & HD & HC) HU Hh HM HG Hdis Hcov. exists (λ p, if decide (p ∈ U) then G p else F p).
  assert (∀ p v, M !! p = Some v → p ∈ F p) as Hself by (intros p v Hp; by destruct (HT p v Hp) as [[? _]%item_root _]).
  assert (∀ p v, M !! p = Some v → p ∉ U → F p ## U) as Hout.
  { intros p v Hp HpU. destruct (HU p v Hp) as [Hsub|]; [|done]. destruct HpU. eapply Hsub, Hself, Hp. }
  split_and!.
  - intros p v Hp. case_decide as HpU; [by apply HG|]. rewrite HM in Hp by done. eapply tree_frame; [|by apply HT].
    intros q Hq. apply Hh. pose proof (Hout p v Hp HpU). set_solver.
  - intros p q v w Hp Hq Hpq. repeat case_decide.
    + by eapply Hdis.
    + rewrite HM in Hq by done. pose proof (Hout q w Hq ltac:(done)). destruct (HG p v Hp) as [_ ?]; [done|]. set_solver.
    + rewrite HM in Hp by done. pose proof (Hout p v Hp ltac:(done)). destruct (HG q w Hq) as [_ ?]; [done|]. set_solver.
    + rewrite HM in Hp, Hq by done. by eapply HD.
  - intros q Hq. destruct (decide (q ∈ U)) as [HqU|HqU].
    + destruct (Hcov q HqU Hq) as (p & v & Hp & HpU & Hin). exists p, v. by rewrite decide_True.
    + rewrite Hh in Hq by done. destruct (HC q Hq) as (p & v & Hp & Hin). exists p, v. destruct (HU p v Hp) as [Hsub|Hd]; [by apply Hsub in Hin|].
      assert (p ∉ U) as HpU by (pose proof (Hself p v Hp); set_solver). by rewrite HM, decide_False.
Qed.

Lemma forest_other h M F p q v w : forest h M F → M !! p = Some v → M !! q = Some w → p ≠ q → p ∉ F q.
Proof. intros (HT & HD & _) Hp Hq Hpq. destruct (HT p v Hp) as [[? _]%item_root _]. pose proof (HD p q v w Hp Hq Hpq). set_solver. Qed.

(** One tree changes. *)
Lemma forest_one h h' M F x v v' : forest h M F → M !! x = Some v → tree h' x v' (F x) → (∀ q, q ∉ F x → h' !! q = h !! q) →
  world h' (<[x := v']> M).
Proof.
  intros HF Hx Ht Hh. pose proof HF as (HT & HD & _). destruct (HT x v Hx) as [[HxF _]%item_root _].
  assert (∀ p w, <[x := v']> M !! p = Some w → p ∈ F x → p = x ∧ w = v') as Hin.
  { intros p w Hp HpF. destruct (decide (p = x)) as [->|Hne]; [rewrite lookup_insert_eq in Hp; by injection Hp|].
    rewrite lookup_insert_ne in Hp by done. by destruct (forest_other _ _ _ _ _ _ _ HF Hp Hx Hne). }
  eapply (forest_update h h' M _ F F (F x)); [done| |done| | | |].
  - intros p w Hp. destruct (decide (p = x)) as [->|Hne]; [by left|right; by eapply HD].
  - intros p Hp. rewrite lookup_insert_ne; [done|]. by intros ->.
  - intros p w Hp HpF. by destruct (Hin p w Hp HpF) as [-> ->].
  - intros p q w w' Hp Hq HpF HqF Hpq. destruct (Hin p w Hp HpF), (Hin q w' Hq HqF). congruence.
  - intros q Hq _. exists x, v'. by rewrite lookup_insert_eq.
Qed.

(** A container takes over another tree, or part of it. *)
Lemma forest_two h h' M F a x va vx va' Fa : forest h M F → M !! a = Some va → M !! x = Some vx → a ≠ x →
  tree h' a va' Fa → Fa ⊆ F a ∪ F x → (∀ q, q ∉ F a ∪ F x → h' !! q = h !! q) → (∀ q, q ∈ F a ∪ F x → q ∉ Fa → h' !! q = None) →
  world h' (<[a := va']> (delete x M)).
Proof.
  intros HF Ha Hx Hax Ht Hsub Hh Hgone. pose proof HF as (HT & HD & _). destruct (HT a va Ha) as [[HaF _]%item_root _].
  destruct (HT x vx Hx) as [[HxF _]%item_root _].
  assert (∀ p w, <[a := va']> (delete x M) !! p = Some w → p ∈ F a ∪ F x → p = a ∧ w = va') as Hin.
  { intros p w Hp HpF. destruct (decide (p = a)) as [->|Hne]; [rewrite lookup_insert_eq in Hp; by injection Hp|].
    rewrite lookup_insert_ne in Hp by done. apply lookup_delete_Some in Hp as [Hpx Hp].
    pose proof (forest_other _ _ _ _ _ _ _ HF Hp Ha Hne). pose proof (forest_other _ _ _ _ _ _ _ HF Hp Hx (not_eq_sym Hpx)). set_solver. }
  eapply (forest_update h h' M _ F (λ _, Fa) (F a ∪ F x)); [done| |done| | | |].
  - intros p w Hp. destruct (decide (p = a)) as [->|Hpa]; [left; set_solver|]. destruct (decide (p = x)) as [->|Hpx]; [left; set_solver|].
    right. pose proof (HD p a w va Hp Ha Hpa). pose proof (HD p x w vx Hp Hx Hpx). set_solver.
  - intros p Hp. rewrite lookup_insert_ne by (intros ->; set_solver). rewrite lookup_delete_ne; [done|]. intros ->; set_solver.
  - intros p w Hp HpF. destruct (Hin p w Hp HpF) as [-> ->]. done.
  - intros p q w w' Hp Hq HpF HqF Hpq. destruct (Hin p w Hp HpF), (Hin q w' Hq HqF). congruence.
  - intros q Hq [m Hm]. exists a, va'. rewrite lookup_insert_eq. split; [done|]. split; [set_solver|]. destruct (decide (q ∈ Fa)); [done|].
    rewrite Hgone in Hm by done. done.
Qed.

(** A container gives up a tree. *)
Lemma forest_split h h' M F a y va va' v Fa Fy : forest h M F → M !! a = Some va → tree h' a va' Fa → tree h' y v Fy → Fa ## Fy →
  F a = Fa ∪ Fy → (∀ q, q ∉ F a → h' !! q = h !! q) → M !! y = None ∧ world h' (<[y := v]> (<[a := va']> M)).
Proof.
  intros HF Ha Hta Hty Hd HFa Hh. pose proof HF as (HT & HD & _). pose proof Hta as [[HaFa _]%item_root _]. pose proof Hty as [[HyFy _]%item_root _].
  assert (y ≠ a) as Hya by set_solver.
  assert (M !! y = None) as Hy.
  { destruct (M !! y) as [w|] eqn:E; [|done]. pose proof (forest_other _ _ _ _ _ _ _ HF E Ha Hya). set_solver. }
  split; [done|]. assert (∀ p w, <[y := v]> (<[a := va']> M) !! p = Some w → p ∈ F a → p = y ∧ w = v ∨ p = a ∧ w = va') as Hin.
  { intros p w Hp HpF. destruct (decide (p = y)) as [->|Hpy]; [rewrite lookup_insert_eq in Hp; left; by injection Hp|].
    rewrite lookup_insert_ne in Hp by done. destruct (decide (p = a)) as [->|Hpa]; [rewrite lookup_insert_eq in Hp; right; by injection Hp|].
    rewrite lookup_insert_ne in Hp by done. by destruct (forest_other _ _ _ _ _ _ _ HF Hp Ha Hpa). }
  eapply (forest_update h h' M _ F (λ p, if decide (p = y) then Fy else Fa) (F a)); [done| |done| | | |].
  - intros p w Hp. destruct (decide (p = a)) as [->|Hpa]; [by left|right; by eapply HD].
  - intros p Hp. rewrite !lookup_insert_ne; [done|set_solver|set_solver].
  - intros p w Hp HpF. destruct (Hin p w Hp HpF) as [[-> ->]|[-> ->]]; [rewrite decide_True by done|rewrite decide_False by done]; (split; [done|set_solver]).
  - intros p q w w' Hp Hq HpF HqF Hpq. destruct (Hin p w Hp HpF) as [[-> ->]|[-> ->]], (Hin q w' Hq HqF) as [[-> ->]|[-> ->]];
      repeat case_decide; congruence || set_solver.
  - intros q Hq _. rewrite HFa in Hq. apply elem_of_union in Hq as [Hq|Hq].
    + exists a, va'. rewrite lookup_insert_ne, lookup_insert_eq, decide_False by done. split; [done|]. set_solver.
    + exists y, v. rewrite lookup_insert_eq, decide_True by done. set_solver.
Qed.

Lemma forest_delete h M F x v : forest h M F → M !! x = Some v → world (removed (F x) h) (delete x M).
Proof.
  intros HF Hx. pose proof HF as (HT & HD & _). destruct (HT x v Hx) as [[HxF _]%item_root _].
  assert (∀ p w, delete x M !! p = Some w → p ∉ F x) as Hin.
  { intros p w [Hpx Hp]%lookup_delete_Some. eapply forest_other; [exact HF|exact Hp|exact Hx|congruence]. }
  eapply (forest_update h _ M _ F F (F x)); [done| | | | | |].
  - intros p w Hp. destruct (decide (p = x)) as [->|Hpx]; [by left|right; by eapply HD].
  - intros q Hq. by rewrite lookup_removed, decide_False.
  - intros p Hp. rewrite lookup_delete_ne; [done|]. by intros ->.
  - intros p w Hp HpF. by destruct (Hin p w Hp).
  - intros p q w w' Hp _ HpF. by destruct (Hin p w Hp).
  - intros q Hq [n Hn]. by rewrite lookup_removed, decide_True in Hn.
Qed.

Lemma forest_new h h' M F p v : forest h M F → h !! p = None → tree h' p v {[p]} → (∀ q, q ≠ p → h' !! q = h !! q) →
  M !! p = None ∧ world h' (<[p := v]> M).
Proof.
  intros HF Hp Ht Hh. pose proof HF as (HT & HD & _).
  assert (∀ q w, M !! q = Some w → p ∉ F q) as Hnot.
  { intros q w Hq Hin. destruct (HT q w Hq) as [Hi _]. destruct (item_dom _ _ _ _ p Hi Hin) as [n E]. congruence. }
  assert (M !! p = None) as Hpn. { destruct (M !! p) as [w|] eqn:E; [|done]. destruct (Hnot p w E). by destruct (HT p w E) as [[? _]%item_root _]. }
  split; [done|]. eapply (forest_update h h' M _ F (λ _, {[p]}) {[p]}); [done| | | | | |].
  - intros q w Hq. right. pose proof (Hnot q w Hq). set_solver.
  - intros q Hq. apply Hh. set_solver.
  - intros q Hq. rewrite lookup_insert_ne; [done|set_solver].
  - intros q w Hq ->%elem_of_singleton. rewrite lookup_insert_eq in Hq. by injection Hq as <-.
  - intros q r w w' _ _ ->%elem_of_singleton ->%elem_of_singleton. done.
  - intros q Hq _. exists p, v. rewrite lookup_insert_eq. set_solver.
Qed.

(** ** Every call is a step *)
Lemma key_type_ref constant t : is_ref (key_type constant t) = is_ref t.
Proof.
  destruct flags_apart as [_ Hap]. unfold is_ref, key_type. do 2 f_equal. apply Z.bits_inj'. intros i Hi.
  assert (Z.testbit cJSON_IsReference i && Z.testbit cJSON_StringIsConst i = false) as Hb by (rewrite <- Z.land_spec, Hap; apply Z.bits_0).
  destruct constant; rewrite !Z.land_spec, ?Z.lor_spec, ?Z.ldiff_spec; destruct (Z.testbit t i), (Z.testbit cJSON_IsReference i), (Z.testbit cJSON_StringIsConst i); done.
Qed.

Lemma reference_is_ref t : is_ref (Z.lor t cJSON_IsReference) = true.
Proof.
  destruct flags_apart as [Hne _]. unfold is_ref. rewrite (proj2 (Z.eqb_neq _ _)); [done|].
  assert (Z.land (Z.lor t cJSON_IsReference) cJSON_IsReference = cJSON_IsReference) as ->; [|done].
  apply Z.bits_inj'. intros i Hi. rewrite Z.land_spec, Z.lor_spec. by destruct (Z.testbit t i), (Z.testbit cJSON_IsReference i).
Qed.

Lemma update_insert M a v f : M !! a = Some v → update M a f = <[a := set_children v (f (child v))]> M.
Proof.
  intros E. unfold update. apply map_eq. intros q. destruct (decide (q = a)) as [->|].
  - by rewrite lookup_alter_eq, E, lookup_insert_eq.
  - by rewrite lookup_alter_ne, lookup_insert_ne.
Qed.

Lemma update_delete M a x v f : M !! a = Some v → a ≠ x → update (delete x M) a f = <[a := set_children v (f (child v))]> (delete x M).
Proof. intros E Hax. apply update_insert. by rewrite lookup_delete_ne. Qed.

(** A heap of trees with the container [a] opened. *)
Lemma world_open h M a : world h M → holder M a → ∃ F va n l Fs, forest h M F ∧ M !! a = Some va ∧ opened h a va (F a) n l Fs.
Proof.
  intros [F HF] (va & Ha & Hr). destruct (tree_open h a va (F a)) as (n & l & Fs & Ho); [by apply HF|done|].
  by exists F, va, n, l, Fs.
Qed.

Lemma opened_child h a va F n l Fs i : opened h a va F n l Fs → is_Some (l !! i) ↔ is_Some (child va !! i).
Proof. intros Ho. rewrite !lookup_lt_is_Some. by rewrite (Forall3_length_lm _ _ _ _ (op_items _ _ _ _ _ _ _ Ho)). Qed.

Lemma world_add h M a x v : world h M → holder M a → M !! x = Some v → a ≠ x →
  ∃ h', add_item_to_array h (Some a) (Some x) = Ok (true, h') ∧ world h' (update (delete x M) a (λ l, l ++ [v])).
Proof.
  intros Hw Hh Hx Hax. destruct (world_open h M a Hw Hh) as (F & va & n & l & Fs & HF & Ha & Ho). pose proof HF as (HT & HD & _).
  destruct (add_tree h a va (F a) n l Fs x v (F x) Ho) as (h' & E & Ht & Hsame); [by apply HT|by eapply HD|]. exists h'. split; [done|].
  rewrite (update_delete M a x va) by done. eapply (forest_two h h' M F a x); try done; set_solver.
Qed.

(** A root gets another key. *)
Lemma world_key h M x v t k : world h M → M !! x = Some v → is_ref t = is_ref (type_ v) →
  ∃ h', wr (set_string k) h (Some x) = Ok h' ∧ ∃ h2, wr (set_type t) h' (Some x) = Ok h2 ∧ world h2 (<[x := with_key t k v]> M) ∧
    rd nd_type h (Some x) = Ok (type_ v) ∧ rd nd_type h' (Some x) = Ok (type_ v).
Proof.
  intros [F HF] Hx Ht. pose proof HF as (HT & _). destruct (HT x v Hx) as [[_ (n & E & Hf)]%item_root _].
  destruct (with_key_tree h x v (F x) n t k) as [Htree Hsame]; [by apply HT|done|done|]. destruct Hf as (Hty & _).
  eexists. split; [by apply wr_Ok|]. eexists. split; [apply wr_Ok; by rewrite lookup_insert_eq|]. rewrite insert_insert_eq. split; [by eapply forest_one|].
  rewrite (rd_Ok nd_type _ _ _ E), (rd_Ok nd_type _ _ (set_string k n)) by (by rewrite lookup_insert_eq). cbn. by rewrite Hty.
Qed.

Lemma holder_insert M a x v : holder M a → a ≠ x → holder (<[x := v]> M) a.
Proof. intros (w & E & Hr) Hne. exists w. by rewrite lookup_insert_ne. Qed.

Definition simulated (e : edit) : Prop := ∀ h n M, world h M → enabled e M →
  ∃ o h' n' M', run e h n = Ok (o, h', n') ∧ step e M o M' ∧ world h' M'.

Lemma sim_add a x : simulated (Add a x).
Proof.
  intros h n M Hw (Hh & [v Hx] & Hax). destruct (world_add h M a x v Hw Hh Hx Hax) as (h' & E & Hw').
  eexists _, h', n, _. split; [cbn [run]; unfold cJSON_AddItemToArray; by rewrite E|]. split; [by constructor|done].
Qed.

Lemma add_key_run h M a x v constant key n : world h M → holder M a → M !! x = Some v → a ≠ x →
  (∃ n', alloc_fails ∧ constant = false ∧ add_item_to_object alloc h (Some a) (Some key) (Some x) constant n = Ok (false, h, n')) ∨
  (∃ h' n', add_item_to_object alloc h (Some a) (Some key) (Some x) constant n = Ok (true, h', n') ∧
     world h' (update (delete x M) a (λ l, l ++ [with_key (key_type constant (type_ v)) (Some key) v]))).
Proof.
  intros Hw Hh Hx Hax. unfold add_item_to_object. rewrite bool_decide_eq_false_2 by congruence.
  destruct (world_key h M x v (key_type constant (type_ v)) (Some key) Hw Hx (key_type_ref _ _)) as (h1 & E1 & h2 & E2 & Hw2 & Et & _).
  destruct (world_add h2 (<[x := with_key (key_type constant (type_ v)) (Some key) v]> M) a x (with_key (key_type constant (type_ v)) (Some key) v))
    as (h3 & E3 & Hw3); [done|by apply holder_insert|by rewrite lookup_insert_eq|done|]. rewrite delete_insert_eq in Hw3.
  assert (∀ n' : nat, (t ← rd nd_type h (Some x); h ← wr (set_string (Some key)) h (Some x); h ← wr (set_type (key_type constant t)) h (Some x);
    '(ok, h) ← add_item_to_array h (Some a) (Some x); Ok (ok, h, n')) = Ok (true, h3, n')) as Hrun.
  { intros n'. by rewrite Et, ok_bind, E1, ok_bind, E2, ok_bind, E3. }
  destruct constant; [right; exists h3, n; split; [exact (Hrun n)|done]|]. unfold cJSON_strdup.
  destruct (alloc n _) eqn:Ea; [right; exists h3, (S n); split; [exact (Hrun (S n))|done]|left; eexists]. split; [by eexists _, _|done].
Qed.

Lemma sim_add_key constant a key x : simulated (AddKey constant a key x).
Proof.
  intros h n M Hw (Hh & [v Hx] & Hax). cbn [run]. unfold cJSON_AddItemToObjectCS, cJSON_AddItemToObject.
  destruct (add_key_run h M a x v constant key n Hw Hh Hx Hax) as [(n' & Hfail & -> & E)|(h' & n' & E & Hw')].
  - rewrite E. eexists _, h, n', M. split; [done|]. split; [by constructor|done].
  - eexists _, h', n', _. split; [|split; [by apply step_add_key|exact Hw']]. by destruct constant; rewrite E.
Qed.

Lemma sim_add_reference a x : simulated (AddReference a x).
Proof.
  intros h n M Hw (Hh & [v Hx]). cbn [run]. unfold cJSON_AddItemReferenceToArray, create_reference.
  destruct (alloc n sizeof_cJSON) eqn:Ea.
  2: { eexists _, h, (S n), M. split; [done|]. split; [constructor; by eexists _, _|done]. }
  pose proof Hw as [F HF]. pose proof HF as (HT & _). destruct (HT x v Hx) as [[_ (m & E & Hf)]%item_root _].
  rewrite (rd_Ok (λ i, i) _ _ _ E), ok_bind. set (p := fresh (dom h)). assert (h !! p = None) as Hp by (apply not_elem_of_dom, is_fresh).
  set (r := set_prev None _). destruct (forest_new h (<[p := r]> h) M F p (reference v)) as [Hpn Hw'];
    [done|done|apply (reference_tree h p m v Hp Hf), reference_is_ref|intros q Hq; by rewrite lookup_insert_ne|].
  rewrite ok_bind. set (h1 := <[p := r]> h) in *.
  assert (a ≠ p) as Hap by (intros ->; destruct Hh as (? & ? & _); congruence).
  destruct (world_add h1 (<[p := reference v]> M) a p (reference v)) as (h2 & E2 & Hw2);
    [done|by apply holder_insert|by rewrite lookup_insert_eq|done|]. rewrite delete_insert_id in Hw2 by done.
  rewrite E2. eexists _, h2, (S n), _. split; [done|]. split; [by apply step_add_reference|done].
Qed.

Lemma sim_insert a which x : simulated (Insert a which x).
Proof.
  intros h n M Hw (Hh & [v Hx] & Hax). cbn [run]. destruct (decide (which < 0)) as [Hneg|Hpos].
  { unfold cJSON_InsertItemInArray. destruct (Z.ltb_spec which 0); [|lia]. eexists _, h, n, M. split; [done|]. split; [by constructor|done]. }
  destruct (world_open h M a Hw Hh) as (F & va & m & l & Fs & HF & Ha & Ho). pose proof HF as (HT & HD & _).
  destruct (insert_tree h a va (F a) m l Fs x v (F x) which Ho) as (h' & E & Ht & Hsame); [by apply HT|by eapply HD|lia|].
  rewrite E. eexists _, h', n, _. split; [done|]. split; [apply step_insert; [lia|done]|]. rewrite (update_delete M a x va) by done.
  eapply (forest_two h h' M F a x); try done; set_solver.
Qed.

Lemma detach_nothing h a : cJSON_DetachItemViaPointer h (Some a) None = Ok (None, h).
Proof. done. Qed.

Lemma world_detach h M a va F n l Fs i v : forest h M F → M !! a = Some va → opened h a va (F a) n l Fs → child va !! i = Some v →
  ∃ y h', l !! i = Some y ∧ cJSON_DetachItemViaPointer h (Some a) (Some y) = Ok (Some y, h') ∧ M !! y = None ∧
    world h' (<[y := v]> (update M a (delete i))).
Proof.
  intros HF Ha Ho Hv. destruct (proj2 (opened_child _ _ _ _ _ _ _ i Ho)) as [y Hy]; [by eexists|].
  destruct (detach_tree h a va (F a) n l Fs i y v Ho Hy Hv) as (h' & Fa & Fy & E & Hta & Hty & Hd & HFa & Hsame). exists y, h'. split; [done|]. split; [done|].
  rewrite (update_insert M a va) by done. by eapply forest_split.
Qed.

Lemma nth_child_open M a va which : M !! a = Some va → 0 ≤ which → nth_child M a which = child va !! Z.to_nat which.
Proof. intros Ha Hw. unfold nth_child. destruct (Z.ltb_spec which 0); [lia|]. by rewrite Ha. Qed.

Lemma sim_detach a which : simulated (Detach a which).
Proof.
  intros h n M Hw Hh. cbn [run]. unfold cJSON_DetachItemFromArray. destruct (Z.ltb_spec which 0) as [Hneg|Hpos].
  { eexists _, h, n, M. split; [done|]. split; [apply step_detach_none|done]. unfold nth_child. destruct (Z.ltb_spec which 0); [done|lia]. }
  destruct (world_open h M a Hw Hh) as (F & va & m & l & Fs & HF & Ha & Ho). rewrite (get_item_spec _ _ _ _ (op_links _ _ _ _ _ _ _ Ho)), ok_bind.
  destruct (child va !! Z.to_nat which) as [v|] eqn:Hv.
  - destruct (world_detach h M a va F m l Fs _ v HF Ha Ho Hv) as (y & h' & -> & -> & Hy & Hw'). eexists _, h', n, _. split; [done|].
    split; [apply step_detach; [by rewrite (nth_child_open M a va)|done]|done].
  - assert (l !! Z.to_nat which = None) as ->.
    { apply eq_None_not_Some. rewrite (opened_child _ _ _ _ _ _ _ _ Ho), Hv. by intros []. }
    rewrite detach_nothing. eexists _, h, n, M. split; [done|]. split; [apply step_detach_none; by rewrite (nth_child_open M a va)|done].
Qed.

Lemma sim_detach_key cs a key : simulated (DetachKey cs a key).
Proof.
  intros h n M Hw Hh. cbn [run]. unfold detach_from_object.
  destruct (world_open h M a Hw Hh) as (F & va & m & l & Fs & HF & Ha & Ho). rewrite (object_item_spec _ _ _ _ _ _ _ cs key Ho), ok_bind.
  destruct (find_key cs key (child va)) as [i|] eqn:Ei; cbn [mbind option_bind].
  - destruct (find_key_Some _ _ _ _ Ei) as [v Hv]. destruct (world_detach h M a va F m l Fs i v HF Ha Ho Hv) as (y & h' & -> & -> & Hy & Hw').
    eexists _, h', n, _. split; [done|]. split; [|exact Hw']. apply step_detach_key; [unfold key_index; by rewrite Ha| |done].
    rewrite (nth_child_open M a va), Nat2Z.id by (done || lia). done.
  - rewrite detach_nothing. eexists _, h, n, M. split; [done|]. split; [apply step_detach_key_none; unfold key_index; by rewrite Ha|done].
Qed.

Lemma world_replace h M a va F n l Fs i v x w : forest h M F → M !! a = Some va → opened h a va (F a) n l Fs → child va !! i = Some v →
  M !! x = Some w → a ≠ x →
  ∃ y h', l !! i = Some y ∧ cJSON_ReplaceItemViaPointer h (Some a) (Some y) (Some x) = Ok (true, h') ∧ world h' (update (delete x M) a (<[i := w]>)).
Proof.
  intros HF Ha Ho Hv Hx Hax. pose proof HF as (HT & HD & _). destruct (proj2 (opened_child _ _ _ _ _ _ _ i Ho)) as [y Hy]; [by eexists|].
  destruct (replace_tree h a va (F a) n l Fs i y v x w (F x) Ho Hy Hv) as (h' & Fa & E & Ht & Hsub & Hsame & Hgone); [by apply HT|by eapply HD|].
  exists y, h'. split; [done|]. split; [done|]. rewrite (update_delete M a x va) by done. by eapply (forest_two h h' M F a x).
Qed.

Lemma sim_replace a which x : simulated (Replace a which x).
Proof.
  intros h n M Hw (Hh & [w Hx] & Hax). cbn [run]. unfold cJSON_ReplaceItemInArray. destruct (Z.ltb_spec which 0) as [Hneg|Hpos].
  { eexists _, h, n, M. split; [done|]. split; [apply step_replace_none|done]. unfold nth_child. destruct (Z.ltb_spec which 0); [done|lia]. }
  destruct (world_open h M a Hw Hh) as (F & va & m & l & Fs & HF & Ha & Ho). rewrite (get_item_spec _ _ _ _ (op_links _ _ _ _ _ _ _ Ho)), ok_bind.
  destruct (child va !! Z.to_nat which) as [v|] eqn:Hv.
  - destruct (world_replace h M a va F m l Fs _ v x w HF Ha Ho Hv Hx Hax) as (y & h' & -> & -> & Hw'). eexists _, h', n, _. split; [done|].
    split; [apply step_replace; [rewrite (nth_child_open M a va) by done; by eexists|done]|done].
  - assert (l !! Z.to_nat which = None) as ->.
    { apply eq_None_not_Some. rewrite (opened_child _ _ _ _ _ _ _ _ Ho), Hv. by intros []. }
    eexists _, h, n, M. split; [done|]. split; [apply step_replace_none; by rewrite (nth_child_open M a va)|done].
Qed.

Lemma sim_replace_key cs a key x : simulated (ReplaceKey cs a key x).
Proof.
  intros h n M Hw (Hh & [w Hx] & Hax). cbn [run]. unfold replace_item_in_object.
  assert (∃ key' n', cJSON_strdup alloc (Some key) n = (key', n') ∧ (key' = Some key ∨ key' = None ∧ alloc_fails)) as (key' & n' & -> & Hkey).
  { unfold cJSON_strdup. destruct (alloc n _) eqn:Ea; eexists _, _; (split; [done|]); [by left|right; split; [done|by eexists _, _]]. }
  destruct (world_key h M x w (key_type false (type_ w)) key' Hw Hx (key_type_ref _ _)) as (h1 & E1 & h2 & E2 & Hw2 & Et & _).
  rewrite Et, ok_bind, E1, ok_bind. change (Z.ldiff (type_ w) cJSON_StringIsConst) with (key_type false (type_ w)). rewrite E2, ok_bind.
  set (w' := with_key _ key' w) in *. pose proof (holder_insert M a x w' Hh Hax) as Hh2.
  destruct (world_open h2 (<[x := w']> M) a Hw2 Hh2) as (F & va & m & l & Fs & HF & Ha2 & Ho). rewrite (object_item_spec _ _ _ _ _ _ _ cs key Ho), ok_bind.
  assert (M !! a = Some va) as Ha by (by rewrite lookup_insert_ne in Ha2). assert (key_index M cs a key = find_key cs key (child va)) as Hki by (unfold key_index; by rewrite Ha).
  destruct (find_key cs key (child va)) as [i|] eqn:Ei; cbn [mbind option_bind].
  - destruct (find_key_Some _ _ _ _ Ei) as [v Hv].
    destruct (world_replace h2 (<[x := w']> M) a va F m l Fs i v x w' HF Ha2 Ho Hv) as (y & h' & -> & -> & Hw'); [by rewrite lookup_insert_eq|done|].
    rewrite delete_insert_eq in Hw'. eexists _, h', n', _. split; [done|]. split; [by eapply step_replace_key|exact Hw'].
  - eexists _, h2, n', _. split; [done|]. split; [by eapply step_replace_key_none|exact Hw2].
Qed.

Lemma leaf_tree h p i : child i = [] → tree (<[p := leaf i]> h) p i {[p]}.
Proof.
  intros Hc. split; [|exists (leaf i); by rewrite lookup_insert_eq]. assert (fields (leaf i) i) as Hf by done.
  destruct (is_ref (type_ i)) eqn:Hr; [by eapply item_ref; [rewrite lookup_insert_eq|..]|].
  replace ({[p]} : gset nat) with ({[p]} ∪ ⋃ ([] : list (gset nat))) by (cbn; set_solver).
  apply (item_own _ _ (leaf i) _ [] []); [by rewrite lookup_insert_eq|done|done|done| |rewrite Hc; constructor|cbn; set_solver].
  split; [constructor|]. exists None. by split; [|left].
Qed.

Lemma sim_add_new create a key : simulated (AddNew create a key).
Proof.
  intros h n M Hw (Hh & Hcr). cbn [run]. unfold add_created. destruct (create n) as [r n1] eqn:Ec. specialize (Hcr n r n1 Ec).
  destruct r as [i|]; [|eexists _, h, n1, M; split; [done|]; split; [by constructor|done]].
  set (p := fresh (dom h)). set (h1 := <[p := leaf i]> h). pose proof Hw as [F HF]. assert (h !! p = None) as Hp by (apply not_elem_of_dom, is_fresh).
  destruct (forest_new h h1 M F p i HF Hp) as [Hpn Hw']; [by apply leaf_tree|intros q Hq; unfold h1; by rewrite lookup_insert_ne|].
  assert (a ≠ p) as Hap by (intros ->; destruct Hh as (? & ? & _); congruence). pose proof (holder_insert M a p i Hh Hap) as Hh1.
  destruct (add_key_run h1 (<[p := i]> M) a p i false key n1 Hw' Hh1) as [(n2 & Hfail & _ & ->)|(h2 & n2 & -> & Hw2)]; [by rewrite lookup_insert_eq|done|..]; rewrite ok_bind.
  - destruct Hw' as [F1 HF1]. pose proof HF1 as (HT1 & _). destruct (HT1 p i) as [Hi (m & E & Hm)]; [by rewrite lookup_insert_eq|].
    rewrite (delete_item h1 p i (F1 p) m Hi E Hm). eexists _, _, n2, M. split; [done|]. split; [by apply step_add_new_fails|].
    rewrite <- (delete_insert_id M p i) by done. eapply forest_delete; [exact HF1|by rewrite lookup_insert_eq].
  - rewrite delete_insert_id in Hw2 by done. eexists _, h2, n2, _. split; [done|]. split; [by eapply step_add_new|exact Hw2].
Qed.

Lemma sim_delete x : simulated (Delete x).
Proof.
  intros h n M [F HF] [v Hx]. pose proof HF as (HT & _). destruct (HT x v Hx) as [Hi (m & E & Hm)].
  cbn [run]. rewrite (delete_item h x v (F x) m Hi E Hm). eexists _, _, n, _. split; [done|]. split; [constructor|by eapply forest_delete].
Qed.

Lemma all_simulated e : simulated e.
Proof.
  destruct e; [apply sim_add|apply sim_add_key|apply sim_add_reference|apply sim_insert|apply sim_detach|apply sim_detach_key|
    apply sim_replace|apply sim_replace_key|apply sim_add_new|apply sim_delete].
Qed.

(** ** Sequences of edits *)
Fixpoint run_all (es : list edit) (h : cheap) (n : nat) : result (list outcome * cheap * nat) :=
  match es with
  | [] => Ok ([], h, n)
  | e :: es => '(o, h, n) ← run e h n; '(os, h, n) ← run_all es h n; Ok (o :: os, h, n)
  end.

Inductive steps : list edit → gmap nat cJSON → list outcome → gmap nat cJSON → Prop :=
  | steps_nil M : steps [] M [] M
  | steps_cons e es o os M M1 M2 : step e M o M1 → steps es M1 os M2 → steps (e :: es) M (o :: os) M2.

(** Every edit names roots of the values it meets. *)
Definition enabled_all (es : list edit) (M : gmap nat cJSON) : Prop :=
  ∀ es1 e es2 os M', es = es1 ++ e :: es2 → steps es1 M os M' → enabled e M'.

Lemma enabled_head e es M : enabled_all (e :: es) M → enabled e M ∧ ∀ o M1, step e M o M1 → enabled_all es M1.
Proof.
  intros He. split; [by apply (He [] e es [] M); [|constructor]|]. intros o M1 Hs es1 e' es2 os M' -> Hss.
  apply (He (e :: es1) e' es2 (o :: os) M'); [done|by econstructor].
Qed.

Lemma enabled_all_nil M : enabled_all [] M.
Proof. by intros [|e0 es1] e es2 os M'. Qed.

Lemma enabled_all_cons e es M : enabled e M → (∀ o M1, step e M o M1 → enabled_all es M1) → enabled_all (e :: es) M.
Proof.
  intros He Hes [|e1 es1] e' es2 os M'; cbn [app].
  - intros [= <- <-] Hs. by inversion Hs; subst.
  - intros [= <- ->] Hs. inversion Hs; subst. by eapply Hes.
Qed.

Lemma world_empty : world ∅ ∅.
Proof. exists (λ _, ∅). split_and!; [done|done|]. intros q [n Hn]. done. Qed.

Lemma world_leaf h M p i : world h M → h !! p = None → child i = [] → world (<[p := leaf i]> h) (<[p := i]> M).
Proof.
  intros [F HF] Hp Hc. eapply forest_new; [exact HF|exact Hp|by apply leaf_tree|]. intros q Hq. by rewrite lookup_insert_ne.
Qed.
End edit.

(** C2. The functions that edit items refine edits of values.  In a heap of item trees,
    any sequence of calls that add, insert, detach, replace, reference or delete items, by
    position or by key, on roots of the heap, runs without undefined behaviour, whichever
    allocations fail; it returns what the steps on values return, and leaves a heap of trees
    that hold the values after the steps and consist of all its nodes, so none is lost. *)
Theorem edits_refine_values `{CJsonHOk} (alloc : nat → Z → bool) (es : list edit) (h : gmap nat node) (n : nat) (M : gmap nat cJSON) :
  world h M → enabled_all alloc es M →
  ∃ os h' n' M', run_all alloc es h n = Ok (os, h', n') ∧ steps alloc es M os M' ∧ world h' M'.
Proof.
  revert h n M. induction es as [|e es IH]; intros h n M Hw He; [eexists _, h, n, M; split; [done|]; by split; [constructor|]|].
  apply enabled_head in He as [He Hes]. destruct (all_simulated alloc e h n M Hw He) as (o & h1 & n1 & M1 & E & Hs & Hw1).
  destruct (IH h1 n1 M1 Hw1 (Hes o M1 Hs)) as (os & h2 & n2 & M2 & E2 & Hss & Hw2).
  exists (o :: os), h2, n2, M2. cbn [run_all]. rewrite E, ok_bind, E2. split; [done|]. split; [by econstructor|done].
Qed.

(** An empty array and two literals. *)
Definition literal (t : Z) : cJSON := Item t None 0 (Floats.SpecFloat.S754_zero false) None [].
Definition sample_heap : gmap nat node := <[1%nat := leaf (literal cJSON_Array)]> (<[2%nat := leaf (literal cJSON_True)]> (<[3%nat := leaf (literal cJSON_NULL)]> ∅)).
Definition sample_values : gmap nat cJSON := <[1%nat := literal cJSON_Array]> (<[2%nat := literal cJSON_True]> (<[3%nat := literal cJSON_NULL]> ∅)).

Lemma edits_refine_values_witness :
  ∃ os h' n' M', run_all (λ _ _, true) [Add 1 2; Insert 1 0 3; Detach 1 1] sample_heap 0%nat = Ok (os, h', n') ∧
    steps (λ _ _, true) [Add 1 2; Insert 1 0 3; Detach 1 1] sample_values os M' ∧ world h' M'.
Proof.
  apply edits_refine_values; [do 3 (apply (world_leaf (λ _ _, true)); [|done|done]); apply world_empty|].
  apply enabled_all_cons; [split; [by eexists|by split; [eexists|]]|]. intros o1 M1 H1. inversion H1; subst.
  match goal with E : sample_values !! 2%nat = Some ?v |- _ => assert (v = literal cJSON_True) as -> by (by vm_compute in E; injection E) end.
  apply enabled_all_cons; [split; [by eexists|by split; [eexists|]]|]. intros o2 M2 H2. inversion H2; subst; [|lia].
  match goal with E : _ !! 3%nat = Some ?v |- _ => assert (v = literal cJSON_NULL) as -> by (by vm_compute in E; injection E) end.
  apply enabled_all_cons; [by eexists|]. intros o3 M3 H3. apply enabled_all_nil.
Defined.

Example edits_sample :
  ∃ h', run_all (λ _ _, true) [Add 1 2; Insert 1 0 3; Detach 1 1; Delete 2] sample_heap 0 = Ok ([Done true; Done true; Got (Some 2%nat); Done true], h', 0%nat).
Proof. eexists. by vm_compute. Qed.

(** [cJSON_InsertItemInArray] with a null item, at a position the array has, dereferences
    the null pointer; behind the last element it returns [false] and changes nothing. *)
Theorem insert_null_item (h : gmap nat node) (a : nat) (l : list nat) (which : Z) : container h a l → 0 ≤ which →
  cJSON_InsertItemInArray h (Some a) which None = if decide (which < Z.of_nat (length l)) then Ub else Ok (false, h).
Proof.
  intros Hc Hw. unfold cJSON_InsertItemInArray. destruct (Z.ltb_spec which 0); [lia|]. rewrite (get_item_spec _ _ _ _ Hc), ok_bind.
  case_decide as Hlt.
  - destruct (lookup_lt_is_Some_2 l (Z.to_nat which)) as [y ->]; [lia|]. done.
  - rewrite (proj2 (lookup_ge_None l _)) by lia. done.
Qed.

Lemma insert_null_item_witness :
  cJSON_InsertItemInArray referring_heap (Some 1%nat) 0 None = if decide (0 < Z.of_nat (length [2%nat])) then Ub else Ok (false, referring_heap).
Proof.
  apply insert_null_item; [|done]. split; [by eexists|]. split; [|set_solver]. split; [apply NoDup_singleton|].
  exists None. split; [|by left]. eapply seg_single; [reflexivity|done..].
Defined.
