(* ===== verification/NtyReactor.v ===== *)
(** * NtyReactor: the echo server of src/server-client/reactor.c

    The events are the block of [MAX_EPOLL_EVENTS] structs of the reactor, addressed by
    their index, which is what a pointer to one is; indexing outside the block is undefined
    behaviour.  The kernel is a parameter that answers each system call as a function of the
    calls made before.  There is one reactor, so its address is only compared with [NULL]. *)

From S2P Require Import Prelude.
#[local] Open Scope Z_scope.

Definition MAX_EPOLL_EVENTS : Z := 1024.
Definition MAX_BUFFER_SIZE : Z := 4096.
Definition EPOLLIN : Z := 1.
Definition EPOLLOUT : Z := 4.

(** The functions an event can call. *)
Inductive callback_t := accept_callback_ptr | recv_callback_ptr | send_callback_ptr.

Record ntyevent := mk_event {
  fd : Z;
  events : Z;
  callback : callback_t;
  status : Z;
  buffer : list Z;
  length_ : Z;
  last_active : Z
}.

Definition set_status (s : Z) (e : ntyevent) := mk_event (fd e) (events e) (callback e) s (buffer e) (length_ e) (last_active e).
Definition set_buffer (b : list Z) (e : ntyevent) := mk_event (fd e) (events e) (callback e) (status e) b (length_ e) (last_active e).

Inductive syscall :=
  | CtlAdd (fd i evs : Z) | CtlMod (fd i evs : Z) | CtlDel (fd : Z)
  | Wait (timeout : Z) | Accept (fd : Z) | Fcntl (fd : Z) | Recv (fd : Z) | Send (fd : Z) (bs : list Z) | Close (fd : Z).

(** Answers of the kernel: [None] is an error; [k_wait] reports pointers and flags, or an
    [errno]. *)
Record kernel := mk_kernel {
  k_ctl : list syscall → bool;
  k_wait : list syscall → list (Z * Z) + Z;
  k_accept : list syscall → option Z;
  k_fcntl : list syscall → bool;
  k_recv : list syscall → Z → option (list Z);
  k_send : list syscall → Z → list Z → Z;
  k_time : list syscall → Z
}.
Definition EAGAIN : Z := 11.
Definition EINTR : Z := 4.

(** The event table and the system calls made. *)
Record reactor := mk_reactor { table : list ntyevent; log : list syscall }.

Definition has (flags bit : Z) : bool := negb (Z.land flags bit =? 0).
Definition call (c : syscall) (r : reactor) : reactor := mk_reactor (table r) (log r ++ [c]).

Definition ev_get (r : reactor) (i : Z) : result ntyevent :=
  if bool_decide (0 ≤ i) then of_opt (table r !! Z.to_nat i) else Ub.
Definition ev_set (r : reactor) (i : Z) (e : ntyevent) : reactor := mk_reactor (<[Z.to_nat i := e]> (table r)) (log r).

Section nty.
Context (K : kernel).

(** ** Events *)
Definition nty_event_set (r : reactor) (ev fd_ event length status_ : Z) (cb : callback_t) : result (reactor * Z) :=
  if (fd_ <? 0) || (event <? 0) || (length <? 0) || (status_ <? 0) then Ok (r, -1) else
  e ← ev_get r ev;
  Ok (ev_set r ev (mk_event fd_ event cb status_ (buffer e) length (k_time K (log r))), 0).

Definition nty_event_add (r : reactor) (ev : Z) : result (reactor * Z) :=
  e ← ev_get r ev;
  let '(r, op) := if status e =? 0 then (ev_set r ev (set_status 1 e), CtlAdd (fd e) ev (events e))
                  else (r, CtlMod (fd e) ev (events e)) in
  let ok := k_ctl K (log r) in
  Ok (call op r, if ok then 0 else -1).

Definition nty_event_del (r : reactor) (ev : Z) : result (reactor * Z) :=
  e ← ev_get r ev;
  if negb (status e =? 1) then Ok (r, -1) else
  let r := ev_set r ev (set_status 0 e) in
  let ok := k_ctl K (log r) in
  Ok (call (CtlDel (fd e)) r, if ok then 0 else -1).

(** ** Callbacks *)

(** The search for a free slot from 5 on. *)
Fixpoint free_slot (n : nat) (r : reactor) (i : Z) : result Z :=
  match n with
  | O => Ok i
  | S n => e ← ev_get r i; if status e =? 0 then Ok i else free_slot n r (i + 1)
  end.

Definition accept_callback (r : reactor) (fd_ : Z) : result (reactor * Z) :=
  e ← ev_get r fd_;
  let cli := k_accept K (log r) in
  let r := call (Accept (fd e)) r in
  match cli with
  | None => Ok (r, -1)
  | Some cli_fd =>
      i ← free_slot (Z.to_nat (MAX_EPOLL_EVENTS - 5)) r 5;
      if i =? MAX_EPOLL_EVENTS then Ok (r, -1) else
      let ok := k_fcntl K (log r) in
      let r := call (Fcntl cli_fd) r in
      if negb ok then Ok (r, -1) else
      '(r, _) ← nty_event_set r cli_fd cli_fd EPOLLIN 0 0 recv_callback_ptr;
      '(r, _) ← nty_event_add r cli_fd;
      _ ← ev_get r cli_fd;
      Ok (r, 0)
  end.

Definition recv_callback (r : reactor) (fd_ : Z) : result (reactor * Z) :=
  '(r, _) ← nty_event_del r fd_;
  e ← ev_get r fd_;
  let answer := k_recv K (log r) (fd e) in
  let r := call (Recv (fd e)) r in
  match answer with
  | None => Ok (call (Close (fd e)) r, -1)
  | Some [] => Ok (call (Close (fd e)) r, 0)
  | Some bs =>
      let bs := take (Z.to_nat MAX_BUFFER_SIZE) bs in
      let rc := Z.of_nat (length bs) in
      b ← memwrite (buffer e) 0 bs;
      b ← b.[rc := 0];
      let r := ev_set r fd_ (set_buffer (b : list Z) (e : ntyevent)) in
      '(r, _) ← nty_event_set r fd_ (fd e) EPOLLOUT rc 0 send_callback_ptr;
      '(r, _) ← nty_event_add r fd_;
      Ok (r, rc)
  end.

Definition send_callback (r : reactor) (fd_ : Z) : result (reactor * Z) :=
  e ← ev_get r fd_;
  bs ← memread (buffer e) 0 (length_ e);
  let rc := k_send K (log r) (fd e) bs in
  let r := call (Send (fd e) bs) r in
  if 0 <? rc then
    '(r, _) ← nty_event_del r fd_;
    '(r, _) ← nty_event_set r fd_ (fd e) EPOLLIN 0 0 recv_callback_ptr;
    '(r, _) ← nty_event_add r fd_;
    Ok (r, rc)
  else
    let r := call (Close (fd e)) r in
    '(r, _) ← nty_event_del r fd_;
    Ok (r, rc).

(** [ev->callback(ev->fd, ev->events, ev->arg)] *)
Definition run_callback (r : reactor) (ev : Z) : result reactor :=
  e ← ev_get r ev;
  '(r, _) ← match callback e with
            | accept_callback_ptr => accept_callback r (fd e)
            | recv_callback_ptr => recv_callback r (fd e)
            | send_callback_ptr => send_callback r (fd e)
            end;
  Ok r.

(** ** The loop *)
Definition on_ready (bit : Z) (r : reactor) (ev flags : Z) : result reactor :=
  e ← ev_get r ev;
  if has flags bit && has (events e) bit then run_callback r ev else Ok r.

Fixpoint dispatch (r : reactor) (ready : list (Z * Z)) : result reactor :=
  match ready with
  | [] => Ok r
  | (ev, flags) :: ready =>
      r ← on_ready EPOLLIN r ev flags;
      r ← on_ready EPOLLOUT r ev flags;
      dispatch r ready
  end.

(** One iteration of [while(1)]: the reactor and whether the loop goes on. *)
Definition loop_round (r : reactor) : result (reactor * bool) :=
  let answer := k_wait K (log r) in
  let r := call (Wait 1000) r in
  match answer with
  | inr errno => Ok (r, errno =? EAGAIN)
  | inl [] => Ok (r, true)
  | inl ready => r ← dispatch r ready; Ok (r, true)
  end.

(** At most [n] iterations; [true] when the loop has not returned. *)
Fixpoint ntyreactor_run (n : nat) (r : reactor) : result (reactor * bool) :=
  match n with
  | O => Ok (r, true)
  | S n => '(r, go) ← loop_round r; if go : bool then ntyreactor_run n r else Ok (r, false)
  end.

Definition ntyreactor_addlistener (r : reactor) (fd_ : Z) : result (reactor * Z) :=
  if fd_ <? 0 then Ok (r, -1) else
  '(r, _) ← nty_event_set r fd_ fd_ EPOLLIN 0 0 accept_callback_ptr;
  '(r, _) ← nty_event_add r fd_;
  Ok (r, 0).

(** [main] once the listening socket is open: the table [malloc] returned is [fresh]. *)
Definition main (n : nat) (fresh : list ntyevent) (sock_fd : Z) : result (reactor * bool) :=
  '(r, _) ← ntyreactor_addlistener (mk_reactor fresh []) sock_fd;
  ntyreactor_run n r.
End nty.
