(* ===== verification/NtyTheorems.v ===== *)
(** * NtyTheorems: the echo server runs on, and echoes *)

From S2P Require Import Prelude NtyReactor.
#[local] Open Scope Z_scope.

(** ** Registrations and what a callback touches *)
Definition registered (l : list syscall) (i : Z) : Prop := ∃ f evs, CtlAdd f i evs ∈ l ∨ CtlMod f i evs ∈ l.

(** The calls on the connection [f]. *)
Definition on (f : Z) (c : syscall) : bool :=
  match c with
  | CtlAdd g _ _ | CtlMod g _ _ | CtlDel g | Recv g | Send g _ | Close g => g =? f
  | Wait _ | Accept _ | Fcntl _ => false
  end.

(** No call on [f] in [l]. *)
Definition silent (f : Z) (l : list syscall) : Prop := Forall (λ c, on f c = false) l.

Lemma registered_app l1 l2 i : registered (l1 ++ l2) i ↔ registered l1 i ∨ registered l2 i.
Proof. unfold registered. setoid_rewrite elem_of_app. naive_solver. Qed.

Lemma silent_app f l1 l2 : silent f (l1 ++ l2) ↔ silent f l1 ∧ silent f l2.
Proof. apply Forall_app. Qed.

Lemma silent_nil f : silent f [].
Proof. by constructor. Qed.

Lemma silent_not_elem f l c : silent f l → on f c = true → c ∉ l.
Proof. intros Hs Hc Hin. unfold silent in Hs. rewrite Forall_forall in Hs. rewrite (Hs c Hin) in Hc. done. Qed.

(** What the functions rely on in an event in use. *)
Definition good (i : Z) (e : ntyevent) : Prop := fd e = i ∧ 0 ≤ length_ e ≤ MAX_BUFFER_SIZE.

Record inv (r : reactor) : Prop := {
  inv_length : length (table r) = Z.to_nat MAX_EPOLL_EVENTS;
  inv_buffer : ∀ i e, table r !! i = Some e → length (buffer e) = Z.to_nat MAX_BUFFER_SIZE;
  inv_good : ∀ i, registered (log r) i → 0 ≤ i < MAX_EPOLL_EVENTS ∧ ∃ e, table r !! Z.to_nat i = Some e ∧ good i e
}.

(** From [r] to [r']: the calls [l], a change of the event [j] at most. *)
Record touches (j : Z) (r r' : reactor) (l : list syscall) : Prop := {
  to_log : log r' = log r ++ l;
  to_table : ∀ k, k ≠ Z.to_nat j → table r' !! k = table r !! k;
  to_silent : ∀ f, f ≠ j → silent f l;
  to_registered : ∀ k, registered l k → k = j
}.

Lemma touches_refl j r : touches j r r [].
Proof. split; [by rewrite app_nil_r|done|intros; apply silent_nil|]. intros k (f & evs & [?%elem_of_nil|?%elem_of_nil]); done. Qed.

Lemma touches_trans j r1 r2 r3 l1 l2 : touches j r1 r2 l1 → touches j r2 r3 l2 → touches j r1 r3 (l1 ++ l2).
Proof.
  intros [L1 T1 S1 R1] [L2 T2 S2 R2]. split.
  - by rewrite L2, L1, app_assoc.
  - intros k Hk. by rewrite T2, T1.
  - intros f Hf. apply silent_app. auto.
  - intros k [?|?]%registered_app; auto.
Qed.

Lemma touches_set j r e : touches j r (ev_set r j e) [].
Proof.
  split; [by rewrite app_nil_r| |intros; apply silent_nil|intros k (f & evs & [?%elem_of_nil|?%elem_of_nil]); done].
  intros k Hk. cbn. by rewrite list_lookup_insert_ne.
Qed.

(** A call that concerns the event [j] or no connection. *)
Definition concerns (j : Z) (c : syscall) : Prop :=
  match c with
  | CtlAdd f i _ | CtlMod f i _ => f = j ∧ i = j
  | CtlDel f | Recv f | Send f _ | Close f => f = j
  | Wait _ | Accept _ | Fcntl _ => True
  end.

Lemma touches_call j r c : concerns j c → touches j r (call c r) [c].
Proof.
  intros Hc. split; [done|done| |].
  - intros f Hf. constructor; [|constructor]. destruct c; cbn in Hc |- *; try done; apply Z.eqb_neq; naive_solver.
  - intros k (f & evs & Hk). rewrite !list_elem_of_singleton in Hk. by destruct Hk as [<-|<-]; destruct Hc.
Qed.

Lemma inv_lookup r i : inv r → 0 ≤ i < MAX_EPOLL_EVENTS → ∃ e, table r !! Z.to_nat i = Some e ∧ length (buffer e) = Z.to_nat MAX_BUFFER_SIZE.
Proof.
  intros Hi Hr. destruct (lookup_lt_is_Some_2 (table r) (Z.to_nat i)) as [e He]; [rewrite (inv_length _ Hi); lia|].
  exists e. split; [done|]. by eapply inv_buffer.
Qed.

Lemma ev_get_Ok r i e : 0 ≤ i → table r !! Z.to_nat i = Some e → ev_get r i = Ok e.
Proof. intros Hi He. unfold ev_get. by rewrite bool_decide_eq_true_2, He. Qed.

Lemma set_lookup r i e e0 : table r !! Z.to_nat i = Some e0 → table (ev_set r i e) !! Z.to_nat i = Some e.
Proof. intros He. cbn. apply list_lookup_insert_eq. by eapply lookup_lt_Some. Qed.

(** What is touched stays well-formed. *)
Lemma inv_touches j r r' l e e' : inv r → touches j r r' l → 0 ≤ j < MAX_EPOLL_EVENTS → length (table r') = length (table r) →
  table r !! Z.to_nat j = Some e → table r' !! Z.to_nat j = Some e' → length (buffer e') = length (buffer e) →
  good j e' → inv r'.
Proof.
  intros [Hl Hb Hg] [L T S R] Hj Hlen He He' Hbuf Hgood. split.
  - congruence.
  - intros i x Hx. destruct (decide (i = Z.to_nat j)) as [->|Hne]; [|rewrite T in Hx by done; by eapply Hb].
    assert (x = e') as -> by congruence. rewrite Hbuf. by eapply Hb.
  - intros i Hi. rewrite L, registered_app in Hi. destruct (decide (i = j)) as [->|Hne]; [split; [done|by exists e']|].
    destruct Hi as [Hi|Hi]; [|by apply R in Hi]. destruct (Hg i Hi) as (Hr & x & Hx & Hgx). split; [done|]. exists x. rewrite T by lia. done.
Qed.

Section run.
Context (K : kernel).

(** ** The operations on events *)
Lemma nty_set_run r ev f evs len s cb e : 0 ≤ ev → table r !! Z.to_nat ev = Some e → 0 ≤ f → 0 ≤ evs → 0 ≤ len → 0 ≤ s →
  nty_event_set K r ev f evs len s cb = Ok (ev_set r ev (mk_event f evs cb s (buffer e) len (k_time K (log r))), 0).
Proof.
  intros Hev He Hf Hevs Hlen Hs. unfold nty_event_set.
  destruct (Z.ltb_spec f 0), (Z.ltb_spec evs 0), (Z.ltb_spec len 0), (Z.ltb_spec s 0); try lia. cbn [orb].
  by rewrite (ev_get_Ok _ _ _ Hev He).
Qed.

Lemma nty_add_run r ev e : 0 ≤ ev → table r !! Z.to_nat ev = Some e → fd e = ev → ∃ r' ret c, nty_event_add K r ev = Ok (r', ret) ∧
  touches ev r r' [c] ∧ c = (if status e =? 0 then CtlAdd (fd e) ev (events e) else CtlMod (fd e) ev (events e)) ∧
  length (table r') = length (table r) ∧ table r' !! Z.to_nat ev = Some (if status e =? 0 then set_status 1 e else e).
Proof.
  intros Hev He Hfd. unfold nty_event_add. rewrite (ev_get_Ok _ _ _ Hev He), ok_bind. destruct (status e =? 0).
  - eexists _, _, _. split; [done|]. split; [|split; [done|split; [cbn; by rewrite length_insert|cbn; by eapply set_lookup]]].
    eapply (touches_trans _ _ _ _ []); [apply touches_set|by apply touches_call].
  - eexists _, _, _. split; [done|]. split; [by apply touches_call|done].
Qed.

(** The call of [nty_event_del]. *)
Definition deleted (i : Z) (e : ntyevent) : list syscall := if status e =? 1 then [CtlDel i] else [].

Lemma deleted_not_elem i e c : c ≠ CtlDel i → c ∉ deleted i e.
Proof. intros Hc. unfold deleted. case_match; [by rewrite list_elem_of_singleton|apply not_elem_of_nil]. Qed.

Lemma nty_del_run r ev e : 0 ≤ ev → table r !! Z.to_nat ev = Some e → fd e = ev → ∃ r' ret, nty_event_del K r ev = Ok (r', ret) ∧
  touches ev r r' (deleted ev e) ∧ length (table r') = length (table r) ∧
  table r' !! Z.to_nat ev = Some (if status e =? 1 then set_status 0 e else e).
Proof.
  intros Hev He Hfd. unfold nty_event_del, deleted. rewrite (ev_get_Ok _ _ _ Hev He), ok_bind. destruct (status e =? 1); cbn [negb].
  - eexists _, _. split; [done|]. rewrite Hfd. split; [eapply (touches_trans _ _ _ _ []); [apply touches_set|by apply touches_call]|].
    split; [cbn; by rewrite length_insert|cbn; by eapply set_lookup].
  - eexists _, _. split; [done|]. split; [apply touches_refl|]. done.
Qed.

(** ** The callbacks *)
Definition registered_for (evs : Z) (cb : callback_t) (e : ntyevent) : Prop := events e = evs ∧ callback e = cb ∧ status e = 1.

(** The event holds [bs] to be sent. *)
Definition holds (bs : list Z) (e : ntyevent) : Prop :=
  registered_for EPOLLOUT send_callback_ptr e ∧ length_ e = Z.of_nat (length bs) ∧ take (length bs) (buffer e) = bs.

(** Setting an event anew and registering it. *)
Lemma set_add_run r j e f evs len cb : inv r → 0 ≤ j < MAX_EPOLL_EVENTS → f = j → table r !! Z.to_nat j = Some e →
  0 ≤ evs → 0 ≤ len ≤ MAX_BUFFER_SIZE →
  ∃ r' l e' (ret : Z), ('(r, _) ← nty_event_set K r j f evs len 0 cb; nty_event_add K r j) = Ok (r', ret) ∧ touches j r r' l ∧ inv r' ∧
    table r' !! Z.to_nat j = Some e' ∧ registered_for evs cb e' ∧ fd e' = j ∧ length_ e' = len ∧ buffer e' = buffer e ∧ l = [CtlAdd j j evs].
Proof.
  intros Hi Hj -> He Hevs Hlen. rewrite (nty_set_run r j j evs len 0 cb e), ok_bind by (done || lia). set (e1 := mk_event j evs cb 0 (buffer e) len _).
  destruct (nty_add_run (ev_set r j e1) j e1) as (r' & ret & c & E & Ht & -> & Hl & He'); [lia|by eapply set_lookup|done|].
  cbn [status e1] in *. cbn in Ht, He'. eexists r', [CtlAdd j j evs], _, ret. split; [exact E|].
  assert (touches j r r' [CtlAdd j j evs]) as Ht' by (eapply (touches_trans _ _ _ _ []); [apply touches_set|exact Ht]).
  split; [done|]. split; [|split; [exact He'|]].
  - eapply (inv_touches j r r' _ e); [done|done|done| |done|exact He'|done|by split].
    rewrite Hl. cbn. by rewrite length_insert.
  - by split_and!.
Qed.

(** The first half of [recv_callback]: the event is taken out and the socket read. *)
Lemma recv_start r i e : inv r → 0 ≤ i < MAX_EPOLL_EVENTS → table r !! Z.to_nat i = Some e → good i e →
  ∃ r1 e1, touches i r r1 (deleted i e) ∧ inv r1 ∧ table r1 !! Z.to_nat i = Some e1 ∧ good i e1 ∧ buffer e1 = buffer e ∧
  recv_callback K r i =
    match k_recv K (log r1) i with
    | None => Ok (call (Close i) (call (Recv i) r1), -1)
    | Some [] => Ok (call (Close i) (call (Recv i) r1), 0)
    | Some bs =>
        let bs := take (Z.to_nat MAX_BUFFER_SIZE) bs in
        let rc := Z.of_nat (length bs) in
        b ← memwrite (buffer e1) 0 bs;
        b ← blk_store b rc 0;
        '(r, _) ← nty_event_set K (ev_set (call (Recv i) r1) i (set_buffer b e1)) i i EPOLLOUT rc 0 send_callback_ptr;
        '(r, _) ← nty_event_add K r i;
        Ok (r, rc)
    end.
Proof.
  intros Hi Hr He Hg. destruct (nty_del_run r i e) as (r1 & ret & E & Ht & Hl & He1); [lia|done|apply Hg|].
  set (e1 := if status e =? 1 then set_status 0 e else e) in *. assert (good i e1 ∧ buffer e1 = buffer e) as [Hg1 Hb1] by (unfold e1; by case_match).
  exists r1, e1. split; [done|]. split; [by eapply (inv_touches i r r1 (deleted i e) e e1); rewrite ?Hb1|]. do 3 (split; [done|]).
  unfold recv_callback. rewrite E, ok_bind, (ev_get_Ok _ _ _ (proj1 Hr) He1), ok_bind. destruct Hg1 as [-> _]. done.
Qed.

Lemma inv_call r c j e : inv r → 0 ≤ j < MAX_EPOLL_EVENTS → table r !! Z.to_nat j = Some e → good j e → concerns j c → inv (call c r).
Proof. intros Hi Hj He Hg Hc. eapply (inv_touches j r _ [c] e e); [done|by apply touches_call|done|done|done|done|done|done]. Qed.

(** A read that fills the buffer: the NUL goes beyond it. *)
Definition full_read (r : reactor) (i : Z) (e : ntyevent) : Prop :=
  ∃ bs, k_recv K (log r ++ deleted i e) i = Some bs ∧ MAX_BUFFER_SIZE ≤ Z.of_nat (length bs).

Lemma recv_run r i e : inv r → 0 ≤ i < MAX_EPOLL_EVENTS → table r !! Z.to_nat i = Some e → good i e →
  recv_callback K r i = Ub ∧ full_read r i e ∨
  ∃ r' ret l, recv_callback K r i = Ok (r', ret) ∧ touches i r r' l ∧ inv r' ∧
    ∀ bs, (∀ l', Recv i ∉ l' → k_recv K (log r ++ l') i = Some bs) → bs ≠ [] →
      ∃ l0 e', l = l0 ++ [CtlAdd i i EPOLLOUT] ∧ Close i ∉ l0 ∧ table r' !! Z.to_nat i = Some e' ∧ holds bs e'.
Proof.
  intros Hi Hr He Hg. destruct (recv_start r i e Hi Hr He Hg) as (r1 & e1 & Ht1 & Hi1 & He1 & Hg1 & Hb1 & ->).
  assert (touches i r1 (call (Recv i) r1) [Recv i]) as Ht2 by (by apply touches_call).
  assert (touches i r (call (Close i) (call (Recv i) r1)) (deleted i e ++ [Recv i] ++ [Close i])) as Htc.
  { eapply touches_trans; [exact Ht1|]. eapply touches_trans; [exact Ht2|by apply touches_call]. }
  assert (inv (call (Recv i) r1)) as Hi2 by (by eapply inv_call). assert (inv (call (Close i) (call (Recv i) r1))) as Hic by (by eapply inv_call).
  assert (∀ bs', (∀ l', Recv i ∉ l' → k_recv K (log r ++ l') i = Some bs') → k_recv K (log r1) i = Some bs') as Hlaw.
  { intros bs' Hk. rewrite (to_log _ _ _ _ Ht1). apply Hk. by apply deleted_not_elem. }
  pose proof (inv_buffer _ Hi1 _ _ He1) as Hlen.
  destruct (k_recv K (log r1) i) as [[|c bs]|] eqn:Ek.
  1, 3: right; eexists _, _, _; split; [done|]; split; [done|]; split; [done|]; intros bs' Hk Hne; apply Hlaw in Hk; congruence.
  set (bs0 := c :: bs) in *. destruct (Z.le_gt_cases MAX_BUFFER_SIZE (Z.of_nat (length bs0))) as [Hlong|Hshort].
  { left. split; [|exists bs0; by rewrite <- (to_log _ _ _ _ Ht1)]. cbn zeta. rewrite length_take, Nat.min_l by lia.
    rewrite memwrite_Ok, ok_bind by (rewrite ?length_take; unfold MAX_BUFFER_SIZE in *; lia). unfold blk_store.
    rewrite bool_decide_eq_false_2; [done|]. rewrite !length_app, !length_take, length_drop. lia. }
  right. cbn zeta. rewrite take_ge by (unfold MAX_BUFFER_SIZE in *; lia).
  rewrite memwrite_Ok, ok_bind by (unfold MAX_BUFFER_SIZE in *; lia). change (Z.to_nat 0) with 0%nat. rewrite take_0, app_nil_l, Nat.add_0_l.
  unfold blk_store. rewrite bool_decide_eq_true_2, ok_bind by (rewrite length_app, length_drop; unfold MAX_BUFFER_SIZE in *; lia). rewrite Nat2Z.id.
  set (b2 := <[length bs0 := 0]> _). assert (length b2 = length (buffer e1) ∧ take (length bs0) b2 = bs0) as [Hb2 Htk].
  { unfold b2. split; [rewrite length_insert, length_app, length_drop; unfold MAX_BUFFER_SIZE in *; lia|].
    rewrite take_insert_ge by lia. by rewrite take_app_length. }
  assert (inv (ev_set (call (Recv i) r1) i (set_buffer b2 e1))) as Hi3.
  { eapply (inv_touches i (call (Recv i) r1) _ [] e1 (set_buffer b2 e1)); [done|apply touches_set|done|cbn; by rewrite length_insert|done|by eapply set_lookup|done|done]. }
  destruct (set_add_run (ev_set (call (Recv i) r1) i (set_buffer b2 e1)) i (set_buffer b2 e1) i EPOLLOUT (Z.of_nat (length bs0)) send_callback_ptr)
    as (r' & l & e' & ret & E & Ht & Hi' & He' & Hreg & Hfd & Hl' & Hb' & ->); [done|done|done|by eapply set_lookup|done|unfold MAX_BUFFER_SIZE in *; lia|].
  destruct (nty_event_set K _ i i _ _ _ _) as [[r3 z]| |] eqn:E3; try discriminate E. rewrite ok_bind in E |- *. rewrite E, ok_bind.
  eexists r', _, ((deleted i e ++ [Recv i]) ++ [CtlAdd i i EPOLLOUT]). split; [done|]. split.
  { eapply touches_trans; [by eapply touches_trans|]. eapply (touches_trans _ _ _ _ []); [apply touches_set|exact Ht]. }
  split; [done|]. intros bs' Hk _. apply Hlaw in Hk. assert (bs' = bs0) as -> by congruence. exists (deleted i e ++ [Recv i]), e'. split; [done|].
  split; [rewrite not_elem_of_app, list_elem_of_singleton; split; [by apply deleted_not_elem|done]|]. split; [done|]. split; [done|]. split; [done|]. by rewrite Hb'.
Qed.

Lemma send_run r i e : inv r → 0 ≤ i < MAX_EPOLL_EVENTS → table r !! Z.to_nat i = Some e → good i e →
  ∃ r' ret l, send_callback K r i = Ok (r', ret) ∧ touches i r r' l ∧ inv r' ∧ Send i (take (Z.to_nat (length_ e)) (buffer e)) ∈ l.
Proof.
  intros Hi Hr He Hg. pose proof (inv_buffer _ Hi _ _ He) as Hlen. pose proof Hg as [Hfd Hle].
  unfold send_callback. rewrite (ev_get_Ok _ _ _ (proj1 Hr) He), ok_bind, memread_Ok, ok_bind by lia.
  change (Z.to_nat 0) with 0%nat. rewrite drop_0, Hfd. set (bs := take _ (buffer e)). set (r1 := call (Send i bs) r).
  assert (touches i r r1 [Send i bs]) as Ht1 by (by apply touches_call). assert (inv r1) as Hi1 by (by eapply inv_call).
  destruct (0 <? k_send K (log r) i bs).
  - destruct (nty_del_run r1 i e) as (r2 & ret & -> & Ht2 & Hl2 & He2); [lia|done|done|]. rewrite ok_bind.
    set (e2 := if status e =? 1 then _ else _) in *. assert (good i e2 ∧ buffer e2 = buffer e) as [Hg2 Hb2] by (unfold e2; by case_match).
    assert (inv r2) as Hi2 by (by eapply (inv_touches i r1 r2 _ e e2); rewrite ?Hb2).
    destruct (set_add_run r2 i e2 i EPOLLIN 0 recv_callback_ptr) as (r' & l & e' & ret' & E & Ht & Hi' & _); try done.
    destruct (nty_event_set K _ i i _ _ _ _) as [[r3 z]| |] eqn:E3; try discriminate E. rewrite ok_bind in E |- *. rewrite E, ok_bind.
    eexists r', _, ([Send i bs] ++ deleted i e ++ l). split; [done|]. split; [|split; [done|set_solver]].
    eapply touches_trans; [exact Ht1|]. by eapply touches_trans.
  - set (r2 := call (Close i) r1). assert (touches i r1 r2 [Close i]) as Ht2 by (by apply touches_call). assert (inv r2) as Hi2 by (by eapply (inv_call r1)).
    destruct (nty_del_run r2 i e) as (r3 & ret & -> & Ht3 & Hl3 & He3); [lia|done|done|]. rewrite ok_bind.
    set (e3 := if status e =? 1 then _ else _) in *. assert (good i e3 ∧ buffer e3 = buffer e) as [Hg3 Hb3] by (unfold e3; by case_match).
    eexists r3, _, ([Send i bs] ++ [Close i] ++ deleted i e). split; [done|]. split; [|split; [|set_solver]].
    + eapply touches_trans; [exact Ht1|]. by eapply touches_trans.
    + by eapply (inv_touches i r2 r3 _ e e3); rewrite ?Hb3.
Qed.

Lemma free_slot_Ok r n : inv r → ∀ i, 0 ≤ i → i + Z.of_nat n = MAX_EPOLL_EVENTS → ∃ k, free_slot n r i = Ok k ∧ i ≤ k ≤ MAX_EPOLL_EVENTS.
Proof.
  intros Hi. induction n as [|n IH]; intros i H0 Hn; cbn [free_slot]; [exists i; split; [done|lia]|].
  destruct (inv_lookup r i Hi) as (e & He & _); [lia|]. rewrite (ev_get_Ok _ _ _ H0 He), ok_bind. destruct (status e =? 0); [exists i; split; [done|lia]|].
  destruct (IH (i + 1)) as (k & -> & ?); [lia|lia|]. exists k. split; [done|lia].
Qed.

(** A descriptor beyond the table. *)
Definition large_fd (r : reactor) : Prop := ∃ c, k_accept K (log r) = Some c ∧ MAX_EPOLL_EVENTS ≤ c.

Lemma set_beyond r c evs cb : inv r → MAX_EPOLL_EVENTS ≤ c → 0 ≤ evs → nty_event_set K r c c evs 0 0 cb = Ub.
Proof.
  intros Hi Hc Hevs. assert (0 < MAX_EPOLL_EVENTS) as Hmax by done. unfold nty_event_set. destruct (Z.ltb_spec c 0), (Z.ltb_spec evs 0); try lia. cbn [orb Z.ltb Z.compare].
  unfold ev_get. rewrite bool_decide_eq_true_2, lookup_ge_None_2; [done| |lia]. rewrite (inv_length _ Hi). lia.
Qed.

Lemma accept_run r i e : inv r → 0 ≤ i < MAX_EPOLL_EVENTS → table r !! Z.to_nat i = Some e → good i e →
  (∀ l c, k_accept K l = Some c → 0 ≤ c) →
  accept_callback K r i = Ub ∧ large_fd r ∨
  ∃ r' ret l j, accept_callback K r i = Ok (r', ret) ∧ touches j r r' l ∧ inv r' ∧ 0 ≤ j ∧ (j = i ∨ k_accept K (log r) = Some j).
Proof.
  intros Hi Hr He Hg Hacc. unfold accept_callback. rewrite (ev_get_Ok _ _ _ (proj1 Hr) He), ok_bind. destruct Hg as [Hfd Hle]. rewrite Hfd.
  assert (good i e) as Hg by done. set (r1 := call (Accept i) r). assert (touches i r r1 [Accept i]) as Ht1 by (by apply touches_call).
  assert (inv r1) as Hi1 by (by eapply inv_call). pose proof (proj1 Hr) as Hi0. destruct (k_accept K (log r)) as [c|] eqn:Ek; [|right; eexists r1, _, _, i; eauto 10].
  specialize (Hacc _ _ Ek). destruct (free_slot_Ok r1 (Z.to_nat (MAX_EPOLL_EVENTS - 5)) Hi1 5) as (k & -> & _); [done|done|]. rewrite ok_bind.
  destruct (k =? MAX_EPOLL_EVENTS); [right; eexists r1, _, _, i; eauto 10|]. set (r2 := call (Fcntl c) r1).
  assert (inv r2) as Hi2 by (by apply (inv_call r1 (Fcntl c) i e)). destruct (k_fcntl K (log r1)); cbn [negb].
  2: { right. eexists r2, _, ([Accept i] ++ [Fcntl c]), i. split; [done|]. split; [|by split; [|split; [|left]]]. eapply touches_trans; [exact Ht1|by apply touches_call]. }
  destruct (Z.le_gt_cases MAX_EPOLL_EVENTS c) as [Hlarge|Hsmall]; [left; split; [by rewrite set_beyond|by exists c]|]. right. assert (0 ≤ c < MAX_EPOLL_EVENTS) as Hc by done.
  destruct (inv_lookup r2 c Hi2 Hc) as (e2 & He2 & _).
  destruct (set_add_run r2 c e2 c EPOLLIN 0 recv_callback_ptr) as (r' & l & e' & ret' & E & Ht & Hi' & He' & _); try done.
  destruct (nty_event_set K _ c c _ _ _ _) as [[r3 z]| |] eqn:E3; try discriminate E. rewrite ok_bind in E |- *. rewrite E, ok_bind.
  rewrite (ev_get_Ok _ _ _ Hacc He'), ok_bind. eexists r', _, ([Accept i] ++ [Fcntl c] ++ l), c. split; [done|]. split; [|by split; [|split; [|right]]].
  eapply touches_trans; [by apply touches_call|]. eapply touches_trans; [by apply touches_call|exact Ht].
Qed.
End run.

(** ** Where a run leaves the table or a buffer *)
Section overflows.
Context (K : kernel).

(** The callback of the event [i] is called and leaves its bounds: the socket gives a
    descriptor beyond the table, or a read fills the buffer. *)
Definition overflows (r : reactor) (i : Z) : Prop :=
  ∃ e, ev_get r i = Ok e ∧
    match callback e with
    | accept_callback_ptr => large_fd K r
    | recv_callback_ptr => full_read K r i e
    | send_callback_ptr => False
    end.

(** In one of the two tests of a report, in the reports of a round, in the rounds of a run. *)
Definition report_overflows (r : reactor) (i flags : Z) : Prop :=
  overflows r i ∨ ∃ r', on_ready K EPOLLIN r i flags = Ok r' ∧ overflows r' i.

Definition dispatch_overflows (r : reactor) (ready : list (Z * Z)) : Prop :=
  ∃ before i flags after r', ready = before ++ (i, flags) :: after ∧ dispatch K r before = Ok r' ∧ report_overflows r' i flags.

Definition round_overflows (r : reactor) : Prop :=
  ∃ ready, k_wait K (log r) = inl ready ∧ dispatch_overflows (call (Wait 1000) r) ready.

Definition run_overflows (n : nat) (r : reactor) : Prop :=
  ∃ m r', (m < n)%nat ∧ ntyreactor_run K m r = Ok (r', true) ∧ round_overflows r'.

Lemma dispatch_cons r i fl ready : dispatch K r ((i, fl) :: ready) = (r ← (r ← on_ready K EPOLLIN r i fl; on_ready K EPOLLOUT r i fl); dispatch K r ready).
Proof. cbn [dispatch]. by destruct (on_ready K EPOLLIN r i fl). Qed.

Lemma dispatch_overflows_here r i fl ready : report_overflows r i fl → dispatch_overflows r ((i, fl) :: ready).
Proof. intros H. by exists [], i, fl, ready, r. Qed.

Lemma dispatch_overflows_later r i fl ready r1 : (r ← on_ready K EPOLLIN r i fl; on_ready K EPOLLOUT r i fl) = Ok r1 →
  dispatch_overflows r1 ready → dispatch_overflows r ((i, fl) :: ready).
Proof. intros E (before & j & flags & after & r' & -> & E' & H). exists ((i, fl) :: before), j, flags, after, r'. by rewrite dispatch_cons, E, ok_bind. Qed.

Lemma run_overflows_here n r : round_overflows r → run_overflows (S n) r.
Proof. intros H. exists 0%nat, r. split; [lia|done]. Qed.

Lemma run_overflows_later n r r1 : loop_round K r = Ok (r1, true) → run_overflows n r1 → run_overflows (S n) r.
Proof. intros E (m & r' & Hm & E' & H). exists (S m), r'. split; [lia|]. cbn [ntyreactor_run]. by rewrite E, ok_bind. Qed.
End overflows.

(** ** The loop, on a kernel that behaves as documented: [accept] gives descriptors, and
    [epoll_wait] reports what was registered *)
Record kernel_ok (K : kernel) : Prop := {
  valid_fd : ∀ l c, k_accept K l = Some c → 0 ≤ c;
  sound_wait : ∀ l ready i fl, k_wait K l = inl ready → (i, fl) ∈ ready → registered l i
}.

Section loop.
Context (K : kernel) (HK : kernel_ok K).

(** [accept] does not return a descriptor that is open. *)
Definition open (f : Z) (r : reactor) : Prop := ∀ l, Close f ∉ l → k_accept K (log r ++ l) ≠ Some f.

(** The event of [f] and its connection are left alone. *)
Definition keeps (f : Z) (r r' : reactor) : Prop :=
  ∃ l, log r' = log r ++ l ∧ table r' !! Z.to_nat f = table r !! Z.to_nat f ∧ silent f l.

Lemma keeps_refl f r : keeps f r r.
Proof. exists []. rewrite app_nil_r. split; [done|]. split; [done|apply silent_nil]. Qed.

Lemma keeps_trans f r1 r2 r3 : keeps f r1 r2 → keeps f r2 r3 → keeps f r1 r3.
Proof.
  intros (l1 & L1 & T1 & S1) (l2 & L2 & T2 & S2). exists (l1 ++ l2). rewrite silent_app, L2, L1, app_assoc. split; [done|]. split; [congruence|done].
Qed.

Lemma open_grows f r r' l : open f r → log r' = log r ++ l → Close f ∉ l → open f r'.
Proof. intros Ho L Hc l' Hl'. rewrite L, <- app_assoc. apply Ho. by rewrite not_elem_of_app. Qed.

Lemma open_keeps f r r' : open f r → keeps f r r' → open f r'.
Proof. intros Ho (l & L & _ & Hs). eapply open_grows; [done|done|]. apply (silent_not_elem _ _ _ Hs), Z.eqb_refl. Qed.

Lemma touches_keeps j r r' l f : touches j r r' l → 0 ≤ j → 0 ≤ f → f ≠ j → keeps f r r'.
Proof. intros Ht Hj Hf Hne. exists l. split; [apply Ht|]. split; [apply (to_table _ _ _ _ Ht); lia|by apply Ht]. Qed.

(** One test of a report: the log grows, the events stay well-formed, and an open connection
    other than the one reported is left alone. *)
Definition fine (i : Z) (r r' : reactor) : Prop :=
  inv r' ∧ (∃ l, log r' = log r ++ l) ∧ ∀ f, 0 ≤ f → f ≠ i → open f r → keeps f r r'.

Lemma on_ready_run bit r i fl : inv r → registered (log r) i →
  on_ready K bit r i fl = Ub ∧ overflows K r i ∨ ∃ r', on_ready K bit r i fl = Ok r' ∧ fine i r r'.
Proof.
  intros Hi Hreg. destruct (inv_good _ Hi i Hreg) as (Hr & e & He & Hg). pose proof (ev_get_Ok _ _ _ (proj1 Hr) He) as Hev. unfold on_ready. rewrite Hev, ok_bind.
  destruct (has fl bit && has (events e) bit).
  2: { right. exists r. split; [done|]. split; [done|]. split; [exists []; by rewrite app_nil_r|]. intros; apply keeps_refl. }
  unfold run_callback. rewrite Hev, ok_bind. destruct Hg as [Hfd Hle]. rewrite Hfd. assert (good i e) as Hg by done.
  assert (∀ j r' l, 0 ≤ j → touches j r r' l → inv r' → (j = i ∨ k_accept K (log r) = Some j) → fine i r r') as Hfine.
  { intros j r' l Hj Ht Hi' Hcase. split; [done|]. split; [exists l; apply Ht|]. intros f Hf Hne Ho. eapply touches_keeps; [exact Ht|done|done|].
    intros ->. destruct Hcase as [->|Hacc]; [done|]. apply (Ho []); [apply not_elem_of_nil|by rewrite app_nil_r]. }
  unfold overflows. destruct (callback e) eqn:Ecb.
  - destruct (accept_run K r i e Hi Hr He Hg (valid_fd _ HK)) as [[-> Hl]|(r' & ret & l & j & -> & Ht & Hi' & Hj & Hcase)].
    + left. split; [done|]. exists e. by rewrite Ecb.
    + right. exists r'. split; [done|]. by apply (Hfine j r' l).
  - destruct (recv_run K r i e Hi Hr He Hg) as [[-> Hf]|(r' & ret & l & -> & Ht & Hi' & _)].
    + left. split; [done|]. exists e. by rewrite Ecb.
    + right. exists r'. split; [done|]. apply (Hfine i r' l); [lia|done|done|by left].
  - destruct (send_run K r i e Hi Hr He Hg) as (r' & ret & l & -> & Ht & Hi' & _). right. exists r'. split; [done|].
    apply (Hfine i r' l); [lia|done|done|by left].
Qed.

Lemma registered_grows r r' l i : registered (log r) i → log r' = log r ++ l → registered (log r') i.
Proof. intros Hr ->. apply registered_app. by left. Qed.

Lemma fine_trans i r1 r2 r3 : fine i r1 r2 → fine i r2 r3 → fine i r1 r3.
Proof.
  intros (I1 & [l1 L1] & F1) (I2 & [l2 L2] & F2). split; [done|]. split; [exists (l1 ++ l2); by rewrite L2, L1, app_assoc|].
  intros f Hf Hne Ho. pose proof (F1 f Hf Hne Ho) as Hk. eapply keeps_trans; [exact Hk|]. apply F2; [done|done|]. by eapply open_keeps.
Qed.

Lemma event_run r i fl : inv r → registered (log r) i →
  (r ← on_ready K EPOLLIN r i fl; on_ready K EPOLLOUT r i fl) = Ub ∧ report_overflows K r i fl ∨
  ∃ r', (r ← on_ready K EPOLLIN r i fl; on_ready K EPOLLOUT r i fl) = Ok r' ∧ fine i r r'.
Proof.
  intros Hi Hreg. destruct (on_ready_run EPOLLIN r i fl Hi Hreg) as [[E Ho]|(r1 & E & Hf1)]; [left; rewrite E; split; [done|by left]|].
  rewrite E, ok_bind. pose proof Hf1 as (Hi1 & [l1 L1] & _).
  destruct (on_ready_run EPOLLOUT r1 i fl Hi1) as [[-> Ho]|(r2 & -> & Hf2)]; [by eapply registered_grows|left; split; [done|right; by exists r1]|].
  right. exists r2. split; [done|]. by eapply fine_trans.
Qed.

Lemma dispatch_run ready : ∀ r, inv r → (∀ i fl, (i, fl) ∈ ready → registered (log r) i) →
  dispatch K r ready = Ub ∧ dispatch_overflows K r ready ∨ ∃ r', dispatch K r ready = Ok r' ∧ inv r'.
Proof.
  induction ready as [|[i fl] ready IH]; intros r Hi Hreg; [right; by exists r|].
  rewrite dispatch_cons. destruct (event_run r i fl Hi) as [[-> Ho]|(r1 & E & Hi1 & [l1 L1] & _)]; [by eapply Hreg, list_elem_of_here|left; split; [done|by apply dispatch_overflows_here]|].
  rewrite E, ok_bind. destruct (IH r1 Hi1) as [[-> Ho]|(r2 & -> & Hi2)]; [|left; split; [done|by eapply dispatch_overflows_later]|right; by exists r2].
  intros k fl' Hk. eapply registered_grows; [by eapply Hreg, list_elem_of_further|done].
Qed.

(** ** A request is echoed *)

Definition is_wait (c : syscall) : bool := match c with Wait _ => true | _ => false end.
Definition waits (l : list syscall) : nat := length (filter (λ c, is_wait c) l).

Lemma waits_app l1 l2 : waits (l1 ++ l2) = (waits l1 + waits l2)%nat.
Proof. unfold waits. by rewrite filter_app, length_app. Qed.

(** Unless [epoll_wait] fails, it reports that [bit] is possible for [f]; it does not fail with
    [EAGAIN], which is no error of [epoll_wait]. *)
Definition reports (f bit : Z) (l : list syscall) : Prop :=
  match k_wait K l with
  | inl ready => ∃ fl, (f, fl) ∈ ready ∧ has fl bit = true
  | inr errno => errno ≠ EAGAIN
  end.

(** After the calls [l0], the kernel has [bs] for the reader of [f], keeps the descriptor for
    it, and from the [N]-th [epoll_wait] on reports [f] whenever what it is registered for is
    possible. *)
Record serves (f : Z) (bs : list Z) (N : nat) (l0 : list syscall) : Prop := {
  data_there : ∀ l, Recv f ∉ l → k_recv K (l0 ++ l) f = Some bs;
  read_ready : ∀ l, silent f l → (N ≤ waits l)%nat → reports f EPOLLIN (l0 ++ l);
  write_ready : ∀ l1 l2, Close f ∉ l1 → silent f l2 → (N ≤ waits (l1 ++ CtlAdd f f EPOLLOUT :: l2))%nat →
    reports f EPOLLOUT (l0 ++ l1 ++ CtlAdd f f EPOLLOUT :: l2);
  fd_kept : ∀ l, Close f ∉ l → k_accept K (l0 ++ l) ≠ Some f
}.

Section echo.
Context (f : Z) (bs : list Z) (N : nat) (l0 : list syscall) (HS : serves f bs N l0) (Hf : 0 ≤ f) (Hbs : bs ≠ []) (Hreg : registered l0 f).

(** How far the request is: waiting to be read, held to be sent, sent. *)
Definition progress (k : nat) (r : reactor) (l : list syscall) : Prop :=
  match k with
  | O => silent f l ∧ ∃ e, table r !! Z.to_nat f = Some e ∧ registered_for EPOLLIN recv_callback_ptr e
  | 1%nat => ∃ l1 l2 e, l = l1 ++ CtlAdd f f EPOLLOUT :: l2 ∧ Close f ∉ l1 ∧ silent f l2 ∧ table r !! Z.to_nat f = Some e ∧ holds bs e
  | _ => Send f bs ∈ l
  end.

Definition phase (k w : nat) (r : reactor) : Prop := ∃ l, log r = l0 ++ l ∧ (w ≤ waits l)%nat ∧ progress k r l.

Lemma phase_grows k w r r' l : phase k w r → log r' = log r ++ l → (2 ≤ k)%nat ∨ (silent f l ∧ table r' !! Z.to_nat f = table r !! Z.to_nat f) →
  phase k (w + waits l) r'.
Proof.
  intros (l1 & L1 & W & P) L Hcase. exists (l1 ++ l). split; [by rewrite L, L1, app_assoc|]. split; [rewrite waits_app; lia|].
  destruct k as [|[|k]]; cbn [progress] in *.
  - destruct Hcase as [|[Hs ->]]; [lia|]. rewrite silent_app. naive_solver.
  - destruct Hcase as [|[Hs ->]]; [lia|]. destruct P as (l2 & l3 & e & -> & Hc & Hl3 & He & Hh). exists l2, (l3 ++ l), e.
    split; [by rewrite <- app_assoc|]. rewrite silent_app. done.
  - rewrite elem_of_app. by left.
Qed.

Lemma phase_open k w r : (k < 2)%nat → phase k w r → open f r.
Proof.
  intros Hk (l & L & _ & P). assert (open f (mk_reactor [] l0)) as Ho by exact (fd_kept _ _ _ _ HS). refine (open_grows _ _ _ l Ho L _).
  destruct k as [|[|k]]; [| |lia]; cbn [progress] in P.
  - destruct P as [Hs _]. apply (silent_not_elem _ _ _ Hs), Z.eqb_refl.
  - destruct P as (l1 & l2 & e & -> & Hc & Hs & _). rewrite not_elem_of_app, not_elem_of_cons. split_and!; [done|done|].
    apply (silent_not_elem _ _ _ Hs), Z.eqb_refl.
Qed.

(** A report of another event changes nothing for [f]. *)
Lemma phase_fine k w r r' i : phase k w r → fine i r r' → i ≠ f → phase k w r'.
Proof.
  intros HP (_ & [l L] & F) Hne. destruct (decide (2 ≤ k)%nat) as [Hk|Hk].
  - destruct (phase_grows k w r r' l HP L (or_introl Hk)) as (l' & ? & ? & ?). exists l'. split_and!; [done|lia|done].
  - destruct (F f Hf (not_eq_sym Hne)) as (l' & L' & T & S); [eapply phase_open; [|done]; lia|].
    destruct (phase_grows k w r r' l' HP L' (or_intror (conj S T))) as (l2 & ? & ? & ?). exists l2. split_and!; [done|lia|done].
Qed.

Lemma phase_registered k w r : phase k w r → registered (log r) f.
Proof. intros (l & -> & _). apply registered_app. by left. Qed.

Lemma phase_event k w r : inv r → phase k w r → ∃ e, table r !! Z.to_nat f = Some e ∧ good f e ∧ 0 ≤ f < MAX_EPOLL_EVENTS.
Proof. intros Hi HP. destruct (inv_good _ Hi f (phase_registered _ _ _ HP)) as (Hr & e & He & Hg). by exists e. Qed.

Lemma read_event w r fl : inv r → phase 0 w r → has fl EPOLLIN = true →
  on_ready K EPOLLIN r f fl = Ub ∧ overflows K r f ∨ ∃ r', on_ready K EPOLLIN r f fl = Ok r' ∧ inv r' ∧ phase 1 w r'.
Proof.
  intros Hi HP Hfl. destruct (phase_event 0 w r Hi HP) as (e & He & Hg & Hr). destruct HP as (l & L & W & Hs & e0 & He0 & Hev & Hcb & Hst).
  assert (e0 = e) as -> by congruence. unfold on_ready, run_callback. rewrite (ev_get_Ok _ _ _ Hf He), !ok_bind, Hfl, Hev. cbn [andb].
  change (has EPOLLIN EPOLLIN) with true. rewrite Hcb. rewrite (proj1 Hg).
  destruct (recv_run K r f e Hi Hr He Hg) as [[-> Hfull]|(r' & ret & l' & -> & Ht & Hi' & Hread)].
  { left. split; [done|]. exists e. rewrite (ev_get_Ok _ _ _ Hf He), Hcb. done. }
  right.
  destruct (Hread bs) as (l1 & e' & -> & Hc & He' & Hh); [|done|].
  { intros l2 Hl2. rewrite L, <- app_assoc. apply (data_there _ _ _ _ HS). rewrite not_elem_of_app. split; [|done]. apply (silent_not_elem _ _ _ Hs), Z.eqb_refl. }
  exists r'. split; [done|]. split; [done|]. exists (l ++ l1 ++ [CtlAdd f f EPOLLOUT]).
  split; [by rewrite (to_log _ _ _ _ Ht), L, <- app_assoc|]. split; [rewrite waits_app; lia|]. exists (l ++ l1), [], e'.
  rewrite <- app_assoc, not_elem_of_app. split; [done|]. split; [split; [apply (silent_not_elem _ _ _ Hs), Z.eqb_refl|done]|].
  split; [apply silent_nil|done].
Qed.

Lemma write_event w r fl : inv r → phase 1 w r → has fl EPOLLOUT = true → ∃ r', on_ready K EPOLLOUT r f fl = Ok r' ∧ inv r' ∧ phase 2 w r'.
Proof.
  intros Hi HP Hfl. destruct (phase_event 1 w r Hi HP) as (e & He & Hg & Hr). destruct HP as (l & L & W & l1 & l2 & e0 & _ & _ & _ & He0 & (Hev & Hcb & Hst) & Hlen & Htk).
  assert (e0 = e) as -> by congruence. unfold on_ready, run_callback. rewrite (ev_get_Ok _ _ _ Hf He), !ok_bind, Hfl, Hev. cbn [andb].
  change (has EPOLLOUT EPOLLOUT) with true. rewrite Hcb. rewrite (proj1 Hg).
  destruct (send_run K r f e Hi Hr He Hg) as (r' & ret & l' & -> & Ht & Hi' & Hsent). rewrite Hlen, Nat2Z.id, Htk in Hsent.
  exists r'. split; [done|]. split; [done|]. exists (l ++ l'). split; [by rewrite (to_log _ _ _ _ Ht), L, app_assoc|].
  split; [rewrite waits_app; lia|]. cbn [progress]. rewrite elem_of_app. by right.
Qed.

(** The bit that moves a request on. *)
Definition wanted (k : nat) : Z := match k with O => EPOLLIN | _ => EPOLLOUT end.

Lemma test_step bit k w r fl : inv r → phase k w r → bit = EPOLLIN ∨ bit = EPOLLOUT →
  on_ready K bit r f fl = Ub ∧ overflows K r f ∨
  ∃ r' k', on_ready K bit r f fl = Ok r' ∧ inv r' ∧ (k ≤ k')%nat ∧ phase k' w r' ∧ ((k < 2)%nat → bit = wanted k → has fl bit = true → (k < k')%nat).
Proof.
  intros Hi HP Hbit. destruct (decide (2 ≤ k)%nat) as [Hk|Hk].
  { destruct (on_ready_run bit r f fl Hi (phase_registered _ _ _ HP)) as [?|(r' & -> & Hi' & [l L] & _)]; [by left|]. right.
    destruct (phase_grows k w r r' l HP L (or_introl Hk)) as (l' & ? & ? & ?). exists r', k. split_and!; [done|done|lia| |lia]. exists l'. split_and!; [done|lia|done]. }
  destruct (decide (bit = wanted k ∧ has fl bit = true)) as [[-> Hfl]|Hno].
  { destruct k as [|[|k]]; [| |lia]; cbn [wanted] in *.
    - destruct (read_event w r fl Hi HP Hfl) as [?|(r' & -> & Hi' & HP')]; [by left|]. right. exists r', 1%nat. split_and!; [done|done|lia|done|lia].
    - destruct (write_event w r fl Hi HP Hfl) as (r' & -> & Hi' & HP'). right. exists r', 2%nat. split_and!; [done|done|lia|done|lia]. }
  right. exists r, k. destruct (phase_event k w r Hi HP) as (e & He & Hg & Hr). split; [|split_and!; [done|lia|done|naive_solver]].
  unfold on_ready. rewrite (ev_get_Ok _ _ _ Hf He), ok_bind. destruct (has fl bit) eqn:Efl; [cbn [andb]|done].
  assert (events e = wanted k) as ->.
  { destruct HP as (l & _ & _ & P). destruct k as [|[|k]]; [| |lia]; cbn [progress] in P.
    - destruct P as (_ & e0 & He0 & Hev & _). cbn. congruence.
    - destruct P as (_ & _ & e0 & _ & _ & _ & He0 & (Hev & _) & _). cbn. congruence. }
  assert (bit ≠ wanted k) as Hne by naive_solver. destruct k as [|[|k]]; [| |lia]; cbn [wanted] in *; by destruct Hbit as [->| ->].
Qed.

Lemma event_step k w r fl : inv r → phase k w r →
  (r ← on_ready K EPOLLIN r f fl; on_ready K EPOLLOUT r f fl) = Ub ∧ report_overflows K r f fl ∨
  ∃ r' k', (r ← on_ready K EPOLLIN r f fl; on_ready K EPOLLOUT r f fl) = Ok r' ∧ inv r' ∧ (k ≤ k')%nat ∧ phase k' w r' ∧
    ((k < 2)%nat → has fl (wanted k) = true → (k < k')%nat).
Proof.
  intros Hi HP. destruct (test_step EPOLLIN k w r fl Hi HP (or_introl eq_refl)) as [[E Ho]|(r1 & k1 & E & Hi1 & Hk1 & HP1 & Hadv1)]; [left; rewrite E; split; [done|by left]|]. rewrite E, ok_bind.
  destruct (test_step EPOLLOUT k1 w r1 fl Hi1 HP1 (or_intror eq_refl)) as [[-> Ho]|(r2 & k2 & -> & Hi2 & Hk2 & HP2 & Hadv2)]; [left; split; [done|right; by exists r1]|]. right.
  exists r2, k2. split_and!; [done|done|lia|done|]. intros Hk Hfl. destruct (decide (k < k1)%nat); [lia|]. assert (k1 = k) as -> by lia.
  destruct k as [|[|k]]; [specialize (Hadv1 Hk eq_refl Hfl); lia|specialize (Hadv2 Hk eq_refl Hfl); lia|lia].
Qed.

Lemma dispatch_step ready : ∀ k w r, inv r → phase k w r → (∀ i fl, (i, fl) ∈ ready → registered (log r) i) →
  dispatch K r ready = Ub ∧ dispatch_overflows K r ready ∨
  ∃ r' k', dispatch K r ready = Ok r' ∧ inv r' ∧ (k ≤ k')%nat ∧ phase k' w r' ∧
    ((k < 2)%nat → ∀ fl, (f, fl) ∈ ready → has fl (wanted k) = true → (k < k')%nat).
Proof.
  induction ready as [|[i fl] ready IH]; intros k w r Hi HP Hrdy.
  { right. exists r, k. split_and!; [done|done|lia|done|]. intros _ fl Hin. by apply not_elem_of_nil in Hin. }
  assert (registered (log r) i) as Hregi by (by eapply Hrdy, list_elem_of_here).
  destruct (event_run r i fl Hi Hregi) as [[E1 Ho]|(r1 & E1 & Hfine)]; [left; rewrite dispatch_cons, E1; split; [done|by apply dispatch_overflows_here]|]. pose proof Hfine as (Hi1 & [l1 L1] & _).
  assert (∃ k1, (k ≤ k1)%nat ∧ phase k1 w r1 ∧ (i = f → (k < 2)%nat → has fl (wanted k) = true → (k < k1)%nat)) as (k1 & Hk1 & HP1 & Hadv1).
  { destruct (decide (i = f)) as [->|Hne].
    - destruct (event_step k w r fl Hi HP) as [[E2 _]|(r2 & k2 & E2 & _ & Hk2 & HP2 & Hadv)]; [congruence|]. assert (r2 = r1) as -> by congruence. exists k2. naive_solver.
    - exists k. split; [lia|]. split; [by eapply phase_fine|done]. }
  destruct (IH k1 w r1 Hi1 HP1) as [[E2 Ho]|(r2 & k2 & E2 & Hi2 & Hk2 & HP2 & Hadv2)].
  { intros j fl' Hj. eapply registered_grows; [by eapply Hrdy, list_elem_of_further|done]. }
  { left. rewrite dispatch_cons, E1, ok_bind, E2. split; [done|]. by eapply dispatch_overflows_later. }
  right. exists r2, k2. rewrite dispatch_cons, E1, ok_bind. split_and!; [done|done|lia|done|]. intros Hk fl' Hin Hfl'.
  apply elem_of_cons in Hin as [[= <- <-]|Hin]; [specialize (Hadv1 eq_refl Hk Hfl'); lia|]. destruct (decide (k < k1)%nat); [lia|].
  assert (k1 = k) as -> by lia. specialize (Hadv2 Hk fl' Hin Hfl'). lia.
Qed.

(** The loop ended because [epoll_wait] failed with something else than [EAGAIN]. *)
Definition wait_failed (r' : reactor) : Prop :=
  ∃ l errno, log r' = l ++ [Wait 1000] ∧ k_wait K l = inr errno ∧ errno ≠ EAGAIN.

(** One iteration: it goes on, and from the [N]-th wait on the request moves, unless the wait
    fails or a callback leaves its bounds. *)
Lemma loop_step k w r : inv r → phase k w r →
  loop_round K r = Ub ∧ round_overflows K r ∨ (∃ r', loop_round K r = Ok (r', false) ∧ wait_failed r') ∨
  ∃ r' k', loop_round K r = Ok (r', true) ∧ inv r' ∧ (k ≤ k')%nat ∧ phase k' (S w) r' ∧ ((k < 2)%nat → (N ≤ w)%nat → (k < k')%nat).
Proof.
  intros Hi HP. destruct (phase_event k w r Hi HP) as (e & He & Hg & Hr). set (r1 := call (Wait 1000) r).
  assert (inv r1) as Hi1 by (by apply (inv_call r (Wait 1000) f e)).
  assert (phase k (S w) r1) as HP1.
  { destruct (phase_grows k w r r1 [Wait 1000] HP eq_refl) as (l & ? & Hw & ?); [right; split; [by repeat constructor|done]|].
    exists l. split_and!; [done| |done]. change (waits [Wait 1000]) with 1%nat in Hw. lia. }
  assert ((k < 2)%nat → (N ≤ w)%nat → reports f (wanted k) (log r)) as Hready.
  { intros Hk HN. destruct HP as (l & -> & Hw & P). destruct k as [|[|k]]; [| |lia]; cbn [progress] in P.
    - apply (read_ready _ _ _ _ HS); [apply P|lia].
    - destruct P as (l1 & l2 & e1 & -> & Hc & Hs & _). apply (write_ready _ _ _ _ HS); [done|done|lia]. }
  unfold reports in Hready. unfold loop_round. fold r1. destruct (k_wait K (log r)) as [ready|errno] eqn:Ew.
  2: { destruct (Z.eqb_spec errno EAGAIN) as [He'|He'].
       - right. right. exists r1, k. split_and!; [done|done|lia|done|]. intros Hk HN. by destruct (Hready Hk HN).
       - right. left. exists r1. split; [done|]. by exists (log r), errno. }
  destruct (dispatch_step ready k (S w) r1 Hi1 HP1) as [[E2 Ho]|(r2 & k2 & E2 & Hi2 & Hk2 & HP2 & Hadv)].
  { intros i fl Hin. eapply registered_grows; [by eapply (sound_wait _ HK)|done]. }
  { left. split; [|by exists ready]. destruct ready as [|x ready]; [done|by rewrite E2]. }
  right. right. exists r2, k2. split; [|split_and!; [done|done|done|]].
  - destruct ready as [|x ready]; [by injection E2 as ->|by rewrite E2].
  - intros Hk HN. destruct (Hready Hk HN) as (fl & Hin & Hfl). by apply (Hadv Hk fl).
Qed.

Lemma run_steps n : ∀ k w r, inv r → phase k w r → ((N - w) + (2 - k) ≤ n)%nat →
  ntyreactor_run K n r = Ub ∧ run_overflows K n r ∨ (∃ r', ntyreactor_run K n r = Ok (r', false) ∧ wait_failed r') ∨
  ∃ r', ntyreactor_run K n r = Ok (r', true) ∧ phase 2 0 r'.
Proof.
  induction n as [|n IH]; intros k w r Hi HP Hn; cbn [ntyreactor_run].
  - right. right. exists r. split; [done|]. destruct HP as (l & ? & _ & P). exists l. split_and!; [done|lia|]. destruct k as [|[|k]]; [lia|lia|done].
  - destruct (loop_step k w r Hi HP) as [[E Ho]|[(r1 & E & Hf1)|(r1 & k1 & E & Hi1 & Hk1 & HP1 & Hadv)]]; rewrite E.
    + left. split; [done|]. by apply run_overflows_here.
    + right. left. by exists r1.
    + rewrite ok_bind. destruct (IH k1 (S w) r1 Hi1 HP1) as [[? Ho]|?]; [lia| |by right]. left. split; [done|]. by eapply run_overflows_later.
Qed.
End echo.

(** Whatever the kernel does within its laws, an iteration is defined or leaves its bounds. *)
Lemma loop_round_fine r : inv r → loop_round K r = Ub ∧ round_overflows K r ∨ ∃ r' go, loop_round K r = Ok (r', go) ∧ inv r'.
Proof.
  intros Hi. unfold loop_round. set (r1 := call (Wait 1000) r).
  assert (inv r1) as Hi1.
  { destruct Hi as [Hl Hb Hg]. split; [done|done|]. intros i Hr. apply Hg. apply registered_app in Hr as [Hr|(g & evs & [Hr|Hr])]; [done|set_solver..]. }
  destruct (k_wait K (log r)) as [[|x ready]|errno] eqn:Ew; [by eauto| |by eauto].
  destruct (dispatch_run (x :: ready) r1 Hi1) as [[-> Ho]|(r2 & -> & Hi2)]; [|left; split; [done|by exists (x :: ready)]|by eauto].
  intros i fl Hin. eapply registered_grows; [by eapply (sound_wait _ HK)|done].
Qed.

Lemma run_fine n : ∀ r, inv r → ntyreactor_run K n r = Ub ∧ run_overflows K n r ∨ ∃ r' go, ntyreactor_run K n r = Ok (r', go) ∧ inv r'.
Proof.
  induction n as [|n IH]; intros r Hi; cbn [ntyreactor_run]; [by eauto|].
  destruct (loop_round_fine r Hi) as [[-> Ho]|(r1 & [] & E & Hi1)]; [left; split; [done|by apply run_overflows_here]| |rewrite E, ok_bind; by eauto].
  rewrite E, ok_bind. destruct (IH r1 Hi1) as [[-> Ho]|?]; [|by right]. left. split; [done|]. by eapply run_overflows_later.
Qed.
End loop.

(** ** The properties *)

(** C17. A request is echoed: when a connection [f] is registered for reading and the kernel has
    the bytes [bs] for it (and, from the [N]-th [epoll_wait] on, reports a descriptor once what
    it is registered for is possible), then after [N + 2] iterations of the loop, whatever other
    connections do in between, [bs] has been passed to [send] on [f], and the server goes on;
    unless one of two things happens, which the code does not provide for.  An [epoll_wait]
    fails with something else than [EAGAIN], a signal for instance, and the loop is left.  Or
    the behaviour is undefined, and then the run has come to a callback where the descriptor
    of a new connection lies beyond the table, or a read fills the buffer. *)
Theorem echo_eventually K f bs N r e n : kernel_ok K → inv r → registered (log r) f →
  table r !! Z.to_nat f = Some e → registered_for EPOLLIN recv_callback_ptr e → serves K f bs N (log r) → bs ≠ [] → (N + 2 ≤ n)%nat →
  (∃ r' l, ntyreactor_run K n r = Ok (r', true) ∧ log r' = log r ++ l ∧ Send f bs ∈ l) ∨
  (∃ r', ntyreactor_run K n r = Ok (r', false) ∧ wait_failed K r') ∨
  ntyreactor_run K n r = Ub ∧ run_overflows K n r.
Proof.
  intros HK Hi Hreg He Hfor HS Hbs Hn. destruct (inv_good _ Hi f Hreg) as (Hr & _).
  destruct (run_steps K HK f bs N (log r) HS (proj1 Hr) Hbs Hreg n 0 0 r Hi) as [?|[?|(r' & E & l & L & _ & P)]]; [|lia|by right; right|by right; left|left; by eauto].
  exists []. rewrite app_nil_r. split; [done|]. split; [lia|]. split; [apply silent_nil|by exists e].
Qed.

(** C28. The server leaves its table or a buffer only where its code does not look: on a table of
    [MAX_EPOLL_EVENTS] events left as [malloc] gives it, with a kernel that reports what was
    registered, any number of iterations is defined and leaves the table well-formed, or the
    behaviour is undefined for one of three reasons: the listening socket lies beyond the table;
    or in one of these iterations a callback is run for a new connection whose descriptor lies
    beyond it; or for a read that fills the buffer. *)
Theorem server_stays_in_bounds K n fresh sock_fd : kernel_ok K → length fresh = Z.to_nat MAX_EPOLL_EVENTS →
  Forall (λ e, length (buffer e) = Z.to_nat MAX_BUFFER_SIZE) fresh →
  (∃ r go, main K n fresh sock_fd = Ok (r, go) ∧ inv r) ∨
  main K n fresh sock_fd = Ub ∧
    (MAX_EPOLL_EVENTS ≤ sock_fd ∨
     ∃ r ret, ntyreactor_addlistener K (mk_reactor fresh []) sock_fd = Ok (r, ret) ∧ run_overflows K n r).
Proof.
  intros HK Hl Hb. assert (inv (mk_reactor fresh [])) as Hi.
  { split; [done|by apply Forall_lookup|]. intros i (g & evs & [?%elem_of_nil|?%elem_of_nil]); done. }
  assert (∀ r ret, ntyreactor_addlistener K (mk_reactor fresh []) sock_fd = Ok (r, ret) → inv r →
    (∃ r go, main K n fresh sock_fd = Ok (r, go) ∧ inv r) ∨ main K n fresh sock_fd = Ub ∧ run_overflows K n r) as Hmain.
  { intros r ret E Hr. unfold main. rewrite E, ok_bind. destruct (run_fine K HK n r Hr) as [?|?]; [by right|by left]. }
  destruct (Z.lt_ge_cases sock_fd 0) as [Hneg|Hpos].
  { assert (ntyreactor_addlistener K (mk_reactor fresh []) sock_fd = Ok (mk_reactor fresh [], -1)) as E by (unfold ntyreactor_addlistener; by destruct (Z.ltb_spec sock_fd 0); [|lia]).
    destruct (Hmain _ _ E Hi) as [?|[? ?]]; [by left|]. right. split; [done|]. right. by exists (mk_reactor fresh []), (-1). }
  destruct (Z.le_gt_cases MAX_EPOLL_EVENTS sock_fd) as [Hlarge|Hsmall].
  { right. split; [|by left]. unfold main, ntyreactor_addlistener. destruct (Z.ltb_spec sock_fd 0); [lia|]. by rewrite set_beyond. }
  destruct (inv_lookup _ sock_fd Hi (conj Hpos Hsmall)) as (e & He & _).
  destruct (set_add_run K (mk_reactor fresh []) sock_fd e sock_fd EPOLLIN 0 accept_callback_ptr) as (r' & l & e' & ret & E & _ & Hi' & _); try done.
  assert (ntyreactor_addlistener K (mk_reactor fresh []) sock_fd = Ok (r', 0)) as E'.
  { unfold ntyreactor_addlistener. destruct (Z.ltb_spec sock_fd 0); [lia|]. destruct (nty_event_set K _ sock_fd sock_fd _ _ _ _) as [[r3 z]| |]; try discriminate E. rewrite ok_bind in E |- *. by rewrite E. }
  destruct (Hmain _ _ E' Hi') as [?|[? ?]]; [by left|]. right. split; [done|]. right. by exists r', 0.
Qed.

(** With no free event from 5 on (which an uninitialised table can be from the start), an
    accepted connection is dropped on the floor: it is neither registered nor closed. *)
Theorem accept_without_slot_leaks K r i e c : 0 ≤ i → table r !! Z.to_nat i = Some e → length (table r) = Z.to_nat MAX_EPOLL_EVENTS →
  (∀ k e', (5 ≤ k)%nat → table r !! k = Some e' → status e' ≠ 0) → k_accept K (log r) = Some c →
  accept_callback K r i = Ok (call (Accept (fd e)) r, -1).
Proof.
  intros Hi He Hl Hfull Hacc. unfold accept_callback. rewrite (ev_get_Ok _ _ _ Hi He), ok_bind, Hacc.
  assert (∀ n k, 5 ≤ k → k + Z.of_nat n = MAX_EPOLL_EVENTS → free_slot n (call (Accept (fd e)) r) k = Ok MAX_EPOLL_EVENTS) as Hnone.
  { induction n as [|n IH]; intros k Hk Hn; cbn [free_slot]; [f_equal; lia|].
    destruct (lookup_lt_is_Some_2 (table r) (Z.to_nat k)) as [x Hx]; [rewrite Hl; lia|]. rewrite (ev_get_Ok (call _ r) k x), ok_bind by (done || lia).
    rewrite (proj2 (Z.eqb_neq _ _)) by (eapply Hfull; [|done]; lia). apply IH; lia. }
  by rewrite Hnone, ok_bind.
Qed.

(** ** Witnesses *)
#[export] Instance syscall_eq_dec : EqDecision syscall.
Proof. solve_decision. Defined.

(** A client on descriptor 7 that has sent [bs], on a machine that notices at the second wait. *)
Definition demo_kernel (bs : list Z) : kernel := {|
  k_ctl := λ _, true;
  k_wait := λ l, inl (if bool_decide (CtlAdd 7 7 EPOLLIN ∈ l ∧ (2 ≤ waits l)%nat) then [(7, 5)] else []);
  k_accept := λ _, None;
  k_fcntl := λ _, true;
  k_recv := λ l g, if bool_decide (Recv 7 ∈ l) then None else Some bs;
  k_send := λ _ _ bs, Z.of_nat (length bs);
  k_time := λ l, Z.of_nat (length l)
|}.

Definition demo_event (f s : Z) : ntyevent := mk_event f EPOLLIN recv_callback_ptr s (replicate (Z.to_nat MAX_BUFFER_SIZE) 0) 0 0.
Definition demo_table (f s : Z) : list ntyevent := replicate (Z.to_nat MAX_EPOLL_EVENTS) (demo_event f s).

Lemma demo_kernel_ok bs : kernel_ok (demo_kernel bs).
Proof.
  split; cbn.
  - done.
  - intros l ready i fl [= <-] Hin. case_bool_decide as H; [|by apply not_elem_of_nil in Hin]. apply list_elem_of_singleton in Hin as [= -> ->].
    exists 7, EPOLLIN. left. apply H.
Qed.

Lemma demo_table_lookup f s i : 0 ≤ i < MAX_EPOLL_EVENTS → demo_table f s !! Z.to_nat i = Some (demo_event f s).
Proof. intros Hi. unfold demo_table. apply lookup_replicate_2. lia. Qed.

Lemma demo_table_length f s : length (demo_table f s) = Z.to_nat MAX_EPOLL_EVENTS.
Proof. apply length_replicate. Qed.

Lemma demo_buffers f s : Forall (λ e, length (buffer e) = Z.to_nat MAX_BUFFER_SIZE) (demo_table f s).
Proof. apply Forall_replicate, length_replicate. Qed.

Lemma demo_inv : inv (mk_reactor (demo_table 7 1) [CtlAdd 7 7 EPOLLIN]).
Proof.
  split; [apply demo_table_length| |].
  - intros i e He. apply lookup_replicate in He as [-> _]. apply length_replicate.
  - intros i (g & evs & [H|H]); apply list_elem_of_singleton in H; [|done]. injection H as -> -> ->. split; [done|]. exists (demo_event 7 1).
    split; [by apply demo_table_lookup|]. by split.
Qed.

Lemma demo_serves bs : serves (demo_kernel bs) 7 bs 2 [CtlAdd 7 7 EPOLLIN].
Proof.
  split; cbn -[waits].
  - intros l Hl. rewrite bool_decide_eq_false_2; [done|]. rewrite not_elem_of_cons. by split.
  - intros l _ Hw. unfold reports. cbn -[waits]. rewrite bool_decide_eq_true_2; [exists 5; split; [by apply list_elem_of_here|done]|].
    split; [by apply list_elem_of_here|]. exact Hw.
  - intros l1 l2 _ _ Hw. unfold reports. cbn -[waits]. rewrite bool_decide_eq_true_2; [exists 5; split; [by apply list_elem_of_here|done]|].
    split; [by apply list_elem_of_here|]. exact Hw.
  - done.
Qed.

(** Whether a run is defined, and then whether it goes on. *)
Definition ended (x : result (reactor * bool)) : option bool := match x with Ok (_, go) => Some go | _ => None end.

(** Two bytes are echoed; what fills the buffer is not. *)
Lemma echo_eventually_witness :
  (∃ r' l, ntyreactor_run (demo_kernel [104; 105]) 4 (mk_reactor (demo_table 7 1) [CtlAdd 7 7 EPOLLIN]) = Ok (r', true) ∧
    log r' = [CtlAdd 7 7 EPOLLIN] ++ l ∧ Send 7 [104; 105] ∈ l) ∧
  run_overflows (demo_kernel (replicate 4096 65)) 4 (mk_reactor (demo_table 7 1) [CtlAdd 7 7 EPOLLIN]).
Proof.
  assert (∀ bs, bs ≠ [] → let r := mk_reactor (demo_table 7 1) [CtlAdd 7 7 EPOLLIN] in
    (∃ r' l, ntyreactor_run (demo_kernel bs) 4 r = Ok (r', true) ∧ log r' = log r ++ l ∧ Send 7 bs ∈ l) ∨
    (∃ r', ntyreactor_run (demo_kernel bs) 4 r = Ok (r', false) ∧ wait_failed (demo_kernel bs) r') ∨
    ntyreactor_run (demo_kernel bs) 4 r = Ub ∧ run_overflows (demo_kernel bs) 4 r) as H.
  { intros bs Hbs r. apply (echo_eventually (demo_kernel bs) 7 bs 2 r (demo_event 7 1) 4);
      [apply demo_kernel_ok|apply demo_inv|exists 7, EPOLLIN; left; by apply list_elem_of_here|by apply demo_table_lookup|by split_and!|apply demo_serves|exact Hbs|apply le_n]. }
  split.
  - assert (ended (ntyreactor_run (demo_kernel [104; 105]) 4 (mk_reactor (demo_table 7 1) [CtlAdd 7 7 EPOLLIN])) = Some true) as Ht by (vm_compute; reflexivity).
    destruct (H [104; 105] ltac:(done)) as [?|[(r' & E & _)|[E _]]]; [done|rewrite E in Ht; discriminate Ht|rewrite E in Ht; discriminate Ht].
  - assert (ended (ntyreactor_run (demo_kernel (replicate 4096 65)) 4 (mk_reactor (demo_table 7 1) [CtlAdd 7 7 EPOLLIN])) = None) as Ht by (vm_compute; reflexivity).
    destruct (H (replicate 4096 65) ltac:(done)) as [(r' & l & E & _)|[(r' & E & _)|[_ ?]]]; [rewrite E in Ht; discriminate Ht|rewrite E in Ht; discriminate Ht|done].
Defined.

Lemma server_stays_in_bounds_witness :
  (∃ r go, main (demo_kernel [104; 105]) 100 (demo_table (-1) 5) 3 = Ok (r, go) ∧ inv r) ∧ ∃ fd, main (demo_kernel []) 1 (demo_table (-1) 5) fd = Ub ∧ MAX_EPOLL_EVENTS ≤ fd.
Proof.
  pose proof (λ bs n sock_fd, server_stays_in_bounds (demo_kernel bs) n (demo_table (-1) 5) sock_fd (demo_kernel_ok bs) (demo_table_length (-1) 5) (demo_buffers (-1) 5)) as H.
  split.
  - assert (ended (main (demo_kernel [104; 105]) 100 (demo_table (-1) 5) 3) = Some true) as Ht by (vm_compute; reflexivity).
    destruct (H [104; 105] 100%nat 3) as [?|[E _]]; [done|rewrite E in Ht; discriminate Ht].
  - exists 2000. assert (ended (main (demo_kernel []) 1 (demo_table (-1) 5) 2000) = None) as Ht by (vm_compute; reflexivity).
    destruct (H [] 1%nat 2000) as [(r & go & E & _)|[E _]]; [rewrite E in Ht; discriminate Ht|split; [exact E|done]].
Defined.

(** A machine on which a client has come in as descriptor 9. *)
Definition demo_accepting : kernel := {| k_ctl := λ _, true; k_wait := λ _, inl []; k_accept := λ _, Some 9; k_fcntl := λ _, true;
  k_recv := λ _ _, None; k_send := λ _ _ _, 0; k_time := λ _, 0 |}.

Lemma accept_without_slot_leaks_witness : accept_callback demo_accepting (mk_reactor (demo_table 3 1) []) 3 =
  Ok (call (Accept 3) (mk_reactor (demo_table 3 1) []), -1).
Proof.
  apply (accept_without_slot_leaks demo_accepting (mk_reactor (demo_table 3 1) []) 3 (demo_event 3 1) 9).
  - done.
  - by apply demo_table_lookup.
  - apply demo_table_length.
  - intros k e' _ He. apply lookup_replicate in He as [-> _]. done.
  - reflexivity.
Defined.
