(* ===== verification/CJsonShape.v ===== *)
(** * CJsonShape: what the parser of cJSON.c builds

    The type of parsed items: each kind with the fields the parser gives it, strings without
    NUL, names exactly in objects, and a nesting within the limit. *)

From Stdlib Require Import Floats.SpecFloat.
From S2P Require Import Prelude CDouble CDoubleRound CJson CJsonSafe CJsonRender CJsonRoundtrip.
#[local] Open Scope Z_scope.

Section shape.
Context `{CJsonH}.

(** A value of the type, with at most [d] levels of arrays and objects. *)
Inductive typed : nat → cJSON → Prop :=
  | typed_null d k : typed d (Item cJSON_NULL None 0 (S754_zero false) k [])
  | typed_false d k : typed d (Item cJSON_False None 0 (S754_zero false) k [])
  | typed_true d k : typed d (Item cJSON_True None 1 (S754_zero false) k [])
  | typed_number d k x : valid_binary PREC EMAX x = true → typed d (Item cJSON_Number None (sat_int x) x k [])
  | typed_string d k s : cstring s → typed d (Item cJSON_String (Some s) 0 (S754_zero false) k [])
  | typed_array d k l : Forall (typed d) l → Forall (λ x, string_ x = None) l →
      typed (S d) (Item cJSON_Array None 0 (S754_zero false) k l)
  | typed_object d k l : Forall (typed d) l → Forall (λ x, ∃ s, string_ x = Some s ∧ cstring s) l →
      typed (S d) (Item cJSON_Object None 0 (S754_zero false) k l).

Context (alloc : nat → Z → bool) (junk : Z) (Hjunk : is_byte junk).

(** What the parser never changes. *)
Definition same b b' : Prop := content b' = content b ∧ depth b' = depth b.

Lemma same_text_trans b1 b2 b3 : same b1 b2 → same b2 b3 → same b1 b3.
Proof. intros [? ?] [? ?]. split; congruence. Qed.

(** ** Strings *)
Lemma store_bytes o i c o' : blk_store o i c = Ok o' → Forall is_byte o → is_byte c → Forall is_byte o'.
Proof. unfold blk_store. case_bool_decide; [|done]. intros [= <-] Ho Hc. by apply Forall_insert. Qed.

Lemma write_bytes o i bs o' : memwrite o i bs = Ok o' → Forall is_byte o → Forall is_byte bs → Forall is_byte o'.
Proof.
  unfold memwrite. case_bool_decide; [|done]. intros [= <-] Ho Hbs. rewrite !Forall_app. split_and!; [by apply Forall_take|done|by apply Forall_drop].
Qed.

Lemma load_byte t i c : blk_load t i = Ok c → Forall is_byte t → is_byte c.
Proof. unfold blk_load. case_bool_decide; [|done]. intros E%of_opt_Ok Ht. rewrite Forall_lookup in Ht. by eapply Ht. Qed.

Lemma u8_byte z : is_byte (u8 z).
Proof. apply Z.mod_pos_bound. lia. Qed.

Lemma utf8_tail_bytes n : ∀ cp acc, Forall is_byte acc → Forall is_byte (utf8_tail n cp acc).2.
Proof. induction n as [|n IH]; intros cp acc Ha; [done|]. apply IH. constructor; [apply u8_byte|done]. Qed.

Lemma utf8_encode_bytes cp n mark : Forall is_byte (utf8_encode cp n mark).
Proof.
  unfold utf8_encode. pose proof (utf8_tail_bytes (n - 1) cp [] ltac:(constructor)) as Ht. destruct (utf8_tail _ _ _) as [cp' tl].
  constructor; [case_match; apply u8_byte|exact Ht].
Qed.

Lemma utf16_bytes t p e n bs : utf16_literal_to_utf8 t p e = Ok (n, bs) → Forall is_byte bs.
Proof.
  unfold utf16_literal_to_utf8. case_match; [by intros [= _ <-]|]. intros (code & _ & E)%bind_Ok. revert E. case_match; [by intros [= _ <-]|].
  intros ([sl cp] & _ & E)%bind_Ok. revert E. case_match; [by intros [= _ <-]|]. repeat case_match; intros [= _ <-]; try apply utf8_encode_bytes; done.
Qed.

Lemma simple_escape_byte c x : simple_escape c = Some x → is_byte c → is_byte x.
Proof. unfold simple_escape, is_byte. repeat case_match; naive_solver lia. Qed.

Lemma unescape_bytes fuel t : Forall is_byte t → ∀ p e o op o' op', unescape fuel t p e o op = Ok (inl (o', op')) → Forall is_byte o → Forall is_byte o'.
Proof.
  intros Ht. induction fuel as [|fuel IH]; intros p e o op o' op'; [done|]. cbn [unescape]. destruct (p <? e); cbn [negb]; [|by intros [= <- _]].
  intros (c & Ec & E)%bind_Ok Ho. destruct (c =? 92); cbn [negb] in E.
  - revert E. case_match; [done|]. intros (c1 & Ec1 & E)%bind_Ok. destruct (c1 =? 117).
    + apply bind_Ok in E as ([n bs] & E1 & E). revert E. case_match; [done|]. intros (o1 & Ew & E)%bind_Ok.
      eapply IH; [exact E|]. eapply write_bytes; [exact Ew|done|by eapply utf16_bytes].
    + destruct (simple_escape c1) as [x|] eqn:Ex; [|done]. apply bind_Ok in E as (o1 & Ew & E).
      eapply IH; [exact E|]. eapply store_bytes; [exact Ew|done|]. eapply simple_escape_byte; [done|by eapply load_byte].
  - apply bind_Ok in E as (o1 & Ew & E). eapply IH; [exact E|]. eapply store_bytes; [exact Ew|done|by eapply load_byte].
Qed.

Lemma c_str_cstring o : Forall is_byte o → cstring (c_str o).
Proof.
  induction 1 as [|c o Hc Ho IH]; [constructor|]. cbn [c_str]. destruct (Z.eqb_spec c 0); [constructor|]. constructor; [unfold is_byte in *; lia|exact IH].
Qed.

Lemma parse_string_typed b r b' : parse_string alloc junk b = Ok (r, b') → Forall is_byte (content b) →
  same b b' ∧ ∀ s, r = Some s → cstring s.
Proof using Hjunk.
  unfold parse_string, allocate. intros (c & _ & E)%bind_Ok Ht. destruct (c =? 34); cbn [negb] in E; [|by injection E as <- <-].
  apply bind_Ok in E as ([[e k]|] & _ & E); [|by injection E as <- <-].
  destruct (alloc _ _); cbn [negb] in E; [|by injection E as <- <-]. apply bind_Ok in E as ([[o op]|p] & Eu & E); [|by injection E as <- <-].
  apply bind_Ok in E as (o1 & Es & E). injection E as <- <-. split; [done|]. intros s [= <-]. apply c_str_cstring.
  eapply store_bytes; [exact Es| |unfold is_byte; lia]. eapply unescape_bytes; [exact Ht|exact Eu|]. by apply Forall_replicate.
Qed.

(** ** Numbers, blanks *)
Lemma parse_number_typed item b v b' : parse_number item b = Ok (Some v, b') → same b b' ∧
  ∃ x, v = Item cJSON_Number (valuestring item) (sat_int x) x (string_ item) (child item) ∧ valid_binary PREC EMAX x = true.
Proof.
  unfold parse_number. intros (t & _ & E)%bind_Ok. pose proof (strtod_valid t) as Hx. destruct (strtod t) as [x n]. revert E. case_match; [done|].
  intros [= <- <-]. split; [done|]. by exists x.
Qed.

Lemma skip_loop_same fuel : ∀ b b', skip_loop fuel b = Ok b' → same b b'.
Proof.
  induction fuel as [|fuel IH]; intros b b'; [done|]. cbn [skip_loop]. case_match; [|by intros [= <-]]. intros (c & _ & E)%bind_Ok. revert E.
  case_match; [|by intros [= <-]]. intros E. exact (IH _ _ E).
Qed.

Lemma skip_ws_same b b' : buffer_skip_whitespace b = Ok b' → same b b'.
Proof.
  unfold buffer_skip_whitespace. case_match; [by intros [= <-]|]. intros (b1 & Hs%skip_loop_same & [= <-])%bind_Ok. by case_match.
Qed.

(** ** Values *)
Definition levels (b : parse_buffer) : nat := Z.to_nat (CJSON_NESTING_LIMIT - depth b).

(** The item a value is parsed into: fresh, or with the name of a member. *)
Definition empty_item (i : cJSON) : Prop := valuestring i = None ∧ valueint i = 0 ∧ valuedouble i = S754_zero false ∧ child i = [].

Definition pv_typed (pv : parser) : Prop := ∀ item b v b', empty_item item → Forall is_byte (content b) → pv item b = Ok (Some v, b') →
  same b b' ∧ typed (levels b) v ∧ string_ v = string_ item.

(** The elements read so far are of the type, and named as [P] says. *)
Definition elements (n : nat) (P : option (list Z) → Prop) (l : list cJSON) : Prop := Forall (typed n) l ∧ Forall (λ x, P (string_ x)) l.

Lemma elements_snoc n P l x : elements n P l → typed n x → P (string_ x) → elements n P (l ++ [x]).
Proof. intros [Ht Hp] Hx Hn. split; apply Forall_app; (split; [done|by constructor]). Qed.

Lemma array_loop_typed pv n : pv_typed pv → ∀ acc b l b', array_loop alloc n pv acc b = Ok (Some l, b') → Forall is_byte (content b) →
  elements (levels b) (λ k, k = None) acc → same b b' ∧ elements (levels b) (λ k, k = None) l.
Proof.
  intros Hpv. induction n as [|n IH]; intros acc b l b'; [done|]. cbn [array_loop]. unfold allocate. destruct (alloc _ _); cbn [negb]; [|done].
  intros (b1 & S1%skip_ws_same & E)%bind_Ok Ht Hacc. apply bind_Ok in E as ([[v|] b2] & Ev & E); [|done].
  change (same b b1) in S1. destruct S1 as [C1 D1].
  destruct (Hpv zero_item b1 v b2) as ([C2 D2] & Hv & Hk); [done|by rewrite C1|done|].
  assert (levels b1 = levels b) as HL by (unfold levels; by rewrite D1). rewrite HL in Hv.
  apply bind_Ok in E as (b3 & [C3 D3]%skip_ws_same & E). apply bind_Ok in E as (comma & _ & E).
  assert (elements (levels b) (λ k, k = None) (acc ++ [v])) as Hacc' by (by apply elements_snoc). assert (same b b3) as [C D] by (split; congruence).
  destruct comma.
  - apply IH in E as [Sb El]; [|by rewrite C|unfold levels; by rewrite D]. unfold levels in El. rewrite D in El. split; [by eapply same_text_trans|done].
  - apply bind_Ok in E as ([] & _ & E); [|done]. injection E as <- <-. done.
Qed.

Lemma object_loop_typed pv n : pv_typed pv → ∀ acc b l b', object_loop alloc junk n pv acc b = Ok (Some l, b') → Forall is_byte (content b) →
  elements (levels b) (λ k, ∃ s, k = Some s ∧ cstring s) acc → same b b' ∧ elements (levels b) (λ k, ∃ s, k = Some s ∧ cstring s) l.
Proof using Hjunk.
  intros Hpv. induction n as [|n IH]; intros acc b l b'; [done|]. cbn [object_loop]. unfold allocate. destruct (alloc _ _); cbn [negb]; [|done].
  intros (b1 & S1%skip_ws_same & E)%bind_Ok Ht Hacc. change (same b b1) in S1. destruct S1 as [C1 D1].
  apply bind_Ok in E as ([[name|] b2] & Es & E); [|done].
  apply parse_string_typed in Es as [[C2 D2] Hname]; [|by rewrite C1]. specialize (Hname _ eq_refl).
  apply bind_Ok in E as (b3 & [C3 D3]%skip_ws_same & E). apply bind_Ok in E as ([] & _ & E); cbn [negb] in E; [|done].
  apply bind_Ok in E as (b4 & S4%skip_ws_same & E). change (same b3 b4) in S4. destruct S4 as [C4 D4].
  apply bind_Ok in E as ([[v|] b5] & Ev & E); [|done].
  destruct (Hpv (Item cJSON_String None 0 (S754_zero false) (Some name) []) b4 v b5) as ([C5 D5] & Hv & Hk); [done|by rewrite C4, C3, C2, C1|done|].
  assert (levels b4 = levels b) as HL by (unfold levels; by rewrite D4, D3, D2, D1). rewrite HL in Hv.
  apply bind_Ok in E as (b6 & [C6 D6]%skip_ws_same & E). apply bind_Ok in E as (comma & _ & E).
  assert (elements (levels b) (λ k, ∃ s, k = Some s ∧ cstring s) (acc ++ [v])) as Hacc' by (apply elements_snoc; [done|done|rewrite Hk; by exists name]).
  assert (same b b6) as [C D] by (split; congruence). destruct comma.
  - apply IH in E as [Sb El]; [|by rewrite C|unfold levels; by rewrite D]. unfold levels in El. rewrite D in El. split; [by eapply same_text_trans|done].
  - apply bind_Ok in E as ([] & _ & E); [|done]. injection E as <- <-. done.
Qed.

Lemma levels_deeper b b0 : (CJSON_NESTING_LIMIT <=? depth b) = false → depth b0 = depth b + 1 → levels b = S (levels b0).
Proof. unfold levels. intros Hd%Z.leb_gt ->. lia. Qed.

(** Closing an array or an object. *)
Definition closed (b b' : parse_buffer) (kind : Z) (l : list cJSON) (item v : cJSON) : Prop :=
  same b b' ∧ v = with_child kind l item.

Lemma parse_array_typed pv item b v b' : pv_typed pv → Forall is_byte (content b) → parse_array alloc pv item b = Ok (Some v, b') →
  ∃ l n, closed b b' cJSON_Array l item v ∧ levels b = S n ∧ elements n (λ k, k = None) l.
Proof.
  intros Hpv Ht. unfold parse_array. destruct (_ <=? _) eqn:Ed; [done|]. intros (c & _ & E)%bind_Ok. destruct (c =? 91); cbn [negb] in E; [|done].
  apply bind_Ok in E as (b1 & S1%skip_ws_same & E). cbn zeta in E. destruct S1 as [C1 D1]. cbn in C1, D1.
  pose proof (levels_deeper b b1 Ed D1) as HL. apply bind_Ok in E as ([] & _ & E).
  - injection E as <- <-. exists [], (levels b1). split; [split; [split; [done|cbn; lia]|done]|]. split; [done|by split; constructor].
  - destruct (can_access_at_index b1 0); cbn [negb] in E; [|done]. apply bind_Ok in E as ([[l|] b2] & El & E); [|done].
    injection E as <- <-. apply array_loop_typed in El as [[C2 D2] El]; [|done|cbn; by rewrite C1|by split; constructor]. cbn in C2, D2.
    exists l, (levels b1). split; [split; [split; cbn; [congruence|lia]|done]|]. done.
Qed.

Lemma parse_object_typed pv item b v b' : pv_typed pv → Forall is_byte (content b) → parse_object alloc junk pv item b = Ok (Some v, b') →
  ∃ l n, closed b b' cJSON_Object l item v ∧ levels b = S n ∧ elements n (λ k, ∃ s, k = Some s ∧ cstring s) l.
Proof using Hjunk.
  intros Hpv Ht. unfold parse_object. destruct (_ <=? _) eqn:Ed; [done|]. intros ([] & _ & E)%bind_Ok; cbn [negb] in E; [|done].
  apply bind_Ok in E as (b1 & S1%skip_ws_same & E). cbn zeta in E. destruct S1 as [C1 D1]. cbn in C1, D1.
  pose proof (levels_deeper b b1 Ed D1) as HL. apply bind_Ok in E as ([] & _ & E).
  - injection E as <- <-. exists [], (levels b1). split; [split; [split; [done|cbn; lia]|done]|]. split; [done|by split; constructor].
  - destruct (can_access_at_index b1 0); cbn [negb] in E; [|done]. apply bind_Ok in E as ([[l|] b2] & El & E); [|done].
    injection E as <- <-. apply object_loop_typed in El as [[C2 D2] El]; [|done|cbn; by rewrite C1|by split; constructor]. cbn in C2, D2.
    exists l, (levels b1). split; [split; [split; cbn; [congruence|lia]|done]|]. done.
Qed.

Lemma parse_value_typed fuel : pv_typed (parse_value alloc junk fuel).
Proof using Hjunk.
  induction fuel as [|fuel IH]; intros item b v b' Hi Ht; [done|]. destruct item as [ty vs vn vd k ch], Hi as (Hvs & Hn & Hd & Hch). cbn in Hvs, Hn, Hd, Hch. subst.
  cbn [parse_value with_type valuestring valueint valuedouble string_ child]. intros ([] & _ & E)%bind_Ok; [injection E as <- <-; split_and!; [done|constructor|done]|].
  apply bind_Ok in E as ([] & _ & E); [injection E as <- <-; split_and!; [done|constructor|done]|].
  apply bind_Ok in E as ([] & _ & E); [injection E as <- <-; split_and!; [done|constructor|done]|].
  destruct (can_access_at_index b 0); cbn [negb] in E; [|done]. apply bind_Ok in E as (c & _ & E). destruct (c =? 34).
  { apply bind_Ok in E as ([[s|] b1] & Es & E); [|done]. injection E as <- <-. apply parse_string_typed in Es as [Hs Hstr]; [|done].
    split; [done|]. split; [constructor; by apply Hstr|done]. }
  destruct (_ || _). { apply parse_number_typed in E as [Hs (x & -> & Hx)]. split; [done|]. split; [by constructor|done]. }
  destruct (c =? 91).
  { apply parse_array_typed in E as (l & n & [Hs ->] & -> & [Hl Hk]); [|done|done]. split; [done|]. by split; [constructor|]. }
  destruct (c =? 123); [|done]. apply parse_object_typed in E as (l & n & [Hs ->] & -> & [Hl Hk]); [|done|done]. split; [done|]. by split; [constructor|].
Qed.

Lemma skip_bom_same b b' : skip_utf8_bom b = Ok b' → same b b'.
Proof. unfold skip_utf8_bom. case_match; [|by intros [= <-]]. intros ([] & _ & [= <-])%bind_Ok; done. Qed.

Lemma parse_opts_typed text L require v p : Forall is_byte text → cJSON_ParseWithLengthOpts alloc junk text L require = Ok (Some v, p) →
  typed (Z.to_nat CJSON_NESTING_LIMIT) v ∧ string_ v = None.
Proof using Hjunk.
  intros Ht. unfold cJSON_ParseWithLengthOpts, allocate. case_match; [done|]. cbn [allocs content pb_length offset depth].
  destruct (alloc _ _); cbn [negb]; [|done]. intros (b1 & [C1 D1]%skip_bom_same & E)%bind_Ok. cbn in C1, D1.
  apply bind_Ok in E as (b2 & [C2 D2]%skip_ws_same & E). apply bind_Ok in E as ([[x|] b3] & Ev & E); [|done].
  apply parse_value_typed in Ev as (_ & Hx & Hk); [|done|by rewrite C2, C1].
  assert (levels b2 = Z.to_nat CJSON_NESTING_LIMIT) as HL by (unfold levels; f_equal; lia). rewrite HL in Hx.
  assert (x = v) as -> by (revert E; repeat case_match; intros E; repeat (apply bind_Ok in E as (? & _ & E)); revert E; repeat case_match; congruence). done.
Qed.
End shape.

(** Values of the type are the canonical items of CJsonRoundtrip. *)
Lemma typed_canonical `{CJsonH} v : ∀ d, typed d v → canonical d v.
Proof.
  induction v as [t vs n x k ch IH] using cJSON_tree_ind. intros d Hv. inversion Hv; subst; constructor; try done.
  all: rewrite !Forall_forall in *; naive_solver.
Qed.

(** So [print_parse_roundtrip] is about every item the parser returns. *)
Lemma parsed_canonical `{CJsonHOk} (alloc : nat → Z → bool) (junk : Z) (text : list Z) (require : bool) v p :
  is_byte junk → Forall is_byte text → cJSON_ParseWithOpts alloc junk text require = Ok (Some v, p) →
  canonical (Z.to_nat CJSON_NESTING_LIMIT) v ∧ string_ v = None.
Proof.
  intros Hj Ht. unfold cJSON_ParseWithOpts. intros (n & _ & E)%bind_Ok. destruct (parse_opts_typed alloc junk Hj _ _ _ _ _ Ht E) as [Hv Hk].
  split; [by apply typed_canonical|done].
Qed.

(** C19. What the parser returns is of the type of parsed items: on every NUL-terminated text of
    bytes, whatever lies behind the NUL, whichever allocations fail and whatever fresh blocks
    hold, it returns, and an item it returns has, at every level, a kind with exactly the fields
    of that kind, strings and names without NUL, names on the members of objects and on nothing
    else, and arrays and objects nested at most [CJSON_NESTING_LIMIT] deep. *)
Theorem cJSON_Parse_typed `{CJsonHOk} (alloc : nat → Z → bool) (junk : Z) (s rest : list Z) (require : bool) :
  is_byte junk → cstring s → Forall is_byte rest →
  ∃ r p, cJSON_ParseWithOpts alloc junk (s ++ 0 :: rest) require = Ok (r, p) ∧
    ∀ item, r = Some item → typed (Z.to_nat CJSON_NESTING_LIMIT) item ∧ string_ item = None.
Proof.
  intros Hj Hs Hr. assert (Forall (λ c, c ≠ 0) s) as Hs' by (eapply Forall_impl; [exact Hs|]; cbn; lia).
  unfold cJSON_ParseWithOpts. rewrite strlen_cstr, ok_bind by done.
  destruct (parse_opts_ok alloc junk (s ++ 0 :: rest) (Z.of_nat (length s) + 1)) with (require := require) as (r & p & E);
    [rewrite length_app; simpl; lia|apply cstr_nul|apply nesting_limit_pos|].
  exists r, p. split; [exact E|]. intros item ->. eapply parse_opts_typed; [exact Hj| |exact E].
  apply Forall_app. split; [eapply Forall_impl; [exact Hs|]; unfold is_byte; cbn; lia|]. constructor; [by unfold is_byte|done].
Qed.

(** The text [{"a":[1e999,"x"]}]. *)
Lemma cJSON_Parse_typed_witness :
  ∃ r p, cJSON_ParseWithOpts (λ _ _, true) 170 ([123; 34; 97; 34; 58; 91; 49; 101; 57; 57; 57; 44; 34; 120; 34; 93; 125] ++ 0 :: [34]) true = Ok (r, p) ∧
    ∀ item, r = Some item → typed (Z.to_nat CJSON_NESTING_LIMIT) item ∧ string_ item = None.
Proof.
  apply (cJSON_Parse_typed (λ _ _, true) 170 [123; 34; 97; 34; 58; 91; 49; 101; 57; 57; 57; 44; 34; 120; 34; 93; 125] [34] true).
  - done.
  - repeat constructor.
  - by repeat constructor.
Defined.
