(* ===== verification/BloomFilter.v ===== *)
(** * BloomFilter: src/BloomFilter/bloomfilter.h

    One definition per function.  A pointer is null, freed or a block, so that a double free
    or a use after free is undefined behaviour; the array of hash positions is a block with one
    entry per [uint32_t].  The logarithm of the C library is the parameter [log]; [junk] is
    what fresh memory holds and the [ok] arguments say which allocations succeed.  The machine is
    little-endian and reads unaligned words. *)

From Stdlib Require Import Floats.SpecFloat.
From S2P Require Import Prelude CDouble.
#[local] Open Scope Z_scope.

(** ** Memory *)
Inductive block := Null | Freed | Live (b : list Z).

Definition deref (p : block) : result (list Z) := match p with Live b => Ok b | _ => Ub end.

(** [if (p != NULL) free(p)], which leaves [p] as it is: its new state. *)
Definition free (p : block) : result block :=
  match p with Null => Ok Null | Freed => Ub | Live _ => Ok Freed end.

(** [memset(p, 0, n)] *)
Definition memset0 (p : block) (n : Z) : result block :=
  b ← deref p; b ← memwrite b 0 (replicate (Z.to_nat n) 0); Ok (Live b).

(** ** Conversions of doubles *)
Definition ceil (d : double) : double :=
  match d with
  | S754_finite s m e => if 0 <=? e then d else
      Z_to_double (let v := if s then Z.neg m else Z.pos m in - ((- v) / 2 ^ (- e)))
  | _ => d
  end.

(** To the nearest integer, halves away from zero. *)
Definition round (d : double) : double :=
  match d with
  | S754_finite s m e => if 0 <=? e then d else
      let a := (2 * Z.pos m + 2 ^ (- e)) / (2 * 2 ^ (- e)) in Z_to_double (if s then - a else a)
  | _ => d
  end.

(** [(uint32_t) d], undefined when the integral part does not fit. *)
Definition to_u32 (d : double) : result Z :=
  let z := double_to_int d in
  if isnan d || isinf d || negb ((0 <=? z) && (z <? 2 ^ 32)) then Ub else Ok z.

(** The eight bytes of a double, as an integer. *)
Definition double_bits (d : double) : Z :=
  let sgn (s : bool) := if s then 2 ^ 63 else 0 in
  match d with
  | S754_zero s => sgn s
  | S754_infinity s => sgn s + 2047 * 2 ^ 52
  | S754_nan => 2047 * 2 ^ 52 + 2 ^ 51
  | S754_finite s m e =>
      sgn s + (if Z.pos m <? 2 ^ 52 then Z.pos m else (e + 1075) * 2 ^ 52 + (Z.pos m - 2 ^ 52))
  end.

Definition double_of_bits (z : Z) : double :=
  let s := 2 ^ 63 <=? z in
  let e := (z / 2 ^ 52) mod 2048 in
  let f := z mod 2 ^ 52 in
  if e =? 2047 then if f =? 0 then S754_infinity s else S754_nan
  else if e =? 0 then if f =? 0 then S754_zero s else S754_finite s (Z.to_pos f) (-1074)
  else S754_finite s (Z.to_pos (f + 2 ^ 52)) (e - 1075).

(** ** The filter *)
Definition BYTE_BITS : Z := 8.
Definition MGAIC_CODE : Z := 0x01464C42.

Record BaseBloomFilter := mk_bloom {
  cInitFlag : Z;
  dwMaxItems : Z;
  dProbFalse : double;
  dwFilterBits : Z;
  dwHashFuncs : Z;
  dwSeed : Z;
  dwCount : Z;
  dwFilterSize : Z;
  pstFilter : block;
  pdwHashPos : block
}.

Definition set_state (flag count : Z) (b : BaseBloomFilter) : BaseBloomFilter :=
  mk_bloom flag (dwMaxItems b) (dProbFalse b) (dwFilterBits b) (dwHashFuncs b) (dwSeed b) count (dwFilterSize b) (pstFilter b) (pdwHashPos b).
Definition set_blocks (f h : block) (b : BaseBloomFilter) : BaseBloomFilter :=
  mk_bloom (cInitFlag b) (dwMaxItems b) (dProbFalse b) (dwFilterBits b) (dwHashFuncs b) (dwSeed b) (dwCount b) (dwFilterSize b) f h.

Section bloom.
Context (log : double → double) (junk : Z).

Definition malloc (ok : bool) (n : Z) : block := if ok then Live (replicate (Z.to_nat n) junk) else Null.

(** ** Parameters: the bits [m] and the number [k] of hash functions *)
Definition CalcBloomFilterParam (n : Z) (p : double) : result (Z * Z) :=
  let mul := SFmul PREC EMAX in
  let div := SFdiv PREC EMAX in
  m ← to_u32 (ceil (div (mul (mul (Z_to_double (-1)) (Z_to_double n)) (log p)) (dec_to_double false 480453 (-6))));
  let m := u32 (u32 (m - m mod 64) + 64) in
  let double_k := div (mul (dec_to_double false 69314 (-5)) (Z_to_double m)) (Z_to_double n) in
  k ← to_u32 (round double_k);
  Ok (m, k).

(** ** Life of a filter *)
Definition InitBloomFilter (ok1 ok2 : bool) (pstBloomfilter : option BaseBloomFilter) (seed maxItems : Z) (probFalse : double)
  : result (option BaseBloomFilter * Z) :=
  match pstBloomfilter with
  | None => Ok (None, -1)
  | Some b =>
      if SFleb probFalse (Z_to_double 0) || SFleb (Z_to_double 1) probFalse then Ok (Some b, -2) else
      _ ← free (pstFilter b);
      _ ← free (pdwHashPos b);
      '(m, k) ← CalcBloomFilterParam maxItems probFalse;
      let size := m / BYTE_BITS in
      let made (flag : Z) (f h : block) := mk_bloom flag maxItems probFalse m k seed 0 size f h in
      match malloc ok1 size with
      | Live f =>
          match malloc ok2 k with
          | Live h => f ← memset0 (Live f) size; Ok (Some (made 1 f (Live h)), 0)
          | h => Ok (Some (made 0 (Live f) h), -200)
          end
      | f => Ok (Some (made 0 f Null), -100)
      end
  end.

Definition FreeBloomFilter (pstBloomfilter : option BaseBloomFilter) : result (option BaseBloomFilter * Z) :=
  match pstBloomfilter with
  | None => Ok (None, -1)
  | Some b =>
      _ ← free (pstFilter b);
      _ ← free (pdwHashPos b);
      Ok (Some (set_blocks Null Null (set_state 0 0 b)), 0)
  end.

Definition ResetBloomFilter (pstBloomfilter : option BaseBloomFilter) : result (option BaseBloomFilter * Z) :=
  match pstBloomfilter with
  | None => Ok (None, -1)
  | Some b => Ok (Some (set_state 0 0 b), 0)
  end.

Definition RealResetBloomFilter (pstBloomfilter : option BaseBloomFilter) : result (option BaseBloomFilter * Z) :=
  match pstBloomfilter with
  | None => Ok (None, -1)
  | Some b => f ← memset0 (pstFilter b) (dwFilterSize b); Ok (Some (set_state 1 0 (set_blocks f (pdwHashPos b) b)), 0)
  end.

(** ** Hashing *)
Definition mur_m : Z := 0xc6a4a7935bd1e995.
Definition mur_r : Z := 47.

Fixpoint mur_words (n : nat) (key : list Z) (data h : Z) : result Z :=
  match n with
  | O => Ok h
  | S n =>
      bs ← memread key data 8;
      let k := u64 (le_val bs * mur_m) in
      let k := Z.lxor k (Z.shiftr k mur_r) in
      let k := u64 (k * mur_m) in
      mur_words n key (data + 8) (u64 (Z.lxor h k * mur_m))
  end.

(** The cases [n], ..., 1 of the switch, which fall through. *)
Fixpoint mur_tail (n : nat) (key : list Z) (data2 h : Z) : result Z :=
  match n with
  | O => Ok h
  | S i => c ← key.[data2 + Z.of_nat i]; mur_tail i key data2 (Z.lxor h (Z.shiftl c (8 * Z.of_nat i)))
  end.

Definition MurmurHash2_x64 (key : list Z) (len seed : Z) : result Z :=
  let h := Z.lxor seed (u64 (len * mur_m)) in
  h ← mur_words (Z.to_nat (len / 8)) key 0 h;
  let rest := Z.to_nat (Z.land len 7) in
  h ← mur_tail rest key (8 * (len / 8)) h;
  let h := match rest with O => h | S _ => u64 (h * mur_m) end in
  let h := Z.lxor h (Z.shiftr h mur_r) in
  let h := u64 (h * mur_m) in
  Ok (Z.lxor h (Z.shiftr h mur_r)).

Definition MIX_UINT64 (v : Z) : Z := u32 (Z.lxor (Z.shiftr v 32) v).

Fixpoint hash_loop (n : nat) (i hash1 hash2 filterBits : Z) (pos : block) : result block :=
  match n with
  | O => Ok pos
  | S n =>
      h ← deref pos;
      if filterBits =? 0 then Ub else
      h ← h.[i := u64 (hash1 + u64 (i * hash2)) mod filterBits];
      hash_loop n (i + 1) hash1 hash2 filterBits (Live h)
  end.

(** The iterations of a loop up to [(int) dwHashFuncs]. *)
Definition rounds (b : BaseBloomFilter) : nat := Z.to_nat (s32 (dwHashFuncs b)).

Definition bloom_hash (b : BaseBloomFilter) (key : list Z) (len : Z) : result BaseBloomFilter :=
  hash1 ← MurmurHash2_x64 key len (dwSeed b);
  hash2 ← MurmurHash2_x64 key len (MIX_UINT64 hash1);
  pos ← hash_loop (rounds b) 0 hash1 hash2 (dwFilterBits b) (pdwHashPos b);
  Ok (set_blocks (pstFilter b) pos b).

(** ** Adding and checking *)
Fixpoint add_loop (n : nat) (i : Z) (pos filter : block) : result block :=
  match n with
  | O => Ok filter
  | S n =>
      h ← deref pos;
      p ← h.[i];
      f ← deref filter;
      c ← f.[p / BYTE_BITS];
      f ← f.[p / BYTE_BITS := u8 (Z.lor c (Z.shiftl 1 (p mod BYTE_BITS)))];
      add_loop n (i + 1) pos (Live f)
  end.

Definition BloomFilter_Add (pstBloomfilter : option BaseBloomFilter) (key : option (list Z)) (len : Z)
  : result (option BaseBloomFilter * Z) :=
  match pstBloomfilter, key with
  | Some b, Some key =>
      if len <=? 0 then Ok (Some b, -1) else
      b ← (if negb (cInitFlag b =? 1) then
             f ← memset0 (pstFilter b) (dwFilterSize b); Ok (set_state 1 (dwCount b) (set_blocks f (pdwHashPos b) b))
           else Ok b);
      b ← bloom_hash b key len;
      f ← add_loop (rounds b) 0 (pdwHashPos b) (pstFilter b);
      let b := set_state (cInitFlag b) (u32 (dwCount b + 1)) (set_blocks f (pdwHashPos b) b) in
      Ok (Some b, if dwCount b <=? dwMaxItems b then 0 else 1)
  | _, _ => Ok (pstBloomfilter, -1)
  end.

Fixpoint check_loop (n : nat) (i : Z) (pos filter : block) : result Z :=
  match n with
  | O => Ok 0
  | S n =>
      h ← deref pos;
      p ← h.[i];
      f ← deref filter;
      c ← f.[p / BYTE_BITS];
      if Z.land c (Z.shiftl 1 (p mod BYTE_BITS)) =? 0 then Ok 1 else check_loop n (i + 1) pos filter
  end.

Definition BloomFilter_Check (pstBloomfilter : option BaseBloomFilter) (key : option (list Z)) (len : Z)
  : result (option BaseBloomFilter * Z) :=
  match pstBloomfilter, key with
  | Some b, Some key =>
      if len <=? 0 then Ok (Some b, -1) else
      b ← bloom_hash b key len;
      r ← check_loop (rounds b) 0 (pdwHashPos b) (pstFilter b);
      Ok (Some b, r)
  | _, _ => Ok (pstBloomfilter, -1)
  end.

(** ** Files *)
Definition sizeof_BloomFileHead : Z := 64.

Definition file_head (b : BaseBloomFilter) : list Z :=
  le_bytes 4 MGAIC_CODE ++ le_bytes 4 (dwSeed b) ++ le_bytes 4 (dwCount b) ++ le_bytes 4 (dwMaxItems b) ++
  le_bytes 8 (double_bits (dProbFalse b)) ++ le_bytes 4 (dwFilterBits b) ++ le_bytes 4 (dwHashFuncs b) ++
  replicate 24 0 ++ le_bytes 4 0 ++ le_bytes 4 (dwFilterSize b).

(** The result and the file; [opened] says whether it could be created and [room] how many
    bytes it takes. *)
Definition SaveBloomFilterToFile (opened : bool) (room : Z) (pstBloomfilter : option BaseBloomFilter) (named : bool)
  : result (Z * option (list Z)) :=
  match pstBloomfilter with
  | Some b =>
      if negb named then Ok (-1, None) else
      if negb opened then Ok (-11, None) else
      let head := file_head b in
      if room <? sizeof_BloomFileHead then Ok (-21, Some (take (Z.to_nat room) head)) else
      f ← deref (pstFilter b);
      data ← memread f 0 (dwFilterSize b);
      let written := take (Z.to_nat (room - sizeof_BloomFileHead)) data in
      Ok (if Z.of_nat (length written) =? dwFilterSize b then 0 else -31, Some (head ++ written))
  | None => Ok (-1, None)
  end.

(** The field of [n] bytes at [off] of a file head. *)
Definition head_field (file : list Z) (off n : nat) : Z := le_val (take n (drop off file)).

(** [None] is a file that cannot be opened. *)
Definition LoadBloomFilterFromFile (ok1 ok2 : bool) (pstBloomfilter : option BaseBloomFilter) (named : bool) (file : option (list Z))
  : result (option BaseBloomFilter * Z) :=
  match pstBloomfilter with
  | Some b =>
      if negb named then Ok (Some b, -1) else
      f0 ← free (pstFilter b);
      h0 ← free (pdwHashPos b);
      let b := set_blocks f0 h0 b in
      match file with
      | None => Ok (Some b, -11)
      | Some file =>
          if Z.of_nat (length file) <? sizeof_BloomFileHead then Ok (Some b, -21) else
          let bits := head_field file 24 4 in
          let size := head_field file 60 4 in
          if negb (head_field file 0 4 =? MGAIC_CODE) || negb (bits =? u32 (size * BYTE_BITS)) then Ok (Some b, -50) else
          let k := head_field file 28 4 in
          let made (flag : Z) (f h : block) :=
            mk_bloom flag (head_field file 12 4) (double_of_bits (head_field file 16 8)) bits k (head_field file 4 4)
              (head_field file 8 4) size f h in
          match malloc ok1 size with
          | Live f =>
              match malloc ok2 k with
              | Live h =>
                  let data := take (Z.to_nat size) (drop (Z.to_nat sizeof_BloomFileHead) file) in
                  f ← memwrite f 0 data;
                  if negb (Z.of_nat (length data) =? size) then Ok (Some (made (cInitFlag b) (Live f) (Live h)), -31)
                  else Ok (Some (made 1 (Live f) (Live h)), 0)
              | h => Ok (Some (made (cInitFlag b) (Live f) h), -200)
              end
          | f => Ok (Some (made (cInitFlag b) f h0), -100)
          end
      end
  | None => Ok (None, -1)
  end.
End bloom.
