(* ===== verification/BloomTheorems.v ===== *)
(** * BloomTheorems: what the Bloom filter of src/BloomFilter guarantees

    Its bits are the positions of the keys added, so that an added key is always found; the
    abstract filter is the list of those keys.  A saved filter loads as it was. *)

From Stdlib Require Import Floats.SpecFloat.
From S2P Require Import Prelude CDouble BloomFilter.
#[local] Open Scope Z_scope.

(** ** Bits of a block *)
Definition fbit (f : list Z) (q : Z) : bool := Z.testbit (f !!! Z.to_nat (q / BYTE_BITS)) (q mod BYTE_BITS).
Definition set_bit (f : list Z) (p : Z) : list Z :=
  <[Z.to_nat (p / BYTE_BITS) := Z.lor (f !!! Z.to_nat (p / BYTE_BITS)) (Z.shiftl 1 (p mod BYTE_BITS))]> f.

Definition in_block (f : list Z) (q : Z) : Prop := 0 ≤ q < BYTE_BITS * Z.of_nat (length f).

Lemma pos_byte q n : 0 ≤ q < BYTE_BITS * n → 0 ≤ q / BYTE_BITS < n ∧ 0 ≤ q mod BYTE_BITS < 8.
Proof.
  unfold BYTE_BITS. intros Hq. split; [|apply Z.mod_pos_bound; lia]. split; [apply Z.div_pos; lia|apply Z.div_lt_upper_bound; lia].
Qed.

Lemma lookup_byte f q : in_block f q → f !! Z.to_nat (q / BYTE_BITS) = Some (f !!! Z.to_nat (q / BYTE_BITS)).
Proof. intros Hq%pos_byte. apply list_lookup_lookup_total_lt. lia. Qed.

Lemma load_byte_at f q : in_block f q → f.[q / BYTE_BITS] = Ok (f !!! Z.to_nat (q / BYTE_BITS)).
Proof. intros Hq. apply blk_load_Ok; [apply pos_byte in Hq; lia|by apply lookup_byte]. Qed.

Lemma total_byte f q : Forall is_byte f → in_block f q → is_byte (f !!! Z.to_nat (q / BYTE_BITS)).
Proof. intros Hf Hq%lookup_byte. by eapply Forall_lookup_1. Qed.

Lemma lor_byte c j : is_byte c → 0 ≤ j < 8 → is_byte (Z.lor c (Z.shiftl 1 j)).
Proof.
  unfold is_byte. intros Hc Hj. assert (0 < Z.shiftl 1 j < 2 ^ 8) as Hs.
  { rewrite Z.shiftl_1_l. split; [apply Z.pow_pos_nonneg; lia|]. apply Z.pow_lt_mono_r; lia. }
  split; [apply Z.lor_nonneg; lia|]. destruct (Z.eq_dec (Z.lor c (Z.shiftl 1 j)) 0); [lia|].
  change 256 with (2 ^ 8). apply Z.log2_lt_pow2; [pose proof (proj2 (Z.lor_nonneg c (Z.shiftl 1 j))); lia|].
  rewrite Z.log2_lor by lia. apply Z.max_lub_lt.
  - destruct (Z.eq_dec c 0) as [->|]; [done|]. apply Z.log2_lt_pow2; lia.
  - apply Z.log2_lt_pow2; lia.
Qed.

Lemma set_bit_length f p : length (set_bit f p) = length f.
Proof. apply length_insert. Qed.

Lemma set_bit_bytes f p : Forall is_byte f → in_block f p → Forall is_byte (set_bit f p).
Proof. intros Hf Hp. apply Forall_insert; [done|]. apply lor_byte; [by apply total_byte|]. apply pos_byte in Hp. lia. Qed.

Lemma set_bit_spec f p q : in_block f p → in_block f q → fbit (set_bit f p) q = (p =? q) || fbit f q.
Proof.
  intros Hp Hq. unfold fbit, set_bit. pose proof (pos_byte _ _ Hp) as [Hp1 Hp2]. pose proof (pos_byte _ _ Hq) as [Hq1 Hq2].
  destruct (decide (q / BYTE_BITS = p / BYTE_BITS)) as [E|E].
  - rewrite E, list_lookup_total_insert_eq by lia. rewrite Z.lor_spec, Z.shiftl_spec by lia.
    destruct (Z.eqb_spec p q) as [->|Hne]; [by rewrite Z.sub_diag, orb_true_r|].
    assert (q mod BYTE_BITS ≠ p mod BYTE_BITS) as Hm.
    { intros Em. apply Hne. rewrite (Z.div_mod p BYTE_BITS), (Z.div_mod q BYTE_BITS), E, Em by done. done. }
    rewrite orb_comm. f_equal. destruct (decide (q mod BYTE_BITS < p mod BYTE_BITS)); [rewrite Z.testbit_neg_r by lia; done|].
    apply (Z.bits_above_log2 1); [done|]. cbn. lia.
  - rewrite list_lookup_total_insert_ne by (intros E'; apply E; lia). destruct (Z.eqb_spec p q) as [->|]; done.
Qed.

(** ** The loops *)
Definition hash_at (bits hash1 hash2 : Z) (i : nat) : Z := u64 (hash1 + u64 (Z.of_nat i * hash2)) mod bits.

Lemma hash_loop_run hash1 hash2 bits rest : bits ≠ 0 → ∀ pre,
  hash_loop (length rest) (Z.of_nat (length pre)) hash1 hash2 bits (Live (pre ++ rest)) =
    Ok (Live (pre ++ map (hash_at bits hash1 hash2) (seq (length pre) (length rest)))).
Proof.
  intros Hb. induction rest as [|x rest IH]; intros pre; [done|]. cbn [length hash_loop deref seq map]. rewrite ok_bind.
  rewrite (proj2 (Z.eqb_neq _ _) Hb). unfold blk_store. rewrite bool_decide_eq_true_2, ok_bind by (rewrite length_app; simpl; lia).
  rewrite Nat2Z.id, insert_app_r_alt, Nat.sub_diag by done. cbn [list_insert insert].
  specialize (IH (pre ++ [hash_at bits hash1 hash2 (length pre)])). rewrite length_app in IH. cbn [length] in IH.
  replace (Z.of_nat (length pre + 1)) with (Z.of_nat (length pre) + 1) in IH by lia. rewrite Nat.add_1_r in IH.
  rewrite <- !app_assoc in IH. exact IH.
Qed.

Lemma load_middle pre p ps : (pre ++ p :: ps).[Z.of_nat (length pre)] = Ok p.
Proof. apply blk_load_Ok; [lia|]. by rewrite Nat2Z.id, list_lookup_middle. Qed.

Lemma add_loop_run ps : ∀ pre f, Forall is_byte f → Forall (in_block f) ps →
  add_loop (length ps) (Z.of_nat (length pre)) (Live (pre ++ ps)) (Live f) = Ok (Live (foldl set_bit f ps)).
Proof.
  induction ps as [|p ps IH]; intros pre f Hf Hps; [done|]. inversion_clear Hps as [|?? Hp Hps'].
  cbn [length add_loop deref foldl]. rewrite ok_bind, load_middle, !ok_bind, load_byte_at, ok_bind by done.
  pose proof (pos_byte _ _ Hp) as [Hp1 Hp2]. unfold blk_store. rewrite bool_decide_eq_true_2, ok_bind by lia.
  unfold u8. rewrite (Z.mod_small (Z.lor _ _)) by (apply lor_byte; [by apply total_byte|lia]). fold (set_bit f p).
  replace (Z.of_nat (length pre) + 1) with (Z.of_nat (length (pre ++ [p]))) by (rewrite length_app; simpl; lia).
  replace (pre ++ p :: ps) with ((pre ++ [p]) ++ ps) by (by rewrite <- app_assoc). apply IH; [by apply set_bit_bytes|].
  eapply Forall_impl; [exact Hps'|]. intros q. unfold in_block. by rewrite set_bit_length.
Qed.

Lemma check_loop_run ps f : ∀ pre, Forall (in_block f) ps →
  check_loop (length ps) (Z.of_nat (length pre)) (Live (pre ++ ps)) (Live f) = Ok (if forallb (fbit f) ps then 0 else 1).
Proof.
  induction ps as [|p ps IH]; intros pre Hps; [done|]. inversion_clear Hps as [|?? Hp Hps'].
  cbn [length check_loop deref forallb]. rewrite ok_bind, load_middle, !ok_bind, load_byte_at, ok_bind by done.
  pose proof (pos_byte _ _ Hp) as [Hp1 Hp2]. rewrite land_bit by lia. fold (fbit f p). destruct (fbit f p); cbn [negb andb]; [|done].
  replace (Z.of_nat (length pre) + 1) with (Z.of_nat (length (pre ++ [p]))) by (rewrite length_app; simpl; lia).
  replace (pre ++ p :: ps) with ((pre ++ [p]) ++ ps) by (by rewrite <- app_assoc). by apply IH.
Qed.

Lemma add_from_0 ps f : Forall is_byte f → Forall (in_block f) ps → add_loop (length ps) 0 (Live ps) (Live f) = Ok (Live (foldl set_bit f ps)).
Proof. exact (add_loop_run ps [] f). Qed.

Lemma check_from_0 ps f : Forall (in_block f) ps → check_loop (length ps) 0 (Live ps) (Live f) = Ok (if forallb (fbit f) ps then 0 else 1).
Proof. exact (check_loop_run ps f []). Qed.

(** ** The bits after adding the positions of a key *)
Lemma set_bits_spec ps : ∀ f, Forall is_byte f → Forall (in_block f) ps →
  length (foldl set_bit f ps) = length f ∧ Forall is_byte (foldl set_bit f ps) ∧
  ∀ q, in_block f q → fbit (foldl set_bit f ps) q = bool_decide (q ∈ ps) || fbit f q.
Proof.
  induction ps as [|p ps IH]; intros f Hf Hps; cbn [foldl].
  - split_and!; [done|done|]. intros q _. by rewrite bool_decide_eq_false_2 by (apply not_elem_of_nil).
  - inversion_clear Hps as [|?? Hp Hps']. destruct (IH (set_bit f p)) as (Hl & Hb & Hq); [by apply set_bit_bytes| |].
    { eapply Forall_impl; [exact Hps'|]. intros q. unfold in_block. by rewrite set_bit_length. }
    rewrite set_bit_length in Hl. split_and!; [done|done|]. intros q Hin. rewrite Hq by (unfold in_block; by rewrite set_bit_length).
    rewrite set_bit_spec by done. rewrite orb_assoc. f_equal. apply eq_true_iff_eq. rewrite orb_true_iff, Z.eqb_eq, !bool_decide_eq_true, elem_of_cons. naive_solver.
Qed.

Lemma memset0_run f n : Z.of_nat (length f) = n → memset0 (Live f) n = Ok (Live (replicate (length f) 0)).
Proof.
  intros <-. unfold memset0. cbn [deref]. rewrite ok_bind, memwrite_Ok, ok_bind by (rewrite ?length_replicate; lia).
  change (Z.to_nat 0) with 0%nat. by rewrite take_0, app_nil_l, length_replicate, drop_ge, app_nil_r, Nat2Z.id by lia.
Qed.

(** ** The hash function is total on its key *)
Lemma mur_words_Ok n key : ∀ off h, 0 ≤ off → off + 8 * Z.of_nat n ≤ Z.of_nat (length key) → ∃ h', mur_words n key off h = Ok h'.
Proof.
  induction n as [|n IH]; intros off h Ho Hl; cbn [mur_words]; [by eexists|]. rewrite memread_Ok, ok_bind by lia. apply IH; lia.
Qed.

Lemma mur_tail_Ok n key off : 0 ≤ off → off + Z.of_nat n ≤ Z.of_nat (length key) → ∀ h, ∃ h', mur_tail n key off h = Ok h'.
Proof.
  intros Ho. induction n as [|n IH]; intros Hl h; cbn [mur_tail]; [by eexists|].
  destruct (lookup_lt_is_Some_2 key (Z.to_nat (off + Z.of_nat n))) as [c Hc]; [lia|].
  rewrite (blk_load_Ok _ _ c), ok_bind by (done || lia). apply IH. lia.
Qed.

Lemma murmur_Ok key seed : ∃ h, MurmurHash2_x64 key (Z.of_nat (length key)) seed = Ok h.
Proof.
  unfold MurmurHash2_x64. set (len := Z.of_nat (length key)). pose proof (Z.div_mod len 8). pose proof (Z.mod_pos_bound len 8).
  change 7 with (Z.ones 3). rewrite Z.land_ones by lia. change (2 ^ 3) with 8.
  destruct (mur_words_Ok (Z.to_nat (len / 8)) key 0 (Z.lxor seed (u64 (len * mur_m)))) as [h1 ->]; [lia|lia|]. rewrite ok_bind.
  destruct (mur_tail_Ok (Z.to_nat (len mod 8)) key (8 * (len / 8))) with (h := h1) as [h2 ->]; [lia|lia|]. rewrite ok_bind. by eexists.
Qed.

(** ** The invariant, and the positions of a key *)
Record wf (b : BaseBloomFilter) : Prop := {
  wf_bits : 0 < dwFilterBits b < 2 ^ 32 ∧ dwFilterBits b = BYTE_BITS * dwFilterSize b;
  wf_funcs : 0 ≤ dwHashFuncs b < 2 ^ 31;
  wf_count : 0 ≤ dwCount b < 2 ^ 32;
  wf_filter : ∃ f, pstFilter b = Live f ∧ Z.of_nat (length f) = dwFilterSize b ∧ Forall is_byte f;
  wf_pos : ∃ h, pdwHashPos b = Live h ∧ Z.of_nat (length h) = dwHashFuncs b
}.

(** The positions the hash functions give a key in a filter with [bits] bits. *)
Definition positions (bits k seed : Z) (key : list Z) : list Z :=
  let len := Z.of_nat (length key) in
  match MurmurHash2_x64 key len seed with
  | Ok hash1 =>
      match MurmurHash2_x64 key len (MIX_UINT64 hash1) with
      | Ok hash2 => map (hash_at bits hash1 hash2) (seq 0 (Z.to_nat k))
      | _ => []
      end
  | _ => []
  end.

Definition key_positions (b : BaseBloomFilter) : list Z → list Z := positions (dwFilterBits b) (dwHashFuncs b) (dwSeed b).

Lemma positions_range bits k seed key : 0 < bits → Forall (λ q, 0 ≤ q < bits) (positions bits k seed key) .
Proof.
  intros Hb. unfold positions. repeat case_match; try constructor. apply Forall_map, Forall_true. intros i. by apply Z.mod_pos_bound.
Qed.

Lemma rounds_wf b : wf b → rounds b = Z.to_nat (dwHashFuncs b).
Proof.
  intros Hw. pose proof (wf_funcs _ Hw). unfold rounds, s32, u32. rewrite Z.mod_small by lia. by rewrite bool_decide_eq_true_2 by lia.
Qed.

Lemma length_positions bits k seed key : 0 ≤ k → Z.of_nat (length (positions bits k seed key)) = k.
Proof.
  intros Hk. unfold positions. destruct (murmur_Ok key seed) as [h1 ->]. destruct (murmur_Ok key (MIX_UINT64 h1)) as [h2 ->].
  rewrite length_map, length_seq. lia.
Qed.

Lemma bloom_hash_run b key : wf b → bloom_hash b key (Z.of_nat (length key)) = Ok (set_blocks (pstFilter b) (Live (key_positions b key)) b).
Proof.
  intros Hw. unfold bloom_hash, key_positions, positions. destruct (murmur_Ok key (dwSeed b)) as [h1 ->]. rewrite ok_bind.
  destruct (murmur_Ok key (MIX_UINT64 h1)) as [h2 ->]. rewrite ok_bind, rounds_wf by done. destruct (wf_pos _ Hw) as (h & -> & Hh).
  rewrite <- Hh, Nat2Z.id. pose proof (hash_loop_run h1 h2 (dwFilterBits b) h) as Hl. specialize (Hl ltac:(pose proof (wf_bits _ Hw); lia) []).
  cbn [app length] in Hl. change (Z.of_nat 0) with 0 in Hl. by rewrite Hl, ok_bind.
Qed.

Lemma wf_hashed b key : wf b → wf (set_blocks (pstFilter b) (Live (key_positions b key)) b).
Proof.
  intros [Hb Hf Hc Hfl Hp]. split; [done|done|done|done|]. eexists. split; [done|]. apply length_positions. apply Hf.
Qed.

Lemma positions_in_block b f key : wf b → Z.of_nat (length f) = dwFilterSize b → Forall (in_block f) (key_positions b key).
Proof.
  intros Hw Hl. pose proof (wf_bits _ Hw) as [Hb1 Hb2]. eapply Forall_impl; [apply positions_range; apply Hb1|].
  intros q Hq. unfold in_block. cbn in Hq. lia.
Qed.

(** ** Operations one by one *)
Lemma check_run b f key : wf b → pstFilter b = Live f → key ≠ [] →
  BloomFilter_Check (Some b) (Some key) (Z.of_nat (length key)) =
    Ok (Some (set_blocks (Live f) (Live (key_positions b key)) b), if forallb (fbit f) (key_positions b key) then 0 else 1).
Proof.
  intros Hw Hf Hk. unfold BloomFilter_Check. destruct key as [|c key]; [done|]. set (k := c :: key) in *.
  rewrite (proj2 (Z.leb_gt _ _)) by (unfold k; simpl; lia). rewrite bloom_hash_run, ok_bind by done. rewrite Hf.
  pose proof (wf_hashed b k Hw) as Hw'. rewrite Hf in Hw'. rewrite rounds_wf by done. cbn [dwHashFuncs set_blocks pdwHashPos pstFilter].
  pose proof (length_positions (dwFilterBits b) _ (dwSeed b) k (proj1 (wf_funcs _ Hw))) as Hl. fold (key_positions b k) in Hl.
  rewrite <- Hl, Nat2Z.id. destruct (wf_filter _ Hw) as (f' & Hf' & Hl' & _). assert (f' = f) as -> by congruence.
  by rewrite check_from_0 by (by apply positions_in_block).
Qed.

(** The bits the next addition starts from. *)
Definition bits_before_add (b : BaseBloomFilter) (f : list Z) : list Z :=
  if cInitFlag b =? 1 then f else replicate (length f) 0.

Lemma replicate_0_bytes n : Forall is_byte (replicate n 0).
Proof. apply Forall_replicate. by unfold is_byte. Qed.

Lemma before_add_length b f : length (bits_before_add b f) = length f.
Proof. unfold bits_before_add. destruct (_ =? _); [done|apply length_replicate]. Qed.

Lemma before_add_bytes b f : Forall is_byte f → Forall is_byte (bits_before_add b f).
Proof. intros Hf. unfold bits_before_add. destruct (_ =? _); [done|apply replicate_0_bytes]. Qed.

Lemma add_run b f key : wf b → pstFilter b = Live f → key ≠ [] →
  let count := u32 (dwCount b + 1) in
  BloomFilter_Add (Some b) (Some key) (Z.of_nat (length key)) =
    Ok (Some (set_state 1 count (set_blocks (Live (foldl set_bit (bits_before_add b f) (key_positions b key))) (Live (key_positions b key)) b)),
        if count <=? dwMaxItems b then 0 else 1).
Proof.
  intros Hw Hf Hk count. unfold BloomFilter_Add. destruct key as [|c key]; [done|]. set (k := c :: key) in *.
  rewrite (proj2 (Z.leb_gt _ _)) by (unfold k; simpl; lia). destruct (wf_filter _ Hw) as (f' & Hf' & Hl & Hby).
  assert (f' = f) as -> by congruence. clear Hf'.
  assert ((if negb (cInitFlag b =? 1) then f0 ← memset0 (pstFilter b) (dwFilterSize b); Ok (set_state 1 (dwCount b) (set_blocks f0 (pdwHashPos b) b)) else Ok b)
    = Ok (set_state 1 (dwCount b) (set_blocks (Live (bits_before_add b f)) (pdwHashPos b) b))) as ->.
  { unfold bits_before_add. destruct (Z.eqb_spec (cInitFlag b) 1) as [E|E]; cbn [negb].
    - destruct b; cbn in *; by subst.
    - by rewrite Hf, memset0_run. }
  rewrite ok_bind. set (b1 := set_state 1 _ _).
  assert (length (bits_before_add b f) = length f) as Hlb by apply before_add_length.
  assert (Forall is_byte (bits_before_add b f)) as Hbb by (by apply before_add_bytes).
  assert (wf b1) as Hw1.
  { destruct Hw as [? ? ? ? ?]. split; [done|done|done| |done]. eexists. split; [done|]. by rewrite Hlb. }
  rewrite bloom_hash_run, ok_bind by done. set (b2 := set_blocks (pstFilter b1) _ b1). assert (wf b2) as Hw2 by (by apply wf_hashed).
  rewrite rounds_wf by done. change (key_positions b1 k) with (key_positions b k) in *.
  change (pdwHashPos b2) with (Live (key_positions b k)). change (pstFilter b2) with (Live (bits_before_add b f)). change (dwHashFuncs b2) with (dwHashFuncs b).
  pose proof (length_positions (dwFilterBits b) _ (dwSeed b) k (proj1 (wf_funcs _ Hw))) as Hlp. fold (key_positions b k) in Hlp.
  rewrite <- Hlp, Nat2Z.id. rewrite add_from_0, ok_bind; [done|done|]. apply positions_in_block; [done|by rewrite Hlb].
Qed.

(** ** The abstract filter: the keys whose bits are in it *)
Inductive op := Add (key : list Z) | Check (key : list Z) | Reset | RealReset.

Record keys := mk_keys {
  pending : bool;            (* a reset that the next addition carries out *)
  added : Z;                 (* the additions since the last reset *)
  present : list (list Z)
}.

Section spec.
Context (P : list Z → list Z) (maxItems : Z).

Definition covered (l : list (list Z)) (q : Z) : bool := existsb (λ k, bool_decide (q ∈ P k)) l.
Definition seen (l : list (list Z)) (key : list Z) : bool := forallb (covered l) (P key).

Definition abs_step (a : keys) (o : op) : keys * Z :=
  match o with
  | Add key =>
      let count := u32 (added a + 1) in
      (mk_keys false count (key :: (if pending a then [] else present a)), if count <=? maxItems then 0 else 1)
  | Check key => (a, if seen (present a) key then 0 else 1)
  | Reset => (mk_keys true 0 (present a), 0)
  | RealReset => (mk_keys false 0 [], 0)
  end.

Fixpoint abs_run (a : keys) (ops : list op) : keys * list Z :=
  match ops with
  | [] => (a, [])
  | o :: ops => let '(a, r) := abs_step a o in let '(a, rs) := abs_run a ops in (a, r :: rs)
  end.
End spec.

Definition step (b : option BaseBloomFilter) (o : op) : result (option BaseBloomFilter * Z) :=
  match o with
  | Add key => BloomFilter_Add b (Some key) (Z.of_nat (length key))
  | Check key => BloomFilter_Check b (Some key) (Z.of_nat (length key))
  | Reset => ResetBloomFilter b
  | RealReset => RealResetBloomFilter b
  end.

Fixpoint run (b : option BaseBloomFilter) (ops : list op) : result (option BaseBloomFilter * list Z) :=
  match ops with
  | [] => Ok (b, [])
  | o :: ops => '(b, r) ← step b o; '(b, rs) ← run b ops; Ok (b, r :: rs)
  end.

Definition op_ok (o : op) : Prop := match o with Add key | Check key => 0 < Z.of_nat (length key) ≤ INT_MAX | _ => True end.

(** The parameters of a filter, which no operation changes. *)
Definition same_params (b b' : BaseBloomFilter) : Prop := key_positions b' = key_positions b ∧ dwMaxItems b' = dwMaxItems b.

Record stands_for (b : BaseBloomFilter) (a : keys) : Prop := {
  sf_wf : wf b;
  sf_flag : cInitFlag b = if pending a then 0 else 1;
  sf_count : dwCount b = added a;
  sf_bits : ∃ f, pstFilter b = Live f ∧ ∀ q, in_block f q → fbit f q = covered (key_positions b) (present a) q
}.

Lemma forallb_ext_in {A} (f g : A → bool) (Q : A → Prop) l : Forall Q l → (∀ x, Q x → f x = g x) → forallb f l = forallb g l.
Proof. intros Hl Hfg. induction Hl as [|x l Hx _ IH]; [done|]. cbn [forallb]. by rewrite Hfg, IH. Qed.

Lemma fbit_zero n q : in_block (replicate n 0) q → fbit (replicate n 0) q = false.
Proof.
  intros Hq%lookup_byte. unfold fbit. apply lookup_replicate in Hq as [-> _]. apply Z.bits_0.
Qed.

Lemma covered_cons P k l q : covered P (k :: l) q = bool_decide (q ∈ P k) || covered P l q.
Proof. done. Qed.

Lemma step_add b a key : stands_for b a → key ≠ [] → ∃ b', step (Some b) (Add key) = Ok (Some b', snd (abs_step (key_positions b) (dwMaxItems b) a (Add key))) ∧
  stands_for b' (fst (abs_step (key_positions b) (dwMaxItems b) a (Add key))) ∧ same_params b b'.
Proof.
  intros [Hw Hfl Hc (f & Hf & Hb)] Hk. cbn [step abs_step fst snd]. rewrite (add_run b f key Hw Hf Hk), Hc. eexists. split; [done|].
  split; [|done]. destruct (wf_filter _ Hw) as (f' & Hf' & Hl & Hby). assert (f' = f) as -> by congruence.
  set (f0 := bits_before_add b f). assert (length f0 = length f) as Hl0 by apply before_add_length.
  assert (Forall is_byte f0) as Hb0 by (by apply before_add_bytes).
  destruct (set_bits_spec (key_positions b key) f0 Hb0) as (Hl' & Hby' & Hq'); [apply positions_in_block; [done|by rewrite Hl0]|].
  split; [|done|done|].
  - destruct Hw as [? ? ? ? ?]. split; [done|done|apply Z.mod_pos_bound; lia| |].
    + eexists. split; [done|]. split; [by rewrite Hl', Hl0|done].
    + eexists. split; [done|]. apply length_positions. cbn. lia.
  - eexists. split; [done|]. intros q Hq. assert (in_block f q ∧ in_block f0 q) as [Hqf Hq0] by (unfold in_block in *; rewrite Hl', Hl0 in Hq; by rewrite Hl0).
    cbn [present]. rewrite covered_cons, Hq' by done. f_equal. unfold f0, bits_before_add. rewrite Hfl. destruct (pending a); cbn [Z.eqb].
    + apply fbit_zero. unfold f0, bits_before_add in Hq0. by rewrite Hfl in Hq0; destruct (pending a).
    + by apply Hb.
Qed.

Lemma step_check b a key : stands_for b a → key ≠ [] → ∃ b', step (Some b) (Check key) = Ok (Some b', snd (abs_step (key_positions b) (dwMaxItems b) a (Check key))) ∧
  stands_for b' a ∧ same_params b b'.
Proof.
  intros [Hw Hfl Hc (f & Hf & Hb)] Hk. cbn [step abs_step fst snd]. rewrite (check_run b f key Hw Hf Hk).
  destruct (wf_filter _ Hw) as (f' & Hf' & Hl & _). assert (f' = f) as -> by congruence.
  eexists. split; [|split].
  - unfold seen. rewrite (forallb_ext_in _ _ _ _ (positions_in_block b f key Hw Hl) Hb). done.
  - rewrite <- Hf. split; [by apply wf_hashed|done|done|]. by exists f.
  - done.
Qed.

Lemma step_reset b a : stands_for b a → ∃ b', step (Some b) Reset = Ok (Some b', 0) ∧ stands_for b' (mk_keys true 0 (present a)) ∧ same_params b b'.
Proof.
  intros [Hw Hfl Hc (f & Hf & Hb)]. eexists. split; [done|]. split; [|done]. split; [|done|done|by exists f].
  destruct Hw as [? ? ? ? ?]. by split.
Qed.

Lemma step_real_reset b a : stands_for b a → ∃ b', step (Some b) RealReset = Ok (Some b', 0) ∧ stands_for b' (mk_keys false 0 []) ∧ same_params b b'.
Proof.
  intros [Hw Hfl Hc _]. cbn [step RealResetBloomFilter]. destruct (wf_filter _ Hw) as (f & Hf & Hl & Hby).
  rewrite Hf, memset0_run, ok_bind by done.
  eexists. split; [done|]. split; [|done]. split; [|done|done|eexists; split; [done|intros q Hq; by apply fbit_zero]].
  destruct Hw as [? ? ? ? ?]. split; [done|done|done| |done]. eexists. split; [done|]. split; [rewrite length_replicate; cbn; lia|apply replicate_0_bytes].
Qed.

Lemma step_refines b a o : stands_for b a → op_ok o → ∃ b', step (Some b) o = Ok (Some b', snd (abs_step (key_positions b) (dwMaxItems b) a o)) ∧
  stands_for b' (fst (abs_step (key_positions b) (dwMaxItems b) a o)) ∧ same_params b b'.
Proof.
  intros Hs Ho. destruct o as [key|key| |]; [apply step_add|apply step_check|by apply step_reset|by apply (step_real_reset b a)]; try done; intros ->; cbn in Ho; lia.
Qed.

Lemma run_refines ops : ∀ b a, stands_for b a → Forall op_ok ops → ∃ b',
  run (Some b) ops = Ok (Some b', snd (abs_run (key_positions b) (dwMaxItems b) a ops)) ∧
  stands_for b' (fst (abs_run (key_positions b) (dwMaxItems b) a ops)) ∧ same_params b b'.
Proof.
  induction ops as [|o ops IH]; intros b a Hs Hok; [by exists b|]. inversion_clear Hok as [|?? Ho Hok'].
  destruct (step_refines b a o Hs Ho) as (b1 & E1 & Hs1 & [Hp1 Hm1]). cbn [run abs_run]. rewrite E1, ok_bind.
  destruct (abs_step _ _ a o) as [a1 r1]. cbn [fst snd] in *. destruct (IH b1 a1 Hs1 Hok') as (b2 & E2 & Hs2 & [Hp2 Hm2]).
  rewrite E2, ok_bind. rewrite Hp1, Hm1 in *. destruct (abs_run _ _ a1 ops) as [a2 rs]. exists b2. split; [done|]. split; [done|]. split; congruence.
Qed.

(** ** A fresh filter *)
Lemma malloc_live junk ok n f : malloc junk ok n = Live f → f = replicate (Z.to_nat n) junk.
Proof. unfold malloc. destruct ok; [by intros [= <-]|done]. Qed.

Lemma param_range log n p m k : CalcBloomFilterParam log n p = Ok (m, k) → 0 ≤ m < 2 ^ 32 ∧ m mod 64 = 0 ∧ 0 ≤ k < 2 ^ 32.
Proof.
  assert (∀ d z, to_u32 d = Ok z → 0 ≤ z < 2 ^ 32) as Hu.
  { intros d z. unfold to_u32. destruct (_ || _) eqn:E; [done|]. intros [= <-]. apply orb_false_iff in E as [_ E].
    apply negb_false_iff, andb_true_iff in E as [E1%Z.leb_le E2%Z.ltb_lt]. done. }
  unfold CalcBloomFilterParam. intros (m0 & Hm0%Hu & E)%bind_Ok. apply bind_Ok in E as (k0 & Hk0%Hu & [= <- <-]).
  pose proof (Z.div_mod m0 64). pose proof (Z.mod_pos_bound m0 64). unfold u32. rewrite (Z.mod_small (m0 - _)) by lia.
  split; [apply Z.mod_pos_bound; lia|]. split; [|done]. set (x := m0 - m0 mod 64 + 64). assert (x mod 64 = 0) as Hx.
  { apply Z.mod_divide; [done|]. exists (m0 / 64 + 1). unfold x. lia. }
  apply Z.mod_divide; [done|]. apply Z.mod_divide in Hx as [y Hy]; [|done]. change (2 ^ 32) with (64 * 2 ^ 26). rewrite Hy, (Z.mul_comm y), Z.mul_mod_distr_l by done.
  exists (y mod 2 ^ 26). lia.
Qed.

Lemma init_stands log junk ok1 ok2 p seed n prob b : InitBloomFilter log junk ok1 ok2 p seed n prob = Ok (Some b, 0) →
  dwFilterBits b ≠ 0 → dwHashFuncs b < 2 ^ 31 → stands_for b (mk_keys false 0 []) ∧ dwMaxItems b = n.
Proof.
  unfold InitBloomFilter. destruct p as [b0|]; [|done]. destruct (_ || _); [done|]. intros E Hb Hk.
  apply bind_Ok in E as (? & _ & E). apply bind_Ok in E as (? & _ & E). apply bind_Ok in E as ([m k] & Ep & E).
  apply param_range in Ep as (Hm & Hdiv & Hk0). destruct (malloc junk ok1 _) as [| |f] eqn:Ef; [done|done|].
  destruct (malloc junk ok2 k) as [| |h] eqn:Eh; [done|done|]. apply malloc_live in Ef as ->. apply malloc_live in Eh as ->.
  assert (m = 8 * (m / 8)) as Hm8.
  { apply Z.div_exact; [done|]. apply Z.mod_divide; [done|]. apply Z.mod_divide in Hdiv as [y ->]; [|done]. exists (8 * y). lia. }
  rewrite memset0_run, ok_bind in E by (rewrite length_replicate; unfold BYTE_BITS; lia). injection E as <-. cbn in Hb, Hk. split; [|done].
  split; [|done|done|eexists; split; [done|intros q Hq; by apply fbit_zero]]. unfold BYTE_BITS in *. split; cbn [dwFilterBits dwHashFuncs dwCount dwFilterSize pstFilter pdwHashPos]; [unfold BYTE_BITS; lia|lia|lia| |].
  - eexists. split; [done|]. split; [rewrite !length_replicate; lia|apply replicate_0_bytes].
  - eexists. split; [done|]. rewrite length_replicate. lia.
Qed.

Lemma init_seed log junk ok1 ok2 p seed n prob b : InitBloomFilter log junk ok1 ok2 p seed n prob = Ok (Some b, 0) → dwSeed b = seed.
Proof.
  unfold InitBloomFilter. destruct p as [b0|]; [|done]. destruct (_ || _); [done|]. intros (? & _ & E)%bind_Ok.
  apply bind_Ok in E as (? & _ & E). apply bind_Ok in E as ([m k] & _ & E). destruct (malloc junk ok1 _); [done|done|].
  destruct (malloc junk ok2 k); [done|done|]. by apply bind_Ok in E as (? & _ & [= <-]).
Qed.

(** ** A key that is present is found *)
Lemma seen_present P l key : key ∈ l → seen P l key = true.
Proof.
  intros Hin. unfold seen. apply forallb_forall. intros q Hq. apply existsb_exists. exists key.
  split; [by apply list_elem_of_In|]. apply bool_decide_eq_true_2. by apply list_elem_of_In.
Qed.

Definition keeps (o : op) : bool := match o with Add _ | Check _ => true | Reset | RealReset => false end.

(** Without a reset a key stays. *)
Lemma kept_present P n ops key : ∀ a, pending a = false → key ∈ present a → forallb keeps ops = true →
  pending (fst (abs_run P n a ops)) = false ∧ key ∈ present (fst (abs_run P n a ops)).
Proof.
  induction ops as [|o ops IH]; intros a Hp Hin Hk; [done|]. cbn [forallb] in Hk. apply andb_true_iff in Hk as [Ho Hk]. cbn [abs_run].
  assert (pending (fst (abs_step P n a o)) = false ∧ key ∈ present (fst (abs_step P n a o))) as [Hp1 Hin1].
  { destruct o; try done. cbn. split; [done|]. rewrite Hp. by apply list_elem_of_further. }
  destruct (abs_step P n a o) as [a1 r]. cbn [fst] in *. specialize (IH a1 Hp1 Hin1 Hk). by destruct (abs_run P n a1 ops).
Qed.

Lemma abs_run_cons P n a o ops : abs_run P n a (o :: ops) =
  (fst (abs_run P n (fst (abs_step P n a o)) ops), snd (abs_step P n a o) :: snd (abs_run P n (fst (abs_step P n a o)) ops)).
Proof. cbn [abs_run]. destruct (abs_step P n a o) as [a1 r]. cbn [fst snd]. by destruct (abs_run P n a1 ops). Qed.

Lemma abs_run_app P n ops1 ops2 : ∀ a, abs_run P n a (ops1 ++ ops2) =
  (fst (abs_run P n (fst (abs_run P n a ops1)) ops2), snd (abs_run P n a ops1) ++ snd (abs_run P n (fst (abs_run P n a ops1)) ops2)).
Proof.
  induction ops1 as [|o ops1 IH]; intros a; cbn [app abs_run].
  - cbn. by destruct (abs_run P n a ops2).
  - destruct (abs_step P n a o) as [a1 r]. rewrite IH. destruct (abs_run P n a1 ops1) as [a2 rs]. done.
Qed.

(** C15. The filter refines the list of its keys: after a successful [InitBloomFilter] (with at
    least one bit and fewer than 2^31 hash functions), any sequence of additions, checks and
    resets is defined, an addition returns 1 when it exceeds the capacity, and a check returns
    0 exactly when all positions of the key are positions of keys present: those added since
    the last reset, and after a [ResetBloomFilter], which only marks the filter, those added
    before it until the next addition. *)
Theorem bloom_refines log junk ok1 ok2 p seed n prob b ops :
  InitBloomFilter log junk ok1 ok2 p seed n prob = Ok (Some b, 0) → dwFilterBits b ≠ 0 → dwHashFuncs b < 2 ^ 31 → Forall op_ok ops →
  ∃ b', run (Some b) ops = Ok (Some b', snd (abs_run (positions (dwFilterBits b) (dwHashFuncs b) seed) n (mk_keys false 0 []) ops)) ∧ wf b'.
Proof.
  intros Hi Hb Hk Hok. destruct (init_stands _ _ _ _ _ _ _ _ _ Hi Hb Hk) as [Hs Hn].
  destruct (run_refines ops b _ Hs Hok) as (b' & E & Hs' & _). exists b'. rewrite E, Hn. split; [|apply Hs'].
  unfold key_positions. by rewrite (init_seed _ _ _ _ _ _ _ _ _ Hi).
Qed.

(** C16. No false negatives: a key that was added, in any history of a filter made by
    [InitBloomFilter], and with no reset since, is reported as present. *)
Theorem no_false_negatives log junk ok1 ok2 p seed n prob b ops1 ops2 key :
  InitBloomFilter log junk ok1 ok2 p seed n prob = Ok (Some b, 0) → dwFilterBits b ≠ 0 → dwHashFuncs b < 2 ^ 31 →
  Forall op_ok ops1 → Forall op_ok ops2 → forallb keeps ops2 = true → op_ok (Add key) →
  ∃ b' rs, run (Some b) (ops1 ++ Add key :: ops2 ++ [Check key]) = Ok (Some b', rs ++ [0]).
Proof.
  intros Hi Hb Hk H1 H2 Hkeep Hkey. destruct (init_stands _ _ _ _ _ _ _ _ _ Hi Hb Hk) as [Hs _].
  destruct (run_refines (ops1 ++ Add key :: ops2 ++ [Check key]) b _ Hs) as (b' & E & _).
  { apply Forall_app. split; [done|]. constructor; [done|]. apply Forall_app. split; [done|]. by constructor. }
  exists b'. rewrite E, abs_run_app. cbn [snd]. set (P := key_positions b). set (a := fst (abs_run _ _ _ ops1)).
  rewrite abs_run_cons, abs_run_app. cbn [snd]. set (a1 := fst (abs_step _ _ _ (Add key))).
  destruct (kept_present P (dwMaxItems b) ops2 key a1) as [_ Hin]; [done|apply list_elem_of_here|done|].
  set (a2 := fst (abs_run _ _ a1 ops2)) in *. cbn [abs_run abs_step snd]. rewrite (seen_present _ _ _ Hin).
  eexists (_ ++ _ :: _). by rewrite <- app_assoc.
Qed.

(** ** Files *)
Lemma bits_div_small (s : bool) x : 0 ≤ x < 2 ^ 63 →
  let z := (if s then 2 ^ 63 else 0) + x in
  (2 ^ 63 <=? z) = s ∧ z / 2 ^ 52 mod 2048 = x / 2 ^ 52 ∧ z mod 2 ^ 52 = x mod 2 ^ 52.
Proof.
  intros Hx z. assert (z = x + (if s then 2048 else 0) * 2 ^ 52) as E by (unfold z; destruct s; lia). split; [|split].
  - unfold z. destruct s; [apply Z.leb_le|apply Z.leb_gt]; lia.
  - rewrite E, Z.div_add by done. assert (0 ≤ x / 2 ^ 52 < 2048) by (split; [apply Z.div_pos; lia|apply Z.div_lt_upper_bound; lia]).
    destruct s; [|rewrite Z.add_0_r; by apply Z.mod_small]. rewrite <- (Z.mul_1_l 2048) at 1. rewrite Z.mod_add by done. by apply Z.mod_small.
  - by rewrite E, Z.mod_add.
Qed.

Lemma digits_range m : 2 ^ (Z.pos (digits2_pos m) - 1) ≤ Z.pos m < 2 ^ Z.pos (digits2_pos m).
Proof. rewrite digits2_pos_log. replace (_ + 1 - 1) with (Z.log2 (Z.pos m)) by lia. apply Z.log2_spec. lia. Qed.

Lemma bits_of_parts s e f : 0 ≤ e < 2048 → 0 ≤ f < 2 ^ 52 → double_of_bits ((if s : bool then 2 ^ 63 else 0) + (e * 2 ^ 52 + f)) =
  if e =? 2047 then if f =? 0 then S754_infinity s else S754_nan
  else if e =? 0 then if f =? 0 then S754_zero s else S754_finite s (Z.to_pos f) (-1074)
  else S754_finite s (Z.to_pos (f + 2 ^ 52)) (e - 1075).
Proof.
  intros He Hf. destruct (bits_div_small s (e * 2 ^ 52 + f)) as (Es & Ee & Ef); [lia|]. unfold double_of_bits. cbn zeta in *.
  rewrite Es, Ee, Ef. rewrite Z.div_add_l, (Z.div_small f), Z.add_0_r by lia.
  rewrite (Z.add_comm (e * 2 ^ 52)), Z.mod_add, Z.mod_small by lia. done.
Qed.

Lemma double_bits_back d : valid_binary PREC EMAX d = true → isnan d = false → double_of_bits (double_bits d) = d ∧ 0 ≤ double_bits d < 2 ^ 64.
Proof.
  intros Hv Hn. destruct d as [s|s| |s m e]; try done.
  - pose proof (bits_of_parts s 0 0) as E. split; [|destruct s; done]. unfold double_bits. rewrite <- (Z.add_0_r (if s then _ else _)). by apply E.
  - pose proof (bits_of_parts s 2047 0) as E. split; [|destruct s; done]. unfold double_bits. rewrite <- (Z.add_0_r (2047 * _)). by apply E.
  - cbn [valid_binary] in Hv. unfold bounded, canonical_mantissa in Hv. apply andb_true_iff in Hv as [Hc He].
    apply Zeq_bool_eq in Hc. apply Z.leb_le in He. unfold fexp, emin, PREC, EMAX in *. pose proof (digits_range m) as Hm.
    set (dg := Z.pos (digits2_pos m)) in *. cbn [double_bits]. destruct (Z.ltb_spec (Z.pos m) (2 ^ 52)) as [Hs|Hs].
    + assert (dg ≤ 52) as Hdg. { apply Z.nlt_ge. intros H. pose proof (Z.pow_le_mono_r 2 52 (dg - 1)). lia. }
      assert (e = -1074) as -> by lia. split; [|destruct s; lia].
      rewrite <- (Z.add_0_l (Z.pos m)). change 0 with (0 * 2 ^ 52) at 2. rewrite bits_of_parts by lia. done.
    + assert (53 ≤ dg) as Hdg. { apply Z.nlt_ge. intros H. pose proof (Z.pow_le_mono_r 2 dg 52). lia. }
      assert (dg = 53) as Hd by lia. rewrite Hd in Hm. change (2 ^ 53) with (2 * 2 ^ 52) in Hm. split; [|destruct s; lia].
      rewrite bits_of_parts by lia. rewrite (proj2 (Z.eqb_neq (e + 1075) 2047)), (proj2 (Z.eqb_neq (e + 1075) 0)) by lia.
      f_equal; [|lia]. replace (Z.pos m - 2 ^ 52 + 2 ^ 52) with (Z.pos m) by lia. done.
Qed.

Lemma field_back n z : 0 ≤ z < 256 ^ Z.of_nat n → le_val (le_bytes n z) = z.
Proof. intros Hz. rewrite le_val_bytes. by apply Z.mod_small. Qed.

Lemma head_length b : length (file_head b) = 64%nat.
Proof. done. Qed.

(** C35. A filter that is saved and loaded again stands for the same keys: saving an initialised
    filter succeeds where there is room, and loading the file, into any structure whose
    pointers are not dangling and where memory suffices, gives a filter with all its
    parameters, count and bits.  A pending [ResetBloomFilter] is not saved: the keys it was to
    remove are present again, for good. *)
Theorem save_load_roundtrip b room : wf b → 0 ≤ dwSeed b < 2 ^ 32 → 0 ≤ dwMaxItems b < 2 ^ 32 →
  valid_binary PREC EMAX (dProbFalse b) = true → isnan (dProbFalse b) = false → sizeof_BloomFileHead + dwFilterSize b ≤ room →
  ∃ file, SaveBloomFilterToFile true room (Some b) true = Ok (0, Some file) ∧
    ∀ junk c, pstFilter c ≠ Freed → pdwHashPos c ≠ Freed → ∃ b',
      LoadBloomFilterFromFile junk true true (Some c) true (Some file) = Ok (Some b', 0) ∧
      dProbFalse b' = dProbFalse b ∧ dwMaxItems b' = dwMaxItems b ∧ dwSeed b' = dwSeed b ∧
      ∀ a, stands_for b a → stands_for b' (mk_keys false (added a) (present a)).
Proof.
  intros Hw Hseed Hmax Hv Hnan Hroom. destruct (wf_filter _ Hw) as (f & Hf & Hl & Hby). pose proof (wf_bits _ Hw) as [Hbits Hsize].
  pose proof (wf_funcs _ Hw) as Hk. pose proof (wf_count _ Hw) as Hcount. destruct (double_bits_back _ Hv Hnan) as [Hd Hdr].
  assert (0 ≤ dwFilterSize b < 2 ^ 32) as Hsz by (unfold BYTE_BITS in *; lia).
  exists (file_head b ++ f). unfold sizeof_BloomFileHead in *. split.
  { unfold SaveBloomFilterToFile, sizeof_BloomFileHead. cbn [negb]. rewrite (proj2 (Z.ltb_ge _ _)) by lia. rewrite Hf. cbn [deref].
    rewrite ok_bind, memread_Ok, ok_bind by lia. change (Z.to_nat 0) with 0%nat. rewrite drop_0, <- Hl, Nat2Z.id, firstn_all, take_ge by lia.
    by rewrite Z.eqb_refl. }
  intros junk c Hc1 Hc2. assert (∃ f0 h0, free (pstFilter c) = Ok f0 ∧ free (pdwHashPos c) = Ok h0) as (f0 & h0 & E1 & E2).
  { destruct (pstFilter c), (pdwHashPos c); try done; by eexists _, _. }
  unfold LoadBloomFilterFromFile. cbn [negb]. rewrite E1, ok_bind, E2, ok_bind. rewrite (proj2 (Z.ltb_ge _ _)) by (rewrite length_app, head_length; unfold sizeof_BloomFileHead; lia).
  change (head_field (file_head b ++ f) 24 4) with (le_val (le_bytes 4 (dwFilterBits b))). change (head_field (file_head b ++ f) 60 4) with (le_val (le_bytes 4 (dwFilterSize b))).
  change (head_field (file_head b ++ f) 0 4 =? MGAIC_CODE) with true. change (head_field (file_head b ++ f) 28 4) with (le_val (le_bytes 4 (dwHashFuncs b))).
  change (head_field (file_head b ++ f) 12 4) with (le_val (le_bytes 4 (dwMaxItems b))). change (head_field (file_head b ++ f) 16 8) with (le_val (le_bytes 8 (double_bits (dProbFalse b)))).
  change (head_field (file_head b ++ f) 4 4) with (le_val (le_bytes 4 (dwSeed b))). change (head_field (file_head b ++ f) 8 4) with (le_val (le_bytes 4 (dwCount b))).
  rewrite !field_back, Hd by (cbn; lia). assert (u32 (dwFilterSize b * BYTE_BITS) = dwFilterBits b) as ->.
  { unfold u32, BYTE_BITS in *. rewrite Z.mod_small; lia. }
  rewrite Z.eqb_refl. cbn [negb orb malloc]. change (Z.to_nat sizeof_BloomFileHead) with (length (file_head b)). rewrite drop_app_length.
  rewrite <- Hl, Nat2Z.id, firstn_all, Z.eqb_refl. rewrite memwrite_Ok, ok_bind by (rewrite ?length_replicate; lia). cbn [negb].
  change (Z.to_nat 0) with 0%nat. rewrite take_0, app_nil_l, drop_ge, app_nil_r by (rewrite length_replicate; lia).
  eexists. split; [done|]. split_and!; [done|done|done|]. intros a [_ _ Ha (f' & Hf' & Hq)]. assert (f' = f) as -> by congruence.
  split; [|done|done|by exists f]. split; cbn [dwFilterBits dwHashFuncs dwCount dwFilterSize pstFilter pdwHashPos]; [by rewrite Hl|done|done|by exists f|].
  eexists. split; [done|]. rewrite length_replicate. lia.
Qed.

(** A failed load leaves the blocks of the old filter freed but still pointed to: when the
    file cannot be opened, or is too short or no filter, freeing the structure afterwards frees
    them again. *)
Theorem failed_load_double_free junk ok1 ok2 c f file : pstFilter c = Live f → pdwHashPos c ≠ Freed →
  (∀ bytes, file = Some bytes → Z.of_nat (length bytes) < sizeof_BloomFileHead ∨ head_field bytes 0 4 ≠ MGAIC_CODE) →
  ∃ c' r, LoadBloomFilterFromFile junk ok1 ok2 (Some c) true file = Ok (Some c', r) ∧ r < 0 ∧ FreeBloomFilter (Some c') = Ub.
Proof.
  intros Hf Hh Hfile. assert (∃ h0, free (pdwHashPos c) = Ok h0) as (h0 & E0) by (destruct (pdwHashPos c); [by eexists|done|by eexists]).
  unfold LoadBloomFilterFromFile. cbn [negb]. rewrite Hf, E0. cbn [free]. rewrite !ok_bind.
  assert (∀ r, FreeBloomFilter (Some (set_blocks Freed h0 c)) = Ub ∧ Ok (Some (set_blocks Freed h0 c), r) = Ok (Some (set_blocks Freed h0 c), r)) as Hub by done.
  destruct file as [bytes|]; [|by eexists _, (-11)]. destruct (Z.ltb_spec (Z.of_nat (length bytes)) sizeof_BloomFileHead); [by eexists _, (-21)|].
  destruct (Hfile _ eq_refl) as [|Hm]; [lia|]. rewrite (proj2 (Z.eqb_neq _ _) Hm). by eexists _, (-50).
Qed.

(** ** Witnesses *)

(** A filter for three keys; -11.51293 is the logarithm of 0.00001. *)
Definition demo_log : double → double := λ _, dec_to_double true 1151293 (-5).
Definition demo_zero : BaseBloomFilter := mk_bloom 0 0 (Z_to_double 0) 0 0 0 0 0 Null Null.
Definition demo_filter : BaseBloomFilter :=
  mk_bloom 1 3 (dec_to_double false 1 (-5)) 128 30 0 0 16 (Live (replicate 16 0)) (Live (replicate 30 170)).
Definition demo_key : list Z := [104; 101; 108; 108; 111].

Lemma demo_init : InitBloomFilter demo_log 170 true true (Some demo_zero) 0 3 (dec_to_double false 1 (-5)) = Ok (Some demo_filter, 0).
Proof. vm_compute. reflexivity. Qed.

Lemma bloom_refines_witness :
  ∃ b', run (Some demo_filter) [Check demo_key; Add demo_key; Check demo_key; Reset; Check demo_key; Add [1]; Check demo_key] =
    Ok (Some b', snd (abs_run (positions 128 30 0) 3 (mk_keys false 0 [])
      [Check demo_key; Add demo_key; Check demo_key; Reset; Check demo_key; Add [1]; Check demo_key])) ∧ wf b'.
Proof.
  apply (bloom_refines demo_log 170 true true (Some demo_zero) 0 3 (dec_to_double false 1 (-5)) demo_filter).
  - apply demo_init.
  - done.
  - done.
  - by repeat constructor.
Defined.

(** What the run above returns: a reset key is found until the next addition. *)
Example demo_answers : snd (abs_run (positions 128 30 0) 3 (mk_keys false 0 [])
  [Check demo_key; Add demo_key; Check demo_key; Reset; Check demo_key; Add [1]; Check demo_key]) = [1; 0; 0; 0; 0; 0; 1].
Proof. vm_compute. reflexivity. Qed.

Lemma no_false_negatives_witness :
  ∃ b' rs, run (Some demo_filter) ([Add [7]; Reset] ++ Add demo_key :: [Add [1]; Check [2; 3]] ++ [Check demo_key]) = Ok (Some b', rs ++ [0]).
Proof.
  apply (no_false_negatives demo_log 170 true true (Some demo_zero) 0 3 (dec_to_double false 1 (-5)) demo_filter).
  - apply demo_init.
  - done.
  - done.
  - by repeat constructor.
  - by repeat constructor.
  - done.
  - done.
Defined.

Lemma demo_wf : wf demo_filter.
Proof.
  split; [done|done|done| |].
  - eexists. split; [done|]. split; [done|]. by repeat constructor.
  - eexists. by split.
Qed.

Lemma save_load_roundtrip_witness :
  ∃ file, SaveBloomFilterToFile true 80 (Some demo_filter) true = Ok (0, Some file) ∧
    ∀ junk c, pstFilter c ≠ Freed → pdwHashPos c ≠ Freed → ∃ b',
      LoadBloomFilterFromFile junk true true (Some c) true (Some file) = Ok (Some b', 0) ∧
      dProbFalse b' = dProbFalse demo_filter ∧ dwMaxItems b' = dwMaxItems demo_filter ∧ dwSeed b' = dwSeed demo_filter ∧
      ∀ a, stands_for demo_filter a → stands_for b' (mk_keys false (added a) (present a)).
Proof. apply (save_load_roundtrip demo_filter 80); [apply demo_wf|done|done|vm_compute; reflexivity|done|done]. Defined.

Lemma failed_load_double_free_witness :
  ∃ c' r, LoadBloomFilterFromFile 0 true true (Some demo_filter) true None = Ok (Some c', r) ∧ r < 0 ∧ FreeBloomFilter (Some c') = Ub.
Proof. apply (failed_load_double_free 0 true true demo_filter (replicate 16 0) None); done. Defined.
