(* ===== verification/CasQueue.v ===== *)
(** * CasQueue: src/cas_queue/queue_cas.h

    The lock-free queue as threads that take turns: one step is one access to shared memory,
    in the order of the code, and memory is sequentially consistent.  Nodes live in a heap;
    reading a node that was deleted, or through a null pointer, is undefined behaviour.  The
    allocator may return any address that is not in use, so addresses are reused. *)

From S2P Require Import Prelude.
#[local] Open Scope Z_scope.

Definition addr : Type := nat.
Definition cptr : Type := option addr.

Record qNode := mk_node { elem : Z; next_ : cptr }.

(** The shared memory: the nodes and the two members of the queue. *)
Record queue := mk_queue { heap : gmap addr qNode; head_ : cptr; tail_ : cptr }.

Definition set_heap (h : gmap addr qNode) (q : queue) : queue := mk_queue h (head_ q) (tail_ q).

Definition node_at (q : queue) (p : cptr) : result qNode :=
  match p with Some a => of_opt (heap q !! a) | None => Ub end.
Definition read_next (q : queue) (p : cptr) : result cptr := n ← node_at q p; Ok (next_ n).

(** [__sync_bool_compare_and_swap] on [p->_next], [_head] and [_tail]. *)
Definition cas_next (q : queue) (p old new : cptr) : result (queue * bool) :=
  n ← node_at q p;
  if bool_decide (next_ n = old) then
    match p with Some a => Ok (set_heap (<[a := mk_node (elem n) new]> (heap q)) q, true) | None => Ub end
  else Ok (q, false).
Definition cas_head (q : queue) (old new : cptr) : queue * bool :=
  if bool_decide (head_ q = old) then (mk_queue (heap q) new (tail_ q), true) else (q, false).
Definition cas_tail (q : queue) (old new : cptr) : queue * bool :=
  if bool_decide (tail_ q = old) then (mk_queue (heap q) (head_ q) new, true) else (q, false).

(** [delete p] *)
Definition delete_node (q : queue) (p : cptr) : result queue :=
  match p with
  | Some a => _ ← of_opt (heap q !! a); Ok (set_heap (delete a (heap q)) q)
  | None => Ok q
  end.

(** ** Calls, and the points between their accesses *)
Inductive call := Push (x : Z) | Pop.

Inductive pc :=
  | Idle
  | PushReadTail (new : cptr) | PushReadTail2 (new p : cptr)
  | PushTest (new p oldp : cptr) | PushNext (new p oldp : cptr) | PushLink (new p oldp : cptr)
  | PushMove (new oldp : cptr)
  | PopReadHead | PopTest (p : cptr) | PopNext (p : cptr) | PopMove (p n : cptr) | PopDelete (p : cptr).

(** What a call does to the queue, at the step where it does it. *)
Inductive event := Enq (x : Z) | Deq | Empty.

(** [push]; [a] is the address the allocator offers. *)
Definition push_step (q : queue) (a : addr) (x : Z) : result (queue * pc * list event) :=
  match heap q !! a with
  | Some _ => Ok (q, Idle, [])
  | None => Ok (set_heap (<[a := mk_node x None]> (heap q)) q, PushReadTail (Some a), [])
  end.

(** The event of linking the node [new]. *)
Definition enqueued (q : queue) (new : cptr) : list event :=
  match node_at q new with Ok n => [Enq (elem n)] | _ => [] end.

Definition step_pc (q : queue) (c : pc) : result (queue * pc * list event) :=
  match c with
  | Idle => Ok (q, Idle, [])
  | PushReadTail new => Ok (q, PushReadTail2 new (tail_ q), [])
  | PushReadTail2 new p => Ok (q, PushTest new p (tail_ q), [])
  | PushTest new p oldp =>
      n ← read_next q p;
      Ok (q, match n with Some _ => PushNext new p oldp | None => PushLink new p oldp end, [])
  | PushNext new p oldp => n ← read_next q p; Ok (q, PushTest new n oldp, [])
  | PushLink new p oldp =>
      '(q, ok) ← cas_next q p None new;
      Ok (if ok : bool then (q, PushMove new oldp, enqueued q new) else (q, PushTest new p oldp, []))
  | PushMove new oldp => let '(q, _) := cas_tail q oldp new in Ok (q, Idle, [])
  | PopReadHead => Ok (q, PopTest (head_ q), [])
  | PopTest p =>
      n ← read_next q p;
      Ok (match n with Some _ => (q, PopNext p, []) | None => (q, Idle, [Empty]) end)
  | PopNext p => n ← read_next q p; Ok (q, PopMove p n, [])
  | PopMove p n =>
      let '(q, ok) := cas_head q p n in
      Ok (if ok : bool then (q, PopDelete p, [Deq]) else (q, PopReadHead, []))
  | PopDelete p => q ← delete_node q p; Ok (q, Idle, [])
  end.

(** A thread: where it is, and the calls it will make. *)
Record thread := mk_thread { at_ : pc; calls : list call }.

Definition step_thread (q : queue) (a : addr) (t : thread) : result (queue * thread * list event) :=
  match at_ t, calls t with
  | Idle, Push x :: cs =>
      '(q, c, ev) ← push_step q a x;
      Ok (q, mk_thread c (match c with Idle => calls t | _ => cs end), ev)
  | Idle, Pop :: cs => Ok (q, mk_thread PopReadHead cs, [])
  | Idle, [] => Ok (q, t, [])
  | c, cs => '(q, c, ev) ← step_pc q c; Ok (q, mk_thread c cs, ev)
  end.

Record system := mk_system { shared : queue; threads : list thread }.

(** The threads take turns as the schedule says, with the addresses it offers; the events. *)
Definition sched : Type := list (nat * addr).

Fixpoint run (s : system) (w : sched) : result (system * list event) :=
  match w with
  | [] => Ok (s, [])
  | (i, a) :: w =>
      match threads s !! i with
      | None => run s w
      | Some t =>
          '(q, t, ev) ← step_thread (shared s) a t;
          '(s, evs) ← run (mk_system q (<[i := t]> (threads s))) w;
          Ok (s, ev ++ evs)
      end
  end.

(** ** Construction, destruction, printing *)
Definition Queue_new (a : addr) : queue := mk_queue {[ a := mk_node 0 None ]} (Some a) (Some a).

Fixpoint Queue_delete (fuel : nat) (q : queue) : result queue :=
  match fuel with
  | O => OutOfFuel
  | S fuel =>
      match head_ q with
      | None => Ok q
      | Some a =>
          n ← read_next q (head_ q);
          q ← delete_node (mk_queue (heap q) n (tail_ q)) (Some a);
          Queue_delete fuel q
      end
  end.

(** The elements [show] prints from the node [p] on. *)
Fixpoint show_loop (fuel : nat) (q : queue) (p : cptr) : result (list Z) :=
  match fuel with
  | O => OutOfFuel
  | S fuel =>
      match p with
      | None => Ok []
      | Some _ => n ← node_at q p; l ← show_loop fuel q (next_ n); Ok (elem n :: l)
      end
  end.

Definition show (fuel : nat) (q : queue) : result (list Z) :=
  n ← read_next q (head_ q); show_loop fuel q n.
