(* ===== verification/CasTheorems.v ===== *)
(** * CasTheorems: one producer and one consumer of the lock-free queue

    Between one thread that pushes and one that pops, the queue is a first-in first-out queue
    under every interleaving, and no access goes to a deleted node.  With a second thread on
    either side it is not safe, which two runs show. *)

From S2P Require Import Prelude CasQueue.
#[local] Open Scope Z_scope.

(** ** The abstract queue *)
Definition fifo_step (xs : list Z) (e : event) : option (list Z) :=
  match e, xs with
  | Enq x, _ => Some (xs ++ [x])
  | Deq, _ :: xs => Some xs
  | Empty, [] => Some []
  | _, _ => None
  end.

Fixpoint fifo (xs : list Z) (evs : list event) : option (list Z) :=
  match evs with [] => Some xs | e :: evs => xs ← fifo_step xs e; fifo xs evs end.

Definition enqs (evs : list event) : list Z := omap (λ e, match e with Enq x => Some x | _ => None end) evs.

Lemma fifo_app evs1 evs2 : ∀ xs, fifo xs (evs1 ++ evs2) = xs ← fifo xs evs1; fifo xs evs2.
Proof. induction evs1 as [|e evs1 IH]; intros xs; [done|]. cbn [app fifo]. destruct (fifo_step xs e) as [xs'|]; [apply IH|done]. Qed.

Lemma enqs_app evs1 evs2 : enqs (evs1 ++ evs2) = enqs evs1 ++ enqs evs2.
Proof. apply omap_app. Qed.

(** ** Chains of nodes *)
Fixpoint linked (h : gmap addr qNode) (l : list (addr * Z)) : Prop :=
  match l with
  | [] => True
  | (a, x) :: l => h !! a = Some (mk_node x (head l.*1)) ∧ linked h l
  end.

Lemma linked_lookup h h' l : linked h l → (∀ a, a ∈ l.*1 → h' !! a = h !! a) → linked h' l.
Proof.
  induction l as [|[a x] l IH]; [done|]. cbn [linked fmap list_fmap]. intros [Ha Hl] Heq. split.
  - rewrite Heq; [done|]. apply list_elem_of_here.
  - apply IH; [done|]. intros b Hb. apply Heq. by apply list_elem_of_further.
Qed.

Lemma linked_insert h a n l : linked h l → a ∉ l.*1 → linked (<[a := n]> h) l.
Proof. intros Hl Ha. eapply linked_lookup; [exact Hl|]. intros b Hb. apply lookup_insert_ne. by intros ->. Qed.

Lemma linked_delete h a l : linked h l → a ∉ l.*1 → linked (delete a h) l.
Proof. intros Hl Ha. eapply linked_lookup; [exact Hl|]. intros b Hb. apply lookup_delete_ne. by intros ->. Qed.

Lemma linked_last h l p x : linked h (l ++ [(p, x)]) → h !! p = Some (mk_node x None).
Proof. induction l as [|[a y] l IH]; cbn; [by intros [? _]|]. intros [_ Hl]. by apply IH. Qed.

(** Linking a node behind the last one. *)
Lemma linked_snoc h l p x a y : linked h (l ++ [(p, x)]) → NoDup (l ++ [(p, x)]).*1 → h !! a = Some (mk_node y None) → a ∉ (l ++ [(p, x)]).*1 →
  linked (<[p := mk_node x (Some a)]> h) (l ++ [(p, x); (a, y)]).
Proof.
  intros Hl Hnd Ha Hn. assert (a ≠ p) as Hap. { intros ->. apply Hn. rewrite fmap_app, elem_of_app. right. apply list_elem_of_here. }
  induction l as [|[b z] l IH]; cbn in *.
  - rewrite lookup_insert_eq, lookup_insert_ne by done. done.
  - destruct Hl as [Hb Hl]. apply NoDup_cons in Hnd as [Hbn Hnd]. rewrite not_elem_of_cons in Hn. destruct Hn as [Hab Hn].
    split; [|by apply IH]. rewrite lookup_insert_ne.
    + rewrite Hb. do 2 f_equal. by destruct l as [|[] ?].
    + intros ->. apply Hbn. rewrite fmap_app, elem_of_app. right. apply list_elem_of_here.
Qed.

(** ** The invariant *)

(** The nodes only the thread at [c] knows. *)
Definition owned (c : pc) : list addr :=
  match c with
  | PushReadTail (Some a) | PushReadTail2 (Some a) _ | PushTest (Some a) _ _ | PushNext (Some a) _ _ | PushLink (Some a) _ _ | PopDelete (Some a) => [a]
  | _ => []
  end.

Record shape (q : queue) (l : list (addr * Z)) (own : list addr) : Prop := {
  sh_nonempty : l ≠ [];
  sh_head : head_ q = head l.*1;
  sh_linked : linked (heap q) l;
  sh_nodup : NoDup (l.*1 ++ own);
  sh_dom : ∀ b, is_Some (heap q !! b) ↔ b ∈ l.*1 ++ own
}.

(** A fresh node that holds [x]. *)
Definition fresh_node (q : queue) (new : cptr) (x : Z) : Prop := ∃ a, new = Some a ∧ heap q !! a = Some (mk_node x None).

(** The producer, with the elements it has still to enqueue. *)
Definition producer (q : queue) (l : list (addr * Z)) (c : pc) (cs : list call) (todo : list Z) : Prop :=
  let end_ := last l.*1 in
  match c with
  | Idle => tail_ q = end_ ∧ cs = Push <$> todo
  | PushReadTail new => tail_ q = end_ ∧ ∃ x t, fresh_node q new x ∧ todo = x :: t ∧ cs = Push <$> t
  | PushReadTail2 new p => tail_ q = end_ ∧ p = end_ ∧ ∃ x t, fresh_node q new x ∧ todo = x :: t ∧ cs = Push <$> t
  | PushTest new p oldp | PushLink new p oldp => tail_ q = end_ ∧ p = end_ ∧ oldp = end_ ∧ ∃ x t, fresh_node q new x ∧ todo = x :: t ∧ cs = Push <$> t
  | PushMove new oldp => new = end_ ∧ tail_ q = oldp ∧ cs = Push <$> todo
  | _ => False
  end.

Definition consumer (l : list (addr * Z)) (c : pc) (cs : list call) : Prop :=
  (∃ n, cs = replicate n Pop) ∧
  match c with
  | Idle | PopReadHead => True
  | PopTest p => p = head l.*1
  | PopNext p => p = head l.*1 ∧ ∃ u v l', l = u :: v :: l'
  | PopMove p n => ∃ u v l', l = u :: v :: l' ∧ p = Some u.1 ∧ n = Some v.1
  | PopDelete p => ∃ a, p = Some a
  | _ => False
  end.

Definition contents (l : list (addr * Z)) : list Z := (tail l).*2.

Lemma node_read q l own a x l' : shape q l own → l = (a, x) :: l' → read_next q (Some a) = Ok (head l'.*1).
Proof. intros Hs ->. pose proof (sh_linked _ _ _ Hs) as [Ha _]. unfold read_next, node_at. by rewrite Ha. Qed.

Lemma last_addr_snoc (l : list (addr * Z)) a x : last (l ++ [(a, x)]).*1 = Some a.
Proof. rewrite fmap_app. apply last_snoc. Qed.

Lemma last_split (l : list (addr * Z)) : l ≠ [] → ∃ l0 p x, l = l0 ++ [(p, x)] ∧ last l.*1 = Some p.
Proof.
  intros Hl. destruct (exists_last Hl) as (l0 & [p x] & ->). exists l0, p, x. split; [done|]. apply last_addr_snoc.
Qed.

Lemma end_read q l own : shape q l own → ∃ p x, last l.*1 = Some p ∧ heap q !! p = Some (mk_node x None).
Proof.
  intros Hs. destruct (last_split l (sh_nonempty _ _ _ Hs)) as (l0 & p & x & -> & Hp). exists p, x. split; [done|].
  eapply linked_last, Hs.
Qed.

(** The steps a thread needs to make its calls when no step fails. *)
Definition steps_left (c : pc) : nat :=
  match c with
  | Idle => 0
  | PushReadTail _ | PopReadHead => 5 | PushReadTail2 _ _ | PopTest _ => 4 | PushTest _ _ _ | PushNext _ _ _ | PopNext _ => 3 | PushLink _ _ _ | PopMove _ _ => 2 | PushMove _ _ | PopDelete _ => 1
  end.
Definition work (t : thread) : nat := steps_left (at_ t) + 6 * length (calls t).

(** ** Steps of the producer *)
Lemma contents_snoc l u : l ≠ [] → contents (l ++ [u]) = contents l ++ [u.2].
Proof. destruct l as [|v l]; [done|]. intros _. unfold contents. cbn. by rewrite fmap_app. Qed.

Lemma shape_alloc q l own a x : shape q l own → heap q !! a = None → shape (set_heap (<[a := mk_node x None]> (heap q)) q) l (a :: own).
Proof.
  intros [Hne Hh Hl Hnd Hd] Ha. assert (a ∉ l.*1 ++ own) as Hn.
  { intros [n Hb]%Hd. congruence. }
  split; [done|done| | |].
  - apply linked_insert; [done|]. rewrite elem_of_app in Hn. naive_solver.
  - rewrite <- Permutation_middle. by apply NoDup_cons.
  - intros b. cbn [heap set_heap]. rewrite lookup_insert_is_Some, Hd, !elem_of_app, elem_of_cons. destruct (decide (a = b)); naive_solver.
Qed.

Lemma shape_link q l own a x p : shape q l (a :: own) → heap q !! a = Some (mk_node x None) → last l.*1 = Some p →
  ∃ y, heap q !! p = Some (mk_node y None) ∧ shape (set_heap (<[p := mk_node y (Some a)]> (heap q)) q) (l ++ [(a, x)]) own.
Proof.
  intros [Hne Hh Hl Hnd Hd] Ha Hp. destruct (last_split l Hne) as (l0 & p' & y & -> & Hp'). assert (p' = p) as -> by congruence.
  pose proof (linked_last _ _ _ _ Hl) as Hpn. exists y. split; [done|].
  apply NoDup_app in Hnd as (Hnd1 & Hdisj & Hnd2). apply NoDup_cons in Hnd2 as [Ha2 Hnd2].
  assert (a ∉ (l0 ++ [(p, y)]).*1) as Han. { intros Hin. apply (Hdisj _ Hin). apply list_elem_of_here. }
  split.
  - by destruct l0.
  - cbn [head_ set_heap]. rewrite Hh. by destruct l0.
  - rewrite <- app_assoc. by apply linked_snoc.
  - rewrite fmap_app, <- app_assoc. apply NoDup_app. split; [done|]. split.
    + intros b Hb. rewrite elem_of_app. intros [Hb'|Hb']; [apply list_elem_of_singleton in Hb' as ->; by apply Han|].
      apply (Hdisj b Hb). by apply list_elem_of_further.
    + by apply NoDup_cons.
  - intros b. cbn [heap set_heap]. rewrite lookup_insert_is_Some, fmap_app. specialize (Hd b). destruct (decide (p = b)) as [<-|Hpb].
    + split; [|by left]. intros _. apply elem_of_app. left. apply elem_of_app. left. apply list_elem_of_fmap. exists (p, y). split; [done|]. apply elem_of_app. right. apply list_elem_of_here.
    + rewrite Hd. cbn [fmap list_fmap fst]. rewrite !elem_of_app, elem_of_cons, list_elem_of_singleton. naive_solver.
Qed.

Lemma shape_end_owned q l a own : shape q l (a :: own) → last l.*1 ≠ Some a.
Proof.
  intros [_ _ _ Hnd _] Hl. apply NoDup_app in Hnd as (_ & Hdisj & _). apply (Hdisj a); [|apply list_elem_of_here].
  apply last_Some in Hl as [l' ->]. apply elem_of_app. right. apply list_elem_of_here.
Qed.

Definition extends (l l' : list (addr * Z)) : Prop := l' = l ∨ ∃ u, l' = l ++ [u].

Lemma producer_step q l a tp oc todo : shape q l (owned (at_ tp) ++ oc) → producer q l (at_ tp) (calls tp) todo →
  ∃ q' tp' ev l' todo', step_thread q a tp = Ok (q', tp', ev) ∧ shape q' l' (owned (at_ tp') ++ oc) ∧
    producer q' l' (at_ tp') (calls tp') todo' ∧ fifo (contents l) ev = Some (contents l') ∧ todo = enqs ev ++ todo' ∧ extends l l' ∧ (heap q !! a = None → (work tp' ≤ work tp - 1)%nat).
Proof.
  intros Hs Hp. destruct tp as [c cs]. destruct (end_read q l _ Hs) as (e & y & He & Hen). cbn [at_ calls] in *. unfold step_thread. cbn [at_ calls].
  destruct c as [|new|new p|new p oldp|new p oldp|new p oldp|new oldp| |p|p|p n|p]; cbn [producer] in Hp; try done.
  - destruct Hp as [Ht ->]. destruct todo as [|x t]; cbn [fmap list_fmap].
    { eexists q, _, [], l, []. split; [done|]. split; [done|]. split; [done|]. split; [done|]. split; [done|split; [by left|intros _; unfold work; cbn; rewrite ?length_fmap; cbn; lia]]. }
    unfold push_step. destruct (heap q !! a) as [n|] eqn:Ea; rewrite ok_bind.
    + eexists q, _, [], l, (x :: t). split; [done|]. split; [done|]. split; [done|]. split; [done|]. split; [done|split; [by left|by intros ?]].
    + eexists _, _, [], l, (x :: t). split; [done|]. split; [by apply shape_alloc|]. cbn. split; [|split; [done|split; [done|split; [by left|intros _; unfold work; cbn; rewrite ?length_fmap; cbn; lia]]]].
      split; [done|]. exists x, t. split; [|done]. exists a. split; [done|]. cbn. apply lookup_insert_eq.
  - destruct Hp as (Ht & x & t & Hn & -> & ->). cbn [step_pc]. rewrite ok_bind. eexists _, _, [], l, (x :: t). split; [done|].
    split; [done|]. split; [|split; [done|split; [done|split; [by left|intros _; unfold work; cbn; rewrite ?length_fmap; cbn; lia]]]]. cbn. split_and!; [done|done|by exists x, t].
  - destruct Hp as (Ht & -> & x & t & Hn & -> & ->). cbn [step_pc]. rewrite ok_bind. eexists _, _, [], l, (x :: t). split; [done|].
    split; [done|]. split; [|split; [done|split; [done|split; [by left|intros _; unfold work; cbn; rewrite ?length_fmap; cbn; lia]]]]. cbn. split_and!; [done|done|done|by exists x, t].
  - destruct Hp as (Ht & -> & -> & x & t & Hn & -> & ->). cbn [step_pc]. unfold read_next, node_at. rewrite He, Hen. cbn [of_opt]. rewrite !ok_bind. cbn [next_].
    eexists _, _, [], l, (x :: t). split; [done|]. split; [done|]. split; [|split; [done|split; [done|split; [by left|intros _; unfold work; cbn; rewrite ?length_fmap; cbn; lia]]]]. cbn. split_and!; [done|done|done|by exists x, t].
  - destruct Hp as (Ht & -> & -> & x & t & (b & -> & Hb) & -> & ->). cbn [step_pc owned app] in *. unfold cas_next, node_at. rewrite He, Hen. cbn [of_opt]. rewrite !ok_bind.
    destruct (shape_link q l oc b x e Hs Hb He) as (y' & Hy' & Hs'). assert (y' = y) as -> by congruence.
    cbn [next_ elem]. rewrite bool_decide_eq_true_2, !ok_bind by done. unfold enqueued, node_at. cbn [heap set_heap].
    assert (b ≠ e) as Hbe by (intros Hbe; apply (shape_end_owned q l b oc); congruence).
    rewrite lookup_insert_ne, Hb by done. cbn [of_opt elem].
    eexists _, _, [Enq x], (l ++ [(b, x)]), t. split; [done|]. split; [done|]. cbn [at_ calls producer fifo fifo_step].
    rewrite contents_snoc by apply Hs. split; [|split; [done|split; [done|split; [right; by eexists|intros _; unfold work; cbn; rewrite ?length_fmap; cbn; lia]]]].
    split; [by rewrite last_addr_snoc|]. split; [by rewrite <- He|done].
  - destruct Hp as (-> & Ht & ->). cbn [step_pc]. unfold cas_tail. rewrite bool_decide_eq_true_2, ok_bind by done.
    eexists _, _, [], l, todo. split; [done|]. split; [|split; [done|split; [done|split; [done|split; [by left|intros _; unfold work; cbn; rewrite ?length_fmap; cbn; lia]]]]]. destruct Hs; by split.
Qed.

(** ** Steps of the consumer *)
Lemma shape_unlink q u v l own : shape q (u :: v :: l) own → shape (mk_queue (heap q) (Some v.1) (tail_ q)) (v :: l) (own ++ [u.1]).
Proof.
  intros [Hne Hh Hl Hnd Hd]. destruct u as [a x]. destruct Hl as [Ha Hl]. split; [done|done|done| |].
  - rewrite app_assoc. rewrite (Permutation_app_comm _ [_]). exact Hnd.
  - intros b. cbn [heap]. rewrite Hd. cbn [fmap list_fmap fst app]. rewrite !elem_of_cons, !elem_of_app, list_elem_of_singleton. naive_solver.
Qed.

Lemma shape_delete q l own a : shape q l (own ++ [a]) → shape (set_heap (delete a (heap q)) q) l own.
Proof.
  intros [Hne Hh Hl Hnd Hd]. rewrite app_assoc in Hnd. apply NoDup_app in Hnd as (Hnd & Hdisj & _).
  assert (a ∉ l.*1 ++ own) as Ha by (intros Hin; apply (Hdisj a Hin), list_elem_of_here). split; [done|done| |done|].
  - apply linked_delete; [done|]. rewrite elem_of_app in Ha. naive_solver.
  - intros b. cbn [heap set_heap]. rewrite lookup_delete_is_Some, Hd, !elem_of_app, list_elem_of_singleton. rewrite elem_of_app in Ha. naive_solver.
Qed.

Definition shrinks (l l' : list (addr * Z)) : Prop := l' = l ∨ ∃ u, l = u :: l'.

Lemma consumer_step q l a tc op : shape q l (op ++ owned (at_ tc)) → consumer l (at_ tc) (calls tc) →
  ∃ q' tc' ev l', step_thread q a tc = Ok (q', tc', ev) ∧ shape q' l' (op ++ owned (at_ tc')) ∧ consumer l' (at_ tc') (calls tc') ∧
    fifo (contents l) ev = Some (contents l') ∧ enqs ev = [] ∧ shrinks l l' ∧ tail_ q' = tail_ q ∧ (work tc' ≤ work tc - 1)%nat ∧ ∀ b, b ∈ op → heap q' !! b = heap q !! b.
Proof.
  intros Hs [[n Hcs] Hc]. destruct tc as [c cs]. cbn [at_ calls] in *. subst cs. unfold step_thread. cbn [at_ calls].
  destruct l as [|[b x] l]; [by destruct (sh_nonempty _ _ _ Hs)|]. pose proof (node_read q _ _ b x l Hs eq_refl) as Hread.
  destruct c as [|new|new p|new p oldp|new p oldp|new p oldp|new oldp| |p|p|p m|p]; cbn [step_pc]; try done.
  - destruct n as [|n]; cbn [replicate].
    + eexists _, _, [], _. split; [done|]. split_and!; [done|split; [by exists 0%nat|done]|done|done|by left|done|unfold work; cbn; lia|done].
    + eexists _, _, [], _. split; [done|]. split_and!; [done|split; [by exists n|done]|done|done|by left|done|unfold work; cbn; lia|done].
  - rewrite ok_bind. eexists _, _, [], _. split; [done|]. split_and!; [done|split; [by exists n|apply Hs]|done|done|by left|done|unfold work; cbn; lia|done].
  - subst p. cbn [fmap list_fmap head fst]. rewrite Hread, !ok_bind. destruct l as [|[b' x'] l]; cbn [fmap list_fmap head fst].
    + eexists _, _, [Empty], _. split; [done|]. split_and!; [done|split; [by exists n|done]|done|done|by left|done|unfold work; cbn; lia|done].
    + eexists _, _, [], _. split; [done|]. split; [done|]. split; [split; [by exists n|split; [done|by eexists _, _, _]]|]. split_and!; [done|done|by left|done|unfold work; cbn; lia|done].
  - destruct Hc as (-> & u & v & l' & [= <- ->]). cbn [fmap list_fmap head fst]. rewrite Hread, !ok_bind. eexists _, _, [], _. split; [done|].
    split; [done|]. split; [split; [by exists n|by eexists _, _, _]|]. split_and!; [done|done|by left|done|unfold work; cbn; lia|done].
  - destruct Hc as (u & v & l' & [= <- ->] & -> & ->). unfold cas_head. rewrite (sh_head _ _ _ Hs). cbn [fmap list_fmap head fst].
    rewrite bool_decide_eq_true_2, ok_bind by done. cbn [owned] in Hs. rewrite app_nil_r in Hs.
    eexists _, _, [Deq], (v :: l'). split; [done|]. split; [exact (shape_unlink _ _ _ _ _ Hs)|]. split; [split; [by exists n|by eexists]|].
    split_and!; [done|done|right; by eexists|done|unfold work; cbn; lia|done].
  - destruct Hc as [d ->]. cbn [owned] in Hs. unfold delete_node.
    assert (d ∈ ((b, x) :: l).*1 ++ op ++ [d]) as Hin by (rewrite !elem_of_app, list_elem_of_singleton; naive_solver).
    apply (sh_dom _ _ _ Hs) in Hin as [nd Hnd]. rewrite Hnd. cbn [of_opt]. rewrite !ok_bind.
    eexists _, _, [], _. split; [done|]. cbn [at_ calls owned]. rewrite app_nil_r. split; [by apply shape_delete|].
    split; [split; [by exists n|done]|]. split_and!; [done|done|by left|done|unfold work; cbn; lia|]. intros e He. cbn. apply lookup_delete_ne. intros <-.
    destruct Hs as [_ _ _ Hdup _]. apply NoDup_app in Hdup as (_ & _ & Hdup). apply NoDup_app in Hdup as (_ & Hdisj & _). apply (Hdisj d He), list_elem_of_here.
Qed.

(** ** The two threads together *)
Lemma producer_kept q q' l l' c cs todo : producer q l c cs todo → shrinks l l' → l' ≠ [] → tail_ q' = tail_ q →
  (∀ b, b ∈ owned c → heap q' !! b = heap q !! b) → producer q' l' c cs todo.
Proof.
  intros Hp Hl Hne Ht Hh. assert (last l'.*1 = last l.*1) as He by (destruct Hl as [->|[u ->]]; [done|by destruct l']).
  assert (∀ new x, (∀ a, new = Some a → a ∈ owned c) → fresh_node q new x → fresh_node q' new x) as Hf.
  { intros new x Hown (a & -> & Ha). exists a. by rewrite Hh by (by apply Hown). }
  destruct c as [|[a|]|[a|] p|[a|] p oldp|[a|] p oldp|[a|] p oldp|new oldp| |p|p|p m|p]; cbn [producer owned] in *; try rewrite Ht, He; try done.
  all: decompose_Forall_hyps; repeat match goal with H : _ ∧ _ |- _ => destruct H | H : ∃ _, _ |- _ => destruct H end; split_and!; try done.
  all: eexists _, _; split; [apply Hf; [|done]|done]; intros ? [= <-]; apply list_elem_of_here.
Qed.

Lemma consumer_kept l l' c cs : consumer l c cs → extends l l' → l ≠ [] → consumer l' c cs.
Proof.
  intros [Hn Hc] [->|[u ->]] Hne; [done|]. split; [done|]. destruct l as [|v l]; [done|].
  destruct c; try done; cbn [app].
  - destruct Hc as (-> & a & b & l' & [= -> ->]). split; [done|]. by eexists _, _, _.
  - destruct Hc as (a & b & l' & [= -> ->] & -> & ->). by eexists _, _, _.
Qed.

(** The producer has [todo] to enqueue, the queue holds [xs]. *)
Definition spsc (s : system) (todo xs : list Z) : Prop :=
  ∃ tp tc l, threads s = [tp; tc] ∧ shape (shared s) l (owned (at_ tp) ++ owned (at_ tc)) ∧
    producer (shared s) l (at_ tp) (calls tp) todo ∧ consumer l (at_ tc) (calls tc) ∧ xs = contents l.

Lemma spsc_step s todo xs i a t : spsc s todo xs → threads s !! i = Some t →
  ∃ q t' ev todo' xs', step_thread (shared s) a t = Ok (q, t', ev) ∧ spsc (mk_system q (<[i := t']> (threads s))) todo' xs' ∧
    fifo xs ev = Some xs' ∧ todo = enqs ev ++ todo' ∧ (heap (shared s) !! a = None → (work t' ≤ work t - 1)%nat).
Proof.
  intros (tp & tc & l & Ht & Hs & Hp & Hc & ->) Hi. rewrite Ht in Hi |- *. destruct i as [|[|i]]; cbn in Hi; [injection Hi as <-|injection Hi as <-|done].
  - destruct (producer_step _ l a tp _ todo Hs Hp) as (q & t' & ev & l' & todo' & E & Hs' & Hp' & Hf & Htd & Hext & Hw).
    exists q, t', ev, todo', (contents l'). split; [done|]. split; [|auto]. exists t', tc, l'. split; [done|]. split; [done|]. split; [done|].
    split; [|done]. eapply consumer_kept; [done|done|apply Hs].
  - destruct (consumer_step _ l a tc _ Hs Hc) as (q & t' & ev & l' & E & Hs' & Hc' & Hf & Henq & Hshr & Htl & Hw & Hown).
    exists q, t', ev, todo, (contents l'). rewrite Henq. split; [done|]. split; [|auto]. exists tp, t', l'. split; [done|]. split; [done|].
    split; [|done]. eapply producer_kept; [done|done|apply Hs'|done|done].
Qed.

Lemma spsc_run w : ∀ s todo xs, spsc s todo xs → ∃ s' evs todo' xs', run s w = Ok (s', evs) ∧ spsc s' todo' xs' ∧
  fifo xs evs = Some xs' ∧ todo = enqs evs ++ todo'.
Proof.
  induction w as [|[i a] w IH]; intros s todo xs Hs; cbn [run]; [by exists s, [], todo, xs|].
  destruct (threads s !! i) as [t|] eqn:Ei; [|by apply IH].
  destruct (spsc_step s todo xs i a t Hs Ei) as (q & t' & ev & todo1 & xs1 & -> & Hs1 & Hf1 & -> & _). rewrite ok_bind.
  destruct (IH _ _ _ Hs1) as (s2 & evs & todo2 & xs2 & -> & Hs2 & Hf2 & ->). rewrite ok_bind. exists s2, (ev ++ evs), todo2, xs2.
  split; [done|]. split; [done|]. rewrite fifo_app, Hf1, enqs_app, app_assoc. done.
Qed.

Lemma spsc_new a xs n : spsc (mk_system (Queue_new a) [mk_thread Idle (Push <$> xs); mk_thread Idle (replicate n Pop)]) xs [].
Proof.
  exists (mk_thread Idle (Push <$> xs)), (mk_thread Idle (replicate n Pop)), [(a, 0)]. split; [done|]. split.
    - split; [done|done|split; [apply lookup_singleton_eq|done]|apply NoDup_singleton|]. intros b. cbn. rewrite list_elem_of_singleton.
      rewrite lookup_singleton_is_Some. naive_solver.
    - split; [done|]. split; [|done]. split; [by exists n|done].
Qed.

(** ** A queue at rest *)
Lemma show_loop_run q l : linked (heap q) l → ∀ fuel, (length l < fuel)%nat → show_loop fuel q (head l.*1) = Ok l.*2.
Proof.
  induction l as [|[a x] l IH]; intros Hl [|fuel] Hf; [by apply Nat.nlt_0_r in Hf|done|by apply Nat.nlt_0_r in Hf|]. destruct Hl as [Ha Hl].
  cbn [length] in Hf. cbn [show_loop fmap list_fmap head fst]. unfold node_at. rewrite Ha. cbn [of_opt]. rewrite ok_bind. cbn [next_ elem].
  rewrite (IH Hl fuel) by lia. done.
Qed.

Lemma show_run q l own : shape q l own → show (length l) q = Ok (contents l).
Proof.
  intros Hs. destruct l as [|[a x] l]; [by destruct (sh_nonempty _ _ _ Hs)|]. unfold show.
  rewrite (sh_head _ _ _ Hs). cbn [fmap list_fmap head fst]. rewrite (node_read q _ _ a x l Hs eq_refl), ok_bind. apply show_loop_run; [apply (sh_linked _ _ _ Hs)|cbn; lia].
Qed.

Lemma delete_run l : ∀ q, head_ q = head l.*1 → linked (heap q) l → NoDup l.*1 → (∀ b, is_Some (heap q !! b) ↔ b ∈ l.*1) →
  ∃ q', Queue_delete (S (length l)) q = Ok q' ∧ heap q' = ∅.
Proof.
  induction l as [|[a x] l IH]; intros q Hh Hl Hnd Hd; cbn [length Queue_delete]; rewrite Hh; cbn [fmap list_fmap head fst].
  - exists q. split; [done|]. apply map_eq. intros b. rewrite lookup_empty. destruct (heap q !! b) eqn:E; [|done].
    assert (b ∈ []) as Hb by (apply Hd; by rewrite E). by apply not_elem_of_nil in Hb.
  - destruct Hl as [Ha Hl]. apply NoDup_cons in Hnd as [Hn Hnd]. unfold read_next, node_at. rewrite Ha. cbn [of_opt]. rewrite !ok_bind. cbn [next_].
    unfold delete_node. cbn [heap]. rewrite Ha. cbn [of_opt]. rewrite !ok_bind. apply IH; [done|by apply linked_delete|done|].
    intros b. cbn [heap set_heap]. rewrite lookup_delete_is_Some, Hd. cbn [fmap list_fmap fst]. rewrite elem_of_cons. naive_solver.
Qed.

Definition at_rest (s : system) : Prop := Forall (λ t, at_ t = Idle) (threads s).

(** C13. One producer and one consumer: whatever the elements, the number of calls of [pop], the
    schedule and the addresses the allocator offers, no access is undefined, and the accesses
    that link and unlink nodes are the steps of a first-in first-out queue: the elements
    enqueued are, in order, a prefix of those pushed, each [pop] that succeeds takes the
    oldest one, and [pop] fails only on an empty queue.  Between calls the elements not
    enqueued are those of the calls of [push] still to come, [show] prints exactly what the
    abstract queue holds, and the destructor frees every node. *)
Theorem spsc_refines_fifo a xs n w :
  ∃ s evs held rest, run (mk_system (Queue_new a) [mk_thread Idle (Push <$> xs); mk_thread Idle (replicate n Pop)]) w = Ok (s, evs) ∧
    fifo [] evs = Some held ∧ xs = enqs evs ++ rest ∧
    (at_rest s → calls <$> head (threads s) = Some (Push <$> rest) ∧ show (S (length held)) (shared s) = Ok held ∧
      ∃ q, Queue_delete (S (S (length held))) (shared s) = Ok q ∧ heap q = ∅).
Proof.
  destruct (spsc_run w (mk_system (Queue_new a) [mk_thread Idle (Push <$> xs); mk_thread Idle (replicate n Pop)]) xs [])
    as (s & evs & rest & held & E & (tp & tc & l & Ht & Hs & Hp & _ & ->) & Hf & Hx).
  { apply spsc_new. }
  exists s, evs, (contents l), rest. split; [done|]. split; [done|]. split; [done|]. intros Hr. unfold at_rest in Hr. rewrite Ht in Hr.
  assert (at_ tp = Idle ∧ at_ tc = Idle) as [E1 E2] by (by decompose_Forall_hyps). rewrite E1 in Hp. rewrite E1, E2 in Hs. cbn [owned app] in Hs.
  split; [rewrite Ht; cbn; f_equal; apply Hp|].
  assert (S (length (contents l)) = length l) as El.
  { destruct l as [|u l]; [by destruct (sh_nonempty _ _ _ Hs)|]. unfold contents. cbn. by rewrite length_fmap. }
  rewrite El. split; [by eapply show_run|]. destruct Hs as [_ Hh Hl Hnd Hd]. rewrite app_nil_r in Hnd. apply delete_run; [done|done|done|].
  intros b. by rewrite Hd, app_nil_r.
Qed.

(** ** Progress *)
(** A turn of [t] that allocates the node of a push. *)
Definition allocates (t : thread) : Prop :=
  match at_ t, calls t with Idle, Push _ :: _ => True | _, _ => False end.

(** Every [new] of the run gets an address that is not in use at that moment, be it one that
    was deleted before. *)
Fixpoint offers_unused (s : system) (w : sched) : Prop :=
  match w with
  | [] => True
  | (i, a) :: w =>
      match threads s !! i with
      | None => offers_unused s w
      | Some t =>
          (allocates t → heap (shared s) !! a = None) ∧
          match step_thread (shared s) a t with
          | Ok (q, t, _) => offers_unused (mk_system q (<[i := t]> (threads s))) w
          | _ => True
          end
      end
  end.

(** The calls [t] has not finished, the one it is in among them. *)
Definition unfinished (t : thread) : nat := length (calls t) + match at_ t with Idle => 0 | _ => 1 end.

Definition turns_of (i : nat) (w : sched) : nat := length (filter (λ u, u.1 = i) w).

Lemma turns_of_cons i j a w : turns_of i ((j, a) :: w) = if decide (j = i) then S (turns_of i w) else turns_of i w.
Proof. unfold turns_of. cbn. by case_decide. Qed.

Lemma step_address q a b t : ¬ allocates t → step_thread q a t = step_thread q b t.
Proof. destruct t as [c cs]. unfold allocates, step_thread. cbn. intros Ht. destruct c; try done. by destruct cs as [|[x|] cs]. Qed.

(** A turn takes one off the work of its thread, unless it is an allocation that fails. *)
Lemma spsc_turn s todo xs i a t : spsc s todo xs → threads s !! i = Some t → (allocates t → heap (shared s) !! a = None) →
  ∃ q t' ev todo' xs', step_thread (shared s) a t = Ok (q, t', ev) ∧ spsc (mk_system q (<[i := t']> (threads s))) todo' xs' ∧
    todo = enqs ev ++ todo' ∧ (work t' ≤ work t - 1)%nat.
Proof.
  intros Hs Hi Ha. assert (∃ b, heap (shared s) !! b = None ∧ step_thread (shared s) a t = step_thread (shared s) b t) as (b & Hb & ->).
  { destruct (decide (heap (shared s) !! a = None)) as [E|E]; [by exists a|]. exists (fresh (dom (heap (shared s)))). split; [apply not_elem_of_dom, is_fresh|].
    apply step_address. by intros ?%Ha. }
  destruct (spsc_step s todo xs i b t Hs Hi) as (q & t' & ev & todo' & xs' & E & Hs' & _ & Htd & Hw).
  exists q, t', ev, todo', xs'. split; [done|]. split; [done|]. split; [done|]. by apply Hw.
Qed.

Lemma spsc_work w : ∀ s todo xs, spsc s todo xs → offers_unused s w →
  ∃ s' evs todo' xs', run s w = Ok (s', evs) ∧ spsc s' todo' xs' ∧ todo = enqs evs ++ todo' ∧
    ∀ i t, threads s !! i = Some t → ∃ t', threads s' !! i = Some t' ∧ (work t' ≤ work t - turns_of i w)%nat.
Proof.
  induction w as [|[i a] w IH]; intros s todo xs Hs Hu; cbn [run offers_unused] in *.
  { exists s, [], todo, xs. split; [done|]. split; [done|]. split; [done|]. intros j t Ht. exists t. split; [done|]. cbn. lia. }
  destruct (threads s !! i) as [t|] eqn:Ei.
  - destruct Hu as [Hfree Hu]. destruct (spsc_turn s todo xs i a t Hs Ei Hfree) as (q & t' & ev & todo1 & xs1 & E & Hs1 & -> & Hw). rewrite E in Hu |- *. rewrite ok_bind.
    destruct (IH _ todo1 xs1 Hs1 Hu) as (s' & evs & todo' & xs' & Er & Hs' & -> & Hall).
    rewrite Er, ok_bind. exists s', (ev ++ evs), todo', xs'. rewrite enqs_app, app_assoc. split; [done|]. split; [done|]. split; [done|]. intros j u Hj. cbn [threads] in Hall.
    destruct (decide (j = i)) as [->|Hji].
    + assert (u = t) as -> by congruence. destruct (Hall i t') as (t'' & Ht'' & Hle); [apply list_lookup_insert_eq; by eapply lookup_lt_Some|]. exists t''. split; [done|]. rewrite turns_of_cons, decide_True by done. lia.
    + destruct (Hall j u) as (u' & Hu' & Hle); [by rewrite list_lookup_insert_ne|]. exists u'. split; [done|]. by rewrite turns_of_cons, decide_False by congruence.
  - destruct (IH s todo xs Hs Hu) as (s' & evs & todo' & xs' & Er & Hs' & Htd & Hall). exists s', evs, todo', xs'. split; [done|]. split; [done|]. split; [done|]. intros j u Hj.
    destruct (Hall j u Hj) as (u' & Hu' & Hle). exists u'. split; [done|]. by rewrite turns_of_cons, decide_False by congruence.
Qed.

Lemma work_unfinished t t' k m : (work t' ≤ work t - m → 6 * k ≤ m → unfinished t' ≤ unfinished t - k)%nat.
Proof. destruct t as [c cs], t' as [c' cs']. unfold work, unfinished. cbn. destruct c, c'; cbn; lia. Qed.

Lemma unfinished_none t : unfinished t = 0%nat → at_ t = Idle ∧ calls t = [].
Proof. destruct t as [c cs]. unfold unfinished. cbn. destruct c, cs; cbn; intros; done || lia. Qed.

(** C14. Wait-freedom: with one producer and one consumer each call takes at most six steps of its
    own thread, whatever the other thread does, even if it never runs again.  From every state
    the two can reach, a thread that gets six turns for each of [k] calls, in any schedule, has
    finished [k] more of its calls (or all of them); with [k] = 1, the call it is in, or the
    next one, is over after six turns.  The allocator must offer an address that is not in use
    whenever a push allocates; it may offer one that was deleted before.  A producer that has
    finished its calls has enqueued all its elements. *)
Theorem calls_wait_free a xs n w1 w2 s evs :
  run (mk_system (Queue_new a) [mk_thread Idle (Push <$> xs); mk_thread Idle (replicate n Pop)]) w1 = Ok (s, evs) → offers_unused s w2 →
  ∃ s' evs', run s w2 = Ok (s', evs') ∧
    ∀ i t, threads s !! i = Some t → ∃ t', threads s' !! i = Some t' ∧
      (∀ k, (6 * k ≤ turns_of i w2)%nat → (unfinished t' ≤ unfinished t - k)%nat) ∧
      (i = 0%nat → unfinished t' = 0%nat → enqs evs ++ enqs evs' = xs).
Proof.
  intros E1 Hu. destruct (spsc_run w1 _ xs [] (spsc_new a xs n)) as (s1 & evs1 & todo1 & held1 & E1' & Hs1 & _ & Hx1). assert (s1 = s ∧ evs1 = evs) as [-> ->] by (split; congruence).
  destruct (spsc_work w2 s todo1 held1 Hs1 Hu) as (s' & evs' & todo & held & E & Hs & Hx & Hall). exists s', evs'. split; [done|]. intros i t Hi.
  destruct (Hall i t Hi) as (t' & Ht' & Hw). exists t'. split; [done|]. split; [intros k; by apply work_unfinished|]. intros -> Hz.
  destruct Hs as (tp & tc & l & Ets & _ & Hp & _). rewrite Ets in Ht'. injection Ht' as ->. destruct (unfinished_none t' Hz) as [Hat Hcs]. rewrite Hat, Hcs in Hp.
  destruct Hp as [_ Hp]. destruct todo; [|done]. rewrite app_nil_r in Hx. by rewrite Hx1, Hx.
Qed.

(** The producer enqueues an element, the consumer takes it and deletes the first node, and the
    next push gets that address again, while the consumer does not run. *)
Lemma calls_wait_free_witness : ∃ s evs s' evs' t',
  run (mk_system (Queue_new 0%nat) [mk_thread Idle (Push <$> [7; 8]); mk_thread Idle (replicate 2 Pop)])
    (replicate 6 (0%nat, 1%nat) ++ replicate 7 (1%nat, 1%nat)) = Ok (s, evs) ∧
  run s (replicate 6 (0%nat, 0%nat)) = Ok (s', evs') ∧ threads s' !! 0%nat = Some t' ∧ unfinished t' = 0%nat ∧ enqs evs ++ enqs evs' = [7; 8].
Proof.
  eexists _, _. edestruct (calls_wait_free 0%nat [7; 8] 2 (replicate 6 (0%nat, 1%nat) ++ replicate 7 (1%nat, 1%nat)) (replicate 6 (0%nat, 0%nat))) as (s' & evs' & E & Hall); [vm_compute; reflexivity|vm_compute; intuition reflexivity|].
  destruct (Hall 0%nat _ eq_refl) as (t' & Et & Hk & He). exists s', evs', t'. split; [vm_compute; reflexivity|]. split; [exact E|]. split; [exact Et|].
  assert (unfinished t' = 0%nat) as Hz by (specialize (Hk 1%nat); vm_compute in Hk |- *; lia). split; [exact Hz|]. by apply He.
Defined.

(** ** More threads *)
Definition turns (i n : nat) (a : addr) : sched := replicate n (i, a).

(** The run is defined up to the last turn, of thread [i], which is undefined. *)
Definition ends_ub (s : system) (w : sched) (i : nat) (a : addr) : Prop :=
  (∃ s' evs, run s w = Ok (s', evs)) ∧ run s (w ++ [(i, a)]) = Ub.

(** A thread that runs alone. *)
Fixpoint solo (k : nat) (q : queue) (a : addr) (t : thread) : result (queue * thread) :=
  match k with
  | O => Ok (q, t)
  | S k => '(q, t, _) ← step_thread q a t; solo k q a t
  end.

(** Running [w], the events left out. *)
Definition leads_to (s : system) (w : sched) (s' : system) : Prop := ∃ evs, run s w = Ok (s', evs).

Lemma leads_to_nil s : leads_to s [] s.
Proof. by exists []. Qed.

Lemma leads_to_step s i a t q t' ev w s' : threads s !! i = Some t → step_thread (shared s) a t = Ok (q, t', ev) →
  leads_to (mk_system q (<[i := t']> (threads s))) w s' → leads_to s ((i, a) :: w) s'.
Proof. intros Hi E [evs Er]. exists (ev ++ evs). cbn [run]. by rewrite Hi, E, ok_bind, Er, ok_bind. Qed.

Lemma leads_to_turns k i a : ∀ s t q t' w s', threads s !! i = Some t → solo k (shared s) a t = Ok (q, t') →
  leads_to (mk_system q (<[i := t']> (threads s))) w s' → leads_to s (turns i k a ++ w) s'.
Proof.
  induction k as [|k IH]; intros s t q t' w s' Hi E Hw; cbn [solo turns replicate app] in *.
  - injection E as <- <-. rewrite list_insert_id in Hw by done. by destruct s.
  - destruct (step_thread (shared s) a t) as [[[q1 t1] ev]| |] eqn:E1; [|done|done]. rewrite ok_bind in E.
    eapply leads_to_step; [done|done|]. eapply IH; [|exact E|cbn [threads]; by rewrite list_insert_insert_eq].
    apply list_lookup_insert_eq. by eapply lookup_lt_Some.
Qed.

Lemma run_app_ub w1 i a : ∀ s s' t, leads_to s w1 s' → threads s' !! i = Some t → step_thread (shared s') a t = Ub → ends_ub s w1 i a.
Proof.
  intros s s' t [evs E] Hi Hub. split; [by exists s', evs|]. revert s evs E. induction w1 as [|[j b] w1 IH]; intros s evs E; cbn [run app] in *.
  - injection E as -> <-. by rewrite Hi, Hub.
  - destruct (threads s !! j) as [u|]; [|by eapply IH]. destruct (step_thread (shared s) b u) as [[[q1 t1] ev]| |]; [|done|done].
    rewrite ok_bind in E |- *. destruct (run (mk_system q1 (<[j := t1]> (threads s))) w1) as [[s2 evs2]| |] eqn:E2; [|done|done].
    rewrite ok_bind in E. injection E as -> <-. by rewrite (IH _ _ E2).
Qed.

(** Evaluates the turns of a thread that runs alone as far as the heap is known. *)
Ltac run_alone := repeat (progress (cbn [solo at_ calls step_pc tail_ head_ heap set_heap next_ elem of_opt]; unfold step_thread, read_next, node_at; rewrite ?ok_bind)).

(** The turns of a [push] and a [pop] that nobody disturbs. *)
Lemma push_links q a x d y cs : tail_ q = Some d → heap q !! d = Some (mk_node y None) → heap q !! a = None →
  solo 5 q a (mk_thread Idle (Push x :: cs)) =
    Ok (set_heap (<[d := mk_node y (Some a)]> (<[a := mk_node x None]> (heap q))) q, mk_thread (PushMove (Some a) (Some d)) cs).
Proof.
  intros Ht Hd Ha. assert (a ≠ d) as Had by congruence.
  run_alone. unfold push_step. rewrite Ha. run_alone. rewrite Ht. run_alone. rewrite lookup_insert_ne, Hd by done. run_alone.
  unfold cas_next. run_alone. rewrite lookup_insert_ne, Hd by done. run_alone. by rewrite bool_decide_eq_true_2 by done.
Qed.

Lemma push_starts q b z cs : heap q !! b = None →
  solo 3 q b (mk_thread Idle (Push z :: cs)) = Ok (set_heap (<[b := mk_node z None]> (heap q)) q, mk_thread (PushTest (Some b) (tail_ q) (tail_ q)) cs).
Proof. intros Hb. run_alone. unfold push_step. rewrite Hb. by run_alone. Qed.

Lemma pop_starts q b cs : solo 2 q b (mk_thread Idle (Pop :: cs)) = Ok (q, mk_thread (PopTest (head_ q)) cs).
Proof. done. Qed.

Lemma pop_takes q b d y e cs : head_ q = Some d → heap q !! d = Some (mk_node y (Some e)) →
  solo 6 q b (mk_thread Idle (Pop :: cs)) = Ok (mk_queue (delete d (heap q)) (Some e) (tail_ q), mk_thread Idle cs).
Proof.
  intros Hh Hd. run_alone. rewrite Hh. run_alone. rewrite !Hd. run_alone. rewrite !Hd. run_alone. unfold cas_head. rewrite bool_decide_eq_true_2 by done. run_alone.
  unfold delete_node. run_alone. rewrite Hd. by run_alone.
Qed.

Lemma read_deleted q p b new oldp cs : heap q !! p = None →
  step_thread q b (mk_thread (PopTest (Some p)) cs) = Ub ∧ step_thread q b (mk_thread (PushTest new (Some p) oldp) cs) = Ub.
Proof. intros Hp. unfold step_thread. cbn [at_ calls step_pc]. unfold read_next, node_at. by rewrite Hp. Qed.

(** C37. A second consumer, or a second producer, makes the queue unsafe, whatever it holds: there
    are runs that are defined up to the next turn, in which a thread reads the link of a node
    another thread has deleted.  Two consumers [i] and [j], on any queue that is not empty: [i]
    reads the head, [j] pops and deletes it, [i] reads its link.  Two producers [i] and [j] and
    a consumer [k], on any empty queue, with any elements and any two unused addresses: [i]
    links its node and stops before it moves the tail, [k] deletes the node the tail still
    points to, [j] starts from there.  Other threads may be anywhere. *)
Theorem second_thread_use_after_free s l own : shape (shared s) l own →
  (∀ i j c ci cj, i ≠ j → threads s !! i = Some (mk_thread Idle (Pop :: ci)) → threads s !! j = Some (mk_thread Idle (Pop :: cj)) →
     contents l ≠ [] → ends_ub s (turns i 2 c ++ turns j 6 c) i c) ∧
  (∀ i j k a b c x z ci cj ck, NoDup [i; j; k] → NoDup [a; b] → heap (shared s) !! a = None → heap (shared s) !! b = None →
     threads s !! i = Some (mk_thread Idle (Push x :: ci)) → threads s !! j = Some (mk_thread Idle (Push z :: cj)) →
     threads s !! k = Some (mk_thread Idle (Pop :: ck)) → contents l = [] → tail_ (shared s) = last l.*1 →
     ends_ub s (turns i 5 a ++ turns k 6 c ++ turns j 3 b) j c).
Proof.
  intros Hs. destruct l as [|[d y] l]; [by destruct (sh_nonempty _ _ _ Hs)|]. pose proof (sh_head _ _ _ Hs) as Hh. pose proof (sh_linked _ _ _ Hs) as [Hd _]. cbn in Hh, Hd. split.
  - intros i j c ci cj Hij Hi Hj Hl. destruct l as [|[e y'] l]; [done|]. cbn in Hd. eapply run_app_ub.
    + eapply leads_to_turns; [done|apply pop_starts|]. rewrite <- (app_nil_r (turns j 6 c)).
      eapply leads_to_turns; [cbn [threads]; by rewrite list_lookup_insert_ne|eapply pop_takes; [exact Hh|exact Hd]|apply leads_to_nil].
    + cbn [threads]. rewrite list_lookup_insert_ne by done. apply list_lookup_insert_eq. by eapply lookup_lt_Some.
    + rewrite Hh. apply (read_deleted _ d c None None). apply lookup_delete_eq.
  - intros i j k a b c x z ci cj ck Hnd Hab Ha Hb Hi Hj Hk Hl Ht. destruct l as [|u l]; [|done]. cbn in Hd, Ht.
    assert (i ≠ j ∧ i ≠ k ∧ j ≠ k) as (Hij & Hik & Hjk) by (apply NoDup_cons in Hnd as [Hn1 Hnd]; apply NoDup_cons in Hnd as [Hn2 _]; set_solver).
    assert (a ≠ b) as Hne by (apply NoDup_cons in Hab as [Hn _]; set_solver). assert (a ≠ d ∧ b ≠ d) as [Had Hbd] by (split; congruence). eapply run_app_ub.
    + eapply leads_to_turns; [done|by apply push_links|]. cbn [threads shared].
      eapply leads_to_turns; [cbn [threads]; by rewrite list_lookup_insert_ne|eapply pop_takes; [exact Hh|apply lookup_insert_eq]|]. cbn [threads shared heap tail_ set_heap].
      rewrite <- (app_nil_r (turns j 3 b)). eapply leads_to_turns; [cbn [threads]; by rewrite !list_lookup_insert_ne|apply push_starts|apply leads_to_nil].
      cbn [shared heap]. by rewrite lookup_delete_ne, !lookup_insert_ne.
    + cbn [threads]. apply list_lookup_insert_eq. rewrite !length_insert. by eapply lookup_lt_Some.
    + cbn [shared tail_]. rewrite Ht. apply read_deleted. cbn [heap set_heap]. rewrite lookup_insert_ne by done. apply lookup_delete_eq.
Qed.

(** Two consumers on a queue with one element; two producers and a consumer on an empty one. *)
Lemma second_thread_use_after_free_witness :
  ends_ub (mk_system (mk_queue {[ 0%nat := mk_node 0 (Some 1%nat); 1%nat := mk_node 5 None ]} (Some 0%nat) (Some 1%nat)) [mk_thread Idle [Pop]; mk_thread Idle [Pop]])
    (turns 0 2 9%nat ++ turns 1 6 9%nat) 0 9%nat ∧
  ends_ub (mk_system (Queue_new 0%nat) [mk_thread Idle [Push 1]; mk_thread Idle [Push 2]; mk_thread Idle [Pop]])
    (turns 0 5 1%nat ++ turns 2 6 0%nat ++ turns 1 3 2%nat) 1 0%nat.
Proof.
  split.
  - eapply (second_thread_use_after_free _ [(0%nat, 0); (1%nat, 5)] []); [|done..]. split; [done|done|done|by apply (bool_decide_unpack _)|].
    intros b. cbn [shared heap fmap list_fmap fst app]. rewrite lookup_insert_is_Some, lookup_singleton_is_Some. set_solver.
  - eapply (second_thread_use_after_free _ [(0%nat, 0)] []); [|by apply (bool_decide_unpack _)|by apply (bool_decide_unpack _)|done..].
    destruct (spsc_new 0%nat [] 0) as (tp & tc & l & Ht & Hs & _). injection Ht as <- <-.
    split; [done|done|done|apply NoDup_singleton|]. intros b. cbn. rewrite lookup_singleton_is_Some. set_solver.
Defined.

(** The program of queue_cas_test.cpp: what it prints. *)
Definition alone (q : queue) (cs : list call) (w : sched) : result queue :=
  '(s, _) ← run (mk_system q [mk_thread Idle cs]) w; Ok (shared s).

Example test_prints :
  (q ← alone (Queue_new 0%nat) [Push 1; Push 2; Push 3] (turns 0 6 1%nat ++ turns 0 6 2%nat ++ turns 0 6 3%nat); l1 ← show 9 q;
   q ← alone q [Pop] (turns 0 6 0%nat); l2 ← show 9 q; q ← alone q [Pop] (turns 0 6 0%nat); l3 ← show 9 q;
   q ← alone q [Pop] (turns 0 6 0%nat); l4 ← show 9 q; q ← alone q [Push 1] (turns 0 6 0%nat); l5 ← show 9 q;
   Ok (l1, l2, l3, l4, l5)) = Ok ([1; 2; 3], [2; 3], [3], [], [1]).
Proof. vm_compute. reflexivity. Qed.
