(* ===== verification/Huffman.v ===== *)
(** * Huffman: src/HuffmanDecompression/HuffmanTree.hpp and FileCompress.hpp

    The priority queue is [std::priority_queue] with the order of [PtrNodeCompare]; which of
    several nodes of the same weight comes first is its own affair, so it is an interface,
    [PriorityQueue], with the laws [PriorityQueueOk].  A node has both children or none; the
    character of one with children is never set and never used, so it is not there.  Files
    are lists of bytes; [pad] is the padding of [TmpInfo], [junk] the bytes of variables that
    are never written. *)

From S2P Require Import Prelude.
#[local] Open Scope Z_scope.

(** ** HuffmanTree.hpp *)
Record CharInfo := mk_info { ch_ : Z; count_ : Z; code_ : list Z }.

Definition set_count (n : Z) (i : CharInfo) : CharInfo := mk_info (ch_ i) n (code_ i).
Definition set_code (c : list Z) (i : CharInfo) : CharInfo := mk_info (ch_ i) (count_ i) c.

Inductive HuffmanTreeNode :=
  | Leaf (weight : CharInfo)
  | Parent (count : Z) (pLeft pRight : HuffmanTreeNode).

(** [_weight._count] *)
Definition node_count (t : HuffmanTreeNode) : Z := match t with Leaf w => count_ w | Parent n _ _ => n end.

(** [std::priority_queue]: [top] is a node no other is above, that is of least count. *)
Class PriorityQueue (Q : Type) := {
  pq_empty : Q;
  pq_push : HuffmanTreeNode → Q → Q;
  pq_top : Q → option HuffmanTreeNode;
  pq_pop : Q → Q
}.

Class PriorityQueueOk (Q : Type) `{!PriorityQueue Q} := {
  pq_elems : Q → list HuffmanTreeNode;
  pq_empty_elems : pq_elems pq_empty = [];
  pq_push_elems x q : pq_elems (pq_push x q) ≡ₚ x :: pq_elems q;
  pq_top_none q : pq_top q = None ↔ pq_elems q = [];
  pq_top_elems q x : pq_top q = Some x → pq_elems q ≡ₚ x :: pq_elems (pq_pop q);
  pq_top_least q x y : pq_top q = Some x → y ∈ pq_elems q → node_count x ≤ node_count y
}.

Section huffman.
Context {Q : Type} `{!PriorityQueue Q} (pad : list Z) (junk : Z).

(** [CharInfo::operator+] *)
Definition add_count (a b : Z) : Z := u32 (a + b).

(** The nodes of the characters that occur: [operator!=] compares counts. *)
Fixpoint push_all (array : list CharInfo) (invalid : Z) (hp : Q) : Q :=
  match array with
  | [] => hp
  | i :: array => push_all array invalid (if count_ i =? invalid then hp else pq_push (Leaf i) hp)
  end.

(** [while (hp.size() > 1)]; the size is what is left of the queue after the top is taken. *)
Fixpoint merge_loop (fuel : nat) (hp : Q) : result Q :=
  match fuel with
  | O => OutOfFuel
  | S fuel =>
      match pq_top hp with
      | None => Ok hp
      | Some pLeft =>
          let hp1 := pq_pop hp in
          match pq_top hp1 with
          | None => Ok hp
          | Some pRight =>
              merge_loop fuel (pq_push (Parent (add_count (node_count pLeft) (node_count pRight)) pLeft pRight) (pq_pop hp1))
          end
      end
  end.

(** [_CreateHuffmantree]; [top] of an empty queue is undefined. *)
Definition CreateHuffmantree (array : list CharInfo) (invalid : Z) : result HuffmanTreeNode :=
  hp ← merge_loop (S (length array)) (push_all array invalid pq_empty);
  of_opt (pq_top hp).

(** ** FileCompress.hpp *)
Definition infos_new : list CharInfo := map (λ i, mk_info (Z.of_nat i) 0 []) (seq 0 256).

Definition info_at (infos : list CharInfo) (c : Z) : result CharInfo := of_opt (infos !! Z.to_nat c).

Fixpoint GenerateHuffmanCode (infos : list CharInfo) (root : HuffmanTreeNode) (code : list Z) : list CharInfo :=
  match root with
  | Leaf w => alter (set_code code) (Z.to_nat (ch_ w)) infos
  | Parent _ l r =>
      let infos := GenerateHuffmanCode infos l (code ++ [48]) in
      GenerateHuffmanCode infos r (code ++ [49])
  end.

Fixpoint count_loop (file : list Z) (infos : list CharInfo) : list CharInfo :=
  match file with
  | [] => infos
  | c :: file => count_loop file (alter (λ i, set_count (u32 (count_ i + 1)) i) (Z.to_nat c) infos)
  end.

(** One [TmpInfo] in the file. *)
Definition tmp_info (c count : Z) : list Z := [c] ++ pad ++ le_bytes 4 count.

Fixpoint write_infos (infos : list CharInfo) : list Z :=
  match infos with
  | [] => []
  | i :: infos => (if 0 <? count_ i then tmp_info (ch_ i) (count_ i) else []) ++ write_infos infos
  end.

(** The bits of one code into the byte under construction. *)
Fixpoint put_code (code : list Z) (value pos : Z) : result (Z * Z * list Z) :=
  match code with
  | [] => Ok (value, pos, [])
  | b :: code =>
      value ← (if b =? 49 then Ok (u8 (Z.lor value (Z.shiftl 1 pos)))
               else if b =? 48 then Ok (u8 (Z.land value (Z.lnot (Z.shiftl 1 pos)))) else Ub);
      if pos + 1 =? 8 then '(v, p, out) ← put_code code 0 0; Ok (v, p, value :: out)
      else put_code code value (pos + 1)
  end.

Fixpoint put_loop (file : list Z) (infos : list CharInfo) (value pos : Z) : result (list Z) :=
  match file with
  | [] => Ok (if 0 <? pos then [value] else [])
  | c :: file =>
      i ← info_at infos c;
      '(value, pos, out) ← put_code (code_ i) value pos;
      rest ← put_loop file infos value pos;
      Ok (out ++ rest)
  end.

(** [Compress]: the file it writes. *)
Definition Compress (infos : list CharInfo) (file : list Z) : result (list Z) :=
  let infos := count_loop file infos in
  tree ← CreateHuffmantree infos 0;
  let infos := GenerateHuffmanCode infos tree [] in
  data ← put_loop file infos 0 0;
  Ok (write_infos infos ++ tmp_info junk (2 ^ 32 - 1) ++ data).

(** [while (info._count != -1)]: the infos and the rest of the file.  A record that is cut
    short is read as indeterminate, and at the end of the file the loop does not end. *)
Fixpoint read_infos (fuel : nat) (file : list Z) (infos : list CharInfo) : result (list CharInfo * list Z) :=
  match fuel with
  | O => OutOfFuel
  | S fuel =>
      if bool_decide (length file < 8)%nat then Ub else
      c ← file.[0];
      let count := le_val (take 4 (drop 4 file)) in
      if count =? 2 ^ 32 - 1 then Ok (infos, drop 8 file)
      else read_infos fuel (drop 8 file) (<[Z.to_nat c := mk_info c count (match infos !! Z.to_nat c with Some i => code_ i | None => [] end)]> infos)
  end.

(** The bits [i] to 7 of a byte: where the walk stands, the characters missing and those
    written. *)
Fixpoint byte_loop (k : nat) (i ch : Z) (root cur : HuffmanTreeNode) (n : Z) : result (HuffmanTreeNode * Z * list Z) :=
  match k with
  | O => Ok (cur, n, [])
  | S k =>
      match cur with
      | Leaf _ => Ub
      | Parent _ l r =>
          match (if Z.land ch (Z.shiftl 1 i) =? 0 then l else r) with
          | Leaf w =>
              let n := u32 (n - 1) in
              if n =? 0 then Ok (root, n, [u8 (ch_ w)])
              else '(cur, n, out) ← byte_loop k (i + 1) ch root root n; Ok (cur, n, u8 (ch_ w) :: out)
          | cur => byte_loop k (i + 1) ch root cur n
          end
      end
  end.

(** [char ch = fgetc(fout)]: plain [char] is signed, and [EOF] is -1. *)
Definition EOF : Z := -1.
Definition s8 (c : Z) : Z := if c <? 128 then c else c - 256.
Definition fgetc (file : list Z) : Z * list Z := match file with [] => (EOF, []) | c :: file => (s8 c, file) end.

Fixpoint decode_loop (fuel : nat) (ch : Z) (file : list Z) (root cur : HuffmanTreeNode) (n : Z) : result (list Z) :=
  match fuel with
  | O => OutOfFuel
  | S fuel =>
      if negb (ch =? EOF) || (0 <? n) then
        '(cur, n, out) ← byte_loop 8 0 ch root cur n;
        let '(ch, file) := fgetc file in
        rest ← decode_loop fuel ch file root cur n;
        Ok (out ++ rest)
      else Ok []
  end.

(** [Uncompress]: the file it writes; at most [fuel] bytes of codes are read. *)
Definition Uncompress (fuel : nat) (infos : list CharInfo) (file : list Z) : result (list Z) :=
  '(infos, file) ← read_infos (S (length file)) file infos;
  root ← CreateHuffmantree infos 0;
  let n := node_count root in
  let '(ch, file) := fgetc file in
  decode_loop fuel ch file root root n.
End huffman.
