(* ===== verification/HuffmanTheorems.v ===== *)
(** * HuffmanTheorems: compressing and uncompressing a file gives it back

    The tree is rebuilt from the counts in the header; codes are the paths to its leaves, so
    that walking it along the concatenation of the codes yields the characters. *)

From S2P Require Import Prelude Huffman.
#[local] Open Scope Z_scope.

(** ** Trees *)
Fixpoint leaves (t : HuffmanTreeNode) : list CharInfo :=
  match t with Leaf w => [w] | Parent _ l r => leaves l ++ leaves r end.

Definition total (l : list CharInfo) : Z := foldr (λ i s, count_ i + s) 0 l.

(** The count at a node is that of its leaves. *)
Definition sums (t : HuffmanTreeNode) : Prop := node_count t = total (leaves t).

Lemma total_app l1 l2 : total (l1 ++ l2) = total l1 + total l2.
Proof. induction l1 as [|i l1 IH]; cbn [app total foldr]; [done|]. fold (total (l1 ++ l2)). fold (total l1). lia. Qed.

#[export] Instance total_perm : Proper ((≡ₚ) ==> (=)) total.
Proof. unfold total. induction 1; cbn; lia. Qed.

Lemma total_nonneg l : Forall (λ i, 0 ≤ count_ i) l → 0 ≤ total l.
Proof. induction 1; cbn; [done|]. fold (total l). lia. Qed.

Lemma leaves_nonempty t : leaves t ≠ [].
Proof. induction t as [w|w l IHl r IHr]; [done|]. cbn. by destruct (leaves l). Qed.

Section tree.
Context {Q : Type} `{PriorityQueueOk Q}.

Notation forest q := (flat_map leaves (pq_elems q)).

Lemma push_all_elems array : ∀ hp, pq_elems (push_all array 0 hp) ≡ₚ map Leaf (filter (λ i, count_ i ≠ 0) array) ++ pq_elems hp.
Proof.
  induction array as [|i array IH]; intros hp; [done|]. cbn [push_all]. rewrite IH, filter_cons. destruct (Z.eqb_spec (count_ i) 0) as [E|E].
  - rewrite decide_False by lia. done.
  - rewrite decide_True, pq_push_elems by done. cbn [map app]. by rewrite Permutation_middle.
Qed.

Lemma two_elems q x y : pq_top q = Some x → pq_top (pq_pop q) = Some y → pq_elems q ≡ₚ x :: y :: pq_elems (pq_pop (pq_pop q)).
Proof. intros Hx%pq_top_elems Hy%pq_top_elems. by rewrite Hx, Hy. Qed.

(** The counts are those of the leaves, and no sum of them overflows. *)
Definition summed (q : Q) : Prop := Forall sums (pq_elems q) ∧ Forall (λ i, 0 ≤ count_ i) (forest q) ∧ total (forest q) < 2 ^ 32.

Definition merge_top (q : Q) (x y : HuffmanTreeNode) : Q := pq_push (Parent (add_count (node_count x) (node_count y)) x y) (pq_pop (pq_pop q)).

Lemma merge_step q x y : summed q → pq_top q = Some x → pq_top (pq_pop q) = Some y →
  pq_elems (merge_top q x y) ≡ₚ Parent (node_count x + node_count y) x y :: pq_elems (pq_pop (pq_pop q)) ∧ forest (merge_top q x y) ≡ₚ forest q ∧ summed (merge_top q x y).
Proof.
  intros (Hs & Hpos & Ht) Ex Ey. pose proof (two_elems q x y Ex Ey) as Hp. unfold merge_top. pose proof (pq_push_elems (Parent (add_count (node_count x) (node_count y)) x y) (pq_pop (pq_pop q))) as Hp2.
  set (hp2 := pq_push _ _) in *. clearbody hp2. pose proof Hpos as Hpos'. rewrite Hp in Hs, Hpos'. apply Forall_cons in Hs as [Hx Hs]. apply Forall_cons in Hs as [Hy Hs].
  assert (add_count (node_count x) (node_count y) = node_count x + node_count y) as E.
  { pose proof Ht as Ht'. unfold add_count, u32. apply Z.mod_small. rewrite Hx, Hy. rewrite Hp in Ht'. cbn [flat_map] in Hpos', Ht'. rewrite !Forall_app in Hpos'. rewrite !total_app in Ht'.
    destruct Hpos' as (H1 & H2 & H3). apply total_nonneg in H1, H2, H3. lia. }
  rewrite E in Hp2. assert (forest hp2 ≡ₚ forest q) as Hfo. { rewrite Hp2, Hp. cbn [flat_map leaves]. by rewrite app_assoc. }
  split; [done|]. split; [done|]. split; [|split; [by rewrite Hfo|by rewrite (total_perm _ _ Hfo)]]. rewrite Hp2. constructor; [|done]. unfold sums. cbn [node_count leaves]. by rewrite Hx, Hy, total_app.
Qed.

(** The loop ends with one tree, of all the leaves. *)
Lemma huffman_merge_spec fuel : ∀ hp, (length (pq_elems hp) < fuel)%nat → pq_elems hp ≠ [] → summed hp →
  ∃ hp' t, merge_loop fuel hp = Ok hp' ∧ pq_top hp' = Some t ∧ leaves t ≡ₚ forest hp ∧ sums t.
Proof.
  induction fuel as [|fuel IH]; intros hp Hf Hne Hs; [by apply Nat.nlt_0_r in Hf|]. cbn [merge_loop].
  destruct (pq_top hp) as [x|] eqn:Ex; [|by apply pq_top_none in Ex]. destruct (pq_top (pq_pop hp)) as [y|] eqn:Ey.
  - destruct (merge_step hp x y Hs Ex Ey) as (Hp2 & Hfo & Hs2). fold (merge_top hp x y). destruct (IH (merge_top hp x y)) as (hp' & t & E & Et & Hl & Hst); [|intros E; rewrite E in Hp2; by apply Permutation_nil_cons in Hp2|done|].
    + rewrite Hp2. rewrite (two_elems hp x y Ex Ey) in Hf. cbn in Hf |- *. lia.
    + exists hp', t. split; [done|]. split; [done|]. split; [by rewrite Hl|done].
  - apply pq_top_none in Ey. pose proof (pq_top_elems _ _ Ex) as Hp. rewrite Ey in Hp. exists hp, x. split; [done|]. split; [done|].
    split; [by rewrite Hp; cbn; rewrite app_nil_r|]. destruct Hs as [Hs _]. rewrite Hp in Hs. by apply Forall_cons in Hs as [Hs _].
Qed.

(** The queue the loop starts with. *)
Lemma push_all_summed array : Forall (λ i, 0 ≤ count_ i) array → total array < 2 ^ 32 →
  pq_elems (push_all array 0 pq_empty) ≡ₚ map Leaf (filter (λ i, count_ i ≠ 0) array) ∧ forest (push_all array 0 pq_empty) ≡ₚ filter (λ i, count_ i ≠ 0) array ∧ summed (push_all array 0 pq_empty).
Proof.
  intros Hpos Ht. set (l := filter _ array) in *. pose proof (push_all_elems array pq_empty) as Hp. fold l in Hp. rewrite pq_empty_elems, app_nil_r in Hp.
  assert (forest (push_all array 0 pq_empty) ≡ₚ l) as Hfo. { rewrite Hp. clear. induction l as [|i l IH]; [done|]. cbn. by rewrite IH. }
  assert (total l = total array) as Htl.
  { unfold l. clear. induction array as [|i array IH]; [done|]. rewrite filter_cons. destruct (decide _) as [E|E]; unfold total in *; cbn; lia. }
  split; [done|]. split; [done|]. split; [|split].
  - rewrite Hp. apply Forall_map. apply Forall_true. intros i. unfold sums. cbn. lia.
  - rewrite Hfo. apply Forall_forall. intros i [_ Hi]%list_elem_of_filter. by eapply Forall_forall in Hpos.
  - rewrite (total_perm _ _ Hfo). lia.
Qed.

Lemma create_spec array : Forall (λ i, 0 ≤ count_ i) array → total array < 2 ^ 32 → filter (λ i, count_ i ≠ 0) array ≠ [] →
  ∃ t, CreateHuffmantree array 0 = Ok t ∧ leaves t ≡ₚ filter (λ i, count_ i ≠ 0) array ∧ node_count t = total (filter (λ i, count_ i ≠ 0) array).
Proof.
  intros Hpos Ht Hne. destruct (push_all_summed array Hpos Ht) as (Hp & Hfo & Hs). set (l := filter _ array) in *.
  destruct (huffman_merge_spec (S (length array)) (push_all array 0 pq_empty)) as (hp' & t & E & Et & Hl & Hst); [|intros E; rewrite E in Hp; apply Permutation_nil_l in Hp; by destruct l|done|].
  - rewrite Hp, length_map. pose proof (length_filter (λ i, count_ i ≠ 0) array) as Hlf. fold l in Hlf. lia.
  - exists t. unfold CreateHuffmantree. rewrite E, ok_bind, Et. split; [done|]. rewrite Hfo in Hl. split; [done|]. rewrite Hst. by apply total_perm.
Qed.
End tree.

(** ** Codes are paths *)
Fixpoint paths (t : HuffmanTreeNode) : list (CharInfo * list Z) :=
  match t with
  | Leaf w => [(w, [])]
  | Parent _ l r => map (prod_map id (cons 48)) (paths l) ++ map (prod_map id (cons 49)) (paths r)
  end.

Lemma map_paths c (us : list (CharInfo * list Z)) : (map (prod_map id (cons c)) us).*1 = us.*1.
Proof. induction us as [|u us IH]; [done|]. cbn. f_equal. exact IH. Qed.

Lemma paths_leaves t : (paths t).*1 = leaves t.
Proof. induction t as [w|w l IHl r IHr]; [done|]. cbn [paths leaves]. by rewrite fmap_app, !map_paths, IHl, IHr. Qed.

Definition idx (w : CharInfo) : nat := Z.to_nat (ch_ w).

Lemma elem_of_paths t w p : (w, p) ∈ paths t → match t with
  | Leaf w' => w = w' ∧ p = []
  | Parent _ l r => ∃ p', (p = 48 :: p' ∧ (w, p') ∈ paths l) ∨ (p = 49 :: p' ∧ (w, p') ∈ paths r)
  end.
Proof.
  destruct t as [w'|w' l r]; cbn [paths]; [by intros [= -> ->]%list_elem_of_singleton|].
  intros [([w1 p1] & [= -> ->] & Hin)%list_elem_of_fmap|([w1 p1] & [= -> ->] & Hin)%list_elem_of_fmap]%elem_of_app; exists p1; [by left|by right].
Qed.

Lemma generate_spec t : ∀ infos code, NoDup (idx <$> leaves t) →
  (∀ k, k ∉ idx <$> leaves t → GenerateHuffmanCode infos t code !! k = infos !! k) ∧
  (∀ w p, (w, p) ∈ paths t → GenerateHuffmanCode infos t code !! idx w = set_code (code ++ p) <$> infos !! idx w).
Proof.
  induction t as [w|w l IHl r IHr]; intros infos code Hnd; cbn [leaves GenerateHuffmanCode] in *.
  - split.
    + intros k Hk. apply list_lookup_alter_ne. intros <-. by apply Hk, list_elem_of_here.
    + intros w' p [-> ->]%elem_of_paths. rewrite app_nil_r. apply list_lookup_alter_eq.
  - rewrite fmap_app in Hnd. apply NoDup_app in Hnd as (Hl & Hd & Hr). destruct (IHl infos (code ++ [48]) Hl) as [Hl1 Hl2].
    destruct (IHr (GenerateHuffmanCode infos l (code ++ [48])) (code ++ [49]) Hr) as [Hr1 Hr2]. split.
    + intros k. rewrite fmap_app, not_elem_of_app. intros [Hk1 Hk2]. by rewrite Hr1, Hl1.
    + assert (∀ t w' p', (w', p') ∈ paths t → idx w' ∈ idx <$> leaves t) as Hin.
      { intros t w' p' Hp. rewrite <- paths_leaves. apply list_elem_of_fmap. exists w'. split; [done|]. apply list_elem_of_fmap. by exists (w', p'). }
      intros w' p [p' [[-> Hp]|[-> Hp]]]%elem_of_paths.
      * rewrite Hr1, (Hl2 _ _ Hp), <- app_assoc; [done|]. by apply Hd, (Hin _ _ _ Hp).
      * rewrite (Hr2 _ _ Hp), <- app_assoc, Hl1; [done|]. intros Hx. apply (Hd _ Hx), (Hin _ _ _ Hp).
Qed.

(** A tree with two entries is no leaf: no code is empty. *)
Lemma not_leaf_path t v1 v2 p q w code : (v1, p) ∈ paths t → (v2, q) ∈ paths t → v1 ≠ v2 →
  (w, code) ∈ paths t → code ≠ [].
Proof.
  destruct t as [w'|n l r]; intros Ha%elem_of_paths Hb%elem_of_paths Hab Hw%elem_of_paths; [by destruct Ha as [? _], Hb as [? _]; congruence|].
  by destruct Hw as [p' [[-> _]|[-> _]]].
Qed.

(** Codes consist of the characters 0 and 1. *)
Definition bin (b : Z) : Prop := b = 48 ∨ b = 49.

Lemma paths_bin t : ∀ w p, (w, p) ∈ paths t → Forall bin p.
Proof.
  induction t as [w|w l IHl r IHr]; intros w' p Hp%elem_of_paths; [by destruct Hp as [_ ->]|].
  destruct Hp as [p' [[-> Hp]|[-> Hp]]]; constructor; [by left|by eapply IHl|by right|by eapply IHr].
Qed.

(** ** Bits of the compressed data *)
Definition bit (b : Z) : bool := b =? 49.

(** The first [n] bits of [v], least significant first. *)
Fixpoint low (n : nat) (v : Z) : list bool :=
  match n with O => [] | S n => low n v ++ [Z.testbit v (Z.of_nat n)] end.

Definition stream (data : list Z) : list bool := flat_map (low 8) data.

Lemma length_low n v : length (low n v) = n.
Proof. induction n as [|n IH]; [done|]. cbn [low]. rewrite length_app, IH. simpl. lia. Qed.

Lemma length_stream data : length (stream data) = (8 * length data)%nat.
Proof. induction data as [|c data IH]; [done|]. cbn [stream flat_map]. rewrite length_app, length_low. fold (stream data). rewrite IH. simpl. lia. Qed.

Lemma low_ext n v v' : (∀ i, 0 ≤ i < Z.of_nat n → Z.testbit v i = Z.testbit v' i) → low n v = low n v'.
Proof.
  induction n as [|n IH]; intros Hv; [done|]. cbn [low]. f_equal; [apply IH; intros i Hi; apply Hv; lia|]. f_equal. apply Hv. lia.
Qed.

(** Adding a bit above those of [v]. *)
Lemma low_bit n v (b : bool) : 0 ≤ v < 2 ^ Z.of_nat n →
  let v' := if b then Z.lor v (Z.shiftl 1 (Z.of_nat n)) else Z.land v (Z.lnot (Z.shiftl 1 (Z.of_nat n))) in
  low (S n) v' = low n v ++ [b] ∧ 0 ≤ v' < 2 ^ Z.of_nat (S n).
Proof.
  intros Hv v'. assert (∀ i, Z.of_nat n ≤ i → Z.testbit v i = false) as Hhi.
  { intros i Hi. destruct (Z.eq_dec v 0) as [->|Hv0]; [apply Z.bits_0|]. apply Z.bits_above_log2; [lia|]. apply Z.log2_lt_pow2; [lia|].
    eapply Z.lt_le_trans; [apply Hv|]. apply Z.pow_le_mono_r; lia. }
  assert (∀ i, 0 ≤ i → Z.testbit v' i = if Z.eqb i (Z.of_nat n) then b else Z.testbit v i) as Hb.
  { intros i Hi. unfold v'. rewrite Z.shiftl_1_l. destruct b.
    - rewrite Z.lor_spec. destruct (Z.eqb_spec i (Z.of_nat n)) as [->|Hne]; [by rewrite Z.pow2_bits_true, orb_true_r by lia|by rewrite Z.pow2_bits_false, orb_false_r by lia].
    - rewrite Z.land_spec, Z.lnot_spec by done. destruct (Z.eqb_spec i (Z.of_nat n)) as [->|Hne]; [by rewrite Z.pow2_bits_true, andb_false_r by lia|by rewrite Z.pow2_bits_false, andb_true_r by lia]. }
  split.
  - cbn [low]. f_equal; [apply low_ext; intros i Hi; rewrite Hb by lia; by rewrite (proj2 (Z.eqb_neq _ _)) by lia|]. by rewrite Hb, Z.eqb_refl by lia.
  - assert (v' = (if b then 2 ^ Z.of_nat n else 0) + v) as ->.
    { apply Z.bits_inj'. intros i Hi. rewrite Hb by done. destruct b; [|by destruct (Z.eqb_spec i (Z.of_nat n)) as [->|]; [rewrite Hhi by lia|]].
      rewrite Z.add_nocarry_lxor, Z.lxor_spec.
      - destruct (Z.eqb_spec i (Z.of_nat n)) as [->|Hne]; [by rewrite Z.pow2_bits_true, Hhi by lia|by rewrite Z.pow2_bits_false by lia].
      - apply Z.bits_inj'. intros j Hj. rewrite Z.land_spec, Z.bits_0. destruct (decide (j = Z.of_nat n)) as [->|Hne]; [by rewrite Hhi, andb_false_r by lia|by rewrite Z.pow2_bits_false by lia]. }
    rewrite Nat2Z.inj_succ, Z.pow_succ_r by lia. destruct b; lia.
Qed.

Lemma put_code_spec code : Forall bin code → ∀ n value, (n < 8)%nat → 0 ≤ value < 2 ^ Z.of_nat n →
  ∃ v m out, put_code code value (Z.of_nat n) = Ok (v, Z.of_nat m, out) ∧ (m < 8)%nat ∧ 0 ≤ v < 2 ^ Z.of_nat m ∧ Forall is_byte out ∧
    stream out ++ low m v = low n value ++ map bit code.
Proof.
  induction 1 as [|b code Hb Hc IH]; intros n value Hn Hv; cbn [put_code].
  { exists value, n, []. cbn [map stream flat_map app]. rewrite app_nil_r. split_and!; [done|done|lia|lia|constructor|done]. }
  pose proof (low_bit n value (bit b) Hv) as Hl. set (v' := if bit b then _ else _) in Hl. destruct Hl as [Hlow Hv'].
  assert (0 ≤ v' < 256) as Hbyte. { pose proof (Z.pow_le_mono_r 2 (Z.of_nat (S n)) 8). change (2 ^ 8) with 256 in *. lia. }
  assert ((if b =? 49 then Ok (u8 (Z.lor value (Z.shiftl 1 (Z.of_nat n)))) else if b =? 48 then Ok (u8 (Z.land value (Z.lnot (Z.shiftl 1 (Z.of_nat n))))) else Ub) = Ok v') as ->.
  { unfold v', bit in *. unfold u8. destruct Hb as [-> | ->]; cbn [Z.eqb Pos.eqb] in *; by rewrite Z.mod_small. }
  rewrite ok_bind. destruct (Z.eqb_spec (Z.of_nat n + 1) 8) as [E|E].
  - assert (n = 7%nat) as -> by lia. destruct (IH 0%nat 0) as (v & m & out & Ep & Hm & Hvm & Hout & Hs); [lia|done|]. change (Z.of_nat 0) with 0 in Ep.
    rewrite Ep, ok_bind. exists v, m, (v' :: out). split; [done|]. split; [done|]. split; [done|]. split; [by constructor|].
    cbn [stream flat_map map]. fold (stream out). rewrite <- app_assoc, Hs, Hlow. change (low 0 0) with (@nil bool). by rewrite app_nil_l, <- app_assoc.
  - destruct (IH (S n) v') as (v & m & out & Ep & Hm & Hvm & Hout & Hs); [lia|done|]. replace (Z.of_nat (S n)) with (Z.of_nat n + 1) in Ep by lia.
    exists v, m, out. split_and!; [done|done|lia|lia|done|]. rewrite Hs, Hlow. cbn [map]. by rewrite <- app_assoc.
Qed.

(** The data of a file whose characters have the codes [code]. *)
Lemma put_loop_spec (code : Z → list Z) file infos : Forall (λ c, Forall bin (code c) ∧ ∃ i, infos !! Z.to_nat c = Some i ∧ code_ i = code c) file →
  ∀ n value, (n < 8)%nat → 0 ≤ value < 2 ^ Z.of_nat n →
  ∃ out fill, put_loop file infos value (Z.of_nat n) = Ok out ∧ Forall is_byte out ∧ (length fill < 8)%nat ∧
    stream out = low n value ++ map bit (flat_map code file) ++ fill.
Proof.
  induction 1 as [|c file (Hb & i & Hi & Hcode) Hf IH]; intros n value Hn Hv; cbn [put_loop].
  - destruct (Z.ltb_spec 0 (Z.of_nat n)) as [Hp|Hp].
    + exists [value], (map (λ i, Z.testbit value (Z.of_nat i)) (seq n (8 - n))). rewrite length_map, length_seq. split; [done|].
      split; [constructor; [|done]; unfold is_byte; pose proof (Z.pow_le_mono_r 2 (Z.of_nat n) 8); change (2 ^ 8) with 256 in *; lia|]. split; [lia|].
      cbn [flat_map map app stream]. rewrite app_nil_r. clear -Hn. do 8 (destruct n as [|n]; [done|]). lia.
    + exists [], []. assert (n = 0%nat) as -> by lia. cbn. split_and!; [done|done|lia|done].
  - unfold info_at. rewrite Hi. cbn [of_opt]. rewrite ok_bind, Hcode. destruct (put_code_spec (code c) Hb n value Hn Hv) as (v & m & out & -> & Hm & Hvm & Hout & Hs).
    rewrite ok_bind. destruct (IH m v Hm Hvm) as (rest & fill & -> & Hrest & Hfill & Hsr). rewrite ok_bind. exists (out ++ rest), fill.
    split; [done|]. split; [by apply Forall_app|]. split; [done|]. unfold stream in *. rewrite flat_map_app, Hsr. cbn [flat_map]. rewrite map_app.
    rewrite !app_assoc. f_equal. rewrite Hs. by rewrite <- !app_assoc.
Qed.

(** ** Walking the tree *)
Definition child (b : bool) (l r : HuffmanTreeNode) : HuffmanTreeNode := if b then r else l.

(** From the node [cur] the bits lead through the characters [out], the last of which takes
    the last bit. *)
Inductive decodes (root : HuffmanTreeNode) : HuffmanTreeNode → list bool → list Z → Prop :=
  | decodes_end : decodes root root [] []
  | decodes_leaf w0 l r b bits w out : child b l r = Leaf w → decodes root root bits out →
      decodes root (Parent w0 l r) (b :: bits) (u8 (ch_ w) :: out)
  | decodes_down w0 l r b bits w1 l1 r1 out : child b l r = Parent w1 l1 r1 → decodes root (Parent w1 l1 r1) bits out → out ≠ [] →
      decodes root (Parent w0 l r) (b :: bits) out.

Lemma decodes_path root t : ∀ w p bits out, (w, p) ∈ paths t → p ≠ [] → decodes root root bits out →
  decodes root t (map bit p ++ bits) (u8 (ch_ w) :: out).
Proof.
  assert (∀ w0 l r b w p bits out, (w, p) ∈ paths (child b l r) →
    (∀ bits out, p ≠ [] → decodes root root bits out → decodes root (child b l r) (map bit p ++ bits) (u8 (ch_ w) :: out)) →
    decodes root root bits out → decodes root (Parent w0 l r) (b :: map bit p ++ bits) (u8 (ch_ w) :: out)) as Hstep.
  { intros w0 l r b w p bits out Hp Hc Hd. destruct (child b l r) as [w'|w1 l1 r1] eqn:E.
    - apply elem_of_paths in Hp as [<- ->]. by eapply decodes_leaf.
    - eapply decodes_down; [exact E| |done]. apply Hc; [|done]. apply elem_of_paths in Hp as [p' [[-> _]|[-> _]]]; done. }
  induction t as [w'|w' l IHl r IHr]; intros w p bits out Hp Hne Hd.
  - by apply elem_of_paths in Hp as [_ ->].
  - apply elem_of_paths in Hp as [p' [[-> Hp]|[-> Hp]]]; cbn [map app].
    + change (bit 48) with false. apply Hstep; [done|intros; by apply IHl|done].
    + change (bit 49) with true. apply Hstep; [done|intros; by apply IHr|done].
Qed.

(** The concatenated codes of a file decode to it. *)
Lemma decodes_codes root (code : Z → list Z) file : Forall (λ c, ∃ w, (w, code c) ∈ paths root ∧ code c ≠ [] ∧ u8 (ch_ w) = c) file →
  decodes root root (map bit (flat_map code file)) file.
Proof.
  induction 1 as [|c file (w & Hp & Hne & Hc) _ IH]; [constructor|]. cbn [flat_map]. rewrite map_app. rewrite <- Hc at 2. by apply decodes_path.
Qed.

(** The bits [i], ..., 7 of a byte. *)
Definition bits_from (i : nat) (k : nat) (c : Z) : list bool := map (λ j, Z.testbit c (Z.of_nat j)) (seq i k).

Lemma low_bits c : low 8 c = bits_from 0 8 c.
Proof. done. Qed.

Lemma s8_bit c i : is_byte c → 0 ≤ i < 8 → Z.testbit (s8 c) i = Z.testbit c i.
Proof.
  intros Hc Hi. unfold s8. destruct (c <? 128); [done|]. rewrite <- (Z.mod_pow2_bits_low (c - 256) 8), <- (Z.mod_pow2_bits_low c 8) by lia.
  f_equal. change (2 ^ 8) with 256. rewrite <- (Z.mod_add (c - 256) 1) by done. f_equal. lia.
Qed.

(** One byte: either the file is complete, or the walk goes on in the next byte. *)
Lemma byte_loop_run root c rest fill k : is_byte c → ∀ i cur bits out, (i + k = 8)%nat → decodes root cur bits out → out ≠ [] → Z.of_nat (length out) < 2 ^ 32 →
  bits_from i k c ++ rest = bits ++ fill →
  ∃ cur' o o', byte_loop k (Z.of_nat i) (s8 c) root cur (Z.of_nat (length out)) = Ok (cur', Z.of_nat (length o'), o) ∧ out = o ++ o' ∧
    ((o' = [] ∧ (length bits ≤ k)%nat) ∨ (o' ≠ [] ∧ ∃ bits', decodes root cur' bits' o' ∧ rest = bits' ++ fill)).
Proof.
  intros Hc. induction k as [|k IH]; intros i cur bits out Hik Hd Hne Hlt Hbits; cbn [byte_loop].
  { exists cur, [], out. split; [done|]. split; [done|]. right. split; [done|]. by exists bits. }
  assert (∀ l r, (if Z.land (s8 c) (Z.shiftl 1 (Z.of_nat i)) =? 0 then l else r) = child (Z.testbit c (Z.of_nat i)) l r) as Hchild.
  { intros l r. rewrite land_bit, s8_bit by (done || lia). unfold child. by destruct (Z.testbit c (Z.of_nat i)). }
  cbn [bits_from seq map app] in Hbits. inversion Hd as [|w0 l r b bits1 w out1 Hw Hd1|w0 l r b bits1 w1 l1 r1 out1 Hw Hd1 Hne1]; subst; [done|..].
  - cbn [app] in Hbits. injection Hbits as Hb Hbits. rewrite Hchild, Hb, Hw. cbn [length] in Hlt |- *.
    unfold u32. rewrite Z.mod_small by lia. replace (Z.of_nat (S (length out1)) - 1) with (Z.of_nat (length out1)) by lia.
    destruct out1 as [|x out1].
    + cbn [length]. cbn. eexists root, [_], []. split; [done|]. split; [done|]. left. split; [done|]. inversion Hd1; subst; [simpl; lia|done].
    + rewrite (proj2 (Z.eqb_neq _ _)) by (simpl; lia).
      destruct (IH (S i) root bits1 (x :: out1)) as (cur' & o & o' & E & Ho & Hcase); [lia|done|done|lia|exact Hbits|].
      replace (Z.of_nat i + 1) with (Z.of_nat (S i)) by lia. rewrite E, ok_bind. eexists cur', (_ :: o), o'. split; [done|]. split; [cbn; by rewrite Ho|].
      destruct Hcase as [[-> Hl]|Hcase]; [left; split; [done|simpl; lia]|by right].
  - cbn [app] in Hbits. injection Hbits as Hb Hbits. rewrite Hchild, Hb, Hw.
    destruct (IH (S i) (Parent w1 l1 r1) bits1 out) as (cur' & o & o' & E & Ho & Hcase); [lia|done|done|lia|exact Hbits|].
    replace (Z.of_nat i + 1) with (Z.of_nat (S i)) by lia. exists cur', o, o'. split; [exact E|]. split; [done|].
    destruct Hcase as [[-> Hl]|Hcase]; [left; split; [done|simpl; lia]|by right].
Qed.

Lemma decode_loop_run root data : Forall is_byte data → ∀ c fuel cur bits out fill, is_byte c → (length data + 1 < fuel)%nat →
  decodes root cur bits out → out ≠ [] → Z.of_nat (length out) < 2 ^ 32 → (length fill < 8)%nat → stream (c :: data) = bits ++ fill →
  decode_loop fuel (s8 c) data root cur (Z.of_nat (length out)) = Ok out.
Proof.
  induction data as [|c' data IH]; intros Hdata c fuel cur bits out fill Hc Hfuel Hd Hne Hlt Hfill Hbits.
  all: destruct fuel as [|fuel]; [by apply Nat.nlt_0_r in Hfuel|]; cbn [decode_loop].
  all: assert (0 <? Z.of_nat (length out) = true) as -> by (apply Z.ltb_lt; destruct out; [done|simpl; lia]); rewrite orb_true_r.
  all: cbn [stream flat_map] in Hbits; rewrite low_bits in Hbits.
  - destruct (byte_loop_run root c [] fill 8 Hc 0 cur bits out eq_refl Hd Hne Hlt Hbits) as (cur' & o & o' & E & -> & Hcase).
    change (Z.of_nat 0) with 0 in E. rewrite E, ok_bind. cbn [fgetc]. destruct Hcase as [[-> _]|(Hne' & bits' & Hd' & Hr)].
    + destruct fuel as [|fuel]; [simpl in Hfuel; lia|]. cbn. done.
    + destruct bits' as [|b bits']; [|done]. inversion Hd'; subst. done.
  - apply Forall_cons in Hdata as [Hc' Hdata]. fold (stream data) in Hbits. change (low 8 c' ++ stream data) with (stream (c' :: data)) in Hbits.
    destruct (byte_loop_run root c (stream (c' :: data)) fill 8 Hc 0 cur bits out eq_refl Hd Hne Hlt Hbits) as (cur' & o & o' & E & -> & Hcase).
    change (Z.of_nat 0) with 0 in E. rewrite E, ok_bind. cbn [fgetc]. destruct Hcase as [[-> Hl]|(Hne' & bits' & Hd' & Hr)].
    + exfalso. apply (f_equal length) in Hbits. rewrite !length_app, length_stream in Hbits. cbn [bits_from length] in Hbits. simpl in Hbits. lia.
    + rewrite (IH Hdata c' fuel cur' bits' o' fill); [by rewrite ok_bind|done|simpl in Hfuel; lia|done|done| |done|done].
      rewrite length_app in Hlt. lia.
Qed.

(** ** Counting *)
Definition occurrences (k : nat) (file : list Z) : Z := Z.of_nat (length (filter (λ c, Z.to_nat c = k) file)).

Lemma occurrences_cons k c file : occurrences k (c :: file) = (if decide (Z.to_nat c = k) then 1 else 0) + occurrences k file.
Proof. unfold occurrences. rewrite filter_cons. case_decide; cbn [length]; lia. Qed.

Lemma occurrences_pos c file : c ∈ file → 0 < occurrences (Z.to_nat c) file.
Proof.
  induction 1 as [c file|c c' file _ IH]; rewrite occurrences_cons; [rewrite decide_True by done|]; unfold occurrences in *; [lia|case_decide; lia].
Qed.

Lemma occurrences_le k file : 0 ≤ occurrences k file ≤ Z.of_nat (length file).
Proof. unfold occurrences. pose proof (length_filter (λ c, Z.to_nat c = k) file). lia. Qed.

Lemma count_loop_lookup file : ∀ infos k i, infos !! k = Some i → 0 ≤ count_ i → count_ i + Z.of_nat (length file) < 2 ^ 32 →
  count_loop file infos !! k = Some (set_count (count_ i + occurrences k file) i).
Proof.
  induction file as [|c file IH]; intros infos k i Hi H0 Hlt; cbn [count_loop].
  { rewrite Hi. destruct i. unfold occurrences, set_count. cbn. by rewrite Z.add_0_r. }
  cbn [length] in Hlt. rewrite occurrences_cons. pose proof (occurrences_le k file). destruct (decide (Z.to_nat c = k)) as [E|E].
  - rewrite (IH _ k (set_count (u32 (count_ i + 1)) i)).
    + unfold set_count, u32. cbn. rewrite Z.mod_small by lia. do 2 f_equal. lia.
    + by rewrite E, list_lookup_alter_eq, Hi.
    + cbn. apply Z.mod_pos_bound. lia.
    + cbn. unfold u32. rewrite Z.mod_small; lia.
  - rewrite (IH _ k i); [done| |done|lia]. by rewrite list_lookup_alter_ne.
Qed.

Lemma length_count_loop file : ∀ infos, length (count_loop file infos) = length infos.
Proof. induction file as [|c file IH]; intros infos; [done|]. cbn [count_loop]. rewrite IH. apply length_alter. Qed.

Lemma total_alter f l k i : l !! k = Some i → count_ (f i) = count_ i + 1 → total (alter f k l) = total l + 1.
Proof.
  revert k. induction l as [|j l IH]; intros k Hk Hf; [done|]. destruct k as [|k]; cbn in Hk |- *.
  - injection Hk as ->. rewrite Hf. fold (total l). lia.
  - specialize (IH k Hk Hf). unfold total in IH. cbn in IH. rewrite IH. lia.
Qed.

Lemma total_lookup l k i : Forall (λ i, 0 ≤ count_ i) l → l !! k = Some i → count_ i ≤ total l.
Proof.
  intros Hl. revert k. induction Hl as [|j l Hj Hl IH]; intros k Hk; [done|]. apply total_nonneg in Hl. destruct k as [|k]; cbn in Hk |- *; fold (total l).
  - injection Hk as ->. lia.
  - apply IH in Hk. lia.
Qed.

Lemma total_count_loop file : ∀ infos, Forall (λ i, 0 ≤ count_ i) infos → Forall (λ c, (Z.to_nat c < length infos)%nat) file →
  total infos + Z.of_nat (length file) < 2 ^ 32 →
  total (count_loop file infos) = total infos + Z.of_nat (length file) ∧ Forall (λ i, 0 ≤ count_ i) (count_loop file infos).
Proof.
  induction file as [|c file IH]; intros infos Hi Hf Hlt; cbn [count_loop length] in *; [split; [lia|done]|].
  apply Forall_cons in Hf as [Hc Hf]. destruct (lookup_lt_is_Some_2 infos _ Hc) as [i Hic].
  pose proof (total_lookup _ _ _ Hi Hic) as Hle. assert (0 ≤ count_ i) as H0 by exact (Forall_lookup_1 _ _ _ _ Hi Hic).
  assert (total (alter (λ i, set_count (u32 (count_ i + 1)) i) (Z.to_nat c) infos) = total infos + 1) as Ht.
  { apply (total_alter _ _ _ i Hic). cbn. unfold u32. apply Z.mod_small. lia. }
  destruct (IH (alter (λ i, set_count (u32 (count_ i + 1)) i) (Z.to_nat c) infos)) as [E1 E2]; [| |lia|].
  - apply Forall_alter; [done|]. intros j _ _. apply Z.mod_pos_bound. lia.
  - by rewrite length_alter.
  - split; [|done]. lia.
Qed.

Lemma infos_new_lookup k : (k < 256)%nat → infos_new !! k = Some (mk_info (Z.of_nat k) 0 []).
Proof. intros Hk. unfold infos_new. rewrite list_lookup_fmap, lookup_seq_lt by done. done. Qed.

Lemma total_infos_new : total infos_new = 0.
Proof. done. Qed.

(** ** The header *)
Lemma tmp_info_read pad c count rest : length pad = 3%nat → 0 ≤ count < 2 ^ 32 → length (tmp_info pad c count) = 8%nat ∧
  (tmp_info pad c count ++ rest).[0] = Ok c ∧ le_val (take 4 (drop 4 (tmp_info pad c count ++ rest))) = count ∧ drop 8 (tmp_info pad c count ++ rest) = rest.
Proof.
  intros Hp Hc. destruct pad as [|p1 [|p2 [|p3 [|? ?]]]]; try done. split; [done|]. split; [done|]. split; [|done].
  change (take 4 (drop 4 (tmp_info [p1; p2; p3] c count ++ rest))) with (le_bytes 4 count). rewrite le_val_bytes. by apply Z.mod_small.
Qed.

Lemma read_infos_run pad junk data infos : length pad = 3%nat → ∀ base target fuel, length base = length target → (length (write_infos pad infos) < fuel)%nat →
  Forall (λ i, 0 < count_ i → count_ i < 2 ^ 32 - 1 ∧ code_ i = [] ∧ target !! idx i = Some i) infos → Forall (λ i, code_ i = []) base →
  (∀ k, base !! k = target !! k ∨ ∃ i, i ∈ infos ∧ 0 < count_ i ∧ idx i = k) →
  read_infos fuel (write_infos pad infos ++ tmp_info pad junk (2 ^ 32 - 1) ++ data) base = Ok (target, data).
Proof.
  intros Hpad. induction infos as [|i infos IH]; intros base target fuel Hlen Hfuel Hin Hcode Hall.
  - destruct fuel as [|fuel]; [by apply Nat.nlt_0_r in Hfuel|]. cbn [write_infos app read_infos].
    destruct (tmp_info_read pad junk (2 ^ 32 - 1) data Hpad) as (Hl & Hc & Hv & Hd); [done|].
    rewrite bool_decide_eq_false_2 by (rewrite length_app, Hl; lia). rewrite Hc, ok_bind, Hv, Z.eqb_refl, Hd.
    assert (base = target) as ->; [|done]. apply list_eq. intros k. destruct (Hall k) as [|(i & Hi & _)]; [done|]. by apply not_elem_of_nil in Hi.
  - apply Forall_cons in Hin as [Hi Hin]. cbn [write_infos] in *. destruct (Z.ltb_spec 0 (count_ i)) as [Hpos|Hzero].
    2: { cbn [app] in *. apply IH; try done. intros k. destruct (Hall k) as [|(j & [->|Hj]%elem_of_cons & Hj0 & Hk)]; [by left|lia|right; by exists j]. }
    destruct (Hi Hpos) as (Hmax & Hci & Ht). destruct fuel as [|fuel]; [by apply Nat.nlt_0_r in Hfuel|]. rewrite <- app_assoc. cbn [read_infos].
    destruct (tmp_info_read pad (ch_ i) (count_ i) (write_infos pad infos ++ tmp_info pad junk (2 ^ 32 - 1) ++ data) Hpad) as (Hl & Hc & Hv & Hd); [lia|].
    rewrite bool_decide_eq_false_2 by (rewrite length_app, Hl; lia). rewrite Hc, ok_bind, Hv, Hd. rewrite (proj2 (Z.eqb_neq _ _)) by lia.
    assert (mk_info (ch_ i) (count_ i) match base !! Z.to_nat (ch_ i) with Some i => code_ i | None => [] end = i) as ->.
    { destruct i as [c n co]. cbn in *. f_equal. rewrite Hci. destruct (base !! Z.to_nat c) as [j|] eqn:Ej; [exact (Forall_lookup_1 _ _ _ _ Hcode Ej)|done]. }
    pose proof (lookup_lt_Some _ _ _ Ht) as Hidx. apply IH.
    + by rewrite length_insert.
    + rewrite length_app, Hl in Hfuel. lia.
    + done.
    + by apply Forall_insert.
    + intros k. fold (idx i). destruct (decide (idx i = k)) as [<-|Hne].
      * left. rewrite list_lookup_insert_eq by lia. done.
      * rewrite list_lookup_insert_ne by done. destruct (Hall k) as [|(j & [->|Hj]%elem_of_cons & Hj0 & Hk)]; [by left|done|right; by exists j].
Qed.

(** ** The tables of a file *)
Definition entry (file : list Z) (k : nat) : CharInfo := mk_info (Z.of_nat k) (occurrences k file) [].
Definition counted (file : list Z) : list CharInfo := count_loop file infos_new.

Lemma counted_lookup file k : (k < 256)%nat → Z.of_nat (length file) < 2 ^ 32 → counted file !! k = Some (entry file k).
Proof. intros Hk Hl. unfold counted. rewrite (count_loop_lookup file infos_new k _ (infos_new_lookup k Hk)); [done|done|cbn; lia]. Qed.

Lemma length_counted file : length (counted file) = 256%nat.
Proof. apply length_count_loop. Qed.

Lemma idx_entry file k : idx (entry file k) = k.
Proof. apply Nat2Z.id. Qed.

Lemma counted_idx file : Z.of_nat (length file) < 2 ^ 32 → idx <$> counted file = seq 0 256.
Proof.
  intros Hl. apply list_eq. intros k. rewrite list_lookup_fmap. destruct (decide (k < 256)%nat) as [Hk|Hk].
  - rewrite (counted_lookup file k Hk Hl), lookup_seq_lt by done. cbn [fmap option_fmap option_map]. by rewrite idx_entry.
  - rewrite lookup_seq_ge by lia. rewrite (lookup_ge_None_2 (counted file)); [done|]. rewrite length_counted. lia.
Qed.

Lemma infos_new_counts : Forall (λ i, 0 ≤ count_ i) infos_new.
Proof. apply Forall_map, Forall_true. intros k. done. Qed.

Lemma byte_idx c : is_byte c → (Z.to_nat c < 256)%nat.
Proof. unfold is_byte. lia. Qed.

Lemma counted_total file : Forall is_byte file → Z.of_nat (length file) < 2 ^ 32 →
  total (counted file) = Z.of_nat (length file) ∧ Forall (λ i, 0 ≤ count_ i) (counted file).
Proof.
  intros Hb Hl. destruct (total_count_loop file infos_new infos_new_counts) as [E1 E2]; [|rewrite total_infos_new; lia|].
  - eapply Forall_impl; [exact Hb|]. intros c Hc. by apply byte_idx.
  - split; [|done]. unfold counted. rewrite E1, total_infos_new. lia.
Qed.

(** Giving the codes leaves characters and counts alone. *)
Definition char_count (i : CharInfo) : Z * Z := (ch_ i, count_ i).

Lemma generate_counts t : ∀ infos code, char_count <$> GenerateHuffmanCode infos t code = char_count <$> infos.
Proof.
  induction t as [w|n l IHl r IHr]; intros infos code; cbn [GenerateHuffmanCode]; [|by rewrite IHr, IHl].
  generalize (Z.to_nat (ch_ w)) as k. induction infos as [|i infos IH]; intros k; [done|]. destruct k as [|k]; [done|]. cbn. f_equal. apply IH.
Qed.

Lemma write_infos_ext pad l1 : ∀ l2, char_count <$> l1 = char_count <$> l2 → write_infos pad l1 = write_infos pad l2.
Proof.
  induction l1 as [|i l1 IH]; intros [|j l2] E; try done. cbn in E. injection E as E1 E2 E. cbn [write_infos]. rewrite (IH _ E). unfold char_count in *. by rewrite E1, E2.
Qed.

Lemma occurrences_uniform file c k : Forall (λ x, x = c) file → occurrences k file ≠ 0 → k = Z.to_nat c.
Proof.
  intros Hc. induction Hc as [|x file -> _ IH]; [done|]. rewrite occurrences_cons. case_decide as E; [done|]. rewrite Z.add_0_l. apply IH.
Qed.

(** ** The tree of a file *)
Section file.
Context {Q : Type} `{PriorityQueueOk Q} (file : list Z) (Hbytes : Forall is_byte file) (Hlen : Z.of_nat (length file) < 2 ^ 32).

Definition occurring : list CharInfo := filter (λ i, count_ i ≠ 0) (counted file).

Lemma entry_occurring c : c ∈ file → entry file (Z.to_nat c) ∈ occurring.
Proof using Hbytes Hlen.
  intros Hc. apply list_elem_of_filter. split; [cbn; pose proof (occurrences_pos c file Hc); lia|].
  eapply list_elem_of_lookup_2, counted_lookup; [|done]. rewrite Forall_forall in Hbytes. by apply byte_idx, Hbytes.
Qed.

Lemma tree_of_file c : c ∈ file → ∃ t, CreateHuffmantree (counted file) 0 = Ok t ∧ leaves t ≡ₚ occurring ∧
  node_count t = Z.of_nat (length file) ∧ NoDup (idx <$> leaves t).
Proof using All.
  intros Hc%entry_occurring. destruct (counted_total file Hbytes Hlen) as [Htot Hpos].
  destruct (create_spec (counted file) Hpos) as (t & Et & Hl & Hn); [lia| |].
  - intros E. unfold occurring in Hc. rewrite E in Hc. by apply not_elem_of_nil in Hc.
  - exists t. split; [done|]. split; [done|]. split.
    + rewrite Hn, <- Htot. clear. induction (counted file) as [|i l IH]; [done|]. rewrite filter_cons. unfold total in *. case_decide; cbn; lia.
    + rewrite Hl. eapply sublist_NoDup; [|apply fmap_sublist, sublist_filter]. rewrite counted_idx by done. apply NoDup_seq.
Qed.

(** The code of each character of the file is the path to its leaf. *)
Lemma code_of_char t c : leaves t ≡ₚ occurring → NoDup (idx <$> leaves t) → c ∈ file →
  ∃ p, (entry file (Z.to_nat c), p) ∈ paths t ∧ GenerateHuffmanCode (counted file) t [] !! Z.to_nat c = Some (set_code p (entry file (Z.to_nat c))).
Proof using Hbytes Hlen.
  intros Hl Hnd Hc. pose proof (entry_occurring c Hc) as Hin. rewrite <- Hl, <- paths_leaves in Hin.
  apply list_elem_of_fmap in Hin as ([w p] & Ew & Hp). cbn [fst] in Ew. subst w. exists p. split; [done|]. destruct (generate_spec t (counted file) [] Hnd) as [_ Hg].
  specialize (Hg _ _ Hp). rewrite idx_entry, counted_lookup in Hg; [exact Hg| |done].
  rewrite Forall_forall in Hbytes. by apply byte_idx, Hbytes.
Qed.

Lemma header_read pad junk data t : length pad = 3%nat → Z.of_nat (length file) < 2 ^ 32 - 1 →
  let z := write_infos pad (GenerateHuffmanCode (counted file) t []) ++ tmp_info pad junk (2 ^ 32 - 1) ++ data in
  read_infos (S (length z)) z infos_new = Ok (counted file, data).
Proof using Hbytes Hlen.
  intros Hpad Hmax z. assert (write_infos pad (GenerateHuffmanCode (counted file) t []) = write_infos pad (counted file)) as E.
  { apply write_infos_ext, generate_counts. }
  unfold z. rewrite E. apply read_infos_run; [done|by rewrite length_counted|rewrite length_app; lia| | |].
  - apply Forall_lookup. intros k i Hk Hpos. pose proof (lookup_lt_Some _ _ _ Hk) as Hk256. rewrite length_counted in Hk256.
    rewrite counted_lookup in Hk by done. injection Hk as <-. pose proof (occurrences_le k file). cbn. split; [lia|]. split; [done|]. rewrite idx_entry. by apply counted_lookup.
  - apply Forall_map, Forall_true. intros k. done.
  - intros k. destruct (decide (k < 256)%nat) as [Hk|Hk].
    + rewrite infos_new_lookup, counted_lookup by done. destruct (decide (0 < occurrences k file)) as [Hp|Hp].
      * right. exists (entry file k). split; [by eapply list_elem_of_lookup_2, counted_lookup|]. by rewrite idx_entry.
      * left. unfold entry. replace (occurrences k file) with 0; [done|]. pose proof (occurrences_le k file). lia.
    + left. rewrite !lookup_ge_None_2; [done|rewrite length_counted; lia|by apply Nat.nlt_ge].
Qed.

Lemma occurring_uniform c i : Forall (λ x, x = c) file → i ∈ occurring → idx i = Z.to_nat c.
Proof using Hlen.
  intros Hc [Hi [k Hk]%list_elem_of_lookup]%list_elem_of_filter. pose proof (lookup_lt_Some _ _ _ Hk) as Hk256. rewrite length_counted in Hk256.
  rewrite counted_lookup in Hk by done. injection Hk as <-. rewrite idx_entry. by eapply occurrences_uniform.
Qed.

Lemma uniform_data w : leaves (Leaf w) ≡ₚ occurring → NoDup (idx <$> leaves (Leaf w)) →
  put_loop file (GenerateHuffmanCode (counted file) (Leaf w) []) 0 0 = Ok [].
Proof using Hbytes Hlen.
  intros Hl Hnd. destruct (put_loop_spec (λ _, []) file (GenerateHuffmanCode (counted file) (Leaf w) [])) with (n := 0%nat) (value := 0) as (data & fill & Ed & _ & Hfill & Hs); [|lia|done|].
  - apply Forall_forall. intros x Hx. destruct (code_of_char (Leaf w) x Hl Hnd Hx) as (p & [_ ->]%elem_of_paths & Hi). split; [constructor|]. by eexists.
  - change (Z.of_nat 0) with 0 in Ed. rewrite Ed. apply (f_equal length) in Hs. rewrite !length_app, length_map, length_stream in Hs.
    assert (∀ f, length (flat_map (λ _ : Z, @nil Z) f) = 0%nat) as E by (intros f; by induction f). rewrite E in Hs. simpl in Hs. destruct data; [done|simpl in Hs; lia].
Qed.
End file.

(** What [Compress] leaves to the rest of the file: the tree, the code of each character and
    the data. *)
Lemma compress_run {Q} `{PriorityQueueOk Q} pad junk file a b : Forall is_byte file → Z.of_nat (length file) < 2 ^ 32 →
  a ∈ file → b ∈ file → a ≠ b →
  ∃ t (code : Z → list Z) data fill, CreateHuffmantree (counted file) 0 = Ok t ∧ node_count t = Z.of_nat (length file) ∧
    Compress pad junk infos_new file = Ok (write_infos pad (GenerateHuffmanCode (counted file) t []) ++ tmp_info pad junk (2 ^ 32 - 1) ++ data) ∧
    Forall (λ c, ∃ w, (w, code c) ∈ paths t ∧ code c ≠ [] ∧ u8 (ch_ w) = c) file ∧
    Forall is_byte data ∧ (length fill < 8)%nat ∧ stream data = map bit (flat_map code file) ++ fill.
Proof.
  intros Hbytes Hlen Ha Hb Hab. destruct (tree_of_file file Hbytes Hlen a Ha) as (t & Et & Hl & Hn & Hnd). set (infos := GenerateHuffmanCode (counted file) t []).
  set (code c := match infos !! Z.to_nat c with Some i => code_ i | None => [] end).
  assert (∀ c, c ∈ file → (entry file (Z.to_nat c), code c) ∈ paths t ∧ ∃ i, infos !! Z.to_nat c = Some i ∧ code_ i = code c) as Hcode.
  { intros c Hc. destruct (code_of_char file Hbytes Hlen t c Hl Hnd Hc) as (p & Hp & Hi). fold infos in Hi. unfold code. rewrite Hi. split; [done|]. by eexists. }
  assert (∀ c, c ∈ file → is_byte c) as Hbyte by (intros c Hc; by eapply Forall_forall in Hbytes).
  destruct (put_loop_spec code file infos) with (n := 0%nat) (value := 0) as (data & fill & Ed & Hdata & Hfill & Hs); [|lia|done|].
  { apply Forall_forall. intros c Hc. destruct (Hcode c Hc) as [Hp Hi]. split; [by eapply paths_bin|done]. }
  exists t, code, data, fill. split_and!; [done|done| | |done|done|exact Hs].
  - unfold Compress. fold (counted file). rewrite Et, ok_bind. cbv zeta. fold infos. change (Z.of_nat 0) with 0 in Ed. by rewrite Ed, ok_bind.
  - apply Forall_forall. intros c Hc. exists (entry file (Z.to_nat c)). destruct (Hcode c Hc) as [Hp _]. split; [done|]. split.
    + eapply (not_leaf_path t); [by apply (Hcode a)|by apply (Hcode b)| |exact Hp]. intros E. apply Hab. apply (f_equal ch_) in E. cbn in E.
      pose proof (Hbyte a Ha). pose proof (Hbyte b Hb). unfold is_byte in *. lia.
    + cbn. pose proof (Hbyte c Hc) as Hcb. unfold is_byte in Hcb. rewrite Z2Nat.id by lia. apply Z.mod_small. lia.
Qed.

(** C11. Compressing and uncompressing gives the file back: for every file of fewer than 2^32 - 1
    bytes with at least two different ones, whatever the priority queue does with nodes of
    equal count, [Compress] writes a file from which [Uncompress], in a new object, writes
    the original. *)
Theorem huffman_roundtrip {Q} `{PriorityQueueOk Q} pad junk file a b : length pad = 3%nat → Forall is_byte file →
  Z.of_nat (length file) < 2 ^ 32 - 1 → a ∈ file → b ∈ file → a ≠ b →
  ∃ z, Compress pad junk infos_new file = Ok z ∧ ∀ fuel, (length z < fuel)%nat → Uncompress fuel infos_new z = Ok file.
Proof.
  intros Hpad Hbytes Hmax Ha Hb Hab. assert (Z.of_nat (length file) < 2 ^ 32) as Hlen by lia.
  destruct (compress_run pad junk file a b Hbytes Hlen Ha Hb Hab) as (t & code & data & fill & Et & Hn & Ez & Hcode & Hdata & Hfill & Hs).
  eexists. split; [exact Ez|]. intros fuel Hfuel. unfold Uncompress. rewrite header_read by done. rewrite ok_bind, Et, ok_bind, Hn. cbv zeta.
  apply decodes_codes in Hcode as Hd. destruct data as [|c data].
  { exfalso. destruct file as [|c file]; [by apply not_elem_of_nil in Ha|]. apply Forall_cons in Hcode as [(w & _ & Hne & _) _]. cbn in Hs. by destruct (code c). }
  cbn [fgetc]. apply Forall_cons in Hdata as [Hc Hdata]. apply (decode_loop_run t data Hdata c fuel t (map bit (flat_map code file)) file fill); [done| |exact Hd| |done|done|exact Hs].
  - rewrite !length_app in Hfuel. unfold tmp_info in Hfuel. rewrite !length_app, Hpad in Hfuel. simpl in Hfuel. lia.
  - intros ->. by apply not_elem_of_nil in Ha.
Qed.

(** ** A queue: an unordered list, searched for its least node *)
Fixpoint extract (x : HuffmanTreeNode) (l : list HuffmanTreeNode) : HuffmanTreeNode * list HuffmanTreeNode :=
  match l with
  | [] => (x, [])
  | y :: l => let '(m, rest) := extract y l in if node_count x <=? node_count m then (x, m :: rest) else (m, x :: rest)
  end.

#[export] Instance list_queue : PriorityQueue (list HuffmanTreeNode) := {
  pq_empty := [];
  pq_push := cons;
  pq_top q := match q with [] => None | x :: l => Some (extract x l).1 end;
  pq_pop q := match q with [] => [] | x :: l => (extract x l).2 end
}.

Lemma extract_spec l : ∀ x, x :: l ≡ₚ (extract x l).1 :: (extract x l).2 ∧ Forall (λ y, node_count (extract x l).1 ≤ node_count y) (x :: l).
Proof.
  induction l as [|y l IH]; intros x; cbn [extract]; [split; [done|]; by repeat constructor|].
  destruct (IH y) as [Hp Hm]. destruct (extract y l) as [m rest]. cbn [fst snd] in *. destruct (Z.leb_spec (node_count x) (node_count m)) as [Hle|Hlt]; cbn [fst snd].
  - split; [by rewrite Hp|]. constructor; [done|]. eapply Forall_impl; [exact Hm|]. intros z Hz. cbn in Hz. lia.
  - split; [rewrite Hp; apply Permutation_swap|]. constructor; [lia|done].
Qed.

#[export] Program Instance list_queue_ok : PriorityQueueOk (list HuffmanTreeNode) := {| pq_elems q := q |}.
Next Obligation. done. Qed.
Next Obligation. done. Qed.
Next Obligation. intros [|x l]; by split. Qed.
Next Obligation. intros [|x l] y; [done|]. intros [= <-]. apply extract_spec. Qed.
Next Obligation. intros [|x l] m y; [done|]. intros [= <-] Hy. by eapply Forall_forall in Hy; [|apply extract_spec]. Qed.

Lemma huffman_roundtrip_witness : ∃ z, Compress [0; 0; 0] 0 infos_new [97; 98; 97; 99; 97] = Ok z ∧
  ∀ fuel, (length z < fuel)%nat → Uncompress fuel infos_new z = Ok [97; 98; 97; 99; 97].
Proof. by apply (huffman_roundtrip (Q := list HuffmanTreeNode) [0; 0; 0] 0 [97; 98; 97; 99; 97] 97 98); [|repeat constructor| |constructor|repeat constructor|]. Defined.

(** ** Files the codec cannot handle *)
Lemma uniform_tree t c : leaves t ≠ [] → (∀ i, i ∈ leaves t → idx i = c) → NoDup (idx <$> leaves t) → ∃ w, t = Leaf w.
Proof.
  destruct t as [w|n l r]; [by eexists|]. cbn [leaves]. intros _ Hc Hnd. exfalso. rewrite fmap_app in Hnd. apply NoDup_app in Hnd as (_ & Hd & _).
  destruct (leaves l) as [|x l1] eqn:El; [by apply leaves_nonempty in El|]. destruct (leaves r) as [|y r1] eqn:Er; [by apply leaves_nonempty in Er|].
  apply (Hd (idx x)); [apply list_elem_of_here|]. rewrite (Hc x), <- (Hc y); [apply list_elem_of_here|apply elem_of_app; right; apply list_elem_of_here|apply list_elem_of_here].
Qed.

(** C38. Two kinds of files the code cannot handle: with an empty file [Compress] takes the top of
    an empty queue, and a file whose bytes are all the same is compressed to codes of no bits
    and a tree that is one leaf, from which [Uncompress] follows a null pointer. *)
Theorem uniform_file_undefined {Q} `{PriorityQueueOk Q} pad junk file c : length pad = 3%nat → is_byte c → Forall (λ x, x = c) file →
  Z.of_nat (length file) < 2 ^ 32 - 1 →
  (file = [] → Compress pad junk infos_new file = Ub) ∧
  (file ≠ [] → ∃ z, Compress pad junk infos_new file = Ok z ∧ ∀ fuel, (0 < fuel)%nat → Uncompress fuel infos_new z = Ub).
Proof.
  intros Hpad Hc Hall Hmax. split.
  - intros ->. unfold Compress, CreateHuffmantree. pose proof (push_all_elems (count_loop [] infos_new) pq_empty) as Hp. rewrite pq_empty_elems in Hp.
    apply Permutation_nil_r, pq_top_none in Hp. cbn [merge_loop]. rewrite Hp. rewrite !ok_bind, Hp. done.
  - intros Hne. assert (c ∈ file) as Hin.
    { destruct file as [|x file]; [done|]. apply Forall_cons in Hall as [-> _]. apply list_elem_of_here. }
    assert (Z.of_nat (length file) < 2 ^ 32) as Hlen by lia. assert (Forall is_byte file) as Hbytes by (by eapply Forall_impl; [exact Hall|]; intros ? ->).
    destruct (tree_of_file file Hbytes Hlen c Hin) as (t & Et & Hl & Hn & Hnd).
    destruct (uniform_tree t (Z.to_nat c)) as [w ->]; [apply leaves_nonempty| |done|].
    { intros i Hi. rewrite Hl in Hi. by apply (occurring_uniform file). }
    assert (put_loop file (GenerateHuffmanCode (counted file) (Leaf w) []) 0 0 = Ok []) as Ed by (by eapply uniform_data).
    eexists. split.
    + unfold Compress. fold (counted file). rewrite Et, ok_bind. cbv zeta. by rewrite Ed, ok_bind.
    + intros [|fuel] Hfuel; [by apply Nat.nlt_0_r in Hfuel|]. unfold Uncompress. rewrite header_read by done. rewrite ok_bind, Et, ok_bind, Hn. by destruct file.
Qed.

Lemma uniform_file_undefined_witness : ∃ z, Compress [0; 0; 0] 0 infos_new [97; 97] = Ok z ∧ ∀ fuel, (0 < fuel)%nat → Uncompress fuel infos_new z = Ub.
Proof. apply (proj2 (uniform_file_undefined (Q := list HuffmanTreeNode) [0; 0; 0] 0 [97; 97] 97 eq_refl ltac:(done) ltac:(by repeat constructor) ltac:(done))). done. Defined.

(** The file of five characters: three records, the end mark, one byte. *)
Example demo_compressed : Compress [0; 0; 0] 0 infos_new [97; 98; 97; 99; 97] =
  Ok ([97; 0; 0; 0; 3; 0; 0; 0] ++ [98; 0; 0; 0; 1; 0; 0; 0] ++ [99; 0; 0; 0; 1; 0; 0; 0] ++ [0; 0; 0; 0; 255; 255; 255; 255] ++ [77]).
Proof. vm_compute. reflexivity. Qed.
