(* ===== verification/HuffmanOptimal.v ===== *)
(** * HuffmanOptimal: no prefix code makes the compressed file shorter

    Code lengths are a list of depths, one for each node in the queue, that satisfies Kraft's
    inequality.  Some lengths that are no worse than given ones put the two nodes of least
    count side by side at the same depth, so that merging them, as the loop does, loses
    nothing. *)

From S2P Require Import Prelude Huffman HuffmanTheorems.
#[local] Open Scope Z_scope.

(** ** Sums over lists *)
Definition zsum {A} (g : A → Z) (l : list A) : Z := foldr (λ a s, g a + s) 0 l.

Lemma zsum_cons {A} (g : A → Z) a l : zsum g (a :: l) = g a + zsum g l.
Proof. done. Qed.

Lemma zsum_app {A} (g : A → Z) l1 l2 : zsum g (l1 ++ l2) = zsum g l1 + zsum g l2.
Proof. induction l1 as [|a l1 IH]; [done|]. cbn [app]. rewrite !zsum_cons, IH. lia. Qed.

#[export] Instance zsum_perm {A} (g : A → Z) : Proper ((≡ₚ) ==> (=)) (zsum g).
Proof. intros l1 l2. unfold zsum. induction 1; cbn; lia. Qed.

Lemma zsum_map {A B} (g : B → Z) (m : A → B) l : zsum g (map m l) = zsum (λ a, g (m a)) l.
Proof. induction l as [|a l IH]; [done|]. cbn [map]. by rewrite !zsum_cons, IH. Qed.

Lemma zsum_ext {A} (g g' : A → Z) l : (∀ a, a ∈ l → g a = g' a) → zsum g l = zsum g' l.
Proof. induction l as [|a l IH]; intros Hg; [done|]. rewrite !zsum_cons, IH, (Hg a); [done|by left|]. intros b Hb. apply Hg. by right. Qed.

Lemma zsum_nonneg {A} (g : A → Z) l : (∀ a, a ∈ l → 0 ≤ g a) → 0 ≤ zsum g l.
Proof. induction l as [|a l IH]; intros Hg; [done|]. rewrite zsum_cons. pose proof (Hg a ltac:(by left)). assert (0 ≤ zsum g l); [|lia]. apply IH. intros b Hb. apply Hg. by right. Qed.

Lemma zsum_scale {A} (g : A → Z) k l : zsum (λ a, k * g a) l = k * zsum g l.
Proof. induction l as [|a l IH]; [cbn; lia|]. rewrite !zsum_cons, IH. lia. Qed.

(** ** Kraft's inequality *)
(** What a word of length [d] takes of the words of length [M]. *)
Definition share (M d : nat) : Z := 2 ^ Z.of_nat (M - d).

Definition kraft (M : nat) (ds : list nat) : Prop := Forall (λ d, (d ≤ M)%nat) ds ∧ zsum (share M) ds ≤ 2 ^ Z.of_nat M.

#[export] Instance kraft_perm M : Proper ((≡ₚ) ==> iff) (kraft M).
Proof. intros l1 l2 Hl. unfold kraft. by rewrite Hl. Qed.

Lemma share_pos M d : 0 < share M d.
Proof. unfold share. apply Z.pow_pos_nonneg; lia. Qed.

Lemma shares_nonneg M ds : 0 ≤ zsum (share M) ds.
Proof. apply zsum_nonneg. intros d _. pose proof (share_pos M d). lia. Qed.

Lemma share_le M d e : (d ≤ e)%nat → (e ≤ M)%nat → ∃ k, share M d = share M e * k.
Proof.
  intros Hd He. exists (2 ^ Z.of_nat (e - d)). unfold share. rewrite <- Z.pow_add_r by lia. f_equal. lia.
Qed.

Lemma share_S M d : (S d ≤ M)%nat → share M d = 2 * share M (S d).
Proof. intros Hd. unfold share. replace (Z.of_nat (M - d)) with (Z.succ (Z.of_nat (M - S d))) by lia. by rewrite Z.pow_succ_r by lia. Qed.

Lemma shares_multiple M e ds : (e ≤ M)%nat → Forall (λ d, (d ≤ e)%nat) ds → ∃ k, zsum (share M) ds = share M e * k.
Proof.
  intros He Hds. induction Hds as [|d ds Hd _ [k IH]]; [exists 0; cbn; lia|]. destruct (share_le M d e Hd He) as [j Hj]. exists (j + k). rewrite zsum_cons, IH, Hj. lia.
Qed.

(** The two deepest words can be given the same length, and are not empty. *)
Lemma kraft_level M d e ds : (e ≤ d)%nat → Forall (λ x, (x ≤ e)%nat) ds → kraft M (d :: e :: ds) → kraft M (e :: e :: ds) ∧ (0 < e)%nat.
Proof.
  intros Hed Hds [Hle Hsum]. apply Forall_cons in Hle as [Hd Hle]. pose proof Hle as [He _]%Forall_cons. rewrite !zsum_cons in Hsum. pose proof (share_pos M d) as Hpd. pose proof (share_pos M e) as Hpe.
  assert (2 ^ Z.of_nat M = share M e * 2 ^ Z.of_nat e) as HM by (unfold share; rewrite <- Z.pow_add_r by lia; f_equal; lia). destruct (shares_multiple M e ds He Hds) as [k Hk]. rewrite HM, Hk in Hsum.
  assert (0 ≤ k) as Hk0. { pose proof (shares_nonneg M ds) as Hn. rewrite Hk in Hn. nia. }
  assert (1 + k < 2 ^ Z.of_nat e) as Hlt. { apply (Z.mul_lt_mono_pos_l (share M e)); [done|]. lia. }
  split; [split; [by constructor|]|destruct e; [cbn in Hlt; lia|lia]]. rewrite !zsum_cons, HM, Hk. pose proof (Z.mul_le_mono_nonneg_l (2 + k) (2 ^ Z.of_nat e) (share M e)). lia.
Qed.

Lemma kraft_merge M e ds : kraft M (S e :: S e :: ds) → kraft M (e :: ds).
Proof.
  intros [Hle Hsum]. rewrite !zsum_cons in Hsum. apply Forall_cons in Hle as [He Hle]. apply Forall_cons in Hle as [_ Hle]. split; [constructor; [lia|done]|]. rewrite zsum_cons, share_S by done. lia.
Qed.

(** ** Lengths of the codes of weighted items *)
Section exchange.
Context {A : Type} (w : A → Z).

Definition weight (l : list (nat * A)) : Z := zsum (λ p, Z.of_nat p.1 * w p.2) l.

Lemma deepest (l : list (nat * A)) : l ≠ [] → ∃ d a l', l ≡ₚ (d, a) :: l' ∧ Forall (λ e, (e ≤ d)%nat) l'.*1.
Proof.
  induction l as [|[e b] l IH]; [done|]. intros _. destruct l as [|p l]; [by exists e, b, []|]. destruct IH as (d & a & l' & Hl & Hd); [done|].
  destruct (decide (e ≤ d)%nat) as [He|He].
  - exists d, a, ((e, b) :: l'). rewrite Hl. split; [apply Permutation_swap|by constructor].
  - exists e, b, ((d, a) :: l'). rewrite Hl. split; [done|]. constructor; [cbn; lia|]. eapply Forall_impl; [exact Hd|]. cbn. lia.
Qed.

(** An item of least weight can be given the greatest length. *)
Lemma exchange d a l : (∀ b, b ∈ l.*2 → w a ≤ w b) → ∃ e l', l'.*2 ≡ₚ l.*2 ∧ e :: l'.*1 ≡ₚ d :: l.*1 ∧ Forall (λ x, (x ≤ e)%nat) l'.*1 ∧ weight ((e, a) :: l') ≤ weight ((d, a) :: l).
Proof.
  intros Hw. destruct (decide (Forall (λ x, (x ≤ d)%nat) l.*1)) as [Hd|Hd]; [exists d, l; split_and!; done || lia|]. destruct (deepest l) as (e & b & l1 & Hl & He); [intros ->; by destruct Hd; constructor|].
  assert (d < e)%nat as Hde. { rewrite Hl in Hd. destruct (decide (e ≤ d)%nat) as [Hle|]; [|lia]. destruct Hd. constructor; [done|]. eapply Forall_impl; [exact He|]. cbn. lia. }
  exists e, ((d, b) :: l1). split_and!.
  - by rewrite Hl.
  - rewrite Hl. apply Permutation_swap.
  - constructor; [cbn; lia|done].
  - unfold weight. rewrite !zsum_cons, Hl, !zsum_cons. cbn [fst snd]. specialize (Hw b). rewrite Hl in Hw. specialize (Hw ltac:(by left)). nia.
Qed.

(** The two items of least weight can be put side by side. *)
Lemma siblings M l a b rest : kraft M l.*1 → l.*2 ≡ₚ a :: b :: rest → 0 ≤ w a → w a ≤ w b → (∀ c, c ∈ rest → w b ≤ w c) →
  ∃ e l', l'.*2 ≡ₚ rest ∧ kraft M (e :: l'.*1) ∧ (Z.of_nat e + 1) * (w a + w b) + weight l' ≤ weight l.
Proof.
  intros Hk Hl Ha0 Hab Hb. destruct (Permutation_map_inv _ _ (symmetry Hl)) as (l1 & E & Hl1). destruct l1 as [|[d a'] l1]; [done|]. cbn in E. injection E as <- E.
  assert (weight l = weight ((d, a) :: l1)) as Ew by (unfold weight; by rewrite Hl1). rewrite Hl1 in Hk. clear Hl Hl1.
  destruct (exchange d a l1) as (d1 & l2 & H2 & H1 & Hd1 & Hw1). { intros c. change (l1.*2) with (map snd l1). rewrite <- E, elem_of_cons. intros [->|Hc]; [done|]. specialize (Hb c Hc). lia. }
  change (l1.*2) with (map snd l1) in H2. rewrite <- E in H2. destruct (Permutation_map_inv _ _ (symmetry H2)) as (l3 & E3 & Hl3). destruct l3 as [|[d2 b'] l3]; [done|]. cbn in E3. injection E3 as <- E3.
  destruct (exchange d2 b l3) as (e & l4 & H4 & H3 & He & Hw2). { intros c. change (l3.*2) with (map snd l3). by rewrite <- E3; apply Hb. }
  assert (l2.*1 ≡ₚ e :: l4.*1) as Hd2 by (rewrite Hl3, H3; done). assert (kraft M (d1 :: e :: l4.*1)) as Hk2 by (rewrite <- Hd2, H1; exact Hk).
  rewrite Hd2 in Hd1. apply Forall_cons in Hd1 as [Hed _]. destruct (kraft_level M d1 e _ Hed He Hk2) as [Hk3 He0]. destruct e as [|e]; [lia|]. exists e, l4. split; [rewrite H4; change (l3.*2) with (map snd l3); by rewrite <- E3|].
  split; [by apply kraft_merge|]. rewrite Ew. assert (weight l2 = weight ((d2, b) :: l3)) as Ew2 by (unfold weight; by rewrite Hl3). unfold weight in *. rewrite zsum_cons in Hw1, Hw2. rewrite Ew2 in Hw1. cbn [fst snd] in *. nia.
Qed.
End exchange.

(** ** Prefix codes *)
Definition prefix_code {A} (code : A → list bool) (l : list A) : Prop := ∀ a b, a ∈ l → b ∈ l → a ≠ b → ¬ code a `prefix_of` code b.

Definition starting {A} (bit : bool) (code : A → list bool) (l : list A) : list A := filter (λ a, head (code a) = Some bit) l.

Lemma shares_split {A} M (code : A → list bool) l : (∀ a, a ∈ l → code a ≠ []) →
  zsum (λ a, share (S M) (length (code a))) l = zsum (λ a, share M (length (tail (code a)))) (starting false code l) + zsum (λ a, share M (length (tail (code a)))) (starting true code l).
Proof.
  induction l as [|a l IH]; intros Hne; [done|]. unfold starting in *. rewrite !filter_cons, zsum_cons, IH by (intros b Hb; apply Hne; by right). specialize (Hne a ltac:(by left)).
  destruct (code a) as [|[] u] eqn:E; [done|..]; cbn [head]; [rewrite decide_False, decide_True by done|rewrite decide_True, decide_False by done]; rewrite zsum_cons, E; cbn [length tail]; change (share (S M) (S (length u))) with (share M (length u)); lia.
Qed.

Lemma prefix_code_tails {A} (code : A → list bool) bit l : prefix_code code l → prefix_code (λ a, tail (code a)) (starting bit code l).
Proof.
  intros Hc a b [Ha Hal]%list_elem_of_filter [Hb Hbl]%list_elem_of_filter Hab Hp. apply (Hc a b Hal Hbl Hab). destruct (code a) as [|x u]; [done|]. destruct (code b) as [|y v]; [done|]. cbn in Ha, Hb.
  injection Ha as ->. injection Hb as ->. by apply prefix_cons.
Qed.

Lemma nodup_single {A} (a : A) l : NoDup l → a ∈ l → (∀ b, b ∈ l → b = a) → l = [a].
Proof.
  intros Hnd Ha Hall. destruct l as [|c [|d l]]; [by apply not_elem_of_nil in Ha|by rewrite (Hall c) by left|]. apply NoDup_cons in Hnd as [Hn _]. exfalso. apply Hn. rewrite (Hall c), (Hall d) by set_solver. by left.
Qed.

(** A prefix code satisfies Kraft's inequality. *)
Lemma prefix_code_kraft {A} `{EqDecision A} M : ∀ (code : A → list bool) l, NoDup l → prefix_code code l → (∀ a, a ∈ l → (length (code a) ≤ M)%nat) →
  zsum (λ a, share M (length (code a))) l ≤ 2 ^ Z.of_nat M.
Proof.
  induction M as [|M IH]; intros code l Hnd Hc Hl; destruct (decide (Exists (λ a, code a = []) l)) as [(a & Ha & Hnil)%Exists_exists|Hne].
  1,3: rewrite (nodup_single a l); [rewrite zsum_cons, Hnil; unfold share; cbn [length zsum foldr]; rewrite Nat.sub_0_r; lia|done..|];
    intros b Hb; destruct (decide (b = a)) as [|Hba]; [done|]; destruct (Hc a b Ha Hb ltac:(done)); rewrite Hnil; apply prefix_nil.
  - destruct l as [|a l]; [done|]. exfalso. apply Hne, Exists_cons. left. specialize (Hl a ltac:(by left)). by destruct (code a); [|cbn in Hl; lia].
  - assert (∀ a, a ∈ l → code a ≠ []) as Hne' by (intros a Ha E; apply Hne, Exists_exists; by exists a). rewrite shares_split by done. rewrite Nat2Z.inj_succ, Z.pow_succ_r by lia.
    assert (∀ bit, zsum (λ a, share M (length (tail (code a)))) (starting bit code l) ≤ 2 ^ Z.of_nat M) as Hhalf; [|pose proof (Hhalf false); pose proof (Hhalf true); lia].
    intros bit. apply (IH (λ a, tail (code a))); [by apply NoDup_filter|by apply prefix_code_tails|]. intros a [_ Ha]%list_elem_of_filter. specialize (Hl a Ha). destruct (code a); cbn in *; lia.
Qed.

(** ** The tree the loop builds *)
(** The bits its codes need for the file. *)
Definition code_bits (u : CharInfo * list Z) : Z := count_ u.1 * Z.of_nat (length u.2).
Definition cost (t : HuffmanTreeNode) : Z := zsum code_bits (paths t).

Lemma total_zsum l : total l = zsum count_ l.
Proof. done. Qed.

Lemma cost_longer c us : zsum code_bits (map (prod_map id (cons c)) us) = zsum code_bits us + total us.*1.
Proof. induction us as [|[i p] us IH]; [done|]. cbn [map fmap list_fmap]. rewrite !zsum_cons, IH. unfold code_bits, total. cbn [prod_map fst snd length id]. cbn. fold (total us.*1). lia. Qed.

Lemma cost_parent n x y : sums x → sums y → cost (Parent n x y) = cost x + cost y + (node_count x + node_count y).
Proof. unfold sums, cost. intros -> ->. cbn [paths]. rewrite zsum_app, !cost_longer, !paths_leaves. lia. Qed.

Section optimal.
Context {Q : Type} `{PriorityQueueOk Q}.

(** Whatever depths the nodes of the queue might be given, the loop's tree is no worse. *)
Lemma merge_optimal fuel M : ∀ hp hp' t l, summed hp → merge_loop fuel hp = Ok hp' → pq_top hp' = Some t → l.*2 ≡ₚ pq_elems hp → kraft M l.*1 →
  cost t ≤ zsum cost (pq_elems hp) + weight node_count l.
Proof.
  induction fuel as [|fuel IH]; intros hp hp' t l Hs E Et Hl Hk; [done|]. cbn [merge_loop] in E. assert (∀ c, c ∈ pq_elems hp → 0 ≤ node_count c) as Hpos.
  { intros c Hc. pose proof Hs as (Hsum & Hp & _). rewrite Forall_forall in Hsum. rewrite Forall_forall in Hp. rewrite (Hsum c Hc). apply total_nonneg, Forall_forall. intros i Hi. apply Hp. apply list_elem_of_In, in_flat_map. exists c. by rewrite <- !list_elem_of_In. }
  destruct (pq_top hp) as [x|] eqn:Ex; [|injection E as <-; congruence]. destruct (pq_top (pq_pop hp)) as [y|] eqn:Ey.
  - pose proof (two_elems hp x y Ex Ey) as Hp. destruct (merge_step hp x y Hs Ex Ey) as (Hp2 & _ & Hs2). fold (merge_top hp x y) in E. set (rest := pq_elems (pq_pop (pq_pop hp))) in *.
    assert (∀ c, c ∈ pq_elems (pq_pop hp) → c ∈ pq_elems hp) as Hsub by (intros c Hc; rewrite (pq_top_elems _ _ Ex); by right).
    destruct (siblings node_count M l x y rest) as (e & l' & Hl' & Hk' & Hw); [done|by rewrite Hl|apply Hpos; rewrite Hp; by left|by apply (pq_top_least hp); [|rewrite Hp; right; left]|intros c Hc; apply (pq_top_least _ _ _ Ey); rewrite (pq_top_elems _ _ Ey); by right|].
    specialize (IH (merge_top hp x y) hp' t ((e, Parent (node_count x + node_count y) x y) :: l') Hs2 E Et). rewrite Hp2 in IH. specialize (IH ltac:(cbn; by rewrite Hl') Hk').
    destruct Hs as (Hsum & _). rewrite Hp in Hsum |- *. apply Forall_cons in Hsum as [Hx Hsum]. apply Forall_cons in Hsum as [Hy _]. unfold weight in *. rewrite !zsum_cons in *. rewrite (cost_parent _ x y Hx Hy) in IH. cbn [fst snd node_count] in IH. nia.
  - injection E as <-. assert (t = x) as -> by congruence. apply pq_top_none in Ey. pose proof (pq_top_elems _ _ Ex) as Hp. rewrite Ey in Hp. rewrite Hp. cbn [zsum foldr]. assert (0 ≤ weight node_count l); [|lia].
    apply zsum_nonneg. intros p Hin. assert (p.2 ∈ pq_elems hp) as Hp2 by (rewrite <- Hl; by apply list_elem_of_fmap_2). specialize (Hpos _ Hp2). nia.
Qed.
End optimal.

(** ** The characters of a file *)
Lemma zsum_at {A} `{EqDecision A} (g : A → Z) a l : NoDup l → a ∈ l → zsum (λ b, if decide (a = b) then g b else 0) l = g a.
Proof.
  induction 1 as [|b l Hb Hnd IH]; [by intros ?%not_elem_of_nil|]. rewrite zsum_cons. intros [->|Ha]%elem_of_cons.
  - rewrite decide_True by done. rewrite (zsum_ext _ (λ _, 0 * 0)), (zsum_scale (λ _, 0) 0); [lia|]. intros c Hc. rewrite decide_False; [done|]. by intros ->.
  - rewrite decide_False by (by intros ->). rewrite IH by done. lia.
Qed.

Lemma zsum_plus {A} (g g' : A → Z) l : zsum (λ a, g a + g' a) l = zsum g l + zsum g' l.
Proof. induction l as [|a l IH]; [done|]. rewrite !zsum_cons, IH. lia. Qed.

Lemma zsum_filter_zero {A} (P : A → Prop) `{∀ a, Decision (P a)} (g : A → Z) l : (∀ a, ¬ P a → g a = 0) → zsum g (filter P l) = zsum g l.
Proof. intros Hz. induction l as [|a l IH]; [done|]. rewrite filter_cons. case_decide as Ha; rewrite !zsum_cons, IH; [done|]. by rewrite (Hz a Ha). Qed.

Lemma zsum_occurrences (g : Z → Z) file : Forall is_byte file → zsum (λ k, occurrences k file * g (Z.of_nat k)) (seq 0 256) = zsum g file.
Proof.
  induction 1 as [|c file Hc _ IH].
  - rewrite (zsum_ext _ (λ _, 0 * 0)), (zsum_scale (λ _, 0) 0); done.
  - rewrite zsum_cons, <- IH, <- (Z2Nat.id c) by (unfold is_byte in Hc; lia). rewrite <- (zsum_at (λ k, g (Z.of_nat k)) (Z.to_nat c) (seq 0 256)) by (apply NoDup_seq || (apply elem_of_seq; unfold is_byte in Hc; lia)).
    rewrite <- zsum_plus. apply zsum_ext. intros k _. rewrite (Z2Nat.id c) by (unfold is_byte in Hc; lia). rewrite occurrences_cons. case_decide; lia.
Qed.

Lemma length_codes {A B} (code : A → list B) l : Z.of_nat (length (flat_map code l)) = zsum (λ c, Z.of_nat (length (code c))) l.
Proof. induction l as [|c l IH]; [done|]. rewrite zsum_cons, <- IH. cbn [flat_map]. rewrite length_app. lia. Qed.

Lemma keyed_unique {A B} (l : list (A * B)) a x y : NoDup l.*1 → (a, x) ∈ l → (a, y) ∈ l → x = y.
Proof.
  induction l as [|[b z] l IH]; intros Hnd Hx Hy; [by apply not_elem_of_nil in Hx|]. apply NoDup_cons in Hnd as [Hb Hnd].
  apply elem_of_cons in Hx as [Ex|Hx]; apply elem_of_cons in Hy as [Ey|Hy]; simplify_eq; try done; [destruct Hb; by apply (list_elem_of_fmap_2 fst) in Hy|destruct Hb; by apply (list_elem_of_fmap_2 fst) in Hx|by apply IH].
Qed.

Section file.
Context (file : list Z) (Hbytes : Forall is_byte file) (Hlen : Z.of_nat (length file) < 2 ^ 32).

Lemma counted_entries : counted file = entry file <$> seq 0 256.
Proof using Hlen.
  apply list_eq. intros k. rewrite list_lookup_fmap. destruct (decide (k < 256)%nat) as [Hk|Hk].
  - by rewrite (counted_lookup file k Hk Hlen), lookup_seq_lt.
  - rewrite lookup_seq_ge by lia. rewrite (lookup_ge_None_2 (counted file)); [done|]. rewrite length_counted. lia.
Qed.

Lemma zsum_occurring (g : Z → Z) : zsum (λ i, count_ i * g (ch_ i)) (occurring file) = zsum g file.
Proof using Hbytes Hlen.
  unfold occurring. rewrite zsum_filter_zero, counted_entries; [|intros i Hi; lia]. rewrite <- (zsum_occurrences g file Hbytes). change (entry file <$> seq 0 256) with (map (entry file) (seq 0 256)). by rewrite zsum_map.
Qed.

Lemma occurring_char i : i ∈ occurring file → i = entry file (Z.to_nat (ch_ i)) ∧ is_byte (ch_ i) ∧ ch_ i ∈ file.
Proof using Hbytes Hlen.
  unfold occurring. rewrite counted_entries. intros [Hi (k & -> & Hk%elem_of_seq)%list_elem_of_fmap]%list_elem_of_filter. cbn [entry ch_ count_] in *. rewrite Nat2Z.id. split; [done|]. split; [unfold is_byte; lia|].
  unfold occurrences in Hi. destruct (filter _ file) as [|c l] eqn:E; [done|]. assert (c ∈ filter (λ c, Z.to_nat c = k) file) as [Hc Hin]%list_elem_of_filter by (rewrite E; by left).
  replace (Z.of_nat k) with c; [done|]. rewrite Forall_forall in Hbytes. specialize (Hbytes c Hin). unfold is_byte in Hbytes. lia.
Qed.

Lemma occurring_nodup : NoDup (ch_ <$> occurring file).
Proof using Hlen.
  unfold occurring. eapply sublist_NoDup; [|apply fmap_sublist, sublist_filter]. rewrite counted_entries, <- list_fmap_compose. apply NoDup_fmap_2; [intros j k E; cbn in E; lia|apply NoDup_seq].
Qed.

(** The cost of a tree of the file is the length of its codes. *)
Lemma cost_file t code : leaves t ≡ₚ occurring file → Forall (λ c, ∃ w, (w, code c) ∈ paths t ∧ code c ≠ [] ∧ u8 (ch_ w) = c) file →
  cost t = Z.of_nat (length (flat_map code file)).
Proof using Hbytes Hlen.
  intros Hl Hcode. rewrite Forall_forall in Hcode. assert (NoDup (paths t).*1) as Hnd. { rewrite paths_leaves, Hl. eapply NoDup_fmap_1, occurring_nodup. }
  assert (∀ w p, (w, p) ∈ paths t → p = code (ch_ w)) as Hp.
  { intros w p Hw. assert (∀ w p, (w, p) ∈ paths t → w ∈ occurring file) as Hocc by (intros w' p' Hw'; rewrite <- Hl, <- paths_leaves; by apply (list_elem_of_fmap_2 fst) in Hw').
    destruct (occurring_char w (Hocc _ _ Hw)) as (Ew & Hb & Hin). destruct (Hcode _ Hin) as (w' & Hw' & _ & Hc). destruct (occurring_char w' (Hocc _ _ Hw')) as (Ew' & Hb' & _).
    unfold u8, is_byte in *. rewrite Z.mod_small in Hc by lia. rewrite Hc in Ew'. assert (w' = w) as -> by congruence. by apply (keyed_unique (paths t) w). }
  unfold cost. rewrite (zsum_ext _ (λ u, count_ u.1 * Z.of_nat (length (code (ch_ u.1))))).
  - rewrite <- (zsum_map (λ i, count_ i * Z.of_nat (length (code (ch_ i)))) fst). change (map fst (paths t)) with ((paths t).*1). rewrite paths_leaves, Hl, (zsum_occurring (λ c, Z.of_nat (length (code c)))).
    symmetry. apply length_codes.
  - intros [w p] Hw. unfold code_bits. cbn [fst snd]. by rewrite (Hp w p Hw).
Qed.
End file.

Lemma kraft_code {A} `{EqDecision A} (code : A → list bool) M l : NoDup l → prefix_code code l → (∀ a, a ∈ l → (length (code a) ≤ M)%nat) → kraft M (map (λ a, length (code a)) l).
Proof.
  intros Hnd Hc Hl. split; [|rewrite zsum_map; by apply prefix_code_kraft]. apply Forall_map, Forall_forall. exact Hl.
Qed.

(** The tree of a file costs no more bits than any prefix code. *)
Lemma tree_optimal {Q} `{PriorityQueueOk Q} file t (code : Z → list bool) : Forall is_byte file → Z.of_nat (length file) < 2 ^ 32 → CreateHuffmantree (counted file) 0 = Ok t →
  prefix_code code file → cost t ≤ Z.of_nat (length (flat_map code file)).
Proof.
  intros Hbytes Hlen Et Hc. destruct (counted_total file Hbytes Hlen) as [Htot Hpos]. destruct (push_all_summed (counted file) Hpos ltac:(lia)) as (Hp & _ & Hs). fold (occurring file) in Hp.
  unfold CreateHuffmantree in Et. destruct (merge_loop _ _) as [hp'| |] eqn:E; [|done..]. rewrite ok_bind in Et. destruct (pq_top hp') as [t'|] eqn:Etop; [|done]. injection Et as ->.
  set (l := map (λ i, (length (code (ch_ i)), Leaf i)) (occurring file)). set (M := length (flat_map code file)).
  assert (kraft M l.*1) as Hk.
  { replace (l.*1) with (map (λ c, length (code c)) (ch_ <$> occurring file)) by (unfold l; change (?g <$> ?u) with (map g u); by rewrite !map_map). apply kraft_code; [by apply occurring_nodup| |].
    - intros a b (i & -> & Hi)%list_elem_of_fmap (j & -> & Hj)%list_elem_of_fmap. apply Hc; by apply occurring_char.
    - intros a (i & -> & Hi)%list_elem_of_fmap. apply occurring_char in Hi as (_ & _ & Hin); [|done..]. unfold M. clear -Hin. induction Hin; cbn; rewrite length_app; lia. }
  pose proof (merge_optimal (S (length (counted file))) M _ hp' t l Hs E Etop) as Hopt. rewrite Hp in Hopt. specialize (Hopt ltac:(unfold l; change (?g <$> ?u) with (map g u); by rewrite map_map) Hk).
  rewrite zsum_map in Hopt. rewrite (zsum_ext _ (λ _, 0 * 0)), (zsum_scale (λ _, 0) 0) in Hopt by (intros i _; unfold cost, code_bits; cbn; lia).
  rewrite Z.mul_0_l, Z.add_0_l in Hopt. unfold weight, l in Hopt. rewrite zsum_map in Hopt. cbn [fst snd node_count] in Hopt. rewrite (zsum_ext _ (λ i, count_ i * Z.of_nat (length (code (ch_ i))))) in Hopt by (intros i _; lia).
  rewrite (zsum_occurring file Hbytes Hlen (λ c, Z.of_nat (length (code c)))) in Hopt. etrans; [exact Hopt|]. apply Z.eq_le_incl. symmetry. apply length_codes.
Qed.

(** C12. The compressed data are as short as any prefix code can make them: for a file of fewer than
    2^32 bytes with at least two different ones, [Compress] writes the records of the counts,
    the end mark and no more bytes than the codes of the file under any other prefix code fill,
    whatever the priority queue does with nodes of equal count. *)
Theorem compress_optimal {Q} `{PriorityQueueOk Q} pad junk file a b : Forall is_byte file → Z.of_nat (length file) < 2 ^ 32 → a ∈ file → b ∈ file → a ≠ b →
  ∃ data, Compress pad junk infos_new file = Ok (write_infos pad (counted file) ++ tmp_info pad junk (2 ^ 32 - 1) ++ data) ∧
    ∀ code : Z → list bool, prefix_code code file → (8 * length data < length (flat_map code file) + 8)%nat.
Proof.
  intros Hbytes Hlen Ha Hb Hab. destruct (compress_run pad junk file a b Hbytes Hlen Ha Hb Hab) as (t & code & data & fill & Et & _ & Ez & Hcode & _ & Hfill & Hs).
  rewrite (write_infos_ext pad _ (counted file) (generate_counts t (counted file) [])) in Ez. exists data. split; [exact Ez|]. intros code' Hc. destruct (tree_of_file file Hbytes Hlen a Ha) as (t' & Et' & Hl & _).
  assert (t' = t) as -> by congruence. pose proof (tree_optimal file t code' Hbytes Hlen Et Hc) as Hopt. rewrite (cost_file file Hbytes Hlen t code Hl Hcode) in Hopt.
  apply (f_equal length) in Hs. rewrite length_stream, length_app, length_map in Hs. lia.
Qed.

Definition five : list Z := [97; 98; 97; 99; 97].

(** The data of these five characters are not longer than those of the code 1, 01, 00. *)
Definition five_code (c : Z) : list bool := if c =? 97 then [true] else if c =? 98 then [false; true] else [false; false].

Lemma compress_optimal_witness : ∃ data, Compress [0; 0; 0] 0 infos_new five = Ok (write_infos [0; 0; 0] (counted five) ++ tmp_info [0; 0; 0] 0 (2 ^ 32 - 1) ++ data) ∧
  (8 * length data < length (flat_map five_code five) + 8)%nat.
Proof.
  destruct (compress_optimal (Q := list HuffmanTreeNode) [0; 0; 0] 0 five 97 98) as (data & E & Hopt); [by repeat constructor|done|by left|by right; left|done|]. exists data. split; [exact E|]. apply Hopt.
  assert (Forall (λ a, Forall (λ b, a ≠ b → ¬ five_code a `prefix_of` five_code b) five) five) as Hall by by apply (bool_decide_unpack _).
  intros a b Ha Hb. rewrite Forall_forall in Hall. specialize (Hall a Ha). rewrite Forall_forall in Hall. exact (Hall b Hb).
Defined.
