(* ===== verification/TinyText.v ===== *)
(** * TinyText: the text layer of src/tinyxml2/tinyxml2.cpp

    [StrPair], a string that lies between two positions of the document's buffer and is
    cleaned up in place when it is first read, and the functions of [XMLUtil] it uses.  The
    header tinyxml2.h is not part of the repository: its constants and its inline functions are
    the class [TinyxmlH], what the code relies on of them [TinyxmlHOk].  A buffer is a block
    with bounds-checked accesses, a position in it a pointer; characters are bytes. *)

From S2P Require Import Prelude.
#[local] Open Scope Z_scope.

(** ** What tinyxml2.h declares *)
Class TinyxmlH := {
  NEEDS_ENTITY_PROCESSING : Z;
  NEEDS_NEWLINE_NORMALIZATION : Z;
  NEEDS_WHITESPACE_COLLAPSING : Z;
  TEXT_ELEMENT : Z;
  TEXT_ELEMENT_LEAVE_ENTITIES : Z;
  ATTRIBUTE_VALUE : Z;
  ATTRIBUTE_VALUE_LEAVE_ENTITIES : Z;
  COMMENT : Z;
  NEEDS_FLUSH : Z;
  NEEDS_DELETE : Z;
  ENTITY_RANGE : Z;
  TINYXML2_MAX_ELEMENT_DEPTH : Z;
  IsWhiteSpace : Z → bool;
  IsNameStartChar : Z → bool;
  IsNameChar : Z → bool;
  (** [SkipWhiteSpace(p, line)]: the new position and the number of line feeds passed *)
  SkipWhiteSpace : list Z → Z → result (Z * Z);
  (** [StringEqual(p, q)] of two strings, and [StringEqual(p, lit, strlen(lit))] *)
  StringEqual : list Z → list Z → bool;
  StringEqualN : list Z → Z → list Z → result bool;
  (** The printer's [CompactMode(element)], of the mode it was constructed with *)
  CompactMode : bool → bool
}.

(** [strncmp(p, lit, strlen(lit)) == 0] *)
Fixpoint strneq (b : list Z) (p : Z) (lit : list Z) : result bool :=
  match lit with
  | [] => Ok true
  | c :: lit => d ← b.[p]; if d =? c then strneq b (p + 1) lit else Ok false
  end.

(** The white space that starts a list, and the rest. *)
Fixpoint skip_blank `{TinyxmlH} (s : list Z) : list Z :=
  match s with c :: s' => if IsWhiteSpace c then skip_blank s' else s | [] => [] end.
Fixpoint blanks `{TinyxmlH} (s : list Z) : list Z :=
  match s with c :: s' => if IsWhiteSpace c then c :: blanks s' else [] | [] => [] end.
Definition newlines (s : list Z) : Z := Z.of_nat (length (filter (λ c, c = 10) s)).

(** The characters with a meaning in the markup. *)
Definition special : list Z := [0; 9; 10; 11; 12; 13; 32; 33; 34; 38; 39; 47; 60; 61; 62; 63].

(** The flags are bits of their own, the modes combine them; the classes of characters and
    the two inline functions are what their documentation says. *)
Class TinyxmlHOk `{TinyxmlH} : Prop := {
  flag_bits : ∃ bits, NoDup bits ∧ Forall (λ n, 0 ≤ n) bits ∧
    (λ n, 2 ^ n) <$> bits = [NEEDS_ENTITY_PROCESSING; NEEDS_NEWLINE_NORMALIZATION; NEEDS_WHITESPACE_COLLAPSING; NEEDS_FLUSH; NEEDS_DELETE];
  text_element_mode : TEXT_ELEMENT = Z.lor NEEDS_ENTITY_PROCESSING NEEDS_NEWLINE_NORMALIZATION;
  text_leave_mode : TEXT_ELEMENT_LEAVE_ENTITIES = NEEDS_NEWLINE_NORMALIZATION;
  attribute_mode : ATTRIBUTE_VALUE = Z.lor NEEDS_ENTITY_PROCESSING NEEDS_NEWLINE_NORMALIZATION;
  attribute_leave_mode : ATTRIBUTE_VALUE_LEAVE_ENTITIES = NEEDS_NEWLINE_NORMALIZATION;
  comment_mode : COMMENT = NEEDS_NEWLINE_NORMALIZATION;
  entity_range : ENTITY_RANGE = 64;
  max_depth_pos : 1 < TINYXML2_MAX_ELEMENT_DEPTH;
  white_space : ∀ c, IsWhiteSpace c = bool_decide (c ∈ [9; 10; 11; 12; 13; 32]);
  name_start_char : ∀ c, IsNameStartChar c = true → IsNameChar c = true;
  name_char : ∀ c, IsNameChar c = true → c ∉ special;
  skip_white_space : ∀ b p, 0 ≤ p → skip_blank (drop (Z.to_nat p) b) ≠ [] →
    SkipWhiteSpace b p = Ok (p + Z.of_nat (length (blanks (drop (Z.to_nat p) b))), newlines (blanks (drop (Z.to_nat p) b)));
  string_equal : ∀ s t, StringEqual s t = bool_decide (s = t);
  string_equal_n : ∀ b p lit, StringEqualN b p lit = strneq b p lit;
  compact_mode : ∀ m, CompactMode m = m
}.

Definition LF : Z := 10.
Definition CR : Z := 13.

Record Entity := mk_entity { pattern : list Z; value : Z }.

(** quot, amp, apos, lt, gt *)
Definition entities : list Entity :=
  [mk_entity [113; 117; 111; 116] 34; mk_entity [97; 109; 112] 38; mk_entity [97; 112; 111; 115] 39;
   mk_entity [108; 116] 60; mk_entity [103; 116] 62].

(** ** XMLUtil *)
Definition TIXML_UTF_LEAD_0 : Z := 0xEF.
Definition TIXML_UTF_LEAD_1 : Z := 0xBB.
Definition TIXML_UTF_LEAD_2 : Z := 0xBF.

Definition ReadBOM (b : list Z) (p : Z) : result (Z * bool) :=
  bom ← strneq b p [TIXML_UTF_LEAD_0; TIXML_UTF_LEAD_1; TIXML_UTF_LEAD_2];
  Ok (if bom : bool then (p + 3, true) else (p, false)).

(** The cases [n], ..., 1 of the switch, which fall through and fill the output backwards. *)
Definition FIRST_BYTE_MARK (length : nat) : Z :=
  match length with 2%nat => 0xC0 | 3%nat => 0xE0 | 4%nat => 0xF0 | _ => 0 end.

Fixpoint utf8_fill (length n : nat) (input : Z) : list Z :=
  match n with
  | O => []
  | S O => [u8 (Z.lor input (FIRST_BYTE_MARK length))]
  | S n => utf8_fill length n (Z.shiftr input 6) ++ [u8 (Z.land (Z.lor input 0x80) 0xBF)]
  end.

Definition ConvertUTF32ToUTF8 (input : Z) : list Z :=
  let length := if input <? 0x80 then 1%nat else if input <? 0x800 then 2%nat else if input <? 0x10000 then 3%nat
                else if input <? 0x200000 then 4%nat else 0%nat in
  utf8_fill length length input.

(** [strchr(q, c)] *)
Fixpoint strchr (fuel : nat) (b : list Z) (q c : Z) : result (option Z) :=
  match fuel with
  | O => OutOfFuel
  | S fuel => d ← b.[q]; if d =? c then Ok (Some q) else if d =? 0 then Ok None else strchr fuel b (q + 1) c
  end.

Definition hex_value (c : Z) : option Z :=
  if (48 <=? c) && (c <=? 57) then Some (c - 48)
  else if (97 <=? c) && (c <=? 102) then Some (c - 97 + 10)
  else if (65 <=? c) && (c <=? 70) then Some (c - 65 + 10) else None.
Definition dec_value (c : Z) : option Z := if (48 <=? c) && (c <=? 57) then Some (c - 48) else None.

(** The digits from [q] backwards to the character [stop]; [mult] is an [unsigned] and [ucs] an
    [unsigned long]. *)
Fixpoint ref_digits (fuel : nat) (digit_of : Z → option Z) (base stop : Z) (b : list Z) (q ucs mult : Z) : result (option Z) :=
  match fuel with
  | O => OutOfFuel
  | S fuel =>
      c ← b.[q];
      if c =? stop then Ok (Some ucs) else
      match digit_of c with
      | None => Ok None
      | Some digit => ref_digits fuel digit_of base stop b (q - 1) (u64 (ucs + u32 (mult * digit))) (u32 (mult * base))
      end
  end.

(** The position after the reference and its characters; [None] is the null pointer. *)
Definition GetCharacterRef (b : list Z) (p : Z) : result (option Z * list Z) :=
  let fuel := S (length b) in
  hash ← b.[p + 1];
  if negb (hash =? 35) then Ok (Some (p + 1), []) else
  c2 ← b.[p + 2];
  if c2 =? 0 then Ok (Some (p + 1), []) else
  let go (digit_of : Z → option Z) (base stop first : Z) :=
    c ← b.[first];
    if c =? 0 then Ok (None, []) else
    q ← strchr fuel b first 59;
    match q with
    | None => Ok (None, [])
    | Some q =>
        ucs ← ref_digits fuel digit_of base stop b (q - 1) 0 1;
        match ucs with
        | None => Ok (None, [])
        | Some ucs => Ok (Some (q + 1), ConvertUTF32ToUTF8 ucs)
        end
    end in
  if c2 =? 120 then go hex_value 16 120 (p + 3) else go dec_value 10 35 (p + 2).

(** ** StrPair *)
Inductive cstr := Null | Shared (start end_ : Z) | Owned (block : list Z).

Record StrPair := mk_pair { flags_ : Z; str_ : cstr }.

Definition StrPair_new : StrPair := mk_pair 0 Null.

Definition has (flags bit : Z) : bool := negb (Z.land flags bit =? 0).

Section text.
Context `{TinyxmlH}.

(** [Set] of tinyxml2.h, and [Empty]; the end of an owned string is its NUL. *)
Definition Set_ (start end_ flags : Z) : StrPair := mk_pair (Z.lor flags NEEDS_FLUSH) (Shared start end_).
Definition Empty (s : StrPair) : bool := match str_ s with Null => true | Shared i j => i =? j | Owned b => Nat.leb (length b) 1 end.

(** [TransferTo]: the other pair and what is left of this one. *)
Definition TransferTo (this : StrPair) : StrPair * StrPair := (this, StrPair_new).

Definition SetStr (str : list Z) (flags : Z) : StrPair := mk_pair (Z.lor flags NEEDS_DELETE) (Owned (str ++ [0])).

(** The position after the end tag, the pair and the number of the line reached. *)
Fixpoint text_loop (fuel : nat) (b : list Z) (start p : Z) (endTag : list Z) (strFlags line : Z) : result (option Z * StrPair * Z) :=
  match fuel with
  | O => OutOfFuel
  | S fuel =>
      c ← b.[p];
      if c =? 0 then Ok (None, StrPair_new, line) else
      found ← (if bool_decide (head endTag = Some c) then strneq b p endTag else Ok false);
      if found : bool then Ok (Some (p + Z.of_nat (length endTag)), Set_ start p strFlags, line)
      else text_loop fuel b start (p + 1) endTag strFlags (if c =? LF then line + 1 else line)
  end.

Definition ParseText (b : list Z) (p : Z) (endTag : list Z) (strFlags line : Z) : result (option Z * StrPair * Z) :=
  text_loop (S (length b)) b p p endTag strFlags line.

Fixpoint name_loop (fuel : nat) (b : list Z) (p : Z) : result Z :=
  match fuel with
  | O => OutOfFuel
  | S fuel => c ← b.[p]; if negb (c =? 0) && IsNameChar c then name_loop fuel b (p + 1) else Ok p
  end.

Definition ParseName (b : list Z) (p : option Z) : result (option Z * StrPair) :=
  match p with
  | None => Ok (None, StrPair_new)
  | Some p =>
      c ← b.[p];
      if (c =? 0) || negb (IsNameStartChar c) then Ok (None, StrPair_new) else
      q ← name_loop (S (length b)) b (p + 1);
      Ok (Some q, Set_ p q 0)
  end.

Fixpoint collapse_loop (fuel : nat) (b : list Z) (p q : Z) : result (list Z) :=
  match fuel with
  | O => OutOfFuel
  | S fuel =>
      c ← b.[p];
      if c =? 0 then b.[q := 0] else
      if IsWhiteSpace c then
        '(p, _) ← SkipWhiteSpace b p;
        c ← b.[p];
        if c =? 0 then b.[q := 0] else
        b ← b.[q := 32];
        c ← b.[p];
        b ← b.[q + 1 := c];
        collapse_loop fuel b (p + 1) (q + 2)
      else b ← b.[q := c]; collapse_loop fuel b (p + 1) (q + 1)
  end.

(** The buffer and the new start. *)
Definition CollapseWhitespace (b : list Z) (start : Z) : result (list Z * Z) :=
  '(start, _) ← SkipWhiteSpace b start;
  c ← b.[start];
  if c =? 0 then Ok (b, start) else b ← collapse_loop (S (length b)) b start start; Ok (b, start).

Fixpoint find_entity (es : list Entity) (b : list Z) (p : Z) : result (option Entity) :=
  match es with
  | [] => Ok None
  | e :: es =>
      same ← strneq b (p + 1) (pattern e);
      hit ← (if same : bool then c ← b.[p + Z.of_nat (length (pattern e)) + 1]; Ok (c =? 59) else Ok false);
      if hit : bool then Ok (Some e) else find_entity es b p
  end.

(** [while (p < _end)]: the buffer, and where the cleaned-up string ends. *)
Fixpoint clean_loop (fuel : nat) (flags : Z) (b : list Z) (p q end_ : Z) : result (list Z * Z) :=
  match fuel with
  | O => OutOfFuel
  | S fuel =>
      if negb (p <? end_) then Ok (b, q) else
      c ← b.[p];
      if has flags NEEDS_NEWLINE_NORMALIZATION && (c =? CR) then
        d ← b.[p + 1]; b ← b.[q := LF]; clean_loop fuel flags b (if d =? LF then p + 2 else p + 1) (q + 1) end_
      else if has flags NEEDS_NEWLINE_NORMALIZATION && (c =? LF) then
        d ← b.[p + 1]; b ← b.[q := LF]; clean_loop fuel flags b (if d =? CR then p + 2 else p + 1) (q + 1) end_
      else if has flags NEEDS_ENTITY_PROCESSING && (c =? 38) then
        d ← b.[p + 1];
        if d =? 35 then
          '(adjusted, buf) ← GetCharacterRef b p;
          match adjusted with
          | None => b ← b.[q := c]; clean_loop fuel flags b (p + 1) (q + 1) end_
          | Some p => b ← memwrite b q buf; clean_loop fuel flags b p (q + Z.of_nat (length buf)) end_
          end
        else
          e ← find_entity entities b p;
          match e with
          | Some e => b ← b.[q := value e]; clean_loop fuel flags b (p + Z.of_nat (length (pattern e)) + 2) (q + 1) end_
          | None => clean_loop fuel flags b (p + 1) (q + 1) end_
          end
      else b ← b.[q := c]; clean_loop fuel flags b (p + 1) (q + 1) end_
  end.

(** The string at [start], which a NUL ends. *)
Fixpoint cstr_loop (fuel : nat) (b : list Z) (p : Z) : result (list Z) :=
  match fuel with
  | O => OutOfFuel
  | S fuel => c ← b.[p]; if c =? 0 then Ok [] else s ← cstr_loop fuel b (p + 1); Ok (c :: s)
  end.
Definition cstr_at (b : list Z) (p : Z) : result (list Z) := cstr_loop (S (length b)) b p.

(** [GetStr]: the buffer, the pair and the string returned. *)
Definition GetStr (b : list Z) (s : StrPair) : result (list Z * StrPair * list Z) :=
  match str_ s with
  | Null => Ub
  | Owned block => t ← cstr_at block 0; Ok (b, s, t)
  | Shared start end_ =>
      if negb (has (flags_ s) NEEDS_FLUSH) then t ← cstr_at b start; Ok (b, s, t) else
      b ← b.[end_ := 0];
      let flags := Z.lxor (flags_ s) NEEDS_FLUSH in
      b ← (if flags =? 0 then Ok b else
             '(b, q) ← clean_loop (S (length b)) flags b start start end_; b.[q := 0]);
      '(b, start) ← (if has flags NEEDS_WHITESPACE_COLLAPSING then CollapseWhitespace b start else Ok (b, start));
      t ← cstr_at b start;
      Ok (b, mk_pair (Z.land flags NEEDS_DELETE) (Shared start end_), t)
  end.
End text.
