(* ===== verification/TinyClean.v ===== *)
(** * TinyClean: what reading a string of tinyxml2.cpp makes of it

    [GetStr] cleans a string up inside the buffer.  [clean_text] is the cleaned string as a
    function of the text between the two positions; the in-place loop computes it, and touches
    nothing outside.  Escaping by the printer is undone. *)

From S2P Require Import Prelude TinyText.
#[local] Open Scope Z_scope.

(** ** Text in a block *)
Definition occupies (b : list Z) (p : Z) (s : list Z) : Prop := ∃ x y, b = x ++ s ++ y ∧ p = Z.of_nat (length x).

Lemma occupies_nonneg b p s : occupies b p s → 0 ≤ p.
Proof. intros (x & y & _ & ->). lia. Qed.

Lemma occupies_load b p c s : occupies b p (c :: s) → b.[p] = Ok c.
Proof. intros (x & y & -> & ->). apply blk_load_Ok; [lia|]. rewrite Nat2Z.id. by apply list_lookup_middle. Qed.

Lemma occupies_app b p s t : occupies b p (s ++ t) → occupies b p s ∧ occupies b (p + Z.of_nat (length s)) t.
Proof.
  intros (x & y & -> & ->). split; [exists x, (t ++ y); by rewrite <- app_assoc|]. exists (x ++ s), y. split; [by rewrite <- !app_assoc|].
  rewrite length_app. lia.
Qed.

Lemma occupies_tail b p c s : occupies b p (c :: s) → occupies b (p + 1) s.
Proof. intros Hs. by apply (occupies_app b p [c] s) in Hs as [_ Hs]. Qed.

Lemma occupies_length b p s : occupies b p s → p + Z.of_nat (length s) ≤ Z.of_nat (length b).
Proof. intros (x & y & -> & ->). rewrite !length_app. lia. Qed.

Lemma occupies_drop b p s : occupies b p s → ∃ y, drop (Z.to_nat p) b = s ++ y.
Proof. intros (x & y & -> & ->). exists y. by rewrite Nat2Z.id, drop_app_length. Qed.

(** Writing one character, in place of one that is there. *)
Lemma occupies_store x c d y q : q = Z.of_nat (length x) → (x ++ c :: y).[q := d] = Ok (x ++ d :: y).
Proof.
  intros ->. unfold blk_store. rewrite bool_decide_eq_true_2 by (rewrite length_app; cbn; lia). rewrite Nat2Z.id.
  by rewrite insert_app_r_alt, Nat.sub_diag by lia.
Qed.

Lemma strneq_spec b lit : ∀ p s, occupies b p (s ++ [0]) → 0 ∉ lit → strneq b p lit = Ok (bool_decide (lit `prefix_of` s)).
Proof.
  induction lit as [|c lit IH]; intros p s Hs H0; cbn [strneq]; [by rewrite bool_decide_eq_true_2 by apply prefix_nil|].
  apply not_elem_of_cons in H0 as [Hc H0]. destruct s as [|d s].
  - rewrite (occupies_load _ _ _ _ Hs), ok_bind. rewrite (proj2 (Z.eqb_neq 0 c)) by done.
    rewrite bool_decide_eq_false_2; [done|]. by intros ?%prefix_nil_not.
  - rewrite (occupies_load _ _ _ _ Hs), ok_bind. destruct (Z.eqb_spec d c) as [->|Hne].
    + rewrite (IH (p + 1) s (occupies_tail _ _ _ _ Hs) H0). f_equal. apply bool_decide_ext. split; [by apply prefix_cons|by apply prefix_cons_inv_2].
    + rewrite bool_decide_eq_false_2; [done|]. intros ?%prefix_cons_inv_1. congruence.
Qed.

(** ** Entities and references, as functions of the text behind the ampersand *)
Definition find_prefix (es : list Entity) (s : list Z) : option Entity :=
  List.find (λ e, bool_decide ((pattern e ++ [59]) `prefix_of` s)) es.
Definition entity_ref (s : list Z) : option (Z * list Z) :=
  e ← find_prefix entities s; Some (value e, drop (S (length (pattern e))) s).

(** The text before the first semicolon, and behind it. *)
Fixpoint to_semicolon (s : list Z) : option (list Z * list Z) :=
  match s with
  | [] => None
  | c :: s => if c =? 59 then Some ([], s) else '(ds, r) ← to_semicolon s; Some (c :: ds, r)
  end.

(** The digits from right to left, up to the character [stop]. *)
Fixpoint ref_number (digit_of : Z → option Z) (base stop : Z) (ds : list Z) (ucs mult : Z) : option Z :=
  match ds with
  | [] => Some ucs
  | c :: ds => if c =? stop then Some ucs else d ← digit_of c; ref_number digit_of base stop ds (u64 (ucs + u32 (mult * d))) (u32 (mult * base))
  end.

(** The text from the number sign on: the characters it stands for, and the text behind. *)
Definition char_ref (s : list Z) : option (list Z * list Z) :=
  let go (digit_of : Z → option Z) (base stop : Z) (u : list Z) :=
    '(ds, r) ← to_semicolon u; ucs ← ref_number digit_of base stop (rev ds) 0 1; Some (ConvertUTF32ToUTF8 ucs, r) in
  match tail s with
  | [] => Some ([], s)
  | 120 :: u => go hex_value 16 120 u
  | u => go dec_value 10 35 u
  end.

Definition skip_if (c : Z) (s : list Z) : list Z := match s with d :: s' => if d =? c then s' else s | [] => [] end.

(** An ampersand that starts no entity is not written: what stays in its place is the character
    of the raw text at that position. *)
Fixpoint clean_text (fuel : nat) (nl en : bool) (raw out rest : list Z) : list Z :=
  match fuel, rest with
  | S fuel, c :: s =>
      if nl && (c =? 13) then clean_text fuel nl en raw (out ++ [10]) (skip_if 10 s)
      else if nl && (c =? 10) then clean_text fuel nl en raw (out ++ [10]) (skip_if 13 s)
      else if en && (c =? 38) then
        if bool_decide (head s = Some 35) then
          match char_ref s with
          | Some (cs, s') => clean_text fuel nl en raw (out ++ cs) s'
          | None => clean_text fuel nl en raw (out ++ [38]) s
          end
        else
          match entity_ref s with
          | Some (v, s') => clean_text fuel nl en raw (out ++ [v]) s'
          | None => clean_text fuel nl en raw (out ++ [raw !!! length out]) s
          end
      else clean_text fuel nl en raw (out ++ [c]) s
  | _, _ => out
  end.

Definition cleaned (nl en : bool) (raw : list Z) : list Z := clean_text (length raw) nl en raw [] raw.

Lemma find_entity_spec b p s : ∀ es, Forall (λ e, 0 ∉ pattern e) es → occupies b (p + 1) (s ++ [0]) →
  find_entity es b p = Ok (find_prefix es s).
Proof.
  intros es Hes Hs. induction Hes as [|e es He _ IH]; [done|]. unfold find_prefix in *. cbn [find_entity List.find]. rewrite (strneq_spec b (pattern e) _ _ Hs He), ok_bind.
  case_bool_decide as Hp.
  - destruct Hp as [t ->]. rewrite <- app_assoc in Hs. apply occupies_app in Hs as [_ Hs]. replace (p + Z.of_nat (length (pattern e)) + 1) with (p + 1 + Z.of_nat (length (pattern e))) by lia.
    assert (∃ c u, t ++ [0] = c :: u ∧ (c =? 59) = bool_decide ([59] `prefix_of` t)) as (c & u & E & Ec).
    { destruct t as [|c t]; [by eexists _, _|]. exists c, (t ++ [0]). split; [done|]. destruct (Z.eqb_spec c 59) as [->|Hne].
      - symmetry. apply bool_decide_eq_true_2. apply prefix_cons, prefix_nil.
      - symmetry. apply bool_decide_eq_false_2. intros ?%prefix_cons_inv_1. congruence. }
    rewrite E in Hs. rewrite (occupies_load _ _ _ _ Hs). rewrite !ok_bind, Ec. case_bool_decide as Hsemi.
    + rewrite bool_decide_eq_true_2; [done|]. by apply prefix_app.
    + rewrite bool_decide_eq_false_2; [exact IH|]. intros Hc. apply prefix_app_inv in Hc. done.
  - rewrite ok_bind. rewrite bool_decide_eq_false_2; [exact IH|]. intros [t ->]. apply Hp. rewrite <- app_assoc. by apply prefix_app_r.
Qed.

Lemma strchr_spec b : ∀ s p fuel, occupies b p (s ++ [0]) → 0 ∉ s → (length s < fuel)%nat →
  strchr fuel b p 59 = Ok ((λ '(ds, _), p + Z.of_nat (length ds)) <$> to_semicolon s).
Proof.
  induction s as [|c s IH]; intros p [|fuel] Hs H0 Hf; try (by apply Nat.nlt_0_r in Hf); cbn [strchr to_semicolon].
  - by rewrite (occupies_load _ _ _ _ Hs), ok_bind.
  - apply not_elem_of_cons in H0 as [Hc H0]. rewrite (occupies_load _ _ _ _ Hs), ok_bind. destruct (Z.eqb_spec c 59) as [->|Hne]; [cbn; by rewrite Z.add_0_r|].
    rewrite (proj2 (Z.eqb_neq c 0)) by done. cbn in Hf. rewrite (IH _ fuel (occupies_tail _ _ _ _ Hs) H0) by lia.
    destruct (to_semicolon s) as [[ds r]|]; [|done]. cbn. do 2 f_equal. lia.
Qed.

Lemma to_semicolon_app s ds r : to_semicolon s = Some (ds, r) → s = ds ++ 59 :: r.
Proof.
  revert ds r. induction s as [|c s IH]; intros ds r; cbn [to_semicolon]; [done|]. destruct (Z.eqb_spec c 59) as [->|Hne]; [by intros [= <- <-]|].
  destruct (to_semicolon s) as [[ds' r']|] eqn:E; [|done]. intros [= <- <-]. cbn. f_equal. by apply IH.
Qed.

(** Reading the digits backwards ends at [stop], which stands before them. *)
Lemma ref_digits_spec digit_of base stop b ds : ∀ p ucs mult fuel, occupies b p (stop :: rev ds) → (length ds < fuel)%nat →
  ref_digits fuel digit_of base stop b (p + Z.of_nat (length ds)) ucs mult = Ok (ref_number digit_of base stop ds ucs mult).
Proof.
  induction ds as [|c ds IH]; intros p ucs mult [|fuel] Hs Hf; try (by apply Nat.nlt_0_r in Hf); cbn [ref_digits ref_number length].
  - cbn [rev] in Hs. rewrite Z.add_0_r, (occupies_load _ _ _ _ Hs), ok_bind, Z.eqb_refl. done.
  - cbn [rev] in Hs. change (stop :: rev ds ++ [c]) with ((stop :: rev ds) ++ [c]) in Hs. apply occupies_app in Hs as [Hs Hc].
    cbn [length] in Hc. rewrite length_rev in Hc. rewrite (occupies_load _ _ _ _ Hc), ok_bind. destruct (c =? stop); [done|].
    destruct (digit_of c) as [d|]; [|done]. cbn in Hf. replace (p + Z.of_nat (S (length ds)) - 1) with (p + Z.of_nat (length ds)) by lia.
    apply IH; [done|lia].
Qed.

(** The part of [GetCharacterRef] both notations share, on the text [u] behind [stop]. *)
Lemma ref_tail digit_of base stop b f u : occupies b (f - 1) (stop :: u ++ [0]) → 0 ∉ u →
  (c ← b.[f];
   if c =? 0 then Ok (None, []) else
   q ← strchr (S (length b)) b f 59;
   match q with
   | None => Ok (None, [])
   | Some q =>
       ucs ← ref_digits (S (length b)) digit_of base stop b (q - 1) 0 1;
       match ucs with None => Ok (None, []) | Some ucs => Ok (Some (q + 1), ConvertUTF32ToUTF8 ucs) end
   end) =
  Ok (match '(ds, r) ← to_semicolon u; ucs ← ref_number digit_of base stop (rev ds) 0 1; Some (ConvertUTF32ToUTF8 ucs, r) with
      | Some (cs, r) => (Some (f + Z.of_nat (length u - length r)), cs) | None => (None, []) end).
Proof.
  intros Hs H0. pose proof (occupies_length _ _ _ Hs) as Hl. cbn [length] in Hl. rewrite length_app in Hl. cbn [length] in Hl. apply occupies_nonneg in Hs as Hp.
  apply occupies_tail in Hs as Hu. replace (f - 1 + 1) with f in Hu by lia. destruct u as [|c u]; [by rewrite (occupies_load _ _ _ _ Hu), ok_bind|].
  assert (0 ≠ c) as Hc by set_solver. pose proof Hu as Hc'. cbn [app] in Hc'. rewrite (occupies_load _ _ _ _ Hc'), ok_bind, (proj2 (Z.eqb_neq c 0)) by done.
  rewrite (strchr_spec b (c :: u)) by (done || lia). rewrite ok_bind. destruct (to_semicolon (c :: u)) as [[ds r]|] eqn:Et; [|done].
  apply to_semicolon_app in Et as Ed. rewrite Ed in Hs |- *. cbn [fmap option_fmap option_map mbind option_bind].
  rewrite <- app_assoc, app_comm_cons in Hs. apply occupies_app in Hs as [Hs _].
  replace (f + Z.of_nat (length ds) - 1) with (f - 1 + Z.of_nat (length (rev ds))) by (rewrite length_rev; lia).
  rewrite ref_digits_spec; [|by rewrite rev_involutive|apply (f_equal length) in Ed; rewrite length_app in Ed; rewrite length_rev; cbn [length] in *; lia]. rewrite ok_bind.
  destruct (ref_number digit_of base stop (rev ds) 0 1) as [ucs|]; [|done]. cbn [mbind option_bind]. rewrite length_app. cbn [length].
  replace (Z.of_nat (length ds + S (length r) - length r)) with (Z.of_nat (length ds) + 1) by lia. by rewrite Z.add_assoc.
Qed.

Lemma GetCharacterRef_spec b p s : occupies b p (38 :: 35 :: s ++ [0]) → 0 ∉ s →
  GetCharacterRef b p = Ok (match char_ref (35 :: s) with
    | Some (cs, r) => (Some (p + 1 + Z.of_nat (length (35 :: s) - length r)), cs) | None => (None, []) end).
Proof.
  intros Hs H0. unfold GetCharacterRef. cbv zeta.
  apply occupies_tail in Hs as Hs1. rewrite (occupies_load _ _ _ _ Hs1), ok_bind. cbn [Z.eqb Pos.eqb negb].
  apply occupies_tail in Hs1 as Hs2. replace (p + 1 + 1) with (p + 2) in Hs2 by lia.
  destruct s as [|c s]; [rewrite (occupies_load _ _ _ _ Hs2), ok_bind; cbn; by rewrite Z.add_0_r|].
  cbn [app] in Hs2. rewrite (occupies_load _ _ _ _ Hs2) at 1. rewrite ok_bind. apply not_elem_of_cons in H0 as [Hc H0]. rewrite (proj2 (Z.eqb_neq c 0)) by done.
  destruct (Z.eqb_spec c 120) as [->|Hx].
  - rewrite (ref_tail hex_value 16 120 b (p + 3) s); [|by replace (p + 3 - 1) with (p + 2) by lia|done].
    change (char_ref (35 :: 120 :: s)) with ('(ds, r) ← to_semicolon s; ucs ← ref_number hex_value 16 120 (rev ds) 0 1; Some (ConvertUTF32ToUTF8 ucs, r)).
    destruct (to_semicolon s) as [[ds r]|] eqn:Et; [|done]. apply to_semicolon_app in Et. cbn [mbind option_bind].
    destruct (ref_number _ _ _ _ _ _); [|done]. cbn [mbind option_bind]. rewrite Et. cbn [length]. rewrite !length_app. cbn [length]. do 3 f_equal. lia.
  - rewrite (ref_tail dec_value 10 35 b (p + 2) (c :: s)); [|by replace (p + 2 - 1) with (p + 1) by lia|set_solver].
    assert (char_ref (35 :: c :: s) = '(ds, r) ← to_semicolon (c :: s); ucs ← ref_number dec_value 10 35 (rev ds) 0 1; Some (ConvertUTF32ToUTF8 ucs, r)) as ->.
    { unfold char_ref. cbn [tail]. repeat (destruct c as [|c|c]; try done). }
    destruct (to_semicolon (c :: s)) as [[ds r]|] eqn:Et; [|done]. apply to_semicolon_app in Et. cbn [mbind option_bind].
    destruct (ref_number _ _ _ _ _ _); [|done]. cbn [mbind option_bind]. rewrite Et. cbn [length]. rewrite !length_app. cbn [length]. do 3 f_equal. lia.
Qed.

Lemma ConvertUTF32ToUTF8_length ucs : (length (ConvertUTF32ToUTF8 ucs) ≤ 4)%nat.
Proof. unfold ConvertUTF32ToUTF8. repeat (destruct (_ <? _)); cbn; rewrite ?length_app; cbn; lia. Qed.

(** A reference is at least as long as the characters it stands for. *)
Lemma char_ref_suffix s cs r : char_ref s = Some (cs, r) → ∃ u, s = u ++ r ∧ (length cs ≤ S (length u))%nat.
Proof.
  assert (∀ digit_of base stop w v, s = w ++ v → w ≠ [] →
    ('(ds, r) ← to_semicolon v; ucs ← ref_number digit_of base stop (rev ds) 0 1; Some (ConvertUTF32ToUTF8 ucs, r)) = Some (cs, r) →
    ∃ u, s = u ++ r ∧ (length cs ≤ S (length u))%nat) as Hgo.
  { intros digit_of base stop w v -> Hw E. destruct (to_semicolon v) as [[ds r']|] eqn:Et; [|done]. apply to_semicolon_app in Et as ->. cbn [mbind option_bind] in E.
    destruct (ref_number digit_of base stop (rev ds) 0 1) as [ucs|] eqn:En; [|done]. injection E as <- <-. exists (w ++ ds ++ [59]). rewrite <- !app_assoc. split; [done|].
    rewrite !length_app. cbn [length]. destruct w as [|x w]; [done|]. cbn [length]. destruct ds as [|d ds].
    - cbn in En. injection En as <-. cbn. lia.
    - pose proof (ConvertUTF32ToUTF8_length ucs). cbn [length]. lia. }
  unfold char_ref. destruct s as [|c s]; cbn [tail].
  - intros [= <- <-]. exists []. split; [done|cbn; lia].
  - destruct s as [|d s]; [intros [= <- <-]; exists []; split; [done|cbn; lia]|].
    destruct (decide (d = 120)) as [->|Hd]; [by apply (Hgo hex_value 16 120 [c; 120] s)|].
    intros E. apply (Hgo dec_value 10 35 [c] (d :: s)); [done|done|]. rewrite <- E. repeat (destruct d as [|d|d]; try done).
Qed.

Lemma entities_patterns : Forall (λ e, 0 ∉ pattern e) entities.
Proof. unfold entities. repeat constructor; cbn; set_solver. Qed.

Lemma find_prefix_spec s e : find_prefix entities s = Some e → e ∈ entities ∧ ∃ r, s = pattern e ++ 59 :: r.
Proof.
  unfold find_prefix. intros Hf. apply List.find_some in Hf as [Hin Hp]. split; [by apply list_elem_of_In|].
  apply bool_decide_eq_true_1 in Hp as [r ->]. exists r. by rewrite <- app_assoc.
Qed.

(** One step of the loop: it passes [cons] and has written [ws]. *)
Lemma clean_write (pre out mid cons ws rest post : list Z) : (length ws ≤ length mid + length cons)%nat →
  memwrite (pre ++ out ++ mid ++ (cons ++ rest) ++ 0 :: post) (Z.of_nat (length pre + length out)) ws =
    Ok (pre ++ (out ++ ws) ++ drop (length ws) (mid ++ cons) ++ rest ++ 0 :: post).
Proof.
  intros Hl. assert (pre ++ out ++ mid ++ (cons ++ rest) ++ 0 :: post = (pre ++ out) ++ (mid ++ cons) ++ rest ++ 0 :: post) as -> by (by rewrite <- !app_assoc).
  assert (length (mid ++ cons) = length mid + length cons)%nat as Hm by apply length_app. set (m := mid ++ cons) in *. set (r := rest ++ 0 :: post).
  rewrite <- length_app, memwrite_Ok by (rewrite ?length_app; lia). rewrite Nat2Z.id, take_app_length, drop_app_add, drop_app_le by lia. by rewrite <- !app_assoc.
Qed.

Lemma memwrite_one b p v : 0 ≤ p < Z.of_nat (length b) → b.[p := v] = memwrite b p [v].
Proof.
  intros Hp. unfold blk_store. rewrite bool_decide_eq_true_2, memwrite_Ok by (cbn [length]; lia). rewrite insert_take_drop by lia. cbn [length]. by rewrite Nat.add_1_r.
Qed.

Lemma clean_store (pre out mid cons rest post : list Z) v : cons ≠ [] →
  (pre ++ out ++ mid ++ (cons ++ rest) ++ 0 :: post).[Z.of_nat (length pre + length out) := v] =
    Ok (pre ++ (out ++ [v]) ++ drop 1 (mid ++ cons) ++ rest ++ 0 :: post).
Proof.
  intros Hc. assert (1 ≤ length cons)%nat by (destruct cons; [done|cbn; lia]). rewrite memwrite_one by (rewrite !length_app; lia). apply clean_write. cbn [length]. lia.
Qed.

(** Reading at the position behind [mid], and behind it; writing behind [out]. *)
Section point_access.
Context (pre out mid s post : list Z) (c : Z).
#[local] Notation buffer out mid rest := (pre ++ out ++ mid ++ rest ++ 0 :: post).

Lemma point_load : (buffer out mid (c :: s)).[Z.of_nat (length pre + length out + length mid)] = Ok c.
Proof.
  apply (occupies_load _ _ _ (s ++ 0 :: post)). exists (pre ++ out ++ mid), []. rewrite app_nil_r, <- !app_assoc, !length_app. split; [done|]. f_equal. lia.
Qed.

Lemma point_next : occupies (buffer out mid (c :: s)) (Z.of_nat (length pre + length out + length mid) + 1) (s ++ [0]).
Proof.
  exists (pre ++ out ++ mid ++ [c]), post. rewrite <- !app_assoc. cbn [app]. split; [done|]. rewrite !length_app. cbn [length]. lia.
Qed.

Lemma point_store v : (buffer out mid (c :: s)).[Z.of_nat (length pre + length out) := v] = Ok (buffer (out ++ [v]) (drop 1 (mid ++ [c])) s).
Proof. by apply (clean_store pre out mid [c] s post v). Qed.
End point_access.

Section clean.
Context `{TinyxmlH} (flags : Z) (nl en : bool) (pre post raw : list Z).
Context (Hnl : has flags NEEDS_NEWLINE_NORMALIZATION = nl) (Hen : has flags NEEDS_ENTITY_PROCESSING = en) (Hraw : 0 ∉ raw).

Notation buffer out mid rest := (pre ++ out ++ mid ++ rest ++ 0 :: post).
Notation rpos out mid := (Z.of_nat (length pre + length out + length mid)).
Notation wpos out := (Z.of_nat (length pre + length out)).
Notation epos := (Z.of_nat (length pre + length raw)).

(** The loop at a point where [out] has been written and [rest] is to be read. *)
Definition cleans (n fuel : nat) (out mid rest : list Z) : Prop :=
  ∃ mid', clean_loop fuel flags (buffer out mid rest) (rpos out mid) (wpos out) epos =
    Ok (buffer (clean_text n nl en raw out rest) mid' [], wpos (clean_text n nl en raw out rest)) ∧
    (length (clean_text n nl en raw out rest) + length mid' = length raw)%nat.

Lemma cleans_end n fuel out mid : mid = drop (length out) raw → (length out ≤ length raw)%nat → cleans n (S fuel) out mid [].
Proof.
  intros Hmr Hout. exists mid. assert (length mid = length raw - length out)%nat as Hm by (by rewrite Hmr, length_drop).
  assert (clean_text n nl en raw out [] = out) as -> by (by destruct n). cbn [clean_loop]. rewrite (proj2 (Z.ltb_ge _ _)) by lia. split; [done|lia].
Qed.

(** An iteration that passes [cons] and leaves [ws]. *)
Lemma cleans_step n fuel out mid rest cons ws rest' : cleans n fuel (out ++ ws) (drop (length ws) (mid ++ cons)) rest' → (length ws ≤ length mid + length cons)%nat →
  clean_text (S n) nl en raw out rest = clean_text n nl en raw (out ++ ws) rest' →
  clean_loop (S fuel) flags (buffer out mid rest) (rpos out mid) (wpos out) epos =
    clean_loop fuel flags (buffer (out ++ ws) (drop (length ws) (mid ++ cons)) rest') (rpos out mid + Z.of_nat (length cons)) (wpos out + Z.of_nat (length ws)) epos →
  cleans (S n) (S fuel) out mid rest.
Proof.
  intros (mid' & El & Hl) Hw Et Er. exists mid'. rewrite Er, Et. split; [|done].
  rewrite <- El. f_equal; [|rewrite length_app; lia]. rewrite length_app, length_drop, length_app. lia.
Qed.

(** A point before the end, and what an iteration there reads and writes. *)
Section point.
Context (n fuel : nat) (out mid s : list Z) (c : Z).
Context (Hlt : (length out + length mid < length raw)%nat) (H0 : 0 ∉ c :: s).
Context (Hstep : ∀ cons ws rest', c :: s = cons ++ rest' → cons ≠ [] → (length ws ≤ length mid + length cons)%nat →
  cleans n fuel (out ++ ws) (drop (length ws) (mid ++ cons)) rest').

Lemma point_before : (rpos out mid <? epos) = true.
Proof. apply Z.ltb_lt. lia. Qed.

(** A line feed, also for a pair of characters. *)
Lemma cleans_line k : k ≠ 0 → clean_text (S n) nl en raw out (c :: s) = clean_text n nl en raw (out ++ [10]) (skip_if k s) →
  clean_loop (S fuel) flags (buffer out mid (c :: s)) (rpos out mid) (wpos out) epos =
    (d ← (buffer out mid (c :: s)).[rpos out mid + 1]; b ← (buffer out mid (c :: s)).[wpos out := LF];
     clean_loop fuel flags b (if d =? k then rpos out mid + 2 else rpos out mid + 1) (wpos out + 1) epos) →
  cleans (S n) (S fuel) out mid (c :: s).
Proof using Hlt H0 Hstep.
  intros Hk Et Er. pose proof (point_next pre out mid s post c) as Hnext. pose proof (point_store pre out mid s post c) as Hput. destruct s as [|d t] eqn:Es.
  - apply (cleans_step _ _ _ _ _ [c] [10] []); [by apply Hstep; [..|cbn; lia]|cbn; lia|exact Et|].
    rewrite Er, (occupies_load _ _ _ _ Hnext), ok_bind, Hput, ok_bind. by rewrite (proj2 (Z.eqb_neq 0 k)).
  - change (occupies (buffer out mid (c :: d :: t)) (rpos out mid + 1) (d :: t ++ [0])) in Hnext. rewrite (occupies_load _ _ _ _ Hnext), ok_bind in Er.
    cbn [skip_if] in Et. destruct (Z.eqb_spec d k) as [->|Hdk].
    + apply (cleans_step _ _ _ _ _ [c; k] [10] t); [by apply Hstep; [..|cbn; lia]|cbn; lia|exact Et|]. rewrite Er. change (c :: k :: t) with ([c; k] ++ t).
      by rewrite (clean_store pre out mid [c; k] t post).
    + apply (cleans_step _ _ _ _ _ [c] [10] (d :: t)); [by apply Hstep; [..|cbn; lia]|cbn; lia|exact Et|]. by rewrite Er, Hput, ok_bind.
Qed.

(** An ampersand. *)
Lemma amp_next : ∃ d, (buffer out mid (c :: s)).[rpos out mid + 1] = Ok d ∧ (d =? 35) = bool_decide (head s = Some 35).
Proof using All.
  pose proof (point_next pre out mid s post c) as Hnext. destruct s as [|d t]; [exists 0; by rewrite (occupies_load _ _ _ _ Hnext)|]. exists d.
  change (occupies (buffer out mid (c :: d :: t)) (rpos out mid + 1) (d :: t ++ [0])) in Hnext.
  rewrite (occupies_load _ _ _ _ Hnext). split; [done|]. cbn [head]. destruct (Z.eqb_spec d 35) as [->|Hne]; [done|]. rewrite bool_decide_eq_false_2; congruence.
Qed.

(** Leaving the ampersand of no entity in place. *)
Lemma stale_buffer : mid ++ c :: s = drop (length out) raw →
  buffer out mid (c :: s) = buffer (out ++ [raw !!! length out]) (drop 1 (mid ++ [c])) s.
Proof using All.
  intros Hmr. assert (∃ y t, mid ++ c :: s = y :: t ∧ raw !!! length out = y ∧ drop 1 (mid ++ [c]) ++ s = t) as (y & t & E1 & -> & E2).
  { destruct (mid ++ c :: s) as [|y t] eqn:E; [by destruct mid|]. exists y, t. split; [done|]. split.
    - rewrite <- (Nat.add_0_r (length out)), <- lookup_total_drop, <- Hmr. done.
    - destruct mid as [|z mid']; cbn in E |- *; injection E as _ <-; [done|]. by rewrite drop_0, <- app_assoc. }
  rewrite (app_assoc (drop 1 _)), E2. rewrite (app_assoc mid), E1, <- !app_assoc. done.
Qed.

Lemma cleans_amp : en = true → c = 38 → (nl && (c =? 13)) || (nl && (c =? 10)) = false →
  mid ++ c :: s = drop (length out) raw → cleans (S n) (S fuel) out mid (c :: s).
Proof using All.
  intros Hent Hc [Hn1 Hn2]%orb_false_iff Hmr. pose proof (cleans_step n fuel out mid (c :: s)) as Hgo. cbn [clean_loop clean_text] in Hgo.
  rewrite point_before, point_load, ok_bind, Hnl, Hen in Hgo. unfold LF, CR in Hgo. rewrite Hn1, Hn2, Hent, (proj2 (Z.eqb_eq _ _) Hc) in Hgo. cbn [negb andb] in Hgo.
  destruct amp_next as (d & Ed & Hd). rewrite Ed, ok_bind, Hd in Hgo. clear d Ed Hd. case_bool_decide as Hhash.
  - destruct s as [|x t] eqn:Es; [done|]. injection Hhash as ->.
    rewrite (GetCharacterRef_spec _ _ t), ok_bind in Hgo.
    2: { exists (pre ++ out ++ mid), post. split; [rewrite <- !app_assoc; cbn [app]; by rewrite <- app_assoc, Hc|rewrite !length_app; lia]. }
    2: { rewrite !not_elem_of_cons in H0. apply H0. }
    destruct (char_ref (35 :: t)) as [[cs r]|] eqn:Er.
    + apply char_ref_suffix in Er as (u & Eu & Hu). apply (Hgo (c :: u) cs r); [by apply Hstep; [by rewrite Eu|done|cbn [length]; lia]|cbn [length]; lia|done|].
      rewrite Eu. change (c :: u ++ r) with ((c :: u) ++ r). rewrite (clean_write pre out mid (c :: u) cs r post) by (cbn [length]; lia). rewrite ok_bind.
      f_equal. rewrite length_app. cbn [length]. lia.
    + apply (Hgo [c] [38] (35 :: t)); [by apply Hstep; [..|cbn; lia]|cbn; lia|done|]. rewrite Hc. change (38 :: 35 :: t) with ([38] ++ 35 :: t).
      by rewrite (clean_store pre out mid [38] (35 :: t) post).
  - rewrite (find_entity_spec _ _ s entities), ok_bind in Hgo; [|exact entities_patterns|apply point_next]. unfold entity_ref in Hgo.
    destruct (find_prefix entities s) as [e|] eqn:Ee; cbn [mbind option_bind] in Hgo.
    + apply find_prefix_spec in Ee as (_ & r & Er). assert (c :: s = (c :: pattern e ++ [59]) ++ r) as Es by (rewrite Er; cbn; by rewrite <- app_assoc).
      apply (Hgo (c :: pattern e ++ [59]) [value e] r); [by apply Hstep; [..|cbn; lia]|cbn; lia| |].
      * by rewrite Er, <- (Nat.add_1_r (length (pattern e))), drop_app_add.
      * rewrite Es, (clean_store pre out mid (c :: pattern e ++ [59]) r post), ok_bind by done. f_equal. cbn [length]. rewrite length_app. cbn [length]. lia.
    + apply (Hgo [c] [raw !!! length out] s); [by apply Hstep; [..|cbn; lia]|cbn; lia|done|]. f_equal. by apply stale_buffer.
Qed.
End point.

Lemma clean_loop_spec : ∀ n fuel out mid rest, (length rest ≤ n < fuel)%nat → mid ++ rest = drop (length out) raw → (length out ≤ length raw)%nat →
  cleans n fuel out mid rest.
Proof using Hnl Hen Hraw.
  induction n as [|n IH]; intros [|fuel] out mid rest Hf Hmr Hout; try lia.
  all: destruct rest as [|c s]; [apply cleans_end; [by rewrite app_nil_r in Hmr|done]|].
  { cbn in Hf. lia. }
  cbn [length] in Hf.
  assert (length mid + S (length s) = length raw - length out)%nat as Hm by (by rewrite <- length_drop, <- Hmr, length_app).
  assert (0 ∉ c :: s) as H0. { intros Hin. apply Hraw. apply (subseteq_drop (length out)). rewrite <- Hmr. by apply elem_of_app; right. }
  assert (∀ cons ws rest', c :: s = cons ++ rest' → cons ≠ [] → (length ws ≤ length mid + length cons)%nat →
    cleans n fuel (out ++ ws) (drop (length ws) (mid ++ cons)) rest') as Hstep.
  { intros cons ws rest' E Hc Hw. apply (f_equal length) in E as El. rewrite length_app in El. cbn [length] in El. destruct cons as [|x cons]; [done|]. cbn [length] in *.
    assert (length (mid ++ x :: cons) = length mid + S (length cons))%nat by (by rewrite length_app). apply IH; [lia| |rewrite length_app; lia].
    rewrite length_app, <- drop_drop, <- Hmr, E, app_assoc. symmetry. apply drop_app_le. lia. }
  assert (length out + length mid < length raw)%nat as Hlt by lia.
  pose proof (cleans_line n fuel out mid s c Hlt H0 Hstep) as Hline. pose proof (cleans_step n fuel out mid (c :: s) [c] [c] s) as Hplain.
  pose proof (cleans_amp n fuel out mid s c Hlt H0 Hstep) as Hamp.
  cbn [clean_loop clean_text] in Hline, Hplain. rewrite point_before, point_load, ok_bind, Hnl, Hen in Hline, Hplain by done. cbn [negb] in Hline, Hplain. unfold LF, CR in *.
  destruct (nl && (c =? 13)) eqn:E13; [by apply (Hline 10)|]. destruct (nl && (c =? 10)) eqn:E10; [by apply (Hline 13)|].
  destruct (en && (c =? 38)) eqn:E38.
  - apply andb_true_iff in E38 as [E1 E2%Z.eqb_eq]. by apply Hamp.
  - apply Hplain; [by apply Hstep; [..|cbn; lia]|cbn; lia|done|]. by rewrite point_store.
Qed.
End clean.

(** ** Flags *)
Lemma has_pow2 x n : 0 ≤ n → has x (2 ^ n) = Z.testbit x n.
Proof. intros Hn. unfold has. by rewrite <- Z.shiftl_1_l, land_bit, negb_involutive. Qed.

Lemma has_lor x y n : 0 ≤ n → has (Z.lor x y) (2 ^ n) = has x (2 ^ n) || has y (2 ^ n).
Proof. intros Hn. by rewrite !has_pow2, Z.lor_spec. Qed.

Lemma has_pow2_pow2 m n : 0 ≤ m → 0 ≤ n → has (2 ^ m) (2 ^ n) = bool_decide (m = n).
Proof.
  intros Hm Hn. rewrite has_pow2 by done. case_bool_decide as E; [by rewrite E, Z.pow2_bits_true|by rewrite Z.pow2_bits_false].
Qed.

Section flags.
Context `{TinyxmlHOk}.

(** The modes of [Set_]: what remains of the flags once the string is to be cleaned up. *)
Record mode (flags : Z) (nl en ws : bool) : Prop := {
  mode_nl : has flags NEEDS_NEWLINE_NORMALIZATION = nl;
  mode_en : has flags NEEDS_ENTITY_PROCESSING = en;
  mode_ws : has flags NEEDS_WHITESPACE_COLLAPSING = ws;
  mode_flush : has (Z.lor flags NEEDS_FLUSH) NEEDS_FLUSH = true;
  mode_cleared : Z.lxor (Z.lor flags NEEDS_FLUSH) NEEDS_FLUSH = flags;
  mode_delete : Z.land flags NEEDS_DELETE = 0;
  mode_zero : (flags =? 0) = negb (nl || en || ws)
}.

Lemma has_zero n : has 0 n = false.
Proof. unfold has. by rewrite Z.land_0_l. Qed.

Lemma mode_of (nl en ws : bool) :
  mode (Z.lor (if ws then NEEDS_WHITESPACE_COLLAPSING else 0) (Z.lor (if en then NEEDS_ENTITY_PROCESSING else 0) (if nl then NEEDS_NEWLINE_NORMALIZATION else 0))) nl en ws.
Proof.
  destruct flag_bits as (bits & Hnd & Hpos & E). destruct bits as [|a [|b [|c [|d [|e [|? ?]]]]]]; try done. cbn in E. injection E as E1 E2 E3 E4 E5.
  repeat match goal with H : Forall _ (_ :: _) |- _ => apply Forall_cons in H as [? H] end. rewrite !NoDup_cons, !not_elem_of_cons in Hnd. destruct_and! Hnd.
  assert (∀ x : Z, has x (2 ^ d) = false → Z.lxor (Z.lor x (2 ^ d)) (2 ^ d) = x) as Hx.
  { intros x Hd. apply Z.bits_inj'. intros i Hi. rewrite Z.lxor_spec, Z.lor_spec. rewrite has_pow2 in Hd by done.
    destruct (decide (d = i)) as [<-|Hne]; [by rewrite Hd, Z.pow2_bits_true|]. rewrite Z.pow2_bits_false by done. by rewrite orb_false_r, xorb_false_r. }
  assert (∀ x : Z, has x (2 ^ e) = false → Z.land x (2 ^ e) = 0) as Hl by (intros x Hx'; unfold has in Hx'; by apply negb_false_iff, Z.eqb_eq in Hx').
  assert (∀ n x, 0 ≤ n → has x (2 ^ n) = true → (x =? 0) = false) as Hnz by (intros n x Hn Hh; apply Z.eqb_neq; intros ->; by rewrite has_zero in Hh).
  split; rewrite <- ?E1, <- ?E2, <- ?E3, <- ?E4, <- ?E5; [..|apply Hx|apply Hl|].
  7: destruct nl, en, ws; cbn [orb negb]; try done.
  7-13: first [apply (Hnz a); [done|]; by rewrite ?has_lor, ?has_zero, ?has_pow2_pow2, ?bool_decide_eq_true_2, ?orb_true_r by done
              |apply (Hnz b); [done|]; by rewrite ?has_lor, ?has_zero, ?has_pow2_pow2, ?(bool_decide_eq_true_2 (b = b)), ?orb_true_r by done
              |apply (Hnz c); [done|]; by rewrite ?has_lor, ?has_zero, ?has_pow2_pow2, ?(bool_decide_eq_true_2 (c = c)), ?orb_true_r by done].
  all: destruct nl, en, ws; rewrite ?has_lor, ?has_zero, ?has_pow2_pow2 by done; repeat case_bool_decide; (done || congruence).
Qed.
End flags.

(** ** Reading a string *)
Fixpoint c_string (b : list Z) : list Z :=
  match b with [] => [] | c :: b => if c =? 0 then [] else c :: c_string b end.

Lemma c_string_id s : 0 ∉ s → c_string s = s.
Proof.
  induction s as [|c s IH]; [done|]. rewrite not_elem_of_cons. intros [Hc H0]. cbn. rewrite (proj2 (Z.eqb_neq c 0)) by done. f_equal. by apply IH.
Qed.

Lemma c_string_nul s : 0 ∉ c_string s.
Proof.
  induction s as [|c s IH]; [apply not_elem_of_nil|]. cbn. destruct (Z.eqb_spec c 0); [apply not_elem_of_nil|]. by apply not_elem_of_cons.
Qed.

(** A string is its part before a NUL, and the rest. *)
Lemma c_string_split u : ∃ v, u ++ [0] = c_string u ++ 0 :: v.
Proof.
  induction u as [|c u (v & Hv)]; [by exists []|]. cbn. destruct (Z.eqb_spec c 0) as [->|Hc]; [by eexists|]. exists v. by rewrite Hv.
Qed.

Lemma cstr_loop_spec b s : ∀ p fuel, occupies b p (s ++ [0]) → 0 ∉ s → (length s < fuel)%nat → cstr_loop fuel b p = Ok s.
Proof.
  induction s as [|c s IH]; intros p [|fuel] Hs H0 Hf; try (by apply Nat.nlt_0_r in Hf); cbn [cstr_loop]; rewrite (occupies_load _ _ _ _ Hs), ok_bind; [done|].
  apply not_elem_of_cons in H0 as [Hc H0]. rewrite (proj2 (Z.eqb_neq c 0)) by done. cbn in Hf. by rewrite (IH _ fuel (occupies_tail _ _ _ _ Hs) H0) by lia.
Qed.

Lemma cstr_at_spec b p u : occupies b p (u ++ [0]) → cstr_at b p = Ok (c_string u).
Proof.
  intros Hs. destruct (c_string_split u) as [v Hv]. rewrite Hv, cons_middle, app_assoc in Hs. apply occupies_app in Hs as [Hs _].
  pose proof (occupies_length _ _ _ Hs) as Hl. apply occupies_nonneg in Hs as Hp. rewrite length_app in Hl. apply cstr_loop_spec; [done|apply c_string_nul|cbn in Hl; lia].
Qed.

Section collapse.
Context `{TinyxmlHOk}.

(** Runs of white space become one space. *)
Fixpoint collapse_text (n : nat) (s : list Z) : list Z :=
  match n, s with
  | S n, c :: s => if IsWhiteSpace c then match skip_blank s with [] => [] | d :: t => 32 :: d :: collapse_text n t end else c :: collapse_text n s
  | _, _ => []
  end.
Definition collapsed (s : list Z) : list Z := collapse_text (length s) (skip_blank s).

Lemma blank_nul : IsWhiteSpace 0 = false.
Proof. by rewrite white_space. Qed.

Lemma blanks_skip s : s = blanks s ++ skip_blank s.
Proof. induction s as [|c s IH]; [done|]. cbn. destruct (IsWhiteSpace c); cbn; by f_equal. Qed.

Lemma skip_blank_app s y : skip_blank (s ++ 0 :: y) = skip_blank s ++ 0 :: y.
Proof. induction s as [|c s IH]; cbn; [by rewrite blank_nul|]. by destruct (IsWhiteSpace c). Qed.

Lemma blanks_app s y : blanks (s ++ 0 :: y) = blanks s.
Proof. induction s as [|c s IH]; cbn; [by rewrite blank_nul|]. by destruct (IsWhiteSpace c); rewrite ?IH. Qed.

Lemma SkipWhiteSpace_spec b p s : occupies b p (s ++ [0]) → SkipWhiteSpace b p = Ok (p + Z.of_nat (length (blanks s)), newlines (blanks s)).
Proof.
  intros Hs. destruct (occupies_drop _ _ _ Hs) as [y Hy]. rewrite <- app_assoc in Hy. cbn [app] in Hy. rewrite skip_white_space, Hy, blanks_app; [done|by eapply occupies_nonneg|].
  rewrite Hy, skip_blank_app. by destruct (skip_blank s).
Qed.

Lemma skip_blank_head s c t : skip_blank s = c :: t → IsWhiteSpace c = false.
Proof. induction s as [|d s IH]; [done|]. cbn. destruct (IsWhiteSpace d) eqn:E; [done|]. by intros [= <- _]. Qed.

Lemma collapsed_nul s : 0 ∉ s → 0 ∉ collapsed s.
Proof.
  assert (∀ n s, 0 ∉ s → 0 ∉ collapse_text n s) as Hc.
  { induction n as [|n IH]; intros [|c t] Hn; cbn; [apply not_elem_of_nil..|]. apply not_elem_of_cons in Hn as [Hc Hn]. destruct (IsWhiteSpace c).
    - pose proof (blanks_skip t) as Ht. destruct (skip_blank t) as [|d r]; [apply not_elem_of_nil|]. rewrite Ht in Hn.
      apply not_elem_of_app in Hn as [_ [Hd Hr]%not_elem_of_cons]. rewrite !not_elem_of_cons. split; [done|]. split; [done|]. by apply IH.
    - apply not_elem_of_cons. split; [done|]. by apply IH. }
  intros Hn. apply Hc. rewrite (blanks_skip s) in Hn. by apply not_elem_of_app in Hn as [_ Hn].
Qed.

Lemma put_at (x l y : list Z) v : l ≠ [] → (x ++ l ++ y).[Z.of_nat (length x) := v] = Ok (x ++ v :: drop 1 l ++ y).
Proof. destruct l as [|c l]; [done|]. intros _. by apply occupies_store. Qed.

Lemma collapse_loop_spec pre post n : ∀ fuel out mid rest, (length rest ≤ n < fuel)%nat → 0 ∉ rest →
  ∃ w, collapse_loop fuel (pre ++ out ++ mid ++ rest ++ 0 :: post) (Z.of_nat (length pre + length out + length mid)) (Z.of_nat (length pre + length out)) =
    Ok (pre ++ (out ++ collapse_text n rest ++ [0]) ++ w ++ post) ∧ (length (collapse_text n rest) + length w = length mid + length rest)%nat.
Proof.
  assert (∀ out l, l ≠ [] → (pre ++ out ++ l ++ post).[Z.of_nat (length pre + length out) := 0] = Ok (pre ++ (out ++ [0]) ++ drop 1 l ++ post)) as Hend.
  { intros out l Hl. rewrite (app_assoc pre out), <- length_app, put_at by done. by rewrite <- !app_assoc. }
  induction n as [|n IH]; intros [|fuel] out mid rest Hf Hnul; try lia; destruct rest as [|c s].
  2: { cbn in Hf. lia. }
  1,2: cbn [collapse_loop collapse_text app]; rewrite cons_middle, (occupies_load _ _ 0 post) by (exists (pre ++ out ++ mid), []; rewrite app_nil_r, <- !app_assoc, !length_app; split; [done|f_equal; lia]).
  1,2: rewrite ok_bind; cbn [Z.eqb]; rewrite (app_assoc mid), Hend by (by destruct mid); eexists; split; [done|]; rewrite length_drop, length_app; cbn; lia.
  cbn [length] in Hf. apply not_elem_of_cons in Hnul as [Hc Hnul]. cbn [collapse_loop collapse_text]. rewrite point_load, ok_bind, (proj2 (Z.eqb_neq c 0)) by done.
  destruct (IsWhiteSpace c) eqn:Ec.
  - pose proof (blanks_skip s) as Hs. rewrite (SkipWhiteSpace_spec _ _ (c :: s)), ok_bind.
    2: { exists (pre ++ out ++ mid), post. split; [by rewrite <- !app_assoc|rewrite !length_app; lia]. }
    cbn [blanks]. rewrite Ec. destruct (skip_blank s) as [|d t] eqn:Et.
    + rewrite app_nil_r in Hs. rewrite <- Hs, (occupies_load _ _ 0 post), ok_bind.
      2: { exists (pre ++ out ++ mid ++ c :: s), []. rewrite app_nil_r, <- !app_assoc, !length_app. split; [done|cbn [length]; lia]. }
      cbn [Z.eqb]. rewrite (cons_middle 0), (app_assoc (c :: s)), (app_assoc mid), Hend by (by destruct mid). eexists. split; [done|].
      rewrite length_drop, !length_app. cbn [length]. lia.
    + assert (c :: s = (c :: blanks s) ++ d :: t) as Es by (cbn; by f_equal). rewrite Es. set (bl := c :: blanks s) in *.
      assert (0 ≠ d ∧ 0 ∉ t) as [Hd Hnul'] by (rewrite Hs in Hnul; set_solver).
      assert ((pre ++ out ++ mid ++ (bl ++ d :: t) ++ 0 :: post).[Z.of_nat (length pre + length out + length mid) + Z.of_nat (length bl)] = Ok d) as ->.
      { apply (occupies_load _ _ _ (t ++ 0 :: post)). exists (pre ++ out ++ mid ++ bl), []. rewrite app_nil_r, <- !app_assoc, !length_app. split; [done|lia]. }
      rewrite ok_bind, (proj2 (Z.eqb_neq d 0)), (clean_store pre out mid bl (d :: t) post 32), ok_bind by done. set (m1 := drop 1 (mid ++ bl)).
      assert (length m1 = length mid + length (blanks s))%nat as Hm1 by (unfold m1, bl; rewrite length_drop, length_app; cbn [length]; lia).
      replace (Z.of_nat (length pre + length out + length mid) + Z.of_nat (length bl)) with (Z.of_nat (length pre + length (out ++ [32]) + length m1))
        by (rewrite length_app, Hm1; unfold bl; cbn [length]; lia).
      rewrite point_load, ok_bind. replace (Z.of_nat (length pre + length out) + 1) with (Z.of_nat (length pre + length (out ++ [32]))) by (rewrite length_app; cbn [length]; lia).
      rewrite point_store, ok_bind. apply (f_equal length) in Es as El. rewrite length_app in El. unfold bl in El. cbn [length] in El.
      destruct (IH fuel ((out ++ [32]) ++ [d]) (drop 1 (m1 ++ [d])) t) as (w & E & Hl); [lia|done|]. exists w. split.
      * assert (out ++ (32 :: d :: collapse_text n t) ++ [0] = ((out ++ [32]) ++ [d]) ++ collapse_text n t ++ [0]) as -> by (by rewrite <- !app_assoc).
        rewrite <- E. f_equal; rewrite ?length_app, ?length_drop, ?length_app; cbn [length]; lia.
      * rewrite length_drop, length_app, Hm1 in Hl. rewrite length_app. unfold bl. cbn [length] in *. lia.
  - rewrite point_store, ok_bind. destruct (IH fuel (out ++ [c]) (drop 1 (mid ++ [c])) s) as (w & El & Hl); [lia|done|]. exists w. split.
    + assert (out ++ (c :: collapse_text n s) ++ [0] = (out ++ [c]) ++ collapse_text n s ++ [0]) as -> by (by rewrite <- app_assoc). rewrite <- El. f_equal; rewrite ?length_app, ?length_drop, ?length_app; cbn [length]; lia.
    + rewrite length_drop, length_app in Hl. cbn [length] in *. lia.
Qed.
Lemma CollapseWhitespace_spec x u z : 0 ∉ u → ∃ a v, CollapseWhitespace (x ++ u ++ 0 :: z) (Z.of_nat (length x)) =
  Ok (x ++ (a ++ collapsed u ++ 0 :: v) ++ z, Z.of_nat (length x + length a)) ∧ length (a ++ collapsed u ++ 0 :: v) = S (length u).
Proof.
  intros Hnul. pose proof (blanks_skip u) as Hu. unfold CollapseWhitespace. rewrite (SkipWhiteSpace_spec _ _ u), ok_bind.
  2: { exists x, z. by rewrite <- app_assoc. }
  replace (Z.of_nat (length x) + Z.of_nat (length (blanks u))) with (Z.of_nat (length (x ++ blanks u) + length (@nil Z) + length (@nil Z))) by (rewrite length_app; cbn [length]; lia).
  assert (x ++ u ++ 0 :: z = (x ++ blanks u) ++ [] ++ [] ++ skip_blank u ++ 0 :: z) as -> by (cbn [app]; by rewrite <- app_assoc, (app_assoc (blanks u)), <- Hu).
  unfold collapsed. destruct (skip_blank u) as [|c t] eqn:Et.
  - rewrite app_nil_r in Hu. rewrite (occupies_load _ _ 0 z) by (exists (x ++ blanks u), []; rewrite app_nil_r; split; [done|cbn; lia]). rewrite ok_bind. cbn [Z.eqb]. assert (collapse_text (length u) [] = []) as -> by (by destruct u).
    exists (blanks u), []. cbn [app]. rewrite <- !app_assoc, <- !length_app, !app_nil_r, <- Hu. cbn [app]. split; [done|]. rewrite length_app. cbn [length]. lia.
  - rewrite point_load, ok_bind. assert (0 ∉ c :: t) as Hnul'. { intros Hin. apply Hnul. rewrite Hu. by apply elem_of_app; right. }
    assert (length (c :: t) ≤ length u)%nat as Hl by (rewrite Hu, length_app; lia).
    rewrite (proj2 (Z.eqb_neq c 0)) by set_solver.
    destruct (collapse_loop_spec (x ++ blanks u) z (length u) (S (length ((x ++ blanks u) ++ [] ++ [] ++ (c :: t) ++ 0 :: z))) [] [] (c :: t)) as (w & E & Hw); [|done|].
    { apply (f_equal length) in Hu. rewrite length_app in Hu. rewrite !length_app. cbn [length] in *. lia. }
    assert (length (x ++ blanks u) + length (@nil Z) + length (@nil Z) = length (x ++ blanks u) + length (@nil Z))%nat as E0 by (cbn; lia).
    rewrite E0 in E |- *. rewrite E, ok_bind. exists (blanks u), w. cbn [app length] in *. rewrite <- !app_assoc, <- !length_app, Nat.add_0_r. split; [done|].
    apply (f_equal length) in Hu. rewrite length_app in Hu. rewrite !length_app. cbn [length] in *. lia.
Qed.

(** The string that is read: [nl], [en] and [ws] say what is cleaned up. *)
Definition text_value (nl en ws : bool) (raw : list Z) : list Z :=
  let u := c_string (if nl || en || ws then cleaned nl en raw else raw) in if ws then collapsed u else u.

Lemma cleaned_put (x u mid z : list Z) : (x ++ u ++ mid ++ 0 :: z).[Z.of_nat (length x + length u) := 0] = Ok (x ++ (u ++ 0 :: drop 1 (mid ++ [0])) ++ z).
Proof.
  rewrite (cons_middle 0 mid), (app_assoc mid), (app_assoc x), <- length_app, put_at by (by destruct mid). by rewrite <- !app_assoc.
Qed.

(** Cleaning up touches only the raw text and the character behind it. *)
Lemma GetStr_spec flags nl en ws x raw d z : mode flags nl en ws → 0 ∉ raw →
  ∃ a v, GetStr (x ++ (raw ++ [d]) ++ z) (mk_pair (Z.lor flags NEEDS_FLUSH) (Shared (Z.of_nat (length x)) (Z.of_nat (length x + length raw)))) =
    Ok (x ++ (a ++ text_value nl en ws raw ++ 0 :: v) ++ z, mk_pair 0 (Shared (Z.of_nat (length x + length a)) (Z.of_nat (length x + length raw))), text_value nl en ws raw) ∧
    length (a ++ text_value nl en ws raw ++ 0 :: v) = S (length raw).
Proof.
  intros Hm Hnul. unfold GetStr. cbn [str_ flags_]. rewrite (mode_flush _ _ _ _ Hm). cbn [negb].
  rewrite <- (app_assoc raw), (app_assoc x raw), <- length_app. rewrite (put_at _ [d]) by done. rewrite ok_bind. cbn [drop app]. rewrite <- app_assoc, length_app.
  rewrite (mode_cleared _ _ _ _ Hm), (mode_zero _ _ _ _ Hm), (mode_ws _ _ _ _ Hm), (mode_delete _ _ _ _ Hm). unfold text_value.
  assert (∀ u mid, (length u + length mid = length raw)%nat → ∃ a v,
    ('(b, start) ← (if ws then CollapseWhitespace (x ++ (u ++ 0 :: drop 1 (mid ++ [0])) ++ z) (Z.of_nat (length x))
                    else Ok (x ++ (u ++ 0 :: drop 1 (mid ++ [0])) ++ z, Z.of_nat (length x)));
     t ← cstr_at b start; Ok (b, mk_pair 0 (Shared start (Z.of_nat (length x + length raw))), t)) =
    Ok (x ++ (a ++ (if ws then collapsed (c_string u) else c_string u) ++ 0 :: v) ++ z,
      mk_pair 0 (Shared (Z.of_nat (length x + length a)) (Z.of_nat (length x + length raw))), if ws then collapsed (c_string u) else c_string u) ∧
    length (a ++ (if ws then collapsed (c_string u) else c_string u) ++ 0 :: v) = S (length raw)) as Hrest.
  { intros u mid Hl. destruct (c_string_split u) as [v0 Hv]. apply (f_equal length) in Hv as Hvl. rewrite !length_app in Hvl. cbn [length] in Hvl.
    set (m := drop 1 (mid ++ [0])). assert (length m = length mid) as Hm' by (unfold m; rewrite length_drop, length_app; cbn; lia).
    assert (u ++ 0 :: m = c_string u ++ 0 :: v0 ++ m) as E by (by rewrite (cons_middle 0), app_assoc, Hv, <- app_assoc). rewrite E. destruct ws.
    - destruct (CollapseWhitespace_spec x (c_string u) (v0 ++ m ++ z) (c_string_nul u)) as (a & v & Ec & Hc).
      exists a, (v ++ v0 ++ m). rewrite <- !app_assoc in Ec |- *. cbn [app] in Ec |- *. rewrite <- !app_assoc. rewrite Ec, ok_bind.
      rewrite (cstr_at_spec _ _ (collapsed (c_string u))), ok_bind, (c_string_id _ (collapsed_nul _ (c_string_nul u))).
      + split; [by rewrite <- app_comm_cons, <- !app_assoc|]. rewrite !length_app in Hc |- *. cbn [length] in Hc |- *. rewrite !length_app. lia.
      + exists (x ++ a), (v ++ v0 ++ m ++ z). rewrite <- !app_assoc, length_app. done.
    - exists [], (v0 ++ m). rewrite ok_bind, (cstr_at_spec _ _ u), ok_bind.
      + rewrite Nat.add_0_r. split; [done|]. rewrite !length_app. cbn [length]. rewrite length_app. lia.
      + exists x, (m ++ z). rewrite <- E, <- !app_assoc. done. }
  destruct (nl || en || ws) eqn:Ef; cbn [negb].
  - destruct (clean_loop_spec flags nl en x z raw (mode_nl _ _ _ _ Hm) (mode_en _ _ _ _ Hm) Hnul (length raw) (S (length (x ++ raw ++ 0 :: z))) [] [] raw) as (mid & E & Hl); [|done|cbn; lia|].
    { rewrite !length_app. lia. }
    cbn [app length] in E. rewrite !Nat.add_0_r in E. rewrite E, ok_bind. change (clean_text (length raw) nl en raw [] raw) with (cleaned nl en raw) in *.
    rewrite cleaned_put, ok_bind. by apply Hrest.
  - rewrite ok_bind. destruct (Hrest raw []) as (a & v & E & Hl); [cbn; lia|]. exists a, v. split; [|done]. cbn [app drop] in E. rewrite <- app_assoc in E. exact E.
Qed.
End collapse.
