(* ===== verification/TinyXml.v ===== *)
(** * TinyXml: the documents of src/tinyxml2/tinyxml2.cpp, their parser and their printer

    A node is a value with its [StrPair]s, which point into the buffer of the document; the
    buffer and what parsing keeps track of are the state [XMLDocument], and a method is a
    program over it.  Pools of nodes, which tinyxml2.h declares, and the text of error messages
    are left out.  Every method that reads a string cleans it up in the buffer, so methods that
    do return the node they were called on. *)

From S2P Require Import Prelude TinyText.
#[local] Open Scope Z_scope.

(** ** Documents *)
Inductive XMLError :=
  | XML_SUCCESS | XML_NO_ATTRIBUTE | XML_WRONG_ATTRIBUTE_TYPE | XML_ERROR_FILE_NOT_FOUND | XML_ERROR_FILE_COULD_NOT_BE_OPENED
  | XML_ERROR_FILE_READ_ERROR | XML_ERROR_PARSING_ELEMENT | XML_ERROR_PARSING_ATTRIBUTE | XML_ERROR_PARSING_TEXT | XML_ERROR_PARSING_CDATA
  | XML_ERROR_PARSING_COMMENT | XML_ERROR_PARSING_DECLARATION | XML_ERROR_PARSING_UNKNOWN | XML_ERROR_EMPTY_DOCUMENT
  | XML_ERROR_MISMATCHED_ELEMENT | XML_ERROR_PARSING | XML_CAN_NOT_CONVERT_TEXT | XML_NO_TEXT_NODE | XML_ELEMENT_DEPTH_EXCEEDED.

#[export] Instance XMLError_eq_dec : EqDecision XMLError.
Proof. solve_decision. Defined.

Record XMLDocument := mk_document {
  _charBuffer : list Z;
  _errorID : XMLError;
  _errorLineNum : Z;
  _parseCurLineNum : Z;
  _parsingDepth : Z;
  _processEntities : bool;
  _collapseWhitespace : bool;
  _writeBOM : bool
}.

Definition set_buffer (b : list Z) (d : XMLDocument) : XMLDocument :=
  mk_document b (_errorID d) (_errorLineNum d) (_parseCurLineNum d) (_parsingDepth d) (_processEntities d) (_collapseWhitespace d) (_writeBOM d).
Definition set_error (e : XMLError) (line : Z) (d : XMLDocument) : XMLDocument :=
  mk_document (_charBuffer d) e line (_parseCurLineNum d) (_parsingDepth d) (_processEntities d) (_collapseWhitespace d) (_writeBOM d).
Definition set_line (line : Z) (d : XMLDocument) : XMLDocument :=
  mk_document (_charBuffer d) (_errorID d) (_errorLineNum d) line (_parsingDepth d) (_processEntities d) (_collapseWhitespace d) (_writeBOM d).
Definition set_parsing_depth (n : Z) (d : XMLDocument) : XMLDocument :=
  mk_document (_charBuffer d) (_errorID d) (_errorLineNum d) (_parseCurLineNum d) n (_processEntities d) (_collapseWhitespace d) (_writeBOM d).
Definition set_bom (bom : bool) (d : XMLDocument) : XMLDocument :=
  mk_document (_charBuffer d) (_errorID d) (_errorLineNum d) (_parseCurLineNum d) (_parsingDepth d) (_processEntities d) (_collapseWhitespace d) bom.

(** Programs over a document. *)
Definition method (A : Type) : Type := XMLDocument → result (A * XMLDocument).
#[export] Instance method_ret : MRet method := λ A a d, Ok (a, d).
#[export] Instance method_bind : MBind method := λ A B f m d, '(a, d) ← m d; f a d.

Definition lift {A} (f : XMLDocument → result A) : method A := λ d, a ← f d; Ok (a, d).
Definition modify (f : XMLDocument → XMLDocument) : method () := λ d, Ok ((), f d).
Definition asks {A} (f : XMLDocument → A) : method A := λ d, Ok (f d, d).
Definition char_at (p : Z) : method Z := lift (λ d, (_charBuffer d).[p]).

Definition SetError (e : XMLError) (line : Z) : method () := modify (set_error e line).
Definition Error (d : XMLDocument) : bool := negb (bool_decide (_errorID d = XML_SUCCESS)).

(** ** Nodes *)
Inductive ClosingType := OPEN | CLOSED | CLOSING.

#[export] Instance ClosingType_eq_dec : EqDecision ClosingType.
Proof. solve_decision. Defined.

Record XMLAttribute := mk_attribute { attr_name : StrPair; attr_value : StrPair }.

Inductive XMLNode :=
  | XMLText (_parseLineNum : Z) (_value : StrPair) (_isCData : bool)
  | XMLComment (_parseLineNum : Z) (_value : StrPair)
  | XMLDeclaration (_parseLineNum : Z) (_value : StrPair)
  | XMLUnknown (_parseLineNum : Z) (_value : StrPair)
  | XMLElement (_parseLineNum : Z) (_value : StrPair) (_closingType : ClosingType) (attributes : list XMLAttribute) (children : list XMLNode).

Definition line_of (n : XMLNode) : Z :=
  match n with XMLText l _ _ | XMLComment l _ | XMLDeclaration l _ | XMLUnknown l _ | XMLElement l _ _ _ _ => l end.
Definition is_declaration (n : XMLNode) : bool := match n with XMLDeclaration _ _ => true | _ => false end.

Section tinyxml.
Context `{TinyxmlH}.

(** [GetStr] on a pair of the document. *)
Definition get_str (s : StrPair) : method (StrPair * list Z) :=
  λ d, '(b, s, t) ← GetStr (_charBuffer d) s; Ok (s, t, set_buffer b d).

(** [SkipWhiteSpace(p, curLineNumPtr)]; every caller passes the line of the document. *)
Definition skip_white (p : Z) : method Z :=
  λ d, '(q, n) ← SkipWhiteSpace (_charBuffer d) p; Ok (q, set_line (_parseCurLineNum d + n) d).

Definition parse_text (p : Z) (endTag : list Z) (strFlags : Z) : method (option Z * StrPair) :=
  λ d, '(q, s, line) ← ParseText (_charBuffer d) p endTag strFlags (_parseCurLineNum d); Ok (q, s, set_line line d).

Definition parse_name (p : option Z) : method (option Z * StrPair) := lift (λ d, ParseName (_charBuffer d) p).

(** ** The parser *)
Definition xmlHeader : list Z := [60; 63].
Definition commentHeader : list Z := [60; 33; 45; 45].
Definition cdataHeader : list Z := [60; 33; 91; 67; 68; 65; 84; 65; 91].
Definition dtdHeader : list Z := [60; 33].
Definition elementHeader : list Z := [60].

Definition starts_with (p : Z) (lit : list Z) : method bool := lift (λ d, StringEqualN (_charBuffer d) p lit).

Definition Identify (p : Z) : method (Z * option XMLNode) :=
  let start := p in
  startLine ← asks _parseCurLineNum;
  p ← skip_white p;
  c ← char_at p;
  if c =? 0 then mret (p, None) else
  line ← asks _parseCurLineNum;
  xml ← starts_with p xmlHeader;
  if xml : bool then mret (p + 2, Some (XMLDeclaration line StrPair_new)) else
  comment ← starts_with p commentHeader;
  if comment : bool then mret (p + 4, Some (XMLComment line StrPair_new)) else
  cdata ← starts_with p cdataHeader;
  if cdata : bool then mret (p + 9, Some (XMLText line StrPair_new true)) else
  dtd ← starts_with p dtdHeader;
  if dtd : bool then mret (p + 2, Some (XMLUnknown line StrPair_new)) else
  element ← starts_with p elementHeader;
  if element : bool then mret (p + 1, Some (XMLElement line StrPair_new OPEN [] [])) else
  _ ← modify (set_line startLine);
  mret (start, Some (XMLText line StrPair_new false)).

(** [XMLAttribute::ParseDeep] *)
Definition attribute_parse (p : Z) : method (option Z * XMLAttribute) :=
  '(q, name) ← parse_name (Some p);
  let failed := mret (None, mk_attribute name StrPair_new) in
  match q with
  | None => failed
  | Some p =>
      c ← char_at p;
      if c =? 0 then failed else
      p ← skip_white p;
      c ← char_at p;
      if negb (c =? 61) then failed else
      p ← skip_white (p + 1);
      c ← char_at p;
      if negb (c =? 34) && negb (c =? 39) then failed else
      entities ← asks _processEntities;
      '(q, value) ← parse_text (p + 1) [c] (if entities : bool then ATTRIBUTE_VALUE else ATTRIBUTE_VALUE_LEAVE_ENTITIES);
      mret (q, mk_attribute name value)
  end.

(** [Attribute(name)]: the attributes, and whether one has that name. *)
Fixpoint Attribute (attrs : list XMLAttribute) (name : list Z) : method (list XMLAttribute * bool) :=
  match attrs with
  | [] => mret ([], false)
  | a :: attrs =>
      '(n, s) ← get_str (attr_name a);
      if StringEqual s name then
        '(v, _) ← get_str (attr_value a);
        mret (mk_attribute n v :: attrs, true)
      else
        '(attrs, found) ← Attribute attrs name;
        mret (mk_attribute n (attr_value a) :: attrs, found)
  end.

(** [ParseAttributes] of an element of the name [name] at the line [line]: the position, the
    name, the closing type and the attributes. *)
Fixpoint attributes_loop (fuel : nat) (p line : Z) (name : StrPair) (closing : ClosingType) (attrs : list XMLAttribute)
  : method (option Z * StrPair * ClosingType * list XMLAttribute) :=
  match fuel with
  | O => λ _, OutOfFuel
  | S fuel =>
      p ← skip_white p;
      c ← char_at p;
      if c =? 0 then
        '(name, _) ← get_str name;
        _ ← SetError XML_ERROR_PARSING_ELEMENT line;
        mret (None, name, closing, attrs)
      else if IsNameStartChar c then
        attrLineNum ← asks _parseCurLineNum;
        '(q, attrib) ← attribute_parse p;
        let failed (attrs : list XMLAttribute) :=
          '(name, _) ← get_str name;
          _ ← SetError XML_ERROR_PARSING_ATTRIBUTE attrLineNum;
          mret (None, name, closing, attrs) in
        match q with
        | None => failed attrs
        | Some p =>
            '(n, s) ← get_str (attr_name attrib);
            '(attrs, found) ← Attribute attrs s;
            if found : bool then failed attrs
            else attributes_loop fuel p line name closing (attrs ++ [mk_attribute n (attr_value attrib)])
        end
      else if c =? 62 then mret (Some (p + 1), name, closing, attrs)
      else
        c1 ← (if c =? 47 then char_at (p + 1) else mret 0);
        if (c =? 47) && (c1 =? 62) then mret (Some (p + 2), name, CLOSED, attrs) else
        _ ← SetError XML_ERROR_PARSING_ELEMENT line;
        mret (None, name, closing, attrs)
  end.

Definition ParseAttributes (p line : Z) (name : StrPair) (closing : ClosingType) : method (option Z * StrPair * ClosingType * list XMLAttribute) :=
  λ d, attributes_loop (S (length (_charBuffer d))) p line name closing [] d.

Definition PushDepth : method () :=
  depth ← asks _parsingDepth;
  _ ← modify (set_parsing_depth (depth + 1));
  if depth + 1 =? TINYXML2_MAX_ELEMENT_DEPTH then line ← asks _parseCurLineNum; SetError XML_ELEMENT_DEPTH_EXCEEDED line else mret ().
Definition PopDepth : method () := modify (λ d, set_parsing_depth (_parsingDepth d - 1) d).

(** A node whose value is the text up to an end tag. *)
Definition value_parse (p : Z) (endTag : list Z) (strFlags : Z) (e : XMLError) (line : Z) : method (option Z * StrPair) :=
  '(q, s) ← parse_text p endTag strFlags;
  match q with
  | None => _ ← SetError e line; mret (None, s)
  | Some _ => mret (q, s)
  end.

(** [XMLText::ParseDeep] *)
Definition text_parse (p : Z) (cdata : bool) (line : Z) : method (option Z * StrPair) :=
  if cdata then value_parse p [93; 93; 62] NEEDS_NEWLINE_NORMALIZATION XML_ERROR_PARSING_CDATA line else
  entities ← asks _processEntities;
  collapse ← asks _collapseWhitespace;
  let flags := if entities : bool then TEXT_ELEMENT else TEXT_ELEMENT_LEAVE_ENTITIES in
  let flags := if collapse : bool then Z.lor flags NEEDS_WHITESPACE_COLLAPSING else flags in
  '(q, s) ← value_parse p [60] flags XML_ERROR_PARSING_TEXT line;
  match q with
  | None => mret (None, s)
  | Some q => c ← char_at q; mret (if c =? 0 then None else Some (q - 1), s)
  end.

(** [XMLElement::ParseDeep], with [deep] for [XMLNode::ParseDeep]: the end tag of the element is
    what its children return. *)
Definition element_parse (deep : Z → method (option Z * StrPair * list XMLNode)) (p line : Z) : method (option Z * XMLNode * StrPair) :=
  p ← skip_white p;
  c ← char_at p;
  let closing := if c =? 47 then CLOSING else OPEN in
  let p := if c =? 47 then p + 1 else p in
  '(q, name) ← parse_name (Some p);
  if Empty name then mret (None, XMLElement line name closing [] [], StrPair_new) else
  match q with
  | None => λ _, Ub
  | Some p =>
      '(q, name, closing, attrs) ← ParseAttributes p line name closing;
      let node := XMLElement line name closing attrs in
      match q with
      | None => mret (None, node [], StrPair_new)
      | Some p =>
          c ← char_at p;
          if (c =? 0) || negb (bool_decide (closing = OPEN)) then mret (Some p, node [], StrPair_new) else
          '(q, endTag, children) ← deep p;
          mret (q, node children, endTag)
      end
  end.

(** [node->ParseDeep(p, &endTag)] of the node [Identify] made. *)
Definition node_parse (deep : Z → method (option Z * StrPair * list XMLNode)) (node : XMLNode) (p : Z) : method (option Z * XMLNode * StrPair) :=
  match node with
  | XMLText line _ cdata => '(q, s) ← text_parse p cdata line; mret (q, XMLText line s cdata, StrPair_new)
  | XMLComment line _ => '(q, s) ← value_parse p [45; 45; 62] COMMENT XML_ERROR_PARSING_COMMENT line; mret (q, XMLComment line s, StrPair_new)
  | XMLDeclaration line _ =>
      '(q, s) ← value_parse p [63; 62] NEEDS_NEWLINE_NORMALIZATION XML_ERROR_PARSING_DECLARATION line; mret (q, XMLDeclaration line s, StrPair_new)
  | XMLUnknown line _ => '(q, s) ← value_parse p [62] NEEDS_NEWLINE_NORMALIZATION XML_ERROR_PARSING_UNKNOWN line; mret (q, XMLUnknown line s, StrPair_new)
  | XMLElement line _ _ _ _ => element_parse deep p line
  end.

(** [Value()] as an argument of an error message. *)
Definition value_for_message (node : XMLNode) : method () :=
  match node with
  | XMLText _ s _ | XMLComment _ s | XMLDeclaration _ s | XMLUnknown _ s | XMLElement _ s _ _ _ => _ ← get_str s; mret ()
  end.

(** Declarations come first, and at document level: [wellLocated]. *)
Definition well_located (document : bool) (siblings : list XMLNode) : bool :=
  document && match head siblings, last siblings with Some a, Some b => is_declaration a && is_declaration b | _, _ => true end.

(** Whether the end tag read by the children does not fit the element: the node, and [mismatch]. *)
Definition mismatched (node : XMLNode) (endTag : StrPair) : method (XMLNode * bool) :=
  match node with
  | XMLElement line name closing attrs children =>
      if Empty endTag then mret (node, bool_decide (closing = OPEN)) else
      if negb (bool_decide (closing = OPEN)) then mret (node, true) else
      '(_, t) ← get_str endTag;
      '(name, s) ← get_str name;
      mret (XMLElement line name closing attrs children, negb (StringEqual t s))
  | _ => mret (node, false)
  end.

(** [XMLNode::ParseDeep]: the position, the end tag for the parent, and the children.  The loop
    and the recursion both consume text. *)
Fixpoint children_loop (fuel : nat) (document : bool) (siblings : list XMLNode) (p : option Z) : method (option Z * StrPair * list XMLNode) :=
  match fuel with
  | O => λ _, OutOfFuel
  | S fuel =>
      let deep (p : Z) : method (option Z * StrPair * list XMLNode) :=
        _ ← PushDepth;
        err ← asks Error;
        if err : bool then _ ← PopDepth; mret (None, StrPair_new, []) else
        r ← children_loop fuel false [] (Some p);
        _ ← PopDepth;
        mret r in
      let stop := mret (None, StrPair_new, siblings) in
      match p with
      | None => stop
      | Some p =>
          c ← char_at p;
          if c =? 0 then stop else
          '(p, node) ← Identify p;
          match node with
          | None => stop
          | Some node =>
              let initialLineNum := line_of node in
              '(q, node, endTag) ← node_parse deep node p;
              match q with
              | None =>
                  err ← asks Error;
                  _ ← (if err : bool then mret () else SetError XML_ERROR_PARSING initialLineNum);
                  stop
              | Some p =>
                  if is_declaration node && negb (well_located document siblings) then
                    _ ← value_for_message node; _ ← SetError XML_ERROR_PARSING_DECLARATION initialLineNum; stop
                  else
                  match node with
                  | XMLElement _ name CLOSING _ _ => mret (Some p, if document then StrPair_new else name, siblings)
                  | _ =>
                      '(node, mismatch) ← mismatched node endTag;
                      if mismatch : bool then _ ← value_for_message node; _ ← SetError XML_ERROR_MISMATCHED_ELEMENT initialLineNum; stop
                      else children_loop fuel document (siblings ++ [node]) (Some p)
                  end
              end
          end
      end
  end.

(** [XMLDocument::Parse()] on the buffer of the document: its nodes. *)
Definition document_parse : method (list XMLNode) :=
  _ ← modify (set_line 1);
  p ← skip_white 0;
  '(p, bom) ← lift (λ d, ReadBOM (_charBuffer d) p);
  _ ← modify (set_bom bom);
  c ← char_at p;
  if c =? 0 then _ ← SetError XML_ERROR_EMPTY_DOCUMENT 0; mret [] else
  _ ← PushDepth;
  err ← asks Error;
  if err : bool then _ ← PopDepth; mret [] else
  len ← asks (λ d, length (_charBuffer d));
  '(_, _, nodes) ← children_loop (S len) true [] (Some p);
  _ ← PopDepth;
  mret nodes.

(** [XMLDocument::Clear] *)
Definition Clear (d : XMLDocument) : XMLDocument :=
  mk_document [] XML_SUCCESS 0 (_parseCurLineNum d) 0 (_processEntities d) (_collapseWhitespace d) (_writeBOM d).

(** [XMLDocument::Parse(p, len)]: [None] is the null pointer, the list the [len] characters at [p]
    or, for the default [len], those before the NUL. *)
Definition Parse (text : option (list Z)) : method (XMLError * list XMLNode) :=
  _ ← modify Clear;
  match text with
  | Some (c :: s) =>
      if c =? 0 then _ ← SetError XML_ERROR_EMPTY_DOCUMENT 0; mret (XML_ERROR_EMPTY_DOCUMENT, []) else
      _ ← modify (set_buffer ((c :: s) ++ [0]));
      nodes ← document_parse;
      e ← asks _errorID;
      mret (e, if bool_decide (e = XML_SUCCESS) then nodes else [])
  | _ => _ ← SetError XML_ERROR_EMPTY_DOCUMENT 0; mret (XML_ERROR_EMPTY_DOCUMENT, [])
  end.

(** [XMLDocument::LoadFile]: [None] is a file that cannot be opened; [readable] says whether the
    calls that read it succeed. *)
Definition LoadFile (file : option (list Z)) (readable : bool) : method (XMLError * list XMLNode) :=
  _ ← modify Clear;
  nodes ← match file with
    | None => _ ← SetError XML_ERROR_FILE_NOT_FOUND 0; mret []
    | Some bytes =>
        if negb readable then _ ← SetError XML_ERROR_FILE_READ_ERROR 0; mret [] else
        match bytes with
        | [] => _ ← SetError XML_ERROR_EMPTY_DOCUMENT 0; mret []
        | _ => _ ← modify (set_buffer (bytes ++ [0])); document_parse
        end
    end;
  e ← asks _errorID;
  mret (e, nodes).
End tinyxml.

(** ** The printer *)
Record XMLPrinter := mk_printer {
  _elementJustOpened : bool;
  _stack : list (list Z);
  _firstElement : bool;
  _depth : Z;
  _textDepth : Z;
  printer_entities : bool;
  _compactMode : bool;
  written : list Z
}.

Definition XMLPrinter_new (compact : bool) (depth : Z) : XMLPrinter := mk_printer false [] true depth (-1) true compact [].

Definition Write (data : list Z) (p : XMLPrinter) : XMLPrinter :=
  mk_printer (_elementJustOpened p) (_stack p) (_firstElement p) (_depth p) (_textDepth p) (printer_entities p) (_compactMode p) (written p ++ data).
Definition Putc (ch : Z) (p : XMLPrinter) : XMLPrinter := Write [ch] p.
Definition PrintSpace (depth : Z) (p : XMLPrinter) : XMLPrinter := Nat.iter (Z.to_nat depth) (Write [32; 32; 32; 32]) p.

Definition set_opened (opened first : bool) (p : XMLPrinter) : XMLPrinter :=
  mk_printer opened (_stack p) first (_depth p) (_textDepth p) (printer_entities p) (_compactMode p) (written p).
Definition set_depths (stack : list (list Z)) (depth textDepth : Z) (p : XMLPrinter) : XMLPrinter :=
  mk_printer (_elementJustOpened p) stack (_firstElement p) depth textDepth (printer_entities p) (_compactMode p) (written p).

(** The entity of a character, with [&] and [;]. *)
Definition entity_text (c : Z) : list Z :=
  match List.find (λ e, value e =? c) entities with Some e => [38] ++ pattern e ++ [59] | None => [] end.

Section printer.
Context `{TinyxmlH}.

(** [_entityFlag] and [_restrictedEntityFlag], set by the constructor. *)
Definition entity_flag (restricted : bool) (c : Z) : bool :=
  if restricted then (c =? 38) || (c =? 60) || (c =? 62) else existsb (λ e, value e =? c) entities.

(** [run] is what lies between [p] and [q]; a character of 128 or more is negative. *)
Fixpoint string_loop (restricted : bool) (run s : list Z) (p : XMLPrinter) : XMLPrinter :=
  match s with
  | [] => match run with [] => p | _ => Write run p end
  | c :: s =>
      if (c <? 128) && (c <? ENTITY_RANGE) && entity_flag restricted c then string_loop restricted [] s (Write (entity_text c) (Write run p))
      else string_loop restricted (run ++ [c]) s p
  end.

Definition PrintString (s : list Z) (restricted : bool) (p : XMLPrinter) : XMLPrinter :=
  if printer_entities p then string_loop restricted [] s p else Write s p.

Definition SealElementIfJustOpened (p : XMLPrinter) : XMLPrinter :=
  if _elementJustOpened p then Putc 62 (set_opened false (_firstElement p) p) else p.

(** The line break before a node. *)
Definition break_before (compact : bool) (p : XMLPrinter) : XMLPrinter :=
  if (_textDepth p <? 0) && negb (_firstElement p) && negb compact then PrintSpace (_depth p) (Putc 10 p) else p.

Definition OpenElement (name : list Z) (compactMode : bool) (p : XMLPrinter) : XMLPrinter :=
  let p := SealElementIfJustOpened p in
  let p := set_depths (name :: _stack p) (_depth p) (_textDepth p) p in
  let p := Write name (Write [60] (break_before compactMode p)) in
  set_depths (_stack p) (_depth p + 1) (_textDepth p) (set_opened true false p).

Definition PushAttribute (name value : list Z) (p : XMLPrinter) : XMLPrinter :=
  Putc 34 (PrintString value false (Write [61; 34] (Write name (Putc 32 p)))).

Definition CloseElement (compactMode : bool) (p : XMLPrinter) : XMLPrinter :=
  let depth := _depth p - 1 in
  let name := default [] (head (_stack p)) in
  let p := set_depths (tail (_stack p)) depth (_textDepth p) p in
  let p := if _elementJustOpened p then Write [47; 62] p else
             let p := if (_textDepth p <? 0) && negb compactMode then PrintSpace depth (Putc 10 p) else p in
             Write [62] (Write name (Write [60; 47] p)) in
  let p := set_depths (_stack p) depth (if _textDepth p =? depth then -1 else _textDepth p) p in
  let p := if (depth =? 0) && negb compactMode then Putc 10 p else p in
  set_opened false (_firstElement p) p.

Definition PushText (text : list Z) (cdata : bool) (p : XMLPrinter) : XMLPrinter :=
  let p := SealElementIfJustOpened (set_depths (_stack p) (_depth p) (_depth p - 1) p) in
  if cdata then Write [93; 93; 62] (Write text (Write cdataHeader p)) else PrintString text true p.

Definition push_marked (opening text closing : list Z) (p : XMLPrinter) : XMLPrinter :=
  let p := SealElementIfJustOpened p in
  let p := set_opened (_elementJustOpened p) false (break_before (_compactMode p) p) in
  Write closing (Write text (Write opening p)).
Definition PushComment (comment : list Z) : XMLPrinter → XMLPrinter := push_marked [60; 33; 45; 45] comment [45; 45; 62].
Definition PushDeclaration (value : list Z) : XMLPrinter → XMLPrinter := push_marked [60; 63] value [63; 62].
Definition PushUnknown (value : list Z) : XMLPrinter → XMLPrinter := push_marked [60; 33] value [62].

(** The declaration is [xml version="1.0"]. *)
Definition PushHeader (writeBOM writeDec : bool) (p : XMLPrinter) : XMLPrinter :=
  let p := if writeBOM then Write [TIXML_UTF_LEAD_0; TIXML_UTF_LEAD_1; TIXML_UTF_LEAD_2] p else p in
  if writeDec then PushDeclaration [120; 109; 108; 32; 118; 101; 114; 115; 105; 111; 110; 61; 34; 49; 46; 48; 34] p else p.

(** ** Printing a document: [Accept] of the nodes and the [Visit] methods of the printer *)
Fixpoint attributes_accept (attrs : list XMLAttribute) (p : XMLPrinter) : method (list XMLAttribute * XMLPrinter) :=
  match attrs with
  | [] => mret ([], p)
  | a :: attrs =>
      '(n, name) ← get_str (attr_name a);
      '(v, value) ← get_str (attr_value a);
      '(attrs, p) ← attributes_accept attrs (PushAttribute name value p);
      mret (mk_attribute n v :: attrs, p)
  end.

Section accept_all.
Context (accept : XMLNode → XMLPrinter → method (XMLNode * XMLPrinter)).
Fixpoint accept_all (nodes : list XMLNode) (p : XMLPrinter) : method (list XMLNode * XMLPrinter) :=
  match nodes with
  | [] => mret ([], p)
  | n :: nodes => '(n, p) ← accept n p; '(nodes, p) ← accept_all nodes p; mret (n :: nodes, p)
  end.
End accept_all.

Fixpoint node_accept (in_element : bool) (node : XMLNode) (p : XMLPrinter) : method (XMLNode * XMLPrinter) :=
  match node with
  | XMLText l s cdata => '(s, t) ← get_str s; mret (XMLText l s cdata, PushText t cdata p)
  | XMLComment l s => '(s, t) ← get_str s; mret (XMLComment l s, PushComment t p)
  | XMLDeclaration l s => '(s, t) ← get_str s; mret (XMLDeclaration l s, PushDeclaration t p)
  | XMLUnknown l s => '(s, t) ← get_str s; mret (XMLUnknown l s, PushUnknown t p)
  | XMLElement l s closing attrs children =>
      '(s, name) ← get_str s;
      let p := OpenElement name (if in_element then CompactMode (_compactMode p) else _compactMode p) p in
      '(attrs, p) ← attributes_accept attrs p;
      '(children, p) ← accept_all (node_accept true) children p;
      mret (XMLElement l s closing attrs children, CloseElement (CompactMode (_compactMode p)) p)
  end.

(** [XMLDocument::Print] of the nodes of a document. *)
Definition Print (nodes : list XMLNode) (p : XMLPrinter) : method (list XMLNode * XMLPrinter) :=
  entities ← asks _processEntities;
  bom ← asks _writeBOM;
  let p := mk_printer (_elementJustOpened p) (_stack p) (_firstElement p) (_depth p) (_textDepth p) entities (_compactMode p) (written p) in
  accept_all (node_accept false) nodes (PushHeader bom false p).
End printer.
