(* ===== verification/TinyDocs.v ===== *)
(** * TinyDocs: the values of the documents of TinyXml, and what is printed of them

    A document in memory is a tree of nodes whose strings lie in its buffer, read or not yet
    read, or in blocks of their own.  [holds] says that it stands for a list of values.  Printing
    reads the strings, and prints what [print_node] says of the values. *)

From S2P Require Import Prelude TinyText TinyClean TinyXml.
#[local] Open Scope Z_scope.

(** ** Values *)
Inductive xml :=
  | Text (s : list Z) (cdata : bool)
  | Comment (s : list Z)
  | Declaration (s : list Z)
  | Unknown (s : list Z)
  | Element (name : list Z) (attrs : list (list Z * list Z)) (children : list xml).

(** Induction over nested lists of children. *)
Lemma xml_ind' (P : xml → Prop) : (∀ s c, P (Text s c)) → (∀ s, P (Comment s)) → (∀ s, P (Declaration s)) → (∀ s, P (Unknown s)) →
  (∀ n a l, Forall P l → P (Element n a l)) → ∀ v, P v.
Proof.
  intros HT HC HD HU HE. fix IH 1. intros [s c|s|s|s|n a l]; [apply HT|apply HC|apply HD|apply HU|]. apply HE. induction l; constructor; [apply IH|done].
Qed.

Fixpoint strings (v : xml) : list (list Z) :=
  match v with
  | Text s _ | Comment s | Declaration s | Unknown s => [s]
  | Element n a l => n :: flat_map (λ '(x, y), [x; y]) a ++ flat_map strings l
  end.

Fixpoint pairs (n : XMLNode) : list StrPair :=
  match n with
  | XMLText _ s _ | XMLComment _ s | XMLDeclaration _ s | XMLUnknown _ s => [s]
  | XMLElement _ s _ a l => s :: flat_map (λ x, [attr_name x; attr_value x]) a ++ flat_map pairs l
  end.

(** The node has the form of the value. *)
Inductive fits : XMLNode → xml → Prop :=
  | fits_text l p s c : fits (XMLText l p c) (Text s c)
  | fits_comment l p s : fits (XMLComment l p) (Comment s)
  | fits_declaration l p s : fits (XMLDeclaration l p) (Declaration s)
  | fits_unknown l p s : fits (XMLUnknown l p) (Unknown s)
  | fits_element l p n c a a' ns vs : length a = length a' → Forall2 fits ns vs → fits (XMLElement l p c a ns) (Element n a' vs).

Section docs.
Context `{TinyxmlHOk}.

(** The cells [w] at the position [lo] of the buffer are those of the pair [s], which stands for
    the string [t]: unread, read, or in a block of its own. *)
Inductive pair_at (lo : Z) : list Z → StrPair → list Z → Prop :=
  | pair_unread flags nl en ws raw d : mode flags nl en ws → 0 ∉ raw →
      pair_at lo (raw ++ [d]) (mk_pair (Z.lor flags NEEDS_FLUSH) (Shared lo (lo + Z.of_nat (length raw)))) (text_value nl en ws raw)
  | pair_read a t v e : 0 ∉ t → pair_at lo (a ++ t ++ 0 :: v) (mk_pair 0 (Shared (lo + Z.of_nat (length a)) e)) t
  | pair_owned flags t : 0 ∉ t → pair_at lo [] (mk_pair flags (Owned (t ++ [0]))) t.

Lemma text_value_nul nl en ws raw : 0 ∉ text_value nl en ws raw.
Proof. unfold text_value. destruct ws; [apply collapsed_nul|]; apply c_string_nul. Qed.

Lemma pair_at_get x w z s t : pair_at (Z.of_nat (length x)) w s t →
  ∃ w' s', GetStr (x ++ w ++ z) s = Ok (x ++ w' ++ z, s', t) ∧ length w' = length w ∧ pair_at (Z.of_nat (length x)) w' s' t.
Proof.
  intros [flags nl en ws raw d Hm Hraw|a t' v e Ht|flags t' Ht].
  - rewrite <- Nat2Z.inj_add. destruct (GetStr_spec flags nl en ws x raw d z Hm Hraw) as (a & v & E & Hl). eexists _, _. split; [exact E|].
    rewrite Nat2Z.inj_add. split; [rewrite Hl, length_app; cbn; lia|]. apply pair_read, text_value_nul.
  - eexists _, _. split; [|split; [done|by apply pair_read]]. unfold GetStr. cbn [str_ flags_]. rewrite has_zero. cbn [negb].
    rewrite (cstr_at_spec _ _ t'), ok_bind; [by rewrite c_string_id|]. exists (x ++ a), (v ++ z). rewrite length_app, <- !app_assoc. split; [done|lia].
  - eexists _, _. split; [|split; [done|by apply pair_owned]]. unfold GetStr. cbn [str_]. rewrite (cstr_at_spec _ _ t'), ok_bind; [by rewrite c_string_id|].
    exists [], []. by rewrite app_nil_r.
Qed.

(** ** Strings in a stretch of the buffer, in order, with gaps *)
Inductive cells : Z → list Z → list StrPair → list (list Z) → Prop :=
  | cells_nil lo g : cells lo g [] []
  | cells_cons lo g w s t w' ss ts : pair_at (lo + Z.of_nat (length g)) w s t → cells (lo + Z.of_nat (length g) + Z.of_nat (length w)) w' ss ts →
      cells lo (g ++ w ++ w') (s :: ss) (t :: ts).

Lemma cells_gap lo g w ss ts : cells (lo + Z.of_nat (length g)) w ss ts → cells lo (g ++ w) ss ts.
Proof.
  intros Hc. inversion Hc as [|? g' w0 s t w' ss' ts' Hp Hc']; subst; [constructor|]. rewrite app_assoc. constructor; rewrite length_app, Nat2Z.inj_add, Z.add_assoc; done.
Qed.

Lemma cells_app lo w ss ts w' ss' ts' : cells lo w ss ts → cells (lo + Z.of_nat (length w)) w' ss' ts' → cells lo (w ++ w') (ss ++ ss') (ts ++ ts').
Proof.
  induction 1 as [lo g|lo g w0 s t w1 ss ts Hp Hc IH]; intros Hc'; [by apply cells_gap|]. rewrite <- !app_assoc. cbn [app]. constructor; [done|]. apply IH.
  rewrite !length_app in Hc'. by replace (lo + Z.of_nat (length g) + Z.of_nat (length w0) + Z.of_nat (length w1)) with (lo + Z.of_nat (length g + (length w0 + length w1))) by lia.
Qed.

Lemma cells_app_inv ss ts ss' ts' : length ss = length ts → ∀ lo w, cells lo w (ss ++ ss') (ts ++ ts') →
  ∃ w1 w2, w = w1 ++ w2 ∧ cells lo w1 ss ts ∧ cells (lo + Z.of_nat (length w1)) w2 ss' ts'.
Proof.
  revert ts. induction ss as [|s ss IH]; intros [|t ts] Hl lo w Hc; try done.
  - exists [], w. split; [done|]. split; [constructor|]. by rewrite Z.add_0_r.
  - cbn [app] in Hc. inversion Hc as [|? g w0 ? ? w1 ? ? Hp Hc']; subst. injection Hl as Hl. destruct (IH ts Hl _ _ Hc') as (u1 & u2 & -> & H1 & H2).
    exists (g ++ w0 ++ u1), u2. split; [by rewrite <- !app_assoc|]. split; [by constructor|]. rewrite !length_app.
    by replace (lo + Z.of_nat (length g + (length w0 + length u1))) with (lo + Z.of_nat (length g) + Z.of_nat (length w0) + Z.of_nat (length u1)) by lia.
Qed.

Lemma fits_strings n v : fits n v → length (pairs n) = length (strings v).
Proof.
  revert n. induction v as [s c|s|s|s|name a l IH] using xml_ind'; intros n Hf; inversion Hf as [| | | |? ? ? ? a1 a2 ns vs Ha Hns]; subst; [done..|].
  cbn [pairs strings length]. f_equal. rewrite !length_app. f_equal.
  - clear -Ha. revert a Ha. induction a1 as [|x a1 IHa]; intros [|[y z] a] Ha; try done. injection Ha as Ha. cbn. by rewrite (IHa _ Ha).
  - clear -IH Hns. induction Hns as [|n v ns vs Hn Hns IHn]; [done|]. apply Forall_cons in IH as [Hv IH]. cbn. rewrite !length_app, (Hv _ Hn). f_equal. by apply IHn.
Qed.

Lemma fits_all_strings ns vs : Forall2 fits ns vs → length (flat_map pairs ns) = length (flat_map strings vs).
Proof. induction 1 as [|n v ns vs Hn _ IH]; [done|]. cbn. by rewrite !length_app, (fits_strings _ _ Hn), IH. Qed.

(** The nodes of a document stand for the values. *)
Definition holds (d : XMLDocument) (nodes : list XMLNode) (vs : list xml) : Prop :=
  Forall2 fits nodes vs ∧ cells 0 (_charBuffer d) (flat_map pairs nodes) (flat_map strings vs).

(** ** What is printed of values *)
Definition print_attribute (p : XMLPrinter) (a : list Z * list Z) : XMLPrinter := PushAttribute a.1 a.2 p.

Fixpoint print_node (in_element : bool) (p : XMLPrinter) (v : xml) : XMLPrinter :=
  match v with
  | Text s c => PushText s c p
  | Comment s => PushComment s p
  | Declaration s => PushDeclaration s p
  | Unknown s => PushUnknown s p
  | Element n a l =>
      let p := OpenElement n (if in_element then CompactMode (_compactMode p) else _compactMode p) p in
      let p := foldl (print_node true) (foldl print_attribute p a) l in
      CloseElement (CompactMode (_compactMode p)) p
  end.

Lemma get_str_cells d x w z s ss t ts : _charBuffer d = x ++ w ++ z → cells (Z.of_nat (length x)) w (s :: ss) (t :: ts) →
  ∃ w1 w2 s', get_str s d = Ok (s', t, set_buffer (x ++ (w1 ++ w2) ++ z) d) ∧ length (w1 ++ w2) = length w ∧
    cells (Z.of_nat (length x)) w1 [s'] [t] ∧ cells (Z.of_nat (length (x ++ w1))) w2 ss ts.
Proof.
  intros Hb Hc. inversion Hc as [|? g w0 ? ? w' ? ? Hp Hc']; subst. rewrite <- Nat2Z.inj_add, <- length_app in Hp.
  destruct (pair_at_get (x ++ g) w0 (w' ++ z) s t Hp) as (w1 & s' & E & Hl & Hp'). exists (g ++ w1), w', s'. split; [|split; [|split]].
  - unfold get_str. rewrite Hb. replace (x ++ (g ++ w0 ++ w') ++ z) with ((x ++ g) ++ w0 ++ w' ++ z) by (by rewrite <- !app_assoc). rewrite E, ok_bind. by rewrite <- !app_assoc.
  - rewrite !length_app, Hl. lia.
  - rewrite <- (app_nil_r w1). rewrite length_app, Nat2Z.inj_add in Hp'. constructor; [done|constructor].
  - rewrite !length_app, Hl. by replace (Z.of_nat (length x + (length g + length w0))) with (Z.of_nat (length x) + Z.of_nat (length g) + Z.of_nat (length w0)) by lia.
Qed.

(** A program that reads the strings of [ss], one after the other, returning [a] and the pairs. *)
Definition reads {A} (m : method A) (a : list StrPair → A → Prop) (ss : list StrPair) (ts : list (list Z)) : Prop :=
  ∀ d x w z, _charBuffer d = x ++ w ++ z → cells (Z.of_nat (length x)) w ss ts →
  ∃ w' ss' r, m d = Ok (r, set_buffer (x ++ w' ++ z) d) ∧ length w' = length w ∧ a ss' r ∧ length ss' = length ss ∧ cells (Z.of_nat (length x)) w' ss' ts.

Lemma reads_ret {A} (r : A) : reads (mret r) (λ ss' r', ss' = [] ∧ r' = r) [] [].
Proof. intros d x w z Hb Hc. exists w, [], r. rewrite <- Hb. split; [by destruct d|]. split; [done|]. split; [done|]. split; [done|constructor]. Qed.

Lemma reads_get_str s t : reads (get_str s) (λ ss' r, ss' = [r.1] ∧ r.2 = t) [s] [t].
Proof.
  intros d x w z Hb Hc. destruct (get_str_cells _ _ _ _ _ _ _ _ Hb Hc) as (w1 & w2 & s' & E & Hl & Hc1 & _). eexists _, [s'], _. split; [exact E|].
  split; [done|]. split; [done|]. split; [done|]. apply (cells_app _ w1 [s'] [t] w2 [] []); [done|constructor].
Qed.

Lemma reads_bind {A B} (m : method A) (f : A → method B) P Q ss ts ss' ts' : length ss = length ts → reads m P ss ts →
  (∀ us r, P us r → reads (f r) (λ vs, Q (us ++ vs)) ss' ts') → reads (m ≫= f) Q (ss ++ ss') (ts ++ ts').
Proof.
  intros Hlen Hm Hf d x w z Hb Hc. destruct (cells_app_inv _ _ _ _ Hlen _ _ Hc) as (w1 & w2 & -> & H1 & H2). rewrite <- app_assoc in Hb.
  destruct (Hm d x w1 (w2 ++ z) Hb H1) as (w1' & us & r & E & Hl1 & HP & Hlu & Hc1). rewrite <- Nat2Z.inj_add, <- Hl1, <- length_app in H2.
  destruct (Hf us r HP (set_buffer (x ++ w1' ++ w2 ++ z) d) (x ++ w1') w2 z) as (w2' & vs & r' & E' & Hl2 & HQ & Hlv & Hc2); [cbn; by rewrite <- app_assoc|done|].
  exists (w1' ++ w2'), (us ++ vs), r'. split.
  - unfold mbind, method_bind. rewrite E, ok_bind, E'. f_equal. f_equal. cbn. by rewrite <- !app_assoc.
  - split; [rewrite !length_app; lia|]. split; [done|]. split; [rewrite !length_app; lia|]. apply cells_app; [done|]. by rewrite <- Nat2Z.inj_add, <- length_app.
Qed.

(** The last step of a program reads nothing. *)
Lemma reads_finish {A B} (m : method A) (f : A → method B) P Q ss ts : length ss = length ts → reads m P ss ts →
  (∀ us r, P us r → ∃ b, f r = mret b ∧ Q us b) → reads (m ≫= f) Q ss ts.
Proof.
  intros Hlen Hm Hf. rewrite <- (app_nil_r ss), <- (app_nil_r ts). apply (reads_bind m _ P); [done|done|]. intros us r HP d x w z Hb Hc.
  destruct (Hf us r HP) as (b & -> & HQ). destruct (reads_ret b d x w z Hb Hc) as (w' & vs & r' & E & Hl & [-> ->] & Hlv & Hc').
  exists w', [], b. split_and!; try done. by rewrite app_nil_r.
Qed.

Definition attr_pairs (a : list XMLAttribute) : list StrPair := flat_map (λ x, [attr_name x; attr_value x]) a.
Definition attr_strings (a : list (list Z * list Z)) : list (list Z) := flat_map (λ '(x, y), [x; y]) a.

Lemma attr_lengths a a' : length a = length a' → length (attr_pairs a) = length (attr_strings a').
Proof. revert a'. induction a as [|x a IH]; intros [|[y z] a'] Hl; try done. injection Hl as Hl. exact (f_equal (λ n, S (S n)) (IH _ Hl)). Qed.

Lemma attributes_accept_reads a : ∀ a' p, length a = length a' →
  reads (attributes_accept a p) (λ us r, us = attr_pairs r.1 ∧ length r.1 = length a' ∧ r.2 = foldl print_attribute p a') (attr_pairs a) (attr_strings a').
Proof.
  induction a as [|x a IH]; intros [|[n v] a'] p Hl; try done.
  - intros d y w z Hb Hc. destruct (reads_ret (([] : list XMLAttribute), p) d y w z Hb Hc) as (w' & us & r & E & Hl' & [-> ->] & Hlu & Hc'). by exists w', [], ([], p).
  - injection Hl as Hl. cbn [attributes_accept]. change (attr_pairs (x :: a)) with ([attr_name x] ++ [attr_value x] ++ attr_pairs a).
    change (attr_strings ((n, v) :: a')) with ([n] ++ [v] ++ attr_strings a').
    eapply reads_bind; [done|apply reads_get_str|]. intros us [n' name] [-> Ht]. cbn [fst snd] in *. subst name.
    eapply reads_bind; [done|apply reads_get_str|]. intros us [v' value] [-> Ht]. cbn [fst snd] in *. subst value.
    eapply reads_finish; [by apply attr_lengths|by apply (IH a' (PushAttribute n v p))|].
    intros us [a2 p2] (-> & Hla & Hp). cbn [fst snd] in *. subst p2. eexists. split; [done|]. split; [done|]. split; [cbn; by f_equal|done].
Qed.

Lemma nodes_accept_reads (in_element : bool) vs : Forall (λ v, ∀ n in_element p, fits n v → reads (node_accept in_element n p)
    (λ us r, us = pairs r.1 ∧ fits r.1 v ∧ r.2 = print_node in_element p v) (pairs n) (strings v)) vs →
  ∀ ns p, Forall2 fits ns vs → reads (accept_all (node_accept in_element) ns p)
    (λ us r, us = flat_map pairs r.1 ∧ Forall2 fits r.1 vs ∧ r.2 = foldl (print_node in_element) p vs) (flat_map pairs ns) (flat_map strings vs).
Proof.
  induction 1 as [|v vs Hv Hvs IH]; intros ns p Hns; inversion Hns as [|n ? ns' ? Hn Hns']; subst; cbn [accept_all flat_map].
  - intros d y w z Hb Hc. destruct (reads_ret (([] : list XMLNode), p) d y w z Hb Hc) as (w' & us & r & E & Hl' & [-> ->] & Hlu & Hc'). by exists w', [], ([], p).
  - eapply reads_bind; [by apply fits_strings|by apply Hv|]. intros us [n' p'] (-> & Hn' & Hp). cbn [fst snd] in *. subst p'.
    eapply reads_finish; [by apply fits_all_strings|by apply (IH ns' (print_node in_element p v))|].
    intros us [ns2 p2] (-> & Hns2 & Hp). cbn [fst snd] in *. subst p2. eexists. split; [done|]. split; [done|]. split; [by constructor|done].
Qed.

Lemma reads_one s t {A} (f : list Z → A) (g : StrPair → XMLNode) : (∀ s, pairs (g s) = [s]) →
  reads ('(s', t') ← get_str s; mret (g s', f t')) (λ us r, us = pairs r.1 ∧ (∃ s', r.1 = g s') ∧ r.2 = f t) [s] [t].
Proof.
  intros Hg. eapply reads_finish; [done|apply reads_get_str|]. intros us [s' t'] [-> Ht]. cbn [fst snd] in *. subst t'. eexists. split; [done|]. cbn. rewrite Hg. split; [done|]. split; [by eexists|done].
Qed.

Lemma reads_weaken {A} (m : method A) (P Q : list StrPair → A → Prop) ss ts : reads m P ss ts → (∀ us r, P us r → Q us r) → reads m Q ss ts.
Proof.
  intros Hm HPQ d x w z Hb Hc. destruct (Hm d x w z Hb Hc) as (w' & us & r & E & Hl & HP & Hlu & Hc'). exists w', us, r. split_and!; try done. by apply HPQ.
Qed.

(** Printing a node reads its strings, and prints its value. *)
Lemma node_accept_reads v : ∀ n in_element p, fits n v → reads (node_accept in_element n p)
  (λ us r, us = pairs r.1 ∧ fits r.1 v ∧ r.2 = print_node in_element p v) (pairs n) (strings v).
Proof.
  induction v as [s c|s|s|s|name a l IH] using xml_ind'; intros n in_element p Hf; inversion Hf as [| | | |ln q ? cl a1 a2 ns vs Ha Hns]; subst; cbn [node_accept pairs strings print_node].
  1: eapply reads_weaken; [by eapply (reads_one _ _ (λ t, PushText t c p) (λ s, XMLText _ s c))|].
  2: eapply reads_weaken; [by eapply (reads_one _ _ (λ t, PushComment t p) (λ s, XMLComment _ s))|].
  3: eapply reads_weaken; [by eapply (reads_one _ _ (λ t, PushDeclaration t p) (λ s, XMLDeclaration _ s))|].
  4: eapply reads_weaken; [by eapply (reads_one _ _ (λ t, PushUnknown t p) (λ s, XMLUnknown _ s))|].
  1-4: intros us r (-> & [s' ->] & ->); split; [done|]; split; [constructor|done].
  change (q :: flat_map (λ x, [attr_name x; attr_value x]) a1 ++ flat_map pairs ns) with ([q] ++ attr_pairs a1 ++ flat_map pairs ns).
  change (name :: flat_map (λ '(x, y), [x; y]) a ++ flat_map strings l) with ([name] ++ attr_strings a ++ flat_map strings l).
  eapply reads_bind; [done|apply reads_get_str|]. intros us [q' name'] [-> Ht]. cbn [fst snd] in *. subst name'.
  eapply reads_bind; [by apply attr_lengths|by apply attributes_accept_reads|]. intros us [a3 p3] (-> & Hla & Hp). cbn [fst snd] in *. subst p3.
  eapply reads_finish; [by apply fits_all_strings|by apply (nodes_accept_reads true l IH ns)|].
  intros us [ns2 p2] (-> & Hns2 & Hp). cbn [fst snd] in *. subst p2. eexists. split; [done|]. split; [done|]. split; [by constructor|done].
Qed.
End docs.
