(* ===== verification/TinyPrint.v ===== *)
(** * TinyPrint: the text the printer of tinyxml2.cpp writes

    [node_text] and [content] are the grammar of what is printed: the text of a node, and of a
    list of siblings with the white space a printer may put between them, none next to plain
    text.  The printer writes a text of that grammar, compact or not; reading an escaped string
    gives the string. *)

From S2P Require Import Prelude TinyText TinyClean TinyXml TinyDocs.
#[local] Open Scope Z_scope.

(** ** Escaping *)
Section escape.
Context `{TinyxmlH}.

Definition escape_char (restricted : bool) (c : Z) : list Z :=
  if (c <? 128) && (c <? ENTITY_RANGE) && entity_flag restricted c then entity_text c else [c].
Definition escape (restricted : bool) (s : list Z) : list Z := s ≫= escape_char restricted.

Lemma Write_nil p : Write [] p = p.
Proof. destruct p. unfold Write. cbn. by rewrite app_nil_r. Qed.

Lemma Write_Write a b p : Write b (Write a p) = Write (a ++ b) p.
Proof. unfold Write. cbn. by rewrite <- app_assoc. Qed.

Lemma string_loop_spec restricted s : ∀ run p, string_loop restricted run s p = Write (run ++ escape restricted s) p.
Proof.
  induction s as [|c s IH]; intros run p; cbn [string_loop].
  - cbn. rewrite app_nil_r. destruct run; [by rewrite Write_nil|done].
  - change (escape restricted (c :: s)) with (escape_char restricted c ++ escape restricted s). unfold escape_char. destruct (_ && _ && _); rewrite IH, ?Write_Write; by rewrite <- ?app_assoc.
Qed.

Lemma PrintString_spec s restricted p : printer_entities p = true → PrintString s restricted p = Write (escape restricted s) p.
Proof. intros Hp. unfold PrintString. by rewrite Hp, string_loop_spec. Qed.
End escape.

(** The characters that are printed as an entity. *)
Definition quoted (restricted : bool) : list Z := if restricted then [38; 60; 62] else [34; 38; 39; 60; 62].

Section cleaning.
Context `{TinyxmlHOk}.

Lemma escape_char_spec restricted c : escape_char restricted c = if bool_decide (c ∈ quoted restricted) then entity_text c else [c].
Proof.
  unfold escape_char. rewrite entity_range. case_bool_decide as Hc.
  - destruct restricted; cbn in Hc; repeat (apply elem_of_cons in Hc as [->|Hc]; [done|]); by apply not_elem_of_nil in Hc.
  - destruct (entity_flag restricted c) eqn:E; [|by rewrite andb_false_r]. exfalso. apply Hc. unfold entity_flag in E. destruct restricted.
    + rewrite !orb_true_iff, !Z.eqb_eq in E. cbn. set_solver.
    + apply existsb_exists in E as (e & He & Hv%Z.eqb_eq). rewrite <- Hv. unfold entities in He. repeat (destruct He as [<-|He]; [cbn; set_solver|]). done.
Qed.

(** What is left of a string when its special characters are escaped. *)
Lemma escape_chars restricted s (P : Z → Prop) : Forall P s → Forall (λ c, Forall P (entity_text c)) (quoted restricted) → Forall P (escape restricted s).
Proof.
  intros Hs Hq. unfold escape. induction Hs as [|c s Hc _ IH]; [constructor|]. cbn. apply Forall_app. split; [|done]. rewrite escape_char_spec.
  case_bool_decide as Hin; [|by constructor]. by eapply Forall_forall in Hq.
Qed.

Lemma escape_without restricted s k : k ∉ [38; 59; 113; 117; 111; 116; 97; 109; 112; 115; 108; 103] → (k ∈ s → k ∈ quoted restricted) → k ∉ escape restricted s.
Proof.
  intros Hk Hs Hin. unfold escape in Hin. apply list_elem_of_bind in Hin as (c & Hc & Hcs). rewrite escape_char_spec in Hc. case_bool_decide as Hq.
  - destruct restricted; cbn in Hq; repeat (apply elem_of_cons in Hq as [->|Hq]; [by cbn in Hc; set_solver|]); by apply not_elem_of_nil in Hq.
  - apply list_elem_of_singleton in Hc as ->. by apply Hq, Hs.
Qed.

Lemma entity_ref_text e r : e ∈ entities → entity_ref (pattern e ++ 59 :: r) = Some (value e, r) ∧ head (pattern e ++ 59 :: r) ≠ Some 35.
Proof. intros He. unfold entities in He. repeat (apply elem_of_cons in He as [->|He]; [by split|]). by apply not_elem_of_nil in He. Qed.

Lemma quoted_entity restricted c : c ∈ quoted restricted → ∃ e, e ∈ entities ∧ value e = c ∧ entity_text c = 38 :: pattern e ++ [59].
Proof.
  intros Hc. assert (c ∈ value <$> entities) as Hv by (destruct restricted; cbn in *; set_solver). apply list_elem_of_fmap in Hv as (e & -> & He).
  exists e. split; [done|]. split; [done|]. unfold entities in He. repeat (apply elem_of_cons in He as [->|He]; [done|]). by apply not_elem_of_nil in He.
Qed.

(** Cleaning up undoes escaping. *)
Lemma clean_escape restricted raw s : 13 ∉ s → ∀ fuel out, (length (escape restricted s) ≤ fuel)%nat →
  clean_text fuel true true raw out (escape restricted s) = out ++ s.
Proof.
  induction s as [|c s IH]; intros H13 fuel out Hf; [destruct fuel; cbn; by rewrite app_nil_r|]. apply not_elem_of_cons in H13 as [Hc H13].
  assert (escape restricted (c :: s) = escape_char restricted c ++ escape restricted s) as E by done. rewrite E in Hf |- *. rewrite escape_char_spec in Hf |- *. rewrite length_app in Hf.
  case_bool_decide as Hq.
  - destruct (quoted_entity _ _ Hq) as (e & He & Hv & Et). rewrite Et in Hf |- *. destruct fuel as [|fuel]; [cbn in Hf; lia|]. cbn [app clean_text]. cbn [Z.eqb Pos.eqb andb].
    destruct (entity_ref_text e (escape restricted s) He) as [Er Hh]. rewrite <- app_assoc. cbn [app]. rewrite bool_decide_eq_false_2 by done. rewrite Er.
    rewrite IH, Hv, <- app_assoc; [done|done|]. cbn in Hf. lia.
  - destruct fuel as [|fuel]; [cbn in Hf; lia|]. cbn [length] in Hf. cbn [app clean_text]. rewrite (proj2 (Z.eqb_neq c 13)) by done. cbn [andb].
    assert (skip_if 13 (escape restricted s) = escape restricted s) as Es.
    { destruct s as [|d s']; [done|]. assert (13 ∉ escape restricted (d :: s')) as Hd.
      { apply escape_without; [set_solver|intros ?; done]. }
      destruct (escape restricted (d :: s')) as [|x u]; [done|]. cbn. rewrite (proj2 (Z.eqb_neq x 13)); [done|]. set_solver. }
    destruct (Z.eqb_spec c 10) as [->|Hc10]; [rewrite Es, IH, <- app_assoc by (done || lia); done|].
    assert (c ≠ 38) as Hc38 by (intros ->; apply Hq; destruct restricted; cbn; set_solver).
    rewrite (proj2 (Z.eqb_neq c 38)) by done. rewrite IH, <- app_assoc by (done || lia). done.
Qed.

Lemma clean_plain raw s : 13 ∉ s → ∀ fuel out, (length s ≤ fuel)%nat → clean_text fuel true false raw out s = out ++ s.
Proof.
  induction s as [|c s IH]; intros H13 fuel out Hf; [destruct fuel; cbn; by rewrite app_nil_r|]. apply not_elem_of_cons in H13 as [Hc H13].
  destruct fuel as [|fuel]; [cbn in Hf; lia|]. cbn [length] in Hf. cbn [clean_text]. rewrite (proj2 (Z.eqb_neq c 13)) by done. cbn [andb].
  assert (skip_if 13 s = s) as Es by (destruct s as [|x u]; [done|]; cbn; rewrite (proj2 (Z.eqb_neq x 13)); [done|set_solver]).
  rewrite Es. destruct (Z.eqb_spec c 10) as [->|Hc10]; rewrite IH, <- app_assoc by (done || lia); done.
Qed.

(** What is read of an escaped text or attribute value, of any other node, and of a name. *)
Lemma text_value_escape restricted s : 0 ∉ s → 13 ∉ s → text_value true true false (escape restricted s) = s.
Proof. intros H0' H13. unfold text_value, cleaned. cbn [orb]. rewrite clean_escape by done. by apply c_string_id. Qed.

Lemma text_value_plain s : 0 ∉ s → 13 ∉ s → text_value true false false s = s.
Proof. intros H0' H13. unfold text_value, cleaned. cbn [orb]. rewrite clean_plain by done. by apply c_string_id. Qed.

Lemma text_value_name s : 0 ∉ s → text_value false false false s = s.
Proof. intros H0'. by apply c_string_id. Qed.
End cleaning.

(** ** The texts of documents *)
Definition plain (v : xml) : bool := match v with Text _ false => true | _ => false end.
Definition blank_space (ws : list Z) : Prop := Forall (λ c, c ∈ [10; 32]) ws.

Section grammar.
Context `{TinyxmlH}.

Definition attribute_text (a : list Z * list Z) : list Z := [32] ++ a.1 ++ [61; 34] ++ escape false a.2 ++ [34].

(** Siblings, the first of them behind plain text when [after] says so. *)
Inductive content (text_of : xml → list Z → Prop) : bool → list xml → list Z → Prop :=
  | content_nil after ws : blank_space ws → (after = true → ws = []) → content text_of after [] ws
  | content_cons after v vs ws t u : blank_space ws → (after || plain v = true → ws = []) → text_of v t → content text_of (plain v) vs u →
      content text_of after (v :: vs) (ws ++ t ++ u).

Inductive node_text : xml → list Z → Prop :=
  | text_plain s : node_text (Text s false) (escape true s)
  | text_cdata s : node_text (Text s true) (cdataHeader ++ s ++ [93; 93; 62])
  | text_comment s : node_text (Comment s) (commentHeader ++ s ++ [45; 45; 62])
  | text_declaration s : node_text (Declaration s) (xmlHeader ++ s ++ [63; 62])
  | text_unknown s : node_text (Unknown s) (dtdHeader ++ s ++ [62])
  | text_closed n a : node_text (Element n a []) ([60] ++ n ++ (a ≫= attribute_text) ++ [47; 62])
  | text_open n a vs u : vs ≠ [] → content node_text false vs u →
      node_text (Element n a vs) ([60] ++ n ++ (a ≫= attribute_text) ++ [62] ++ u ++ [60; 47] ++ n ++ [62]).

Lemma content_blank text_of vs w u : blank_space w → content text_of false vs u → (head (plain <$> vs) = Some true → w = []) → content text_of false vs (w ++ u).
Proof.
  intros Hw Hc. inversion Hc as [|? v vs' ws t u' Hws Hp Ht Hu]; subst; intros Hh.
  - constructor; [by apply Forall_app|done].
  - rewrite app_assoc. constructor; [by apply Forall_app| |done|done]. cbn [orb] in *. intros Hv. rewrite (Hp Hv), Hh; [done|]. cbn. by rewrite Hv.
Qed.
End grammar.

(** ** Values that can be printed and read back *)
Fixpoint free (tag s : list Z) : bool :=
  match s with [] => true | c :: s' => negb (bool_decide (tag `prefix_of` s ++ tag)) && free tag s' end.
Definition clean (s : list Z) : bool := bool_decide (0 ∉ s) && bool_decide (13 ∉ s).

(** No two plain texts in a row. *)
Fixpoint separated (after : bool) (vs : list xml) : bool :=
  match vs with [] => true | v :: vs => negb (after && plain v) && separated (plain v) vs end.

Definition is_decl (v : xml) : bool := match v with Declaration _ => true | _ => false end.

(** Declarations come before everything else. *)
Fixpoint declarations_first (before : bool) (vs : list xml) : bool :=
  match vs with [] => true | v :: vs => (before || negb (is_decl v)) && declarations_first (before && is_decl v) vs end.

Section valid.
Context `{TinyxmlH}.

Definition valid_name (n : list Z) : bool := match n with [] => false | c :: _ => IsNameStartChar c && forallb IsNameChar n end.
Definition valid_attribute (a : list Z * list Z) : bool := valid_name a.1 && clean a.2.
Definition blank (s : list Z) : bool := forallb IsWhiteSpace s.

Fixpoint valid (v : xml) : bool :=
  match v with
  | Text s false => clean s && negb (blank s)
  | Text s true => clean s && free [93; 93; 62] s
  | Comment s => clean s && free [45; 45; 62] s
  | Declaration s => clean s && free [63; 62] s
  | Unknown s => clean s && free [62] s && negb (bool_decide ([45; 45] `prefix_of` s)) && negb (bool_decide ([91; 67; 68; 65; 84; 65; 91] `prefix_of` s))
  | Element n a vs =>
      valid_name n && forallb valid_attribute a && bool_decide (NoDup a.*1) &&
      forallb valid vs && separated false vs && declarations_first false vs
  end.

(** How many elements with content lie inside each other. *)
Fixpoint depth (v : xml) : Z := match v with Element _ _ [] => 0 | Element _ _ vs => 1 + foldr Z.max 0 (depth <$> vs) | _ => 0 end.

Definition document (vs : list xml) : bool :=
  negb (bool_decide (vs = [])) && forallb valid vs && forallb (negb ∘ plain) vs && declarations_first true vs && (1 + foldr Z.max 0 (depth <$> vs) <? TINYXML2_MAX_ELEMENT_DEPTH).
End valid.

(** ** Printing *)
Section print.
Context `{TinyxmlHOk}.

Definition seal (p : XMLPrinter) : list Z := if _elementJustOpened p then [62] else [].

(** [q] is [p] after it has written [t] and sealed the open element. *)
Record wrote (p q : XMLPrinter) (t : list Z) : Prop := {
  wrote_text : written q = written p ++ seal p ++ t;
  wrote_opened : _elementJustOpened q = false;
  wrote_depth : _depth q = _depth p;
  wrote_stack : _stack q = _stack p;
  wrote_compact : _compactMode q = _compactMode p;
  wrote_entities : printer_entities q = printer_entities p
}.

(** The line break the printer puts before a node, or before an end tag. *)
Definition line_break (indent : Z) (broken : bool) : list Z := if broken then 10 :: replicate (4 * Z.to_nat indent) 32 else [].

Lemma line_break_blank indent broken : blank_space (line_break indent broken).
Proof. destruct broken; [|constructor]. constructor; [set_solver|]. apply Forall_replicate. set_solver. Qed.

Lemma PrintSpace_spec depth p : PrintSpace depth p = Write (replicate (4 * Z.to_nat depth) 32) p.
Proof.
  unfold PrintSpace. set (sp := [32; 32; 32; 32]). assert (∀ n, Nat.iter n (Write sp) p = Write (replicate (4 * n) 32) p) as Hn; [|apply Hn].
  induction n as [|n IH]; [by rewrite Write_nil|]. change (Nat.iter (S n) (Write sp) p) with (Write sp (Nat.iter n (Write sp) p)). rewrite IH, Write_Write. f_equal.
  replace (4 * S n)%nat with (4 * n + 4)%nat by lia. by rewrite replicate_add.
Qed.

Lemma break_before_spec compact p :
  break_before compact p = Write (line_break (_depth p) ((_textDepth p <? 0) && negb (_firstElement p) && negb compact)) p.
Proof. unfold break_before, line_break, Putc. case_match; [|by rewrite Write_nil]. by rewrite PrintSpace_spec, Write_Write. Qed.

Lemma Seal_spec p : SealElementIfJustOpened p = Write (seal p) (set_opened false (_firstElement p) p).
Proof. unfold SealElementIfJustOpened, seal, Putc. destruct (_elementJustOpened p) eqn:E; [done|]. rewrite Write_nil. destruct p; cbn in *; by subst. Qed.

Lemma PushAttribute_spec n v p : printer_entities p = true → PushAttribute n v p = Write (attribute_text (n, v)) p.
Proof. intros Hp. unfold PushAttribute, Putc. rewrite PrintString_spec by done. rewrite !Write_Write. unfold attribute_text. cbn [fst snd]. by rewrite <- ?app_assoc. Qed.

Lemma print_attributes a : ∀ p, printer_entities p = true → foldl print_attribute p a = Write (a ≫= attribute_text) p.
Proof.
  induction a as [|[n v] a IH]; intros p Hp; cbn [foldl]; [by rewrite Write_nil|]. unfold print_attribute at 2. cbn [fst snd]. rewrite PushAttribute_spec by done.
  rewrite IH by done. by rewrite Write_Write.
Qed.

(** What is printed of a node at the depth of [p]: no white space before it behind text, and a
    trailing line break only at the level of the document. *)
Definition prints (v : xml) (p q : XMLPrinter) : Prop :=
  ∃ ws t trail, wrote p q (ws ++ t ++ trail) ∧ node_text v t ∧ blank_space ws ∧ blank_space trail ∧
    (0 ≤ _textDepth p ∨ plain v = true → ws = []) ∧ (0 < _depth p ∨ plain v = true → trail = []) ∧ (plain v = true → 0 ≤ _textDepth q).

Definition prints_all (vs : list xml) (p q : XMLPrinter) : Prop :=
  ∀ after w, (after = true → 0 ≤ _textDepth p) → blank_space w → (0 ≤ _textDepth q → w = []) →
  ∃ u, content node_text after vs (u ++ w) ∧ match vs with [] => q = p ∧ u = [] | _ => wrote p q u end.

Lemma wrote_trans p q r a b : wrote p q a → wrote q r b → wrote p r (a ++ b).
Proof.
  intros [T1 O1 D1 S1 C1 E1] [T2 O2 D2 S2 C2 E2]. split; try congruence. rewrite T2, T1. unfold seal at 2. rewrite O1. by rewrite <- !app_assoc.
Qed.

Lemma prints_all_of ie vs : Forall (λ v, ∀ p, printer_entities p = true → 0 ≤ _depth p → (plain v = true → 0 < _depth p) → prints v p (print_node ie p v)) vs →
  ∀ p, printer_entities p = true → 0 ≤ _depth p → (0 < _depth p ∨ Forall (λ v, plain v = false) vs) → prints_all vs p (foldl (print_node ie) p vs).
Proof.
  induction 1 as [|v vs Hv _ IH]; intros p Hp Hd Hpl after w Hafter Hw Hq; cbn [foldl] in *.
  - exists []. split; [|done]. constructor; [done|]. intros Ha. by apply Hq, Hafter.
  - destruct (Hv p Hp Hd) as (ws & t & trail & Hwr & Ht & Hws & Htr & Hws0 & Htr0 & Htd).
    { intros Hv'. destruct Hpl as [?|Hpl]; [done|]. apply Forall_cons in Hpl as [? _]. congruence. }
    destruct (IH (print_node ie p v)) with (after := plain v) (w := w) as (u & Hu & Hrest); [by rewrite (wrote_entities _ _ _ Hwr)|by rewrite (wrote_depth _ _ _ Hwr)| |done..|].
    { rewrite (wrote_depth _ _ _ Hwr). destruct Hpl as [?|Hpl]; [by left|right]. by apply Forall_cons in Hpl as [_ ?]. }
    exists (ws ++ t ++ trail ++ u). split.
    + rewrite <- !app_assoc. constructor; [done| |done|].
      * intros [?|?]%orb_true_iff; apply Hws0; [left; by apply Hafter|by right].
      * destruct (plain v) eqn:Ev; [by rewrite Htr0 by auto|]. apply content_blank; [done|done|]. intros Hh. apply Htr0. left. destruct Hpl as [?|Hpl]; [done|].
        destruct vs as [|v2 vs]; [done|]. cbn in Hh. injection Hh as Hh. do 2 (apply Forall_cons in Hpl as [? Hpl]). congruence.
    + destruct vs as [|v2 vs]; [destruct Hrest as [-> ->]; by rewrite app_nil_r|]. replace (ws ++ t ++ trail ++ u) with ((ws ++ t ++ trail) ++ u) by (by rewrite <- !app_assoc).
      by eapply wrote_trans.
Qed.

(** The printer behind the name of an element. *)
Record opened (n : list Z) (p q : XMLPrinter) (ws : list Z) : Prop := {
  opened_text : written q = written p ++ seal p ++ ws ++ [60] ++ n;
  opened_opened : _elementJustOpened q = true;
  opened_depth : _depth q = _depth p + 1;
  opened_stack : _stack q = n :: _stack p;
  opened_compact : _compactMode q = _compactMode p;
  opened_entities : printer_entities q = printer_entities p
}.

Lemma OpenElement_spec n compact p : ∃ ws, opened n p (OpenElement n compact p) ws ∧ blank_space ws ∧ (0 ≤ _textDepth p → ws = []).
Proof.
  exists (line_break (_depth p) ((_textDepth p <? 0) && negb (_firstElement p) && negb compact)). split; [|split; [apply line_break_blank|]].
  - unfold OpenElement. rewrite Seal_spec, break_before_spec. split; try done. cbn. by rewrite <- !app_assoc.
  - intros Ht. by rewrite (proj2 (Z.ltb_ge _ _) Ht).
Qed.

Definition end_tag (compact : bool) (p : XMLPrinter) : list Z :=
  if _elementJustOpened p then [47; 62]
  else line_break (_depth p - 1) ((_textDepth p <? 0) && negb compact) ++ [60; 47] ++ default [] (head (_stack p)) ++ [62].
Definition trailing (compact : bool) (p : XMLPrinter) : list Z := if (_depth p - 1 =? 0) && negb compact then [10] else [].

Lemma trailing_blank compact p : blank_space (trailing compact p).
Proof. unfold trailing. destruct (_ && _); [|constructor]. constructor; [set_solver|constructor]. Qed.

Lemma CloseElement_spec compact p : let q := CloseElement compact p in
  written q = written p ++ end_tag compact p ++ trailing compact p ∧ _elementJustOpened q = false ∧ _depth q = _depth p - 1 ∧ _stack q = tail (_stack p) ∧
  _compactMode q = _compactMode p ∧ printer_entities q = printer_entities p.
Proof.
  cbv zeta. unfold CloseElement, end_tag, trailing, Putc. cbv zeta. cbn [_elementJustOpened set_depths].
  destruct (_elementJustOpened p); [|cbn [_textDepth set_depths]; unfold line_break; destruct ((_textDepth p <? 0) && negb compact); rewrite ?PrintSpace_spec].
  all: destruct ((_depth p - 1 =? 0) && negb compact); rewrite ?Write_Write; split_and!; try done; cbn [written Write set_opened set_depths]; rewrite ?app_nil_r; repeat (rewrite <- app_assoc; cbn [app]); done.
Qed.

Lemma push_marked_prints v opening s closing p : plain v = false → node_text v (opening ++ s ++ closing) → prints v p (push_marked opening s closing p).
Proof.
  intros Hv Ht. unfold push_marked. rewrite Seal_spec, break_before_spec. eexists (line_break (_depth p) _), _, []. split; [|split; [exact Ht|split; [apply line_break_blank|]]].
  - split; try done. cbn [written Write set_opened]. rewrite app_nil_r. by repeat (rewrite <- app_assoc; cbn [app]).
  - split; [constructor|]. rewrite Hv. split; [|done]. intros [Hd|?]; [|done]. cbn. by rewrite (proj2 (Z.ltb_ge _ _) Hd).
Qed.

(** The printer writes a node as the grammar says. *)
Lemma print_node_prints v : ∀ ie p, printer_entities p = true → 0 ≤ _depth p → (plain v = true → 0 < _depth p) → prints v p (print_node ie p v).
Proof.
  induction v as [s c|s|s|s|n a vs IH] using xml_ind'; intros ie p Hp Hd Hpl; cbn [print_node].
  - unfold PushText. rewrite Seal_spec. set (p0 := set_depths _ _ _ p). exists [], (if c then cdataHeader ++ s ++ [93; 93; 62] else escape true s), [].
    split_and!; try done; try by constructor.
    + destruct c.
      * rewrite !Write_Write. split; try done. cbn [written Write]. rewrite app_nil_r. by repeat (rewrite <- app_assoc; cbn [app]).
      * rewrite PrintString_spec, Write_Write by done. split; try done. cbn [written Write]. by rewrite app_nil_r.
    + destruct c; constructor.
    + destruct c; [done|]. intros _. specialize (Hpl eq_refl). rewrite PrintString_spec by done. cbn. lia.
  - apply push_marked_prints; [done|constructor].
  - apply push_marked_prints; [done|constructor].
  - apply push_marked_prints; [done|constructor].
  - set (c := if ie then CompactMode (_compactMode p) else _compactMode p). destruct (OpenElement_spec n c p) as (ws & [To Oo Do So Co Eo] & Hws & Hws0).
    rewrite print_attributes by by rewrite Eo. set (p1 := OpenElement n c p) in *. set (p2 := Write (a ≫= attribute_text) p1).
    assert (prints_all vs p2 (foldl (print_node true) p2 vs)) as Hall.
    { assert (0 < _depth p2) as Hd2 by (change (0 < _depth p1); lia). apply prints_all_of; [|by change (printer_entities p1 = true); rewrite Eo|lia|by left]. eapply Forall_impl; [exact IH|]. intros v Hv p' ???. by apply Hv. }
    assert (written p2 = (written p ++ seal p ++ ws ++ [60] ++ n) ++ (a ≫= attribute_text)) as T2 by (change (written p2) with (written p1 ++ (a ≫= attribute_text)); by rewrite To).
    assert (_elementJustOpened p2 = true) as O2 by done.
    set (p3 := foldl (print_node true) p2 vs) in *. set (k := CompactMode (_compactMode p3)). destruct (CloseElement_spec k p3) as (Tc & Oc & Dc & Sc & Cc & Ec).
    set (br := if vs then [] else line_break (_depth p3 - 1) ((_textDepth p3 <? 0) && negb k)).
    destruct (Hall false br) as (u & Hu & Hp3); [done|unfold br; destruct vs; [constructor|apply line_break_blank]| |].
    { intros Ht. unfold br. destruct vs; [done|]. by rewrite (proj2 (Z.ltb_ge _ _) Ht). }
    assert (_depth p3 = _depth p + 1 ∧ _stack p3 = n :: _stack p ∧ _compactMode p3 = _compactMode p ∧ printer_entities p3 = printer_entities p) as (D3 & S3 & C3 & E3).
    { destruct vs; [destruct Hp3 as [-> _]; done|]. destruct Hp3 as [_ _ D3 S3 C3 E3]. rewrite D3, S3, C3, E3. done. }
    assert (∃ t, node_text (Element n a vs) t ∧ written p3 ++ end_tag k p3 = written p ++ seal p ++ ws ++ t) as (t & Ht & Tt).
    { destruct vs as [|v vs].
      - destruct Hp3 as [-> ->]. exists ([60] ++ n ++ (a ≫= attribute_text) ++ [47; 62]). split; [constructor|]. unfold end_tag. rewrite O2, T2. by repeat (rewrite <- app_assoc; cbn [app]).
      - exists ([60] ++ n ++ (a ≫= attribute_text) ++ [62] ++ (u ++ br) ++ [60; 47] ++ n ++ [62]). split; [by constructor|]. unfold end_tag. rewrite (wrote_opened _ _ _ Hp3), S3.
        rewrite (wrote_text _ _ _ Hp3). unfold seal at 1. rewrite O2, T2. cbn [default head]. by repeat (rewrite <- app_assoc; cbn [app]). }
    exists ws, t, (trailing k p3). split_and!; try done.
    + split; [rewrite Tc, app_assoc, Tt|done|rewrite Dc|rewrite Sc, S3|rewrite Cc|rewrite Ec]; try done; [|lia]. by repeat (rewrite <- app_assoc; cbn [app]).
    + apply trailing_blank.
    + intros [?|?]; [by apply Hws0|done].
    + intros [Hd'|?]; [|done]. unfold trailing. rewrite D3. by rewrite (proj2 (Z.eqb_neq _ _)) by lia.
Qed.
End print.
