(* ===== verification/TinySpans.v ===== *)
(** * TinySpans: strings at positions of a buffer

    While a document is parsed its buffer changes only where text has been consumed.  [same_but]
    says that two buffers agree outside a range, [spans] that strings lie in a range, one behind
    the other; both are about positions, so what is elsewhere does not matter. *)

From S2P Require Import Prelude TinyText TinyClean TinyXml TinyDocs.
#[local] Open Scope Z_scope.

Definition same_but (b b' : list Z) (lo hi : Z) : Prop := length b = length b' ∧ ∀ i : nat, Z.of_nat i < lo ∨ hi ≤ Z.of_nat i → b !! i = b' !! i.

Lemma same_but_refl b lo hi : same_but b b lo hi.
Proof. done. Qed.

Lemma same_but_weaken b b' lo hi lo' hi' : same_but b b' lo hi → lo' ≤ lo → hi ≤ hi' → same_but b b' lo' hi'.
Proof. intros [Hl Hb] Hlo Hhi. split; [done|]. intros i Hi. apply Hb. lia. Qed.

Lemma same_but_trans b b' b'' lo hi : same_but b b' lo hi → same_but b' b'' lo hi → same_but b b'' lo hi.
Proof. intros [Hl Hb] [Hl' Hb']. split; [congruence|]. intros i Hi. by rewrite Hb, Hb'. Qed.

Lemma same_but_app x w w' y : length w = length w' → same_but (x ++ w ++ y) (x ++ w' ++ y) (Z.of_nat (length x)) (Z.of_nat (length x) + Z.of_nat (length w)).
Proof.
  intros Hl. split; [rewrite !length_app; lia|]. intros i Hi. destruct (decide (i < length x)%nat); [by rewrite !lookup_app_l by done|].
  rewrite !(lookup_app_r x) by lia. rewrite !lookup_app_r by lia. by rewrite Hl.
Qed.

Lemma occupies_lookup b p s : occupies b p s ↔ 0 ≤ p ∧ p + Z.of_nat (length s) ≤ Z.of_nat (length b) ∧ ∀ i, (i < length s)%nat → b !! (Z.to_nat p + i)%nat = s !! i.
Proof.
  split.
  - intros (x & y & -> & ->). rewrite !length_app. split_and!; [lia..|]. intros i Hi. rewrite Nat2Z.id, lookup_app_r by lia. rewrite lookup_app_l by lia. f_equal. lia.
  - intros (Hp & Hl & Hb). exists (take (Z.to_nat p) b), (drop (length s) (drop (Z.to_nat p) b)). rewrite length_take. split; [|lia].
    rewrite <- (take_drop (Z.to_nat p) b) at 1. f_equal. rewrite <- (take_drop (length s) (drop (Z.to_nat p) b)) at 1. f_equal.
    apply list_eq_same_length with (length s); [done|rewrite length_take, length_drop; lia|]. intros i c c' Hi. rewrite lookup_take_lt, lookup_drop, Hb by done. congruence.
Qed.

Lemma occupies_same b b' lo hi p s : same_but b b' lo hi → p + Z.of_nat (length s) ≤ lo ∨ hi ≤ p → occupies b p s → occupies b' p s.
Proof.
  intros [Hl Hb] Hout. rewrite !occupies_lookup. intros (Hp & Hle & Hs). split_and!; [done|lia|]. intros i Hi. rewrite <- Hs, <- Hb by (done || lia). done.
Qed.

Section spans.
Context `{TinyxmlHOk}.

(** The pairs lie between [lo] and [hi]. *)
Inductive spans (b : list Z) : Z → Z → list StrPair → list (list Z) → Prop :=
  | spans_nil lo hi : lo ≤ hi → spans b lo hi [] []
  | spans_cons lo hi i w s t ss ts : lo ≤ i → occupies b i w → pair_at i w s t → spans b (i + Z.of_nat (length w)) hi ss ts → spans b lo hi (s :: ss) (t :: ts).

Lemma spans_le b lo hi ss ts : spans b lo hi ss ts → lo ≤ hi.
Proof. induction 1; lia. Qed.

Lemma spans_weaken b lo hi lo' hi' ss ts : spans b lo hi ss ts → lo' ≤ lo → hi ≤ hi' → spans b lo' hi' ss ts.
Proof.
  intros Hs. revert lo'. induction Hs as [lo hi Hle|lo hi i w s t ss ts Hi Ho Hp _ IH]; intros lo' Hlo Hhi; [constructor; lia|].
  econstructor; [|done|done|]; [lia|]. apply IH; lia.
Qed.

Lemma spans_app b lo mid hi ss ts ss' ts' : spans b lo mid ss ts → spans b mid hi ss' ts' → spans b lo hi (ss ++ ss') (ts ++ ts').
Proof. induction 1 as [lo mid Hle|lo mid i w s t ss ts Hi Ho Hp _ IH]; intros Hs'; [by eapply spans_weaken|]. cbn. econstructor; eauto. Qed.

Lemma spans_one b i w s t : occupies b i w → pair_at i w s t → spans b i (i + Z.of_nat (length w)) [s] [t].
Proof. intros. econstructor; [done..|]. by constructor. Qed.

Lemma spans_same b b' lo' hi' lo hi ss ts : same_but b b' lo' hi' → hi ≤ lo' ∨ hi' ≤ lo → spans b lo hi ss ts → spans b' lo hi ss ts.
Proof.
  intros Hb Hout Hs. induction Hs as [lo hi Hle|lo hi i w s t ss ts Hi Ho Hp Hs IH]; [by constructor|]. apply spans_le in Hs as Hle.
  econstructor; [done| |done|apply IH; lia]. eapply occupies_same; [done| |done]. lia.
Qed.

(** Strings in the whole buffer. *)
Lemma spans_cells b lo hi ss ts : 0 ≤ lo → spans b lo hi ss ts → cells lo (drop (Z.to_nat lo) b) ss ts.
Proof.
  intros H0' Hs. induction Hs as [lo hi Hle|lo hi i w s t ss ts Hi Ho Hp Hs IH]; [constructor|]. pose proof (occupies_length _ _ _ Ho) as Hl.
  set (g := take (Z.to_nat i - Z.to_nat lo) (drop (Z.to_nat lo) b)). assert (length g = Z.to_nat i - Z.to_nat lo)%nat as Hg by (unfold g; rewrite length_take, length_drop; lia).
  assert (drop (Z.to_nat lo) b = g ++ w ++ drop (Z.to_nat (i + Z.of_nat (length w))) b) as ->.
  { unfold g. rewrite <- (take_drop (Z.to_nat i - Z.to_nat lo) (drop (Z.to_nat lo) b)) at 1. f_equal. rewrite drop_drop.
    replace (Z.to_nat lo + (Z.to_nat i - Z.to_nat lo))%nat with (Z.to_nat i) by lia. destruct Ho as (x & y & -> & ->). rewrite Nat2Z.id, drop_app_length.
    f_equal. by rewrite <- Nat2Z.inj_add, Nat2Z.id, <- length_app, app_assoc, drop_app_length. }
  constructor; rewrite Hg; replace (lo + Z.of_nat (Z.to_nat i - Z.to_nat lo)) with i by lia; [done|]. apply IH. lia.
Qed.

(** Reading a string leaves the buffer outside it as it is. *)
Lemma get_str_span d i w s t : occupies (_charBuffer d) i w → pair_at i w s t → ∃ b w' s', get_str s d = Ok (s', t, set_buffer b d) ∧
  occupies b i w' ∧ length w' = length w ∧ pair_at i w' s' t ∧ same_but (_charBuffer d) b i (i + Z.of_nat (length w)).
Proof.
  intros (x & y & Hb & ->) Hp. destruct (pair_at_get x w y s t Hp) as (w' & s' & E & Hl & Hp'). exists (x ++ w' ++ y), w', s'. unfold get_str. rewrite Hb, E, ok_bind.
  split_and!; try done; [by exists x, y|]. by apply same_but_app.
Qed.
End spans.
