(* ===== verification/TinyParse.v ===== *)
(** * TinyParse: what the parser of tinyxml2.cpp makes of a text

    The steps of the parser on the text at a position: white space, names, texts up to an end
    tag, attributes.  Each returns pairs that lie in the text it has consumed. *)

From S2P Require Import Prelude TinyText TinyClean TinyXml TinyDocs TinyPrint TinySpans.
#[local] Open Scope Z_scope.

(** A document with another buffer and another line. *)
Definition at_ (b : list Z) (l : Z) (d : XMLDocument) : XMLDocument := set_line l (set_buffer b d).

Definition ready (d : XMLDocument) : Prop := _errorID d = XML_SUCCESS ∧ _processEntities d = true ∧ _collapseWhitespace d = false.

Lemma run_bind {A B} (m : method A) (f : A → method B) d a d' : m d = Ok (a, d') → (m ≫= f) d = f a d'.
Proof. intros E. unfold mbind, method_bind. by rewrite E, ok_bind. Qed.

(** The next call of a program, which [E] says what it returns. *)
Ltac run E := erewrite run_bind; [|exact E]; cbv beta iota.

Section steps.
Context `{TinyxmlHOk}.

Lemma special_not_name c : c ∈ special → IsNameChar c = false.
Proof. intros Hc. destruct (IsNameChar c) eqn:E; [|done]. by apply name_char in E. Qed.
Lemma special_not_start c : c ∈ special → IsNameStartChar c = false.
Proof. intros Hc. destruct (IsNameStartChar c) eqn:E; [|done]. by apply name_start_char, name_char in E. Qed.
Lemma name_not_blank c : IsNameChar c = true → IsWhiteSpace c = false.
Proof. intros Hc%name_char. rewrite white_space. apply bool_decide_eq_false_2. unfold special in Hc. set_solver. Qed.
Lemma name_not c k : IsNameChar c = true → k ∈ special → c ≠ k.
Proof. intros Hc%name_char Hk ->. done. Qed.

Lemma char_at_spec b p c s l d : occupies b p (c :: s) → char_at p (at_ b l d) = Ok (c, at_ b l d).
Proof. intros Hs. unfold char_at, lift. cbn. by rewrite (occupies_load _ _ _ _ Hs). Qed.

Definition white (s : list Z) : Prop := Forall (λ c, IsWhiteSpace c = true) s.

Lemma blank_white ws : blank_space ws → white ws.
Proof. intros Hws. eapply Forall_impl; [exact Hws|]. intros c Hc. rewrite white_space. apply bool_decide_eq_true_2. cbn in Hc. set_solver. Qed.

Lemma skip_blank_space ws c s : white ws → IsWhiteSpace c = false → blanks (ws ++ c :: s) = ws ∧ skip_blank (ws ++ c :: s) = c :: s.
Proof. intros Hws Hc. induction Hws as [|w ws Hw _ [IH1 IH2]]; cbn; [by rewrite Hc|]. by rewrite Hw, IH1, IH2. Qed.

Lemma skip_white_spec b p ws c s l d : occupies b p (ws ++ c :: s) → white ws → IsWhiteSpace c = false →
  ∃ l', skip_white p (at_ b l d) = Ok (p + Z.of_nat (length ws), at_ b l' d).
Proof.
  intros Hs Hws Hc. destruct (occupies_drop _ _ _ Hs) as [y Hy]. rewrite <- app_assoc in Hy. cbn [app] in Hy. destruct (skip_blank_space ws c (s ++ y) Hws Hc) as [Eb Es].
  unfold skip_white. cbn [_charBuffer at_ set_line set_buffer]. rewrite skip_white_space, Hy, Eb by (rewrite ?Hy, ?Es; done || by eapply occupies_nonneg). by eexists.
Qed.

Lemma skip_none b p c s l d : occupies b p (c :: s) → IsWhiteSpace c = false → ∃ l', skip_white p (at_ b l d) = Ok (p, at_ b l' d).
Proof. intros Hs Hc. destruct (skip_white_spec b p [] c s l d Hs) as [l' E]; [constructor|done|]. exists l'. by rewrite E, Z.add_0_r. Qed.

Lemma starts_with_spec b p s lit l d : occupies b p (s ++ [0]) → 0 ∉ lit → starts_with p lit (at_ b l d) = Ok (bool_decide (lit `prefix_of` s), at_ b l d).
Proof. intros Hs Hl. unfold starts_with, lift. cbn. by rewrite string_equal_n, (strneq_spec _ _ _ _ Hs Hl). Qed.

(** A tag that is no longer than what comes first is a prefix of it already. *)
Lemma prefix_short {A} (a x y : list A) : (length a ≤ length x)%nat → a `prefix_of` x ++ y → a `prefix_of` x.
Proof. intros Hl [k E]. exists (take (length x - length a) k). apply (f_equal (take (length x))) in E. by rewrite take_app_length, take_app_ge in E by done. Qed.

Lemma text_loop_spec b start flags tag s : 0 ∉ tag → tag ≠ [] → ∀ raw p line fuel, occupies b p (raw ++ tag ++ s ++ [0]) → 0 ∉ raw → free tag raw = true → (length raw < fuel)%nat →
  ∃ line', text_loop fuel b start p tag flags line = Ok (Some (p + Z.of_nat (length raw) + Z.of_nat (length tag)), Set_ start (p + Z.of_nat (length raw)) flags, line').
Proof.
  intros Ht Hne. induction raw as [|c raw IH]; intros p line [|fuel] Hs Hr Hf Hl; cbn [length] in Hl; try lia; cbn [text_loop].
  - destruct tag as [|c tag]; [done|]. cbn [app] in Hs. rewrite (occupies_load _ _ _ _ Hs), ok_bind. rewrite (proj2 (Z.eqb_neq c 0)) by set_solver. cbn [head].
    rewrite bool_decide_eq_true_2 by done. rewrite (strneq_spec _ _ _ ((c :: tag) ++ s)) by (rewrite <- ?app_assoc; done). rewrite !ok_bind, bool_decide_eq_true_2 by by apply prefix_app_r.
    exists line. cbn [length]. by rewrite Z.add_0_r.
  - cbn [app] in Hs. rewrite (occupies_load _ _ _ _ Hs), ok_bind. apply not_elem_of_cons in Hr as [Hc Hr]. rewrite (proj2 (Z.eqb_neq c 0)) by done.
    cbn [free] in Hf. apply andb_true_iff in Hf as [Hf1 Hf]. apply negb_true_iff, bool_decide_eq_false_1 in Hf1.
    assert ((if bool_decide (head tag = Some c) then strneq b p tag else Ok false) = Ok false) as ->.
    { case_bool_decide; [|done]. rewrite (strneq_spec _ _ _ ((c :: raw) ++ tag ++ s)) by (rewrite <- ?app_assoc; done). f_equal. apply bool_decide_eq_false_2. intros Hp. apply Hf1.
      rewrite app_assoc in Hp. apply prefix_short in Hp; [done|]. rewrite length_app. lia. }
    rewrite ok_bind. destruct (IH (p + 1) (if c =? LF then line + 1 else line) fuel (occupies_tail _ _ _ _ Hs) Hr Hf) as [line' E]; [lia|]. exists line'. rewrite E.
    by replace (p + 1 + Z.of_nat (length raw)) with (p + Z.of_nat (length (c :: raw))) by (cbn [length]; lia).
Qed.

Lemma parse_text_spec b p raw tag flags s l d : occupies b p (raw ++ tag ++ s ++ [0]) → 0 ∉ raw → 0 ∉ tag → tag ≠ [] → free tag raw = true →
  ∃ l', parse_text p tag flags (at_ b l d) = Ok ((Some (p + Z.of_nat (length raw) + Z.of_nat (length tag)), Set_ p (p + Z.of_nat (length raw)) flags), at_ b l' d).
Proof.
  intros Hs Hr Ht Hne Hf. pose proof (occupies_length _ _ _ Hs) as Hl. pose proof (occupies_nonneg _ _ _ Hs) as Hp. rewrite length_app in Hl. destruct (text_loop_spec b p flags tag s Ht Hne raw p l (S (length b)) Hs Hr Hf) as [l' E]; [lia|].
  exists l'. unfold parse_text, ParseText. cbn [_charBuffer at_ set_line set_buffer _parseCurLineNum]. by rewrite E.
Qed.

Lemma name_loop_spec b : ∀ n p fuel c s, occupies b p (n ++ c :: s) → Forall (λ c, IsNameChar c = true) n → IsNameChar c = false → (length n < fuel)%nat →
  name_loop fuel b p = Ok (p + Z.of_nat (length n)).
Proof.
  induction n as [|x n IH]; intros p [|fuel] c s Hs Hn Hc Hf; cbn [length] in Hf; try lia; cbn [name_loop app] in *; rewrite (occupies_load _ _ _ _ Hs), ok_bind.
  - rewrite Hc, andb_false_r. cbn. by rewrite Z.add_0_r.
  - apply Forall_cons in Hn as [Hx Hn]. rewrite Hx, (proj2 (Z.eqb_neq x 0)) by (apply (name_not _ _ Hx); set_solver). cbn [negb andb].
    rewrite (IH (p + 1) fuel c s (occupies_tail _ _ _ _ Hs)) by (done || lia). f_equal. cbn [length]. lia.
Qed.

Lemma valid_name_chars n : valid_name n = true → ∃ c n', n = c :: n' ∧ IsNameStartChar c = true ∧ Forall (λ c, IsNameChar c = true) n.
Proof. destruct n as [|c n]; [done|]. intros [Hc Hn]%andb_true_iff. exists c, n. split_and!; [done..|]. apply List.Forall_forall. by apply forallb_forall. Qed.

Lemma valid_name_nul n : valid_name n = true → 0 ∉ n.
Proof. intros (c & n' & -> & _ & Hn)%valid_name_chars Hin. eapply Forall_forall in Hn; [|done]. by apply (name_not 0 0 Hn); [set_solver|]. Qed.

Lemma parse_name_spec b p n c s l d : occupies b p (n ++ c :: s) → valid_name n = true → IsNameChar c = false →
  parse_name (Some p) (at_ b l d) = Ok ((Some (p + Z.of_nat (length n)), Set_ p (p + Z.of_nat (length n)) 0), at_ b l d).
Proof.
  intros Hs (x & n' & -> & Hx & Hn)%valid_name_chars Hc. pose proof (occupies_length _ _ _ Hs) as Hl. pose proof (occupies_nonneg _ _ _ Hs) as Hp.
  apply Forall_cons in Hn as [Hx' Hn]. unfold parse_name, lift, ParseName. cbn [_charBuffer at_ set_line set_buffer]. cbn [app] in Hs. rewrite (occupies_load _ _ _ _ Hs), ok_bind.
  rewrite (proj2 (Z.eqb_neq x 0)) by (apply (name_not _ _ Hx'); set_solver). rewrite Hx. cbn [negb orb]. rewrite (name_loop_spec _ n' _ _ c s) by (first [done|by apply occupies_tail in Hs|cbn [length app] in *; rewrite length_app in Hl; lia]).
  rewrite ok_bind. by replace (p + 1 + Z.of_nat (length n')) with (p + Z.of_nat (length (x :: n'))) by (cbn [length]; lia).
Qed.

(** The pairs that parsing makes, and the strings they stand for: the text of the pair and the
    character behind it. *)
Definition stands (b : list Z) (i : Z) (w : list Z) (s : StrPair) (t : list Z) : Prop := occupies b i w ∧ pair_at i w s t.

Lemma made_pair b p raw c u flags nl en ws s : mode flags nl en ws → text_value nl en ws raw = s → 0 ∉ raw → occupies b p (raw ++ c :: u) →
  stands b p (raw ++ [c]) (Set_ p (p + Z.of_nat (length raw)) flags) s.
Proof.
  intros Hm <- H0' Hs. split; [rewrite cons_middle, app_assoc in Hs; by apply occupies_app in Hs as [Hs _]|]. by apply (pair_unread p flags nl en ws raw c).
Qed.

Lemma clean_iff s : clean s = true ↔ 0 ∉ s ∧ 13 ∉ s.
Proof. unfold clean. by rewrite andb_true_iff, !bool_decide_eq_true. Qed.

Lemma name_pair b p n c u : valid_name n = true → occupies b p (n ++ c :: u) → stands b p (n ++ [c]) (Set_ p (p + Z.of_nat (length n)) 0) n.
Proof. intros Hn%valid_name_nul. eapply made_pair; [exact (mode_of false false false)|by apply text_value_name|done]. Qed.

Lemma plain_pair b p s c u : clean s = true → occupies b p (s ++ c :: u) → stands b p (s ++ [c]) (Set_ p (p + Z.of_nat (length s)) NEEDS_NEWLINE_NORMALIZATION) s.
Proof. intros [? ?]%clean_iff. eapply made_pair; [exact (mode_of true false false)|by apply text_value_plain|done]. Qed.

Lemma escaped_pair r b p s c u flags : flags = Z.lor NEEDS_ENTITY_PROCESSING NEEDS_NEWLINE_NORMALIZATION → clean s = true → occupies b p (escape r s ++ c :: u) →
  stands b p (escape r s ++ [c]) (Set_ p (p + Z.of_nat (length (escape r s))) flags) s.
Proof.
  intros -> [? ?]%clean_iff. eapply made_pair; [exact (mode_of true true false)|by apply text_value_escape|]. apply escape_without; [set_solver|done].
Qed.

(** ** Attributes *)
Lemma free_char k s : k ∉ s → free [k] s = true.
Proof.
  induction s as [|c s IH]; [done|]. intros [Hc Hs]%not_elem_of_cons. cbn [free]. rewrite IH, andb_true_r by done. apply negb_true_iff, bool_decide_eq_false_2.
  by intros ?%prefix_cons_inv_1.
Qed.

Lemma attribute_parse_spec b p n v s l d : ready d → valid_name n = true → clean v = true → occupies b p (n ++ [61; 34] ++ escape false v ++ [34] ++ s ++ [0]) →
  ∃ l', attribute_parse p (at_ b l d) = Ok ((Some (p + Z.of_nat (length n) + 2 + Z.of_nat (length (escape false v)) + 1),
    mk_attribute (Set_ p (p + Z.of_nat (length n)) 0) (Set_ (p + Z.of_nat (length n) + 2) (p + Z.of_nat (length n) + 2 + Z.of_nat (length (escape false v))) ATTRIBUTE_VALUE)), at_ b l' d).
Proof.
  intros (He & Hp & Hc) Hn [Hv0 Hv13]%clean_iff Hs. unfold attribute_parse. set (q := p + Z.of_nat (length n)).
  run (parse_name_spec b p n 61 _ l d Hs Hn (special_not_name 61 ltac:(set_solver))). apply occupies_app in Hs as [_ Hs]. fold q in Hs |- *. cbn [app] in Hs.
  run (char_at_spec b q 61 _ l d Hs). cbn [Z.eqb]. destruct (skip_none b q 61 _ l d Hs) as [l1 E1]; [by rewrite white_space|]. run E1. run (char_at_spec b q 61 _ l1 d Hs). cbn [Z.eqb Pos.eqb negb].
  apply occupies_tail in Hs. destruct (skip_none b (q + 1) 34 _ l1 d Hs) as [l2 E2]; [by rewrite white_space|]. run E2. run (char_at_spec b (q + 1) 34 _ l2 d Hs). cbn [Z.eqb Pos.eqb negb andb].
  apply occupies_tail in Hs. replace (q + 1 + 1) with (q + 2) in Hs |- * by lia. erewrite run_bind; [|reflexivity]. cbn [at_ set_line set_buffer _processEntities]. rewrite Hp.
  destruct (parse_text_spec b (q + 2) (escape false v) [34] ATTRIBUTE_VALUE s l2 d Hs) as [l3 E3]; [apply escape_without; [set_solver|done]|set_solver|done| |].
  { apply free_char, escape_without; [set_solver|intros; cbn; set_solver]. }
  exists l3. change (mk_document _ _ _ _ _ _ _ _) with (at_ b l2 d). run E3. done.
Qed.

(** Reading one of the strings of a range. *)
Lemma get_str_read b i w s t l d : stands b i w s t →
  ∃ b' w' s', get_str s (at_ b l d) = Ok ((s', t), at_ b' l d) ∧ stands b' i w' s' t ∧ length w' = length w ∧ same_but b b' i (i + Z.of_nat (length w)).
Proof.
  intros [Ho Hp]. destruct (get_str_span (at_ b l d) i w s t Ho Hp) as (b' & w' & s' & E & Ho' & Hl & Hp' & Hb). by exists b', w', s'.
Qed.

Lemma spans_stands b lo hi s t ss ts : spans b lo hi (s :: ss) (t :: ts) → ∃ i w, lo ≤ i ∧ stands b i w s t ∧ spans b (i + Z.of_nat (length w)) hi ss ts.
Proof. intros Hs. inversion Hs as [|? ? i w]; subst. by exists i, w. Qed.

Lemma stands_spans b lo hi i w s t ss ts : lo ≤ i → stands b i w s t → spans b (i + Z.of_nat (length w)) hi ss ts → spans b lo hi (s :: ss) (t :: ts).
Proof. intros Hi [Ho Hp] Hs. by econstructor. Qed.

(** Looking for an attribute that is not there reads the names. *)
Lemma Attribute_spec name l d : ∀ attrs a b lo hi, spans b lo hi (attr_pairs attrs) (attr_strings a) → length attrs = length a → name ∉ a.*1 →
  ∃ b' attrs', Attribute attrs name (at_ b l d) = Ok ((attrs', false), at_ b' l d) ∧ spans b' lo hi (attr_pairs attrs') (attr_strings a) ∧
    length attrs' = length attrs ∧ same_but b b' lo hi.
Proof.
  induction attrs as [|x attrs IH]; intros [|[n v] a] b lo hi Hs Hl Hn; try done; [by exists b, []|]. injection Hl as Hl. cbn [fmap list_fmap fst] in Hn. apply not_elem_of_cons in Hn as [Hne Hn].
  change (attr_pairs (x :: attrs)) with (attr_name x :: attr_value x :: attr_pairs attrs) in Hs. change (attr_strings ((n, v) :: a)) with (n :: v :: attr_strings a) in Hs |- *.
  apply spans_stands in Hs as (i & w & Hi & Hw & Hs). pose proof (spans_le _ _ _ _ _ Hs) as Hle1. apply spans_stands in Hs as (j & u & Hj & [Hu Hup] & Hs). pose proof (spans_le _ _ _ _ _ Hs) as Hle2.
  destruct (get_str_read b i w (attr_name x) n l d Hw) as (b1 & w1 & s1 & E1 & Hw1 & Hl1 & Hb1). cbn [Attribute]. run E1. rewrite string_equal, bool_decide_eq_false_2 by done.
  destruct (IH a b1 (j + Z.of_nat (length u)) hi) as (b2 & attrs' & E2 & Hs2 & Hl2 & Hb2); [eapply spans_same; [done| |done]; lia|done|done|]. run E2.
  eexists b2, _. split; [reflexivity|]. cbn [attr_pairs flat_map attr_name attr_value app]. split; [|split].
  - eapply (stands_spans _ _ _ i w1); [done| |rewrite Hl1; eapply (stands_spans _ _ _ j u); [done| |done]].
    + destruct Hw1. split; [|done]. eapply occupies_same; [done| |done]. lia.
    + split; [|done]. eapply occupies_same; [done| |eapply occupies_same; [done| |done]]; lia.
  - cbn. by rewrite Hl2.
  - eapply same_but_trans; (eapply same_but_weaken; [done|lia|lia]).
Qed.

Lemma stands_same b b' lo hi i w s t : same_but b b' lo hi → i + Z.of_nat (length w) ≤ lo ∨ hi ≤ i → stands b i w s t → stands b' i w s t.
Proof. intros Hb Hout [Ho Hp]. split; [by eapply occupies_same|done]. Qed.

(** The end of a start tag: [>] or [/>]. *)
Lemma attributes_end fuel b p line name closing attrs closed s l d : occupies b p ((if closed : bool then [47; 62] else [62]) ++ s ++ [0]) →
  ∃ l', attributes_loop (S fuel) p line name closing attrs (at_ b l d) = Ok ((Some (p + if closed then 2 else 1), name, if closed then CLOSED else closing, attrs), at_ b l' d).
Proof.
  intros Hs. cbn [attributes_loop]. destruct closed; cbn [app] in Hs.
  - destruct (skip_none b p 47 _ l d Hs) as [l1 E]; [by rewrite white_space|]. exists l1. run E. run (char_at_spec b p 47 _ l1 d Hs). rewrite (special_not_start 47) by set_solver. cbn [Z.eqb Pos.eqb].
    apply occupies_tail in Hs. run (char_at_spec b (p + 1) 62 _ l1 d Hs). done.
  - destruct (skip_none b p 62 _ l d Hs) as [l1 E]; [by rewrite white_space|]. exists l1. run E. run (char_at_spec b p 62 _ l1 d Hs). rewrite (special_not_start 62) by set_solver. done.
Qed.

(** One attribute: its name is read, and is not that of another. *)
Lemma attribute_step n v u fuel b p l d attrs pre k hi line name closing : ready d → valid_name n = true → clean v = true → occupies b p (attribute_text (n, v) ++ u ++ [0]) →
  spans b k hi (attr_pairs attrs) (attr_strings pre) → length attrs = length pre → n ∉ pre.*1 → hi ≤ p + 1 → let p2 := p + Z.of_nat (length (attribute_text (n, v))) in
  ∃ b2 l2 attrs2, attributes_loop (S fuel) p line name closing attrs (at_ b l d) = attributes_loop fuel p2 line name closing attrs2 (at_ b2 l2 d) ∧ occupies b2 p2 (u ++ [0]) ∧
    same_but b b2 k p2 ∧ spans b2 k p2 (attr_pairs attrs2) (attr_strings (pre ++ [(n, v)])) ∧ length attrs2 = length (pre ++ [(n, v)]).
Proof.
  intros Hd Hn Hv Hs Hsp Hl Hnew Hhi p2. set (ev := escape false v). assert (occupies b p ([32] ++ n ++ [61; 34] ++ ev ++ [34] ++ u ++ [0])) as Hs' by (unfold attribute_text in Hs; cbn [fst snd] in Hs; rewrite <- !app_assoc in Hs; exact Hs). clear Hs.
  destruct (valid_name_chars n Hn) as (x & n' & En & Hx & _). pose proof (name_start_char x Hx) as Hxn. cbn [attributes_loop].
  rewrite En in Hs'. cbn [app] in Hs'. destruct (skip_white_spec b p [32] x _ l d Hs') as [l1 E1]; [apply blank_white; constructor; [set_solver|constructor]|by apply name_not_blank|].
  run E1. change (Z.of_nat (length [32])) with 1. apply occupies_tail in Hs'. run (char_at_spec b (p + 1) x _ l1 d Hs'). rewrite (proj2 (Z.eqb_neq x 0)) by (apply (name_not x 0 Hxn); set_solver). rewrite Hx.
  erewrite run_bind; [|reflexivity]; cbv beta iota. change (x :: n' ++ 61 :: 34 :: ev ++ 34 :: u ++ [0]) with ((x :: n') ++ [61; 34] ++ ev ++ [34] ++ u ++ [0]) in Hs'. rewrite <- En in Hs'.
  set (q := p + 1) in *. destruct (attribute_parse_spec b q n v u l1 d Hd Hn Hv Hs') as [l2 E2]. fold ev in E2. run E2. cbv zeta. cbn [attr_name attr_value].
  pose proof (name_pair b q n 61 _ Hn Hs') as Hname. destruct (get_str_read _ _ _ _ _ l2 d Hname) as (b1 & w1 & s1 & E3 & Hw1 & Hl1 & Hb1). run E3.
  rewrite length_app in Hb1, Hl1. cbn [length] in Hb1, Hl1. pose proof (spans_le _ _ _ _ _ Hsp) as Hle. apply (spans_same _ b1 _ _ _ _ _ _ Hb1) in Hsp; [|lia].
  destruct (Attribute_spec n l2 d attrs pre b1 k hi Hsp Hl Hnew) as (b2 & attrs2 & E4 & Hsp2 & Hl2 & Hb2). run E4.
  set (r := q + Z.of_nat (length n)) in *. assert (p2 = r + 2 + Z.of_nat (length ev) + 1) as Ep2 by (unfold p2, r, q, attribute_text; cbn [fst snd]; repeat (rewrite length_app || cbn [length]); fold ev; lia). rewrite <- Ep2.
  assert (same_but b b1 q (r + 1)) as Hb1' by (eapply same_but_weaken; [exact Hb1|lia|unfold r; lia]).
  assert (occupies b (r + 2) (ev ++ [34] ++ u ++ [0])) as Hs2 by (apply occupies_app in Hs' as [_ Hs']; by apply (occupies_app b r [61; 34]) in Hs' as [_ Hs']).
  pose proof (escaped_pair false b (r + 2) v 34 (u ++ [0]) ATTRIBUTE_VALUE attribute_mode Hv Hs2) as Hvalue. fold ev in Hvalue.
  assert (occupies b p2 (u ++ [0])) as Hs3 by (rewrite Ep2; apply occupies_app in Hs2 as [_ Hs2]; by apply (occupies_app b _ [34]) in Hs2 as [_ Hs2]).
  assert (∀ i w s t, i + Z.of_nat (length w) ≤ q ∨ r + 1 ≤ i → i + Z.of_nat (length w) ≤ k ∨ hi ≤ i → stands b i w s t → stands b2 i w s t) as Hmove
    by (intros; eapply stands_same; [exact Hb2|done|]; eapply stands_same; [exact Hb1'|done|done]).
  exists b2, l2, (attrs2 ++ [mk_attribute s1 (Set_ (r + 2) (r + 2 + Z.of_nat (length ev)) ATTRIBUTE_VALUE)]). split; [done|]. split; [eapply occupies_same; [exact Hb2|lia|]; eapply occupies_same; [exact Hb1|lia|done]|].
  split; [eapply same_but_trans; [eapply same_but_weaken; [exact Hb1|lia|lia]|eapply same_but_weaken; [exact Hb2|lia|lia]]|]. split; [|rewrite !length_app, Hl2, Hl; done].
  unfold attr_pairs, attr_strings. rewrite !flat_map_app. eapply spans_app; [done|]. cbn [flat_map attr_name attr_value app].
  eapply (stands_spans _ _ _ q w1); [lia|by eapply stands_same; [exact Hb2|lia|]|]. eapply (stands_spans _ _ _ (r + 2) (ev ++ [34])); [rewrite Hl1; lia|apply Hmove; [lia|lia|done]|]. constructor. rewrite length_app. cbn [length]. lia.
Qed.

Lemma attributes_loop_spec line name closing closed s d : ∀ a fuel b p l attrs pre k hi, (a ≠ [] → ready d) →
  occupies b p ((a ≫= attribute_text) ++ (if closed : bool then [47; 62] else [62]) ++ s ++ [0]) → forallb valid_attribute a = true → NoDup (pre ++ a).*1 →
  spans b k hi (attr_pairs attrs) (attr_strings pre) → length attrs = length pre → hi ≤ p + 1 → (length a < fuel)%nat →
  let p' := p + Z.of_nat (length (a ≫= attribute_text)) + if closed then 2 else 1 in
  ∃ b' l' attrs', attributes_loop fuel p line name closing attrs (at_ b l d) = Ok ((Some p', name, if closed then CLOSED else closing, attrs'), at_ b' l' d) ∧
    same_but b b' k p' ∧ spans b' k p' (attr_pairs attrs') (attr_strings (pre ++ a)) ∧ length attrs' = length (pre ++ a).
Proof.
  induction a as [|[n v] a IH]; intros [|fuel] b p l attrs pre k hi Hd Hs Ha Hnd Hsp Hl Hhi Hf; cbv zeta; cbn [length] in Hf; try lia.
  - rewrite app_nil_r. destruct (attributes_end fuel b p line name closing attrs closed s l d Hs) as [l' E]. exists b, l', attrs. change (length ([] ≫= attribute_text)) with 0%nat. rewrite Z.add_0_r. split_and!; try done.
    eapply spans_weaken; [done|lia|destruct closed; lia].
  - cbv zeta in IH. specialize (Hd ltac:(done)). change (((n, v) :: a) ≫= attribute_text) with (attribute_text (n, v) ++ (a ≫= attribute_text)) in *.
    cbn [forallb] in Ha. apply andb_true_iff in Ha as [[Hn Hv]%andb_true_iff Ha]. cbn [fst snd] in Hn, Hv. pose proof Hnd as Hnd'. rewrite fmap_app, NoDup_app in Hnd. destruct Hnd as (_ & Hnew & _).
    assert (n ∉ pre.*1) as Hn' by (intros Hin; apply (Hnew _ Hin); by left).
    destruct (attribute_step n v ((a ≫= attribute_text) ++ (if closed then [47; 62] else [62]) ++ s) fuel b p l d attrs pre k hi line name closing Hd Hn Hv) as (b2 & l2 & attrs2 & E & Hs2 & Hb2 & Hsp2 & Hl2); try done; [by rewrite <- !app_assoc in *|].
    set (p2 := p + Z.of_nat (length (attribute_text (n, v)))) in *.
    destruct (IH fuel b2 p2 l2 attrs2 (pre ++ [(n, v)]) k p2) as (b3 & l3 & attrs3 & E5 & Hb3 & Hsp3 & Hl3); try done; [by rewrite <- !app_assoc in Hs2|by rewrite <- app_assoc|lia|lia|].
    rewrite <- app_assoc in Hsp3, Hl3. rewrite length_app, Nat2Z.inj_add, Z.add_assoc. fold p2. exists b3, l3, attrs3. rewrite E. split_and!; try done.
    eapply same_but_trans; [eapply same_but_weaken; [exact Hb2|lia|]|exact Hb3]. destruct closed; lia.
Qed.
End steps.
