(* ===== verification/TinyRoundtrip.v ===== *)
(** * TinyRoundtrip: a printed document is read back

    The parser on the texts of the grammar of TinyPrint: a node, siblings, an end tag.  Every
    printed document, compact or not, is parsed into a document of the same value. *)

From S2P Require Import Prelude TinyText TinyClean TinyXml TinyDocs TinyPrint TinySpans TinyParse.
#[local] Open Scope Z_scope.

(** Concatenations in a hypothesis and in the goal, as one flat list. *)
Ltac flat H := repeat (rewrite <- app_assoc in H || cbn [app] in H); repeat (rewrite <- app_assoc || cbn [app]); try exact H.

(** [XMLNode::ParseDeep] of a node inside the loop of its parent. *)
Definition deep `{TinyxmlH} (fuel : nat) (p : Z) : method (option Z * StrPair * list XMLNode) :=
  _ ← PushDepth;
  err ← asks Error;
  if err : bool then _ ← PopDepth; mret (None, StrPair_new, []) else
  r ← children_loop fuel false [] (Some p);
  _ ← PopDepth;
  mret r.

Section roundtrip.
Context `{TinyxmlHOk}.

Definition is_closing (n : XMLNode) : bool := match n with XMLElement _ _ CLOSING _ _ => true | _ => false end.

(** One node is read and added to its siblings. *)
Lemma children_loop_step fuel doc siblings p d c d1 p1 node0 d2 p2 node endTag d3 node' d4 :
  char_at p d = Ok (c, d1) → c ≠ 0 → Identify p d1 = Ok ((p1, Some node0), d2) →
  node_parse (deep fuel) node0 p1 d2 = Ok ((Some p2, node, endTag), d3) → is_declaration node && negb (well_located doc siblings) = false → is_closing node = false →
  mismatched node endTag d3 = Ok ((node', false), d4) →
  children_loop (S fuel) doc siblings (Some p) d = children_loop fuel doc (siblings ++ [node']) (Some p2) d4.
Proof.
  intros E1 Hc E2 E3 Hdecl Hcl E4. cbn [children_loop]. run E1. rewrite (proj2 (Z.eqb_neq c 0)) by done. run E2. run E3. rewrite Hdecl.
  destruct node as [| | | |? ? [] ? ?]; try done; run E4; done.
Qed.

(** An end tag is handed to the parent. *)
Lemma children_loop_closing fuel siblings p d c d1 p1 node0 d2 p2 line name attrs children endTag d3 :
  char_at p d = Ok (c, d1) → c ≠ 0 → Identify p d1 = Ok ((p1, Some node0), d2) →
  node_parse (deep fuel) node0 p1 d2 = Ok ((Some p2, XMLElement line name CLOSING attrs children, endTag), d3) →
  children_loop (S fuel) false siblings (Some p) d = Ok ((Some p2, name, siblings), d3).
Proof.
  intros E1 Hc E2 E3. cbn [children_loop]. run E1. rewrite (proj2 (Z.eqb_neq c 0)) by done. run E2. run E3. done.
Qed.

(** ** What [Identify] makes of a text *)
Lemma prefix_second (a c : Z) s lit : a ≠ c → bool_decide (60 :: a :: lit `prefix_of` 60 :: c :: s) = false.
Proof. intros Hne. apply bool_decide_eq_false_2. intros Hp%prefix_cons_inv_2%prefix_cons_inv_1. done. Qed.

Lemma prefix_before (lit s : list Z) k u : k ∉ lit → lit `prefix_of` s ++ k :: u → lit `prefix_of` s.
Proof.
  revert s. induction lit as [|c lit IH]; intros [|x s] Hk Hp; [apply prefix_nil..| |].
  - apply prefix_cons_inv_1 in Hp. set_solver.
  - apply prefix_cons_inv_1 in Hp as Hx. subst x. apply prefix_cons, IH; [set_solver|]. by apply prefix_cons_inv_2 in Hp.
Qed.

Definition opening_of (v : xml) : list Z :=
  match v with Text _ true => cdataHeader | Text _ false => [] | Comment _ => commentHeader | Declaration _ => xmlHeader | Unknown _ => dtdHeader | Element _ _ _ => elementHeader end.
Definition node_of (v : xml) (line : Z) : XMLNode :=
  match v with
  | Text _ c => XMLText line StrPair_new c | Comment _ => XMLComment line StrPair_new | Declaration _ => XMLDeclaration line StrPair_new
  | Unknown _ => XMLUnknown line StrPair_new | Element _ _ _ => XMLElement line StrPair_new OPEN [] []
  end.

(** [s] tells none of the constructs apart from the kind of [v]. *)
Definition opens (v : xml) (s : list Z) : Prop :=
  bool_decide (xmlHeader `prefix_of` s) = match v with Declaration _ => true | _ => false end ∧
  bool_decide (commentHeader `prefix_of` s) = match v with Comment _ => true | _ => false end ∧
  bool_decide (cdataHeader `prefix_of` s) = match v with Text _ true => true | _ => false end ∧
  (bool_decide (dtdHeader `prefix_of` s) = match v with Element _ _ _ => false | _ => true end ∨ match v with Declaration _ => true | _ => false end = true).

Lemma Identify_markup v b p ws s l d : plain v = false → occupies b p (ws ++ (60 :: s) ++ [0]) → blank_space ws → opens v (60 :: s) →
  ∃ l' line, Identify p (at_ b l d) = Ok ((p + Z.of_nat (length ws) + Z.of_nat (length (opening_of v)), Some (node_of v line)), at_ b l' d).
Proof.
  intros Hv Hs Hws (O1 & O2 & O3 & O4). unfold Identify. erewrite run_bind; [|reflexivity]. cbv beta iota.
  destruct (skip_white_spec b p ws 60 (s ++ [0]) l d Hs (blank_white _ Hws)) as [l1 E1]; [by rewrite white_space|]. run E1. apply occupies_app in Hs as [_ Hs]. set (q := p + Z.of_nat (length ws)) in *.
  run (char_at_spec b q 60 _ l1 d Hs). cbn [Z.eqb Pos.eqb]. erewrite run_bind; [|reflexivity]. cbv beta iota. change (_parseCurLineNum (at_ b l1 d)) with l1. exists l1, l1.
  run (starts_with_spec b q (60 :: s) xmlHeader l1 d Hs ltac:(set_solver)). rewrite O1. destruct v as [t []|t|t|t|n a vs]; try done.
  all: run (starts_with_spec b q (60 :: s) commentHeader l1 d Hs ltac:(set_solver)); rewrite O2; try done.
  all: run (starts_with_spec b q (60 :: s) cdataHeader l1 d Hs ltac:(set_solver)); rewrite O3; try done.
  all: destruct O4 as [O4|?]; [|done]; run (starts_with_spec b q (60 :: s) dtdHeader l1 d Hs ltac:(set_solver)); rewrite O4; try done.
  run (starts_with_spec b q (60 :: s) elementHeader l1 d Hs ltac:(set_solver)). rewrite bool_decide_eq_true_2 by apply prefix_cons, prefix_nil. done.
Qed.

Lemma Identify_text b p ws c s l d : occupies b p ((ws ++ c :: s) ++ [0]) → white ws → IsWhiteSpace c = false → c ≠ 60 → c ≠ 0 →
  ∃ l' line, Identify p (at_ b l d) = Ok ((p, Some (XMLText line StrPair_new false)), at_ b l' d).
Proof.
  intros Hs Hws Hc Hlt H0'. unfold Identify. erewrite run_bind; [|reflexivity]. cbv beta iota. rewrite <- app_assoc in Hs. destruct (skip_white_spec b p ws c (s ++ [0]) l d Hs Hws Hc) as [l1 E1]. run E1.
  apply occupies_app in Hs as [_ Hs]. set (q := p + Z.of_nat (length ws)) in *. run (char_at_spec b q c _ l1 d Hs). rewrite (proj2 (Z.eqb_neq c 0)) by done.
  erewrite run_bind; [|reflexivity]. cbv beta iota. change (_parseCurLineNum (at_ b l1 d)) with l1. change (_parseCurLineNum (at_ b l d)) with l.
  assert (∀ lit, 0 ∉ 60 :: lit → starts_with q (60 :: lit) (at_ b l1 d) = Ok (false, at_ b l1 d)) as Hno.
  { intros lit Hl. rewrite (starts_with_spec b q (c :: s) _ l1 d Hs Hl), bool_decide_eq_false_2; [done|]. intros Hp%prefix_cons_inv_1. congruence. }
  run (Hno [63] ltac:(set_solver)). run (Hno [33; 45; 45] ltac:(set_solver)). run (Hno [33; 91; 67; 68; 65; 84; 65; 91] ltac:(set_solver)). run (Hno [33] ltac:(set_solver)).
  run (Hno [] ltac:(set_solver)). by exists l, l1.
Qed.

(** A text that is not all blank: the white space it starts with, and what comes first. *)
Lemma xml_escape_head s : clean s = true → blank s = false → ∃ ws c r, escape true s = ws ++ c :: r ∧ white ws ∧ IsWhiteSpace c = false ∧ c ≠ 60 ∧ c ≠ 0.
Proof.
  rewrite clean_iff. intros [Hn _]. induction s as [|c s IH]; [done|]. apply not_elem_of_cons in Hn as [Hc Hn]. cbn [blank forallb]. intros Hb.
  change (escape true (c :: s)) with (escape_char true c ++ escape true s). rewrite escape_char_spec. case_bool_decide as Hq.
  - destruct (quoted_entity _ _ Hq) as (e & _ & _ & ->). eexists [], 38, _. split_and!; [done|constructor|by rewrite white_space|done..].
  - destruct (IsWhiteSpace c) eqn:Ew.
    + destruct (IH Hn Hb) as (ws & x & r & -> & Hws & Hx & H1 & H2). exists (c :: ws), x, r. split_and!; try done. by constructor.
    + exists [], c, (escape true s). split_and!; [done|constructor|done| |done]. intros ->. apply Hq. cbn. set_solver.
Qed.

(** What comes behind plain text: the start of a construct, which must not be the last character. *)
Definition followed (z : list Z) : Prop := ∃ c z', z = 60 :: c :: z' ∧ c ≠ 0.

Lemma followed_app t z : followed t → followed (t ++ z).
Proof. intros (c & z' & -> & Hc). by exists c, (z' ++ z). Qed.

(** The first character of a node. *)
Lemma node_text_head v t : valid v = true → node_text v t → (∃ c r, t = c :: r ∧ c ≠ 0) ∧ (plain v = false → followed t).
Proof.
  intros Hv Ht. destruct Ht as [s| | | | |n a|n a vs u]; try by (split; [by eexists 60, _|intros _; by eexists _, _]).
  - split; [|done]. cbn in Hv. apply andb_true_iff in Hv as [Hc Hb%negb_true_iff]. destruct (xml_escape_head s Hc Hb) as (ws & c & r & -> & Hws & _ & _ & H0'). destruct ws as [|w ws]; [by eexists c, _|].
    eexists w, _. split; [done|]. intros ->. apply Forall_cons in Hws as [Hw _]. by rewrite white_space in Hw.
  - cbn in Hv. rewrite !andb_true_iff in Hv. destruct Hv as [[[[[Hn _] _] _] _] _]. apply valid_name_nul in Hn as H0'. destruct n as [|x n]; [done|]. split; [by eexists 60, _|]. intros _. eexists x, _. split; [done|]. set_solver.
  - cbn in Hv. rewrite !andb_true_iff in Hv. destruct Hv as [[[[[Hn _] _] _] _] _]. apply valid_name_nul in Hn as H0'. destruct n as [|x n]; [done|]. split; [by eexists 60, _|]. intros _. eexists x, _. split; [done|]. set_solver.
Qed.

Lemma element_opens n a vs s : valid_name n = true → opens (Element n a vs) (60 :: n ++ s).
Proof.
  intros Hn. destruct (valid_name_chars n Hn) as (x & n' & -> & Hx%name_start_char & _). cbn [app]. assert (33 ≠ x ∧ 63 ≠ x) as [? ?] by (split; apply not_eq_sym, (name_not _ _ Hx); set_solver).
  unfold opens, commentHeader, cdataHeader, dtdHeader, xmlHeader. rewrite !prefix_second by done. by repeat split; left.
Qed.

(** The text of a construct starts with its header and that of no other. *)
Lemma node_text_opens v t z : valid v = true → plain v = false → node_text v t → ∃ s, t = 60 :: s ∧ opens v (60 :: s ++ z).
Proof.
  intros Hv Hp Ht. destruct Ht as [s|s|s|s|s|n a|n a vs u]; try done; eexists; (split; [reflexivity|]).
  - repeat split; try done; by left.
  - repeat split; try done; by left.
  - repeat split; try done; by right.
  - cbn in Hv. rewrite !andb_true_iff, !negb_true_iff, !bool_decide_eq_false in Hv. destruct Hv as [[_ H1] H2]. repeat (rewrite <- app_assoc || cbn [app]).
    assert (∀ lit : list Z, 62 ∉ lit → ¬ lit `prefix_of` s → ¬ 60 :: 33 :: lit `prefix_of` 60 :: 33 :: s ++ 62 :: z) as Hno.
    { intros lit Hl Hn Hpre. do 2 apply prefix_cons_inv_2 in Hpre. by apply prefix_before in Hpre. }
    split; [done|]. split; [apply bool_decide_eq_false_2, (Hno [45; 45]); [set_solver|done]|]. split; [apply bool_decide_eq_false_2, (Hno [91; 67; 68; 65; 84; 65; 91]); [set_solver|done]|by left].
  - cbn in Hv. rewrite !andb_true_iff in Hv. destruct Hv as [[[[[Hn _] _] _] _] _]. repeat (rewrite <- app_assoc || cbn [app]). by apply element_opens.
  - cbn in Hv. rewrite !andb_true_iff in Hv. destruct Hv as [[[[[Hn _] _] _] _] _]. repeat (rewrite <- app_assoc || cbn [app]). by apply element_opens.
Qed.

Lemma value_parse_spec b p raw tag flags e line s l d : occupies b p (raw ++ tag ++ s ++ [0]) → 0 ∉ raw → 0 ∉ tag → tag ≠ [] → free tag raw = true →
  ∃ l', value_parse p tag flags e line (at_ b l d) = Ok ((Some (p + Z.of_nat (length raw) + Z.of_nat (length tag)), Set_ p (p + Z.of_nat (length raw)) flags), at_ b l' d).
Proof. intros Hs Hr Ht Hne Hf. destruct (parse_text_spec b p raw tag flags s l d Hs Hr Ht Hne Hf) as [l' E]. exists l'. unfold value_parse. by run E. Qed.

(** ** Nodes and siblings *)
Definition parses (v : xml) : Prop := ∀ t fuel doc siblings b l d p ws k z, node_text v t → ready d → occupies b p (ws ++ t ++ z ++ [0]) → blank_space ws →
  (plain v = true → ws = [] ∧ followed z) → (length (ws ++ t ++ z) ≤ fuel)%nat → 0 ≤ k ≤ p + (if plain v then 0 else 1) →
  _parsingDepth d + depth v < TINYXML2_MAX_ELEMENT_DEPTH → (is_decl v = true → doc = true ∧ Forall (λ n, is_declaration n = true) siblings) →
  ∃ b' l' k' n, let p' := p + Z.of_nat (length ws) + Z.of_nat (length t) in
    children_loop (S fuel) doc siblings (Some p) (at_ b l d) = children_loop fuel doc (siblings ++ [n]) (Some p') (at_ b' l' d) ∧
    fits n v ∧ same_but b b' k p' ∧ spans b' k k' (pairs n) (strings v) ∧ k' ≤ p' + (if plain v then 1 else 0).

Lemma fits_declaration_iff n v : fits n v → is_declaration n = is_decl v.
Proof. by destruct 1. Qed.

Lemma well_located_all siblings : Forall (λ n, is_declaration n = true) siblings → well_located true siblings = true.
Proof.
  intros Hs. unfold well_located. cbn [andb]. destruct siblings as [|n siblings]; [done|]. destruct (last (n :: siblings)) as [m|] eqn:E; [|done]. apply last_Some_elem_of in E.
  cbn [head]. rewrite Forall_forall in Hs. by rewrite !Hs by (done || by left).
Qed.

Lemma decl_located v n doc siblings : fits n v → (is_decl v = true → doc = true ∧ Forall (λ n, is_declaration n = true) siblings) →
  is_declaration n && negb (well_located doc siblings) = false.
Proof. intros Hf Hd. rewrite (fits_declaration_iff n v Hf). destruct (is_decl v); [|done]. destruct (Hd eq_refl) as [-> Hs]. by rewrite well_located_all. Qed.

Lemma first_char b p ws c s l d : occupies b p (ws ++ c :: s) → blank_space ws → c ≠ 0 → ∃ c0, char_at p (at_ b l d) = Ok (c0, at_ b l d) ∧ c0 ≠ 0.
Proof.
  intros Hs Hws Hc. destruct ws as [|w ws]; [exists c|exists w]; (split; [by eapply char_at_spec|]); [done|]. apply Forall_cons in Hws as [Hw _]. set_solver.
Qed.

(** A node whose value ends at a tag. *)
Definition leaf_text (v : xml) : option (list Z * list Z) :=
  match v with Text s true => Some (s, [93; 93; 62]) | Comment s => Some (s, [45; 45; 62]) | Declaration s => Some (s, [63; 62]) | Unknown s => Some (s, [62]) | _ => None end.
Definition with_value (v : xml) (line : Z) (s : StrPair) : XMLNode :=
  match v with Text _ c => XMLText line s c | Comment _ => XMLComment line s | Declaration _ => XMLDeclaration line s | Unknown _ => XMLUnknown line s | Element _ _ _ => XMLElement line s OPEN [] [] end.

Lemma leaf_parses v s tag : leaf_text v = Some (s, tag) → valid v = true → parses v.
Proof.
  intros Hv Hval t fuel doc siblings b l d p ws k z Ht Hd Hs Hws _ _ Hk _ Hdecl.
  assert (plain v = false ∧ clean s = true ∧ free tag s = true ∧ tag ≠ [] ∧ 0 ∉ tag ∧ t = opening_of v ++ s ++ tag ∧ strings v = [s]) as (Hp & Hc & Hf & Hne & Hnt & Et & Hstr).
  { destruct Ht; try done; injection Hv as -> <-; cbn in Hval; rewrite ?andb_true_iff in Hval; destruct_and? Hval; split_and!; try done; set_solver. }
  destruct (node_text_opens v t z Hval Hp Ht) as (r & Er & Ho). rewrite Er in Hs at 1. rewrite (app_assoc (60 :: r)) in Hs. destruct (Identify_markup v b p ws (r ++ z) l d Hp Hs Hws Ho) as (l1 & line & E2).
  pose proof Hc as [Hc0 _]%clean_iff. rewrite Hp in Hk |- *. destruct (first_char b p ws 60 _ l d Hs Hws) as (c & E1 & H0'); [done|].
  apply occupies_app in Hs as [_ Hs]. rewrite <- app_assoc, app_assoc, <- Er, Et in Hs. rewrite <- !app_assoc in Hs. apply occupies_app in Hs as [_ Hs].
  set (q := p + Z.of_nat (length ws) + Z.of_nat (length (opening_of v))) in *.
  assert (∃ l2, node_parse (deep fuel) (node_of v line) q (at_ b l1 d) =
    Ok ((Some (q + Z.of_nat (length s) + Z.of_nat (length tag)), with_value v line (Set_ q (q + Z.of_nat (length s)) NEEDS_NEWLINE_NORMALIZATION), StrPair_new), at_ b l2 d)) as [l2 E3].
  { destruct v as [? []|?|?|?|???]; try done; cbn [node_of node_parse text_parse with_value]; rewrite ?comment_mode.
    all: injection Hv as -> <-; match goal with |- context [value_parse _ ?tag ?flags ?e ?line] => destruct (value_parse_spec b q s tag flags e line z l1 d Hs Hc0 Hnt Hne Hf) as [l2 E] end.
    all: exists l2; by run E. }
  exists b, l2, (q + Z.of_nat (length s) + 1), (with_value v line (Set_ q (q + Z.of_nat (length s)) NEEDS_NEWLINE_NORMALIZATION)). cbv zeta.
  assert (p + Z.of_nat (length ws) + Z.of_nat (length t) = q + Z.of_nat (length s) + Z.of_nat (length tag)) as -> by (unfold q; rewrite Et, !length_app; lia).
  assert (fits (with_value v line (Set_ q (q + Z.of_nat (length s)) NEEDS_NEWLINE_NORMALIZATION)) v) as Hfits by (destruct v; try done; constructor).
  split; [|split; [done|split; [done|split]]].
  - eapply children_loop_step; [exact E1|done|exact E2|exact E3|by eapply decl_located|by destruct v|by destruct v].
  - destruct tag as [|x tag]; [done|]. cbn [app] in Hs. pose proof (plain_pair b q s x _ Hc Hs) as Hst. rewrite Hstr.
    assert (pairs (with_value v line (Set_ q (q + Z.of_nat (length s)) NEEDS_NEWLINE_NORMALIZATION)) = [Set_ q (q + Z.of_nat (length s)) NEEDS_NEWLINE_NORMALIZATION]) as -> by (by destruct v).
    eapply stands_spans; [|exact Hst|constructor; rewrite length_app; cbn [length]; lia]. assert (1 ≤ length (opening_of v))%nat by (destruct v as [? []|?|?|?|???]; try done; cbn; lia). lia.
  - destruct tag; [done|]. cbn [length]. lia.
Qed.

Lemma text_parses s : valid (Text s false) = true → parses (Text s false).
Proof.
  intros Hval t fuel doc siblings b l d p ws k z Ht Hd Hs _ Hz _ Hk _ _. inversion Ht; subst. destruct (Hz eq_refl) as [-> Hh]. cbn [valid] in Hval. apply andb_true_iff in Hval as [Hc Hb%negb_true_iff].
  cbn [plain app] in *. destruct Hh as (c' & z' & -> & Hc'). destruct (xml_escape_head s Hc Hb) as (ws & c & r & Er & Hws & Hcw & Hc60 & Hc0). set (e := escape true s) in *.
  assert (occupies b p ((ws ++ c :: r ++ 60 :: c' :: z') ++ [0])) as Hs1 by (rewrite Er in Hs; repeat (rewrite <- app_assoc in Hs || cbn [app] in Hs); by repeat (rewrite <- app_assoc || cbn [app])).
  destruct (Identify_text b p ws c _ l d Hs1 Hws Hcw Hc60 Hc0) as (l1 & line & E2). set (q := p + Z.of_nat (length e)).
  pose proof (escaped_pair true b p s 60 (c' :: z' ++ [0]) TEXT_ELEMENT text_element_mode Hc Hs) as Hst. fold e q in Hst. pose proof Hc as [Hn0 _]%clean_iff.
  assert (0 ∉ e ∧ 60 ∉ e) as [He0 He60] by (split; apply escape_without; [set_solver|done|set_solver|intros; cbn; set_solver]).
  assert (∃ l2, text_parse p false line (at_ b l1 d) = Ok ((Some q, Set_ p q TEXT_ELEMENT), at_ b l2 d)) as [l2 E3].
  { destruct Hd as (_ & He & Hcol). destruct (value_parse_spec b p e [60] TEXT_ELEMENT XML_ERROR_PARSING_TEXT line (c' :: z') l1 d Hs He0) as [l2 E]; [set_solver|done|by apply free_char|].
    exists l2. apply occupies_app in Hs as [_ Hs]. apply occupies_tail in Hs. fold q in Hs, E. unfold text_parse. do 2 (erewrite run_bind; [|reflexivity]; cbv beta iota). cbn [_processEntities _collapseWhitespace at_ set_line set_buffer].
    rewrite He, Hcol. cbv zeta iota. change (mk_document _ _ _ _ _ _ _ _) with (at_ b l1 d). run E. change (Z.of_nat (length [60])) with 1. run (char_at_spec b (q + 1) c' _ l2 d Hs). rewrite (proj2 (Z.eqb_neq c' 0)) by done.
    by rewrite Z.add_simpl_r. }
  exists b, l2, (q + 1), (XMLText line (Set_ p q TEXT_ELEMENT) false). cbv zeta. change (Z.of_nat (length [])) with 0. rewrite Z.add_0_r. fold q. split; [|split; [constructor|split; [done|split; [|lia]]]].
  - destruct (first_char b p [] (default 0 (head e)) (tail e ++ (60 :: c' :: z') ++ [0]) l d) as (c0 & E1 & Hc00); [|constructor| |].
    + rewrite Er in Hs |- *. destruct ws; exact Hs.
    + rewrite Er. destruct ws as [|w ws]; [done|]. cbn. intros ->. apply Forall_cons in Hws as [Hw _]. by rewrite white_space in Hw.
    + eapply children_loop_step; [exact E1|done|exact E2|cbn [node_parse]; by run E3|done..].
  - eapply (stands_spans _ _ _ p); [lia|exact Hst|]. constructor. rewrite length_app. unfold q. cbn [length]. lia.
Qed.

(** ** Elements *)
Definition tag_end (closed : bool) : list Z := if closed then [47; 62] else [62].

Lemma behind_name a closed s : ∃ c u, (a ≫= attribute_text) ++ tag_end closed ++ s = c :: u ∧ IsNameChar c = false ∧ c ≠ 0.
Proof. destruct a as [|x a]; [destruct closed|]; eexists _, _; (split; [reflexivity|]); (split; [by apply special_not_name; set_solver|done]). Qed.

Lemma attributes_length a : (length a ≤ length (a ≫= attribute_text))%nat.
Proof. induction a as [|x a IH]; [done|]. change ((x :: a) ≫= attribute_text) with (attribute_text x ++ (a ≫= attribute_text)). rewrite length_app. cbn [length attribute_text app]. lia. Qed.

(** A start tag: the name and the attributes, which lie behind each other. *)
Lemma start_tag n a closed dp line s b p l d : (a ≠ [] → ready d) → valid_name n = true → forallb valid_attribute a = true → NoDup a.*1 → occupies b p (n ++ (a ≫= attribute_text) ++ tag_end closed ++ s ++ [0]) →
  ∃ b' l' w attrs, let p' := p + Z.of_nat (length n) + Z.of_nat (length (a ≫= attribute_text)) + Z.of_nat (length (tag_end closed)) in
  let name := Set_ p (p + Z.of_nat (length n)) 0 in
  element_parse dp p line (at_ b l d) = (let node := XMLElement line name (if closed then CLOSED else OPEN) attrs in
    c ← char_at p'; if (c =? 0) || closed then mret (Some p', node [], StrPair_new) else '(q, endTag, children) ← dp p'; mret (q, node children, endTag)) (at_ b' l' d) ∧
  stands b' p (n ++ [w]) name n ∧ spans b' (p + Z.of_nat (length n) + 1) p' (attr_pairs attrs) (attr_strings a) ∧ length attrs = length a ∧ same_but b b' (p + Z.of_nat (length n) + 1) p'.
Proof.
  intros Hd Hn Ha Hnd Hs. destruct (behind_name a closed (s ++ [0])) as (w & u & Eu & Hw & Hw0). rewrite Eu in Hs.
  destruct (valid_name_chars n Hn) as (x & n' & En & Hx%name_start_char & _). unfold element_parse. pose proof Hs as Hs1. rewrite En in Hs1. cbn [app] in Hs1.
  destruct (skip_none b p x _ l d Hs1) as [l1 E1]; [by apply name_not_blank|]. run E1. run (char_at_spec b p x _ l1 d Hs1). rewrite (proj2 (Z.eqb_neq x 47)) by (apply (name_not x 47 Hx); set_solver).
  run (parse_name_spec b p n w u l1 d Hs Hn Hw). set (r := p + Z.of_nat (length n)). cbn [Empty Set_ str_]. rewrite (proj2 (Z.eqb_neq p r)) by (unfold r; rewrite En; cbn [length]; lia).
  pose proof (name_pair b p n w u Hn Hs) as Hst. fold r in Hst. apply occupies_app in Hs as [_ Hs]. fold r in Hs. rewrite <- Eu in Hs.
  assert (length a < S (length b))%nat as Hfuel by (apply occupies_length in Hs as Hlen; pose proof (attributes_length a); apply occupies_nonneg in Hs; rewrite length_app in Hlen; lia).
  destruct (attributes_loop_spec line (Set_ p r 0) OPEN closed s d a (S (length b)) b r l1 [] [] (r + 1) (r + 1) Hd) as (b2 & l2 & attrs & E2 & Hb2 & Hsp & Hl2); try done.
  { by constructor. }
  set (p' := r + Z.of_nat (length (a ≫= attribute_text)) + Z.of_nat (length (tag_end closed))).
  assert (r + Z.of_nat (length (a ≫= attribute_text)) + (if closed then 2 else 1) = p') as Ep by (unfold p'; by destruct closed). rewrite Ep in E2, Hb2, Hsp.
  exists b2, l2, w, attrs. cbv zeta. split; [|split; [|done]].
  - run E2. by destruct closed.
  - eapply stands_same; [exact Hb2| |exact Hst]. left. rewrite length_app. cbn [length]. unfold r. lia.
Qed.

(** An end tag is read as an element that is closing. *)
Lemma end_tag_parse n dp line s b p l d : valid_name n = true → occupies b p ([47] ++ n ++ [62] ++ s ++ [0]) →
  ∃ l', element_parse dp p line (at_ b l d) = Ok ((Some (p + 1 + Z.of_nat (length n) + 1), XMLElement line (Set_ (p + 1) (p + 1 + Z.of_nat (length n)) 0) CLOSING [] [], StrPair_new), at_ b l' d).
Proof.
  intros Hn Hs. unfold element_parse. cbn [app] in Hs. destruct (skip_none b p 47 _ l d Hs) as [l1 E1]; [by rewrite white_space|]. run E1. run (char_at_spec b p 47 _ l1 d Hs). cbn [Z.eqb Pos.eqb].
  apply occupies_tail in Hs. run (parse_name_spec b (p + 1) n 62 _ l1 d Hs Hn (special_not_name 62 ltac:(set_solver))). cbn [Empty Set_ str_]. pose proof (valid_name_chars n Hn) as (x & n' & En & _).
  rewrite (proj2 (Z.eqb_neq _ _)) by (rewrite En; cbn [length]; lia). apply occupies_app in Hs as [_ Hs]. set (q := p + 1 + Z.of_nat (length n)) in *.
  destruct (attributes_end (length b) b q line (Set_ (p + 1) q 0) CLOSING [] false s l1 d Hs) as [l2 E2]. exists l2. run E2. apply occupies_tail in Hs.
  assert (∃ c u, s ++ [0] = c :: u) as (c & u & Eu) by (destruct s; by eexists _, _). rewrite Eu in Hs. run (char_at_spec b (q + 1) c u l2 d Hs). by rewrite orb_true_r.
Qed.

Lemma end_tag_returned fuel siblings n ws z b p l d : valid_name n = true → blank_space ws → occupies b p (ws ++ [60; 47] ++ n ++ [62] ++ z ++ [0]) →
  let q := p + Z.of_nat (length ws) + 2 in
  ∃ l', children_loop (S fuel) false siblings (Some p) (at_ b l d) = Ok ((Some (q + Z.of_nat (length n) + 1), Set_ q (q + Z.of_nat (length n)) 0, siblings), at_ b l' d).
Proof.
  intros Hn Hws Hs. cbv zeta. pose proof Hs as Hs'. change ([60; 47] ++ n ++ [62] ++ z ++ [0]) with (60 :: 47 :: n ++ [62] ++ z ++ [0]) in Hs. destruct (first_char b p ws 60 _ l d Hs Hws) as (c & E1 & H0'); [done|].
  replace (60 :: 47 :: n ++ [62] ++ z ++ [0]) with ((60 :: 47 :: n ++ [62] ++ z) ++ [0]) in Hs by (cbn [app]; by rewrite <- !app_assoc).
  destruct (Identify_markup (Element n [] []) b p ws (47 :: n ++ [62] ++ z) l d eq_refl Hs Hws) as (l1 & line & E2).
  { unfold opens, commentHeader, cdataHeader, dtdHeader, xmlHeader. rewrite !prefix_second by done. by repeat split; left. }
  apply occupies_app in Hs' as [_ Hs']. cbn [app] in Hs'. apply occupies_tail in Hs'. destruct (end_tag_parse n (deep fuel) line z b _ l1 d Hn Hs') as [l2 E3].
  change (Z.of_nat (length (opening_of (Element n [] [])))) with 1 in E2. replace (p + Z.of_nat (length ws) + 1 + 1) with (p + Z.of_nat (length ws) + 2) in E3 by lia. exists l2.
  eapply children_loop_closing; [exact E1|done|exact E2|exact E3].
Qed.

(** Siblings that follow each other. *)
Definition parses_all (vs : list xml) : Prop := ∀ after before u fuel doc siblings b l d p k z, content node_text after vs u → separated after vs = true → declarations_first before vs = true →
  ready d → occupies b p (u ++ z ++ [0]) → Forall (λ v, plain v = false) vs ∨ followed z → (length (u ++ z) < fuel)%nat → 0 ≤ k ≤ p + 1 → (after = false → k ≤ p) → Forall (λ v, _parsingDepth d + depth v < TINYXML2_MAX_ELEMENT_DEPTH) vs →
  (before = true → doc = true ∧ Forall (λ n, is_declaration n = true) siblings) →
  ∃ fuel' ws b' l' k' p' ns, children_loop fuel doc siblings (Some p) (at_ b l d) = children_loop fuel' doc (siblings ++ ns) (Some p') (at_ b' l' d) ∧
    blank_space ws ∧ occupies b' p' (ws ++ z ++ [0]) ∧ p' + Z.of_nat (length ws) = p + Z.of_nat (length u) ∧ p ≤ p' ∧ (length (ws ++ z) < fuel')%nat ∧
    Forall2 fits ns vs ∧ same_but b b' k p' ∧ spans b' k k' (flat_map pairs ns) (flat_map strings vs) ∧ k' ≤ p' + 1.

Lemma content_followed vs u z : forallb valid vs = true → separated true vs = true → content node_text true vs u → (vs = [] → followed z) → followed (u ++ z).
Proof.
  intros Hv Hsep Hc Hz. inversion Hc as [? ws Hws Hn|? v vs' ws t u' Hws Hn Ht Hu]; subst; rewrite (Hn eq_refl); [by apply Hz|]. cbn in Hv, Hsep.
  apply andb_true_iff in Hv as [Hv _]. apply andb_true_iff in Hsep as [Hp%negb_true_iff _]. cbn [app]. rewrite <- app_assoc. apply followed_app. by apply (proj2 (node_text_head v t Hv Ht)).
Qed.

Lemma siblings_parse vs : forallb valid vs = true → Forall parses vs → parses_all vs.
Proof.
  induction vs as [|v vs IH]; intros Hv Hps after before u fuel doc siblings b l d p k z Hc Hsep Hdf Hd Hs Hz Hf Hk Hka Hdep Hbef; inversion Hc as [? ws Hws Hn|? ? ? ws t u' Hws Hn Ht Hu]; subst.
  { exists fuel, u, b, l, k, p, []. rewrite app_nil_r. split_and!; try done; [apply spans_nil; lia|lia]. }
  cbn [forallb separated declarations_first] in Hv, Hsep, Hdf. apply andb_true_iff in Hv as [Hv Hvs]. apply andb_true_iff in Hsep as [Hsv Hsep]. apply andb_true_iff in Hdf as [Hdv Hdf].
  apply Forall_cons in Hps as [Hp Hps]. apply Forall_cons in Hdep as [Hdepv Hdep]. destruct fuel as [|fuel]; [lia|]. rewrite <- !app_assoc in Hs, Hf. destruct (node_text_head v t Hv Ht) as [(c0 & r0 & Et & _) _].
  assert (Forall (λ v, plain v = false) vs ∨ followed z) as Hz' by (destruct Hz as [Hz|?]; [left; by apply Forall_cons in Hz as [_ ?]|by right]).
  assert (plain v = true → ws = [] ∧ followed (u' ++ z)) as Hpl.
  { intros Hpv. split; [apply Hn; by rewrite Hpv, orb_true_r|]. rewrite Hpv in Hu, Hsep. apply (content_followed vs); try done. destruct Hz as [Hz|?]; [|done]. apply Forall_cons in Hz as [? _]. congruence. }
  destruct (Hp t fuel doc siblings b l d p ws k (u' ++ z) Ht Hd) as (b1 & l1 & k1 & n & E1 & Hfit & Hb1 & Hsp1 & Hk1).
  { by rewrite <- app_assoc. } { done. } { done. } { rewrite !length_app in *. lia. } { destruct (plain v); [|lia]. destruct after; [done|]. specialize (Hka eq_refl). lia. } { done. }
  { intros Hdecl. rewrite Hdecl, orb_false_r in Hdv. by apply Hbef. }
  set (p1 := p + Z.of_nat (length ws) + Z.of_nat (length t)) in *. pose proof (spans_le _ _ _ _ _ Hsp1) as Hle1.
  destruct (IH Hvs Hps (plain v) (before && is_decl v) u' fuel doc (siblings ++ [n]) b1 l1 d p1 k1 z Hu Hsep Hdf Hd) as (fuel' & ws' & b2 & l2 & k2 & p2 & ns & E2 & Hws' & Hs2 & Hp2 & Hpp & Hf2 & Hfits & Hb2 & Hsp2 & Hk2); try done.
  { eapply occupies_same; [exact Hb1|right; unfold p1; lia|]. rewrite app_assoc in Hs. apply occupies_app in Hs as [_ Hs]. replace p1 with (p + Z.of_nat (length (ws ++ t))) by (rewrite length_app; unfold p1; lia). exact Hs. }
  { rewrite Et, !length_app in Hf. cbn [length] in Hf. rewrite length_app. lia. }
  { destruct (plain v); lia. }
  { intros Hpv. rewrite Hpv in Hk1. lia. }
  { intros [Hb' Hdecl]%andb_true_iff. destruct (Hbef Hb') as [-> Hall]. split; [done|]. apply Forall_app. split; [done|]. constructor; [|done]. by rewrite (fits_declaration_iff n v Hfit). }
  exists fuel', ws', b2, l2, k2, p2, (n :: ns). rewrite <- app_assoc in E2. cbn [app] in E2. pose proof (spans_le _ _ _ _ _ Hsp2) as Hle2. assert (p ≤ p1) by (unfold p1; lia). split_and!; try done.
  - by rewrite E1.
  - rewrite !length_app. unfold p1 in Hp2. lia.
  - lia.
  - by constructor.
  - eapply same_but_trans; [eapply same_but_weaken; [exact Hb1|lia|lia]|eapply same_but_weaken; [exact Hb2|lia|lia]].
  - eapply spans_app; [|exact Hsp2]. eapply spans_same; [exact Hb2|left; lia|exact Hsp1].
Qed.

Lemma valid_element n a vs : valid (Element n a vs) = true → valid_name n = true ∧ forallb valid_attribute a = true ∧ NoDup a.*1 ∧
  forallb valid vs = true ∧ separated false vs = true ∧ declarations_first false vs = true.
Proof.
  cbn [valid]. rewrite !andb_true_iff, bool_decide_eq_true. tauto.
Qed.

Lemma element_step n a vs fuel doc siblings b p ws s l d : occupies b p (ws ++ (60 :: s) ++ [0]) → blank_space ws → opens (Element n a vs) (60 :: s) →
  ∃ l1 line, ∀ p2 name closing attrs children endTag d3 node' d4,
    element_parse (deep fuel) (p + Z.of_nat (length ws) + 1) line (at_ b l1 d) = Ok ((Some p2, XMLElement line name closing attrs children, endTag), d3) → closing ≠ CLOSING →
    mismatched (XMLElement line name closing attrs children) endTag d3 = Ok ((node', false), d4) →
    children_loop (S fuel) doc siblings (Some p) (at_ b l d) = children_loop fuel doc (siblings ++ [node']) (Some p2) d4.
Proof.
  intros Hs Hws Ho. destruct (first_char b p ws 60 (s ++ [0]) l d Hs Hws) as (c & E1 & H0'); [done|]. destruct (Identify_markup (Element n a vs) b p ws s l d eq_refl Hs Hws Ho) as (l1 & line & E2).
  exists l1, line. intros * E3 Hcl E4. eapply children_loop_step; [exact E1|done|exact E2|exact E3|done|by destruct closing|exact E4].
Qed.

Definition deeper (d : XMLDocument) : XMLDocument := set_parsing_depth (_parsingDepth d + 1) d.

Lemma PushDepth_spec b l d : _parsingDepth d + 1 < TINYXML2_MAX_ELEMENT_DEPTH → PushDepth (at_ b l d) = Ok ((), at_ b l (deeper d)).
Proof.
  intros Hm. unfold PushDepth. do 2 (erewrite run_bind; [|reflexivity]; cbv beta iota). cbn [_parsingDepth at_ set_line set_buffer]. by rewrite (proj2 (Z.eqb_neq _ _)) by lia.
Qed.

Lemma deeper_back b l d : set_parsing_depth (_parsingDepth (at_ b l (deeper d)) - 1) (at_ b l (deeper d)) = at_ b l d.
Proof. unfold deeper, at_, set_line, set_buffer, set_parsing_depth. cbn. by rewrite Z.add_simpl_r. Qed.

Lemma PopDepth_spec b l d : PopDepth (at_ b l (deeper d)) = Ok ((), at_ b l d).
Proof. unfold PopDepth, modify. by rewrite deeper_back. Qed.

Lemma Error_spec b l d : ready d → asks Error (at_ b l d) = Ok (false, at_ b l d).
Proof. intros [He _]. unfold asks, Error. cbn. by rewrite He. Qed.

Lemma deep_spec fuel p b l d r b' l' : ready d → _parsingDepth d + 1 < TINYXML2_MAX_ELEMENT_DEPTH →
  children_loop fuel false [] (Some p) (at_ b l (deeper d)) = Ok (r, at_ b' l' (deeper d)) → deep fuel p (at_ b l d) = Ok (r, at_ b' l' d).
Proof.
  intros Hd Hm E. unfold deep. run (PushDepth_spec b l d Hm). run (Error_spec b l (deeper d) Hd). run E. by run (PopDepth_spec b' l' d).
Qed.

Lemma depth_in v vs : v ∈ vs → depth v ≤ foldr Z.max 0 (depth <$> vs).
Proof. induction vs as [|w vs IH]; [by intros ?%not_elem_of_nil|]. cbn [fmap list_fmap foldr]. intros [->|Hin%IH]%elem_of_cons; lia. Qed.

Lemma depth_child n a vs v : v ∈ vs → 1 + depth v ≤ depth (Element n a vs).
Proof.
  intros Hin. destruct vs as [|w vs]; [by apply not_elem_of_nil in Hin|]. apply depth_in in Hin. change (depth (Element n a (w :: vs))) with (1 + foldr Z.max 0 (depth <$> w :: vs)). lia.
Qed.

Lemma char_behind b p s l d : occupies b p (s ++ [0]) → ∃ c, char_at p (at_ b l d) = Ok (c, at_ b l d) ∧ (s ≠ [] → head s = Some c).
Proof. intros Hs. destruct s as [|c s]; [exists 0|exists c]; by split; [eapply char_at_spec|]. Qed.

Lemma node_text_closed n a t : node_text (Element n a []) t → t = [60] ++ n ++ (a ≫= attribute_text) ++ [47; 62].
Proof. intros Ht. by inversion Ht. Qed.

Lemma closed_parses n a : valid (Element n a []) = true → parses (Element n a []).
Proof.
  intros Hval t fuel doc siblings b l d p ws k z Ht Hd Hs Hws _ _ Hk _ _. destruct (node_text_opens _ t z Hval eq_refl Ht) as (r & -> & Ho). apply valid_element in Hval as (Hn & Ha & Hnd & _).
  apply node_text_closed in Ht. set (at_text := a ≫= attribute_text) in *. cbn [plain] in Hk |- *. injection Ht as ->.
  assert (occupies b p (ws ++ (60 :: (n ++ at_text ++ [47; 62]) ++ z) ++ [0])) as Hs1 by flat Hs.
  destruct (element_step n a [] fuel doc siblings b p ws _ l d Hs1 Hws Ho) as (l1 & line & Hstep). clear Hs1.
  apply occupies_app in Hs as [_ Hs]. apply (occupies_tail b _ 60 ((n ++ at_text ++ [47; 62]) ++ z ++ [0])) in Hs. rewrite <- !app_assoc in Hs. set (p0 := p + Z.of_nat (length ws) + 1) in *.
  destruct (start_tag n a true (deep fuel) line z b p0 l1 d (λ _, Hd) Hn Ha Hnd Hs) as (b1 & l2 & w & attrs & E1 & Hst & Hsp & Hla & Hb1).
  fold at_text in E1, Hsp, Hb1. cbn [tag_end] in E1, Hsp, Hb1. change (Z.of_nat (length [47; 62])) with 2 in *. set (p1 := p0 + Z.of_nat (length n) + Z.of_nat (length at_text) + 2) in *. cbv zeta in E1.
  assert (p + Z.of_nat (length ws) + Z.of_nat (length (60 :: n ++ at_text ++ [47; 62])) = p1) as -> by (unfold p1, p0; cbn [length]; rewrite !length_app; cbn [length]; lia).
  assert (occupies b1 p1 (z ++ [0])) as Hz.
  { eapply occupies_same; [exact Hb1|right; lia|]. do 2 apply occupies_app in Hs as [_ Hs]. by apply (occupies_app b _ [47; 62]) in Hs as [_ Hs]. }
  destruct (char_behind b1 p1 z l2 d Hz) as (c & E2 & _). eexists b1, l2, p1, _. cbv zeta. split; [eapply Hstep; [rewrite E1; run E2; by rewrite orb_true_r|done|reflexivity]|]. split; [constructor; [done|constructor]|].
  split; [eapply same_but_weaken; [exact Hb1|lia|lia]|]. split; [|lia]. cbn [pairs strings flat_map]. rewrite !app_nil_r.
  eapply stands_spans; [|exact Hst|]; [lia|]. rewrite length_app. cbn [length]. eapply spans_weaken; [exact Hsp|lia|lia].
Qed.

(** The children of an element, and the end tag behind them. *)
Lemma deep_parses n vs u z fuel p b l d : valid_name n = true → forallb valid vs = true → separated false vs = true → declarations_first false vs = true → parses_all vs → content node_text false vs u →
  ready d → _parsingDepth d + 1 < TINYXML2_MAX_ELEMENT_DEPTH → Forall (λ v, _parsingDepth d + (1 + depth v) < TINYXML2_MAX_ELEMENT_DEPTH) vs →
  occupies b p (u ++ [60; 47] ++ n ++ [62] ++ z ++ [0]) → Z.of_nat (length (u ++ [60; 47] ++ n ++ [62] ++ z)) < Z.of_nat fuel → let q := p + Z.of_nat (length u) + 2 in
  ∃ b' l' ns k', deep fuel p (at_ b l d) = Ok ((Some (q + Z.of_nat (length n) + 1), Set_ q (q + Z.of_nat (length n)) 0, ns), at_ b' l' d) ∧
    Forall2 fits ns vs ∧ same_but b b' p q ∧ spans b' p k' (flat_map pairs ns) (flat_map strings vs) ∧ k' ≤ q ∧ occupies b' q (n ++ [62] ++ z ++ [0]).
Proof.
  intros Hn Hv Hsep Hdf Hps Hc Hd Hm Hdep Hs Hf q. set (dd := deeper d). set (z1 := [60; 47] ++ n ++ [62] ++ z).
  assert (occupies b p (u ++ z1 ++ [0])) as Hs1 by (unfold z1; flat Hs). pose proof (occupies_nonneg _ _ _ Hs) as Hp.
  destruct (Hps false false u fuel false [] b l dd p p z1 Hc Hsep Hdf Hd Hs1) as (fuel' & ws & b1 & l1 & k1 & p1 & ns & E1 & Hws & Hs2 & Hp1 & Hpp & Hf1 & Hfits & Hb1 & Hsp & Hk1); try done; [right; by eexists 47, _|by apply Nat2Z.inj_lt|lia| |].
  { eapply Forall_impl; [exact Hdep|]. intros v Hv'. cbn. cbn in Hv'. lia. }
  destruct fuel' as [|fuel']; [lia|]. assert (occupies b1 p1 (ws ++ [60; 47] ++ n ++ [62] ++ z ++ [0])) as Hs3 by (unfold z1 in Hs2; flat Hs2).
  destruct (end_tag_returned fuel' ns n ws z b1 p1 l1 dd Hn Hws Hs3) as [l2 E2]. replace (p1 + Z.of_nat (length ws) + 2) with q in E2 by (unfold q; lia).
  exists b1, l2, ns, k1. split; [apply deep_spec; [done|done|]; fold dd; by rewrite E1|]. split; [done|]. split; [eapply same_but_weaken; [exact Hb1|lia|unfold q; lia]|]. split; [done|]. split; [unfold q; lia|].
  apply occupies_app in Hs3 as [_ Hs3]. apply (occupies_app b1 _ [60; 47]) in Hs3 as [_ Hs3]. change (Z.of_nat (length [60; 47])) with 2 in Hs3. by replace (p1 + Z.of_nat (length ws) + 2) with q in Hs3 by (unfold q; lia).
Qed.

(** The end tag that fits. *)
Lemma mismatched_fits b i w j v line n attrs children l d name q : stands b i w name n → stands b j v (Set_ q (q + Z.of_nat (length n)) 0) n → n ≠ [] → i + Z.of_nat (length w) ≤ j →
  ∃ b' name' w', mismatched (XMLElement line name OPEN attrs children) (Set_ q (q + Z.of_nat (length n)) 0) (at_ b l d) = Ok ((XMLElement line name' OPEN attrs children, false), at_ b' l d) ∧
    stands b' i w' name' n ∧ length w' = length w ∧ same_but b b' i (j + Z.of_nat (length v)) ∧ ∀ lo hi ss ts, i + Z.of_nat (length w) ≤ lo → hi ≤ j → spans b lo hi ss ts → spans b' lo hi ss ts.
Proof.
  intros Hname Hend Hn Hij. destruct (get_str_read b j v _ n l d Hend) as (b1 & v1 & s1 & E1 & _ & _ & Hb1). apply (stands_same b b1 j (j + Z.of_nat (length v))) in Hname; [|done|lia].
  destruct (get_str_read b1 i w name n l d Hname) as (b2 & w2 & name' & E2 & Hname' & Hlw & Hb2). exists b2, name', w2. split_and!; try done.
  - unfold mismatched. cbn [Empty Set_ str_]. rewrite (proj2 (Z.eqb_neq _ _)) by (destruct n; [done|cbn [length]; lia]). change (negb (bool_decide (OPEN = OPEN))) with false. cbv iota.
    run E1. run E2. by rewrite string_equal, bool_decide_eq_true_2.
  - eapply same_but_trans; [eapply same_but_weaken; [exact Hb1|lia|lia]|eapply same_but_weaken; [exact Hb2|lia|lia]].
  - intros lo hi ss ts Hlo Hhi Hsp. eapply spans_same; [exact Hb2|right; lia|]. eapply spans_same; [exact Hb1|left; lia|done].
Qed.

Lemma node_text_open n a vs t : node_text (Element n a vs) t → vs ≠ [] → ∃ u, content node_text false vs u ∧ t = [60] ++ n ++ (a ≫= attribute_text) ++ [62] ++ u ++ [60; 47] ++ n ++ [62].
Proof. intros Ht Hvs. inversion Ht; subst; [done|]. by eexists. Qed.

(** The first character of a text. *)
Lemma content_first after vs u : vs ≠ [] → forallb valid vs = true → content node_text after vs u → ∃ c r, u = c :: r ∧ c ≠ 0.
Proof.
  intros Hne Hv Hc. inversion Hc as [|? v vs' ws t u' Hws _ Ht _]; subst; [done|]. cbn in Hv. apply andb_true_iff in Hv as [Hv _]. destruct (node_text_head v t Hv Ht) as [(c & r & -> & Hc0) _].
  destruct ws as [|w ws]; [by eexists c, _|]. eexists w, _. split; [done|]. apply Forall_cons in Hws as [Hw _]. set_solver.
Qed.

Lemma depth_nonneg v : 0 ≤ depth v.
Proof.
  assert (∀ l, 0 ≤ foldr Z.max 0 l) as Hm by (induction l; cbn; lia). destruct v as [| | | |n a [|v vs]]; try done. change (depth (Element n a (v :: vs))) with (1 + foldr Z.max 0 (depth <$> v :: vs)).
  specialize (Hm (depth <$> v :: vs)). lia.
Qed.

Lemma open_parses n a vs : vs ≠ [] → valid (Element n a vs) = true → parses_all vs → parses (Element n a vs).
Proof.
  intros Hne Hval Hps t fuel doc siblings b l d p ws k z Ht Hd Hs Hws _ Hf Hk Hdep _. destruct (node_text_opens _ t z Hval eq_refl Ht) as (r & -> & Ho). apply valid_element in Hval as (Hn & Ha & Hnd & Hvs & Hsep & Hdf).
  apply node_text_open in Ht as (u & Hc & Ht); [|done]. set (at_text := a ≫= attribute_text) in *. cbn [plain] in Hk |- *.
  set (rest := u ++ [60; 47] ++ n ++ [62]) in *. assert (r = n ++ at_text ++ [62] ++ rest) as -> by by injection Ht.
  assert (occupies b p (ws ++ (60 :: (n ++ at_text ++ [62] ++ rest) ++ z) ++ [0])) as Hs1 by flat Hs.
  destruct (element_step n a vs fuel doc siblings b p ws _ l d Hs1 Hws Ho) as (l1 & line & Hstep). clear Hs1.
  apply occupies_app in Hs as [_ Hs]. apply (occupies_tail b _ 60 ((n ++ at_text ++ [62] ++ rest) ++ z ++ [0])) in Hs. rewrite <- !app_assoc in Hs. set (p0 := p + Z.of_nat (length ws) + 1) in *.
  destruct (start_tag n a false (deep fuel) line (rest ++ z) b p0 l1 d (λ _, Hd) Hn Ha Hnd) as (b1 & l2 & w & attrs & E1 & Hst & Hsp & Hla & Hb1); [by rewrite <- (app_assoc rest)|].
  fold at_text in E1, Hsp, Hb1. cbn [tag_end] in E1, Hsp, Hb1. change (Z.of_nat (length [62])) with 1 in *. set (p1 := p0 + Z.of_nat (length n) + Z.of_nat (length at_text) + 1) in *. cbv zeta in E1.
  assert (occupies b1 p1 (rest ++ z ++ [0])) as Hs2.
  { eapply occupies_same; [exact Hb1|right; lia|]. do 2 apply occupies_app in Hs as [_ Hs]. by apply (occupies_app b _ [62]) in Hs as [_ Hs]. }
  assert (occupies b1 p1 (u ++ [60; 47] ++ n ++ [62] ++ z ++ [0])) as Hs3 by (unfold rest in Hs2; flat Hs2).
  assert (∃ c r, rest ++ z = c :: r ∧ c ≠ 0) as (c & r & Er & Hc0).
  { destruct (content_first false vs u Hne Hvs Hc) as (c & r & Eu & Hc0). unfold rest. rewrite Eu. by eexists c, _. }
  rewrite app_assoc, Er in Hs2. pose proof (char_at_spec b1 p1 c _ l2 d Hs2) as E2.
  assert (Forall (λ v, _parsingDepth d + (1 + depth v) < TINYXML2_MAX_ELEMENT_DEPTH) vs) as Hdep2 by (apply Forall_forall; intros v Hv; pose proof (depth_child n a vs v Hv); lia).
  assert (_parsingDepth d + 1 < TINYXML2_MAX_ELEMENT_DEPTH) as Hm by (destruct vs as [|v vs]; [done|]; apply Forall_cons in Hdep2 as [? _]; pose proof (depth_nonneg v); lia).
  destruct (deep_parses n vs u z fuel p1 b1 l2 d Hn Hvs Hsep Hdf Hps Hc Hd Hm Hdep2 Hs3) as (b2 & l3 & ns & k2 & E3 & Hfits & Hb2 & Hsp2 & Hk2 & Hs4).
  { unfold rest in Hf. repeat (rewrite length_app in Hf || cbn [length] in Hf). repeat (rewrite length_app || cbn [length]). lia. }
  set (q := p1 + Z.of_nat (length u) + 2) in *. assert (length (n ++ [w]) = S (length n) ∧ length (n ++ [62]) = S (length n)) as [Hlw Hl62] by (rewrite !length_app; cbn [length]; lia).
  assert (p0 + Z.of_nat (length n) + 1 ≤ p1 ∧ p1 ≤ q) as [Hp1 Hpq] by (unfold p1, q; lia).
  destruct (mismatched_fits b2 p0 (n ++ [w]) q (n ++ [62]) line n attrs ns l3 d (Set_ p0 (p0 + Z.of_nat (length n)) 0) q) as (b3 & name' & w' & E4 & Hst4 & Hlw' & Hb3 & Hmove).
  { eapply stands_same; [exact Hb2|left; lia|exact Hst]. } { by apply (name_pair b2 q n 62 (z ++ [0])). } { by intros ->. } { lia. }
  assert (p + Z.of_nat (length ws) + Z.of_nat (length (60 :: n ++ at_text ++ [62] ++ rest)) = q + Z.of_nat (length n) + 1) as ->.
  { unfold q, p1, p0, rest. repeat (rewrite length_app || cbn [length]). lia. }
  exists b3, l3, k2, (XMLElement line name' OPEN attrs ns). cbv zeta. split; [eapply Hstep; [rewrite E1; run E2; rewrite (proj2 (Z.eqb_neq c 0)) by done; cbn [orb]; by run E3|done|exact E4]|].
  split; [by constructor|]. split; [|split; [|lia]].
  - eapply same_but_trans; [|eapply same_but_weaken; [exact Hb3|lia|lia]]. eapply same_but_trans; [eapply same_but_weaken; [exact Hb1|lia|lia]|eapply same_but_weaken; [exact Hb2|lia|lia]].
  - cbn [pairs strings]. eapply stands_spans; [|exact Hst4|]; [lia|]. rewrite Hlw', Hlw. apply (spans_app _ _ p1); [|apply Hmove; [lia|lia|exact Hsp2]].
    apply Hmove; [lia|lia|]. eapply spans_same; [exact Hb2|left; lia|]. eapply spans_weaken; [exact Hsp|lia|lia].
Qed.

Lemma node_parses v : valid v = true → parses v.
Proof.
  induction v as [s c|s|s|s|n a vs IH] using xml_ind'; intros Hv.
  - destruct c; [by eapply leaf_parses|by apply text_parses].
  - by eapply leaf_parses.
  - by eapply leaf_parses.
  - by eapply leaf_parses.
  - destruct vs as [|w vs]; [by apply closed_parses|]. apply open_parses; [done|done|]. apply valid_element in Hv as (_ & _ & _ & Hvs & _ & _). apply siblings_parse; [done|].
    apply Forall_forall. intros x Hx. rewrite Forall_forall in IH. apply IH; [done|]. rewrite forallb_forall in Hvs. by apply Hvs, list_elem_of_In.
Qed.

Lemma nodes_parse vs : forallb valid vs = true → parses_all vs.
Proof.
  intros Hvs. apply siblings_parse; [done|]. apply Forall_forall. intros x Hx. apply node_parses. rewrite forallb_forall in Hvs. by apply Hvs, list_elem_of_In.
Qed.

(** ** Documents *)
Lemma Identify_end b p ws l d : blank_space ws → occupies b p (ws ++ [0]) → ∃ q l', Identify p (at_ b l d) = Ok ((q, None), at_ b l' d).
Proof.
  intros Hws Hs. destruct (skip_white_spec b p ws 0 [] l d Hs (blank_white _ Hws)) as [l1 E1]; [by rewrite white_space|]. eexists _, l1. unfold Identify. erewrite run_bind; [|reflexivity]. cbv beta iota.
  run E1. apply occupies_app in Hs as [_ Hs]. by run (char_at_spec b _ 0 [] l1 d Hs).
Qed.

Lemma children_loop_stop fuel doc siblings b p ws l d : blank_space ws → occupies b p (ws ++ [0]) →
  ∃ l', children_loop (S fuel) doc siblings (Some p) (at_ b l d) = Ok ((None, StrPair_new, siblings), at_ b l' d).
Proof.
  intros Hws Hs. cbn [children_loop]. destruct (char_behind b p ws l d Hs) as (c & E & Hc). run E. destruct (Z.eqb_spec c 0) as [|Hc0]; [by eexists|].
  destruct (Identify_end b p ws l d Hws Hs) as (q & l1 & E1). exists l1. by run E1.
Qed.

Definition bom_text (bom : bool) : list Z := if bom then [TIXML_UTF_LEAD_0; TIXML_UTF_LEAD_1; TIXML_UTF_LEAD_2] else [].

(** White space and the byte order mark before the first node are skipped. *)
Lemma document_start bom vs u d : vs ≠ [] → forallb valid vs = true → Forall (λ v, plain v = false) vs → content node_text false vs u →
  let b := (bom_text bom ++ u) ++ [0] in
  ∃ p p1 l s, skip_white 0 (at_ b 1 d) = Ok (p, at_ b l d) ∧ ReadBOM b p = Ok (p1, bom) ∧ content node_text false vs s ∧ occupies b p1 (s ++ [0]) ∧ 0 ≤ p1.
Proof.
  intros Hne Hv Hpl Hc b. assert (occupies b 0 ((bom_text bom ++ u) ++ [0])) as Hs by (exists [], []; by rewrite app_nil_r).
  destruct bom.
  - destruct (skip_none b 0 TIXML_UTF_LEAD_0 _ 1 d Hs) as [l E]; [by rewrite white_space|]. exists 0, 3, l, u. split_and!; try done. rewrite <- app_assoc in Hs. by apply occupies_app in Hs as [_ Hs].
  - cbn [bom_text app] in Hs. inversion Hc as [|? v vs' ws t u' Hws Hn Ht Hu]; subst; [done|]. cbn in Hv. apply andb_true_iff in Hv as [Hv _]. apply Forall_cons in Hpl as [Hp _].
    destruct (proj2 (node_text_head v t Hv Ht) Hp) as (c & t' & -> & _). rewrite <- (app_assoc ws) in Hs. destruct (skip_white_spec b 0 ws 60 _ 1 d Hs (blank_white _ Hws)) as [l E]; [by rewrite white_space|].
    apply occupies_app in Hs as [_ Hs]. exists (0 + Z.of_nat (length ws)), (0 + Z.of_nat (length ws)), l, ([] ++ (60 :: c :: t') ++ u'). split_and!; try done; [|by apply content_cons; [constructor|..]|lia].
    unfold ReadBOM. rewrite (strneq_spec b _ _ _ Hs), ok_bind by set_solver. rewrite bool_decide_eq_false_2; [done|]. by intros ?%prefix_cons_inv_1.
Qed.

Lemma document_spec vs : document vs = true → vs ≠ [] ∧ forallb valid vs = true ∧ Forall (λ v, plain v = false) vs ∧ declarations_first true vs = true ∧
  Forall (λ v, 1 + depth v < TINYXML2_MAX_ELEMENT_DEPTH) vs.
Proof.
  unfold document. rewrite !andb_true_iff, negb_true_iff, bool_decide_eq_false, Z.ltb_lt. intros ((((Hne & Hv) & Hp) & Hd) & Hm). split_and!; try done.
  - apply List.Forall_forall. intros v Hin. rewrite forallb_forall in Hp. specialize (Hp v Hin). cbn in Hp. by apply negb_true_iff.
  - apply Forall_forall. intros v Hin%depth_in. lia.
Qed.

Lemma separated_plain vs after : Forall (λ v, plain v = false) vs → separated after vs = true.
Proof. intros Hp. revert after. induction Hp as [|v vs Hv _ IH]; intros after; [done|]. cbn [separated]. rewrite Hv, andb_false_r. apply IH. Qed.

(** A text of the grammar, with or without a byte order mark, is parsed into its values. *)
Lemma document_parses bom vs u d : document vs = true → content node_text false vs u → ready d → _parsingDepth d = 0 → let b := (bom_text bom ++ u) ++ [0] in
  ∃ ns b' l', document_parse (set_buffer b d) = Ok (ns, at_ b' l' (set_bom bom d)) ∧ Forall2 fits ns vs ∧ spans b' 0 (Z.of_nat (length b')) (flat_map pairs ns) (flat_map strings vs).
Proof.
  intros (Hne & Hv & Hp & Hdf & Hdep)%document_spec Hc Hd Hd0 b. destruct (document_start bom vs u d Hne Hv Hp Hc) as (p & p1 & l & s & E1 & E2 & Hs & Ho & Hp1). fold b in E1, E2, Ho. clearbody b.
  unfold document_parse. erewrite run_bind; [|reflexivity]. cbv beta iota. change (set_line 1 (set_buffer b d)) with (at_ b 1 d). run E1.
  erewrite run_bind; [|unfold lift; cbn [_charBuffer at_ set_line set_buffer]; rewrite E2; reflexivity]. cbv beta iota. erewrite run_bind; [|reflexivity]. cbv beta iota.
  set (dm := set_bom bom d). change (set_bom bom (at_ b l d)) with (at_ b l dm).
  destruct (content_first false vs s Hne Hv Hs) as (c & r & Es & Hc0).
  pose proof Ho as Ho'. rewrite Es in Ho'. run (char_at_spec b p1 c _ l dm Ho'). rewrite (proj2 (Z.eqb_neq c 0)) by done.
  run (PushDepth_spec b l dm ltac:(cbn; rewrite Hd0; apply max_depth_pos)). run (Error_spec b l (deeper dm) Hd). erewrite run_bind; [|reflexivity]. cbv beta iota. cbn [_charBuffer at_ set_line set_buffer].
  pose proof (occupies_length _ _ _ Ho) as Hlen. rewrite length_app in Hlen. cbn [length] in Hlen.
  change (s ++ [0]) with (s ++ [] ++ [0]) in Ho.
  destruct (nodes_parse vs Hv false true s (S (length b)) true [] b l (deeper dm) p1 0 []) as (fuel & ws & b1 & l1 & k1 & p2 & ns & E3 & Hws & Hs2 & Hp2 & _ & Hf & Hfits & _ & Hsp & Hk1); try done; [by apply separated_plain|by left|rewrite app_nil_r; lia|lia| |].
  { eapply Forall_impl; [exact Hdep|]. intros v Hv'. cbn in Hv' |- *. lia. }
  destruct fuel as [|fuel]; [lia|]. destruct (children_loop_stop fuel true ns b1 p2 ws l1 (deeper dm) Hws Hs2) as [l2 E4]. exists ns, b1, l2. split; [|split; [done|]].
  - erewrite run_bind; [|rewrite E3; exact E4]. cbv beta iota. by run (PopDepth_spec b1 l2 dm).
  - eapply spans_weaken; [exact Hsp|lia|]. pose proof (occupies_length _ _ _ Hs2) as Hl2. rewrite length_app in Hl2. cbn [length app] in Hl2. lia.
Qed.

Lemma Parse_prints bom vs u d : document vs = true → content node_text false vs u → _processEntities d = true → _collapseWhitespace d = false →
  ∃ d' ns, Parse (Some (bom_text bom ++ u)) d = Ok ((XML_SUCCESS, ns), d') ∧ holds d' ns vs.
Proof.
  intros Hdoc Hc Hp Hw. destruct (document_parses bom vs u (Clear d) Hdoc Hc (conj eq_refl (conj Hp Hw)) eq_refl) as (ns & b & l & E & Hfits & Hsp).
  exists (at_ b l (set_bom bom (Clear d))), ns. split; [|split; [done|exact (spans_cells _ _ _ _ _ (Z.le_refl 0) Hsp)]].
  assert (∃ c r, bom_text bom ++ u = c :: r ∧ c ≠ 0) as (c & r & Et & Hc0).
  { destruct bom; [by eexists _, _|]. apply document_spec in Hdoc as (Hne & Hv & _). by eapply content_first. }
  unfold Parse. erewrite run_bind; [|reflexivity]. cbv beta iota. rewrite Et in E |- *. rewrite (proj2 (Z.eqb_neq c 0)) by done. erewrite run_bind; [|reflexivity]. cbv beta iota.
  run E. done.
Qed.

(** What is printed of the values of a document, after the header, is a text of the grammar. *)
Lemma print_values compact bom vs : document vs = true →
  ∃ u, content node_text false vs u ∧ written (foldl (print_node false) (PushHeader bom false (mk_printer false [] true 0 (-1) true compact [])) vs) = bom_text bom ++ u.
Proof.
  intros (Hne & Hv & Hpl & _)%document_spec. set (p0 := PushHeader bom false _).
  assert (Forall (λ v, ∀ p, printer_entities p = true → 0 ≤ _depth p → (plain v = true → 0 < _depth p) → prints v p (print_node false p v)) vs) as Hpr by (apply Forall_forall; intros; by apply print_node_prints).
  destruct (prints_all_of false vs Hpr p0) with (after := false) (w := @nil Z) as (u & Hu & Hwr); try done; [by unfold p0; destruct bom|by unfold p0; destruct bom|by right|constructor|].
  rewrite app_nil_r in Hu. exists u. split; [done|]. destruct vs; [done|]. rewrite (wrote_text _ _ _ Hwr). unfold p0. by destruct bom.
Qed.

Lemma holds_print compact d nodes vs : holds d nodes vs → document vs = true → _processEntities d = true →
  ∃ nodes' p d', Print nodes (XMLPrinter_new compact 0) d = Ok ((nodes', p), d') ∧ holds d' nodes' vs ∧ ∃ u, content node_text false vs u ∧ written p = bom_text (_writeBOM d) ++ u.
Proof.
  intros [Hfits Hcells] Hdoc Hp. set (p0 := PushHeader (_writeBOM d) false (mk_printer false [] true 0 (-1) true compact [])).
  assert (Forall (λ v, ∀ n in_element p, fits n v → reads (node_accept in_element n p) (λ us r, us = pairs r.1 ∧ fits r.1 v ∧ r.2 = print_node in_element p v) (pairs n) (strings v)) vs) as Hreads
    by (apply Forall_forall; intros; by apply node_accept_reads).
  destruct (nodes_accept_reads false vs Hreads nodes p0 Hfits d [] (_charBuffer d) []) as (w & ss & [ns q] & E & Hl & (-> & Hns & Hq) & _ & Hc); [by rewrite app_nil_r|done|]. cbn [fst snd] in *. subst q.
  eexists ns, _, _. split; [|split; [|by apply print_values]].
  - unfold Print. do 2 (erewrite run_bind; [|reflexivity]; cbv beta iota). rewrite Hp. exact E.
  - split; [done|]. cbn. by rewrite app_nil_r.
Qed.
End roundtrip.
