(* ===== verification/TinySafety.v ===== *)
(** * TinySafety: parsing any text is safe, and ends

    Whatever the text, the parser stays inside the buffer and returns; when it reports success,
    the pairs of the nodes lie in the buffer, one behind the other, and stand for strings. *)

From S2P Require Import Prelude TinyText TinyClean TinyXml TinyDocs TinyPrint TinySpans TinyParse TinyRoundtrip.
#[local] Open Scope Z_scope.

(** The string at a position, which a NUL ends. *)
Definition cstr_in (b : list Z) (p : Z) (s : list Z) : Prop := occupies b p (s ++ [0]) ∧ 0 ∉ s.

Lemma cstr_in_drop b p u s : cstr_in b p (u ++ s) → cstr_in b (p + Z.of_nat (length u)) s.
Proof. intros [Ho Hn]. rewrite <- app_assoc in Ho. apply occupies_app in Ho as [_ Ho]. split; [done|]. by apply not_elem_of_app in Hn as [_ Hn]. Qed.

Lemma cstr_in_same b b' lo hi p s : same_but b b' lo hi → hi ≤ p → cstr_in b p s → cstr_in b' p s.
Proof. intros Hb Hp [Ho Hn]. split; [|done]. eapply occupies_same; [exact Hb|by right|done]. Qed.

Lemma cstr_in_le b p s : cstr_in b p s → 0 ≤ p ∧ p + Z.of_nat (length s) < Z.of_nat (length b).
Proof. intros [Ho _]. pose proof (occupies_length _ _ _ Ho) as Hl. rewrite length_app in Hl. cbn [length] in Hl. split; [by eapply occupies_nonneg|lia]. Qed.

Section safety.
Context `{TinyxmlHOk}.

(** The pairs lie between [lo] and [hi] and stand for some strings. *)
Definition spanned (b : list Z) (lo hi : Z) (ss : list StrPair) : Prop := ∃ ts, spans b lo hi ss ts.

Lemma spanned_nil b lo hi : lo ≤ hi → spanned b lo hi [].
Proof. intros Hle. exists []. by constructor. Qed.

Lemma spanned_le b lo hi ss : spanned b lo hi ss → lo ≤ hi.
Proof. intros [ts Hs]. by eapply spans_le. Qed.

Lemma spanned_weaken b lo hi lo' hi' ss : spanned b lo hi ss → lo' ≤ lo → hi ≤ hi' → spanned b lo' hi' ss.
Proof. intros [ts Hs] Hlo Hhi. exists ts. by eapply spans_weaken. Qed.

Lemma spanned_app b lo mid hi ss ss' : spanned b lo mid ss → spanned b mid hi ss' → spanned b lo hi (ss ++ ss').
Proof. intros [ts Hs] [ts' Hs']. exists (ts ++ ts'). by eapply spans_app. Qed.

Lemma spanned_same b b' lo' hi' lo hi ss : same_but b b' lo' hi' → hi ≤ lo' ∨ hi' ≤ lo → spanned b lo hi ss → spanned b' lo hi ss.
Proof. intros Hb Hout [ts Hs]. exists ts. by eapply spans_same. Qed.

Lemma spanned_cons b lo hi s ss : spanned b lo hi (s :: ss) → ∃ mid, spanned b lo mid [s] ∧ spanned b mid hi ss.
Proof.
  intros [ts Hs]. inversion Hs as [|? ? i w ? t ? ts' Hi Ho Hp Hs']; subst. exists (i + Z.of_nat (length w)). split; [|by exists ts'].
  exists [t]. eapply spans_weaken; [by apply spans_one|done|lia].
Qed.

Lemma spanned_read b lo hi s l d : spanned b lo hi [s] → ∃ s' t b', get_str s (at_ b l d) = Ok ((s', t), at_ b' l d) ∧ spanned b' lo hi [s'] ∧ same_but b b' lo hi.
Proof.
  intros [ts Hs]. inversion Hs as [|? ? i w ? t ? ts' Hi Ho Hp Hs']; subst. inversion Hs'; subst. destruct (get_str_read b i w s t l d (conj Ho Hp)) as (b' & w' & s' & E & [Ho' Hp'] & Hl & Hb).
  exists s', t, b'. split; [done|]. split; [exists [t]; rewrite <- Hl in *; eapply spans_weaken; [by apply spans_one|done|done]|]. by eapply same_but_weaken.
Qed.

(** A pair made of the text between two positions. *)
Lemma spanned_made flags nl en ws b p raw s : mode flags nl en ws → cstr_in b p (raw ++ s) → spanned b p (p + Z.of_nat (length raw) + 1) [Set_ p (p + Z.of_nat (length raw)) flags].
Proof.
  intros Hm [Ho Hn]. apply not_elem_of_app in Hn as [Hn _]. assert (∃ c u, s ++ [0] = c :: u) as (c & u & Eu) by (destruct s; by eexists _, _). rewrite <- app_assoc, Eu in Ho.
  destruct (made_pair b p raw c u flags nl en ws _ Hm eq_refl Hn Ho) as [Ho' Hp]. eexists [_]. eapply spans_weaken; [by apply spans_one|done|]. rewrite length_app. cbn [length]. lia.
Qed.

(** ** The steps of the parser on any text *)
Lemma cstr_char b p s l d : cstr_in b p s → char_at p (at_ b l d) = Ok (hd 0 s, at_ b l d).
Proof. intros [Ho _]. destruct s; by eapply char_at_spec. Qed.

Lemma cstr_skip b p s l d : cstr_in b p s → ∃ l', skip_white p (at_ b l d) = Ok (p + Z.of_nat (length (blanks s)), at_ b l' d) ∧ cstr_in b (p + Z.of_nat (length (blanks s))) (skip_blank s).
Proof.
  intros Hs. pose proof (blanks_skip s) as Es. eexists. split.
  - unfold skip_white. cbn [_charBuffer at_ set_line set_buffer]. by rewrite (SkipWhiteSpace_spec b p s (proj1 Hs)), ok_bind.
  - rewrite Es in Hs. by apply cstr_in_drop.
Qed.

Lemma cstr_starts b p s lit l d : cstr_in b p s → 0 ∉ lit → starts_with p lit (at_ b l d) = Ok (bool_decide (lit `prefix_of` s), at_ b l d).
Proof. intros [Ho _] Hl. by apply starts_with_spec. Qed.

Lemma cstr_text b tag flags start : 0 ∉ tag → tag ≠ [] → ∀ s p line fuel, cstr_in b p s → (length s < fuel)%nat →
  ∃ line', text_loop fuel b start p tag flags line = Ok (None, StrPair_new, line') ∨
  ∃ raw s', s = raw ++ tag ++ s' ∧ text_loop fuel b start p tag flags line = Ok (Some (p + Z.of_nat (length raw) + Z.of_nat (length tag)), Set_ start (p + Z.of_nat (length raw)) flags, line').
Proof.
  intros Ht Hne. induction s as [|c s IH]; intros p line [|fuel] Hs Hl; cbn [length] in Hl; try lia; cbn [text_loop]; rewrite (occupies_load _ _ _ _ (proj1 Hs)), ok_bind; [exists line; by left|].
  rewrite (proj2 (Z.eqb_neq c 0)) by (destruct Hs; set_solver). rewrite (strneq_spec b tag p (c :: s)) by apply Hs || done.
  assert ((if bool_decide (head tag = Some c) then Ok (bool_decide (tag `prefix_of` c :: s)) else Ok false) = Ok (bool_decide (tag `prefix_of` c :: s))) as ->.
  { case_bool_decide as Hh; [done|]. rewrite bool_decide_eq_false_2; [done|]. destruct tag as [|x tag]; [done|]. intros Hp%prefix_cons_inv_1. by subst x. }
  rewrite ok_bind. case_bool_decide as Hp.
  - exists line. right. destruct Hp as [s' ->]. exists [], s'. change (Z.of_nat (length [])) with 0. by rewrite Z.add_0_r.
  - destruct (IH (p + 1) (if c =? LF then line + 1 else line) fuel (cstr_in_drop b p [c] s Hs)) as (line' & [E|(raw & s' & -> & E)]); [lia|exists line'; by left|].
    exists line'. right. exists (c :: raw), s'. split; [done|]. rewrite E. by replace (p + 1 + Z.of_nat (length raw)) with (p + Z.of_nat (length (c :: raw))) by (cbn [length]; lia).
Qed.

Lemma cstr_parse_text b tag flags p s l d : 0 ∉ tag → tag ≠ [] → cstr_in b p s →
  ∃ l', parse_text p tag flags (at_ b l d) = Ok ((None, StrPair_new), at_ b l' d) ∨
  ∃ raw s', s = raw ++ tag ++ s' ∧ parse_text p tag flags (at_ b l d) = Ok ((Some (p + Z.of_nat (length raw) + Z.of_nat (length tag)), Set_ p (p + Z.of_nat (length raw)) flags), at_ b l' d).
Proof.
  intros Ht Hne Hs. pose proof (cstr_in_le _ _ _ Hs) as [Hp Hl]. unfold parse_text, ParseText. cbn [_charBuffer at_ set_line set_buffer _parseCurLineNum].
  destruct (cstr_text b tag flags p Ht Hne s p l (S (length b)) Hs) as (l' & [E|(raw & s' & Es & E)]); [lia|..]; exists l'; [left; by rewrite E|right]. exists raw, s'. split; [done|]. by rewrite E.
Qed.

Lemma cstr_name_loop b : ∀ s p fuel, cstr_in b p s → (length s < fuel)%nat → ∃ n s', s = n ++ s' ∧ IsNameChar (hd 0 s') = false ∧ name_loop fuel b p = Ok (p + Z.of_nat (length n)).
Proof.
  induction s as [|c s IH]; intros p [|fuel] Hs Hl; cbn [length] in Hl; try lia; cbn [name_loop]; rewrite (occupies_load _ _ _ _ (proj1 Hs)), ok_bind.
  - exists [], []. split; [done|]. split; [by apply special_not_name; set_solver|]. by rewrite Z.add_0_r.
  - rewrite (proj2 (Z.eqb_neq c 0)) by (destruct Hs; set_solver). cbn [negb andb]. destruct (IsNameChar c) eqn:Ec; [|exists [], (c :: s); by rewrite Z.add_0_r].
    destruct (IH (p + 1) fuel (cstr_in_drop b p [c] s Hs)) as (n & s' & -> & Hn & E); [lia|]. exists (c :: n), s'. split; [done|]. split; [done|]. rewrite E. f_equal. cbn [length]. lia.
Qed.

(** A name, if there is one, and the pair it makes. *)
Lemma cstr_parse_name b p s l d : cstr_in b p s →
  parse_name (Some p) (at_ b l d) = Ok ((None, StrPair_new), at_ b l d) ∨
  ∃ n s', s = n ++ s' ∧ n ≠ [] ∧ IsNameChar (hd 0 s') = false ∧ spanned b p (p + Z.of_nat (length n) + 1) [Set_ p (p + Z.of_nat (length n)) 0] ∧
    parse_name (Some p) (at_ b l d) = Ok ((Some (p + Z.of_nat (length n)), Set_ p (p + Z.of_nat (length n)) 0), at_ b l d).
Proof.
  intros Hs. pose proof (cstr_in_le _ _ _ Hs) as [Hp Hl]. unfold parse_name, lift, ParseName. cbn [_charBuffer at_ set_line set_buffer].
  destruct s as [|c s]; cbn [app] in *; rewrite (occupies_load _ _ _ _ (proj1 Hs)), ok_bind; [by left|]. rewrite (proj2 (Z.eqb_neq c 0)) by (destruct Hs; set_solver). cbn [orb].
  destruct (IsNameStartChar c) eqn:Ec; [right|by left]. cbn [length] in Hl. destruct (cstr_name_loop b s (p + 1) (S (length b)) (cstr_in_drop b p [c] s Hs)) as (n & s' & -> & Hn & E); [lia|].
  exists (c :: n), s'. split; [done|]. split; [done|]. split; [done|]. split; [by apply (spanned_made 0 false false false _ _ (c :: n) s' (mode_of false false false))|]. cbn [negb]. rewrite E, ok_bind.
  by replace (p + 1 + Z.of_nat (length n)) with (p + Z.of_nat (length (c :: n))) by (cbn [length]; lia).
Qed.

(** What a step that goes on consumes: the string [s'] at [p'] is what is left of [s] at [p]. *)
Definition consumed (b' : list Z) (p : Z) (s : list Z) (p' : Z) (s' : list Z) : Prop :=
  cstr_in b' p' s' ∧ p' + Z.of_nat (length s') = p + Z.of_nat (length s) ∧ (length s' < length s)%nat.

Lemma consumed_le b' p s p' s' : consumed b' p s p' s' → p < p'.
Proof. intros (_ & He & Hl). lia. Qed.

Lemma skip_length s : (length (skip_blank s) + length (blanks s) = length s)%nat.
Proof. pose proof (f_equal length (blanks_skip s)) as E. rewrite length_app in E. lia. Qed.

Lemma attribute_mode_of (entities : bool) : ∃ nl en ws, mode (if entities then ATTRIBUTE_VALUE else ATTRIBUTE_VALUE_LEAVE_ENTITIES) nl en ws.
Proof. destruct entities; rewrite ?attribute_mode, ?attribute_leave_mode; eexists _, _, _; [exact (mode_of true true false)|exact (mode_of true false false)]. Qed.

Lemma attribute_parse_safe b p s l d : cstr_in b p s → ∃ q a l', attribute_parse p (at_ b l d) = Ok ((q, a), at_ b l' d) ∧
  match q with None => True | Some p' => ∃ s' mid, consumed b p s p' s' ∧ spanned b p mid [attr_name a] ∧ spanned b mid p' [attr_value a] end.
Proof.
  intros Hs. unfold attribute_parse. destruct (cstr_parse_name b p s l d Hs) as [E|(n & s1 & -> & Hne & Hn & Hsp & E)]; run E; [by eexists None, _, l|].
  apply cstr_in_drop in Hs as Hs1. set (p1 := p + Z.of_nat (length n)) in *. run (cstr_char b p1 s1 l d Hs1). destruct (Z.eqb_spec (hd 0 s1) 0) as [|H0']; [by eexists None, _, l|].
  destruct (cstr_skip b p1 s1 l d Hs1) as (l2 & E2 & Hs2). run E2. pose proof (skip_length s1) as Hl1. set (p2 := p1 + Z.of_nat (length (blanks s1))) in *. set (s2 := skip_blank s1) in *.
  run (cstr_char b p2 s2 l2 d Hs2). destruct s2 as [|c2 s2]; [by eexists None, _, l2|]. cbn [hd]. destruct (Z.eqb_spec c2 61) as [->|]; [cbn [negb]|by eexists None, _, l2].
  apply (cstr_in_drop b p2 [61]) in Hs2. change (Z.of_nat (length [61])) with 1 in Hs2. destruct (cstr_skip b (p2 + 1) s2 l2 d Hs2) as (l3 & E3 & Hs3). run E3. pose proof (skip_length s2) as Hl2.
  set (p3 := p2 + 1 + Z.of_nat (length (blanks s2))) in *. set (s3 := skip_blank s2) in *. run (cstr_char b p3 s3 l3 d Hs3). destruct (negb (hd 0 s3 =? 34) && negb (hd 0 s3 =? 39)) eqn:Eq; [by eexists None, _, l3|].
  destruct s3 as [|c3 s3]; [done|]. cbn [hd] in *. assert (0 ∉ [c3]) as Hc3 by (destruct Hs3; set_solver). apply (cstr_in_drop b p3 [c3]) in Hs3. change (Z.of_nat (length [c3])) with 1 in Hs3.
  erewrite run_bind; [|reflexivity]. cbv beta iota. change (mk_document _ _ _ _ _ _ _ _) with (at_ b l3 d). set (flags := if _processEntities (at_ b l3 d) then _ else _). destruct (attribute_mode_of (_processEntities (at_ b l3 d))) as (nl & en & ws & Hm). fold flags in Hm.
  destruct (cstr_parse_text b [c3] flags (p3 + 1) s3 l3 d Hc3 ltac:(done) Hs3) as (l4 & [E4|(raw & s4 & -> & E4)]); run E4; [by eexists None, _, l4|]. eexists (Some _), _, l4. split; [done|].
  exists s4, (p1 + 1). split; [split; [|]|split; [done|]].
  - apply cstr_in_drop, (cstr_in_drop b _ [c3]) in Hs3. done.
  - cbn [length] in *. rewrite !length_app in *. cbn [length] in *. unfold p3, p2, p1. split; [lia|]. destruct n; [done|]. cbn [length]. lia.
  - cbn [attr_value]. eapply spanned_weaken; [by eapply spanned_made|unfold p3, p2; lia|done].
Qed.

Lemma same_but_within b b' b'' lo hi lo1 hi1 lo2 hi2 : same_but b b' lo1 hi1 → same_but b' b'' lo2 hi2 → lo ≤ lo1 → lo ≤ lo2 → hi1 ≤ hi → hi2 ≤ hi → same_but b b'' lo hi.
Proof. intros Hb1 Hb2 ????. eapply same_but_trans; eapply same_but_weaken; eauto. Qed.

Lemma Attribute_safe name l d : ∀ attrs b lo hi, spanned b lo hi (attr_pairs attrs) → ∃ b' attrs' found, Attribute attrs name (at_ b l d) = Ok ((attrs', found), at_ b' l d) ∧
  spanned b' lo hi (attr_pairs attrs') ∧ same_but b b' lo hi.
Proof.
  induction attrs as [|x attrs IH]; intros b lo hi Hs; [by exists b, [], false|]. change (attr_pairs (x :: attrs)) with (attr_name x :: attr_value x :: attr_pairs attrs) in Hs.
  apply spanned_cons in Hs as (m1 & Hn & (m2 & Hv & Hs)%spanned_cons). pose proof (spanned_le _ _ _ _ Hn). pose proof (spanned_le _ _ _ _ Hv). pose proof (spanned_le _ _ _ _ Hs).
  cbn [Attribute]. destruct (spanned_read _ _ _ _ l d Hn) as (n' & t & b1 & E1 & Hn1 & Hb1). run E1. apply (spanned_same b b1 lo m1) in Hv; [|done|lia]. apply (spanned_same b b1 lo m1) in Hs; [|done|lia].
  destruct (StringEqual t name).
  - destruct (spanned_read _ _ _ _ l d Hv) as (v' & u & b2 & E2 & Hv2 & Hb2). run E2. eexists b2, _, true. split; [reflexivity|]. split; [|by eapply (same_but_within b b1 b2); [done|done|lia..]].
    apply (spanned_app _ _ m1 _ [n']); [by eapply spanned_same; [exact Hb2|lia|]|]. apply (spanned_app _ _ m2 _ [v']); [done|]. eapply spanned_same; [exact Hb2|lia|done].
  - destruct (IH b1 m2 hi Hs) as (b2 & attrs' & found & E2 & Hs2 & Hb2). run E2. eexists b2, _, found. split; [reflexivity|]. split; [|by eapply (same_but_within b b1 b2); [done|done|lia..]].
    apply (spanned_app _ _ m1 _ [n']); [by eapply spanned_same; [exact Hb2|lia|]|]. apply (spanned_app _ _ m2 _ [attr_value x]); [|done]. eapply spanned_same; [exact Hb2|lia|done].
Qed.

(** A step that gives up has reported an error, or lets the caller report one. *)
Definition errors (d : XMLDocument) : Prop := _errorID d ≠ XML_SUCCESS.

Lemma attributes_failed (name : StrPair) attrs closing b i j l d e line : spanned b i j [name] → e ≠ XML_SUCCESS →
  ∃ name' d', ('(name, _) ← get_str name; _ ← SetError e line; (mret (None, name, closing, attrs) : method (option Z * StrPair * ClosingType * list XMLAttribute))) (at_ b l d) = Ok ((None, name', closing, attrs), d').
Proof. intros Hn He. destruct (spanned_read b i j name l d Hn) as (s' & t & b' & E & _). run E. by eexists _, _. Qed.

Lemma attributes_loop_safe line name closing i j : ∀ fuel b p s l d k hi attrs, cstr_in b p s → (length s < fuel)%nat → spanned b k hi (attr_pairs attrs) →
  hi ≤ p + 1 → (IsNameChar (hd 0 s) = true → hi ≤ p) → spanned b i j [name] → j ≤ k →
  ∃ q name' closing' attrs' d', attributes_loop fuel p line name closing attrs (at_ b l d) = Ok ((q, name', closing', attrs'), d') ∧
    match q with None => True | Some p' => ∃ s' b' l', d' = at_ b' l' d ∧ name' = name ∧ consumed b' p s p' s' ∧ same_but b b' k p' ∧ spanned b' k p' (attr_pairs attrs') end.
Proof.
  induction fuel as [|fuel IH]; intros b p s l d k hi attrs Hs Hf Hsp Hhi Hnc Hname Hj; [lia|]. cbn [attributes_loop]. pose proof (spanned_le _ _ _ _ Hsp) as Hle.
  destruct (cstr_skip b p s l d Hs) as (l1 & E1 & Hs1). run E1. pose proof (skip_length s) as Hl1. pose proof (blanks_skip s) as Es. set (p1 := p + Z.of_nat (length (blanks s))) in *. set (s1 := skip_blank s) in *.
  run (cstr_char b p1 s1 l1 d Hs1). destruct (Z.eqb_spec (hd 0 s1) 0) as [|H0'].
  { destruct (attributes_failed name attrs closing b i j l1 d XML_ERROR_PARSING_ELEMENT line Hname ltac:(done)) as (? & ? & E). by eexists None, _, _, _, _. }
  destruct s1 as [|c s1]; [done|]. cbn [hd] in *. destruct (IsNameStartChar c) eqn:Ec.
  - erewrite run_bind; [|reflexivity]. cbv beta iota zeta. destruct (attribute_parse_safe b p1 (c :: s1) l1 d Hs1) as (q & a & l2 & E2 & Hq). run E2. destruct q as [p2|].
    2: { destruct (attributes_failed name attrs closing b i j l2 d XML_ERROR_PARSING_ATTRIBUTE (_parseCurLineNum (at_ b l1 d)) Hname ltac:(done)) as (? & ? & E). by eexists None, _, _, _, _. }
    destruct Hq as (s2 & mid & (Hs2 & He2 & Hl2) & Han & Hav). pose proof (spanned_le _ _ _ _ Han). pose proof (spanned_le _ _ _ _ Hav).
    assert (hi ≤ p1) as Hhi1.
    { unfold p1. destruct (blanks s) as [|w ws]; [|cbn [length]; lia]. change (Z.of_nat (length [])) with 0. rewrite Z.add_0_r. apply Hnc. cbn [app] in Es. rewrite Es. by apply name_start_char. }
    destruct (spanned_read _ _ _ _ l2 d Han) as (n' & t & b1 & E3 & Hn1 & Hb1). run E3. apply (spanned_same b b1 p1 mid) in Hsp; [|done|lia]. apply (spanned_same b b1 p1 mid) in Hav; [|done|lia]. apply (spanned_same b b1 p1 mid) in Hname; [|done|lia].
    destruct (Attribute_safe t l2 d attrs b1 k hi Hsp) as (b2 & attrs2 & found & E4 & Hsp2 & Hb2). run E4. apply (spanned_same b1 b2 k hi) in Hname; [|done|lia]. destruct found.
    { destruct (attributes_failed name attrs2 closing b2 i j l2 d XML_ERROR_PARSING_ATTRIBUTE (_parseCurLineNum (at_ b l1 d)) Hname ltac:(done)) as (? & ? & E). by eexists None, _, _, _, _. }
    apply (spanned_same b1 b2 k hi) in Hn1; [|done|lia]. apply (spanned_same b1 b2 k hi) in Hav; [|done|lia]. apply (cstr_in_same b b1 p1 mid) in Hs2; [|done|lia]. apply (cstr_in_same b1 b2 k hi) in Hs2; [|done|lia].
    destruct (IH b2 p2 s2 l2 d k p2 (attrs2 ++ [mk_attribute n' (attr_value a)])) as (q & name' & cl & attrs' & d' & E5 & Hq); try done; [lia| |lia|].
    { unfold attr_pairs. rewrite flat_map_app. apply (spanned_app _ _ p1); [by eapply spanned_weaken|]. by apply (spanned_app _ _ mid _ [n']). }
    exists q, name', cl, attrs', d'. split; [done|]. destruct q as [p'|]; [|done]. destruct Hq as (s' & b' & l' & -> & -> & (Hs' & He' & Hl') & Hb' & Hsp'). exists s', b', l'. cbn [length] in *.
    split; [done|]. split; [done|]. split; [split; [done|lia]|]. split; [|done]. eapply (same_but_within b b2); [eapply (same_but_within b b1 b2 k p2); [exact Hb1|exact Hb2|lia..]|exact Hb'|lia..].
  - destruct (Z.eqb_spec c 62) as [->|Hc].
    { eexists (Some _), _, _, _, _. split; [reflexivity|]. exists s1, b, l1. apply (cstr_in_drop b p1 [62]) in Hs1. cbn [length] in *. split; [done|]. split; [done|].
      split; [split; [done|unfold p1; lia]|]. split; [done|]. eapply spanned_weaken; [exact Hsp|lia|unfold p1; lia]. }
    destruct (Z.eqb_spec c 47) as [->|]; cbn [andb]; [|erewrite run_bind; [|reflexivity]; by eexists None, _, _, _, _].
    apply (cstr_in_drop b p1 [47]) in Hs1. change (Z.of_nat (length [47])) with 1 in Hs1. run (cstr_char b (p1 + 1) s1 l1 d Hs1). destruct s1 as [|c1 s2]; [by eexists None, _, _, _, _|]. cbn [hd].
    destruct (Z.eqb_spec c1 62) as [->|]; [|by eexists None, _, _, _, _]. apply (cstr_in_drop b (p1 + 1) [62]) in Hs1.
    eexists (Some _), _, _, _, _. split; [reflexivity|]. replace (p1 + 1 + Z.of_nat (length [62])) with (p1 + 2) in Hs1 by (cbn [length]; lia). exists s2, b, l1. cbn [length] in *. split; [done|]. split; [done|].
    split; [split; [done|unfold p1; lia]|]. split; [done|]. eapply spanned_weaken; [exact Hsp|lia|unfold p1; lia].
Qed.

(** ** Nodes *)
Lemma cstr_value b p tag flags e line s l d : 0 ∉ tag → tag ≠ [] → cstr_in b p s →
  (∃ d', value_parse p tag flags e line (at_ b l d) = Ok ((None, StrPair_new), d')) ∨
  ∃ raw s' l', s = raw ++ tag ++ s' ∧ value_parse p tag flags e line (at_ b l d) = Ok ((Some (p + Z.of_nat (length raw) + Z.of_nat (length tag)), Set_ p (p + Z.of_nat (length raw)) flags), at_ b l' d).
Proof.
  intros Ht Hne Hs. unfold value_parse. destruct (cstr_parse_text b tag flags p s l d Ht Hne Hs) as (l' & [E|(raw & s' & Es & E)]).
  - left. run E. by eexists.
  - right. exists raw, s', l'. split; [done|]. by run E.
Qed.

(** What [Identify] finds at a string. *)
Lemma Identify_safe b p s l d : cstr_in b p s →
  (∃ q l', Identify p (at_ b l d) = Ok ((q, None), at_ b l' d)) ∨
  (∃ line, hd 0 s ≠ 60 ∧ Identify p (at_ b l d) = Ok ((p, Some (XMLText line StrPair_new false)), at_ b l d)) ∨
  ∃ v line p' s' l', plain v = false ∧ Identify p (at_ b l d) = Ok ((p', Some (node_of v line)), at_ b l' d) ∧ consumed b p s p' s'.
Proof.
  intros Hs. unfold Identify. erewrite run_bind; [|reflexivity]. cbv beta iota. destruct (cstr_skip b p s l d Hs) as (l1 & E1 & Hs1). run E1. pose proof (skip_length s) as Hl1. pose proof (blanks_skip s) as Es.
  set (p1 := p + Z.of_nat (length (blanks s))) in *. set (s1 := skip_blank s) in *. run (cstr_char b p1 s1 l1 d Hs1). destruct (Z.eqb_spec (hd 0 s1) 0) as [|H0']; [left; by eexists _, l1|]. right.
  erewrite run_bind; [|reflexivity]. cbv beta iota. change (_parseCurLineNum (at_ b l1 d)) with l1.
  assert (∀ lit, lit ≠ [] → lit `prefix_of` s1 → ∃ s', consumed b p s (p1 + Z.of_nat (length lit)) s') as Hgo.
  { intros lit Hne [s' E]. rewrite E in Hs1. apply cstr_in_drop in Hs1. apply (f_equal length) in E. rewrite length_app in E. exists s'. split; [done|]. destruct lit; [done|]. cbn [length] in *. unfold p1. lia. }
  assert (∀ lit, 0 ∉ lit → starts_with p1 lit (at_ b l1 d) = Ok (bool_decide (lit `prefix_of` s1), at_ b l1 d)) as Hst by (intros; by apply cstr_starts).
  run (Hst xmlHeader ltac:(set_solver)). case_bool_decide as H1; [right; destruct (Hgo xmlHeader ltac:(done) H1) as [s' ?]; by exists (Declaration []), l1, (p1 + 2), s', l1|].
  run (Hst commentHeader ltac:(set_solver)). case_bool_decide as H2; [right; destruct (Hgo commentHeader ltac:(done) H2) as [s' ?]; by exists (Comment []), l1, (p1 + 4), s', l1|].
  run (Hst cdataHeader ltac:(set_solver)). case_bool_decide as H3; [right; destruct (Hgo cdataHeader ltac:(done) H3) as [s' ?]; by exists (Text [] true), l1, (p1 + 9), s', l1|].
  run (Hst dtdHeader ltac:(set_solver)). case_bool_decide as H4; [right; destruct (Hgo dtdHeader ltac:(done) H4) as [s' ?]; by exists (Unknown []), l1, (p1 + 2), s', l1|].
  run (Hst elementHeader ltac:(set_solver)). case_bool_decide as H5; [right; destruct (Hgo elementHeader ltac:(done) H5) as [s' ?]; by exists (Element [] [] []), l1, (p1 + 1), s', l1|].
  left. exists l1. split; [|done].
  intros Hh. apply H5. destruct s as [|c s']; [done|]. cbn in Hh. subst c. unfold s1. cbn [skip_blank]. rewrite white_space. apply prefix_cons, prefix_nil.
Qed.

Lemma consumed_trans b' p s p1 s1 p' s' b : consumed b p s p1 s1 → consumed b' p1 s1 p' s' → consumed b' p s p' s'.
Proof. intros (_ & E1 & L1) (Hs & E2 & L2). split; [done|]. lia. Qed.

(** What parsing a node that starts at [p] leaves: its pairs from [k] on, and the end tag that
    its children read. *)
Definition node_left (b : list Z) (d : XMLDocument) (k p : Z) (s : list Z) (q : option Z) (node : XMLNode) (endTag : StrPair) (d' : XMLDocument) : Prop :=
  match q with
  | None => True
  | Some p' => ∃ s' b' l' m, d' = at_ b' l' d ∧ consumed b' p s p' s' ∧ same_but b b' k p' ∧ spanned b' k m (pairs node) ∧
      (m ≤ p' ∨ m ≤ p' + 1 ∧ hd 0 s' = 60) ∧ (if Empty endTag then True else spanned b' m p' [endTag]) ∧
      match node with XMLElement _ name CLOSING _ _ => Empty name = false ∧ m ≤ p' | XMLElement _ _ _ _ _ => m ≤ p' | _ => endTag = StrPair_new end
  end.

Lemma made_nonempty p (n : list Z) flags : n ≠ [] → Empty (Set_ p (p + Z.of_nat (length n)) flags) = false.
Proof. intros Hn. apply Z.eqb_neq. destruct n; [done|]. cbn [length]. lia. Qed.

Lemma text_mode_of (entities collapse : bool) : ∃ nl en ws, mode (let flags := if entities then TEXT_ELEMENT else TEXT_ELEMENT_LEAVE_ENTITIES in if collapse then Z.lor flags NEEDS_WHITESPACE_COLLAPSING else flags) nl en ws.
Proof.
  destruct entities, collapse; rewrite ?text_element_mode, ?text_leave_mode; cbv zeta; rewrite ?(Z.lor_comm _ NEEDS_WHITESPACE_COLLAPSING); eexists _, _, _;
    [exact (mode_of true true true)|exact (mode_of true true false)|exact (mode_of true false true)|exact (mode_of true false false)].
Qed.

Lemma leaf_safe dp v line b p s l d k : plain v = false → (match v with Element _ _ _ => false | _ => true end) = true → cstr_in b p s → k ≤ p →
  ∃ q node endTag d', node_parse dp (node_of v line) p (at_ b l d) = Ok ((q, node, endTag), d') ∧ node_left b d k p s q node endTag d'.
Proof.
  intros Hv He Hs Hk.
  assert (∀ tag e (make : StrPair → XMLNode), 0 ∉ tag → tag ≠ [] → (∀ x, pairs (make x) = [x]) → (∀ x, match make x with XMLElement _ _ _ _ _ => False | _ => True end) →
    ∃ q node endTag d', ('(q, x) ← value_parse p tag NEEDS_NEWLINE_NORMALIZATION e line; mret (q, make x, StrPair_new)) (at_ b l d) = Ok ((q, node, endTag), d') ∧ node_left b d k p s q node endTag d') as Hgo.
  { intros tag e make Ht Hne Hpairs Hmake. destruct (cstr_value b p tag NEEDS_NEWLINE_NORMALIZATION e line s l d Ht Hne Hs) as [(d' & E)|(raw & s' & l' & -> & E)]; run E; [by eexists None, _, _, _|].
    eexists (Some _), _, _, _. split; [reflexivity|]. exists s', b, l', (p + Z.of_nat (length raw) + 1). destruct tag as [|c tag]; [done|]. split; [done|]. split; [split; [by do 2 apply cstr_in_drop|]|].
    { rewrite !length_app. cbn [length]. lia. }
    split; [done|]. rewrite Hpairs. split; [eapply spanned_weaken; [exact (spanned_made _ _ _ _ b p raw _ (mode_of true false false) Hs)|done|done]|]. split; [left; cbn [length]; lia|]. split; [done|]. specialize (Hmake (Set_ p (p + Z.of_nat (length raw)) NEEDS_NEWLINE_NORMALIZATION)).
    by destruct (make _). }
  destruct v as [t []|t|t|t|???]; try done; cbn [node_of node_parse].
  - by apply (Hgo _ _ (λ x, XMLText line x true)); [set_solver|..].
  - rewrite comment_mode. by apply (Hgo _ _ (XMLComment line)); [set_solver|..].
  - by apply (Hgo _ _ (XMLDeclaration line)); [set_solver|..].
  - by apply (Hgo _ _ (XMLUnknown line)); [set_solver|..].
Qed.

Lemma text_safe dp line b p s l d k : hd 0 s ≠ 60 → cstr_in b p s → k ≤ p →
  ∃ q node endTag d', node_parse dp (XMLText line StrPair_new false) p (at_ b l d) = Ok ((q, node, endTag), d') ∧ node_left b d k p s q node endTag d'.
Proof.
  intros Hh Hs Hk. cbn [node_parse]. set (flags := let flags := if _processEntities d then TEXT_ELEMENT else TEXT_ELEMENT_LEAVE_ENTITIES in if _collapseWhitespace d then Z.lor flags NEEDS_WHITESPACE_COLLAPSING else flags).
  assert (∃ q x d', text_parse p false line (at_ b l d) = Ok ((q, x), d') ∧ match q with None => True | Some p' => ∃ raw s' l', s = raw ++ 60 :: s' ∧ p' = p + Z.of_nat (length raw) ∧
    x = Set_ p p' flags ∧ d' = at_ b l' d end) as (q & x & d' & E & Hq).
  { unfold text_parse. do 2 (erewrite run_bind; [|reflexivity]; cbv beta iota). change (mk_document _ _ _ _ _ _ _ _) with (at_ b l d). cbn [_processEntities _collapseWhitespace at_ set_line set_buffer]. fold flags.
    destruct (cstr_value b p [60] flags XML_ERROR_PARSING_TEXT line s l d ltac:(set_solver) ltac:(done) Hs) as [(d' & E)|(raw & s' & l' & -> & E)]; run E; [by eexists None, _, _|].
    apply cstr_in_drop in Hs as Hs'. apply (cstr_in_drop b _ [60]) in Hs'. run (cstr_char b _ s' l' d Hs'). destruct (Z.eqb_spec (hd 0 s') 0); [by eexists None, _, _|]. eexists (Some _), _, _. split; [reflexivity|].
    exists raw, s', l'. split; [done|]. change (Z.of_nat (length [60])) with 1. rewrite Z.add_simpl_r. done. }
  run E. destruct q as [p'|]; [|by eexists None, _, _, _]. destruct Hq as (raw & s' & l' & -> & -> & -> & ->). eexists (Some _), _, _, _. split; [reflexivity|].
  exists (60 :: s'), b, l', (p + Z.of_nat (length raw) + 1). split; [done|]. assert (raw ≠ []) as Hne by by intros ->. split; [split; [by apply cstr_in_drop|]|].
  { rewrite length_app. destruct raw; [done|]. cbn [length]. lia. }
  split; [done|]. destruct (text_mode_of (_processEntities d) (_collapseWhitespace d)) as (nl & en & ws & Hm).
  split; [eapply spanned_weaken; [exact (spanned_made _ _ _ _ b p raw _ Hm Hs)|done|done]|]. split; [by right|]. done.
Qed.

(** What [deep] does for the children of an element. *)
Definition deep_safe (fuel : nat) : Prop := ∀ b l d p s, cstr_in b p s → (length s < fuel)%nat → ∃ q endTag ns d', deep fuel p (at_ b l d) = Ok ((q, endTag, ns), d') ∧
  match q with None => True | Some p' => ∃ s' b' l' m, d' = at_ b' l' d ∧ consumed b' p s p' s' ∧ same_but b b' p p' ∧ spanned b' p m (flat_map pairs ns) ∧ spanned b' m p' [endTag] ∧ Empty endTag = false end.

Lemma element_safe fuel line b p s l d k : deep_safe fuel → (length s ≤ fuel)%nat → cstr_in b p s → k ≤ p →
  ∃ q node endTag d', element_parse (deep fuel) p line (at_ b l d) = Ok ((q, node, endTag), d') ∧ node_left b d k p s q node endTag d'.
Proof.
  intros Hdeep Hf Hs Hk. unfold element_parse. destruct (cstr_skip b p s l d Hs) as (l1 & E1 & Hs1). run E1. pose proof (skip_length s) as Hl1. set (p1 := p + Z.of_nat (length (blanks s))) in *. set (s1 := skip_blank s) in *.
  run (cstr_char b p1 s1 l1 d Hs1).
  assert (∃ p2 s2, (if hd 0 s1 =? 47 then p1 + 1 else p1) = p2 ∧ cstr_in b p2 s2 ∧ p2 + Z.of_nat (length s2) = p1 + Z.of_nat (length s1) ∧ (length s2 ≤ length s1)%nat) as (p2 & s2 & -> & Hs2 & Hp2 & Hl2).
  { destruct s1 as [|c s1]; [by exists p1, []|]. cbn [hd]. destruct (Z.eqb_spec c 47); [|by exists p1, (c :: s1)]. exists (p1 + 1), s1. apply (cstr_in_drop b p1 [c]) in Hs1. cbn [length]. split_and!; try done; lia. }
  set (closing := if hd 0 s1 =? 47 then CLOSING else OPEN). cbv zeta.
  destruct (cstr_parse_name b p2 s2 l1 d Hs2) as [E2|(n & s3 & -> & Hne & Hn & Hsp & E2)]; run E2; [by eexists None, _, _, _|]. rewrite made_nonempty by done. set (name := Set_ p2 (p2 + Z.of_nat (length n)) 0) in *.
  apply cstr_in_drop in Hs2. set (p3 := p2 + Z.of_nat (length n)) in *. pose proof (cstr_in_le _ _ _ Hs2) as [Hp3 Hlb]. rewrite length_app in Hp2, Hl2. assert (length n ≠ 0)%nat as Hn0 by by destruct n.
  destruct (attributes_loop_safe line name closing p2 (p3 + 1) (S (length b)) b p3 s3 l1 d (p3 + 1) (p3 + 1) []) as (q & name' & cl & attrs & d' & E3 & Hq); try done; [lia|by apply spanned_nil|by rewrite Hn|].
  erewrite run_bind; [|exact E3]. cbv beta iota. destruct q as [p4|]; [|by eexists None, _, _, _]. destruct Hq as (s4 & b4 & l4 & -> & -> & Hc4 & Hb4 & Hsp4).
  assert (consumed b4 p s p4 s4) as Hc by (destruct Hc4 as (Hs4 & He4 & Hl4); split; [done|unfold p3, p1 in *; lia]). pose proof (consumed_le _ _ _ _ _ Hc4) as Hlt. assert (p ≤ p2) as Hpp2 by (unfold p1 in *; lia).
  apply (spanned_same b b4 (p3 + 1) p4) in Hsp; [|done|lia]. pose proof (made_nonempty p2 n 0 Hne) as Hname. fold p3 name in Hname.
  run (cstr_char b4 p4 s4 l4 d (proj1 Hc4)). destruct ((hd 0 s4 =? 0) || negb (bool_decide (cl = OPEN))) eqn:Ecl.
  - eexists (Some p4), _, _, _. split; [reflexivity|]. exists s4, b4, l4, p4. split; [done|]. split; [done|]. split; [eapply same_but_weaken; [exact Hb4|lia|lia]|].
    split; [|split; [left; lia|split; [done|by destruct cl]]]. cbn [pairs flat_map]. rewrite app_nil_r. apply (spanned_app _ _ (p3 + 1) _ [name]); [eapply spanned_weaken; [exact Hsp|lia|lia]|exact Hsp4].
  - apply orb_false_iff in Ecl as [_ Hop%negb_false_iff%bool_decide_eq_true_1]. subst cl. pose proof (proj2 (proj2 Hc)) as Hlen. destruct (Hdeep b4 l4 d p4 s4 (proj1 Hc4)) as (q & endTag & ns & d' & E4 & Hq); [lia|]. run E4.
    eexists q, _, _, _. split; [reflexivity|]. destruct q as [p5|]; [|done]. destruct Hq as (s5 & b5 & l5 & m & -> & Hc5 & Hb5 & Hsp5 & Hend & Hem). pose proof (spanned_le _ _ _ _ Hsp5). pose proof (spanned_le _ _ _ _ Hend).
    exists s5, b5, l5, m. split; [done|]. split; [by eapply consumed_trans|]. split; [eapply (same_but_within b b4 b5); [exact Hb4|exact Hb5|lia..]|]. rewrite Hem. split; [|split; [left; lia|split; [done|lia]]].
    cbn [pairs]. apply (spanned_app _ _ (p3 + 1) _ [name]); [eapply spanned_same; [exact Hb5|lia|]; eapply spanned_weaken; [exact Hsp|lia|lia]|].
    apply (spanned_app _ _ p4); [|exact Hsp5]. eapply spanned_same; [exact Hb5|lia|exact Hsp4].
Qed.

Lemma mismatched_safe b d l node endTag k m p' : spanned b k m (pairs node) → match node with XMLElement _ _ _ _ _ => m ≤ p' | _ => True end → (if Empty endTag then True else spanned b m p' [endTag]) →
  ∃ node' (mismatch : bool) b', mismatched node endTag (at_ b l d) = Ok ((node', mismatch), at_ b' l d) ∧ spanned b' k m (pairs node') ∧ same_but b b' k p' ∧ line_of node' = line_of node.
Proof.
  intros Hsp Hm Hend. assert (∀ mm : bool, ∃ node' (mismatch : bool) b', Ok ((node, mm), at_ b l d) = Ok ((node', mismatch), at_ b' l d) ∧ spanned b' k m (pairs node') ∧ same_but b b' k p' ∧ line_of node' = line_of node) as Hsame by (intros mm; by exists node, mm, b).
  destruct node as [| | | |line name closing attrs children]; try by apply Hsame. cbn [mismatched]. destruct (Empty endTag); [apply Hsame|]. destruct (negb (bool_decide (closing = OPEN))); [apply Hsame|].
  destruct (spanned_read b m p' endTag l d Hend) as (e' & t & b1 & E1 & _ & Hb1). run E1. pose proof (spanned_le _ _ _ _ Hsp). pose proof (spanned_le _ _ _ _ Hend). cbn [pairs] in Hsp. apply (spanned_same b b1 m p') in Hsp; [|done|lia].
  apply spanned_cons in Hsp as (j & Hn & Hsp). pose proof (spanned_le _ _ _ _ Hn). pose proof (spanned_le _ _ _ _ Hsp). destruct (spanned_read b1 k j name l d Hn) as (n' & u & b2 & E2 & Hn2 & Hb2). run E2.
  eexists _, _, b2. split; [reflexivity|]. split; [|split; [|done]]; [|eapply (same_but_within b b1 b2); [done|done|lia..]].
  cbn [pairs]. apply (spanned_app _ _ j _ [n']); [done|]. eapply spanned_same; [exact Hb2|lia|exact Hsp].
Qed.

Lemma value_for_message_safe b d l node k m : spanned b k m (pairs node) → ∃ b', value_for_message node (at_ b l d) = Ok ((), at_ b' l d).
Proof.
  intros Hs. assert (∃ x xs, pairs node = x :: xs ∧ value_for_message node = (_ ← get_str x; mret ())) as (x & xs & Ex & ->) by (destruct node; by eexists _, _).
  rewrite Ex in Hs. apply spanned_cons in Hs as (j & Hx & _). destruct (spanned_read b k j x l d Hx) as (x' & t & b' & E & _). exists b'. by run E.
Qed.

(** The siblings of a level: their pairs from [k] on, and for the parent its end tag. *)
Definition siblings_left (doc : bool) (d : XMLDocument) (b : list Z) (k p : Z) (s : list Z) (q : option Z) (endTag : StrPair) (ns : list XMLNode) (d' : XMLDocument) : Prop :=
  (q = None ∧ errors d') ∨ ∃ b' l' m, d' = at_ b' l' d ∧ spanned b' k m (flat_map pairs ns) ∧ m ≤ Z.of_nat (length b') ∧ same_but b b' k (Z.of_nat (length b')) ∧
    match q with None => True | Some p' => ∃ s', consumed b' p s p' s' ∧ same_but b b' k p' ∧ (doc = false → spanned b' m p' [endTag] ∧ Empty endTag = false) end.

Definition children_safe (fuel : nat) : Prop := ∀ doc siblings b l d p s k, cstr_in b p s → (length s < fuel)%nat → 0 ≤ k → k ≤ p ∨ k ≤ p + 1 ∧ hd 0 s = 60 →
  ∃ q endTag ns d', children_loop fuel doc siblings (Some p) (at_ b l d) = Ok ((q, endTag, siblings ++ ns), d') ∧ siblings_left doc d b k p s q endTag ns d'.

Lemma children_deep fuel : children_safe fuel → deep_safe fuel.
Proof.
  intros Hch b l d p s Hs Hf. unfold deep. destruct (decide (_parsingDepth d + 1 = TINYXML2_MAX_ELEMENT_DEPTH)) as [Hm|Hm].
  - eexists None, _, _, _. split; [|done]. unfold PushDepth. erewrite run_bind; [|do 2 (erewrite run_bind; [|reflexivity]; cbv beta iota); cbn [_parsingDepth at_ set_line set_buffer]; rewrite Hm, Z.eqb_refl; reflexivity].
    cbv beta iota. erewrite run_bind; [|reflexivity]. cbv beta iota. reflexivity.
  - assert (PushDepth (at_ b l d) = Ok ((), at_ b l (deeper d))) as E1.
    { unfold PushDepth. do 2 (erewrite run_bind; [|reflexivity]; cbv beta iota). cbn [_parsingDepth at_ set_line set_buffer]. by rewrite (proj2 (Z.eqb_neq _ _)). }
    run E1. erewrite run_bind; [|reflexivity]. cbv beta iota. change (mk_document _ _ _ _ _ _ _ _) with (at_ b l (deeper d)). destruct (Error (at_ b l (deeper d))); [by eexists None, _, _, _|].
    pose proof (cstr_in_le _ _ _ Hs) as [Hp _]. destruct (Hch false [] b l (deeper d) p s p Hs Hf Hp) as (q & endTag & ns & d' & E2 & Hq); [by left|]. run E2. erewrite run_bind; [|reflexivity]. cbv beta iota.
    eexists q, endTag, ns, _. split; [reflexivity|]. destruct q as [p'|]; [|done]. destruct Hq as [[? _]|(b' & l' & m & -> & Hsp & Hm' & _ & s' & Hc & Hb & Hend)]; [done|]. destruct (Hend eq_refl) as [Hend1 Hend2].
    exists s', b', l', m. split; [exact (deeper_back b' l' d)|done].
Qed.

Lemma node_left_from b d k p s p1 s1 q node endTag d' : consumed b p s p1 s1 → node_left b d k p1 s1 q node endTag d' → node_left b d k p s q node endTag d'.
Proof. intros Hc. destruct q as [p'|]; [|done]. intros (s' & b' & l' & m & -> & Hc' & Hrest). exists s', b', l', m. split; [done|]. split; [by eapply consumed_trans|done]. Qed.

Lemma stopped doc siblings b d k p s (d' : XMLDocument) : errors d' →
  ∃ q endTag ns d'', Ok ((None, StrPair_new, siblings), d') = Ok ((q, endTag, siblings ++ ns), d'') ∧ siblings_left doc d b k p s q endTag ns d''.
Proof. intros He. exists None, StrPair_new, [], d'. rewrite app_nil_r. split; [done|by left]. Qed.

Lemma ended doc siblings b l d k p s : k ≤ Z.of_nat (length b) →
  ∃ q endTag ns d', Ok ((None, StrPair_new, siblings), at_ b l d) = Ok ((q, endTag, siblings ++ ns), d') ∧ siblings_left doc d b k p s q endTag ns d'.
Proof. intros Hk. exists None, StrPair_new, [], (at_ b l d). rewrite app_nil_r. split; [done|right]. exists b, l, k. split_and!; try done. by apply spanned_nil. Qed.

(** A node has been read: what the loop makes of it. *)
Lemma step_safe fuel doc siblings b l l1 d p s k c p1 node0 q node endTag d1 : children_safe fuel → char_at p (at_ b l d) = Ok (c, at_ b l d) → c ≠ 0 → Identify p (at_ b l d) = Ok ((p1, Some node0), at_ b l1 d) →
  node_parse (deep fuel) node0 p1 (at_ b l1 d) = Ok ((q, node, endTag), d1) → node_left b d k p s q node endTag d1 → (length s ≤ fuel)%nat → 0 ≤ k →
  ∃ q endTag ns d', children_loop (S fuel) doc siblings (Some p) (at_ b l d) = Ok ((q, endTag, siblings ++ ns), d') ∧ siblings_left doc d b k p s q endTag ns d'.
Proof.
  intros Hch E1 Hc0 E2 E3 Hq Hf Hk. cbn [children_loop]. run E1. rewrite (proj2 (Z.eqb_neq c 0)) by done. run E2. cbv zeta. run E3. destruct q as [p'|].
  2: { erewrite run_bind; [|reflexivity]. cbv beta iota. destruct (Error d1) eqn:Ee; (erewrite run_bind; [|reflexivity]; cbv beta iota); apply stopped; [|done].
    unfold Error in Ee. by apply negb_true_iff, bool_decide_eq_false in Ee. }
  destruct Hq as (s' & b' & l' & m & -> & Hc & Hb & Hsp & Hm & Hend & Hnode). pose proof (consumed_le _ _ _ _ _ Hc) as Hlt. pose proof (spanned_le _ _ _ _ Hsp) as Hkm.
  destruct (value_for_message_safe b' d l' node k m Hsp) as (bv & Ev). destruct (is_declaration node && negb (well_located doc siblings)).
  { run Ev. erewrite run_bind; [|reflexivity]. cbv beta iota. by apply stopped. }
  destruct (decide (is_closing node = true)) as [Hcl|Hcl].
  { destruct node as [| | | |line name [] attrs children]; try done. destruct Hnode as [Hne Hmp]. cbn [pairs] in Hsp. apply spanned_cons in Hsp as (j & Hn & Hsp). pose proof (spanned_le _ _ _ _ Hsp). pose proof (spanned_le _ _ _ _ Hn).
    pose proof (cstr_in_le _ _ _ (proj1 Hc)) as [_ Hlb]. eexists _, _, [], _. rewrite app_nil_r. split; [reflexivity|]. right. exists b', l', k. split; [done|]. split; [by apply spanned_nil|]. split; [lia|].
    split; [eapply same_but_weaken; [exact Hb|lia|lia]|]. exists s'. split; [done|]. split; [done|]. intros ->. split; [|done]. eapply spanned_weaken; [exact Hn|lia|lia]. }
  assert (match node with XMLElement _ _ _ _ _ => m ≤ p' | _ => True end) as Hmp by (destruct node as [| | | |? ? [] ? ?]; try done; by destruct Hnode).
  destruct (mismatched_safe b' d l' node endTag k m p' Hsp Hmp Hend) as (node' & mismatch & b2 & E4 & Hsp2 & Hb2 & Hl2).
  assert (∀ (m1 : StrPair → method (option Z * StrPair * list XMLNode)) m2, (match node with XMLElement _ name CLOSING _ _ => m1 name | _ => m2 end) = m2) as -> by (intros; by destruct node as [| | | |? ? [] ? ?]).
  run E4. destruct mismatch.
  { destruct (value_for_message_safe b2 d l' node' k m Hsp2) as (b3 & Ev2). run Ev2. erewrite run_bind; [|reflexivity]. cbv beta iota. by apply stopped. }
  destruct Hc as (Hs' & He' & Hl'). pose proof (cstr_in_same _ _ _ _ _ _ Hb2 (Z.le_refl _) Hs') as Hs2. destruct (Hch doc (siblings ++ [node']) b2 l' d p' s' m Hs2) as (q & e & ns & d' & E5 & Hleft); [lia|lia|tauto|].
  exists q, e, (node' :: ns), d'. rewrite <- app_assoc in E5. split; [exact E5|]. destruct Hleft as [Herr|(b3 & l3 & m3 & -> & Hsp3 & Hm3 & Hb3 & Hq)]; [by left|right]. pose proof (spanned_le _ _ _ _ Hsp3).
  assert (same_but b b2 k p') as Hbb2 by (eapply (same_but_within b b'); [exact Hb|exact Hb2|lia..]). pose proof (cstr_in_le _ _ _ Hs2) as [_ Hlb].
  exists b3, l3, m3. split; [done|]. split; [cbn [flat_map]; apply (spanned_app _ _ m); [eapply spanned_same; [exact Hb3|lia|exact Hsp2]|exact Hsp3]|]. split; [done|].
  split; [eapply (same_but_within b b2); [exact Hbb2|exact Hb3|lia| |destruct Hb3 as [Hlen _]; lia|lia]; lia|]. destruct q as [p3|]; [|done]. destruct Hq as (s3 & Hc3 & Hb3' & Hend3). exists s3. pose proof (consumed_le _ _ _ _ _ Hc3).
  split; [destruct Hc3 as (? & ? & ?); split; [done|lia]|]. split; [eapply (same_but_within b b2); [exact Hbb2|exact Hb3'|lia..]|done].
Qed.

Lemma children_loop_safe fuel : children_safe fuel.
Proof.
  induction fuel as [|fuel IH]; intros doc siblings b l d p s k Hs Hf Hk Hkp; [lia|]. pose proof (cstr_in_le _ _ _ Hs) as [Hp Hlb]. pose proof (cstr_char b p s l d Hs) as E1.
  assert (k ≤ Z.of_nat (length b)) as Hkb by lia. destruct (decide (hd 0 s = 0)) as [Hc|Hc]; [cbn [children_loop]; run E1; rewrite Hc; by apply ended|].
  destruct (Identify_safe b p s l d Hs) as [(q & l' & E2)|[(line & Hh & E2)|(v & line & p1 & s1 & l' & Hv & E2 & Hc1)]].
  - cbn [children_loop]. run E1. rewrite (proj2 (Z.eqb_neq _ 0)) by done. run E2. by apply ended.
  - assert (k ≤ p) as Hkp' by (destruct Hkp as [?|[_ ?]]; done). destruct (text_safe (deep fuel) line b p s l d k Hh Hs Hkp') as (q & node & e & d1 & E3 & Hq). eapply step_safe; [done|exact E1|done|exact E2|exact E3|done|lia|done].
  - pose proof (consumed_le _ _ _ _ _ Hc1). assert (∃ q node e d1, node_parse (deep fuel) (node_of v line) p1 (at_ b l' d) = Ok ((q, node, e), d1) ∧ node_left b d k p1 s1 q node e d1) as (q & node & e & d1 & E3 & Hq).
    { destruct Hc1 as (Hs1 & He1 & Hl1). destruct v as [? []|?|?|?|???]; try done; [by apply leaf_safe; [..|lia]| | | |]; try (apply leaf_safe; [done|done|done|lia]). apply element_safe; [by apply children_deep|lia|done|lia]. }
    eapply step_safe; [done|exact E1|done|exact E2|exact E3|by eapply node_left_from|lia|done].
Qed.

(** ** Documents *)
Lemma node_ind' (P : XMLNode → Prop) : (∀ l s c, P (XMLText l s c)) → (∀ l s, P (XMLComment l s)) → (∀ l s, P (XMLDeclaration l s)) → (∀ l s, P (XMLUnknown l s)) →
  (∀ l s c a ns, Forall P ns → P (XMLElement l s c a ns)) → ∀ n, P n.
Proof.
  intros HT HC HD HU HE. fix IH 1. intros [l s c|l s|l s|l s|l s c a ns]; [apply HT|apply HC|apply HD|apply HU|]. apply HE. induction ns; constructor; [apply IH|done].
Qed.

Lemma attributes_shape a : ∀ ts, length ts = length (attr_pairs a) → ∃ a', length a = length a' ∧ attr_strings a' = ts.
Proof.
  induction a as [|x a IH]; intros ts Hl; [destruct ts; [by exists []|done]|]. destruct ts as [|n [|v ts]]; try done. injection Hl as Hl. destruct (IH ts Hl) as (a' & Ha & <-).
  exists ((n, v) :: a'). split; [cbn; by f_equal|done].
Qed.

Lemma nodes_shape ns : Forall (λ n, ∀ ts, length ts = length (pairs n) → ∃ v, fits n v ∧ strings v = ts) ns →
  ∀ ts, length ts = length (flat_map pairs ns) → ∃ vs, Forall2 fits ns vs ∧ flat_map strings vs = ts.
Proof.
  induction 1 as [|n ns Hn _ IH]; intros ts Hl; [destruct ts; [by exists []|done]|]. cbn [flat_map] in Hl. rewrite length_app in Hl.
  destruct (Hn (take (length (pairs n)) ts)) as (v & Hf & Ev); [rewrite length_take; lia|]. destruct (IH (drop (length (pairs n)) ts)) as (vs & Hfs & Evs); [rewrite length_drop; lia|].
  exists (v :: vs). split; [by constructor|]. cbn [flat_map]. by rewrite Ev, Evs, take_drop.
Qed.

(** A node has the form of a value with any strings. *)
Lemma node_shape n : ∀ ts, length ts = length (pairs n) → ∃ v, fits n v ∧ strings v = ts.
Proof.
  induction n as [l s c|l s|l s|l s|l s c a ns IH] using node_ind'; intros ts Hl; destruct ts as [|t ts]; try done; cbn [pairs length] in Hl; injection Hl as Hl; try (destruct ts; [|done]).
  1: by exists (Text t c); split; [constructor|].
  1: by exists (Comment t); split; [constructor|].
  1: by exists (Declaration t); split; [constructor|].
  1: by exists (Unknown t); split; [constructor|].
  rewrite length_app in Hl. change (flat_map (λ x, [attr_name x; attr_value x]) a) with (attr_pairs a) in Hl. destruct (attributes_shape a (take (length (attr_pairs a)) ts)) as (a' & Ha & Ea); [rewrite length_take; lia|].
  destruct (nodes_shape ns IH (drop (length (attr_pairs a)) ts)) as (vs & Hf & Es); [rewrite length_drop; lia|]. exists (Element t a' vs). split; [by constructor|]. cbn [strings].
  change (flat_map (λ '(x, y), [x; y]) a') with (attr_strings a'). by rewrite Ea, Es, take_drop.
Qed.

Lemma spans_length b lo hi ss ts : spans b lo hi ss ts → length ts = length ss.
Proof. induction 1 as [|? ? ? ? ? ? ? ? ? ? ? ? IH]; [done|]. cbn. by f_equal. Qed.

Lemma spanned_holds b l d ns m : spanned b 0 m (flat_map pairs ns) → ∃ vs, holds (at_ b l d) ns vs.
Proof.
  intros [ts Hs]. destruct (nodes_shape ns) with (ts := ts) as (vs & Hf & <-); [apply Forall_forall; intros; by apply node_shape|by eapply spans_length|].
  exists vs. split; [done|]. exact (spans_cells _ _ _ _ _ (Z.le_refl 0) Hs).
Qed.

Lemma document_parse_safe t d : _errorID d = XML_SUCCESS → _parsingDepth d = 0 → ∃ ns d', document_parse (set_buffer (t ++ [0]) d) = Ok (ns, d') ∧ (_errorID d' = XML_SUCCESS → ∃ vs, holds d' ns vs).
Proof.
  intros He Hd0. set (b := t ++ [0]). assert (cstr_in b 0 (c_string t)) as Hs.
  { split; [|apply c_string_nul]. destruct (c_string_split t) as [v E]. exists [], v. unfold b. rewrite E, <- app_assoc. done. }
  unfold document_parse. erewrite run_bind; [|reflexivity]. cbv beta iota. change (set_line 1 (set_buffer b d)) with (at_ b 1 d). destruct (cstr_skip b 0 _ 1 d Hs) as (l1 & E1 & Hs1). run E1.
  set (p1 := 0 + Z.of_nat (length (blanks (c_string t)))) in *. set (s1 := skip_blank (c_string t)) in *.
  assert (∃ p2 s2 bom, lift (λ d, ReadBOM (_charBuffer d) p1) (at_ b l1 d) = Ok ((p2, bom), at_ b l1 d) ∧ cstr_in b p2 s2 ∧ 0 ≤ p2) as (p2 & s2 & bom & E2 & Hs2 & Hp2).
  { pose proof (cstr_in_le _ _ _ Hs1) as [Hp1 _]. unfold lift, ReadBOM. cbn [_charBuffer at_ set_line set_buffer]. rewrite (strneq_spec b _ p1 s1 (proj1 Hs1)) by set_solver. rewrite ok_bind. case_bool_decide as Hb.
    - destruct Hb as [s2 Hb]. rewrite Hb in Hs1. apply cstr_in_drop in Hs1. eexists _, s2, true. split; [reflexivity|]. split; [done|lia].
    - by exists p1, s1, false. }
  run E2. erewrite run_bind; [|reflexivity]. cbv beta iota. set (dm := set_bom bom d). change (set_bom bom (at_ b l1 d)) with (at_ b l1 dm). run (cstr_char b p2 s2 l1 dm Hs2).
  destruct (hd 0 s2 =? 0). { erewrite run_bind; [|reflexivity]. cbv beta iota. eexists _, _. split; [reflexivity|done]. }
  run (PushDepth_spec b l1 dm ltac:(cbn; rewrite Hd0; apply max_depth_pos)).
  assert (asks Error (at_ b l1 (deeper dm)) = Ok (false, at_ b l1 (deeper dm))) as E3 by (unfold asks, Error; cbn; by rewrite He). run E3.
  erewrite run_bind; [|reflexivity]. cbv beta iota. change (length (_charBuffer (at_ b l1 (deeper dm)))) with (length b). pose proof (cstr_in_le _ _ _ Hs2) as [_ Hlb].
  destruct (children_loop_safe (S (length b)) true [] b l1 (deeper dm) p2 s2 0 Hs2) as (q & e & ns & d' & E4 & Hleft); [lia|lia|lia|]. cbn [app] in E4.
  erewrite run_bind; [|exact E4]. cbv beta iota. erewrite run_bind; [|reflexivity]. cbv beta iota. eexists ns, _. split; [reflexivity|]. destruct Hleft as [[_ Herr]|(b3 & l3 & m & -> & Hsp & _)]; [intros Hs3; by destruct Herr|].
  intros _. rewrite deeper_back. by eapply spanned_holds.
Qed.
End safety.
