(* ===== verification/TinyTheorems.v ===== *)
(** * TinyTheorems: what the document model of tinyxml2.cpp promises

    The properties of the parser and the printer, and their instances with the constants and
    inline functions of tinyxml2 8. *)

From S2P Require Import Prelude TinyText TinyClean TinyXml TinyDocs TinyPrint TinySpans TinyParse TinyRoundtrip TinySafety.
#[local] Open Scope Z_scope.

Section theorems.
Context `{TinyxmlHOk}.

(** C7. A document that is printed, compact or not, and parsed again is the same: parsing
    succeeds, and both documents hold the values that were there before. *)
Theorem xml_roundtrip compact d d2 nodes vs : holds d nodes vs → document vs = true → _processEntities d = true → _processEntities d2 = true → _collapseWhitespace d2 = false →
  ∃ nodes' p d' ns d2', Print nodes (XMLPrinter_new compact 0) d = Ok ((nodes', p), d') ∧ holds d' nodes' vs ∧ Parse (Some (written p)) d2 = Ok ((XML_SUCCESS, ns), d2') ∧ holds d2' ns vs.
Proof.
  intros Hh Hdoc Hp Hp2 Hw2. destruct (holds_print compact d nodes vs Hh Hdoc Hp) as (nodes' & p & d' & E & Hh' & u & Hu & Et).
  destruct (Parse_prints (_writeBOM d) vs u d2 Hdoc Hu Hp2 Hw2) as (d2' & ns & E2 & Hh2). rewrite <- Et in E2. by exists nodes', p, d', ns, d2'.
Qed.
(** C9. Whatever the text, parsing it stays inside the buffer and returns; a document that is
    reported to be parsed is well formed. *)
Theorem Parse_safe text d : ∃ e ns d', Parse text d = Ok ((e, ns), d') ∧ (e = XML_SUCCESS → ∃ vs, holds d' ns vs) ∧ (e ≠ XML_SUCCESS → ns = []).
Proof.
  assert (∀ d : XMLDocument, ∃ e (ns : list XMLNode) d', Ok ((XML_ERROR_EMPTY_DOCUMENT, []), d) = Ok ((e, ns), d') ∧ (e = XML_SUCCESS → ∃ vs, holds d' ns vs) ∧ (e ≠ XML_SUCCESS → ns = [])) as Hempty.
  { intros dd. by eexists _, _, _. }
  unfold Parse. erewrite run_bind; [|reflexivity]. cbv beta iota. destruct text as [[|c s]|]; [by erewrite run_bind; [apply Hempty|]| |by erewrite run_bind; [apply Hempty|]].
  destruct (c =? 0); [by erewrite run_bind; [apply Hempty|]|]. erewrite run_bind; [|reflexivity]. cbv beta iota.
  destruct (document_parse_safe (c :: s) (Clear d) eq_refl eq_refl) as (ns & d' & E & Hh). run E. erewrite run_bind; [|reflexivity]. cbv beta iota. eexists _, _, d'. split; [reflexivity|].
  case_bool_decide as He; by split.
Qed.

(** Text without line ends and ampersands is copied. *)
Lemma clean_copy raw s : 10 ∉ s → 13 ∉ s → 38 ∉ s → ∀ fuel out, (length s ≤ fuel)%nat → clean_text fuel true true raw out s = out ++ s.
Proof.
  induction s as [|c s IH]; intros H10 H13 H38 fuel out Hf; [destruct fuel; cbn; by rewrite app_nil_r|]. apply not_elem_of_cons in H10 as [? ?], H13 as [? ?], H38 as [? ?].
  destruct fuel as [|fuel]; cbn [length] in Hf; [lia|]. cbn [clean_text]. rewrite !(proj2 (Z.eqb_neq c _)) by done. cbn [andb]. rewrite IH, <- app_assoc by (done || lia). done.
Qed.

Lemma clean_unknown n raw out s : entity_ref s = None → head s ≠ Some 35 → clean_text (S n) true true raw out (38 :: s) = clean_text n true true raw (out ++ [raw !!! length out]) s.
Proof. intros He Hh. cbn [clean_text Z.eqb Pos.eqb andb]. by rewrite bool_decide_eq_false_2, He by done. Qed.

Definition ampersand_lt : list Z := [38; 108; 116; 59].

(** C39. An ampersand that starts no entity is not written when a string is cleaned up: what is read
    in its place is the character of the raw text at the position reached so far, which is the
    ampersand itself only as long as nothing has been shortened.  Behind [&lt;] it is an [l]. *)
Theorem unknown_entity_stale s : entity_ref s = None → head s ≠ Some 35 → 0 ∉ s → 10 ∉ s → 13 ∉ s → 38 ∉ s →
  (∀ x d z, ∃ b p, GetStr (x ++ ((38 :: s) ++ [d]) ++ z) (Set_ (Z.of_nat (length x)) (Z.of_nat (length x) + Z.of_nat (length (38 :: s))) TEXT_ELEMENT) = Ok (b, p, 38 :: s)) ∧
  (∀ x d z, ∃ b p, GetStr (x ++ ((ampersand_lt ++ 38 :: s) ++ [d]) ++ z) (Set_ (Z.of_nat (length x)) (Z.of_nat (length x) + Z.of_nat (length (ampersand_lt ++ 38 :: s))) TEXT_ELEMENT) =
    Ok (b, p, 60 :: 108 :: s)).
Proof.
  intros He Hh H0' H10 H13 H38. assert (mode TEXT_ELEMENT true true false) as Hm by (rewrite text_element_mode; exact (mode_of true true false)).
  assert (∀ raw t, 0 ∉ raw → text_value true true false raw = t → ∀ x d z, ∃ b p, GetStr (x ++ (raw ++ [d]) ++ z) (Set_ (Z.of_nat (length x)) (Z.of_nat (length x) + Z.of_nat (length raw)) TEXT_ELEMENT) = Ok (b, p, t)) as Hread.
  { intros raw t Hraw <- x d z. destruct (pair_at_get x (raw ++ [d]) z _ _ (pair_unread _ TEXT_ELEMENT _ _ _ raw d Hm Hraw)) as (w & p & E & _). by eexists _, _. }
  assert (0 ∉ 38 :: s ∧ 0 ∉ 60 :: 108 :: s) as [Hs1 Hs2] by (rewrite !not_elem_of_cons; done). split; apply Hread; [done| | |].
  - unfold text_value, cleaned. cbn [orb length]. rewrite clean_unknown, clean_copy by done. by apply c_string_id.
  - unfold ampersand_lt. cbn [app]. rewrite !not_elem_of_cons. done.
  - unfold text_value, cleaned. change (length (ampersand_lt ++ 38 :: s)) with (S (S (S (S (S (length s)))))). cbn [orb ampersand_lt app]. set (raw := 38 :: 108 :: 116 :: 59 :: 38 :: s).
    change (clean_text (S (S (S (S (S (length s)))))) true true raw [] raw) with (clean_text (S (S (S (S (length s))))) true true raw [60] (38 :: s)).
    rewrite clean_unknown, clean_copy by (done || lia). by apply c_string_id.
Qed.

(** ** Nesting *)
Fixpoint start_tags (name : list Z) (n : nat) : list Z := match n with O => [] | S n => [60] ++ name ++ [62] ++ start_tags name n end.

Lemma deep_exceeded fuel p b l d : _errorID d = XML_SUCCESS → _parsingDepth d + 1 = TINYXML2_MAX_ELEMENT_DEPTH →
  ∃ d', deep fuel p (at_ b l d) = Ok ((None, StrPair_new, []), d') ∧ _errorID d' = XML_ELEMENT_DEPTH_EXCEEDED.
Proof.
  intros He Hm. eexists. unfold deep. erewrite run_bind; [|unfold PushDepth; do 2 (erewrite run_bind; [|reflexivity]; cbv beta iota); cbn [_parsingDepth at_ set_line set_buffer]; rewrite Hm, Z.eqb_refl; reflexivity].
  cbv beta iota. erewrite run_bind; [|reflexivity]. cbv beta iota. split; reflexivity.
Qed.

Lemma nested_exceeded name rest : valid_name name = true → ∀ m fuel doc siblings b l d p, occupies b p (start_tags name m ++ rest ++ [0]) → _errorID d = XML_SUCCESS →
  _parsingDepth d < TINYXML2_MAX_ELEMENT_DEPTH < Z.of_nat m + _parsingDepth d → (m < fuel)%nat →
  ∃ d', children_loop fuel doc siblings (Some p) (at_ b l d) = Ok ((None, StrPair_new, siblings), d') ∧ _errorID d' = XML_ELEMENT_DEPTH_EXCEEDED.
Proof.
  intros Hn. induction m as [|m IH]; intros [|fuel] doc siblings b l d p Hs He Hd Hf; try lia. change (start_tags name (S m)) with ([60] ++ name ++ [62] ++ start_tags name m) in Hs. destruct m as [|m]; [lia|].
  set (tags := start_tags name (S m)) in *. assert (occupies b p ([] ++ (60 :: name ++ [62] ++ tags ++ rest) ++ [0])) as Hs1 by flat Hs.
  destruct (Identify_markup (Element name [] []) b p [] _ l d eq_refl Hs1) as (l1 & line & E2); [constructor|by apply element_opens|]. change (Z.of_nat (length [])) with 0 in E2. rewrite Z.add_0_r in E2. change (Z.of_nat _) with 1 in E2.
  assert (occupies b (p + 1) (name ++ ([] ≫= attribute_text) ++ tag_end false ++ (tags ++ rest) ++ [0])) as Hs2.
  { apply (occupies_app b p [60]) in Hs1 as [_ Hs1]. change (occupies b (p + 1) ((name ++ [62] ++ tags ++ rest) ++ [0])) in Hs1. rewrite <- !app_assoc in Hs1. rewrite <- app_assoc. exact Hs1. }
  destruct (start_tag name [] false (deep fuel) line (tags ++ rest) b (p + 1) l1 d ltac:(done) Hn eq_refl (NoDup_nil_2) Hs2) as (b2 & l2 & w & attrs & E3 & _ & _ & _ & Hb2). cbv zeta in E3.
  set (p2 := p + 1 + Z.of_nat (length name) + Z.of_nat (length ([] ≫= attribute_text)) + Z.of_nat (length (tag_end false))) in *.
  assert (occupies b2 p2 (tags ++ rest ++ [0])) as Hs3.
  { eapply occupies_same; [exact Hb2|right; lia|]. do 3 apply occupies_app in Hs2 as [_ Hs2]. by rewrite <- app_assoc in Hs2. }
  assert (∃ d', deep fuel p2 (at_ b2 l2 d) = Ok ((None, StrPair_new, []), d') ∧ _errorID d' = XML_ELEMENT_DEPTH_EXCEEDED) as (d' & E4 & Hd').
  { destruct (decide (_parsingDepth d + 1 = TINYXML2_MAX_ELEMENT_DEPTH)) as [Hm|Hm]; [by apply deep_exceeded|].
    destruct (IH fuel false [] b2 l2 (deeper d) p2 Hs3 He) as (d' & E & Hd'); [change (_parsingDepth (deeper d)) with (_parsingDepth d + 1); lia|lia|]. assert (_parsingDepth d + 1 < TINYXML2_MAX_ELEMENT_DEPTH) as Hlt by lia. eexists. unfold deep. run (PushDepth_spec b2 l2 d Hlt).
    assert (asks Error (at_ b2 l2 (deeper d)) = Ok (false, at_ b2 l2 (deeper d))) as E5 by (unfold asks, Error; cbn; by rewrite He).
    run E5. run E. erewrite run_bind; [|reflexivity]. cbv beta iota. split; [reflexivity|exact Hd']. }
  exists d'. split; [|done]. cbn [children_loop]. cbn [app] in Hs. run (char_at_spec b p 60 _ l d Hs). cbn [Z.eqb]. run E2.
  assert (node_parse (deep fuel) (node_of (Element name [] []) line) (p + 1) (at_ b l1 d) = Ok ((None, XMLElement line (Set_ (p + 1) (p + 1 + Z.of_nat (length name)) 0) OPEN attrs [], StrPair_new), d')) as E5.
  { cbn [node_of node_parse]. rewrite E3. run (char_at_spec b2 p2 60 _ l2 d Hs3). cbn [Z.eqb orb]. by run E4. }
  run E5. erewrite run_bind; [|reflexivity]. cbv beta iota. unfold Error. rewrite Hd'. by vm_compute.
Qed.
Lemma start_tags_length name n : (n ≤ length (start_tags name n))%nat.
Proof. induction n as [|n IH]; [done|]. cbn [start_tags]. repeat (rewrite length_app || cbn [length]). lia. Qed.

(** Elements nested as deep as [TINYXML2_MAX_ELEMENT_DEPTH] are refused, whatever follows them. *)
Theorem depth_exceeded name n rest d : valid_name name = true → TINYXML2_MAX_ELEMENT_DEPTH ≤ Z.of_nat n →
  ∃ d', Parse (Some (start_tags name n ++ rest)) d = Ok ((XML_ELEMENT_DEPTH_EXCEEDED, []), d').
Proof.
  intros Hn Hm. pose proof max_depth_pos as Hpos. destruct n as [|n]; [lia|]. set (b := (start_tags name (S n) ++ rest) ++ [0]).
  assert (occupies b 0 (start_tags name (S n) ++ rest ++ [0])) as Hs by (exists [], []; split; [unfold b; by rewrite app_nil_r, <- app_assoc|done]).
  assert (∃ s, start_tags name (S n) ++ rest = 60 :: s) as [s Es] by by eexists. pose proof Hs as Hs1. rewrite app_assoc, Es in Hs1. set (d0 := Clear d).
  assert (∃ d', document_parse (set_buffer b d0) = Ok ([], d') ∧ _errorID d' = XML_ELEMENT_DEPTH_EXCEEDED) as (d' & E & Hd').
  { unfold document_parse. erewrite run_bind; [|reflexivity]. cbv beta iota. change (set_line 1 (set_buffer b d0)) with (at_ b 1 d0). destruct (skip_none b 0 60 _ 1 d0 Hs1) as [l E1]; [by rewrite white_space|]. run E1.
    assert (lift (λ d, ReadBOM (_charBuffer d) 0) (at_ b l d0) = Ok ((0, false), at_ b l d0)) as E2.
    { unfold lift, ReadBOM. cbn [_charBuffer at_ set_line set_buffer]. rewrite (strneq_spec b _ 0 (60 :: s) Hs1) by set_solver. rewrite bool_decide_eq_false_2; [done|]. by intros ?%prefix_cons_inv_1. }
    run E2. erewrite run_bind; [|reflexivity]. cbv beta iota. set (dm := set_bom false d0). change (set_bom false (at_ b l d0)) with (at_ b l dm). run (char_at_spec b 0 60 _ l dm Hs1). cbn [Z.eqb].
    run (PushDepth_spec b l dm Hpos). assert (asks Error (at_ b l (deeper dm)) = Ok (false, at_ b l (deeper dm))) as E3 by done. run E3. erewrite run_bind; [|reflexivity]. cbv beta iota.
    pose proof (start_tags_length name (S n)) as Hl. change (length (_charBuffer (at_ b l (deeper dm)))) with (length b).
    destruct (nested_exceeded name rest Hn (S n) (S (length b)) true [] b l (deeper dm) 0 Hs eq_refl) as (d' & E4 & Hd'); [change (_parsingDepth (deeper dm)) with 1; lia|unfold b; rewrite !length_app; lia|].
    eexists. run E4. erewrite run_bind; [|reflexivity]. cbv beta iota. split; [reflexivity|exact Hd']. }
  exists d'. rewrite Es. unfold Parse. erewrite run_bind; [|reflexivity]. cbv beta iota. fold d0. cbn [Z.eqb]. erewrite run_bind; [|reflexivity]. cbv beta iota.
  assert ((60 :: s) ++ [0] = b) as -> by by rewrite <- Es. run E. erewrite run_bind; [|reflexivity]. cbv beta iota. by rewrite Hd'.
Qed.
End theorems.

(** ** An instance of the header *)
Definition is_white (c : Z) : bool := bool_decide (c ∈ [9; 10; 11; 12; 13; 32]).
Definition is_name_start (c : Z) : bool := (128 <=? c) || ((65 <=? c) && (c <=? 90)) || ((97 <=? c) && (c <=? 122)) || (c =? 58) || (c =? 95).
Definition is_name (c : Z) : bool := is_name_start c || ((48 <=? c) && (c <=? 57)) || (c =? 46) || (c =? 45).

Fixpoint skip_from (s : list Z) (p n : Z) : result (Z * Z) :=
  match s with [] => Ub | c :: s => if is_white c then skip_from s (p + 1) (if c =? 10 then n + 1 else n) else Ok (p, n) end.

#[export] Instance tinyxml2_h : TinyxmlH := {
  NEEDS_ENTITY_PROCESSING := 1; NEEDS_NEWLINE_NORMALIZATION := 2; NEEDS_WHITESPACE_COLLAPSING := 4;
  TEXT_ELEMENT := 3; TEXT_ELEMENT_LEAVE_ENTITIES := 2; ATTRIBUTE_VALUE := 3; ATTRIBUTE_VALUE_LEAVE_ENTITIES := 2; COMMENT := 2;
  NEEDS_FLUSH := 0x100; NEEDS_DELETE := 0x200; ENTITY_RANGE := 64; TINYXML2_MAX_ELEMENT_DEPTH := 100;
  IsWhiteSpace := is_white; IsNameStartChar := is_name_start; IsNameChar := is_name;
  SkipWhiteSpace b p := if p <? 0 then Ub else skip_from (drop (Z.to_nat p) b) p 0;
  StringEqual s t := bool_decide (s = t); StringEqualN := λ b p lit, strneq b p lit; CompactMode := λ m, m
}.

Lemma skip_from_spec s : ∀ p n, skip_blank s ≠ [] → skip_from s p n = Ok (p + Z.of_nat (length (blanks s)), n + newlines (blanks s)).
Proof.
  induction s as [|c s IH]; intros p n Hs; [done|]. cbn [skip_from skip_blank blanks] in *. change (IsWhiteSpace c) with (is_white c) in *. destruct (is_white c) eqn:E.
  - rewrite IH by done. cbn [length]. unfold newlines. rewrite filter_cons. destruct (Z.eqb_spec c 10); case_decide; try done; cbn [length]; do 2 f_equal; lia.
  - cbn. by rewrite !Z.add_0_r.
Qed.

#[export] Instance tinyxml2_h_ok : TinyxmlHOk.
Proof.
  split; try done.
  - exists [0; 1; 2; 8; 9]. split; [|split; [|done]]; [|repeat constructor; lia]. apply (bool_decide_unpack _). by vm_compute.
  - intros c Hc. cbn in *. unfold is_name. by rewrite Hc.
  - intros c Hc Hin. unfold special in Hin. repeat (apply elem_of_cons in Hin as [->|Hin]; [done|]). by apply not_elem_of_nil in Hin.
  - intros b p Hp Hs. cbn. rewrite (proj2 (Z.ltb_ge p 0)) by done. by rewrite skip_from_spec.
Qed.

(** ** A document *)
Definition new_document (bom : bool) : XMLDocument := mk_document [] XML_SUCCESS 0 0 0 true false bom.

Fixpoint new_node (v : xml) : XMLNode :=
  match v with
  | Text s c => XMLText 0 (SetStr s 0) c
  | Comment s => XMLComment 0 (SetStr s 0)
  | Declaration s => XMLDeclaration 0 (SetStr s 0)
  | Unknown s => XMLUnknown 0 (SetStr s 0)
  | Element n a l => XMLElement 0 (SetStr n 0) OPEN ((λ x, mk_attribute (SetStr x.1 0) (SetStr x.2 0)) <$> a) (new_node <$> l)
  end.

Lemma owned_cells ts : Forall (λ t, 0 ∉ t) ts → cells 0 [] ((λ t, SetStr t 0) <$> ts) ts.
Proof. induction 1 as [|t ts Ht _ IH]; [constructor|]. apply (cells_cons 0 [] [] _ t []); [by constructor|exact IH]. Qed.

(** <?xml?> <a k="1&quot;&amp;"> x&lt; <b/> <!--c--> <![CDATA[<]]> </a> *)
Definition demo_values : list xml :=
  [Declaration [120; 109; 108]; Element [97] [([107], [49; 34; 38])] [Text [32; 120; 60] false; Element [98] [] [Element [99] [] []]; Comment [99]; Text [60] true]; Unknown [68]].

Lemma demo_holds bom : holds (new_document bom) (new_node <$> demo_values) demo_values.
Proof. split; [repeat constructor|]. apply (owned_cells (flat_map strings demo_values)). cbn. repeat constructor; set_solver. Qed.

Definition demo_text : list Z :=
  [60; 63; 120; 109; 108; 63; 62; 10; 60; 97; 32; 107; 61; 34; 49; 38; 113; 117; 111; 116; 59; 38; 97; 109; 112; 59; 34; 62; 32; 120; 38; 108; 116; 59; 60; 98; 62; 60; 99; 47; 62] ++
  [60; 47; 98; 62; 60; 33; 45; 45; 99; 45; 45; 62; 60; 33; 91; 67; 68; 65; 84; 65; 91; 60; 93; 93; 62; 60; 47; 97; 62; 10; 10; 60; 33; 68; 62].

Example demo_printed : (r ← Print (new_node <$> demo_values) (XMLPrinter_new false 0) (new_document false); Ok (written r.1.2)) = Ok demo_text.
Proof. vm_compute. reflexivity. Qed.

(** Its text is parsed, and printed again without line breaks. *)
Example demo_parsed : ('(e, nodes, d) ← Parse (Some demo_text) (new_document true); r ← Print nodes (XMLPrinter_new true 0) d; Ok (e, length nodes, length (written r.1.2))) = Ok (XML_SUCCESS, 3%nat, 73%nat).
Proof. vm_compute. reflexivity. Qed.

(** ** Instances of the properties *)
Lemma xml_roundtrip_witness : ∃ nodes' p d' ns d2', Print (new_node <$> demo_values) (XMLPrinter_new false 0) (new_document true) = Ok ((nodes', p), d') ∧ holds d' nodes' demo_values ∧
  Parse (Some (written p)) (new_document false) = Ok ((XML_SUCCESS, ns), d2') ∧ holds d2' ns demo_values.
Proof. apply (xml_roundtrip false); [apply demo_holds|vm_compute; reflexivity|reflexivity..]. Defined.

(** A start tag that is never closed. *)
Lemma Parse_safe_witness : ∃ e ns d', Parse (Some [60; 97; 62]) (new_document false) = Ok ((e, ns), d') ∧ (e = XML_SUCCESS → ∃ vs, holds d' ns vs) ∧ (e ≠ XML_SUCCESS → ns = []).
Proof. apply Parse_safe. Defined.

Lemma unknown_entity_stale_witness : (∀ x d z, ∃ b p, GetStr (x ++ ([38; 102; 59] ++ [d]) ++ z) (Set_ (Z.of_nat (length x)) (Z.of_nat (length x) + 3) TEXT_ELEMENT) = Ok (b, p, [38; 102; 59])) ∧
  (∀ x d z, ∃ b p, GetStr (x ++ ((ampersand_lt ++ [38; 102; 59]) ++ [d]) ++ z) (Set_ (Z.of_nat (length x)) (Z.of_nat (length x) + 7) TEXT_ELEMENT) = Ok (b, p, [60; 108; 102; 59])).
Proof. apply (unknown_entity_stale [102; 59]); [reflexivity|discriminate|set_solver..]. Defined.

Lemma depth_exceeded_witness : ∃ d', Parse (Some (start_tags [97] 100 ++ [120])) (new_document false) = Ok ((XML_ELEMENT_DEPTH_EXCEEDED, []), d').
Proof. apply (depth_exceeded [97] 100); [reflexivity|vm_compute; discriminate]. Defined.
