(* ===== verification/TinyDom.v ===== *)
(** * TinyDom: the nodes of src/tinyxml2/tinyxml2.cpp in memory, and the functions that edit them

    A document and its nodes are cells of a heap, linked by the pointers to the parent, the
    first and last child and the siblings; each function reads and assigns them in the order of
    the code.  Strings and attributes are values here: that a string is cleaned up when it is
    read is TinyText's subject.  The accessors of tinyxml2.h are reads and writes of fields; the
    functions of that header that do more are the class [TinyxmlDomH].  The heap is that of the
    memory pools, which only count what they hand out. *)

From S2P Require Import Prelude TinyText TinyXml.
#[local] Open Scope Z_scope.

(** ** Memory *)
Definition null : Z := 0.

Inductive kind := DocumentKind | ElementKind | TextKind (cdata : bool) | CommentKind | DeclarationKind | UnknownKind.

#[export] Instance kind_eq_dec : EqDecision kind.
Proof. solve_decision. Defined.

Abbreviation attribute := (list Z * list Z)%type.

Record dom_node := mk_dom_node {
  _kind : kind;
  _document : Z;
  _parent : Z;
  _value : list Z;
  _firstChild : Z;
  _lastChild : Z;
  _prev : Z;
  _next : Z;
  _attributes : list attribute
}.

(** The nodes, and the nodes of each document that are in no tree: [_unlinked]. *)
Record dom := mk_dom { nodes : gmap Z dom_node; unlinked : gmap Z (list Z) }.

Definition _unlinked (h : dom) (document : Z) : list Z := default [] (unlinked h !! document).

Definition set_parent (p : Z) n := mk_dom_node (_kind n) (_document n) p (_value n) (_firstChild n) (_lastChild n) (_prev n) (_next n) (_attributes n).
Definition set_value (s : list Z) n := mk_dom_node (_kind n) (_document n) (_parent n) s (_firstChild n) (_lastChild n) (_prev n) (_next n) (_attributes n).
Definition set_first (p : Z) n := mk_dom_node (_kind n) (_document n) (_parent n) (_value n) p (_lastChild n) (_prev n) (_next n) (_attributes n).
Definition set_last (p : Z) n := mk_dom_node (_kind n) (_document n) (_parent n) (_value n) (_firstChild n) p (_prev n) (_next n) (_attributes n).
Definition set_prev (p : Z) n := mk_dom_node (_kind n) (_document n) (_parent n) (_value n) (_firstChild n) (_lastChild n) p (_next n) (_attributes n).
Definition set_next (p : Z) n := mk_dom_node (_kind n) (_document n) (_parent n) (_value n) (_firstChild n) (_lastChild n) (_prev n) p (_attributes n).
Definition set_attributes (a : list attribute) n := mk_dom_node (_kind n) (_document n) (_parent n) (_value n) (_firstChild n) (_lastChild n) (_prev n) (_next n) a.

(** Reading a field and assigning one; a pointer that is null or dangling is undefined. *)
Definition rd {A} (f : dom_node → A) (h : dom) (p : Z) : result A := n ← of_opt (nodes h !! p); Ok (f n).
Definition wr (f : dom_node → dom_node) (h : dom) (p : Z) : result dom :=
  n ← of_opt (nodes h !! p); Ok (mk_dom (<[p := f n]> (nodes h)) (unlinked h)).

(** [node->~T(); pool->Free(node)] *)
Definition Free (h : dom) (p : Z) : result dom := _ ← of_opt (nodes h !! p); Ok (mk_dom (delete p (nodes h)) (unlinked h)).

Definition is_document (k : kind) : bool := bool_decide (k = DocumentKind).
Definition is_element (k : kind) : bool := bool_decide (k = ElementKind).
Definition is_text (k : kind) : bool := match k with TextKind _ => true | _ => false end.

(** The constructor [XMLNode(doc)] *)
Definition XMLNode_new (k : kind) (doc : Z) : dom_node := mk_dom_node k doc null [] null null null null [].

Class TinyxmlDomH := {
  (** [CreateUnlinkedNode<T>(pool)] of a document: a node of that kind in new memory, which is
      added to [_unlinked] *)
  CreateUnlinkedNode : kind → Z → dom → Z * dom;
  (** [DynArray::SwapRemove(i)] *)
  SwapRemove : nat → list Z → list Z;
  (** [XMLElement::SetAttribute(name, value)] on the attributes of an element *)
  SetAttribute : list attribute → list Z → list Z → list attribute;
  (** What [XMLDocument::ShallowClone] returns *)
  document_clone : Z
}.

Section dom.
Context `{TinyxmlH} `{TinyxmlDomH}.

(** ** Links *)
Definition Unlink (h : dom) (this child : Z) : result dom :=
  first ← rd _firstChild h this;
  h ← (if child =? first then n ← rd _next h first; wr (set_first n) h this else Ok h);
  last ← rd _lastChild h this;
  h ← (if child =? last then p ← rd _prev h last; wr (set_last p) h this else Ok h);
  p ← rd _prev h child;
  h ← (if negb (p =? null) then n ← rd _next h child; wr (set_next n) h p else Ok h);
  n ← rd _next h child;
  h ← (if negb (n =? null) then p ← rd _prev h child; wr (set_prev p) h n else Ok h);
  h ← wr (set_next null) h child;
  h ← wr (set_prev null) h child;
  wr (set_parent null) h child.

Fixpoint mark_loop (node : Z) (l : list Z) (i : nat) : option nat :=
  match l with [] => None | x :: l => if node =? x then Some i else mark_loop node l (S i) end.

(** [MarkInUse] of the node's document. *)
Definition MarkInUse (h : dom) (node : Z) : result dom :=
  doc ← rd _document h node;
  Ok (match mark_loop node (_unlinked h doc) 0 with
      | Some i => mk_dom (nodes h) (<[doc := SwapRemove i (_unlinked h doc)]> (unlinked h))
      | None => h
      end).

Definition InsertChildPreamble (h : dom) (insertThis : Z) : result dom :=
  p ← rd _parent h insertThis;
  if negb (p =? null) then Unlink h p insertThis else MarkInUse h insertThis.

(** Insertions return the node, or null if it belongs to another document. *)
Definition InsertEndChild (h : dom) (this addThis : Z) : result (dom * Z) :=
  doc ← rd _document h this;
  adoc ← rd _document h addThis;
  if negb (adoc =? doc) then Ok (h, null) else
  h ← InsertChildPreamble h addThis;
  last ← rd _lastChild h this;
  h ← (if negb (last =? null) then
         h ← wr (set_next addThis) h last;
         h ← wr (set_prev last) h addThis;
         h ← wr (set_last addThis) h this;
         wr (set_next null) h addThis
       else
         h ← wr (set_last addThis) h this;
         h ← wr (set_first addThis) h this;
         h ← wr (set_prev null) h addThis;
         wr (set_next null) h addThis);
  h ← wr (set_parent this) h addThis;
  Ok (h, addThis).

Definition InsertFirstChild (h : dom) (this addThis : Z) : result (dom * Z) :=
  doc ← rd _document h this;
  adoc ← rd _document h addThis;
  if negb (adoc =? doc) then Ok (h, null) else
  h ← InsertChildPreamble h addThis;
  first ← rd _firstChild h this;
  h ← (if negb (first =? null) then
         h ← wr (set_prev addThis) h first;
         h ← wr (set_next first) h addThis;
         h ← wr (set_first addThis) h this;
         wr (set_prev null) h addThis
       else
         h ← wr (set_last addThis) h this;
         h ← wr (set_first addThis) h this;
         h ← wr (set_prev null) h addThis;
         wr (set_next null) h addThis);
  h ← wr (set_parent this) h addThis;
  Ok (h, addThis).

Definition InsertAfterChild (h : dom) (this afterThis addThis : Z) : result (dom * Z) :=
  doc ← rd _document h this;
  adoc ← rd _document h addThis;
  if negb (adoc =? doc) then Ok (h, null) else
  p ← rd _parent h afterThis;
  if negb (p =? this) then Ok (h, null) else
  if afterThis =? addThis then Ok (h, addThis) else
  n ← rd _next h afterThis;
  if n =? null then InsertEndChild h this addThis else
  h ← InsertChildPreamble h addThis;
  h ← wr (set_prev afterThis) h addThis;
  n ← rd _next h afterThis;
  h ← wr (set_next n) h addThis;
  n ← rd _next h afterThis;
  h ← wr (set_prev addThis) h n;
  h ← wr (set_next addThis) h afterThis;
  h ← wr (set_parent this) h addThis;
  Ok (h, addThis).

(** ** Deletion *)
Section delete.
Context (DeleteChildren : dom → Z → result dom).

(** The destructor [~XMLNode]; attributes, which [~XMLElement] deletes, are values. *)
Definition XMLNode_delete (h : dom) (this : Z) : result dom :=
  h ← DeleteChildren h this;
  p ← rd _parent h this;
  if negb (p =? null) then Unlink h p this else Ok h.

(** The static [XMLNode::DeleteNode]. *)
Definition static_DeleteNode (h : dom) (node : Z) : result dom :=
  if node =? null then Ok h else
  k ← rd _kind h node;
  h ← (if negb (is_document k) then MarkInUse h node else Ok h);
  h ← XMLNode_delete h node;
  Free h node.

Definition delete_child (h : dom) (this node : Z) : result dom :=
  h ← Unlink h this node;
  static_DeleteNode h node.
End delete.

Fixpoint delete_children (fuel : nat) (h : dom) (this : Z) : result dom :=
  match fuel with
  | O => OutOfFuel
  | S fuel =>
      first ← rd _firstChild h this;
      if negb (first =? null) then
        h ← delete_child (delete_children fuel) h this first;
        delete_children fuel h this
      else
        h ← wr (set_last null) h this;
        wr (set_first null) h this
  end.

(** Every round deletes a node, and so does every call nested in one. *)
Definition dom_fuel (h : dom) : nat := S (size (nodes h)).

Definition DeleteChildren (h : dom) (this : Z) : result dom := delete_children (dom_fuel h) h this.
Definition DeleteChild (h : dom) (this node : Z) : result dom := delete_child DeleteChildren h this node.

(** [XMLDocument::DeleteNode] *)
Definition DeleteNode (h : dom) (node : Z) : result dom :=
  p ← rd _parent h node;
  if negb (p =? null) then DeleteChild h p node else static_DeleteNode DeleteChildren h node.

Fixpoint unlinked_loop (fuel : nat) (h : dom) (this : Z) : result dom :=
  match fuel with
  | O => OutOfFuel
  | S fuel =>
      match _unlinked h this with
      | [] => Ok h
      | node :: _ => h ← DeleteNode h node; unlinked_loop fuel h this
      end
  end.

(** The nodes of [XMLDocument::Clear]. *)
Definition clear_nodes (h : dom) (this : Z) : result dom :=
  h ← DeleteChildren h this;
  unlinked_loop (S (length (_unlinked h this))) h this.

(** ** Values and attributes *)
Definition Value (h : dom) (this : Z) : result (option (list Z)) :=
  k ← rd _kind h this;
  if is_document k then Ok None else s ← rd _value h this; Ok (Some s).
Definition SetValue (h : dom) (this : Z) (str : list Z) : result dom := wr (set_value str) h this.

Fixpoint FindAttribute (attrs : list attribute) (name : list Z) : option attribute :=
  match attrs with [] => None | a :: attrs => if StringEqual a.1 name then Some a else FindAttribute attrs name end.

(** [Attribute(name, value)] *)
Definition attribute_text (attrs : list attribute) (name : list Z) (value : option (list Z)) : option (list Z) :=
  match FindAttribute attrs name with
  | None => None
  | Some a => match value with None => Some a.2 | Some v => if StringEqual a.2 v then Some a.2 else None end
  end.

(** The attributes, and the position of the one of that name; a new one has no value yet. *)
Fixpoint FindOrCreateAttribute (attrs : list attribute) (name : list Z) : list attribute * nat :=
  match attrs with
  | [] => ([(name, [])], O)
  | a :: attrs => if StringEqual a.1 name then (a :: attrs, O) else let '(attrs, i) := FindOrCreateAttribute attrs name in (a :: attrs, S i)
  end.

(** [XMLAttribute::SetAttribute(v)] of the attribute at a position. *)
Definition set_attribute_value (attrs : list attribute) (i : nat) (v : list Z) : list attribute := alter (λ a, (a.1, v)) i attrs.

Fixpoint DeleteAttribute (attrs : list attribute) (name : list Z) : list attribute :=
  match attrs with [] => [] | a :: attrs => if StringEqual name a.1 then attrs else a :: DeleteAttribute attrs name end.

(** ** New nodes *)
Definition new_node (h : dom) (k : kind) (doc : Z) (str : list Z) : result (dom * Z) :=
  let '(a, h) := CreateUnlinkedNode k doc h in
  h ← SetValue h a str;
  Ok (h, a).
Definition NewElement (h : dom) (doc : Z) (name : list Z) : result (dom * Z) := new_node h ElementKind doc name.
Definition NewComment (h : dom) (doc : Z) (str : list Z) : result (dom * Z) := new_node h CommentKind doc str.
Definition NewText (h : dom) (doc : Z) (str : list Z) : result (dom * Z) := new_node h (TextKind false) doc str.
(** [xml version="1.0" encoding="UTF-8"] *)
Definition default_declaration : list Z :=
  [120; 109; 108; 32; 118; 101; 114; 115; 105; 111; 110; 61; 34; 49; 46; 48; 34; 32; 101; 110; 99; 111; 100; 105; 110; 103; 61; 34; 85; 84; 70; 45; 56; 34].
Definition NewDeclaration (h : dom) (doc : Z) (str : option (list Z)) : result (dom * Z) := new_node h DeclarationKind doc (default default_declaration str).
Definition NewUnknown (h : dom) (doc : Z) (str : list Z) : result (dom * Z) := new_node h UnknownKind doc str.

Definition insert_new (h : dom) (this : Z) (create : dom → Z → result (dom * Z)) : result (dom * Z) :=
  doc ← rd _document h this;
  '(h, node) ← create h doc;
  '(h, r) ← InsertEndChild h this node;
  Ok (h, if negb (r =? null) then node else null).
Definition InsertNewChildElement (h : dom) (this : Z) (name : list Z) : result (dom * Z) := insert_new h this (λ h doc, NewElement h doc name).
Definition InsertNewComment (h : dom) (this : Z) (comment : list Z) : result (dom * Z) := insert_new h this (λ h doc, NewComment h doc comment).
Definition InsertNewText (h : dom) (this : Z) (text : list Z) : result (dom * Z) := insert_new h this (λ h doc, NewText h doc text).
Definition InsertNewDeclaration (h : dom) (this : Z) (text : option (list Z)) : result (dom * Z) := insert_new h this (λ h doc, NewDeclaration h doc text).
Definition InsertNewUnknown (h : dom) (this : Z) (text : list Z) : result (dom * Z) := insert_new h this (λ h doc, NewUnknown h doc text).

(** [FirstChild() && FirstChild()->ToText()] *)
Definition text_child (h : dom) (this : Z) : result (option Z) :=
  first ← rd _firstChild h this;
  if first =? null then Ok None else k ← rd _kind h first; Ok (if is_text k then Some first else None).
Definition GetText (h : dom) (this : Z) : result (option (list Z)) :=
  t ← text_child h this;
  match t with Some t => Value h t | None => Ok None end.
Definition SetText (h : dom) (this : Z) (inText : list Z) : result dom :=
  t ← text_child h this;
  match t with
  | Some t => SetValue h t inText
  | None =>
      doc ← rd _document h this;
      '(h, theText) ← NewText h doc inText;
      '(h, _) ← InsertFirstChild h this theText;
      Ok h
  end.

(** ** Walks over siblings *)
Definition ToElementWithName (h : dom) (this : Z) (name : option (list Z)) : result Z :=
  k ← rd _kind h this;
  if negb (is_element k) then Ok null else
  match name with
  | None => Ok this
  | Some name => s ← rd _value h this; Ok (if StringEqual s name then this else null)
  end.

(** The loop of the four functions below, over [_next] or [_prev]. *)
Fixpoint element_loop (fuel : nat) (step : dom_node → Z) (h : dom) (node : Z) (name : option (list Z)) : result Z :=
  match fuel with
  | O => OutOfFuel
  | S fuel =>
      if node =? null then Ok null else
      element ← ToElementWithName h node name;
      if negb (element =? null) then Ok element else
      node ← rd step h node;
      element_loop fuel step h node name
  end.
Definition FirstChildElement (h : dom) (this : Z) (name : option (list Z)) : result Z :=
  node ← rd _firstChild h this; element_loop (dom_fuel h) _next h node name.
Definition LastChildElement (h : dom) (this : Z) (name : option (list Z)) : result Z :=
  node ← rd _lastChild h this; element_loop (dom_fuel h) _prev h node name.
Definition NextSiblingElement (h : dom) (this : Z) (name : option (list Z)) : result Z :=
  node ← rd _next h this; element_loop (dom_fuel h) _next h node name.
Definition PreviousSiblingElement (h : dom) (this : Z) (name : option (list Z)) : result Z :=
  node ← rd _prev h this; element_loop (dom_fuel h) _prev h node name.

(** ** Copies *)
Definition clone_attributes (attrs : list attribute) : list attribute := foldl (λ l a, SetAttribute l a.1 a.2) [] attrs.

(** [ShallowClone(doc)]; a null [doc] is the node's document. *)
Definition ShallowClone (h : dom) (this doc : Z) : result (dom * Z) :=
  own ← rd _document h this;
  let doc := if doc =? null then own else doc in
  k ← rd _kind h this;
  s ← rd _value h this;
  match k with
  | DocumentKind => Ok (h, document_clone)
  | ElementKind =>
      '(h, element) ← NewElement h doc s;
      attrs ← rd _attributes h this;
      h ← wr (set_attributes (clone_attributes attrs)) h element;
      Ok (h, element)
  | TextKind cdata =>
      '(h, text) ← NewText h doc s;
      h ← wr (λ n, mk_dom_node (TextKind cdata) (_document n) (_parent n) (_value n) (_firstChild n) (_lastChild n) (_prev n) (_next n) (_attributes n)) h text;
      Ok (h, text)
  | CommentKind => NewComment h doc s
  | DeclarationKind => NewDeclaration h doc (Some s)
  | UnknownKind => NewUnknown h doc s
  end.

(** The loop of [DeepClone] over the children from [child] on. *)
Fixpoint clone_loop (fuel : nat) (h : dom) (child clone target : Z) : result dom :=
  match fuel with
  | O => OutOfFuel
  | S fuel =>
      if child =? null then Ok h else
      '(h, childClone) ← ShallowClone h child target;
      h ← (if childClone =? null then Ok h else c ← rd _firstChild h child; clone_loop fuel h c childClone target);
      '(h, _) ← InsertEndChild h clone childClone;
      child ← rd _next h child;
      clone_loop fuel h child clone target
  end.

Definition DeepClone (h : dom) (this target : Z) : result (dom * Z) :=
  '(h', clone) ← ShallowClone h this target;
  if clone =? null then Ok (h', null) else
  c ← rd _firstChild h' this;
  h' ← clone_loop (dom_fuel h) h' c clone target;
  Ok (h', clone).

(** [XMLDocument::DeepCopy] *)
Definition DeepCopy (h : dom) (this target : Z) : result dom :=
  if target =? this then Ok h else
  h ← clear_nodes h target;
  node ← rd _firstChild h this;
  clone_loop (dom_fuel h) h node target target.

(** ** Comparison *)
Fixpoint attribute_values_equal (a b : list attribute) : bool :=
  match a, b with
  | x :: a, y :: b => if StringEqual x.2 y.2 then attribute_values_equal a b else false
  | [], [] => true
  | _, _ => false
  end.

Definition ShallowEqual (h : dom) (this compare : Z) : result bool :=
  k ← rd _kind h this;
  k' ← rd _kind h compare;
  s ← rd _value h this;
  s' ← rd _value h compare;
  a ← rd _attributes h this;
  a' ← rd _attributes h compare;
  Ok (match k, k' with
      | TextKind _, TextKind _ | CommentKind, CommentKind | DeclarationKind, DeclarationKind | UnknownKind, UnknownKind => StringEqual s' s
      | ElementKind, ElementKind => StringEqual s' s && attribute_values_equal a a'
      | _, _ => false
      end).

(** ** Printing: [Accept] with a printer *)
Fixpoint accept_loop (fuel : nat) (in_element : bool) (h : dom) (node : Z) (p : XMLPrinter) : result XMLPrinter :=
  match fuel with
  | O => OutOfFuel
  | S fuel =>
      if node =? null then Ok p else
      k ← rd _kind h node;
      s ← rd _value h node;
      p ← match k with
          | DocumentKind => Ub
          | TextKind cdata => Ok (PushText s cdata p)
          | CommentKind => Ok (PushComment s p)
          | DeclarationKind => Ok (PushDeclaration s p)
          | UnknownKind => Ok (PushUnknown s p)
          | ElementKind =>
              attrs ← rd _attributes h node;
              let p := OpenElement s (if in_element then CompactMode (_compactMode p) else _compactMode p) p in
              let p := foldl (λ p a, PushAttribute a.1 a.2 p) p attrs in
              child ← rd _firstChild h node;
              p ← accept_loop fuel true h child p;
              Ok (CloseElement (CompactMode (_compactMode p)) p)
          end;
      node ← rd _next h node;
      accept_loop fuel in_element h node p
  end.

(** [XMLDocument::Accept] with a new printer, of a document with that entity mode and byte order
    mark. *)
Definition document_accept (h : dom) (this : Z) (entities bom compact : bool) : result XMLPrinter :=
  node ← rd _firstChild h this;
  accept_loop (dom_fuel h) false h node (PushHeader bom false (mk_printer false [] true 0 (-1) entities compact [])).
End dom.
