(* ===== verification/TinyLinks.v ===== *)
(** * TinyLinks: the nodes of TinyDom as a forest

    Abstractly the nodes in memory are a forest: each has a parent, or none, and a list of
    children.  [linked] says that the pointers of a heap are those of a forest, [wf] that a
    forest has no sharing and no cycles. *)

From S2P Require Import Prelude TinyText TinyXml TinyDom.
#[local] Open Scope Z_scope.

(** ** Neighbours in a list *)
Definition hd (l : list Z) : Z := default null (head l).
Definition lst (l : list Z) : Z := default null (last l).

Fixpoint after (c : Z) (l : list Z) : Z :=
  match l with [] => null | x :: l => if decide (x = c) then hd l else after c l end.
Definition before (c : Z) (l : list Z) : Z := after c (reverse l).

Lemma hd_reverse l : hd (reverse l) = lst l.
Proof. unfold hd, lst. by rewrite head_reverse. Qed.

Lemma after_app c l1 l2 : c ∉ l1 → after c (l1 ++ l2) = after c l2.
Proof. induction l1 as [|x l1 IH]; intros Hc; [done|]. apply not_elem_of_cons in Hc as [Hx Hc]. cbn. rewrite decide_False by congruence. by apply IH. Qed.

Lemma after_split c l1 l2 : c ∉ l1 → after c (l1 ++ c :: l2) = hd l2.
Proof. intros Hc. rewrite after_app by done. cbn. by rewrite decide_True. Qed.

Lemma after_none c l : c ∉ l → after c l = null.
Proof. intros Hc. rewrite <- (app_nil_r l). by rewrite after_app. Qed.

Lemma after_in c l1 l2 : c ∈ l1 → NoDup (l1 ++ l2) → after c (l1 ++ l2) = if decide (c = lst l1) then hd l2 else after c l1.
Proof.
  intros Hc Hnd. apply list_elem_of_split in Hc as (u & v & ->). assert (c ∉ u ∧ c ∉ v) as [Hu Hv].
  { apply NoDup_app in Hnd as (Hnd & _ & _). apply NoDup_app in Hnd as (_ & Hnd & Hcv). split; [intros Hin; apply (Hnd c Hin); constructor|by apply NoDup_cons in Hcv as [? _]]. }
  rewrite <- app_assoc. cbn [app]. rewrite !after_split by done. destruct v as [|w v] using rev_ind.
  - cbn. unfold lst. rewrite last_snoc. by rewrite decide_True.
  - unfold lst. rewrite (app_comm_cons v [w] c), app_assoc, last_snoc. cbn. rewrite decide_False by (intros ->; apply Hv; set_solver). by destruct v.
Qed.

(** Taking an element out of a list, or putting it in, changes its neighbours only. *)
Lemma after_middle a c l1 l2 : NoDup (l1 ++ c :: l2) → a ∈ l1 ++ l2 → null ∉ l1 ++ l2 →
  after a (l1 ++ c :: l2) = (if decide (a = lst l1) then c else after a (l1 ++ l2)) ∧
  after a (l1 ++ l2) = (if decide (a = lst l1) then hd l2 else after a (l1 ++ c :: l2)).
Proof.
  intros Hnd Ha H0. pose proof Hnd as (_ & Hd & (_ & Hnd2)%NoDup_cons)%NoDup_app.
  assert (NoDup (l1 ++ l2)) as Hnd' by (revert Hnd; rewrite <- Permutation_middle; by intros [_ ?]%NoDup_cons).
  apply elem_of_app in Ha as [Ha|Ha].
  - rewrite !after_in by done. by case_decide.
  - assert (a ∉ l1) as Hal by (intros Hin; apply (Hd a Hin); by right). rewrite !after_app by done. cbn.
    assert (c ≠ a) as Hca by (intros ->; revert Hnd; rewrite NoDup_app, NoDup_cons; naive_solver). rewrite (decide_False (P := c = a)) by done.
    assert (a ≠ lst l1) as Hl; [|by rewrite !(decide_False Hl) || by rewrite !decide_False by done].
    unfold lst. destruct (last l1) as [z|] eqn:El; cbn; [apply last_Some in El as [l' ->]; intros ->; set_solver|].
    intros ->. apply H0, elem_of_app. by right.
Qed.

Lemma before_middle a c l1 l2 : NoDup (l1 ++ c :: l2) → a ∈ l1 ++ l2 → null ∉ l1 ++ l2 →
  before a (l1 ++ c :: l2) = (if decide (a = hd l2) then c else before a (l1 ++ l2)) ∧
  before a (l1 ++ l2) = (if decide (a = hd l2) then lst l1 else before a (l1 ++ c :: l2)).
Proof.
  intros Hnd Ha H0. unfold before. rewrite !reverse_app, reverse_cons, <- app_assoc. cbn [app].
  assert (hd l2 = lst (reverse l2)) as -> by by rewrite <- hd_reverse, reverse_involutive. rewrite <- (hd_reverse l1).
  apply after_middle.
  - assert (reverse l2 ++ c :: reverse l1 ≡ₚ l1 ++ c :: l2) as -> by (rewrite !reverse_Permutation; solve_Permutation). done.
  - rewrite <- reverse_app. by apply elem_of_reverse.
  - rewrite <- reverse_app. by rewrite elem_of_reverse.
Qed.

Lemma before_split c l1 l2 : c ∉ l2 → before c (l1 ++ c :: l2) = lst l1.
Proof.
  intros Hc. unfold before. rewrite reverse_app, reverse_cons, <- app_assoc. cbn [app]. rewrite after_split, hd_reverse; [done|]. by rewrite elem_of_reverse.
Qed.

(** ** Forests *)
Record tree_node := mk_tree_node {
  t_kind : kind;
  t_doc : Z;
  t_parent : Z;
  t_value : list Z;
  t_attrs : list attribute;
  t_kids : list Z
}.

Abbreviation forest := (gmap Z tree_node).

Definition with_parent (p : Z) x := mk_tree_node (t_kind x) (t_doc x) p (t_value x) (t_attrs x) (t_kids x).
Definition with_kids (l : list Z) x := mk_tree_node (t_kind x) (t_doc x) (t_parent x) (t_value x) (t_attrs x) l.

Definition kids (f : forest) (a : Z) : list Z := match f !! a with Some x => t_kids x | None => [] end.
Definition child_of (f : forest) (c p : Z) : Prop := c ∈ kids f p.
(** [c] is [a] or a descendant of it. *)
Definition within (f : forest) : Z → Z → Prop := rtc (child_of f).

Record wf (f : forest) : Prop := {
  wf_null : f !! null = None;
  wf_kids : ∀ a c, c ∈ kids f a → ∃ y, f !! c = Some y ∧ t_parent y = a;
  wf_nodup : ∀ a, NoDup (kids f a);
  wf_parent : ∀ c y, f !! c = Some y → t_parent y ≠ null → c ∈ kids f (t_parent y);
  wf_doc : ∀ a x, f !! a = Some x → t_parent x ≠ null → ∃ y, f !! t_parent x = Some y ∧ t_doc x = t_doc y;
  wf_document : ∀ a x, f !! a = Some x → t_kind x = DocumentKind → t_parent x = null ∧ t_doc x = a;
  wf_owner : ∀ a x, f !! a = Some x → ∃ y, f !! t_doc x = Some y ∧ t_kind y = DocumentKind;
  wf_acyclic : well_founded (child_of f)
}.

(** The node of a heap that stands for one of a forest. *)
Definition concrete (f : forest) (a : Z) (x : tree_node) : dom_node :=
  mk_dom_node (t_kind x) (t_doc x) (t_parent x) (t_value x) (hd (t_kids x)) (lst (t_kids x))
    (before a (kids f (t_parent x))) (after a (kids f (t_parent x))) (t_attrs x).

Definition linked (h : dom) (f : forest) : Prop := ∀ a, nodes h !! a = concrete f a <$> (f !! a).

Lemma kids_some f a x : f !! a = Some x → kids f a = t_kids x.
Proof. unfold kids. by intros ->. Qed.

Section forest.
Context (f : forest) (Hwf : wf f).

Lemma kids_null : kids f null = [].
Proof using Hwf. unfold kids. by rewrite wf_null. Qed.

Lemma kid_not_null a : null ∉ kids f a.
Proof using Hwf. intros (y & Hy & _)%wf_kids; [|done]. by rewrite wf_null in Hy. Qed.

Lemma kid_in a c : c ∈ kids f a → is_Some (f !! a).
Proof using. unfold kids. destruct (f !! a); [by eexists|]. by intros ?%not_elem_of_nil. Qed.

Lemma parent_unique a b c : c ∈ kids f a → c ∈ kids f b → a = b.
Proof using Hwf. intros (y & Hy & Ha)%wf_kids (z & Hz & Hb)%wf_kids; [|done..]. congruence. Qed.

Lemma not_within a c : c ∈ kids f a → ¬ within f a c.
Proof using Hwf.
  revert c. induction (wf_acyclic f Hwf a) as [a _ IH]. intros c Hc [->|(x & Hx & Hxc)]%rtc_inv_r.
  - by apply (IH c Hc c).
  - apply (IH c Hc x Hxc). by eapply rtc_l.
Qed.

Lemma not_own_child a : a ∉ kids f a.
Proof using Hwf. intros Ha. by eapply not_within; [exact Ha|constructor]. Qed.

Lemma root_no_parent c y a : f !! c = Some y → t_parent y = null → c ∉ kids f a.
Proof using Hwf. intros Hy Hp Hc. pose proof (kid_in a c Hc) as [x Hx]. apply wf_kids in Hc as (z & Hz & Ha); [|done]. assert (a = null) as -> by congruence. by rewrite wf_null in Hx. Qed.
End forest.

(** ** Heaps *)
Definition adjust (g : dom_node → dom_node) (p : Z) (h : dom) : dom := mk_dom (alter g p (nodes h)) (unlinked h).

Lemma rd_some {A} (g : dom_node → A) h p n : nodes h !! p = Some n → rd g h p = Ok (g n).
Proof. unfold rd. by intros ->. Qed.

Lemma wr_some g h p n : nodes h !! p = Some n → wr g h p = Ok (adjust g p h).
Proof. intros E. unfold wr, adjust. rewrite E. cbn. f_equal. f_equal. apply map_eq. intros a. rewrite lookup_insert, lookup_alter. case_decide; [by subst; rewrite E|done]. Qed.

Lemma adjust_same g p h n : nodes h !! p = Some n → nodes (adjust g p h) !! p = Some (g n).
Proof. intros E. cbn. by rewrite lookup_alter_eq, E. Qed.

Lemma adjust_other g p q h n : p ≠ q → nodes h !! q = Some n → nodes (adjust g p h) !! q = Some n.
Proof. intros Hpq E. cbn. by rewrite lookup_alter_ne. Qed.

Lemma adjust_ne g p q h : p ≠ q → nodes (adjust g p h) !! q = nodes h !! q.
Proof. intros Hpq. cbn. by rewrite lookup_alter_ne. Qed.

Lemma wr_none g h p : nodes h !! p = None → wr g h p = Ub.
Proof. intros E. unfold wr. by rewrite E. Qed.

(** Finds a node after some assignments. *)
Ltac look := first [eassumption | eapply adjust_same; look | eapply adjust_other; [congruence|look]].
(** Runs reads, assignments and comparisons of pointers known to be equal or different. *)
Ltac heap_step := first [erewrite rd_some; [|look] | erewrite wr_some; [|look]]; rewrite ?ok_bind; cbn [_firstChild _lastChild _prev _next _parent _document _kind _value _attributes
  set_first set_last set_prev set_next set_parent set_value set_attributes].
Ltac heap_run := repeat first [heap_step | rewrite Z.eqb_refl | rewrite (proj2 (Z.eqb_neq _ _)) by congruence | rewrite ok_bind | progress cbn [negb]].
(** Compares the nodes of a heap with some assignments made with those of another, one by one. *)
Ltac by_node := intros ?a; cbn [adjust nodes]; rewrite ?lookup_alter; repeat case_decide; subst; try congruence;
  repeat match goal with E : nodes ?h !! ?p = _ |- context [nodes ?h !! ?p] => rewrite E end; cbn; try done;
  unfold set_first, set_last, set_prev, set_next, set_parent; cbn; try congruence;
  try match goal with |- context [nodes ?h !! ?p] => destruct (nodes h !! p) as [[]|]; cbn; done end.

Section links.
Context (h : dom) (f : forest) (Hl : linked h f) (Hwf : wf f).

Lemma linked_some a x : f !! a = Some x → nodes h !! a = Some (concrete f a x).
Proof using Hl. intros Hx. by rewrite (Hl a), Hx. Qed.

Lemma linked_null : nodes h !! null = None.
Proof using Hl Hwf. by rewrite (Hl null), wf_null. Qed.

(** The two neighbours of a child and the child itself are different nodes, and none is the parent. *)
Lemma kid_linked p c l1 l2 : kids f p = l1 ++ c :: l2 →
  ∃ y, f !! c = Some y ∧ t_parent y = p ∧ nodes h !! c = Some (mk_dom_node (t_kind y) (t_doc y) p (t_value y) (hd (t_kids y)) (lst (t_kids y)) (lst l1) (hd l2) (t_attrs y)).
Proof using Hl Hwf.
  intros E. destruct (wf_kids f Hwf p c) as (y & Hy & Hp); [rewrite E; set_solver|]. exists y. split_and!; try done. rewrite (linked_some c y Hy). unfold concrete. rewrite Hp, E.
  pose proof (wf_nodup f Hwf p) as Hnd. rewrite E in Hnd. apply NoDup_app in Hnd as (_ & Hd & [Hc _]%NoDup_cons). rewrite before_split, after_split; [done| |done]. intros Hin. apply (Hd c Hin). by left.
Qed.
End links.

Lemma kids_apart f p l1 c l2 : wf f → kids f p = l1 ++ c :: l2 → NoDup (p :: l1 ++ c :: l2) ∧ null ∉ p :: l1 ++ c :: l2.
Proof.
  intros Hwf E. split.
  - constructor; [rewrite <- E; by apply not_own_child|rewrite <- E; by apply wf_nodup].
  - rewrite <- E. intros [<-|Hin]%elem_of_cons; [by rewrite kids_null in E; [destruct l1|]|by eapply kid_not_null].
Qed.

(** ** Taking a node from its parent *)
Definition detach (c : Z) (f : forest) : forest :=
  match f !! c with
  | Some y => alter (with_parent null) c (alter (λ x, with_kids (filter (λ b, b ≠ c) (t_kids x)) x) (t_parent y) f)
  | None => f
  end.

Lemma filter_ne_id (c : Z) (l : list Z) : c ∉ l → filter (λ b, b ≠ c) l = l.
Proof. induction l as [|x l IH]; intros Hc; [done|]. apply not_elem_of_cons in Hc as [Hx Hc]. rewrite filter_cons_True by done. by rewrite IH. Qed.

Lemma filter_ne_split (c : Z) (l1 l2 : list Z) : NoDup (l1 ++ c :: l2) → filter (λ b, b ≠ c) (l1 ++ c :: l2) = l1 ++ l2.
Proof.
  intros (_ & Hd & [Hc _]%NoDup_cons)%NoDup_app. rewrite filter_app, filter_cons_False by naive_solver. rewrite !filter_ne_id; [done..|]. intros Hin. apply (Hd c Hin). by left.
Qed.

Lemma detach_lookup f c p y l1 l2 a : wf f → f !! c = Some y → kids f p = l1 ++ c :: l2 →
  detach c f !! a = (λ x, if decide (a = c) then with_parent null x else if decide (a = p) then with_kids (l1 ++ l2) x else x) <$> f !! a.
Proof.
  intros Hwf Hy E. destruct (kids_apart f p l1 c l2 Hwf E) as [[Hp Hnd]%NoDup_cons _]. destruct (wf_kids f Hwf p c) as (y' & Hy' & Hpar); [rewrite E; set_solver|]. assert (y' = y) as -> by congruence.
  unfold detach. rewrite Hy, Hpar, !lookup_alter. repeat case_decide; subst; try done; try (by destruct (f !! a)).
  - exfalso. apply Hp. set_solver.
  - destruct (f !! t_parent y) as [x|] eqn:Ex; [|done]. cbn. rewrite (kids_some _ _ _ Ex) in E. by rewrite E, filter_ne_split.
Qed.

Lemma detach_root f c y : wf f → f !! c = Some y → t_parent y = null → detach c f = f.
Proof.
  intros Hwf Hy Hp. unfold detach. rewrite Hy, Hp. apply map_eq. intros a. rewrite !lookup_alter. case_decide; [subst a|]; case_decide as Hn; subst; try done.
  - rewrite wf_null in Hy; done.
  - rewrite Hy. destruct y; cbn in *. by subst.
  - by rewrite wf_null.
Qed.

(** Siblings in the forest after a child is taken out. *)
Lemma detach_kids f c p y l1 l2 a : wf f → f !! c = Some y → kids f p = l1 ++ c :: l2 → kids (detach c f) a = if decide (a = p) then l1 ++ l2 else kids f a.
Proof.
  intros Hwf Hy E. unfold kids at 1. rewrite (detach_lookup f c p y l1 l2 a Hwf Hy E). unfold kids. destruct (kids_apart f p l1 c l2 Hwf E) as [[Hp _]%NoDup_cons _].
  case_decide as Hc; case_decide as Ha; subst.
  - exfalso. apply Hp. set_solver.
  - by destruct (f !! c).
  - assert (is_Some (f !! p)) as [x Hx] by (apply (kid_in f p c); rewrite E; set_solver). by rewrite Hx.
  - by destruct (f !! a).
Qed.

(** A heap whose nodes are those of [h] with the links around [c] changed. *)
Lemma linked_detach h h' f c p y l1 l2 : linked h f → wf f → f !! c = Some y → kids f p = l1 ++ c :: l2 →
  (∀ a, nodes h' !! a = (λ n, if decide (a = c) then set_parent null (set_prev null (set_next null n))
     else if decide (a = p) then set_first (hd (l1 ++ l2)) (set_last (lst (l1 ++ l2)) n)
     else set_next (if decide (a = lst l1) then hd l2 else _next n) (set_prev (if decide (a = hd l2) then lst l1 else _prev n) n)) <$> nodes h !! a) →
  linked h' (detach c f).
Proof.
  intros Hl Hwf Hy E Hh a. rewrite Hh, (Hl a), (detach_lookup f c p y l1 l2 a Hwf Hy E). destruct (f !! a) as [x|] eqn:Hx; [|done]. cbn.
  destruct (kids_apart f p l1 c l2 Hwf E) as [[Hp Hnd]%NoDup_cons [Hp0 H0]%not_elem_of_cons]. f_equal. unfold concrete.
  assert (∀ b, kids (detach c f) b = if decide (b = p) then l1 ++ l2 else kids f b) as Hk by (intros b; by apply (detach_kids f c p y)).
  destruct (decide (a = c)) as [->|Hac]; [|destruct (decide (a = p)) as [->|Hap]].
  - cbn. rewrite Hk, decide_False, kids_null by done. done.
  - cbn. rewrite Hk. rewrite decide_False; [done|]. intros Hpp. destruct (decide (t_parent x = null)) as [Hn|Hn]; [congruence|]. apply (not_own_child f Hwf p). rewrite <- Hpp at 2. by apply wf_parent.
  - cbn. rewrite Hk. assert (a ∈ l1 ++ c :: l2 → t_parent x = p) as Hin by (rewrite <- E; intros (x' & Hx' & <-)%wf_kids; [congruence|done]).
    destruct (decide (t_parent x = p)) as [Hpar|Hpar].
    + assert (a ∈ l1 ++ l2) as Ha. { pose proof (wf_parent f Hwf a x Hx) as Hin'. rewrite Hpar in Hin'. specialize (Hin' (not_eq_sym Hp0)). rewrite E in Hin'. set_solver. }
      assert (null ∉ l1 ++ l2) as H0' by set_solver. rewrite Hpar, E. rewrite (proj2 (before_middle a c l1 l2 Hnd Ha H0')), (proj2 (after_middle a c l1 l2 Hnd Ha H0')). done.
    + assert (a ∉ l1 ++ c :: l2) as Hna by naive_solver. assert (a ≠ null) as Ha0 by (intros ->; by rewrite wf_null in Hx).
      rewrite !decide_False; [done| |]; unfold hd, lst; [destruct l2; cbn; set_solver|]. destruct (last l1) as [z|] eqn:El; cbn; [apply last_Some in El as [l' ->]; set_solver|done].
Qed.

Lemma hd_in l : l ≠ [] → hd l ∈ l.
Proof. destruct l; [done|]. intros _. by left. Qed.

Lemma lst_in l : l ≠ [] → lst l ∈ l.
Proof. intros Hl. unfold lst. destruct (last l) as [z|] eqn:E; [apply last_Some in E as [l' ->]; set_solver|by apply last_None in E]. Qed.

Lemma lst_app l x l2 : lst (l ++ x :: l2) = lst (x :: l2).
Proof. unfold lst. rewrite last_app. destruct (last (x :: l2)) eqn:E; [done|by apply last_None in E]. Qed.

Lemma hd_app l x l2 : hd (l ++ x :: l2) = hd (l ++ [x]).
Proof. by destruct l. Qed.

Lemma is_first c l1 l2 : NoDup (l1 ++ c :: l2) → (c =? hd (l1 ++ c :: l2)) = bool_decide (l1 = []).
Proof.
  intros (_ & Hd & _)%NoDup_app. destruct l1 as [|u l1]; [apply Z.eqb_refl|]. rewrite bool_decide_eq_false_2 by done. apply Z.eqb_neq. intros Hc. apply (Hd c); [rewrite Hc|]; by left.
Qed.

Lemma is_last c l1 l2 : NoDup (l1 ++ c :: l2) → (c =? lst (l1 ++ c :: l2)) = bool_decide (l2 = []).
Proof.
  intros (_ & _ & [Hc _]%NoDup_cons)%NoDup_app. rewrite lst_app. destruct l2 as [|v l2]; [apply Z.eqb_refl|]. rewrite bool_decide_eq_false_2 by done. apply Z.eqb_neq. intros Hl.
  apply Hc. rewrite Hl. change (c :: v :: l2) with ([c] ++ v :: l2). rewrite lst_app. by apply lst_in.
Qed.

(** The nodes beside a child, if there are any. *)
Lemma neighbours h f p c l1 l2 : linked h f → wf f → kids f p = l1 ++ c :: l2 →
  (l1 = [] ∧ lst l1 = null ∨ ∃ n, nodes h !! lst l1 = Some n ∧ lst l1 ≠ null ∧ lst l1 ≠ c ∧ lst l1 ≠ p) ∧
  (l2 = [] ∧ hd l2 = null ∨ ∃ n, nodes h !! hd l2 = Some n ∧ hd l2 ≠ null ∧ hd l2 ≠ c ∧ hd l2 ≠ p ∧ hd l2 ≠ lst l1).
Proof.
  intros Hl Hwf E. destruct (kids_apart f p l1 c l2 Hwf E) as [[Hp Hnd]%NoDup_cons [Hp0 H0]%not_elem_of_cons]. pose proof Hnd as (_ & Hd & [Hc _]%NoDup_cons)%NoDup_app.
  assert (∀ a, a ∈ l1 ++ c :: l2 → ∃ n, nodes h !! a = Some n) as Hin.
  { intros a. rewrite <- E. intros (y & Hy & _)%wf_kids; [|done]. eexists. by apply (linked_some h f Hl a y). }
  split.
  - destruct l1 as [|u l1]; [by left|]. right. pose proof (lst_in (u :: l1) ltac:(done)) as Hu. destruct (Hin (lst (u :: l1))) as [n Hn]; [set_solver|]. exists n. split; [done|]. set (w := lst _) in *. clearbody w. specialize (Hd w Hu). set_solver.
  - destruct l2 as [|v l2]; [by left|]. right. change (hd (v :: l2)) with v. destruct (Hin v) as [n Hn]; [set_solver|]. exists n. split; [done|]. split_and!; [set_solver|set_solver|set_solver|].
    intros ->. destruct l1 as [|u l1]; [by apply H0; set_solver|]. pose proof (lst_in (u :: l1) ltac:(done)) as Hu. apply (Hd _ Hu). right. by left.
Qed.

Lemma hd_nil_inv l : hd l = null → null ∉ l → l = [].
Proof. intros Hh Hn. destruct l as [|x l]; [done|]. cbn in Hh. subst. set_solver. Qed.

Lemma set_next_same n : set_next (_next n) n = n.
Proof. by destruct n. Qed.
Lemma set_prev_same n : set_prev (_prev n) n = n.
Proof. by destruct n. Qed.

Lemma Unlink_spec h f c p y : linked h f → wf f → f !! c = Some y → c ∈ kids f p →
  ∃ h', Unlink h p c = Ok h' ∧ linked h' (detach c f) ∧ unlinked h' = unlinked h.
Proof.
  intros Hl Hwf Hy Hc. apply list_elem_of_split in Hc as (l1 & l2 & E). destruct (kid_linked h f Hl Hwf p c l1 l2 E) as (y' & Hy' & Hpar & Hnc).
  assert (is_Some (f !! p)) as [x Hx] by (apply (kid_in f p c); rewrite E; set_solver). pose proof (linked_some h f Hl p x Hx) as Hnp. pose proof (kids_some _ _ _ Hx) as Ek. unfold concrete in Hnp. rewrite <- Ek, E in Hnp.
  destruct (kids_apart f p l1 c l2 Hwf E) as [[Hp Hnd]%NoDup_cons [Hp0 H0]%not_elem_of_cons]. destruct (neighbours h f p c l1 l2 Hl Hwf E) as [Hu Hv]. assert (p ≠ c) as Hpc by set_solver.
  assert (c ≠ p) as Hcp by done.
  assert (∀ l : list Z, lst l ≠ null → l ≠ []) as Hln by (by intros l Hn ->). assert (∀ l : list Z, hd l ≠ null → l ≠ []) as Hhn by (by intros l Hn ->).
  assert (l1 ≠ [] → c ≠ hd (l1 ++ c :: l2) ∧ hd (l1 ++ c :: l2) = hd (l1 ++ l2)) as Hfirst.
  { intros Hn. split; [|by destruct l1]. apply Z.eqb_neq. rewrite is_first by done. by apply bool_decide_eq_false_2. }
  assert (l2 ≠ [] → c ≠ lst (l1 ++ c :: l2) ∧ lst (l1 ++ c :: l2) = lst (l1 ++ l2)) as Hlast.
  { intros Hn. split; [|destruct l2 as [|v l2]; [done|]; rewrite !lst_app; by apply (lst_app [c])]. apply Z.eqb_neq. rewrite is_last by done. by apply bool_decide_eq_false_2. }
  assert (∀ h', (∀ a, nodes h' !! a = (λ n, if decide (a = c) then set_parent null (set_prev null (set_next null n))
     else if decide (a = p) then set_first (hd (l1 ++ l2)) (set_last (lst (l1 ++ l2)) n)
     else set_next (if decide (a = lst l1) then hd l2 else _next n) (set_prev (if decide (a = hd l2) then lst l1 else _prev n) n)) <$> nodes h !! a) →
     unlinked h' = unlinked h → ∃ h'', Ok h' = Ok h'' ∧ linked h'' (detach c f) ∧ unlinked h'' = unlinked h) as Hend.
  { intros h' Hh' Hu'. exists h'. split_and!; try done. by apply (linked_detach h h' f c p y l1 l2). }
  pose proof (linked_null h f Hl Hwf) as Hn0. unfold Unlink. destruct Hu as [[El1 Hu]|(nu & Hnu & Hu0 & Huc & Hup)], Hv as [[El2 Hv]|(nv & Hnv & Hv0 & Hvc & Hvp & Hvu)].
  - rewrite El1 in *. rewrite El2 in *. change (hd ([] ++ [c])) with c in *. change (lst ([] ++ [c])) with c in *. heap_run. apply Hend; [|done]. by_node.
  - rewrite El1 in *. destruct (Hlast ltac:(by intros ->)) as [Hl1 Hl2]. cbn [app] in *. change (hd (c :: l2)) with c in *. heap_run. apply Hend; [|done]. by_node.
  - rewrite El2 in *. destruct (Hfirst ltac:(by intros ->)) as [Hf1 Hf2]. rewrite lst_app, (app_nil_r l1) in *. change (lst [c]) with c in *. heap_run. apply Hend; [|done]. by_node.
  - destruct (Hlast ltac:(by intros ->)) as [Hl1 Hl2]. destruct (Hfirst ltac:(by intros ->)) as [Hf1 Hf2]. heap_run. apply Hend; [|done]. by_node.
Qed.

(** Every node, after a child is taken out of whatever list it was in. *)
Lemma detach_node f c a : wf f → detach c f !! a = (λ x, (if decide (a = c) then with_parent null else id) (with_kids (filter (λ b, b ≠ c) (t_kids x)) x)) <$> f !! a.
Proof.
  intros Hwf. assert (∀ x, f !! a = Some x → (∀ y, f !! c = Some y → t_parent y ≠ a) → with_kids (filter (λ b, b ≠ c) (t_kids x)) x = x) as Hid.
  { intros x Hx Hn. destruct x as [k d q s l ks]. unfold with_kids. cbn. rewrite filter_ne_id; [done|]. change (c ∉ t_kids (mk_tree_node k d q s l ks)). rewrite <- (kids_some f a _ Hx).
    intros (y & Hy & Hp)%wf_kids; [|done]. by apply (Hn y). }
  destruct (f !! a) as [x|] eqn:Hx; unfold detach; destruct (f !! c) as [y|] eqn:Hy; rewrite ?lookup_alter; repeat (case_decide; subst); rewrite ?Hx; cbn; try done; try congruence.
  - rewrite Hid; [done|done|]. congruence.
  - rewrite Hid; [done|done|]. congruence.
  - by rewrite Hid.
Qed.

Lemma detach_some f c a x : wf f → detach c f !! a = Some x →
  ∃ x', f !! a = Some x' ∧ t_kind x = t_kind x' ∧ t_doc x = t_doc x' ∧ t_value x = t_value x' ∧ t_attrs x = t_attrs x' ∧ t_kids x = filter (λ b, b ≠ c) (t_kids x') ∧
    t_parent x = if decide (a = c) then null else t_parent x'.
Proof.
  intros Hwf. rewrite detach_node by done. destruct (f !! a) as [x'|]; [|done]. intros E. injection E as <-. exists x'. by case_decide.
Qed.

Lemma detach_dom f c a x' : wf f → f !! a = Some x' → ∃ x, detach c f !! a = Some x.
Proof.
  intros Hwf Hx'. rewrite detach_node, Hx' by done. by eexists.
Qed.

Lemma kids_detach f c a : wf f → kids (detach c f) a = filter (λ b, b ≠ c) (kids f a).
Proof.
  intros Hwf. unfold kids at 1. destruct (detach c f !! a) as [x|] eqn:Hx.
  - apply detach_some in Hx as (x' & Hx' & _ & _ & _ & _ & -> & _); [|done]. by rewrite (kids_some f a x').
  - unfold kids. destruct (f !! a) as [x'|] eqn:Hx'; [|done]. destruct (detach_dom f c a x' Hwf Hx') as [x Hx2]. congruence.
Qed.

Lemma wf_detach f c : wf f → (∀ y, f !! c = Some y → t_kind y ≠ DocumentKind) → wf (detach c f).
Proof.
  intros Hwf Hk. assert (∀ a b, child_of (detach c f) a b → child_of f a b) as Hsub by (intros a b; unfold child_of; rewrite kids_detach by done; by intros [_ ?]%list_elem_of_filter).
  split.
  - destruct (detach c f !! null) as [x|] eqn:Hx; [|done]. apply detach_some in Hx as (x' & Hx' & _); [|done]. by rewrite wf_null in Hx'.
  - intros a b Hb. rewrite kids_detach in Hb by done. apply list_elem_of_filter in Hb as [Hbc Hb]. apply wf_kids in Hb as (y & Hy & Hp); [|done].
    destruct (detach_dom f c b y Hwf Hy) as [z Hz]. exists z. split; [done|]. apply detach_some in Hz as (y' & Hy' & _ & _ & _ & _ & _ & ->); [|done]. rewrite decide_False by done. congruence.
  - intros a. rewrite kids_detach by done. apply NoDup_filter. by apply wf_nodup.
  - intros b y Hy Hp. apply detach_some in Hy as (y' & Hy' & _ & _ & _ & _ & _ & Hpar); [|done]. rewrite Hpar in *. case_decide; [done|]. rewrite kids_detach by done. apply list_elem_of_filter. split; [done|]. by apply wf_parent.
  - intros a x Hx Hp. apply detach_some in Hx as (x' & Hx' & _ & Hd & _ & _ & _ & Hpar); [|done]. rewrite Hpar in *. case_decide; [done|]. destruct (wf_doc f Hwf a x' Hx' Hp) as (y & Hy & Hyd).
    destruct (detach_dom f c _ y Hwf Hy) as [z Hz]. exists z. split; [done|]. apply detach_some in Hz as (y' & Hy' & _ & Hd' & _); [|done]. congruence.
  - intros a x Hx Hk'. apply detach_some in Hx as (x' & Hx' & Hkx & Hd & _ & _ & _ & Hpar); [|done]. rewrite Hkx in Hk'. rewrite Hpar, Hd. destruct (wf_document f Hwf a x' Hx' Hk') as [-> ->]. by case_decide.
  - intros a x Hx. apply detach_some in Hx as (x' & Hx' & _ & -> & _); [|done]. destruct (wf_owner f Hwf a x' Hx') as (y & Hy & Hyk). destruct (detach_dom f c _ y Hwf Hy) as [z Hz]. exists z. split; [done|].
    apply detach_some in Hz as (y' & Hy' & -> & _); [|done]. congruence.
  - eapply (wf_projected _ id); [exact Hsub|by apply wf_acyclic].
Qed.

(** ** Giving a node to a parent *)
Definition graft (p c : Z) (g : list Z → list Z) (f : forest) : forest := alter (with_parent p) c (alter (λ x, with_kids (g (t_kids x)) x) p f).

Section graft.
Context (f : forest) (p c : Z) (g : list Z → list Z) (l1 l2 : list Z) (x y : tree_node).
Context (Hwf : wf f) (Hx : f !! p = Some x) (Hy : f !! c = Some y) (Hroot : t_parent y = null).
Context (Ek : kids f p = l1 ++ l2) (Eg : g (l1 ++ l2) = l1 ++ c :: l2) (Hpc : p ≠ c).

Lemma attach_node a : graft p c g f !! a = (λ z, if decide (a = c) then with_parent p z else if decide (a = p) then with_kids (l1 ++ c :: l2) z else z) <$> f !! a.
Proof using Hx Hy Ek Eg Hpc.
  unfold graft. rewrite !lookup_alter. repeat (case_decide; subst); try done; [|by destruct (f !! a)]. rewrite Hx. cbn. by rewrite <- (kids_some _ _ _ Hx), Ek, Eg.
Qed.

Lemma attach_kids a : kids (graft p c g f) a = if decide (a = p) then l1 ++ c :: l2 else kids f a.
Proof using Hx Hy Ek Eg Hpc.
  unfold kids at 1. rewrite attach_node. unfold kids. repeat (case_decide; subst); try done; [by rewrite Hy|by rewrite Hx|by destruct (f !! a)].
Qed.

Lemma attach_nodup : NoDup (l1 ++ c :: l2) ∧ null ∉ l1 ++ l2 ∧ p ∉ l1 ++ l2 ∧ c ∉ l1 ++ l2.
Proof using Hwf Hy Ek Hroot.
  pose proof (wf_nodup f Hwf p) as Hnd. rewrite Ek in Hnd. assert (c ∉ l1 ++ l2) as Hc by (rewrite <- Ek; by eapply root_no_parent). split_and!; [|rewrite <- Ek; by apply kid_not_null|rewrite <- Ek; by apply not_own_child|done].
  rewrite <- Permutation_middle. by constructor.
Qed.

Lemma linked_attach h h' : linked h f →
  (∀ a, nodes h' !! a = (λ n, if decide (a = c) then set_parent p (set_prev (lst l1) (set_next (hd l2) n))
     else if decide (a = p) then set_first (hd (l1 ++ c :: l2)) (set_last (lst (l1 ++ c :: l2)) n)
     else set_next (if decide (a = lst l1) then c else _next n) (set_prev (if decide (a = hd l2) then c else _prev n) n)) <$> nodes h !! a) →
  linked h' (graft p c g f).
Proof using Hwf Hx Hy Ek Eg Hpc Hroot.
  intros Hl Hh a. rewrite Hh, (Hl a), attach_node. destruct (f !! a) as [z|] eqn:Hz; [|done]. cbn. f_equal. destruct attach_nodup as (Hnd & H0 & Hp & Hc). unfold concrete.
  destruct (decide (a = c)) as [->|Hac]; [|destruct (decide (a = p)) as [->|Hap]].
  - cbn. rewrite attach_kids, decide_True by done. pose proof Hnd as (_ & Hd & [Hc2 _]%NoDup_cons)%NoDup_app. rewrite before_split, after_split; [done| |done]. intros Hin. apply (Hd c Hin). by left.
  - cbn. rewrite attach_kids, decide_False; [done|]. intros Hpp. assert (t_parent z ≠ null) as Hn by (rewrite Hpp; intros ->; by rewrite wf_null in Hz). apply (not_own_child f Hwf p). rewrite <- Hpp at 2. by apply wf_parent.
  - cbn. rewrite attach_kids. destruct (decide (t_parent z = p)) as [Hpar|Hpar].
    + assert (t_parent z ≠ null) as Hn by (rewrite Hpar; intros ->; by rewrite wf_null in Hx). assert (a ∈ l1 ++ l2) as Ha by (rewrite <- Ek, <- Hpar; by apply wf_parent).
      rewrite Hpar, Ek. rewrite (proj1 (before_middle a c l1 l2 Hnd Ha H0)), (proj1 (after_middle a c l1 l2 Hnd Ha H0)). done.
    + assert (a ∉ l1 ++ l2) as Hna by (rewrite <- Ek; intros (z' & Hz' & Hp')%wf_kids; [congruence|done]). assert (a ≠ null) as Ha0 by (intros ->; by rewrite wf_null in Hz).
      rewrite !decide_False; [done| |]; unfold hd, lst; [destruct l2; cbn; set_solver|]. destruct (last l1) as [w|] eqn:El; cbn; [apply last_Some in El as [l' ->]; set_solver|done].
Qed.

Context (Hdoc : t_doc y = t_doc x) (Hkind : t_kind y ≠ DocumentKind) (Hnot : ¬ within f p c).

Lemma attach_child a b : child_of (graft p c g f) a b → child_of f a b ∨ a = c ∧ b = p.
Proof using Hx Hy Ek Eg Hpc.
  unfold child_of. rewrite attach_kids. case_decide; [subst|by left]. rewrite Ek, !elem_of_app, elem_of_cons. tauto.
Qed.

Lemma attach_acyclic : well_founded (child_of (graft p c g f)).
Proof using Hwf Hx Hy Ek Eg Hpc Hnot.
  assert (∀ a, ¬ within f p a → Acc (child_of (graft p c g f)) a) as Hout.
  { intros a. induction (wf_acyclic f Hwf a) as [a _ IH]. intros Ha. constructor. intros b [Hb|[-> ->]]%attach_child; [|by destruct Ha]. apply IH; [done|]. intros Hpb. apply Ha. by eapply rtc_r. }
  intros a. induction (wf_acyclic f Hwf a) as [a _ IH]. constructor. intros b [Hb|[-> ->]]%attach_child; [by apply IH|by apply Hout].
Qed.

Lemma wf_attach : wf (graft p c g f).
Proof using All.
  destruct attach_nodup as (Hnd & H0 & Hp & Hc). assert (∀ a z, f !! a = Some z → ∃ z', graft p c g f !! a = Some z' ∧ t_kind z' = t_kind z ∧ t_doc z' = t_doc z ∧ t_parent z' = if decide (a = c) then p else t_parent z) as Hto.
  { intros a z Hz. rewrite attach_node, Hz. cbn. eexists. split; [done|]. repeat case_decide; split_and!; done. }
  assert (∀ a z', graft p c g f !! a = Some z' → ∃ z, f !! a = Some z ∧ t_kind z' = t_kind z ∧ t_doc z' = t_doc z ∧ t_parent z' = if decide (a = c) then p else t_parent z) as Hfrom.
  { intros a z'. rewrite attach_node. destruct (f !! a) as [z|]; [|done]. intros E. injection E as <-. eexists. split; [done|]. repeat case_decide; split_and!; done. }
  split.
  - rewrite attach_node, wf_null; done.
  - intros a b [Hb|[-> ->]]%attach_child.
    + destruct (wf_kids f Hwf a b Hb) as (z & Hz & Hpz). destruct (Hto b z Hz) as (z' & Hz' & _ & _ & Hp'). exists z'. split; [done|]. rewrite Hp', decide_False; [done|]. intros ->. exact (root_no_parent f Hwf c y a Hy Hroot Hb).
    + destruct (Hto c y Hy) as (z' & Hz' & _ & _ & Hp'). exists z'. split; [done|]. by rewrite Hp', decide_True.
  - intros a. rewrite attach_kids. case_decide; [done|by apply wf_nodup].
  - intros b z' Hz' Hn. apply Hfrom in Hz' as (z & Hz & _ & _ & Hpz). rewrite attach_kids. rewrite Hpz in *. destruct (decide (b = c)) as [->|]; [rewrite decide_True by done; set_solver|].
    pose proof (wf_parent f Hwf b z Hz Hn) as Hin. case_decide as Hpp; [|done]. rewrite Hpp, Ek in Hin. set_solver.
  - intros a z' Hz' Hn. apply Hfrom in Hz' as (z & Hz & _ & Hd & Hpz). rewrite Hpz, Hd in *. destruct (decide (a = c)) as [->|].
    + destruct (Hto p x Hx) as (w & Hw & _ & Hd' & _). exists w. split; [done|]. congruence.
    + destruct (wf_doc f Hwf a z Hz Hn) as (w & Hw & Hdw). destruct (Hto _ w Hw) as (w' & Hw' & _ & Hd' & _). exists w'. split; [done|]. congruence.
  - intros a z' Hz' Hk. apply Hfrom in Hz' as (z & Hz & Hkz & Hd & Hpz). rewrite Hkz in Hk. rewrite Hpz, Hd. destruct (wf_document f Hwf a z Hz Hk) as [Hpn Hda]. rewrite decide_False; [done|]. intros ->. congruence.
  - intros a z' Hz'. apply Hfrom in Hz' as (z & Hz & _ & -> & _). destruct (wf_owner f Hwf a z Hz) as (w & Hw & Hkw). destruct (Hto _ w Hw) as (w' & Hw' & Hk' & _). exists w'. split; [done|]. congruence.
  - exact attach_acyclic.
Qed.
End graft.
