(* ===== verification/TinyEdit.v ===== *)
(** * TinyEdit: what the editing functions of TinyDom do to the forest of nodes

    [ok] is the invariant of a heap: its pointers are those of a well-formed forest, and each
    document lists the roots that are no document.  Insertion moves a subtree, deletion frees
    one, creation adds a root. *)

From S2P Require Import Prelude TinyText TinyXml TinyDom TinyLinks.
#[local] Open Scope Z_scope.

(** What the code relies on of the header: memory is new, and a node enters [_unlinked] of its
    document; removing an element of an array may change the order of the others; an attribute
    is found or created, and then set; documents are not cloned. *)
Class TinyxmlDomOk `{TinyxmlH} `{TinyxmlDomH} : Prop := {
  create_unlinked : ∀ k doc h a h', CreateUnlinkedNode k doc h = (a, h') →
    a ≠ null ∧ nodes h !! a = None ∧ nodes h' = <[a := XMLNode_new k doc]> (nodes h) ∧ unlinked h' = <[doc := _unlinked h doc ++ [a]]> (unlinked h);
  swap_remove : ∀ i l x, l !! i = Some x → SwapRemove i l ≡ₚ delete i l;
  set_attribute : ∀ attrs name value, SetAttribute attrs name value =
    let '(attrs, i) := FindOrCreateAttribute attrs name in set_attribute_value attrs i value;
  document_clone_null : document_clone = null
}.

Section edit.
Context `{TinyxmlHOk} `{!TinyxmlDomH} `{!TinyxmlDomOk}.

(** The roots in [o] are not listed, for the time they are being moved or deleted. *)
Record ok_but (o : list Z) (h : dom) (f : forest) : Prop := {
  ok_linked : linked h f;
  ok_wf : wf f;
  ok_nodup : ∀ d, NoDup (_unlinked h d);
  ok_unlinked : ∀ d a, a ∈ _unlinked h d ↔ ∃ x, f !! a = Some x ∧ t_parent x = null ∧ t_kind x ≠ DocumentKind ∧ t_doc x = d ∧ a ∉ o
}.
Definition ok : dom → forest → Prop := ok_but [].

Lemma mark_loop_some node l : ∀ i, node ∈ l → ∃ j, mark_loop node l i = Some (i + j)%nat ∧ l !! j = Some node.
Proof.
  induction l as [|x l IH]; intros i Hin; [by apply not_elem_of_nil in Hin|]. cbn. destruct (Z.eqb_spec node x) as [<-|Hx]; [exists 0%nat; by rewrite Nat.add_0_r|].
  apply elem_of_cons in Hin as [?|Hin]; [done|]. destruct (IH (S i) Hin) as (j & E & Hj). exists (S j). split; [rewrite E; f_equal; lia|done].
Qed.

Lemma mark_loop_none node l i : node ∉ l → mark_loop node l i = None.
Proof. revert i. induction l as [|x l IH]; intros i Hn; [done|]. apply not_elem_of_cons in Hn as [Hx Hn]. cbn. rewrite (proj2 (Z.eqb_neq _ _)) by done. by apply IH. Qed.

(** A listed node is taken from the list, another one is not in it. *)
Lemma MarkInUse_spec h f c y : linked h f → f !! c = Some y → (∀ d, NoDup (_unlinked h d)) →
  ∃ h', MarkInUse h c = Ok h' ∧ nodes h' = nodes h ∧ (∀ d, NoDup (_unlinked h' d)) ∧ ∀ d a, a ∈ _unlinked h' d ↔ a ∈ _unlinked h d ∧ (d = t_doc y → a ≠ c).
Proof.
  intros Hl Hy Hnd. unfold MarkInUse. rewrite (rd_some _ h c _ (linked_some h f Hl c y Hy)), ok_bind. cbn [concrete _document].
  destruct (decide (c ∈ _unlinked h (t_doc y))) as [Hin|Hin].
  - destruct (mark_loop_some c _ 0 Hin) as (j & E & Hj). rewrite E. eexists. split; [done|]. split; [done|]. cbn [plus].
    assert (∀ d, _unlinked (mk_dom (nodes h) (<[t_doc y := SwapRemove j (_unlinked h (t_doc y))]> (unlinked h))) d = if decide (d = t_doc y) then SwapRemove j (_unlinked h (t_doc y)) else _unlinked h d) as Hd.
    { intros d. unfold _unlinked. cbn. rewrite lookup_insert. repeat case_decide; subst; done. }
    pose proof (swap_remove j _ c Hj) as Hp. pose proof (delete_Permutation _ j c Hj) as Hp2. pose proof (Hnd (t_doc y)) as Hn. rewrite <- Hp in Hp2. set (l := SwapRemove j _) in *. clearbody l.
    assert (∀ a, a ∈ _unlinked h (t_doc y) ↔ a = c ∨ a ∈ l) as Hel by (intros a; by rewrite Hp2, elem_of_cons). rewrite Hp2 in Hn. apply NoDup_cons in Hn as [Hc Hn]. split.
    + intros d. rewrite Hd. by case_decide.
    + intros d a. rewrite Hd. case_decide as Hdd; [subst d|naive_solver]. rewrite Hel. naive_solver.
  - rewrite mark_loop_none by done. exists h. split_and!; try done. intros d a. split; [|naive_solver]. intros Ha. split; [done|]. by intros -> ->.
Qed.

Lemma Unlink_ok o h f c p y : ok_but o h f → f !! c = Some y → c ∈ kids f p → ∃ h', Unlink h p c = Ok h' ∧ ok_but (c :: o) h' (detach c f).
Proof.
  intros [Hl Hwf Hnd Hu] Hy Hc. destruct (Unlink_spec h f c p y Hl Hwf Hy Hc) as (h' & E & Hl' & Hun). exists h'. split; [done|]. assert (∀ d, _unlinked h' d = _unlinked h d) as Hud by (intros d; unfold _unlinked; by rewrite Hun).
  assert (t_parent y ≠ null) as Hp. { intros Hp. exact (root_no_parent f Hwf c y p Hy Hp Hc). }
  assert (t_kind y ≠ DocumentKind) as Hk. { intros Hk. exact (Hp (proj1 (wf_document f Hwf c y Hy Hk))). }
  split; [done|apply wf_detach; [done|]; congruence|intros d; by rewrite Hud|]. intros d a. rewrite Hud, Hu, detach_node by done. split.
  - intros (z & Hz & Hpz & Hkz & Hdz & Ho). assert (a ≠ c) as Hac by congruence. rewrite Hz. cbn. rewrite decide_False by done. eexists. split; [done|]. split_and!; try done. by apply not_elem_of_cons.
  - intros (z & Hz & Hpz & Hkz & Hdz & [Hac Ho]%not_elem_of_cons). destruct (f !! a) as [w|]; [|done]. cbn in Hz. rewrite decide_False in Hz by done. injection Hz as <-. by exists w.
Qed.

Lemma InsertChildPreamble_spec h f c y : ok h f → f !! c = Some y → t_kind y ≠ DocumentKind →
  ∃ h', InsertChildPreamble h c = Ok h' ∧ ok_but [c] h' (detach c f).
Proof.
  intros [Hl Hwf Hnd Hu] Hy Hk. assert (wf (detach c f)) as Hwf' by (apply wf_detach; naive_solver). unfold InsertChildPreamble. rewrite (rd_some _ h c _ (linked_some h f Hl c y Hy)), ok_bind. cbn [concrete _parent].
  destruct (Z.eqb_spec (t_parent y) null) as [Hp|Hp]; cbn [negb].
  - destruct (MarkInUse_spec h f c y Hl Hy Hnd) as (h' & E & Hn & Hnd' & Hu'). exists h'. split; [done|]. rewrite (detach_root f c y) in * by done. split; try done; [intros a; by rewrite Hn|].
    intros d a. rewrite Hu', Hu. split; [|intros (z & ? & ? & ? & ? & ?); split; [by exists z; split_and!; try done; apply not_elem_of_nil|set_solver]]. intros [(z & Hz & Hpz & Hkz & Hdz & _) Hne]. exists z. split_and!; try done. intros ->%list_elem_of_singleton. apply Hne; congruence.
  - apply (Unlink_ok [] h f c (t_parent y) y); [by split|done|by apply wf_parent].
Qed.

Lemma within_detach f c a b : wf f → within (detach c f) a b → within f a b.
Proof. intros Hwf. apply rtc_subrel. intros x y. unfold child_of. rewrite kids_detach by done. by intros [_ ?]%list_elem_of_filter. Qed.

(** What may be inserted under [p]: a node of the same document that does not contain [p]. *)
Definition insertable (f : forest) (p c : Z) : Prop :=
  ∃ x y, f !! p = Some x ∧ f !! c = Some y ∧ t_kind y ≠ DocumentKind ∧ t_doc y = t_doc x ∧ ¬ within f p c.

(** The node has been taken from its parent: what is left to do is to link it. *)
Definition held (h : dom) (f : forest) (p c : Z) (x y : tree_node) : Prop :=
  ok_but [c] h f ∧ f !! p = Some x ∧ f !! c = Some y ∧ t_parent y = null ∧ t_kind y ≠ DocumentKind ∧ t_doc y = t_doc x ∧ ¬ within f p c ∧ p ≠ c.

Lemma preamble_held h f p c : ok h f → insertable f p c →
  ∃ h' x y, rd _document h p = Ok (t_doc x) ∧ rd _document h c = Ok (t_doc x) ∧ InsertChildPreamble h c = Ok h' ∧ held h' (detach c f) p c x y ∧ t_kids x = filter (λ b, b ≠ c) (kids f p).
Proof.
  intros Hok (x & y & Hx & Hy & Hk & Hd & Hn). pose proof (ok_linked _ _ _ Hok) as Hl. pose proof (ok_wf _ _ _ Hok) as Hwf. assert (p ≠ c) as Hpc by (intros ->; apply Hn; constructor).
  destruct (InsertChildPreamble_spec h f c y Hok Hy Hk) as (h' & E & Hok'). exists h', (with_kids (filter (λ b, b ≠ c) (t_kids x)) x), (with_parent null (with_kids (filter (λ b, b ≠ c) (t_kids y)) y)).
  rewrite (rd_some _ h p _ (linked_some h f Hl p x Hx)), (rd_some _ h c _ (linked_some h f Hl c y Hy)). cbn. rewrite Hd. split_and!; try done; [|by rewrite (kids_some _ _ _ Hx)].
  split_and!; try done; [rewrite detach_node, Hx by done; cbn; by rewrite decide_False|rewrite detach_node, Hy by done; cbn; by rewrite decide_True|]. intros Hw. apply Hn. by eapply within_detach.
Qed.

Lemma attach_ok h h' f p c g l1 l2 x y : held h f p c x y → kids f p = l1 ++ l2 → g (l1 ++ l2) = l1 ++ c :: l2 → unlinked h' = unlinked h →
  (∀ a, nodes h' !! a = (λ n, if decide (a = c) then set_parent p (set_prev (lst l1) (set_next (hd l2) n))
     else if decide (a = p) then set_first (hd (l1 ++ c :: l2)) (set_last (lst (l1 ++ c :: l2)) n)
     else set_next (if decide (a = lst l1) then c else _next n) (set_prev (if decide (a = hd l2) then c else _prev n) n)) <$> nodes h !! a) →
  ok h' (graft p c g f).
Proof.
  intros ([Hl Hwf Hnd Hu] & Hx & Hy & Hp & Hk & Hd & Hn & Hpc) Ek Eg Hun Hh. assert (∀ d, _unlinked h' d = _unlinked h d) as Hud by (intros d; unfold _unlinked; by rewrite Hun).
  split; [by apply (linked_attach f p c g l1 l2 x y) with h|by apply (wf_attach f p c g l1 l2 x y)|intros d; by rewrite Hud|].
  assert (p ≠ null) as Hp0 by (intros ->; by rewrite wf_null in Hx).
  intros d a. rewrite Hud, Hu. rewrite (attach_node f p c g l1 l2 x y Hx Hy Ek Eg Hpc a). split.
  - intros (z & Hz & Hpz & Hkz & Hdz & Hne). rewrite Hz. cbn. rewrite decide_False by set_solver. eexists. split; [done|]. case_decide; split_and!; try done; apply not_elem_of_nil.
  - intros (z & Hz & Hpz & Hkz & Hdz & _). destruct (f !! a) as [w|]; [|done]. cbn in Hz. injection Hz as <-. case_decide; [done|]. exists w. split; [done|]. case_decide; split_and!; try done; by intros ->%list_elem_of_singleton.
Qed.

(** The nodes that the assignments of an insertion touch. *)
Lemma held_nodes h f p c x y l1 l2 : held h f p c x y → kids f p = l1 ++ l2 →
  nodes h !! null = None ∧ (∃ n, nodes h !! c = Some n) ∧ (∃ n, nodes h !! p = Some n ∧ _firstChild n = hd (l1 ++ l2) ∧ _lastChild n = lst (l1 ++ l2)) ∧
  (∀ a, a ∈ l1 ++ l2 → a ≠ null ∧ a ≠ c ∧ a ≠ p ∧ ∃ n, nodes h !! a = Some n) ∧ NoDup (l1 ++ l2).
Proof.
  intros ([Hl Hwf Hnd Hu] & Hx & Hy & Hp & Hk & Hd & Hn & Hpc) Ek. rewrite (kids_some _ _ _ Hx) in Ek. split_and!.
  - by apply (linked_null h f).
  - eexists. by apply (linked_some h f Hl c y).
  - eexists. split; [by apply (linked_some h f Hl p x)|]. cbn. by rewrite Ek.
  - intros a. rewrite <- Ek, <- (kids_some _ _ _ Hx). intros Ha. split_and!.
    + intros ->. by eapply kid_not_null.
    + intros ->. by eapply root_no_parent.
    + intros ->. by eapply not_own_child.
    + apply wf_kids in Ha as (z & Hz & _); [|done]. eexists. by apply (linked_some h f Hl a z).
  - rewrite <- Ek, <- (kids_some _ _ _ Hx). by apply wf_nodup.
Qed.

Lemma InsertEndChild_spec h f p c : ok h f → insertable f p c → ∃ h', InsertEndChild h p c = Ok (h', c) ∧ ok h' (graft p c (λ l, l ++ [c]) (detach c f)).
Proof.
  intros Hok Hins. destruct (preamble_held h f p c Hok Hins) as (h1 & x & y & E1 & E2 & E3 & Hh & _). set (f1 := detach c f) in *. clearbody f1.
  assert (∃ l, kids f1 p = l) as [l El0] by by eexists. assert (kids f1 p = l ++ []) as Ek by by rewrite app_nil_r. destruct (held_nodes h1 f1 p c x y l [] Hh Ek) as (Hn0 & [nc Hnc] & (np & Hnp & Hf & Hla) & Hin & Hnd). rewrite app_nil_r in *.
  assert (∀ h', (∀ a, nodes h' !! a = (λ n, if decide (a = c) then set_parent p (set_prev (lst l) (set_next (hd []) n))
     else if decide (a = p) then set_first (hd (l ++ [c])) (set_last (lst (l ++ [c])) n)
     else set_next (if decide (a = lst l) then c else _next n) (set_prev (if decide (a = hd []) then c else _prev n) n)) <$> nodes h1 !! a) →
     unlinked h' = unlinked h1 → ∃ h'', Ok (h', c) = Ok (h'', c) ∧ ok h'' (graft p c (λ l, l ++ [c]) f1)) as Hend.
  { intros h' Hh' Hu'. exists h'. split; [done|]. apply (attach_ok h1 h' f1 p c (λ l, l ++ [c]) l [] x y); try done; by rewrite app_nil_r. }
  assert (p ≠ c) as Hpc by by destruct Hh as (_ & _ & _ & _ & _ & _ & _ & ?). assert (c ≠ p) by done. rewrite lst_app in Hend. change (lst [c]) with c in Hend. change (hd []) with null in Hend.
  unfold InsertEndChild. rewrite E1, ok_bind, E2, ok_bind, Z.eqb_refl. cbn [negb]. rewrite E3, ok_bind. heap_step. rewrite Hla.
  destruct (decide (l = [])) as [El|El].
  - rewrite El in *. change (lst []) with null in *. change (hd ([] ++ [c])) with c in *. heap_run. apply Hend; [|done]. by_node.
  - destruct (Hin _ (lst_in l El)) as (? & ? & ? & nl & Hnl). assert (hd (l ++ [c]) = hd l) as Ehd by (by destruct l). rewrite Ehd in *. heap_run. apply Hend; [|done]. by_node.
Qed.

Lemma InsertFirstChild_spec h f p c : ok h f → insertable f p c → ∃ h', InsertFirstChild h p c = Ok (h', c) ∧ ok h' (graft p c (λ l, c :: l) (detach c f)).
Proof.
  intros Hok Hins. destruct (preamble_held h f p c Hok Hins) as (h1 & x & y & E1 & E2 & E3 & Hh & _). set (f1 := detach c f) in *. clearbody f1.
  assert (∃ l, kids f1 p = [] ++ l) as [l Ek] by by eexists. destruct (held_nodes h1 f1 p c x y [] l Hh Ek) as (Hn0 & [nc Hnc] & (np & Hnp & Hf & Hla) & Hin & Hnd). cbn [app] in *.
  assert (∀ h', (∀ a, nodes h' !! a = (λ n, if decide (a = c) then set_parent p (set_prev (lst []) (set_next (hd l) n))
     else if decide (a = p) then set_first (hd (c :: l)) (set_last (lst (c :: l)) n)
     else set_next (if decide (a = lst []) then c else _next n) (set_prev (if decide (a = hd l) then c else _prev n) n)) <$> nodes h1 !! a) →
     unlinked h' = unlinked h1 → ∃ h'', Ok (h', c) = Ok (h'', c) ∧ ok h'' (graft p c (λ l, c :: l) f1)) as Hend.
  { intros h' Hh' Hu'. exists h'. split; [done|]. by apply (attach_ok h1 h' f1 p c (λ l, c :: l) [] l x y). }
  assert (p ≠ c) as Hpc by by destruct Hh as (_ & _ & _ & _ & _ & _ & _ & ?). assert (c ≠ p) by done. change (hd (c :: l)) with c in Hend. change (lst []) with null in Hend.
  unfold InsertFirstChild. rewrite E1, ok_bind, E2, ok_bind, Z.eqb_refl. cbn [negb]. rewrite E3, ok_bind. heap_step. rewrite Hf.
  destruct (decide (l = [])) as [El|El].
  - rewrite El in *. change (hd []) with null in *. change (lst [c]) with c in *. heap_run. apply Hend; [|done]. by_node.
  - destruct (Hin _ (hd_in l El)) as (? & ? & ? & nl & Hnl). assert (lst (c :: l) = lst l) as Ell by (destruct l as [|v l]; [done|]; by apply (lst_app [c])). rewrite Ell in *. heap_run. apply Hend; [|done]. by_node.
Qed.

Fixpoint insert_after (a c : Z) (l : list Z) : list Z :=
  match l with [] => [] | x :: l => if decide (x = a) then x :: c :: l else x :: insert_after a c l end.

Lemma insert_after_split a c l1 l2 : a ∉ l1 → insert_after a c (l1 ++ a :: l2) = l1 ++ a :: c :: l2.
Proof.
  induction l1 as [|x l1 IH]; intros Ha; [cbn; by rewrite decide_True|]. apply not_elem_of_cons in Ha as [Hx Ha]. cbn. rewrite decide_False by congruence. by rewrite IH.
Qed.

Lemma attach_ext p c g g' f : g (kids f p) = g' (kids f p) → graft p c g f = graft p c g' f.
Proof.
  intros Hg. unfold graft. f_equal. apply map_eq. intros a. rewrite !lookup_alter. case_decide as Hp; [|done]. subst a. unfold kids in Hg. destruct (f !! p); [|done]. cbn. by rewrite Hg.
Qed.

(** [a] is a child of [p], and not the one before a [c] that is the last child. *)
Definition insertable_after (f : forest) (p a c : Z) : Prop := insertable f p c ∧ a ∈ kids f p ∧ a ≠ c ∧ ∀ l, kids f p ≠ l ++ [a; c].

Lemma filter_singleton (c : Z) (v : list Z) : NoDup v → filter (λ b, b ≠ c) v = [] → v = [] ∨ v = [c].
Proof.
  intros Hnd Hf. destruct v as [|x v]; [by left|]. destruct (decide (x = c)) as [->|Hx]; [|by rewrite filter_cons_True in Hf]. rewrite filter_cons_False in Hf by naive_solver.
  apply NoDup_cons in Hnd as [Hc _]. rewrite filter_ne_id in Hf by done. subst. by right.
Qed.

Lemma next_of h f p a l1 l2 : linked h f → wf f → kids f p = l1 ++ a :: l2 → rd _parent h a = Ok p ∧ rd _next h a = Ok (hd l2).
Proof. intros Hl Hwf E. destruct (kid_linked h f Hl Hwf p a l1 l2 E) as (y & _ & _ & Hn). by rewrite !(rd_some _ h a _ Hn). Qed.

(** The part of [InsertAfterChild] behind the tests, when something follows [a]. *)
Lemma insert_after_body h1 f1 p a c x y l1 l2 : held h1 f1 p c x y → kids f1 p = l1 ++ a :: l2 → l2 ≠ [] →
  ∃ h', (h ← wr (set_prev a) h1 c; n ← rd _next h a; h ← wr (set_next n) h c; n ← rd _next h a; h ← wr (set_prev c) h n; h ← wr (set_next c) h a; h ← wr (set_parent p) h c; Ok (h, c)) = Ok (h', c) ∧
    ok h' (graft p c (insert_after a c) f1).
Proof.
  intros Hh Ek Hl2. assert (kids f1 p = (l1 ++ [a]) ++ l2) as Ek' by by rewrite <- app_assoc. destruct (held_nodes h1 f1 p c x y (l1 ++ [a]) l2 Hh Ek') as (Hn0 & [nc Hnc] & (np & Hnp & Hf & Hla) & Hin & Hnd).
  pose proof Hh as ([Hl1 Hwf1 _ _] & _). destruct (kid_linked h1 f1 Hl1 Hwf1 p a l1 l2 Ek) as (ya & _ & _ & Hna).
  destruct (Hin (hd l2)) as (? & ? & ? & nv & Hnv); [apply elem_of_app; right; by apply hd_in|]. destruct (Hin a) as (? & ? & ? & _); [set_solver|].
  assert (a ≠ hd l2) as Hav. { intros E. apply NoDup_app in Hnd as (_ & Hd & _). apply (Hd a); [set_solver|]. rewrite E. by apply hd_in. }
  assert (p ≠ c) as Hpc by by destruct Hh as (_ & _ & _ & _ & _ & _ & _ & ?). assert (c ≠ p) by done.
  assert (a ∉ l1) as Hal1 by (apply NoDup_app in Hnd as ((_ & Hd & _)%NoDup_app & _ & _); intros Ha; apply (Hd a Ha); by left).
  heap_run. eexists. split; [done|]. eapply (attach_ok h1 _ f1 p c _ (l1 ++ [a]) l2 x y Hh Ek'); [|done|].
  - rewrite <- !app_assoc. by apply insert_after_split.
  - assert (lst (l1 ++ [a]) = a) as -> by by rewrite lst_app. assert (hd ((l1 ++ [a]) ++ c :: l2) = hd ((l1 ++ [a]) ++ l2)) as Ehd by by destruct l1.
    assert (lst ((l1 ++ [a]) ++ c :: l2) = lst ((l1 ++ [a]) ++ l2)) as Elst. { rewrite lst_app. destruct l2 as [|v l2]; [done|]. rewrite lst_app. by apply (lst_app [c]). }
    rewrite <- Ehd in Hf. rewrite <- Elst in Hla. destruct np as [? ? ? ? ? ? ? ? ?]. cbn in Hf, Hla. subst. by_node.
Qed.

Lemma InsertAfterChild_spec h f p a c : ok h f → insertable_after f p a c →
  ∃ h', InsertAfterChild h p a c = Ok (h', c) ∧ ok h' (graft p c (insert_after a c) (detach c f)).
Proof.
  intros Hok (Hins & Ha & Hac & Hlast). pose proof Hok as [Hl Hwf _ _]. apply list_elem_of_split in Ha as (l1 & l2 & E). destruct (next_of h f p a l1 l2 Hl Hwf E) as [Ep En].
  destruct (preamble_held h f p c Hok Hins) as (h1 & x & y & E1 & E2 & E3 & Hh & _). pose proof (kids_detach f c p Hwf) as Ek. rewrite E, filter_app, filter_cons_True in Ek by done.
  destruct (kids_apart f p l1 a l2 Hwf E) as [[Hp (_ & Hd & [Ha2 Hnd2]%NoDup_cons)%NoDup_app]%NoDup_cons [Hp0 H0']%not_elem_of_cons].
  assert (a ∉ filter (λ b, b ≠ c) l1) as Ha1 by (intros [_ Ha]%list_elem_of_filter; apply (Hd a Ha); by left).
  unfold InsertAfterChild. rewrite E1, ok_bind, E2, ok_bind, Z.eqb_refl. cbn [negb]. rewrite Ep, ok_bind, Z.eqb_refl. cbn [negb]. rewrite (proj2 (Z.eqb_neq a c)), En, ok_bind by done.
  destruct (Z.eqb_spec (hd l2) null) as [Hn|Hn].
  - assert (l2 = []) as -> by (apply hd_nil_inv; [done|set_solver]). destruct (InsertEndChild_spec h f p c Hok Hins) as (h' & E' & Hok'). exists h'. split; [done|].
    rewrite (attach_ext p c (insert_after a c) (λ l, l ++ [c])); [done|]. rewrite Ek. cbn. by rewrite insert_after_split, <- app_assoc.
  - rewrite E3, ok_bind. eapply insert_after_body; [exact Hh|exact Ek|]. intros [-> | ->]%filter_singleton; [done|by apply (Hlast l1)|done].
Qed.
End edit.
