(* ===== verification/TinyDelete.v ===== *)
(** * TinyDelete: deletion of nodes in TinyDom

    Deleting the children of a node frees its descendants, each once, and no other node; the
    recursion and the loop of [DeleteChildren] need no more steps than there are descendants. *)

From S2P Require Import Prelude TinyText TinyXml TinyDom TinyLinks TinyEdit.
#[local] Open Scope Z_scope.

(** ** Descendants *)
(** [l] lists the nodes that are one of [ks] or below one, each once. *)
Definition lists_below (f : forest) (ks l : list Z) : Prop := NoDup l ∧ ∀ x, x ∈ l ↔ ∃ k, k ∈ ks ∧ within f x k.

Section descendants.
Context (f : forest) (Hwf : wf f).

Lemma within_step x c : within f x c ↔ x = c ∨ ∃ k, k ∈ kids f c ∧ within f x k.
Proof using.
  split.
  - intros [->|(k & Hk & Hc)]%rtc_inv_r; [by left|right; by exists k].
  - intros [->|(k & Hk & Hx)]; [constructor|]. eapply rtc_r; [exact Hx|exact Hk].
Qed.

Lemma within_chain x a b : within f x a → within f x b → within f a b ∨ within f b a.
Proof using Hwf.
  induction 1 as [x|x y a Hxy Hya IH]; intros Hb; [by left|]. apply rtc_inv in Hb as [->|(y' & Hxy' & Hb)]; [right; by eapply rtc_l|].
  apply IH. by rewrite (parent_unique f Hwf y y' x).
Qed.

(** The subtrees of two children have no node in common. *)
Lemma siblings_apart c k k' x : k ∈ kids f c → k' ∈ kids f c → within f x k → within f x k' → k = k'.
Proof using Hwf.
  intros Hk Hk' H1 H2. assert (∀ a b, a ∈ kids f c → b ∈ kids f c → within f a b → a = b) as Hin.
  { intros a b Ha Hb [->|(y & Hy & Hyb)]%rtc_inv; [done|]. assert (y = c) as -> by (by apply (parent_unique f Hwf y c a)). exfalso. by apply (not_within f Hwf c b). }
  destruct (within_chain x k k' H1 H2) as [H|H]; [by apply Hin|symmetry; by apply Hin].
Qed.

(** A child, what is below it, and the same for the other children. *)
Lemma lists_below_cons c k ks lk l : NoDup (k :: ks) → (∀ x, x ∈ k :: ks → x ∈ kids f c) → lists_below f (kids f k) lk → lists_below f ks l → lists_below f (k :: ks) (k :: lk ++ l).
Proof using Hwf.
  intros [Hk Hnd]%NoDup_cons Hin (Hlk & Helk) (Hl & Hel). split.
  - rewrite app_comm_cons. apply NoDup_app. split; [constructor; [|done]|split; [|done]].
    + intros (k' & Hk' & Hw)%Helk. by eapply (not_within f Hwf k k').
    + intros x Hx (k' & Hk' & Hw)%Hel. assert (k = k') as ->; [|done]. eapply siblings_apart; [apply Hin; by left|apply Hin; by right| |exact Hw].
      apply within_step. apply elem_of_cons in Hx as [->|Hx]; [by left|right; by apply Helk].
  - intros x. rewrite elem_of_cons, elem_of_app, Helk, Hel. split.
    + intros [->|[(k' & Hk' & Hw)|(k' & Hk' & Hw)]]; [exists k; split; [by left|constructor]|exists k; split; [by left|]; apply within_step; right; by exists k'|exists k'; split; [by right|done]].
    + intros (k' & [->|Hk']%elem_of_cons & Hw); [|right; right; by exists k']. apply within_step in Hw as [?|?]; [by left|right; by left].
Qed.

Lemma lists_below_exists c : ∃ l, lists_below f (kids f c) l.
Proof using Hwf.
  induction (wf_acyclic f Hwf c) as [c _ IH]. assert (∀ ks, NoDup ks → (∀ k, k ∈ ks → k ∈ kids f c) → ∃ l, lists_below f ks l) as Hks; [|apply Hks; [by apply wf_nodup|done]].
  induction ks as [|k ks IHks]; intros Hnd Hin; [exists []; split; [constructor|set_solver]|]. destruct IHks as [l Hl]; [by apply NoDup_cons in Hnd as [_ ?]|set_solver|].
  destruct (IH k) as [lk Hlk]; [apply Hin; by left|]. exists (k :: lk ++ l). by apply (lists_below_cons c).
Qed.

Lemma below_in c x k : k ∈ kids f c → within f x k → is_Some (f !! x).
Proof using Hwf.
  intros Hk [->|(y & Hy & _)]%rtc_inv; [apply wf_kids in Hk as (z & Hz & _); [by eexists|done]|]. apply wf_kids in Hy as (z & Hz & _); [by eexists|done].
Qed.

(** There are fewer descendants than nodes. *)
Lemma lists_below_length c l : is_Some (f !! c) → lists_below f (kids f c) l → (length l < size f)%nat.
Proof using Hwf.
  intros Hc (Hnd & Hel). assert (NoDup (c :: l)) as Hnd'. { constructor; [|done]. intros (k & Hk & Hw)%Hel. by eapply (not_within f Hwf c k). }
  change (S (length l) ≤ size f)%nat. change (S (length l)) with (length (c :: l)). rewrite <- size_dom, <- (size_list_to_set (C := gset Z)) by done. apply subseteq_size. intros x. rewrite elem_of_list_to_set, elem_of_cons, elem_of_dom.
  intros [->|(k & Hk & Hw)%Hel]; [done|]. by eapply below_in.
Qed.
End descendants.

(** The forests agree on the subtree of [k]. *)
Lemma within_agree f f' k : (∀ z, within f z k → kids f' z = kids f z) → ∀ x, within f' x k ↔ within f x k.
Proof.
  intros Hag x. split; intros Hw; revert Hag; induction Hw as [k|x y k Hxy Hyk IH]; intros Hag; try constructor; eapply rtc_l; try by apply IH.
  - unfold child_of in *. rewrite <- Hag; [done|]. by apply IH.
  - unfold child_of in *. by rewrite Hag.
Qed.

(** The forest without the descendants [l] of [a]. *)
Definition childless (a : Z) (l : list Z) (f : forest) : forest := alter (with_kids []) a (foldr delete f l).

Lemma childless_lookup a l f z : childless a l f !! z = if decide (z ∈ l) then None else if decide (z = a) then with_kids [] <$> f !! z else f !! z.
Proof.
  assert (∀ z, foldr delete f l !! z = if decide (z ∈ l) then None else f !! z) as Hl.
  { clear z. intros z. induction l as [|y l IH]; cbn; [done|]. rewrite lookup_delete. destruct (decide (y = z)) as [->|Hyz]; [by rewrite decide_True by (by left)|]. rewrite IH.
    destruct (decide (z ∈ l)) as [Hz|Hz]; [by rewrite decide_True by (by right)|]. rewrite decide_False; [done|]. by intros [?|?]%elem_of_cons. }
  unfold childless. rewrite lookup_alter. case_decide as Ha; [subst z|]; rewrite Hl; repeat case_decide; congruence || done.
Qed.

Section delete.
Context `{TinyxmlHOk} `{!TinyxmlDomH} `{!TinyxmlDomOk}.

(** Freeing a root without children. *)
Lemma wf_delete f c y : wf f → f !! c = Some y → t_kids y = [] → t_parent y = null → t_kind y ≠ DocumentKind → wf (delete c f).
Proof.
  intros Hwf Hy Hk Hp Hkd. assert (∀ a, kids (delete c f) a = kids f a) as Hkids.
  { intros a. unfold kids. rewrite lookup_delete. case_decide; [subst a|done]. by rewrite Hy. }
  assert (∀ a z, delete c f !! a = Some z → f !! a = Some z ∧ a ≠ c) as Hfrom by (intros a z; rewrite lookup_delete; case_decide; [done|]; naive_solver).
  split.
  - rewrite lookup_delete. case_decide; [done|]. by apply wf_null.
  - intros a b. rewrite Hkids. intros Hb. destruct (wf_kids f Hwf a b Hb) as (z & Hz & Hpz). exists z. split; [|done]. rewrite lookup_delete_ne; [done|]. intros ->. exact (root_no_parent f Hwf b y a Hy Hp Hb).
  - intros a. rewrite Hkids. by apply wf_nodup.
  - intros b z [Hz _]%Hfrom Hn. rewrite Hkids. by apply wf_parent.
  - intros a z [Hz _]%Hfrom Hn. destruct (wf_doc f Hwf a z Hz Hn) as (w & Hw & Hd). exists w. split; [|done]. rewrite lookup_delete_ne; [done|]. intros ->.
    pose proof (wf_parent f Hwf a z Hz Hn) as Hin. rewrite (kids_some _ _ _ Hy), Hk in Hin. by apply not_elem_of_nil in Hin.
  - intros a z [Hz _]%Hfrom. by apply (wf_document f Hwf).
  - intros a z [Hz _]%Hfrom. destruct (wf_owner f Hwf a z Hz) as (w & Hw & Hwk). exists w. split; [|done]. rewrite lookup_delete_ne; [done|]. intros ->. congruence.
  - eapply (wf_projected _ id); [|exact (wf_acyclic f Hwf)]. intros a b. unfold child_of. by rewrite Hkids.
Qed.

Lemma Free_ok o h f c y : ok_but (c :: o) h f → f !! c = Some y → t_kids y = [] → t_parent y = null → t_kind y ≠ DocumentKind →
  ∃ h', Free h c = Ok h' ∧ ok_but o h' (delete c f).
Proof.
  intros [Hl Hwf Hnd Hu] Hy Hk Hp Hkd. unfold Free. rewrite (linked_some h f Hl c y Hy). eexists. split; [reflexivity|].
  assert (∀ a, kids (delete c f) a = kids f a) as Hkids. { intros a. unfold kids. rewrite lookup_delete. case_decide; [subst a|done]. by rewrite Hy. }
  split; [|by eapply wf_delete|done|].
  - intros a. cbn. rewrite !lookup_delete. case_decide; [done|]. rewrite (Hl a). destruct (f !! a) as [z|]; [|done]. cbn. unfold concrete. by rewrite Hkids.
  - intros d a. change (_unlinked _ d) with (_unlinked h d). rewrite Hu, lookup_delete. split.
    + intros (z & Hz & Hpz & Hkz & Hdz & [Hac Ho]%not_elem_of_cons). exists z. rewrite decide_False by congruence. done.
    + intros (z & Hz & Hpz & Hkz & Hdz & Ho). case_decide; [done|]. exists z. split_and!; try done. apply not_elem_of_cons. split; [congruence|done].
Qed.

Lemma ok_but_drop c o h f : f !! c = None → ok_but (c :: o) h f → ok_but o h f.
Proof.
  intros Hc [Hl Hwf Hnd Hu]. split; [done..|]. intros d a. rewrite Hu. split; intros (z & Hz & Hpz & Hkz & Hdz & Ho); exists z; split_and!; try done; [set_solver|].
  apply not_elem_of_cons. split; [congruence|done].
Qed.

Lemma MarkInUse_ok o h f c y : ok_but o h f → f !! c = Some y → ∃ h', MarkInUse h c = Ok h' ∧ ok_but (c :: o) h' f.
Proof.
  intros [Hl Hwf Hnd Hu] Hy. destruct (MarkInUse_spec h f c y Hl Hy Hnd) as (h' & E & Hn & Hnd' & Hu'). exists h'. split; [done|]. split; [intros a; by rewrite Hn|done|done|].
  intros d a. rewrite Hu', Hu. split.
  - intros [(z & Hz & Hpz & Hkz & Hdz & Ho) Hne]. exists z. split_and!; try done. apply not_elem_of_cons. split; [|done]. intros ->. apply Hne; congruence.
  - intros (z & Hz & Hpz & Hkz & Hdz & [Hac Ho]%not_elem_of_cons). split; [by exists z|done].
Qed.

Lemma below_not_self f c l : wf f → lists_below f (kids f c) l → c ∉ l.
Proof. intros Hwf [_ Hel] (k & Hk & Hw)%Hel. exact (not_within f Hwf c k Hk Hw). Qed.

(** Deleting a root, given what deleting its children does. *)
Lemma delete_node_spec dc o h f c y l : ok_but o h f → f !! c = Some y → t_parent y = null → t_kind y ≠ DocumentKind → lists_below f (kids f c) l →
  (∀ h, ok_but (c :: o) h f → ∃ h', dc h c = Ok h' ∧ ok_but (c :: o) h' (childless c l f)) →
  ∃ h', static_DeleteNode dc h c = Ok h' ∧ ok_but o h' (delete c (childless c l f)).
Proof.
  intros Hok Hy Hp Hk Hl Hdc. pose proof (ok_wf _ _ _ Hok) as Hwf. assert (c ≠ null) as Hc0 by (intros ->; by rewrite wf_null in Hy).
  destruct (MarkInUse_ok o h f c y Hok Hy) as (h1 & E1 & Hok1). destruct (Hdc h1 Hok1) as (h2 & E2 & Hok2).
  assert (childless c l f !! c = Some (with_kids [] y)) as Hy2. { rewrite childless_lookup, decide_False, decide_True, Hy by (done || by eapply below_not_self). done. }
  destruct (Free_ok o h2 (childless c l f) c (with_kids [] y) Hok2 Hy2) as (h3 & E3 & Hok3); try done. exists h3. split; [|done].
  unfold static_DeleteNode. rewrite (proj2 (Z.eqb_neq c null)) by done. rewrite (rd_some _ h c _ (linked_some h f (ok_linked _ _ _ Hok) c y Hy)), ok_bind. cbn [concrete _kind].
  unfold is_document. rewrite bool_decide_eq_false_2 by done. cbn [negb]. rewrite E1, ok_bind. unfold XMLNode_delete. rewrite E2, ok_bind.
  rewrite (rd_some _ h2 c _ (linked_some h2 _ (ok_linked _ _ _ Hok2) c _ Hy2)), ok_bind. cbn [concrete _parent with_kids t_parent]. rewrite Hp. cbn [Z.eqb negb]. change (null =? null) with true. cbn [negb]. by rewrite ok_bind.
Qed.

Lemma delete_child_spec dc o h f p c l : ok_but o h f → c ∈ kids f p → lists_below (detach c f) (kids (detach c f) c) l →
  (∀ h, ok_but (c :: c :: o) h (detach c f) → ∃ h', dc h c = Ok h' ∧ ok_but (c :: c :: o) h' (childless c l (detach c f))) →
  ∃ h', delete_child dc h p c = Ok h' ∧ ok_but o h' (delete c (childless c l (detach c f))).
Proof.
  intros Hok Hc Hl Hdc. pose proof (ok_wf _ _ _ Hok) as Hwf. destruct (wf_kids f Hwf p c Hc) as (y & Hy & Hp). destruct (Unlink_ok o h f c p y Hok Hy Hc) as (h1 & E1 & Hok1).
  assert (t_kind y ≠ DocumentKind) as Hk. { intros Hk. destruct (wf_document f Hwf c y Hy Hk) as [Hn _]. exact (root_no_parent f Hwf c y p Hy Hn Hc). }
  destruct (delete_node_spec dc (c :: o) h1 (detach c f) c (with_parent null (with_kids (filter (λ b, b ≠ c) (t_kids y)) y)) l) as (h2 & E2 & Hok2); try done.
  { rewrite detach_node, Hy by done. cbn. by rewrite decide_True. }
  exists h2. split; [unfold delete_child; by rewrite E1, ok_bind|]. eapply ok_but_drop; [|exact Hok2]. apply lookup_delete_eq.
Qed.

(** The forest after a child and its descendants [l] are gone. *)
Definition removed (c : Z) (l : list Z) (f : forest) : forest := delete c (childless c l (detach c f)).

Lemma removed_lookup c l f z : wf f → removed c l f !! z = if decide (z = c ∨ z ∈ l) then None else (λ x, with_kids (filter (λ b, b ≠ c) (t_kids x)) x) <$> f !! z.
Proof.
  intros Hwf. unfold removed. rewrite lookup_delete, childless_lookup, detach_node by done. repeat case_decide; subst; try done; try (exfalso; naive_solver). all: by destruct (f !! z).
Qed.

Lemma removed_kids c l f z : wf f → kids (removed c l f) z = if decide (z = c ∨ z ∈ l) then [] else filter (λ b, b ≠ c) (kids f z).
Proof. intros Hwf. unfold kids at 1. rewrite removed_lookup by done. case_decide; [done|]. unfold kids. by destruct (f !! z). Qed.

Lemma nodup_shorter (c : Z) (l l' : list Z) : NoDup l → c ∉ l → (∀ x, x = c ∨ x ∈ l → x ∈ l') → (length l < length l')%nat.
Proof.
  intros Hnd Hc Hin. apply (submseteq_length (c :: l) l'), NoDup_submseteq; [by constructor|]. intros x [->|?]%elem_of_cons; apply Hin; [by left|by right].
Qed.

(** The subtree of [c] is not changed by taking [c] out. *)
Lemma below_detached f c x : wf f → (∃ k, k ∈ kids (detach c f) c ∧ within (detach c f) x k) ↔ ∃ k, k ∈ kids f c ∧ within f x k.
Proof.
  intros Hwf. assert (∀ z, within f z c → kids (detach c f) z = kids f z) as Hag.
  { intros z Hz. rewrite kids_detach, filter_ne_id; [done| |done]. intros Hc. exact (not_within f Hwf z c Hc Hz). }
  rewrite Hag by constructor. apply exist_proper. intros k. split; intros [Hk Hw]; (split; [done|]); eapply within_agree; try exact Hw; intros z Hz; [symmetry|]; rewrite Hag; try done; try (by eapply rtc_r).
  all: try (symmetry; apply Hag). all: eapply rtc_r; [|exact Hk]; by eapply within_detach.
Qed.

Section round.
Context (f : forest) (Hwf : wf f) (a c : Z) (ks l lc : list Z) (E : kids f a = c :: ks) (Hl : lists_below f (kids f a) l)
  (Hlc : lists_below (detach c f) (kids (detach c f) c) lc).

Lemma child_in : c ∈ kids f a.
Proof using E. rewrite E. by left. Qed.

Lemma removed_in x : x = c ∨ x ∈ lc ↔ within f x c.
Proof using Hwf E Hlc. destruct Hlc as [_ Hel]. by rewrite Hel, below_detached, <- within_step. Qed.

Lemma removed_shorter : (length lc < length l)%nat.
Proof using Hwf E Hl Hlc.
  destruct Hl as [_ Hel], Hlc as [Hnd Helc]. apply (nodup_shorter c); [done| |].
  - intros Hc. apply Helc, (below_detached f c c Hwf) in Hc as (k & Hk & Hw). exact (not_within f Hwf c k Hk Hw).
  - intros x Hx%removed_in. apply Hel. exists c. split; [apply child_in|done].
Qed.

Lemma kids_rest z : within f z c ∨ kids (removed c lc f) z = if decide (z = a) then ks else kids f z.
Proof using Hwf E Hlc.
  rewrite removed_kids by done. case_decide as Hz; [left; by apply removed_in|]. right. destruct (decide (z = a)) as [->|Hza].
  - rewrite E, filter_cons_False by naive_solver. apply filter_ne_id. pose proof (wf_nodup f Hwf a) as Hnd. rewrite E in Hnd. by apply NoDup_cons in Hnd as [? _].
  - apply filter_ne_id. intros Hc. apply Hza. apply (parent_unique f Hwf z a c); [done|apply child_in].
Qed.

Lemma a_not_below : ¬ within f a c.
Proof using Hwf E. exact (not_within f Hwf a c child_in). Qed.

Lemma kids_left : kids (removed c lc f) a = ks.
Proof using Hwf E Hlc. destruct (kids_rest a) as [Hw| ->]; [by destruct a_not_below|by rewrite decide_True]. Qed.

Lemma below_left x k : k ∈ ks → within (removed c lc f) x k ↔ within f x k.
Proof using Hwf E Hlc.
  intros Hk. assert (k ∈ kids f a) as Hka by (rewrite E; by right). apply within_agree. intros z Hz. destruct (kids_rest z) as [Hw| ->].
  - assert (c = k) as ->; [|exfalso]. { exact (siblings_apart f Hwf a c k z child_in Hka Hw Hz). } pose proof (wf_nodup f Hwf a) as Hnd. rewrite E in Hnd. by apply NoDup_cons in Hnd as [? _].
  - rewrite decide_False; [done|]. intros ->. exact (not_within f Hwf a k Hka Hz).
Qed.

Lemma left_in l' : lists_below (removed c lc f) ks l' → ∀ x, x ∈ l ↔ within f x c ∨ x ∈ l'.
Proof using Hwf E Hl Hlc.
  intros [_ Hel'] x. destruct Hl as [_ Hel]. rewrite Hel, Hel', E. setoid_rewrite elem_of_cons. split.
  - intros (k & [->|Hk] & Hw); [by left|right; exists k; split; [done|]; by apply below_left].
  - intros [Hw|(k & Hk & Hw)]; [exists c; split; [by left|done]|exists k; split; [by right|]; by apply (below_left x k)].
Qed.

Lemma left_shorter l' : lists_below (removed c lc f) ks l' → (length l' < length l)%nat.
Proof using Hwf E Hl Hlc.
  intros Hl'. pose proof (left_in l' Hl') as Hin. destruct Hl' as [Hnd Hel']. apply (nodup_shorter c); [done| |].
  - intros (k & Hk & Hw)%Hel'. apply below_left in Hw; [|done]. assert (k ∈ kids f a) as Hka by (rewrite E; by right).
    assert (c = k) as -> by (apply (siblings_apart f Hwf a c k c child_in Hka); [constructor|done]). pose proof (wf_nodup f Hwf a) as Hnd'. rewrite E in Hnd'. by apply NoDup_cons in Hnd' as [? _].
  - intros x [->|Hx]; apply Hin; [left; constructor|by right].
Qed.

Lemma childless_left l' : lists_below (removed c lc f) ks l' → childless a l' (removed c lc f) = childless a l f.
Proof using Hwf E Hl Hlc.
  intros Hl'. pose proof (left_in l' Hl') as Hin. apply map_eq. intros z. rewrite !childless_lookup, removed_lookup by done. assert (z = c ∨ z ∈ lc ↔ within f z c) as Hz by apply removed_in.
  destruct (decide (z ∈ l')) as [Hzl|Hzl]; [rewrite decide_True; [done|]; apply Hin; by right|].
  destruct (decide (z = c ∨ z ∈ lc)) as [Hzc|Hzc].
  - rewrite (decide_True (P := z ∈ l)) by (apply Hin; left; by apply Hz). by case_decide.
  - rewrite (decide_False (P := z ∈ l)) by (intros [?|?]%Hin; naive_solver). case_decide as Hza; [by destruct (f !! z)|]. destruct (f !! z) as [x|] eqn:Hx; [|done]. cbn. f_equal.
    rewrite filter_ne_id; [by destruct x|]. rewrite <- (kids_some f z x Hx). intros Hc. apply Hza. apply (parent_unique f Hwf z a c); [done|apply child_in].
Qed.
End round.

Lemma childless_nil a f : kids f a = [] → childless a [] f = f.
Proof.
  intros Ek. apply map_eq. intros z. rewrite childless_lookup, decide_False by apply not_elem_of_nil. case_decide; [subst z|done]. destruct (f !! a) as [x|] eqn:Hx; [|done]. rewrite (kids_some _ _ _ Hx) in Ek. destruct x. cbn in *. by subst.
Qed.

Lemma delete_children_spec n : ∀ o h f a x l, ok_but o h f → f !! a = Some x → lists_below f (kids f a) l → (length l < n)%nat →
  ∃ h', delete_children n h a = Ok h' ∧ ok_but o h' (childless a l f).
Proof.
  induction n as [|n IH]; intros o h f a x l Hok Hx Hl Hn; [lia|]. pose proof (ok_wf _ _ _ Hok) as Hwf. pose proof (ok_linked _ _ _ Hok) as Hlk. pose proof (linked_some h f Hlk a x Hx) as Hna.
  cbn [delete_children]. rewrite (rd_some _ h a _ Hna), ok_bind. cbn [concrete _firstChild]. rewrite <- (kids_some _ _ _ Hx). destruct (kids f a) as [|c ks] eqn:E.
  - change (hd [] =? null) with true. cbn [negb]. destruct Hl as [_ Hel]. assert (l = []) as -> by (destruct l as [|z l]; [done|]; destruct (proj1 (Hel z) ltac:(by left)) as (k & Hk & _); by apply not_elem_of_nil in Hk).
    rewrite (childless_nil a f E). heap_run. eexists. split; [done|]. destruct Hok as [_ _ Hnd Hu]. split; [|done..]. intros z. rewrite <- (Hlk z).
    unfold concrete in Hna. rewrite <- (kids_some _ _ _ Hx), E in Hna. revert z. by_node.
  - assert (c ∈ kids f a) as Hc by (rewrite E; by left). assert (c ≠ null) as Hc0. { intros ->. by eapply kid_not_null. } change (hd (c :: ks)) with c. rewrite (proj2 (Z.eqb_neq c null)) by done. cbn [negb].
    destruct (wf_kids f Hwf a c Hc) as (y & Hy & Hp). assert (t_kind y ≠ DocumentKind) as Hk. { intros Hk. destruct (wf_document f Hwf c y Hy Hk) as [Hn' _]. exact (root_no_parent f Hwf c y a Hy Hn' Hc). }
    assert (wf (detach c f)) as Hwf1 by (apply wf_detach; [done|]; congruence). destruct (lists_below_exists (detach c f) Hwf1 c) as [lc Hlc]. rewrite <- E in Hl.
    pose proof (removed_shorter f Hwf a c ks l lc E Hl Hlc) as Hlt. destruct (delete_child_spec (delete_children n) o h f a c lc Hok Hc Hlc) as (h1 & E1 & Hok1).
    { intros h0 Hok0. destruct (detach_dom f c c y Hwf Hy) as [y1 Hy1]. apply (IH _ h0 _ c y1); [done..|lia]. }
    rewrite E1, ok_bind. fold (removed c lc f) in Hok1. pose proof (kids_left f Hwf a c ks lc E Hlc) as Ek. destruct (lists_below_exists _ (ok_wf _ _ _ Hok1) a) as [l' Hl']. rewrite Ek in Hl'.
    pose proof (left_shorter f Hwf a c ks l lc E Hl Hlc l' Hl') as Hlt'. rewrite <- (childless_left f Hwf a c ks l lc E Hl Hlc l' Hl').
    assert (∃ x1, removed c lc f !! a = Some x1) as [x1 Hx1].
    { rewrite removed_lookup by done. rewrite decide_False; [rewrite Hx; by eexists|]. intros Hac%(removed_in f Hwf a c ks lc E Hlc). exact (not_within f Hwf a c Hc Hac). }
    apply (IH o h1 _ a x1); [done|done|by rewrite Ek|lia].
Qed.

(** The heap and the forest have the same nodes. *)
Lemma linked_size h f : linked h f → size (nodes h) = size f.
Proof. intros Hl. rewrite <- !size_dom. f_equal. apply set_eq. intros a. rewrite !elem_of_dom, (Hl a). by rewrite fmap_is_Some. Qed.

Lemma DeleteChildren_spec o h f a x l : ok_but o h f → f !! a = Some x → lists_below f (kids f a) l → ∃ h', DeleteChildren h a = Ok h' ∧ ok_but o h' (childless a l f).
Proof.
  intros Hok Hx Hl. apply (delete_children_spec _ _ _ _ _ x); [done..|]. unfold dom_fuel. rewrite (linked_size h f (ok_linked _ _ _ Hok)).
  pose proof (lists_below_length f (ok_wf _ _ _ Hok) a l) as Hlt. rewrite Hx in Hlt. specialize (Hlt ltac:(by eexists) Hl). lia.
Qed.

Lemma DeleteChild_spec o h f p c l : ok_but o h f → c ∈ kids f p → lists_below (detach c f) (kids (detach c f) c) l →
  ∃ h', DeleteChild h p c = Ok h' ∧ ok_but o h' (removed c l f).
Proof.
  intros Hok Hc Hl. apply (delete_child_spec DeleteChildren o h f p c l Hok Hc Hl). intros h1 Hok1. pose proof (ok_wf _ _ _ Hok) as Hwf. destruct (wf_kids f Hwf p c Hc) as (y & Hy & _). destruct (detach_dom f c c y Hwf Hy) as [y1 Hy1].
  by apply (DeleteChildren_spec _ _ _ c y1).
Qed.

(** [XMLDocument::DeleteNode] frees a node and what is below it, wherever it is. *)
Lemma DeleteNode_spec o h f c y l : ok_but o h f → f !! c = Some y → t_kind y ≠ DocumentKind → lists_below (detach c f) (kids (detach c f) c) l →
  ∃ h', DeleteNode h c = Ok h' ∧ ok_but o h' (removed c l f).
Proof.
  intros Hok Hy Hk Hl. pose proof (ok_wf _ _ _ Hok) as Hwf. unfold DeleteNode. rewrite (rd_some _ h c _ (linked_some h f (ok_linked _ _ _ Hok) c y Hy)), ok_bind. cbn [concrete _parent].
  destruct (Z.eqb_spec (t_parent y) null) as [Hp|Hp]; cbn [negb]; [|apply (DeleteChild_spec o h f); [done| |done]; by apply wf_parent].
  unfold removed. rewrite (detach_root f c y) in * by done. apply (delete_node_spec _ o h f c y l); try done. intros h1 Hok1. by apply (DeleteChildren_spec _ _ _ c y).
Qed.
End delete.
