(* ===== verification/TinyClone.v ===== *)
(** * TinyClone: new nodes, values, copies and printing of the nodes of TinyDom

    [stands_for] says that a subtree in memory is an XML value of TinyDocs.  Copying a subtree
    makes new nodes that stand for the same value, and printing one prints the value. *)

From S2P Require Import Prelude TinyText TinyXml TinyDocs TinyDom TinyLinks TinyEdit TinyDelete.
#[local] Open Scope Z_scope.

(** ** Nodes whose links stay as they are *)
Definition same_links (x x' : tree_node) : Prop :=
  t_parent x' = t_parent x ∧ t_kids x' = t_kids x ∧ t_doc x' = t_doc x ∧ (t_kind x' = DocumentKind ↔ t_kind x = DocumentKind).

Lemma update_kids f a x x' z : f !! a = Some x → same_links x x' → kids (<[a := x']> f) z = kids f z.
Proof. intros Hx (_ & Hk & _). unfold kids. rewrite lookup_insert. case_decide; [subst z|done]. by rewrite Hx, Hk. Qed.

Lemma wf_update f a x x' : wf f → f !! a = Some x → same_links x x' → wf (<[a := x']> f).
Proof.
  intros Hwf Hx Hs. pose proof Hs as (Hp & Hk & Hd & Hkd). assert (∀ z, kids (<[a := x']> f) z = kids f z) as Hkids by (intros z; by eapply update_kids).
  assert (∀ z w, <[a := x']> f !! z = Some w → ∃ w', f !! z = Some w' ∧ t_parent w = t_parent w' ∧ t_doc w = t_doc w' ∧ (t_kind w = DocumentKind ↔ t_kind w' = DocumentKind)) as Hfrom.
  { intros z w. rewrite lookup_insert. case_decide as Ez; [|intros Hw; by exists w]. intros E. injection E as <-. subst z. by exists x. }
  assert (∀ z w, f !! z = Some w → ∃ w', <[a := x']> f !! z = Some w' ∧ t_parent w' = t_parent w ∧ t_doc w' = t_doc w ∧ (t_kind w' = DocumentKind ↔ t_kind w = DocumentKind)) as Hto.
  { intros z w Hw. rewrite lookup_insert. case_decide as Ez; [subst z|by exists w]. assert (w = x) as -> by congruence. by exists x'. }
  split.
  - rewrite lookup_insert_ne; [by apply wf_null|]. intros ->. by rewrite wf_null in Hx.
  - intros b c. rewrite Hkids. intros (w & Hw & Hpw)%wf_kids; [|done]. destruct (Hto c w Hw) as (w' & Hw' & Hpw' & _). exists w'. split; [done|]. congruence.
  - intros b. rewrite Hkids. by apply wf_nodup.
  - intros c w (w' & Hw' & Hpw & _)%Hfrom Hn. rewrite Hkids, Hpw in *. by apply wf_parent.
  - intros c w (w' & Hw' & Hpw & Hdw & _)%Hfrom Hn. rewrite Hpw in *. destruct (wf_doc f Hwf c w' Hw' Hn) as (v & Hv & Hdv). destruct (Hto _ v Hv) as (v' & Hv' & _ & Hdv' & _). exists v'. split; [done|]. congruence.
  - intros c w (w' & Hw' & Hpw & Hdw & Hkw)%Hfrom Hdk. rewrite Hpw, Hdw. apply (wf_document f Hwf c w' Hw'). by apply Hkw.
  - intros c w (w' & Hw' & _ & Hdw & _)%Hfrom. rewrite Hdw. destruct (wf_owner f Hwf c w' Hw') as (v & Hv & Hkv). destruct (Hto _ v Hv) as (v' & Hv' & _ & _ & Hkv'). exists v'. split; [done|]. by apply Hkv'.
  - eapply (wf_projected _ id); [|exact (wf_acyclic f Hwf)]. intros b c. unfold child_of. by rewrite Hkids.
Qed.

(** A new root. *)
Lemma wf_insert f a x : wf f → f !! a = None → a ≠ null → t_parent x = null → t_kids x = [] → t_kind x ≠ DocumentKind → (∃ y, f !! t_doc x = Some y ∧ t_kind y = DocumentKind) → wf (<[a := x]> f).
Proof.
  intros Hwf Ha Ha0 Hp Hk Hkd Hdoc. assert (∀ z, kids (<[a := x]> f) z = kids f z) as Hkids.
  { intros z. unfold kids. rewrite lookup_insert. case_decide; [subst z|done]. by rewrite Ha, Hk. }
  assert (∀ z w, f !! z = Some w → <[a := x]> f !! z = Some w) as Hto by (intros z w Hw; rewrite lookup_insert_ne; [done|]; congruence).
  assert (∀ z w, <[a := x]> f !! z = Some w → z = a ∧ w = x ∨ f !! z = Some w) as Hfrom.
  { intros z w. rewrite lookup_insert. case_decide; [left|by right]. split; congruence. }
  split.
  - rewrite lookup_insert_ne by done. by apply wf_null.
  - intros b c. rewrite Hkids. intros (w & Hw & Hpw)%wf_kids; [|done]. exists w. split; [by apply Hto|done].
  - intros b. rewrite Hkids. by apply wf_nodup.
  - intros c w [[-> ->]|Hw]%Hfrom Hn; [done|]. rewrite Hkids. by apply wf_parent.
  - intros c w [[-> ->]|Hw]%Hfrom Hn; [done|]. destruct (wf_doc f Hwf c w Hw Hn) as (v & Hv & Hdv). exists v. split; [by apply Hto|done].
  - intros c w [[-> ->]|Hw]%Hfrom; [done|]. by apply (wf_document f Hwf).
  - intros c w [[-> ->]|Hw]%Hfrom; [destruct Hdoc as (v & Hv & Hkv)|destruct (wf_owner f Hwf c w Hw) as (v & Hv & Hkv)]; (exists v; split; [by apply Hto|done]).
  - eapply (wf_projected _ id); [|exact (wf_acyclic f Hwf)]. intros b c. unfold child_of. by rewrite Hkids.
Qed.

(** ** Values in memory *)
Fixpoint nodes_of (v : xml) : nat := match v with Element _ _ vs => S (sum_list (nodes_of <$> vs)) | _ => 1 end.

Inductive stands_for (f : forest) : Z → xml → Prop :=
  | sf_text a x c : f !! a = Some x → t_kind x = TextKind c → t_kids x = [] → stands_for f a (Text (t_value x) c)
  | sf_comment a x : f !! a = Some x → t_kind x = CommentKind → t_kids x = [] → stands_for f a (Comment (t_value x))
  | sf_declaration a x : f !! a = Some x → t_kind x = DeclarationKind → t_kids x = [] → stands_for f a (Declaration (t_value x))
  | sf_unknown a x : f !! a = Some x → t_kind x = UnknownKind → t_kids x = [] → stands_for f a (Unknown (t_value x))
  | sf_element a x vs : f !! a = Some x → t_kind x = ElementKind → NoDup (t_attrs x).*1 → Forall2 (stands_for f) (t_kids x) vs →
      stands_for f a (Element (t_value x) (t_attrs x) vs).

(** The node, its children and their values. *)
Definition parts (v : xml) (x : tree_node) (vs : list xml) : Prop :=
  match v with
  | Text s c => t_kind x = TextKind c ∧ t_value x = s ∧ vs = []
  | Comment s => t_kind x = CommentKind ∧ t_value x = s ∧ vs = []
  | Declaration s => t_kind x = DeclarationKind ∧ t_value x = s ∧ vs = []
  | Unknown s => t_kind x = UnknownKind ∧ t_value x = s ∧ vs = []
  | Element n attrs us => t_kind x = ElementKind ∧ t_value x = n ∧ t_attrs x = attrs ∧ NoDup attrs.*1 ∧ vs = us
  end.

Lemma stands_for_parts f a v : stands_for f a v ↔ ∃ x vs, f !! a = Some x ∧ parts v x vs ∧ Forall2 (stands_for f) (t_kids x) vs.
Proof.
  split.
  - intros Hs. inversion Hs as [? x c Hx Hk Hc|? x Hx Hk Hc|? x Hx Hk Hc|? x Hx Hk Hc|? x vs Hx Hk Hn Hc]; subst; cbn [parts]; [exists x, []; by rewrite Hc..|by exists x, vs].
  - intros (x & vs & Hx & Hv & Hc). destruct v; cbn in Hv; destruct_and!; subst; [| | | |by constructor]; inversion Hc; by constructor.
Qed.

Lemma nodes_of_parts v x vs : parts v x vs → nodes_of v = S (sum_list (nodes_of <$> vs)).
Proof. destruct v; cbn; intros; destruct_and!; by subst. Qed.

Lemma parts_kind v x vs : parts v x vs → t_kind x ≠ DocumentKind.
Proof. destruct v; cbn; intros; destruct_and!; congruence. Qed.

(** Children and what is below them, counted. *)
Lemma lists_below_sum f a ks vs : wf f → NoDup ks → (∀ k, k ∈ ks → k ∈ kids f a) → Forall2 (λ k v, ∃ l, lists_below f (kids f k) l ∧ nodes_of v = S (length l)) ks vs →
  ∃ l, lists_below f ks l ∧ sum_list (nodes_of <$> vs) = length l.
Proof.
  intros Hwf Hnd Hin HF. induction HF as [|k v ks vs (lk & Hlk & En) HF IH]; [exists []; split; [split; [constructor|set_solver]|done]|].
  pose proof Hnd as [Hnk Hnd']%NoDup_cons. destruct IH as (l & Hl & El); [done|set_solver|]. exists (k :: lk ++ l). split; [by apply (lists_below_cons f Hwf a)|].
  change (nodes_of v + sum_list (nodes_of <$> vs) = length (k :: lk ++ l))%nat. cbn [length]. rewrite En, length_app. lia.
Qed.

Lemma stands_for_nodes f : wf f → ∀ v a, stands_for f a v → ∃ l, lists_below f (kids f a) l ∧ nodes_of v = S (length l).
Proof.
  intros Hwf v. induction v as [s c|s|s|s|n at_ vs IH] using xml_ind'; intros a (x & us & Hx & Hp & HF)%stands_for_parts; pose proof (kids_some _ _ _ Hx) as Ek; cbn in Hp; destruct_and!; subst us.
  1-4: exists []; inversion HF as [E1|]; rewrite Ek, <- E1; (split; [split; [constructor|set_solver]|done]).
  destruct (lists_below_sum f a (t_kids x) vs Hwf) as (l & Hl & El); [rewrite <- Ek; by apply wf_nodup|by rewrite Ek| |exists l; rewrite Ek; split; [done|]; cbn; by rewrite El].
  clear -HF IH. induction HF as [|k v ks vs Hk HF IHF]; constructor; apply Forall_cons in IH as [Hv IH]; [by apply Hv|by apply IHF].
Qed.

Lemma stands_for_sum f a vs : wf f → Forall2 (stands_for f) (kids f a) vs → ∃ l, lists_below f (kids f a) l ∧ sum_list (nodes_of <$> vs) = length l.
Proof.
  intros Hwf HF. apply (lists_below_sum f a); [done|by apply wf_nodup|done|]. eapply Forall2_impl; [exact HF|]. intros k v. by apply stands_for_nodes.
Qed.

(** Reading the children of [a] from the one at [cs] on. *)
Lemma kid_node h f a done c cs : linked h f → wf f → kids f a = done ++ c :: cs →
  ∃ n x, nodes h !! c = Some n ∧ f !! c = Some x ∧ n = concrete f c x ∧ _next n = hd cs ∧ _prev n = lst done ∧ c ≠ null.
Proof.
  intros Hl Hwf E. destruct (kid_linked h f Hl Hwf a c done cs E) as (y & Hy & Hp & Hn). eexists _, y. split; [exact Hn|]. split; [done|]. rewrite (linked_some h f Hl c y Hy) in Hn. split; [congruence|].
  split_and!; try done. intros ->. eapply (kid_not_null f Hwf a). rewrite E. set_solver.
Qed.

Section clone.
Context `{TinyxmlHOk} `{!TinyxmlDomH} `{!TinyxmlDomOk}.

Lemma adjust_ok o h f g a x x' : ok_but o h f → f !! a = Some x → same_links x x' → g (concrete f a x) = concrete f a x' →
  ∃ h', wr g h a = Ok h' ∧ ok_but o h' (<[a := x']> f).
Proof.
  intros [Hl Hwf Hnd Hu] Hx Hs Hg. pose proof (linked_some h f Hl a x Hx) as Hna. rewrite (wr_some g h a _ Hna). eexists. split; [done|]. pose proof Hs as (Hp & Hk & Hd & Hkd).
  split; [|by eapply wf_update|done|].
  - intros z. cbn. rewrite lookup_alter, lookup_insert. case_decide as Ez; [subst z; rewrite Hna; cbn; rewrite Hg|rewrite (Hl z)].
    + f_equal. unfold concrete. by rewrite (update_kids f a x x').
    + destruct (f !! z) as [w|]; [|done]. cbn. unfold concrete. by rewrite (update_kids f a x x').
  - intros d z. change (_unlinked _ d) with (_unlinked h d). rewrite Hu, lookup_insert. case_decide as Ez; [subst z|done]. split; intros (w & Hw & Hpw & Hkw & Hdw & Ho).
    + assert (w = x) as -> by congruence. exists x'. split_and!; try done; [congruence|naive_solver|congruence].
    + injection Hw as <-. exists x. split_and!; try done; [congruence|naive_solver|congruence].
Qed.

Definition with_value (s : list Z) x := mk_tree_node (t_kind x) (t_doc x) (t_parent x) s (t_attrs x) (t_kids x).
Definition with_attrs (l : list attribute) x := mk_tree_node (t_kind x) (t_doc x) (t_parent x) (t_value x) l (t_kids x).

Lemma SetValue_spec o h f a x s : ok_but o h f → f !! a = Some x → ∃ h', SetValue h a s = Ok h' ∧ ok_but o h' (<[a := with_value s x]> f).
Proof. intros Hok Hx. by apply (adjust_ok o h f (set_value s) a x (with_value s x)). Qed.

(** A node that does not exist yet. *)
Definition new_root (k : kind) (doc : Z) (s : list Z) : tree_node := mk_tree_node k doc null s [] [].

Lemma new_node_spec h f k doc y s : ok h f → f !! doc = Some y → t_kind y = DocumentKind → k ≠ DocumentKind →
  ∃ h' a, new_node h k doc s = Ok (h', a) ∧ a ≠ null ∧ f !! a = None ∧ ok h' (<[a := new_root k doc s]> f).
Proof.
  intros [Hl Hwf Hnd Hu] Hy Hdoc Hk. unfold new_node. destruct (CreateUnlinkedNode k doc h) as [a h1] eqn:E. destruct (create_unlinked _ _ _ _ _ E) as (Ha0 & Ha & Hn & Hun).
  assert (f !! a = None) as Hfa by (rewrite (Hl a) in Ha; by apply fmap_None in Ha). assert (∀ d, _unlinked h1 d = if decide (d = doc) then _unlinked h doc ++ [a] else _unlinked h d) as Hud.
  { intros d. unfold _unlinked at 1. rewrite Hun, lookup_insert. repeat case_decide; congruence || done. }
  assert (ok h1 (<[a := new_root k doc []]> f)) as Hok1.
  { split.
    - intros z. rewrite Hn, !lookup_insert. case_decide as Ez; [subst z; cbn|rewrite (Hl z); destruct (f !! z) as [w|]; [|done]; cbn]; f_equal; unfold concrete; cbn.
      + unfold kids. rewrite lookup_insert_ne, wf_null by done. done.
      + assert (kids (<[a := new_root k doc []]> f) (t_parent w) = kids f (t_parent w)) as ->; [|done]. unfold kids. rewrite lookup_insert. case_decide as Ep; [|done]. rewrite <- Ep, Hfa. done.
    - apply wf_insert; try done. by exists y.
    - intros d. rewrite Hud. case_decide; [|done]. apply NoDup_app. split; [done|]. split; [|by apply NoDup_singleton]. intros z Hz ->%list_elem_of_singleton. apply Hu in Hz as (w & Hw & _). congruence.
    - intros d z. rewrite Hud, lookup_insert. case_decide as Ed; [subst d; rewrite elem_of_app, list_elem_of_singleton|]; rewrite Hu; case_decide as Ez; try done.
      + subst z. split; [intros _; eexists; split_and!; try done; apply not_elem_of_nil|by right].
      + split; [intros [?|?]; [done|congruence]|by left].
      + subst z. split; [intros (w & Hw & _); congruence|]. intros (w & Hw & _ & _ & Hdw & _). injection Hw as <-. done. }
  destruct (SetValue_spec [] h1 _ a (new_root k doc []) s Hok1) as (h2 & E2 & Hok2); [apply lookup_insert_eq|]. rewrite E2, ok_bind. exists h2, a. rewrite insert_insert_eq in Hok2. split; [reflexivity|]. split; [exact Ha0|]. split; [exact Hfa|exact Hok2].
Qed.

(** ** Printing *)
Lemma accept_spec h f : linked h f → wf f → ∀ fuel vs a done cs in_element p, kids f a = done ++ cs → Forall2 (stands_for f) cs vs → (sum_list (nodes_of <$> vs) < fuel)%nat →
  accept_loop fuel in_element h (hd cs) p = Ok (foldl (print_node in_element) p vs).
Proof.
  intros Hl Hwf. induction fuel as [|fuel IH]; intros vs a don cs ie p E HF Hf; [lia|]. destruct HF as [|c v cs vs Hv HF]; [done|]. change (hd (c :: cs)) with c.
  destruct (kid_node h f a don c cs Hl Hwf E) as (n & x & Hn & Hx & -> & Hnext & _ & Hc0). cbn [accept_loop foldl]. rewrite (proj2 (Z.eqb_neq c null)) by done. rewrite !(rd_some _ h c _ Hn), !ok_bind. rewrite Hnext. cbn [concrete _kind _value _attributes].
  apply stands_for_parts in Hv as (x' & us & Hx' & Hp & HFc). assert (x' = x) as -> by congruence. pose proof (nodes_of_parts _ _ _ Hp) as En. change (nodes_of v + sum_list (nodes_of <$> vs) < S fuel)%nat in Hf.
  assert (∀ p, accept_loop fuel ie h (hd cs) p = Ok (foldl (print_node ie) p vs)) as Hrest. { intros q. apply (IH vs a (don ++ [c])); [by rewrite <- app_assoc|done|lia]. }
  destruct v as [s c'|s|s|s|s attrs l]; cbn in Hp; destruct_and!; match goal with Hk : t_kind x = _ |- _ => rewrite Hk end; subst; rewrite ?ok_bind; try (rewrite Hrest; done).
  cbn [concrete _firstChild]. erewrite (IH l c [] (t_kids x)); [|by rewrite (kids_some _ _ _ Hx)|done|lia]. rewrite !ok_bind, Hrest. done.
Qed.

(** ** Elements among the children *)
Definition named (f : forest) (name : option (list Z)) (a : Z) : bool :=
  match f !! a with Some x => is_element (t_kind x) && match name with Some s => StringEqual (t_value x) s | None => true end | None => false end.

Lemma ToElementWithName_spec h f a x name : linked h f → wf f → f !! a = Some x → ToElementWithName h a name = Ok (if named f name a then a else null).
Proof.
  intros Hl Hwf Hx. unfold ToElementWithName, named. rewrite !(rd_some _ h a _ (linked_some h f Hl a x Hx)), ok_bind, Hx. cbn [concrete _kind _value].
  destruct (is_element (t_kind x)); [|done]. destruct name; [by rewrite ok_bind|done].
Qed.

(** The first element of that name from a child on, following [_next] or [_prev]. *)
Lemma element_loop_spec h f name step : linked h f → wf f → ∀ l fuel, (∀ l1 c l2, l = l1 ++ c :: l2 → ∃ x, f !! c = Some x ∧ c ≠ null ∧ step (concrete f c x) = hd l2) → (length l < fuel)%nat →
  element_loop fuel step h (hd l) name = Ok (hd (filter (named f name) l)).
Proof.
  intros Hl Hwf. induction l as [|c l IH]; intros [|fuel] Hs Hf; cbn [length] in Hf; try lia; [done|]. destruct (Hs [] c l eq_refl) as (x & Hx & Hc0 & Hstep). change (hd (c :: l)) with c. cbn [element_loop].
  rewrite (proj2 (Z.eqb_neq c null)), (ToElementWithName_spec h f c x), ok_bind by done. rewrite filter_cons. destruct (named f name c); cbn [negb Is_true].
  - rewrite (proj2 (Z.eqb_neq c null)) by done. by rewrite decide_True.
  - change (null =? null) with true. cbn [negb]. rewrite (rd_some _ h c _ (linked_some h f Hl c x Hx)), ok_bind, Hstep, decide_False by naive_solver. apply IH; [|lia].
    intros l1 d l2 ->. by apply (Hs (c :: l1)).
Qed.

Lemma filter_hd_reverse (P : Z → Prop) `{∀ x, Decision (P x)} l : hd (filter P (reverse l)) = lst (filter P l).
Proof. by rewrite filter_reverse, hd_reverse. Qed.

Lemma kids_fuel h f p : linked h f → wf f → (length (kids f p) < dom_fuel h)%nat.
Proof.
  intros Hl Hwf. unfold dom_fuel. rewrite (linked_size h f Hl). destruct (f !! p) as [x|] eqn:Hx; [|unfold kids; rewrite Hx; cbn; lia]. destruct (lists_below_exists f Hwf p) as [l Hlb].
  pose proof (lists_below_length f Hwf p l ltac:(by eexists) Hlb) as Hlt. assert (length (kids f p) ≤ length l)%nat; [|lia].
  apply submseteq_length, NoDup_submseteq; [by apply wf_nodup|]. intros k Hk. apply Hlb. exists k. split; [done|constructor].
Qed.

(** The children from one on, and those before one, backwards. *)
Lemma next_elements h f name p done cs : linked h f → wf f → kids f p = done ++ cs → element_loop (dom_fuel h) _next h (hd cs) name = Ok (hd (filter (named f name) cs)).
Proof.
  intros Hl Hwf E. pose proof (kids_fuel h f p Hl Hwf) as Hlen. rewrite E, length_app in Hlen. apply (element_loop_spec h f); try done; [|lia]. intros l1 c l2 ->. destruct (kid_node h f p (done ++ l1) c l2 Hl Hwf) as (n & x & _ & Hx & -> & Hnext & _ & Hc0); [by rewrite <- app_assoc|]. by exists x.
Qed.

Lemma previous_elements h f name p cs rest : linked h f → wf f → kids f p = cs ++ rest → element_loop (dom_fuel h) _prev h (lst cs) name = Ok (lst (filter (named f name) cs)).
Proof.
  intros Hl Hwf E. rewrite <- hd_reverse, <- filter_hd_reverse. pose proof (kids_fuel h f p Hl Hwf) as Hlen. rewrite E, length_app in Hlen.
  apply (element_loop_spec h f); try done; [|rewrite length_reverse; lia]. intros l1 c l2 Er. assert (cs = reverse l2 ++ c :: reverse l1) as Ec by (by rewrite <- (reverse_involutive cs), Er, reverse_app, reverse_cons, <- app_assoc).
  destruct (kid_node h f p (reverse l2) c (reverse l1 ++ rest) Hl Hwf) as (n & x & _ & Hx & -> & _ & Hprev & Hc0); [by rewrite E, Ec, <- app_assoc|]. exists x. split_and!; try done. by rewrite Hprev, <- hd_reverse, reverse_involutive.
Qed.

(** ** Copies *)
Lemma FindOrCreateAttribute_new l n : n ∉ l.*1 → FindOrCreateAttribute l n = (l ++ [(n, [])], length l).
Proof.
  induction l as [|a l IH]; intros Hn; [done|]. cbn in Hn. apply not_elem_of_cons in Hn as [Ha Hn]. cbn. rewrite string_equal, bool_decide_eq_false_2 by congruence. by rewrite IH.
Qed.

Lemma set_attribute_last l n v : set_attribute_value (l ++ [(n, [])]) (length l) v = l ++ [(n, v)].
Proof. unfold set_attribute_value. induction l as [|a l IH]; [done|]. cbn. by f_equal. Qed.

Lemma clone_attributes_id l : NoDup l.*1 → clone_attributes l = l.
Proof.
  intros Hnd. unfold clone_attributes. assert (∀ acc, NoDup (acc ++ l).*1 → foldl (λ l a, SetAttribute l a.1 a.2) acc l = acc ++ l) as Hacc; [|by apply Hacc].
  clear Hnd. induction l as [|[n v] l IH]; intros acc Hnd; [by rewrite app_nil_r|]. cbn [foldl fst snd]. rewrite set_attribute, FindOrCreateAttribute_new, set_attribute_last, IH.
  - by rewrite <- app_assoc.
  - by rewrite <- app_assoc.
  - rewrite fmap_app in Hnd. apply NoDup_app in Hnd as (_ & Hd & _). intros Hin. apply (Hd n Hin). by left.
Qed.

Lemma ShallowClone_spec h f a x v vs target d y : ok h f → f !! a = Some x → parts v x vs → (if target =? null then t_doc x else target) = d → f !! d = Some y → t_kind y = DocumentKind →
  ∃ h' b x', ShallowClone h a target = Ok (h', b) ∧ b ≠ null ∧ f !! b = None ∧ ok h' (<[b := x']> f) ∧ t_parent x' = null ∧ t_kids x' = [] ∧ t_doc x' = d ∧ parts v x' vs.
Proof.
  intros Hok Hx Hp Hd Hy Hk. pose proof (ok_linked _ _ _ Hok) as Hl. unfold ShallowClone. rewrite !(rd_some _ h a _ (linked_some h f Hl a x Hx)), !ok_bind. cbn [concrete _document _kind _value]. rewrite Hd.
  destruct v as [s c|s|s|s|s attrs l]; cbn in Hp; destruct_and!; match goal with Hk : t_kind x = _ |- _ => rewrite Hk end.
  - destruct (new_node_spec h f (TextKind false) d y (t_value x) Hok Hy Hk ltac:(done)) as (h1 & b & E1 & Hb0 & Hb & Hok1). unfold NewText. rewrite E1, ok_bind.
    destruct (adjust_ok [] h1 _ (λ n, mk_dom_node (TextKind c) (_document n) (_parent n) (_value n) (_firstChild n) (_lastChild n) (_prev n) (_next n) (_attributes n)) b (new_root (TextKind false) d (t_value x)) (new_root (TextKind c) d (t_value x)) Hok1) as (h2 & E2 & Hok2); [apply lookup_insert_eq|by repeat split|done|].
    rewrite E2, ok_bind, insert_insert_eq in *. exists h2, b, (new_root (TextKind c) d (t_value x)). by split_and!.
  - destruct (new_node_spec h f CommentKind d y (t_value x) Hok Hy Hk ltac:(done)) as (h1 & b & E1 & Hb0 & Hb & Hok1). exists h1, b, (new_root CommentKind d (t_value x)). by split_and!.
  - destruct (new_node_spec h f DeclarationKind d y (t_value x) Hok Hy Hk ltac:(done)) as (h1 & b & E1 & Hb0 & Hb & Hok1). exists h1, b, (new_root DeclarationKind d (t_value x)). by split_and!.
  - destruct (new_node_spec h f UnknownKind d y (t_value x) Hok Hy Hk ltac:(done)) as (h1 & b & E1 & Hb0 & Hb & Hok1). exists h1, b, (new_root UnknownKind d (t_value x)). by split_and!.
  - destruct (new_node_spec h f ElementKind d y (t_value x) Hok Hy Hk ltac:(done)) as (h1 & b & E1 & Hb0 & Hb & Hok1). unfold NewElement. rewrite E1, ok_bind.
    assert (<[b := new_root ElementKind d (t_value x)]> f !! a = Some x) as Hxa by (rewrite lookup_insert_ne; [done|congruence]).
    rewrite (rd_some _ h1 a _ (linked_some h1 _ (ok_linked _ _ _ Hok1) a x Hxa)), ok_bind. cbn [concrete _attributes]. subst attrs. rewrite clone_attributes_id by done.
    destruct (adjust_ok [] h1 _ (set_attributes (t_attrs x)) b (new_root ElementKind d (t_value x)) (with_attrs (t_attrs x) (new_root ElementKind d (t_value x))) Hok1) as (h2 & E2 & Hok2); [apply lookup_insert_eq|by repeat split|done|].
    rewrite E2, ok_bind, insert_insert_eq in *. exists h2, b, (with_attrs (t_attrs x) (new_root ElementKind d (t_value x))). by split_and!.
Qed.

(** A subtree whose nodes are all kept stands for the same value. *)
Lemma stands_for_frame f f' v : ∀ a, (∀ w x, within f w a → f !! w = Some x → f' !! w = Some x) → stands_for f a v → stands_for f' a v.
Proof.
  assert (∀ vs ks a, (∀ k, k ∈ ks → k ∈ kids f a) → (∀ w x, within f w a → f !! w = Some x → f' !! w = Some x) →
    Forall (λ v, ∀ a, (∀ w x, within f w a → f !! w = Some x → f' !! w = Some x) → stands_for f a v → stands_for f' a v) vs → Forall2 (stands_for f) ks vs → Forall2 (stands_for f') ks vs) as Hks.
  { intros vs ks a Hin Hfr Hall HF. induction HF as [|k v' ks vs Hk HF IH]; [constructor|]. apply Forall_cons in Hall as [Hv Hall]. constructor; [|apply IH; [|done]; intros; apply Hin; by right].
    apply Hv; [|done]. intros w x Hw. apply Hfr. eapply rtc_r; [exact Hw|]. apply Hin. by left. }
  induction v as [s c|s|s|s|n attrs vs IH] using xml_ind'; intros a Hfr (x & us & Hx & Hp & HF)%stands_for_parts; apply stands_for_parts; exists x, us; (split; [apply Hfr; [constructor|done]|]); (split; [done|]);
    cbn in Hp; destruct_and!; subst us; [by inversion HF; constructor..|]. apply (Hks vs _ a); try done. by rewrite (kids_some _ _ _ Hx).
Qed.

Lemma stands_for_frame_all f f' ks vs : (∀ k w x, k ∈ ks → within f w k → f !! w = Some x → f' !! w = Some x) → Forall2 (stands_for f) ks vs → Forall2 (stands_for f') ks vs.
Proof.
  intros Hfr HF. induction HF as [|k v ks vs Hk HF IH]; [constructor|]. constructor; [|apply IH; intros k' w x0 Hk'; apply (Hfr k'); by right].
  apply (stands_for_frame f); [|done]. intros w x0. apply Hfr. by left.
Qed.

(** Upwards, a node that was there before sees what it saw before. *)
Lemma within_old f f' w a : wf f → wf f' → (∀ w x, f !! w = Some x → ∃ x', f' !! w = Some x' ∧ t_parent x' = t_parent x) → is_Some (f !! w) → within f' w a → within f w a.
Proof.
  intros Hwf Hwf' Hold Hw Hin. revert Hw. induction Hin as [u|w y a Hwy Hya IH]; intros [x Hx]; [constructor|]. destruct (Hold w x Hx) as (x' & Hx' & Hp).
  destruct (wf_kids f' Hwf' y w Hwy) as (x2 & Hx2 & Hpy). assert (t_parent x = y) as Hy by congruence. assert (y ≠ null) as Hy0. { intros ->. unfold child_of in Hwy. by rewrite (kids_null f' Hwf') in Hwy; apply not_elem_of_nil in Hwy. }
  pose proof (wf_parent f Hwf w x Hx) as Hpar. rewrite Hy in Hpar. specialize (Hpar Hy0). eapply rtc_l; [exact Hpar|]. apply IH. by apply (kid_in f y w).
Qed.

(** Appending a root that stands for a value. *)
Lemma insert_copy h f clone z b x v : ok h f → f !! clone = Some z → f !! b = Some x → t_parent x = null → t_doc x = t_doc z → ¬ within f clone b → stands_for f b v →
  ∃ h' f', InsertEndChild h clone b = Ok (h', b) ∧ ok h' f' ∧ f' !! clone = Some (with_kids (t_kids z ++ [b]) z) ∧ (∀ w y, f !! w = Some y → w ≠ clone → w ≠ b → f' !! w = Some y) ∧
    f' !! b = Some (with_parent clone x) ∧ stands_for f' b v.
Proof.
  intros Hok Hz Hx Hp Hd Hn Hs. pose proof (ok_wf _ _ _ Hok) as Hwf. pose proof Hs as (x' & us & Hx' & Hpt & HF)%stands_for_parts. assert (x' = x) as -> by congruence. pose proof (parts_kind _ _ _ Hpt) as Hk.
  destruct (InsertEndChild_spec h f clone b Hok) as (h' & E & Hok'); [by exists z, x|]. rewrite (detach_root f b x) in Hok' by done. eexists h', _. split; [exact E|]. split; [exact Hok'|].
  assert (clone ≠ b) as Hcb by (intros ->; apply Hn; constructor). pose proof (attach_node f clone b (λ l, l ++ [b]) (kids f clone) [] z x Hz Hx) as Hat. rewrite app_nil_r in Hat. specialize (fun w => Hat eq_refl eq_refl Hcb w) as Hat'.
  assert (∀ w y, f !! w = Some y → w ≠ clone → w ≠ b → graft clone b (λ l, l ++ [b]) f !! w = Some y) as Hfr. { intros w y Hw Hwc Hwb. rewrite Hat', Hw. cbn. by rewrite !decide_False by done. }
  assert (graft clone b (λ l, l ++ [b]) f !! b = Some (with_parent clone x)) as Hb by (rewrite Hat', Hx; cbn; by rewrite decide_True).
  split_and!; try done.
  - rewrite Hat', Hz. cbn. rewrite decide_False, decide_True by done. by rewrite (kids_some _ _ _ Hz).
  - apply stands_for_parts. exists (with_parent clone x), us. split; [done|]. split; [by destruct v|]. cbn [with_parent t_kids]. apply (stands_for_frame_all f); [|done].
    rewrite <- (kids_some _ _ _ Hx). intros k w y Hkb Hw Hy. apply Hfr; [done| |].
    + intros ->. apply Hn. eapply rtc_r; [exact Hw|exact Hkb].
    + intros ->. exact (not_within f Hwf b k Hkb Hw).
Qed.

(** The children from [cs] on are copied behind those of [clone]; no other node changes. *)
Definition copied (f : forest) (clone : Z) (z : tree_node) (vs : list xml) (f' : forest) : Prop :=
  (∀ w x, f !! w = Some x → w ≠ clone → f' !! w = Some x) ∧ ∃ bs, f' !! clone = Some (with_kids (t_kids z ++ bs) z) ∧ Forall2 (stands_for f') bs vs.

(** One round: what the copy of a child gives, when its children have been copied. *)
Lemma clone_round h1 f f2 a done c cs clone z b x' v us : wf f → kids f a = done ++ c :: cs → f !! clone = Some z → ¬ within f clone a → f !! b = None → t_parent x' = null → t_kids x' = [] → t_doc x' = t_doc z → parts v x' us →
  ok h1 f2 → copied (<[b := x']> f) b x' us f2 →
  ∃ h2 f3, InsertEndChild h1 clone b = Ok (h2, b) ∧ ok h2 f3 ∧ copied f clone z [v] f3 ∧ f3 !! clone = Some (with_kids (t_kids z ++ [b]) z) ∧ (∀ w x, f !! w = Some x → ∃ y, f3 !! w = Some y ∧ t_parent y = t_parent x).
Proof.
  intros Hwf E Hz Hnot Hb Hp Hk Hd Hpt Hok (Hfr & bs & Hb2 & HF). rewrite Hk in Hb2. cbn [app] in Hb2.
  assert (∀ w x, f !! w = Some x → f2 !! w = Some x) as Hold. { intros w x Hw. apply Hfr; [|congruence]. rewrite lookup_insert_ne; congruence. }
  assert (stands_for f2 b v) as Hs. { apply stands_for_parts. exists (with_kids bs x'), us. split; [done|]. split; [by destruct v|done]. }
  assert (¬ within f2 clone b) as Hnb.
  { intros Hw. assert (within f clone b) as Hwo. { apply (within_old f f2); [done|by apply ok_wf in Hok| |by eexists|done]. intros w x Hx. exists x. split; [by apply Hold|done]. }
    apply within_step in Hwo as [->|(k & Hkb & _)]; [congruence|]. apply kid_in in Hkb as [? ?]. congruence. }
  destruct (insert_copy h1 f2 clone z b (with_kids bs x') v Hok) as (h2 & f3 & E3 & Hok3 & Hc3 & Hfr3 & Hb3 & Hs3); try done; [by apply Hold|].
  exists h2, f3. split; [done|]. split; [done|]. split; [split|split; [done|]].
  - intros w x Hw Hwc. apply Hfr3; [by apply Hold|done|congruence].
  - exists [b]. split; [done|]. by repeat constructor.
  - intros w x Hw. destruct (decide (w = clone)) as [->|Hwc]; [rewrite Hc3; assert (x = z) as -> by congruence; by eexists|]. exists x. split; [|done]. apply Hfr3; [by apply Hold|done|congruence].
Qed.

Lemma copied_cons f f3 f' clone z b v vs : wf f3 → f3 !! clone = Some (with_kids (t_kids z ++ [b]) z) → copied f clone z [v] f3 → copied f3 clone (with_kids (t_kids z ++ [b]) z) vs f' → copied f clone z (v :: vs) f'.
Proof.
  intros Hwf Hc (Hfr & bs1 & Hc1 & HF1) (Hfr' & bs & Hc' & HF'). split; [intros w x Hw Hwc; apply Hfr'; [by apply Hfr|done]|]. exists (b :: bs). split; [rewrite Hc'; cbn; by rewrite <- app_assoc|].
  constructor; [|done]. assert (bs1 = [b]) as ->. { rewrite Hc1 in Hc. injection Hc as Hc. by apply app_inv_head in Hc. } inversion HF1 as [|? ? ? ? Hb _]; subst.
  apply (stands_for_frame f3); [|done]. intros w x Hw Hx. apply Hfr'; [done|]. intros ->. apply (not_within f3 Hwf clone b); [|done]. rewrite (kids_some _ _ _ Hc). cbn. set_solver.
Qed.

Lemma copied_nil f clone z : f !! clone = Some z → copied f clone z [] f.
Proof. intros Hz. split; [done|]. exists []. rewrite app_nil_r. split; [by destruct z|constructor]. Qed.

Lemma copied_doc f clone z vs f' d y : copied f clone z vs f' → f !! clone = Some z → f !! d = Some y → ∃ y', f' !! d = Some y' ∧ t_kind y' = t_kind y.
Proof. intros (Hfr & bs & Hc & _) Hz Hd. destruct (decide (d = clone)) as [->|Hdc]; [rewrite Hc; assert (y = z) as -> by congruence; by eexists|exists y; split; [by apply Hfr|done]]. Qed.

Lemma clone_loop_spec fuel : ∀ h f vs a done cs clone z target d y, ok h f → kids f a = done ++ cs → Forall2 (stands_for f) cs vs → f !! clone = Some z → t_doc z = d → f !! d = Some y → t_kind y = DocumentKind →
  ¬ within f clone a → (∀ x, f !! a = Some x → (if target =? null then t_doc x else target) = d) → (sum_list (nodes_of <$> vs) < fuel)%nat →
  ∃ h' f', clone_loop fuel h (hd cs) clone target = Ok h' ∧ ok h' f' ∧ copied f clone z vs f'.
Proof.
  induction fuel as [|fuel IH]; intros h f vs a don cs clone z target d y Hok E HF Hz Hzd Hy Hyk Hnot Htg Hf; [lia|]. pose proof (ok_wf _ _ _ Hok) as Hwf. pose proof (ok_linked _ _ _ Hok) as Hl.
  destruct HF as [|c v cs vs Hv HF]; [exists h, f; split; [done|]; split; [done|]; by apply copied_nil|]. change (hd (c :: cs)) with c. destruct (kid_node h f a don c cs Hl Hwf E) as (n & x & Hn & Hx & -> & _ & _ & Hc0).
  cbn [clone_loop]. rewrite (proj2 (Z.eqb_neq c null)) by done. change (nodes_of v + sum_list (nodes_of <$> vs) < S fuel)%nat in Hf. pose proof Hv as (x0 & us & Hx0 & Hpt & HFc)%stands_for_parts. assert (x0 = x) as -> by congruence.
  pose proof (nodes_of_parts _ _ _ Hpt) as En. assert (c ∈ kids f a) as Hca by (rewrite E; set_solver). destruct (wf_kids f Hwf a c Hca) as (x1 & Hx1 & Hpar). assert (x1 = x) as -> by congruence.
  assert ((if target =? null then t_doc x else target) = d) as Htc. { destruct (wf_doc f Hwf c x Hx) as (xa & Hxa & Hda); [rewrite Hpar; intros ->; by rewrite (kids_null f Hwf) in E; destruct don|]. rewrite Hpar in Hxa. rewrite <- (Htg xa Hxa). by rewrite Hda. }
  destruct (ShallowClone_spec h f c x v us target d y Hok Hx Hpt Htc Hy Hyk) as (h1 & b & x' & E1 & Hb0 & Hb & Hok1 & Hp' & Hk' & Hd' & Hpt'). rewrite E1, ok_bind. rewrite (proj2 (Z.eqb_neq b null)) by done.
  set (f1 := <[b := x']> f) in *. pose proof (ok_wf _ _ _ Hok1) as Hwf1. assert (∀ w xw, f !! w = Some xw → f1 !! w = Some xw) as Hold1. { intros w xw Hw. unfold f1. rewrite lookup_insert_ne; congruence. }
  assert (f1 !! b = Some x') as Hb1 by apply lookup_insert_eq. pose proof (Hold1 c x Hx) as Hx1c.
  destruct (IH h1 f1 us c [] (kids f1 c) b x' target d y Hok1 eq_refl) as (h2 & f2 & E2 & Hok2 & Hcp2); try done; [|by apply Hold1| | |lia|].
  { rewrite (kids_some _ _ _ Hx1c). apply (stands_for_frame_all f); [|done]. intros k w xw _ _. apply Hold1. }
  { intros Hw. apply rtc_inv in Hw as [->|(q & Hq & _)]; [congruence|]. exact (root_no_parent f1 Hwf1 b x' q Hb1 Hp' Hq). }
  { intros xc Hxc. assert (xc = x) as -> by congruence. done. }
  rewrite (rd_some _ h1 c _ (linked_some h1 f1 (ok_linked _ _ _ Hok1) c x Hx1c)), ok_bind. cbn [concrete _firstChild]. rewrite <- (kids_some _ _ _ Hx1c), E2, ok_bind.
  destruct (clone_round h2 f f2 a don c cs clone z b x' v us Hwf E Hz Hnot Hb Hp' Hk' ltac:(congruence) Hpt' Hok2 Hcp2) as (h3 & f3 & E3 & Hok3 & Hcp3 & Hc3 & Hold3). rewrite E3, ok_bind.
  pose proof (ok_wf _ _ _ Hok3) as Hwf3. assert (kids f3 a = don ++ c :: cs) as Ek3.
  { rewrite <- E. destruct (kid_in f a c Hca) as [xa Hxa]. rewrite (kids_some _ _ _ Hxa). apply kids_some. apply Hcp3; [done|]. intros ->. apply Hnot. constructor. }
  destruct (kid_node h3 f3 a don c cs (ok_linked _ _ _ Hok3) Hwf3 Ek3) as (n3 & x3 & Hn3 & _ & _ & Hnext & _). rewrite (rd_some _ h3 c _ Hn3), ok_bind, Hnext.
  destruct (copied_doc f clone z [v] f3 d y Hcp3 Hz Hy) as (y3 & Hy3 & Hyk3).
  destruct (IH h3 f3 vs a (don ++ [c]) cs clone (with_kids (t_kids z ++ [b]) z) target d y3 Hok3) as (h' & f' & E' & Hok' & Hcp'); try done; [by rewrite <- app_assoc| |congruence| | |lia|].
  { apply (stands_for_frame_all f); [|done]. intros k w xw Hk Hw Hxw. apply Hcp3; [done|]. intros ->. apply Hnot. eapply rtc_r; [exact Hw|]. unfold child_of. rewrite E. set_solver. }
  { intros Hw. apply Hnot. by apply (within_old f f3). }
  { intros xa Hxa. destruct (kid_in f a c Hca) as [xo Hxo]. destruct Hcp3 as [Hfr _]. assert (f3 !! a = Some xo) as Hxo3 by (apply Hfr; [done|]; intros ->; apply Hnot; constructor). assert (xa = xo) as -> by congruence. by apply Htg. }
  exists h', f'. split; [exact E'|]. split; [done|]. by eapply copied_cons.
Qed.

(** A new root is below nothing that was there before, and nothing is below it. *)
Lemma fresh_apart f b x a : wf f → wf (<[b := x]> f) → f !! b = None → is_Some (f !! a) → ¬ within (<[b := x]> f) a b.
Proof.
  intros Hwf Hwf' Hb [y Ha] Hw. assert (within f a b) as Hw'. { apply (within_old f (<[b := x]> f)); [done|done| |by eexists|done]. intros w z Hz. exists z. rewrite lookup_insert_ne; [done|congruence]. }
  apply within_step in Hw' as [->|(k & Hk & _)]; [congruence|]. apply kid_in in Hk as [? ?]. congruence.
Qed.

Lemma DeepClone_spec h f a v x target d y : ok h f → stands_for f a v → f !! a = Some x → (if target =? null then t_doc x else target) = d → f !! d = Some y → t_kind y = DocumentKind →
  ∃ h' b f', DeepClone h a target = Ok (h', b) ∧ ok h' f' ∧ f !! b = None ∧ f ⊆ f' ∧ stands_for f' b v ∧ ∃ z, f' !! b = Some z ∧ t_parent z = null ∧ t_doc z = d.
Proof.
  intros Hok Hs Hx Htg Hy Hyk. pose proof (ok_wf _ _ _ Hok) as Hwf. pose proof Hs as (x0 & us & Hx0 & Hpt & HF)%stands_for_parts. assert (x0 = x) as -> by congruence.
  destruct (ShallowClone_spec h f a x v us target d y Hok Hx Hpt Htg Hy Hyk) as (h1 & b & x' & E1 & Hb0 & Hb & Hok1 & Hp' & Hk' & Hd' & Hpt'). unfold DeepClone. rewrite E1, ok_bind, (proj2 (Z.eqb_neq b null)) by done.
  set (f1 := <[b := x']> f) in *. pose proof (ok_wf _ _ _ Hok1) as Hwf1. assert (∀ w xw, f !! w = Some xw → f1 !! w = Some xw) as Hold1. { intros w xw Hw. unfold f1. rewrite lookup_insert_ne; congruence. }
  assert (f1 !! b = Some x') as Hb1 by apply lookup_insert_eq. pose proof (Hold1 a x Hx) as Hx1. rewrite (rd_some _ h1 a _ (linked_some h1 f1 (ok_linked _ _ _ Hok1) a x Hx1)), ok_bind. cbn [concrete _firstChild].
  destruct (clone_loop_spec (dom_fuel h) h1 f1 us a [] (t_kids x) b x' target d y Hok1) as (h2 & f2 & E2 & Hok2 & Hfr & bs & Hb2 & HF2); try done.
  - by rewrite (kids_some _ _ _ Hx1).
  - apply (stands_for_frame_all f); [|done]. intros k w xw _ _. apply Hold1.
  - by apply Hold1.
  - intros Hw. apply rtc_inv in Hw as [->|(q & Hq & _)]; [congruence|]. exact (root_no_parent f1 Hwf1 b x' q Hb1 Hp' Hq).
  - intros xa Hxa. assert (xa = x) as -> by congruence. done.
  - destruct (stands_for_nodes f Hwf v a Hs) as (l & Hl & En). rewrite (nodes_of_parts _ _ _ Hpt) in En. unfold dom_fuel. rewrite (linked_size h f (ok_linked _ _ _ Hok)). pose proof (lists_below_length f Hwf a l ltac:(by eexists) Hl). lia.
  - rewrite E2, ok_bind. exists h2, b, f2. rewrite Hk' in Hb2. split; [done|]. split; [done|]. split; [done|]. split.
    { apply map_subseteq_spec. intros w xw Hw. apply Hfr; [by apply Hold1|congruence]. }
    split; [|by eexists]. apply stands_for_parts. eexists _, us. split; [exact Hb2|]. split; [by destruct v|done].
Qed.
End clone.
