(* ===== verification/TinyClear.v ===== *)
(** * TinyClear: [XMLDocument::Clear] on the nodes of TinyDom

    Clearing a document frees every node that was created for it, in a tree or not, and no node
    of another document. *)

From S2P Require Import Prelude TinyText TinyXml TinyDom TinyLinks TinyEdit TinyDelete TinyClone.
#[local] Open Scope Z_scope.

(** Every node is below a root, and belongs to the document of the root. *)
Lemma root_of f : wf f → ∀ n a x l, f !! a = Some x → lists_below f (kids f a) l → (size f < n + length l)%nat → ∃ r y, within f a r ∧ f !! r = Some y ∧ t_parent y = null.
Proof.
  intros Hwf. induction n as [|n IH]; intros a x l Hx Hl Hn.
  - pose proof (lists_below_length f Hwf a l ltac:(by eexists) Hl). lia.
  - destruct (decide (t_parent x = null)) as [Hp|Hp]; [by exists a, x; split; [constructor|]|]. pose proof (wf_parent f Hwf a x Hx Hp) as Hin. destruct (kid_in f _ a Hin) as [xp Hxp].
    destruct (lists_below_exists f Hwf (t_parent x)) as [lp Hlp]. destruct (IH (t_parent x) xp lp Hxp Hlp) as (r & y & Hr & Hy & Hyp).
    + assert (length l < length lp)%nat; [|lia]. apply (nodup_shorter a); [by destruct Hl|by apply below_not_self in Hl|]. destruct Hl as [_ Hel], Hlp as [_ Help]. intros z Hz. apply Help. exists a. split; [done|].
      apply within_step. destruct Hz as [->|Hz]; [by left|right; by apply Hel].
    + exists r, y. split; [by eapply rtc_l|done].
Qed.

Lemma within_doc f x c z y : wf f → within f x c → f !! x = Some z → f !! c = Some y → t_doc z = t_doc y.
Proof.
  intros Hwf Hw. revert z. induction Hw as [x|x w c Hxw Hwc IH]; intros z Hz Hy; [congruence|]. destruct (wf_kids f Hwf w x Hxw) as (z' & Hz' & Hp). assert (z' = z) as -> by congruence.
  destruct (wf_doc f Hwf x z Hz) as (u & Hu & Hd); [rewrite Hp; intros ->; unfold child_of in Hxw; rewrite (kids_null f Hwf) in Hxw; by apply not_elem_of_nil in Hxw|]. rewrite Hp in Hu. rewrite Hd. by apply IH.
Qed.

Lemma root_within f x c y : wf f → within f x c → f !! x = Some y → t_parent y = null → x = c.
Proof. intros Hwf [->|(w & Hw & _)]%rtc_inv Hy Hp; [done|]. by destruct (root_no_parent f Hwf x y w Hy Hp). Qed.

(** The forest without the nodes of the document [d]. *)
Definition cleared (d : Z) (f : forest) : forest := alter (with_kids []) d (filter (λ '(a, x), a = d ∨ t_doc x ≠ d) f).

(** What is left when nodes of [d] are removed: [d] itself and the other documents. *)
Definition spared (d : Z) (f f' : forest) : Prop :=
  (∀ z x, f !! z = Some x → z = d ∨ t_doc x ≠ d → f' !! z = Some x) ∧ (∀ z x, f' !! z = Some x → ∃ x', f !! z = Some x' ∧ t_doc x' = t_doc x).

Section clear.
Context `{TinyxmlHOk} `{!TinyxmlDomH} `{!TinyxmlDomOk}.

Lemma removed_spared d f c y l xd : wf f → f !! d = Some xd → t_kind xd = DocumentKind → f !! c = Some y → t_parent y = null → t_kind y ≠ DocumentKind → t_doc y = d → lists_below (detach c f) (kids (detach c f) c) l →
  spared d f (removed c l f).
Proof.
  intros Hwf Hd Hdk Hy Hp Hk Hyd Hl. rewrite (detach_root f c y) in Hl by done. assert (∀ z, z = c ∨ z ∈ l → within f z c) as Hin.
  { intros z [->|Hz]; [constructor|]. apply within_step. right. by apply Hl. }
  split.
  - intros z x Hx Hz. rewrite removed_lookup by done. rewrite decide_False.
    + rewrite Hx. cbn. rewrite filter_ne_id; [by destruct x|]. rewrite <- (kids_some _ _ _ Hx). by eapply root_no_parent.
    + intros Hw%Hin. destruct Hz as [->|Hz]; [|apply Hz; rewrite <- Hyd; by eapply within_doc]. destruct (wf_document f Hwf d xd Hd Hdk) as [Hdp _].
      assert (d = c) as Edc by exact (root_within f d c xd Hwf Hw Hd Hdp). congruence.
  - intros z x. rewrite removed_lookup by done. case_decide; [done|]. destruct (f !! z) as [x'|]; [|done]. intros E. injection E as <-. by exists x'.
Qed.

Lemma spared_trans d f f1 f2 : spared d f f1 → spared d f1 f2 → spared d f f2.
Proof.
  intros [Ha Hb] [Ha' Hb']. split; [intros z x Hx Hz; apply Ha'; [by apply Ha|done]|]. intros z x Hx. destruct (Hb' z x Hx) as (x1 & Hx1 & E1). destruct (Hb z x1 Hx1) as (x2 & Hx2 & E2). exists x2. split; [done|congruence].
Qed.

Lemma unlinked_loop_spec n : ∀ h f d xd, ok h f → f !! d = Some xd → t_kind xd = DocumentKind → (length (_unlinked h d) < n)%nat →
  ∃ h' f', unlinked_loop n h d = Ok h' ∧ ok h' f' ∧ _unlinked h' d = [] ∧ spared d f f'.
Proof.
  induction n as [|n IH]; intros h f d xd Hok Hd Hdk Hn; [lia|]. cbn [unlinked_loop]. destruct (_unlinked h d) as [|c u] eqn:Eu; [exists h, f; split; [done|]; split; [done|]; split; [done|]; split; [done|]; intros z x Hx; by exists x|].
  pose proof (ok_wf _ _ _ Hok) as Hwf. destruct (proj1 (ok_unlinked _ _ _ Hok d c) ltac:(rewrite Eu; by left)) as (y & Hy & Hp & Hk & Hyd & _).
  destruct (lists_below_exists (detach c f) (wf_detach f c Hwf ltac:(congruence)) c) as [l Hl]. destruct (DeleteNode_spec [] h f c y l Hok Hy Hk Hl) as (h1 & E1 & Hok1). rewrite E1, ok_bind.
  pose proof (removed_spared d f c y l xd Hwf Hd Hdk Hy Hp Hk Hyd Hl) as Hs. destruct (IH h1 (removed c l f) d xd Hok1) as (h' & f' & E' & Hok' & Hu' & Hs'); [apply Hs; [done|by left]|done| |].
  - assert (length (_unlinked h1 d) < length (_unlinked h d))%nat as Hlt; [|rewrite Eu in Hlt; cbn in Hlt, Hn; lia]. apply (nodup_shorter c); [apply (ok_nodup _ _ _ Hok1)| |].
    + intros (z & Hz & _)%(ok_unlinked _ _ _ Hok1). rewrite removed_lookup, decide_True in Hz by (done || by left). done.
    + intros z [->|(x & Hx & Hxp & Hxk & Hxd & _)%(ok_unlinked _ _ _ Hok1)]; [rewrite Eu; by left|]. apply (ok_unlinked _ _ _ Hok). rewrite removed_lookup in Hx by done. case_decide; [done|].
      destruct (f !! z) as [x'|] eqn:Hx'; [|done]. injection Hx as <-. exists x'. split_and!; try done. apply not_elem_of_nil.
  - exists h', f'. split_and!; try done; by apply (spared_trans d f (removed c l f) f').
Qed.

(** [clear_nodes] leaves nothing of the document but itself. *)
Lemma clear_nodes_spec h f d xd : ok h f → f !! d = Some xd → t_kind xd = DocumentKind → ∃ h', clear_nodes h d = Ok h' ∧ ok h' (cleared d f) ∧ _unlinked h' d = [].
Proof.
  intros Hok Hd Hdk. pose proof (ok_wf _ _ _ Hok) as Hwf. destruct (wf_document f Hwf d xd Hd Hdk) as [Hdp Hdd]. destruct (lists_below_exists f Hwf d) as [l Hl].
  destruct (DeleteChildren_spec [] h f d xd l Hok Hd Hl) as (h1 & E1 & Hok1). assert (childless d l f !! d = Some (with_kids [] xd)) as Hd1.
  { rewrite childless_lookup, decide_False, decide_True, Hd by (done || by eapply below_not_self). done. }
  destruct (unlinked_loop_spec (S (length (_unlinked h1 d))) h1 _ d _ Hok1 Hd1 Hdk) as (h' & f' & E' & Hok' & Hu' & Hs); [lia|]. exists h'. unfold clear_nodes. rewrite E1, ok_bind, E'. split; [done|]. split; [|done].
  assert (f' = cleared d f) as <-; [|done]. pose proof (ok_wf _ _ _ Hok') as Hwf'. destruct Hs as [Hkeep Hsub]. pose proof (Hkeep d _ Hd1 (or_introl eq_refl)) as Hd'.
  assert (∀ z x, f' !! z = Some x → t_doc x = d → z = d) as Honly.
  { intros z x Hx Hxd. destruct (lists_below_exists f' Hwf' z) as [lz Hlz]. destruct (root_of f' Hwf' (S (size f')) z x lz Hx Hlz) as (r & y & Hr & Hy & Hyp); [lia|]. pose proof (within_doc f' z r x y Hwf' Hr Hx Hy) as Hdoc.
    assert (t_kind y = DocumentKind) as Hyk. { destruct (decide (t_kind y = DocumentKind)); [done|]. assert (r ∈ _unlinked h' d) as Hin. { apply (ok_unlinked _ _ _ Hok'). exists y. split_and!; try done; [congruence|apply not_elem_of_nil]. } rewrite Hu' in Hin. by apply not_elem_of_nil in Hin. }
    destruct (wf_document f' Hwf' r y Hy Hyk) as [_ Hyd]. assert (r = d) as -> by congruence. apply within_step in Hr as [->|(k & Hk & _)]; [done|]. rewrite (kids_some _ _ _ Hd') in Hk. by apply not_elem_of_nil in Hk. }
  apply map_eq. intros z. unfold cleared. rewrite lookup_alter. destruct (decide (d = z)) as [<-|Hzd].
  - rewrite Hd', map_lookup_filter, Hd. cbn. rewrite option_guard_True by by left. done.
  - rewrite map_lookup_filter. destruct (f !! z) as [x|] eqn:Hx; cbn.
    + destruct (decide (t_doc x = d)) as [Hxd|Hxd].
      * rewrite option_guard_False by naive_solver. destruct (f' !! z) as [x'|] eqn:Hx'; [|done]. destruct (Hsub z x' Hx') as (x1 & Hx1 & E). rewrite childless_lookup in Hx1. case_decide; [done|]. rewrite decide_False in Hx1 by done.
        exfalso. apply Hzd. symmetry. apply (Honly z x' Hx'). congruence.
      * rewrite option_guard_True by by right. apply Hkeep; [|by right]. rewrite childless_lookup. rewrite decide_False, decide_False; [done|done|]. intros (k & Hk & Hw)%Hl. apply Hxd. rewrite <- Hdd.
        eapply (within_doc f z d); [done| |done|done]. eapply rtc_r; [exact Hw|exact Hk].
    + destruct (f' !! z) as [x'|] eqn:Hx'; [|done]. destruct (Hsub z x' Hx') as (x1 & Hx1 & _). rewrite childless_lookup, Hx in Hx1. by repeat case_decide.
Qed.

Lemma cleared_lookup d f z : cleared d f !! z = if decide (z = d) then with_kids [] <$> f !! d else match f !! z with Some x => if decide (t_doc x = d) then None else Some x | None => None end.
Proof.
  unfold cleared. rewrite lookup_alter, !map_lookup_filter. destruct (decide (d = z)) as [<-|Hz]; [rewrite decide_True by done|rewrite decide_False by done].
  - destruct (f !! d) as [x|]; [|done]. cbn. by rewrite option_guard_True by by left.
  - destruct (f !! z) as [x|]; [|done]. cbn. case_decide as Hd; [rewrite option_guard_False; [done|]; naive_solver|]. by rewrite option_guard_True by by right.
Qed.

(** [DeepCopy] replaces the content of a document by a copy of another. *)
Lemma DeepCopy_spec h f d t xd xt vs : ok h f → f !! d = Some xd → t_kind xd = DocumentKind → f !! t = Some xt → t_kind xt = DocumentKind → d ≠ t → Forall2 (stands_for f) (kids f d) vs →
  ∃ h' f', DeepCopy h d t = Ok h' ∧ ok h' f' ∧ copied (cleared t f) t (with_kids [] xt) vs f'.
Proof.
  intros Hok Hd Hdk Ht Htk Hdt HF. pose proof (ok_wf _ _ _ Hok) as Hwf. destruct (wf_document f Hwf d xd Hd Hdk) as [_ Hdd], (wf_document f Hwf t xt Ht Htk) as [Htp Htd].
  destruct (clear_nodes_spec h f t xt Hok Ht Htk) as (h1 & E1 & Hok1 & _). unfold DeepCopy. rewrite (proj2 (Z.eqb_neq t d)), E1, ok_bind by done. set (f1 := cleared t f) in *. pose proof (ok_wf _ _ _ Hok1) as Hwf1.
  assert (f1 !! t = Some (with_kids [] xt)) as Ht1 by (unfold f1; by rewrite cleared_lookup, decide_True, Ht).
  assert (∀ w x, within f w d → f !! w = Some x → f1 !! w = Some x) as Hold. { intros w x Hw Hx. pose proof (within_doc f w d x xd Hwf Hw Hx Hd) as Hwd. unfold f1. rewrite cleared_lookup, Hx, decide_False, decide_False; [done|congruence|congruence]. }
  pose proof (Hold d xd (rtc_refl _ _) Hd) as Hd1. assert (kids f1 d = kids f d) as Ek by (by rewrite (kids_some _ _ _ Hd), (kids_some _ _ _ Hd1)).
  assert (Forall2 (stands_for f1) (kids f1 d) vs) as HF1. { rewrite Ek. apply (stands_for_frame_all f); [|done]. intros k w x Hk Hw. apply Hold. eapply rtc_r; [exact Hw|exact Hk]. }
  rewrite (rd_some _ h1 d _ (linked_some h1 f1 (ok_linked _ _ _ Hok1) d xd Hd1)), ok_bind. cbn [concrete _firstChild]. rewrite <- (kids_some _ _ _ Hd1).
  apply (clone_loop_spec (dom_fuel h1) h1 f1 vs d [] (kids f1 d) t (with_kids [] xt) t t (with_kids [] xt)); try done.
  - intros Hw. pose proof (root_within f1 t d _ Hwf1 Hw Ht1 Htp). congruence.
  - intros x _. destruct (Z.eqb_spec t null) as [->|]; [|done]. by rewrite wf_null in Ht.
  - destruct (stands_for_sum f1 d vs Hwf1 HF1) as (l & Hl & ->). unfold dom_fuel. rewrite (linked_size h1 f1 (ok_linked _ _ _ Hok1)). pose proof (lists_below_length f1 Hwf1 d l ltac:(by eexists) Hl). lia.
Qed.
End clear.
