(* ===== verification/TinyDomTheorems.v ===== *)
(** * TinyDomTheorems: what the nodes of tinyxml2.cpp in memory promise

    Programs that edit documents, as sequences of calls whose later calls may use the nodes that
    earlier ones return, refine edits of a forest; documents so built are printed and parsed
    back; looking for elements; a call that dereferences a null pointer. *)

From S2P Require Import Prelude TinyText TinyXml TinyDocs TinyPrint TinyRoundtrip TinyTheorems TinyDom TinyLinks TinyEdit TinyDelete TinyClone TinyClear.
#[local] Open Scope Z_scope.

(** ** Calls *)
Inductive edit :=
  | New (k : kind) (doc : Z) (s : list Z)
  | InsertEnd (p c : Z)
  | InsertFirst (p c : Z)
  | InsertAfter (p a c : Z)
  | Delete (c : Z)
  | DeleteBelow (p c : Z)
  | DeleteAll (p : Z)
  | SetString (a : Z) (s : list Z)
  | SetTextOf (a : Z) (s : list Z)
  | Clone (a target : Z)
  | Copy (d target : Z)
  | ClearAll (d : Z).

(** A program: a call, and what to do with the node it returns. *)
Inductive script := Stop | Do (e : edit) (k : Z → script).

Section calls.
Context `{TinyxmlHOk} `{!TinyxmlDomH} `{!TinyxmlDomOk}.

Definition create (h : dom) (k : kind) (doc : Z) (s : list Z) : result (dom * Z) :=
  match k with
  | ElementKind => NewElement h doc s
  | TextKind false => NewText h doc s
  | CommentKind => NewComment h doc s
  | DeclarationKind => NewDeclaration h doc (Some s)
  | UnknownKind => NewUnknown h doc s
  | _ => Ub
  end.

Definition nothing (r : result dom) : result (dom * Z) := h ← r; Ok (h, null).

Definition run (e : edit) (h : dom) : result (dom * Z) :=
  match e with
  | New k doc s => create h k doc s
  | InsertEnd p c => InsertEndChild h p c
  | InsertFirst p c => InsertFirstChild h p c
  | InsertAfter p a c => InsertAfterChild h p a c
  | Delete c => nothing (DeleteNode h c)
  | DeleteBelow p c => nothing (DeleteChild h p c)
  | DeleteAll p => nothing (DeleteChildren h p)
  | SetString a s => nothing (SetValue h a s)
  | SetTextOf a s => nothing (SetText h a s)
  | Clone a target => DeepClone h a target
  | Copy d target => nothing (DeepCopy h d target)
  | ClearAll d => nothing (clear_nodes h d)
  end.

Fixpoint run_script (s : script) (h : dom) : result dom :=
  match s with Stop => Ok h | Do e k => '(h, r) ← run e h; run_script (k r) h end.

(** ** Their meaning *)
Definition a_document (f : forest) (d : Z) : Prop := ∃ x, f !! d = Some x ∧ t_kind x = DocumentKind.

(** The document that [ShallowClone(doc)] copies into. *)
Definition target_of (f : forest) (a target d : Z) : Prop := ∃ x, f !! a = Some x ∧ (if target =? null then t_doc x else target) = d.

(** When a call is allowed. *)
Definition pre (e : edit) (f : forest) : Prop :=
  match e with
  | New k doc _ => a_document f doc ∧ k ≠ DocumentKind ∧ k ≠ TextKind true
  | InsertEnd p c | InsertFirst p c => insertable f p c
  | InsertAfter p a c => insertable_after f p a c
  | Delete c => ∃ y, f !! c = Some y ∧ t_kind y ≠ DocumentKind
  | DeleteBelow p c => c ∈ kids f p
  | DeleteAll p => is_Some (f !! p)
  | SetString a _ | SetTextOf a _ => ∃ x, f !! a = Some x ∧ t_kind x ≠ DocumentKind
  | Clone a target => ∃ v d, stands_for f a v ∧ target_of f a target d ∧ a_document f d
  | Copy d target => a_document f d ∧ a_document f target ∧ d ≠ target ∧ ∃ vs, Forall2 (stands_for f) (kids f d) vs
  | ClearAll d => a_document f d
  end.

(** The first child of [a] if that is a text. *)
Definition first_text (f : forest) (a : Z) : option Z :=
  match kids f a with c :: _ => match f !! c with Some y => if is_text (t_kind y) then Some c else None | None => None end | [] => None end.

(** The node a call returns, and the forest it leaves. *)
Definition post (e : edit) (f : forest) (r : Z) (f' : forest) : Prop :=
  match e with
  | New k doc s => r ≠ null ∧ f !! r = None ∧ f' = <[r := new_root k doc s]> f
  | InsertEnd p c => r = c ∧ f' = graft p c (λ l, l ++ [c]) (detach c f)
  | InsertFirst p c => r = c ∧ f' = graft p c (λ l, c :: l) (detach c f)
  | InsertAfter p a c => r = c ∧ f' = graft p c (insert_after a c) (detach c f)
  | Delete c | DeleteBelow _ c => r = null ∧ ∃ l, lists_below f (kids f c) l ∧ f' = removed c l f
  | DeleteAll p => r = null ∧ ∃ l, lists_below f (kids f p) l ∧ f' = childless p l f
  | SetString a s => r = null ∧ f' = alter (with_value s) a f
  | SetTextOf a s => r = null ∧
      match first_text f a with
      | Some c => f' = alter (with_value s) c f
      | None => ∃ t d, t ≠ null ∧ f !! t = None ∧ t_doc <$> f !! a = Some d ∧ f' = graft a t (λ l, t :: l) (<[t := new_root (TextKind false) d s]> f)
      end
  | Clone a target => f !! r = None ∧ f ⊆ f' ∧ (∃ v, stands_for f a v ∧ stands_for f' r v) ∧ ∃ x, f' !! r = Some x ∧ t_parent x = null ∧ target_of f a target (t_doc x)
  | Copy d target => r = null ∧ ∃ z vs, cleared target f !! target = Some z ∧ t_kids z = [] ∧ Forall2 (stands_for f) (kids f d) vs ∧ copied (cleared target f) target z vs f'
  | ClearAll d => r = null ∧ f' = cleared d f
  end.

(** Programs all of whose calls are allowed, whatever new nodes they get. *)
Inductive permitted : forest → script → Prop :=
  | permitted_stop f : permitted f Stop
  | permitted_do f e k : pre e f → (∀ r f', post e f r f' → permitted f' (k r)) → permitted f (Do e k).

Inductive outcome : forest → script → forest → Prop :=
  | outcome_stop f : outcome f Stop f
  | outcome_do f e k r f1 f' : post e f r f1 → outcome f1 (k r) f' → outcome f (Do e k) f'.

Lemma nothing_ok r h : r = Ok h → nothing r = Ok (h, null).
Proof. by intros ->. Qed.

Lemma lists_below_detached f c l : wf f → lists_below (detach c f) (kids (detach c f) c) l ↔ lists_below f (kids f c) l.
Proof.
  intros Hwf. unfold lists_below. by setoid_rewrite (λ x, below_detached f c x Hwf).
Qed.

Definition refined (e : edit) (h : dom) (f : forest) : Prop := ∃ h' r f', run e h = Ok (h', r) ∧ post e f r f' ∧ ok h' f'.

Lemma run_new h f k doc s : ok h f → pre (New k doc s) f → refined (New k doc s) h f.
Proof.
  intros Hok ((y & Hy & Hyk) & Hk & Hkt). destruct (new_node_spec h f k doc y s Hok Hy Hyk Hk) as (h' & a & E & Ha0 & Ha & Hok'). exists h', a, (<[a := new_root k doc s]> f). split; [|by split_and!].
  by destruct k as [| |[]| | |].
Qed.

Lemma run_insert h f e : ok h f → pre e f → match e with InsertEnd _ _ | InsertFirst _ _ | InsertAfter _ _ _ => True | _ => False end → refined e h f.
Proof.
  intros Hok Hpre He. destruct e; try done.
  - destruct (InsertEndChild_spec h f p c Hok Hpre) as (h' & E & Hok'). by eexists h', c, _.
  - destruct (InsertFirstChild_spec h f p c Hok Hpre) as (h' & E & Hok'). by eexists h', c, _.
  - destruct (InsertAfterChild_spec h f p a c Hok Hpre) as (h' & E & Hok'). by eexists h', c, _.
Qed.

Lemma run_delete h f e : ok h f → pre e f → match e with Delete _ | DeleteBelow _ _ | DeleteAll _ => True | _ => False end → refined e h f.
Proof.
  intros Hok Hpre He. pose proof (ok_wf _ _ _ Hok) as Hwf. destruct e; try done; cbn in Hpre.
  - destruct Hpre as (y & Hy & Hk). destruct (lists_below_exists f Hwf c) as [l Hl]. pose proof (proj2 (lists_below_detached f c l Hwf) Hl) as Hl'. destruct (DeleteNode_spec [] h f c y l Hok Hy Hk Hl') as (h' & E & Hok').
    exists h', null, (removed c l f). split; [by apply nothing_ok|]. split; [split; [done|by exists l]|done].
  - destruct (lists_below_exists f Hwf c) as [l Hl]. pose proof (proj2 (lists_below_detached f c l Hwf) Hl) as Hl'. destruct (DeleteChild_spec [] h f p c l Hok Hpre Hl') as (h' & E & Hok').
    exists h', null, (removed c l f). split; [by apply nothing_ok|]. split; [split; [done|by exists l]|done].
  - destruct Hpre as [x Hx]. destruct (lists_below_exists f Hwf p) as [l Hl]. destruct (DeleteChildren_spec [] h f p x l Hok Hx Hl) as (h' & E & Hok').
    exists h', null, (childless p l f). split; [by apply nothing_ok|]. split; [split; [done|by exists l]|done].
Qed.

Lemma text_child_spec h f a x : linked h f → wf f → f !! a = Some x → text_child h a = Ok (first_text f a).
Proof.
  intros Hl Hwf Hx. unfold text_child, first_text. rewrite (rd_some _ h a _ (linked_some h f Hl a x Hx)), ok_bind. cbn [concrete _firstChild]. rewrite <- (kids_some _ _ _ Hx). destruct (kids f a) as [|c l] eqn:E; [done|].
  destruct (kid_node h f a [] c l Hl Hwf E) as (n & y & Hn & Hy & -> & _ & _ & Hc0). change (hd (c :: l)) with c. rewrite (proj2 (Z.eqb_neq c null)), (rd_some _ h c _ Hn), ok_bind, Hy by done. done.
Qed.

Lemma set_value_alter (f : forest) a x s : f !! a = Some x → <[a := with_value s x]> f = alter (with_value s) a f.
Proof. intros Hx. apply map_eq. intros z. rewrite lookup_insert, lookup_alter. case_decide; [subst z; by rewrite Hx|done]. Qed.

Lemma run_strings h f e : ok h f → pre e f → match e with SetString _ _ | SetTextOf _ _ => True | _ => False end → refined e h f.
Proof.
  intros Hok Hpre He. pose proof (ok_wf _ _ _ Hok) as Hwf. pose proof (ok_linked _ _ _ Hok) as Hl. destruct e as [| | | | | | |a s|a s| | |]; try done; destruct Hpre as (x & Hx & Hk).
  - destruct (SetValue_spec [] h f a x s Hok Hx) as (h' & E & Hok'). rewrite (set_value_alter f a x) in Hok' by done. exists h', null, (alter (with_value s) a f). split; [by apply nothing_ok|done].
  - unfold refined, post. cbn [run]. unfold SetText. rewrite (text_child_spec h f a x Hl Hwf Hx), ok_bind. destruct (first_text f a) as [c|] eqn:Ec.
    + assert (∃ y, f !! c = Some y) as [y Hy]. { unfold first_text in Ec. destruct (kids f a) as [|c' l]; [done|]. destruct (f !! c') as [y|] eqn:Hy; [|done]. destruct (is_text _); [|done]. injection Ec as ->. by exists y. }
      destruct (SetValue_spec [] h f c y s Hok Hy) as (h' & E & Hok'). rewrite (set_value_alter f c y) in Hok' by done. exists h', null, (alter (with_value s) c f). split; [by apply nothing_ok|done].
    + rewrite (rd_some _ h a _ (linked_some h f Hl a x Hx)), ok_bind. cbn [concrete _document]. destruct (wf_owner f Hwf a x Hx) as (y & Hy & Hyk).
      destruct (new_node_spec h f (TextKind false) (t_doc x) y s Hok Hy Hyk ltac:(done)) as (h1 & t & E1 & Ht0 & Ht & Hok1). unfold NewText. rewrite E1, ok_bind. set (f1 := <[t := new_root (TextKind false) (t_doc x) s]> f) in *. pose proof (ok_wf _ _ _ Hok1) as Hwf1.
      assert (f1 !! t = Some (new_root (TextKind false) (t_doc x) s)) as Ht1 by apply lookup_insert_eq. assert (f1 !! a = Some x) as Hx1 by (unfold f1; rewrite lookup_insert_ne; [done|congruence]).
      destruct (InsertFirstChild_spec h1 f1 a t Hok1) as (h2 & E2 & Hok2); [exists x, (new_root (TextKind false) (t_doc x) s); split_and!; try done; apply fresh_apart; try done; by eexists|]. rewrite E2, ok_bind.
      rewrite (detach_root f1 t (new_root (TextKind false) (t_doc x) s)) in Hok2 by done. exists h2, null, (graft a t (λ l, t :: l) f1). split; [done|]. split; [|done]. split; [done|]. exists t, (t_doc x). rewrite Hx. by split_and!.
Qed.

Lemma run_copies h f e : ok h f → pre e f → match e with Clone _ _ | Copy _ _ | ClearAll _ => True | _ => False end → refined e h f.
Proof.
  intros Hok Hpre He. destruct e as [| | | | | | | | |a target|d target|d]; try done.
  - destruct Hpre as (v & d & Hs & (x & Hx & Htg) & (y & Hy & Hyk)). destruct (DeepClone_spec h f a v x target d y Hok Hs Hx Htg Hy Hyk) as (h' & b & f' & E & Hok' & Hb & Hsub & Hs' & z & Hz & Hzp & Hzd).
    exists h', b, f'. split; [done|]. split; [|done]. split; [done|]. split; [done|]. split; [by exists v|]. exists z. split; [done|]. split; [done|]. exists x. split; [done|congruence].
  - destruct Hpre as ((xd & Hd & Hdk) & (xt & Ht & Htk) & Hdt & vs & HF). destruct (DeepCopy_spec h f d target xd xt vs Hok Hd Hdk Ht Htk Hdt HF) as (h' & f' & E & Hok' & Hc).
    exists h', null, f'. split; [by apply nothing_ok|]. split; [|done]. split; [done|]. exists (with_kids [] xt), vs. split; [by rewrite cleared_lookup, decide_True, Ht|done].
  - destruct Hpre as (x & Hx & Hk). destruct (clear_nodes_spec h f d x Hok Hx Hk) as (h' & E & Hok' & _). exists h', null, (cleared d f). split; [by apply nothing_ok|done].
Qed.

Lemma run_refined h f e : ok h f → pre e f → refined e h f.
Proof. intros Hok Hpre. destruct e; (by apply run_new) || (by apply run_insert) || (by apply run_delete) || (by apply run_strings) || by apply run_copies. Qed.

(** C8. Refinement: started on a heap whose pointers are those of a forest of nodes, any program
    of allowed calls that create, insert, move, delete, rename or copy nodes, or clear documents,
    runs without an undefined access, and the pointers it leaves are those of the forest that
    the meanings of the calls give; each document lists its unlinked nodes throughout. *)
Theorem edits_refine_forest h f s : ok h f → permitted f s → ∃ h' f', run_script s h = Ok h' ∧ outcome f s f' ∧ ok h' f'.
Proof.
  intros Hok Hp. revert h Hok. induction Hp as [f|f e k Hpre Hk IH]; intros h Hok; [exists h, f; split; [done|]; split; [constructor|done]|].
  destruct (run_refined h f e Hok Hpre) as (h1 & r & f1 & E & Hpost & Hok1). destruct (IH r f1 Hpost h1 Hok1) as (h' & f' & E' & Ho & Hok'). exists h', f'. split; [cbn; by rewrite E, ok_bind|]. split; [|done].
  by econstructor.
Qed.

(** C40. [parent->InsertAfterChild(a, c)] dereferences a null pointer exactly when [c] is the child
    after [a] and the last one: [c] is taken out of its place first, and then nothing follows
    [a]. *)
Theorem insert_after_crashes h f p a c : ok h f → insertable f p c → a ∈ kids f p → a ≠ c → InsertAfterChild h p a c = Ub ↔ ∃ l, kids f p = l ++ [a; c].
Proof.
  intros Hok Hins Ha Hac0. split.
  { intros Hub. set (k := kids f p) in *. destruct (decide (drop (length k - 2) k = [a; c])) as [Hd|Hn]; [exists (take (length k - 2) k); by rewrite <- Hd, take_drop|].
    destruct (InsertAfterChild_spec h f p a c Hok) as (h' & E & _); [|congruence]. split; [done|]. split; [done|]. split; [done|]. intros l E. apply Hn. unfold k. rewrite E, length_app. cbn [length]. by rewrite drop_app_length' by lia. }
  intros [l E]. pose proof Hok as [Hl Hwf _ _]. destruct (next_of h f p a l [c] Hl Hwf E) as [Ep En].
  destruct (preamble_held h f p c Hok Hins) as (h1 & x & y & E1 & E2 & E3 & Hh & _). pose proof (kids_detach f c p Hwf) as Ek. assert ((l ++ [a]) ++ [c] = l ++ [a; c]) as El by by rewrite <- app_assoc.
  pose proof (kids_apart f p (l ++ [a]) c [] Hwf) as Hap. rewrite El in Hap. destruct (Hap E) as [[_ Hnd]%NoDup_cons Hn0]. rewrite E, <- El, filter_ne_split, app_nil_r in Ek by by rewrite El.
  assert (a ≠ c ∧ c ≠ null) as [Hac Hc0]. { split; [|set_solver]. rewrite <- El in Hnd. apply NoDup_app in Hnd as (_ & Hd & _). intros ->. apply (Hd c); [set_solver|by left]. }
  unfold InsertAfterChild. rewrite E1, ok_bind, E2, ok_bind, Z.eqb_refl. cbn [negb]. rewrite Ep, ok_bind, Z.eqb_refl. cbn [negb]. rewrite (proj2 (Z.eqb_neq a c)), En, ok_bind by done.
  change (hd [c]) with c. rewrite (proj2 (Z.eqb_neq c null)) by done. rewrite E3, ok_bind. pose proof Hh as ([Hl1 Hwf1 _ _] & _).
  destruct (kid_linked h1 (detach c f) Hl1 Hwf1 p a l [] Ek) as (ya & _ & _ & Hna). destruct (held_nodes h1 (detach c f) p c x y (l ++ [a]) [] Hh) as (Hnull & [nc Hnc] & _ & _ & _); [by rewrite app_nil_r|].
  heap_step. heap_step. heap_step. heap_step. change (hd []) with null.
  rewrite wr_none; [done|]. by rewrite !adjust_ne by done.
Qed.

(** C31. [FirstChildElement] and [LastChildElement] return the first and the last child element of
    a name (of any name for a null one), [NextSiblingElement] and [PreviousSiblingElement] the
    nearest ones on either side of a child, and all of them null if there is none. *)
Theorem child_elements h f p name : ok h f → is_Some (f !! p) →
  FirstChildElement h p name = Ok (hd (filter (named f name) (kids f p))) ∧
  LastChildElement h p name = Ok (lst (filter (named f name) (kids f p))) ∧
  ∀ l1 c l2, kids f p = l1 ++ c :: l2 →
    NextSiblingElement h c name = Ok (hd (filter (named f name) l2)) ∧
    PreviousSiblingElement h c name = Ok (lst (filter (named f name) l1)).
Proof.
  intros [Hl Hwf _ _] [x Hx]. split_and!.
  - unfold FirstChildElement. rewrite (rd_some _ h p _ (linked_some h f Hl p x Hx)), ok_bind. cbn [concrete _firstChild]. rewrite <- (kids_some _ _ _ Hx). by apply (next_elements h f name p []).
  - unfold LastChildElement. rewrite (rd_some _ h p _ (linked_some h f Hl p x Hx)), ok_bind. cbn [concrete _lastChild]. rewrite <- (kids_some _ _ _ Hx). apply (previous_elements h f name p _ []); [done..|]. by rewrite app_nil_r.
  - intros l1 c l2 E. destruct (kid_node h f p l1 c l2 Hl Hwf E) as (n & y & Hn & _ & _ & Hnext & Hprev & _). unfold NextSiblingElement, PreviousSiblingElement. rewrite !(rd_some _ h c _ Hn), !ok_bind, Hnext, Hprev. split.
    + apply (next_elements h f name p (l1 ++ [c])); [done..|]. by rewrite <- app_assoc.
    + by apply (previous_elements h f name p l1 (c :: l2)).
Qed.

(** C30. A document built in memory whose nodes stand for well-formed values is printed, compact or
    not, with or without a byte order mark, and parsing the text gives the values back. *)
Theorem built_document_roundtrip compact bom h f d vs d2 : ok h f → is_Some (f !! d) → Forall2 (stands_for f) (kids f d) vs → document vs = true → _processEntities d2 = true → _collapseWhitespace d2 = false →
  ∃ p d2' ns, document_accept h d true bom compact = Ok p ∧ Parse (Some (written p)) d2 = Ok ((XML_SUCCESS, ns), d2') ∧ holds d2' ns vs.
Proof.
  intros Hok [x Hx] HF Hdoc Hp Hw. pose proof (ok_wf _ _ _ Hok) as Hwf. pose proof (ok_linked _ _ _ Hok) as Hl. destruct (print_values compact bom vs Hdoc) as (u & Hu & Et). destruct (Parse_prints bom vs u d2 Hdoc Hu Hp Hw) as (d2' & ns & E2 & Hh2). rewrite <- Et in E2.
  eexists _, d2', ns. split; [|by split; [exact E2|]]. unfold document_accept. rewrite (rd_some _ h d _ (linked_some h f Hl d x Hx)), ok_bind. cbn [concrete _firstChild]. rewrite <- (kids_some _ _ _ Hx).
  apply (accept_spec h f Hl Hwf (dom_fuel h) vs d []); try done. destruct (stands_for_sum f d vs Hwf HF) as (l & Hlb & ->). unfold dom_fuel. rewrite (linked_size h f Hl). pose proof (lists_below_length f Hwf d l ltac:(by eexists) Hlb). lia.
Qed.
End calls.

(** ** An instance of the header *)
Definition new_address (h : dom) : Z := 1 + foldr Z.max 0 (map_to_list (nodes h)).*1.

Definition swap_remove_at (i : nat) (l : list Z) : list Z := match last l with Some z => take (length l - 1) (<[i := z]> l) | None => [] end.

#[export] Instance tinyxml2_dom : TinyxmlDomH := {
  CreateUnlinkedNode k doc h := let a := new_address h in (a, mk_dom (<[a := XMLNode_new k doc]> (nodes h)) (<[doc := _unlinked h doc ++ [a]]> (unlinked h)));
  SwapRemove := swap_remove_at;
  SetAttribute attrs name value := let '(attrs, i) := FindOrCreateAttribute attrs name in set_attribute_value attrs i value;
  document_clone := null
}.

Lemma foldr_max_ge l (a : Z) : a ∈ l → a ≤ foldr Z.max 0 l.
Proof. induction l as [|x l IH]; intros Ha; [by apply not_elem_of_nil in Ha|]. apply elem_of_cons in Ha as [->|Ha]; cbn; [lia|]. specialize (IH Ha). lia. Qed.

Lemma foldr_max_nonneg l : 0 ≤ foldr Z.max 0 l.
Proof. induction l; cbn; lia. Qed.

Lemma swap_remove_at_spec i l x : l !! i = Some x → swap_remove_at i l ≡ₚ delete i l.
Proof.
  intros Hi. unfold swap_remove_at. destruct (last l) as [z|] eqn:El; [|by apply last_None in El as ->]. apply last_Some in El as [l' ->]. rewrite length_app. cbn [length]. replace (length l' + 1 - 1)%nat with (length l') by lia.
  apply list_elem_of_split_length in Hi as (u & v & E & ->). destruct v as [|w v _] using rev_ind.
  - apply app_inj_tail in E as [-> ->]. rewrite delete_middle, insert_app_r_alt, Nat.sub_diag by done. cbn. by rewrite take_app_length, app_nil_r.
  - rewrite app_comm_cons, app_assoc in E. apply app_inj_tail in E as [-> ->]. replace ((u ++ x :: v) ++ [w]) with (u ++ x :: (v ++ [w])) by (by rewrite <- app_assoc). rewrite delete_middle, insert_app_r_alt, Nat.sub_diag by done.
    change (<[0%nat:=w]> (x :: v ++ [w])) with (w :: v ++ [w]). rewrite app_comm_cons, app_assoc, take_app_length' by (rewrite !length_app; done). by rewrite (Permutation_app_comm v [w]).
Qed.

#[export] Instance tinyxml2_dom_ok : TinyxmlDomOk.
Proof.
  split; [|exact swap_remove_at_spec|done|done]. intros k doc h a h' [= <- <-]. split_and!; try done.
  - unfold null, new_address. pose proof (foldr_max_nonneg (map_to_list (nodes h)).*1). lia.
  - destruct (nodes h !! new_address h) as [n|] eqn:E; [|done]. assert (new_address h ∈ (map_to_list (nodes h)).*1) as Hin%foldr_max_ge; [|unfold new_address in Hin; lia].
    apply list_elem_of_fmap. exists (new_address h, n). split; [done|]. by apply elem_of_map_to_list.
Qed.

(** ** A document *)
(** Well-formedness, decided on forests whose children have larger addresses than their parents. *)
Definition check_node (f : forest) (a : Z) (x : tree_node) : bool :=
  bool_decide (NoDup (t_kids x)) && forallb (λ c, (a <? c) && match f !! c with Some y => t_parent y =? a | None => false end) (t_kids x) &&
  ((t_parent x =? null) || match f !! t_parent x with Some y => bool_decide (a ∈ t_kids y) && (t_doc x =? t_doc y) | None => false end) &&
  (negb (is_document (t_kind x)) || (t_parent x =? null) && (t_doc x =? a)) && match f !! t_doc x with Some y => is_document (t_kind y) | None => false end.

Definition check_wf (f : forest) : bool := bool_decide (f !! null = None) && forallb (λ '(a, x), (a <=? 100) && check_node f a x) (map_to_list f).

Lemma check_node_sound f a x : f !! a = Some x → check_node f a x = true →
  NoDup (t_kids x) ∧ (∀ c, c ∈ t_kids x → a < c ∧ ∃ y, f !! c = Some y ∧ t_parent y = a) ∧
  (t_parent x ≠ null → ∃ y, f !! t_parent x = Some y ∧ a ∈ t_kids y ∧ t_doc x = t_doc y) ∧
  (t_kind x = DocumentKind → t_parent x = null ∧ t_doc x = a) ∧ ∃ y, f !! t_doc x = Some y ∧ t_kind y = DocumentKind.
Proof.
  intros Hx. unfold check_node. rewrite !andb_true_iff, bool_decide_eq_true, forallb_forall. intros [[[[Hnd Hc] Hp] Hd] Ho]. split_and!; [done| | | |].
  - intros c Hin%list_elem_of_In. specialize (Hc c Hin). apply andb_true_iff in Hc as [Hlt%Z.ltb_lt Hc]. split; [done|]. destruct (f !! c) as [y|]; [|done]. apply Z.eqb_eq in Hc. by exists y.
  - intros Hn. rewrite (proj2 (Z.eqb_neq _ _) Hn) in Hp. destruct (f !! t_parent x) as [y|]; [|done]. cbn in Hp. apply andb_true_iff in Hp as [Hin%bool_decide_eq_true Hdd%Z.eqb_eq]. by exists y.
  - intros Hk. unfold is_document in Hd. rewrite bool_decide_eq_true_2 in Hd by done. cbn in Hd. by apply andb_true_iff in Hd as [?%Z.eqb_eq ?%Z.eqb_eq].
  - destruct (f !! t_doc x) as [y|]; [|done]. apply bool_decide_eq_true in Ho. by exists y.
Qed.

Lemma check_wf_sound f : check_wf f = true → wf f.
Proof.
  unfold check_wf. rewrite andb_true_iff, bool_decide_eq_true, forallb_forall. intros [H0 Hall].
  assert (∀ a x, f !! a = Some x → a ≤ 100 ∧ check_node f a x = true) as Hn.
  { intros a x Hx. specialize (Hall (a, x) (proj1 (list_elem_of_In _ _) (proj2 (elem_of_map_to_list _ _ _) Hx))). cbn in Hall. by apply andb_true_iff in Hall as [Ha%Z.leb_le Hc]. }
  assert (∀ a c, c ∈ kids f a → a < c ∧ ∃ y, f !! c = Some y ∧ t_parent y = a) as Hkid.
  { intros a c Hc. pose proof Hc as Hc'. apply kid_in in Hc' as [x Hx]. rewrite (kids_some f a x Hx) in Hc. destruct (Hn a x Hx) as [_ (_ & Hk & _)%check_node_sound]; [|done]. by apply Hk. }
  split; [done| | | | | | |].
  - intros a c Hc. by apply Hkid.
  - intros a. destruct (f !! a) as [x|] eqn:Hx; [|unfold kids; rewrite Hx; constructor]. rewrite (kids_some f a x Hx). destruct (Hn a x Hx) as [_ (Hnd & _)%check_node_sound]; done.
  - intros c y Hy Hp. destruct (Hn c y Hy) as [_ (_ & _ & Hpar & _)%check_node_sound]; [|done]. destruct (Hpar Hp) as (z & Hz & Hin & _). by rewrite (kids_some f _ z Hz).
  - intros a x Hx Hp. destruct (Hn a x Hx) as [_ (_ & _ & Hpar & _)%check_node_sound]; [|done]. destruct (Hpar Hp) as (z & Hz & _ & Hd). by exists z.
  - intros a x Hx. destruct (Hn a x Hx) as [_ (_ & _ & _ & Hd & _)%check_node_sound]; done.
  - intros a x Hx. destruct (Hn a x Hx) as [_ (_ & _ & _ & _ & Ho)%check_node_sound]; done.
  - apply (well_founded_lt_compat _ (λ a, Z.to_nat (100 - a))). intros c p Hc. destruct (Hkid p c Hc) as (Hlt & y & Hy & _). destruct (Hn c y Hy) as [Hle _]. lia.
Qed.

(** The heap of a forest all of whose roots are documents. *)
Definition heap_of (f : forest) : dom := mk_dom (map_imap (λ a x, Some (concrete f a x)) f) ∅.

Definition check_roots (f : forest) : bool := forallb (λ '(a, x), negb (t_parent x =? null) || is_document (t_kind x)) (map_to_list f).

Lemma heap_of_ok f : check_wf f = true → check_roots f = true → ok (heap_of f) f.
Proof.
  intros Hwf%check_wf_sound Hr. split; [|done|intros d; constructor|].
  - intros a. cbn. rewrite map_lookup_imap. by destruct (f !! a).
  - intros d a. split; [by intros ?%not_elem_of_nil|]. intros (x & Hx & Hp & Hk & _). unfold check_roots in Hr. rewrite forallb_forall in Hr.
    specialize (Hr (a, x) (proj1 (list_elem_of_In _ _) (proj2 (elem_of_map_to_list _ _ _) Hx))). cbn in Hr. rewrite Hp in Hr. cbn in Hr. unfold is_document in Hr. by apply bool_decide_eq_true in Hr.
Qed.

(** [<a k="1">x<b/></a>] *)
Definition small_forest : forest := list_to_map [
  (1, mk_tree_node DocumentKind 1 null [] [] [2]);
  (2, mk_tree_node ElementKind 1 1 [97] [([107], [49])] [3; 4]);
  (3, mk_tree_node (TextKind false) 1 2 [120] [] []);
  (4, mk_tree_node ElementKind 1 2 [98] [] [])].

Definition small_values : list xml := [Element [97] [([107], [49])] [Text [120] false; Element [98] [] []]].

Lemma small_ok : ok (heap_of small_forest) small_forest.
Proof. by apply heap_of_ok; vm_compute. Qed.

Lemma small_stands : Forall2 (stands_for small_forest) (kids small_forest 1) small_values.
Proof.
  assert (∀ a x, small_forest !! a = Some x → t_kids x = [] → ∀ v, parts v x [] → stands_for small_forest a v) as Hleaf. { intros a x Hx Hk v Hp. apply stands_for_parts. exists x, []. rewrite Hk. split; [done|]. split; [done|constructor]. }
  constructor; [|constructor]. apply stands_for_parts. eexists _, _. split; [reflexivity|]. split; [split_and!; try reflexivity; repeat constructor; set_solver|].
  constructor; [|constructor; [|constructor]]; eapply Hleaf; try reflexivity; split_and!; try reflexivity; constructor.
Qed.

Lemma small_leaf a c : kids small_forest c = [] → a ≠ c → ¬ within small_forest a c.
Proof. intros Hk Hac [?|(k & Hin & _)]%within_step; [done|]. rewrite Hk in Hin. by apply not_elem_of_nil in Hin. Qed.

(** ** Instances of the properties *)
(** A new element at the end of the root, then the text is deleted. *)
Definition small_script : script := Do (New ElementKind 1 [99]) (λ r, Do (InsertEnd 2 r) (λ _, Do (Delete 3) (λ _, Stop))).

Lemma small_permitted : permitted small_forest small_script.
Proof.
  constructor; [by split; [by eexists|]|]. intros r f1 (Hr0 & Hr & ->). pose proof (ok_wf _ _ _ small_ok) as Hwf. set (x := new_root ElementKind 1 [99]).
  assert (wf (<[r := x]> small_forest)) as Hwf'. { apply wf_insert; try done. by eexists. }
  assert (∀ a y, small_forest !! a = Some y → <[r := x]> small_forest !! a = Some y) as Hold by (intros a y Hy; rewrite lookup_insert_ne; [done|congruence]).
  constructor.
  - eexists _, x. split; [by apply Hold|]. split; [apply lookup_insert_eq|]. split_and!; try done. apply fresh_apart; try done; by eexists.
  - intros r' f2 [_ ->]. rewrite (detach_root _ r x) by (done || apply lookup_insert_eq). constructor; [|intros; constructor].
    assert (r ≠ 3 ∧ r ≠ 2) as [? ?] by (split; intros ->; done). unfold pre, graft. rewrite !lookup_alter_ne, (Hold 3 _ eq_refl) by done. by eexists.
Qed.

Lemma edits_refine_forest_witness : ok (heap_of small_forest) small_forest ∧ permitted small_forest small_script ∧
  ∃ h' f', run_script small_script (heap_of small_forest) = Ok h' ∧ outcome small_forest small_script f' ∧ ok h' f'.
Proof. split; [exact small_ok|]. split; [exact small_permitted|]. apply (edits_refine_forest (heap_of small_forest) small_forest small_script small_ok small_permitted). Defined.

Lemma insert_after_crashes_witness : InsertAfterChild (heap_of small_forest) 2 3 4 = Ub ↔ ∃ l, kids small_forest 2 = l ++ [3; 4].
Proof.
  apply (insert_after_crashes (heap_of small_forest) small_forest 2 3 4 small_ok); [|by left|done].
  eexists _, _. split; [reflexivity|]. split; [reflexivity|]. split_and!; try done. by apply small_leaf.
Defined.

Lemma child_elements_witness : FirstChildElement (heap_of small_forest) 2 None = Ok 4 ∧ LastChildElement (heap_of small_forest) 2 (Some [99]) = Ok null ∧ NextSiblingElement (heap_of small_forest) 3 (Some [98]) = Ok 4.
Proof.
  assert (is_Some (small_forest !! 2)) as H2 by by eexists. split; [|split].
  - exact (proj1 (child_elements (heap_of small_forest) small_forest 2 None small_ok H2)).
  - exact (proj1 (proj2 (child_elements (heap_of small_forest) small_forest 2 (Some [99]) small_ok H2))).
  - exact (proj1 (proj2 (proj2 (child_elements (heap_of small_forest) small_forest 2 (Some [98]) small_ok H2)) [] 3 [4] eq_refl)).
Defined.

Lemma built_document_roundtrip_witness : ∃ p d' ns, document_accept (heap_of small_forest) 1 true false true = Ok p ∧
  Parse (Some (written p)) (new_document false) = Ok ((XML_SUCCESS, ns), d') ∧ holds d' ns small_values.
Proof. apply (built_document_roundtrip true false (heap_of small_forest) small_forest 1); [exact small_ok|by eexists|exact small_stands|vm_compute; reflexivity|reflexivity..]. Defined.

(** ** Runs *)
(** The program of above prints [<a k="1"><b/><c/></a>]. *)
Example small_run : (h ← run_script small_script (heap_of small_forest); p ← document_accept h 1 true false true; Ok (written p)) =
  Ok [60; 97; 32; 107; 61; 34; 49; 34; 62; 60; 98; 47; 62; 60; 99; 47; 62; 60; 47; 97; 62].
Proof. vm_compute. reflexivity. Qed.

Example small_crash : InsertAfterChild (heap_of small_forest) 2 3 4 = Ub.
Proof. vm_compute. reflexivity. Qed.

(** A copy of the element is put before it, with a text, and the first one is deleted. *)
Example small_copies : (h ← run_script (Do (Clone 2 null) (λ r, Do (InsertFirst 1 r) (λ _, Do (SetTextOf r [122]) (λ _, Do (DeleteBelow 1 2) (λ _, Stop))))) (heap_of small_forest);
    p ← document_accept h 1 true false true; Ok (written p)) = Ok [60; 97; 32; 107; 61; 34; 49; 34; 62; 122; 60; 98; 47; 62; 60; 47; 97; 62].
Proof. vm_compute. reflexivity. Qed.
