(* ===== verification/TinyNumbers.v ===== *)
(** * TinyNumbers: integers and booleans as the text and the attributes of elements

    What src/tinyxml2/tinyxml2.cpp does for each type of numbers it does in the same way, so
    the functions here take the type; [int], [unsigned], [int64_t], [uint64_t] and [bool] are
    covered, [float] and [double] are not.  [sscanf] and [snprintf] are those of the C library
    for ["%d"], ["%u"], ["%lld"], ["%llu"] and ["%s"]. *)

From S2P Require Import Prelude CDouble TinyText TinyXml TinyTheorems TinyDom TinyLinks TinyEdit TinyDelete TinyClone TinyDomTheorems.
#[local] Open Scope Z_scope.

Inductive number_type := Int | Unsigned | Int64 | Unsigned64 | Bool.

Definition number (t : number_type) : Type := match t with Bool => bool | _ => Z end.

(** ** The C library *)
Definition isspace (c : Z) : bool := bool_decide (c ∈ [9; 10; 11; 12; 13; 32]).

(** [snprintf]: what fits into a buffer of that size with its NUL. *)
Definition snprintf (size : nat) (text : list Z) : list Z := take (size - 1) text.

Fixpoint skip_spaces (s : list Z) : list Z := match s with c :: s' => if isspace c then skip_spaces s' else s | [] => [] end.

(** The sign and the digits at the head of the text, after blanks. *)
Definition scan_integer (s : list Z) : option (bool * Z) :=
  let '(neg, _, s) := scan_sign (skip_spaces s) in
  let '(v, n, _) := scan_digits s 0 0 in
  match n with O => None | S _ => Some (neg, v) end.

(** [sscanf] of a signed or unsigned number of [w] bits; a number that is too large is
    undefined. *)
Definition sscanf_signed (w : Z) (s : list Z) : result (option Z) :=
  match scan_integer s with
  | None => Ok None
  | Some (neg, v) => let v := if neg : bool then - v else v in if (- 2 ^ (w - 1) <=? v) && (v <? 2 ^ (w - 1)) then Ok (Some v) else Ub
  end.
Definition sscanf_unsigned (w : Z) (s : list Z) : result (option Z) :=
  match scan_integer s with
  | None => Ok None
  | Some (neg, v) => if v <? 2 ^ w then Ok (Some ((if neg : bool then - v else v) mod 2 ^ w)) else Ub
  end.

(** ** Conversions *)
(** [writeBoolTrue] and [writeBoolFalse], the texts for booleans. *)
Definition bool_texts : Type := list Z * list Z.
Definition true_text : list Z := [116; 114; 117; 101].
Definition false_text : list Z := [102; 97; 108; 115; 101].

(** [SetBoolSerialization]; a null text is that of the default. *)
Definition SetBoolSerialization (writeTrue writeFalse : option (list Z)) : bool_texts := (default true_text writeTrue, default false_text writeFalse).

Class TinyxmlNumberH := {
  (** The size of the buffers numbers are printed to *)
  BUF_SIZE : nat;
  (** [XMLElement::QueryIntAttribute(name, value)] and the like, on the attributes of an element
      and over [XMLAttribute::QueryIntValue] and the like: the error and the value set *)
  QueryAttribute : ∀ {A}, (list Z → result (XMLError * option A)) → list attribute → list Z → result (XMLError * option A);
  (** [XMLElement::SetAttribute(name, v)] of a number, over [XMLAttribute::SetAttribute(v)] *)
  SetNumberAttribute : (list attribute → nat → list attribute) → list attribute → list Z → list attribute
}.

Section numbers.
Context `{TinyxmlH} `{!TinyxmlDomH} `{!TinyxmlNumberH} (names : bool_texts).

(** The overloads of [XMLUtil::ToStr]. *)
Definition ToStr (t : number_type) : number t → list Z :=
  match t with
  | Bool => λ v, snprintf BUF_SIZE (if v then names.1 else names.2)
  | _ => λ v, snprintf BUF_SIZE (show_Z v)
  end.

Definition ToInt (s : list Z) : result (option Z) := sscanf_signed 32 s.
Definition ToUnsigned (s : list Z) : result (option Z) := sscanf_unsigned 32 s.
Definition ToInt64 (s : list Z) : result (option Z) := sscanf_signed 64 s.
Definition ToUnsigned64 (s : list Z) : result (option Z) := sscanf_unsigned 64 s.

(** [true], [True], [TRUE] *)
Definition TRUE_VALS : list (list Z) := [true_text; [84; 114; 117; 101]; [84; 82; 85; 69]].
Definition FALSE_VALS : list (list Z) := [false_text; [70; 97; 108; 115; 101]; [70; 65; 76; 83; 69]].

Definition ToBool (s : list Z) : result (option bool) :=
  i ← ToInt s;
  match i with
  | Some ival => Ok (Some (negb (ival =? 0)))
  | None =>
      Ok (if existsb (StringEqual s) TRUE_VALS then Some true
          else if existsb (StringEqual s) FALSE_VALS then Some false else None)
  end.

Definition To (t : number_type) : list Z → result (option (number t)) :=
  match t with Int => ToInt | Unsigned => ToUnsigned | Int64 => ToInt64 | Unsigned64 => ToUnsigned64 | Bool => ToBool end.

(** ** Attributes *)
(** [XMLAttribute::QueryIntValue] and the like, of an attribute with that value *)
Definition QueryValue (t : number_type) (s : list Z) : result (XMLError * option (number t)) :=
  r ← To t s;
  Ok (match r with Some v => (XML_SUCCESS, Some v) | None => (XML_WRONG_ATTRIBUTE_TYPE, None) end).

(** The overloads of [XMLAttribute::SetAttribute]. *)
Definition set_attribute_number (t : number_type) (v : number t) (attrs : list attribute) (i : nat) : list attribute := set_attribute_value attrs i (ToStr t v).

(** [XMLElement::IntAttribute] and the like. *)
Definition NumberAttribute (t : number_type) (attrs : list attribute) (name : list Z) (defaultValue : number t) : result (number t) :=
  '(_, v) ← QueryAttribute (QueryValue t) attrs name;
  Ok (default defaultValue v).

(** ** Text *)
(** The overloads of [XMLElement::SetText]. *)
Definition SetTextNumber (t : number_type) (h : dom) (this : Z) (v : number t) : result dom := SetText h this (ToStr t v).

(** [XMLElement::QueryIntText] and the like; [Value] of a text is not null. *)
Definition QueryText (t : number_type) (h : dom) (this : Z) : result (XMLError * option (number t)) :=
  c ← text_child h this;
  match c with
  | Some c =>
      s ← Value h c;
      s ← of_opt s;
      r ← To t s;
      Ok (match r with Some v => (XML_SUCCESS, Some v) | None => (XML_CAN_NOT_CONVERT_TEXT, None) end)
  | None => Ok (XML_NO_TEXT_NODE, None)
  end.

(** [XMLElement::IntText] and the like. *)
Definition NumberText (t : number_type) (h : dom) (this : Z) (defaultValue : number t) : result (number t) :=
  '(_, v) ← QueryText t h this;
  Ok (default defaultValue v).

(** ** Printing without a document *)
Definition PushAttributeNumber (t : number_type) (name : list Z) (v : number t) (p : XMLPrinter) : XMLPrinter := PushAttribute name (ToStr t v) p.
Definition PushTextNumber (t : number_type) (v : number t) (p : XMLPrinter) : XMLPrinter := PushText (ToStr t v) false p.
End numbers.

(** ** Reading back *)
(** Buffers that hold every number, and the documented behaviour of the header's functions. *)
Class TinyxmlNumberOk `{TinyxmlH} `{!TinyxmlNumberH} : Prop := {
  buffer_size : (20 < BUF_SIZE)%nat;
  query_attribute : ∀ A (q : list Z → result (XMLError * option A)) attrs name,
    QueryAttribute q attrs name = match FindAttribute attrs name with Some a => q a.2 | None => Ok (XML_NO_ATTRIBUTE, None) end;
  set_number_attribute : ∀ f attrs name, SetNumberAttribute f attrs name = let '(attrs, i) := FindOrCreateAttribute attrs name in f attrs i
}.

Definition in_range (t : number_type) : number t → Prop :=
  match t with
  | Int => λ v, - 2 ^ 31 ≤ v < 2 ^ 31
  | Unsigned => λ v, 0 ≤ v < 2 ^ 32
  | Int64 => λ v, - 2 ^ 63 ≤ v < 2 ^ 63
  | Unsigned64 => λ v, 0 ≤ v < 2 ^ 64
  | Bool => λ _, True
  end.

Lemma length_show_integer v : - 10 ^ 19 < v < 10 ^ 20 → (length (show_Z v) ≤ 20)%nat.
Proof.
  intros Hv. unfold show_Z. destruct (Z.ltb_spec v 0) as [Hn|Hn].
  - destruct (show_nat_bounds (- v) 19) as [Hl _]; [lia|change (Z.of_nat 19) with 19; lia|]. cbn [length]. lia.
  - destruct (show_nat_bounds v 20) as [Hl _]; [lia|change (Z.of_nat 20) with 20; lia|]. lia.
Qed.

Lemma skip_spaces_head c s : isspace c = false → skip_spaces (c :: s) = c :: s.
Proof. intros E. cbn. by rewrite E. Qed.

Lemma digit_not_space c : is_digit c = true → isspace c = false ∧ c ≠ 45 ∧ c ≠ 43.
Proof. unfold is_digit, isspace. rewrite andb_true_iff, !Z.leb_le. intros Hc. split_and!; [|lia..]. apply bool_decide_eq_false_2. set_solver by lia. Qed.

Lemma scan_show_Z v : scan_integer (show_Z v) = Some (v <? 0, Z.abs v).
Proof.
  unfold scan_integer, show_Z. destruct (Z.ltb_spec v 0) as [Hn|Hn].
  - rewrite skip_spaces_head by done. cbn [scan_sign]. change (45 =? 45) with true. cbv iota. destruct (show_nat_digits (- v) ltac:(lia)) as (c & ds & E & Hd & Hv). pose proof (scan_digits_app (show_nat (- v)) [] 0 0 Hd I) as Hs. rewrite app_nil_r in Hs.
    rewrite Hs, Hv, E. cbn. f_equal. f_equal. lia.
  - destruct (show_nat_digits v Hn) as (c & ds & E & Hd & Hv). pose proof (scan_digits_app (show_nat v) [] 0 0 Hd I) as Hs. rewrite app_nil_r in Hs. pose proof Hd as Hd'. rewrite E in Hd'. apply Forall_cons in Hd' as [(Hc & H45 & H43)%digit_not_space _].
    assert (scan_sign (show_nat v) = (false, O, show_nat v)) as Hsign. { rewrite E. cbn. by rewrite (proj2 (Z.eqb_neq c 45)), (proj2 (Z.eqb_neq c 43)). }
    assert (skip_spaces (show_nat v) = show_nat v) as -> by (rewrite E; by apply skip_spaces_head). rewrite Hsign, Hs, Hv, E. cbn. f_equal. f_equal. lia.
Qed.

Lemma signed_abs v : (if v <? 0 then - Z.abs v else Z.abs v) = v.
Proof. destruct (Z.ltb_spec v 0); lia. Qed.

Lemma sscanf_signed_show w v : - 2 ^ (w - 1) ≤ v < 2 ^ (w - 1) → sscanf_signed w (show_Z v) = Ok (Some v).
Proof. intros Hv. unfold sscanf_signed. rewrite scan_show_Z. cbv zeta. by rewrite signed_abs, (proj2 (Z.leb_le _ _)), (proj2 (Z.ltb_lt _ _)) by lia. Qed.

Lemma sscanf_unsigned_show w v : 0 ≤ v < 2 ^ w → sscanf_unsigned w (show_Z v) = Ok (Some v).
Proof. intros Hv. unfold sscanf_unsigned. by rewrite scan_show_Z, signed_abs, (proj2 (Z.ltb_lt _ _)), Z.mod_small by lia. Qed.

Section read_back.
Context `{TinyxmlHOk} `{!TinyxmlDomH} `{!TinyxmlDomOk} `{!TinyxmlNumberH} `{!TinyxmlNumberOk} (names : bool_texts).

(** Texts that [ToBool] reads, in a buffer that holds them. *)
Definition readable : Prop :=
  ToBool names.1 = Ok (Some true) ∧ ToBool names.2 = Ok (Some false) ∧ (length names.1 < BUF_SIZE)%nat ∧ (length names.2 < BUF_SIZE)%nat.

Lemma snprintf_fits s : (length s < BUF_SIZE)%nat → snprintf BUF_SIZE s = s.
Proof using. intros Hs. apply take_ge. lia. Qed.

Lemma To_ToStr t (v : number t) : readable → in_range t v → To t (ToStr names t v) = Ok (Some v).
Proof using All.
  intros (Ht & Hf & Hlt & Hlf) Hv. pose proof buffer_size as Hb. destruct t; cbn [ToStr To in_range number] in *.
  1-4: rewrite snprintf_fits by (pose proof (length_show_integer v ltac:(lia)); lia); (by apply sscanf_signed_show) || by apply sscanf_unsigned_show.
  rewrite snprintf_fits by by destruct v. by destruct v.
Qed.

Lemma attribute_set attrs name v : FindAttribute (let '(l, i) := FindOrCreateAttribute attrs name in set_attribute_value l i v) name = Some (name, v).
Proof using H0.
  induction attrs as [|[n w] attrs IH]; cbn.
  - rewrite string_equal, bool_decide_eq_true_2; done.
  - rewrite string_equal. case_bool_decide as En; cbn in En.
    + subst. cbn. by rewrite string_equal, bool_decide_eq_true_2.
    + destruct (FindOrCreateAttribute attrs name) as [l i]. cbn. rewrite string_equal, bool_decide_eq_false_2 by done. exact IH.
Qed.

(** After [SetText] the first child is a text of that value. *)
Lemma SetText_text h f a x s : ok h f → f !! a = Some x → t_kind x ≠ DocumentKind → ∃ h' t, SetText h a s = Ok h' ∧ text_child h' a = Ok (Some t) ∧ Value h' t = Ok (Some s).
Proof using All.
  intros Hok Hx Hk. destruct (run_strings h f (SetTextOf a s) Hok ltac:(by exists x) I) as (h' & r & f' & E & Hpost & Hok'). cbn [run] in E. unfold nothing in E. destruct (SetText h a s) as [h1| |]; [|done..]. injection E as -> _.
  pose proof (ok_linked _ _ _ Hok') as Hl. pose proof (ok_wf _ _ _ Hok') as Hwf'. pose proof (ok_wf _ _ _ Hok) as Hwf. destruct Hpost as [_ Hpost]. exists h'.
  assert (∀ t y x', f' !! a = Some x' → first_text f' a = Some t → f' !! t = Some y → t_kind y ≠ DocumentKind → t_value y = s → ∃ t, Ok h' = Ok h' ∧ text_child h' a = Ok (Some t) ∧ Value h' t = Ok (Some s)) as Hend.
  { intros t y x' Hx' Ht Hy Hky Hv. exists t. split; [done|]. rewrite (text_child_spec h' f' a x') by done. rewrite Ht. split; [done|]. unfold Value. rewrite !(rd_some _ h' t _ (linked_some h' f' Hl t y Hy)), ok_bind. cbn [concrete _kind _value].
    unfold is_document. rewrite bool_decide_eq_false_2, ok_bind by done. by rewrite Hv. }
  destruct (first_text f a) as [c|] eqn:Ec.
  - subst f'. unfold first_text in Ec. destruct (kids f a) as [|c' l] eqn:Ek; [done|]. destruct (f !! c') as [y|] eqn:Hy; [|done]. destruct (is_text (t_kind y)) eqn:Ety; [|done]. injection Ec as ->.
    assert (kids (alter (with_value s) c f) a = c :: l) as Ek'. { rewrite (kids_some _ _ _ Hx) in Ek. unfold kids. rewrite lookup_alter. case_decide; [subst; by rewrite Hx|by rewrite Hx]. }
    destruct (kid_in (alter (with_value s) c f) a c ltac:(rewrite Ek'; by left)) as [x' Hx']. apply (Hend c (with_value s y) x'); [done| |by rewrite lookup_alter_eq, Hy| |done].
    + unfold first_text. by rewrite Ek', lookup_alter_eq, Hy; cbn; rewrite Ety.
    + cbn. intros Ek0. by rewrite Ek0 in Ety.
  - destruct Hpost as (t & d & Ht0 & Ht & Hd & ->). assert (t ≠ a) as Hta by congruence. set (f1 := <[t := new_root (TextKind false) d s]> f) in *.
    assert (graft a t (λ l, t :: l) f1 !! a = Some (with_kids (t :: t_kids x) x)) as Hx'. { unfold graft, f1. by rewrite lookup_alter_ne, lookup_alter_eq, lookup_insert_ne, Hx. }
    assert (graft a t (λ l, t :: l) f1 !! t = Some (with_parent a (new_root (TextKind false) d s))) as Hy'. { unfold graft, f1. by rewrite lookup_alter_eq, lookup_alter_ne, lookup_insert_eq. }
    apply (Hend t (with_parent a (new_root (TextKind false) d s)) _ Hx'); [|done..]. unfold first_text. by rewrite (kids_some _ _ _ Hx'); cbn [t_kids with_kids]; rewrite Hy'.
Qed.

(** C32. A value of one of the types [int], [unsigned], [int64_t], [uint64_t] and [bool] that is set
    as the text or as an attribute of an element is read back by the query of the same type,
    whatever the element had before.  The texts [writeBoolTrue] and [writeBoolFalse] must be
    [readable]: [ToBool] reads them as true and false and they fit into the buffer, as the
    default ones do.  The overloads for [float] and [double] are not covered. *)
Theorem numbers_read_back t (v : number t) h f a x attrs name : readable → in_range t v → ok h f → f !! a = Some x → t_kind x = ElementKind →
  (∃ h', SetTextNumber names t h a v = Ok h' ∧ QueryText t h' a = Ok (XML_SUCCESS, Some v) ∧ ∀ w, NumberText t h' a w = Ok v) ∧
  QueryAttribute (QueryValue t) (SetNumberAttribute (set_attribute_number names t v) attrs name) name = Ok (XML_SUCCESS, Some v) ∧
  ∀ w, NumberAttribute t (SetNumberAttribute (set_attribute_number names t v) attrs name) name w = Ok v.
Proof.
  intros Hn Hv Hok Hx Hk. pose proof (To_ToStr t v Hn Hv) as E. split.
  - destruct (SetText_text h f a x (ToStr names t v) Hok Hx ltac:(by rewrite Hk)) as (h' & c & Es & Et & Ev). exists h'. split; [done|].
    assert (QueryText t h' a = Ok (XML_SUCCESS, Some v)) as Eq by (unfold QueryText; rewrite Et, ok_bind, Ev, ok_bind; cbn [of_opt]; by rewrite ok_bind, E). split; [done|]. intros w. unfold NumberText. by rewrite Eq, ok_bind.
  - rewrite set_number_attribute. unfold set_attribute_number at 1 2. assert (QueryAttribute (QueryValue t) (let '(l, i) := FindOrCreateAttribute attrs name in set_attribute_value l i (ToStr names t v)) name = Ok (XML_SUCCESS, Some v)) as Eq.
    { rewrite query_attribute, attribute_set. unfold QueryValue. cbn [snd]. by rewrite E. }
    split; [exact Eq|]. intros w. unfold NumberAttribute. by rewrite Eq, ok_bind.
Qed.
End read_back.

(** ** An instance of the header *)
#[export] Instance tinyxml2_numbers : TinyxmlNumberH := {
  BUF_SIZE := 200;
  QueryAttribute A q attrs name := match FindAttribute attrs name with Some a => q a.2 | None => Ok (XML_NO_ATTRIBUTE, None) end;
  SetNumberAttribute f attrs name := let '(attrs, i) := FindOrCreateAttribute attrs name in f attrs i
}.

#[export] Instance tinyxml2_numbers_ok : TinyxmlNumberOk.
Proof. split; [cbn; lia|done..]. Qed.

(** An element with a child element and a text gets a number as its text, which replaces the text. *)
Lemma numbers_read_back_witness : (∃ h', SetTextNumber (SetBoolSerialization None None) Int (heap_of small_forest) 2 (-123) = Ok h' ∧ QueryText Int h' 2 = Ok (XML_SUCCESS, Some (-123)) ∧ ∀ w, NumberText Int h' 2 w = Ok (-123)) ∧
  QueryAttribute (QueryValue Int) (SetNumberAttribute (set_attribute_number (SetBoolSerialization None None) Int (-123)) [([107], [49])] [107]) [107] = Ok (XML_SUCCESS, Some (-123)) ∧
  ∀ w, NumberAttribute Int (SetNumberAttribute (set_attribute_number (SetBoolSerialization None None) Int (-123)) [([107], [49])] [107]) [107] w = Ok (-123).
Proof. eapply (numbers_read_back (SetBoolSerialization None None) Int (-123) (heap_of small_forest) small_forest 2); [split_and!; [reflexivity|reflexivity|cbn; lia..]|cbn; lia|exact small_ok|reflexivity|reflexivity]. Defined.

(** ** Runs *)
(** A text that begins with a number is that number, and true. *)
Example scan_prefix : ToInt [32; 49; 50; 97] = Ok (Some 12) ∧ ToBool [32; 49; 50; 97] = Ok (Some true) ∧ ToUnsigned [45; 49] = Ok (Some (2 ^ 32 - 1)).
Proof. by vm_compute. Qed.

(** [sscanf] of a number that does not fit is undefined. *)
Example scan_overflow : ToInt (show_Z (2 ^ 31)) = Ub.
Proof. by vm_compute. Qed.
