(* ===== verification/Http.v ===== *)
(** * Http: src/syncHttp_and_asyncHttp, two clients that send GET requests

    sync_http.c sends a request and collects the answer; async_http.c sends requests whose
    answers a second thread passes to a callback.  What the network and the system answer is an
    argument of the functions.  Blocks of memory are lists of bytes, strings in them end with a
    NUL, and [fill] is what is in bytes that were never written. *)

From S2P Require Import Prelude.
#[local] Open Scope Z_scope.

(** ** The C library *)
(** The string at the head of a block; reading one without a NUL leaves the block. *)
Fixpoint c_string (b : list Z) : result (list Z) :=
  match b with
  | [] => Ub
  | c :: b => if c =? 0 then Ok [] else s ← c_string b; Ok (c :: s)
  end.

(** The bytes [strncat] takes from a block. *)
Fixpoint str_take (n : Z) (b : list Z) : result (list Z) :=
  match b with
  | [] => if n <=? 0 then Ok [] else Ub
  | c :: b => if (n <=? 0) || (c =? 0) then Ok [] else s ← str_take (n - 1) b; Ok (c :: s)
  end.

Definition strncat (dst src : list Z) (n : Z) : result (list Z) :=
  d ← c_string dst;
  s ← str_take n src;
  memwrite dst (Z.of_nat (length d)) (s ++ [0]).

Definition zeros (n : nat) : list Z := replicate n 0.

(** [sprintf] of a text into a cleared buffer. *)
Definition sprintf (size : nat) (text : list Z) : result (list Z) := memwrite (zeros size) 0 (text ++ [0]).

(** What a function that may end the program gives; [Waiting] for what has not arrived. *)
Inductive outcome (A : Type) := Returned (a : A) | Exited | Waiting.
Arguments Returned {A}.
Arguments Exited {A}.
Arguments Waiting {A}.

(** [HTTP/1.1] *)
Definition HTTP_VERSION : list Z := [72; 84; 84; 80; 47; 49; 46; 49].
Definition CRLF : list Z := [13; 10].

(** [GET resource HTTP/1.1], [Host:hostname], [connection] and an empty line *)
Definition request_text (connection hostname resource : list Z) : list Z :=
  [71; 69; 84; 32] ++ resource ++ [32] ++ HTTP_VERSION ++ CRLF ++ [72; 111; 115; 116; 58] ++ hostname ++ CRLF ++ connection ++ CRLF ++ CRLF.

(** ** sync_http.c *)
Module Sync.

(** [Connection: close] *)
Definition CONNECTION_TYPE : list Z := [67; 111; 110; 110; 101; 99; 116; 105; 111; 110; 58; 32; 99; 108; 111; 115; 101].
Definition MAX_BUFFER_SIZE : nat := 1024.

(** What a round of the loop meets: an error of [select], a time-out, bytes, none at the end of
    the connection, or an error of [recv]; and whether [realloc] finds memory. *)
Inductive tick := SelectError | NotReady | Ready (bytes : list Z) (mem : bool) | ReadyError (mem : bool).

Section sync.
(** The size of a pointer, as in [sizeof(result)]. *)
Context (fill : Z) (pointer_size : nat).

Definition realloc (b : list Z) (size : Z) (mem : bool) : result (list Z) :=
  if (size <=? 0) || negb mem then Ub else Ok (take (Z.to_nat size) (b ++ replicate (Z.to_nat size) fill)).

(** [realloc] and [strncat] of the [len] bytes of the buffer. *)
Definition append (res buffer : list Z) (len : Z) (mem : bool) : result (list Z) :=
  s ← c_string res;
  res ← realloc res (Z.of_nat (length s) + len + 1) mem;
  strncat res buffer (u64 len).

(** The loop.  [select] leaves the socket in [fdread] if it is ready and takes it out at a
    time-out; it is never put back. *)
Fixpoint recv_loop (ticks : list tick) (in_fdread : bool) (res : list Z) : result (outcome (list Z)) :=
  match ticks with
  | [] => Ok Waiting
  | SelectError :: _ => Ok Exited
  | t :: ticks =>
      if negb in_fdread then recv_loop ticks false res else
      match t with
      | Ready bytes mem =>
          buffer ← memwrite (zeros MAX_BUFFER_SIZE) 0 bytes;
          let len := Z.of_nat (length bytes) in
          if len =? 0 then Ok (Returned res) else
          res ← append res buffer len mem;
          recv_loop ticks true res
      | ReadyError mem =>
          res ← append res (zeros MAX_BUFFER_SIZE) (-1) mem;
          recv_loop ticks true res
      | _ => recv_loop ticks false res
      end
  end.

(** [malloc(sizeof(int))] and [bzero(result, sizeof(result))] *)
Definition new_result (mem : bool) : result (list Z) := if mem then memwrite (replicate 4 fill) 0 (zeros pointer_size) else Ub.

Definition http_send_request (hostname resource : list Z) (sent mem : bool) (ticks : list tick) : result (outcome (list Z)) :=
  _ ← sprintf MAX_BUFFER_SIZE (request_text CONNECTION_TYPE hostname resource);
  if negb sent then Ok Exited else
  res ← new_result mem;
  recv_loop ticks true res.

(** What is printed; a host without address is skipped. *)
Definition http_client_commit (hostname resource : list Z) (found connected sent mem : bool) (ticks : list tick) : result (outcome (list Z)) :=
  if negb found then Ok (Returned []) else
  if negb connected then Ok Exited else
  r ← http_send_request hostname resource sent mem ticks;
  match r with
  | Returned b => s ← c_string b; Ok (Returned s)
  | r => Ok r
  end.
End sync.
End Sync.

(** ** async_http.c *)
Module Async.

(** [CONNECTION_TYPE]: [Connection:close] *)
Definition ASYNC_CONNECTION_TYPE : list Z := [67; 111; 110; 110; 101; 99; 116; 105; 111; 110; 58; 99; 108; 111; 115; 101].
Definition HOSTNAME_LENGTH : nat := 1024.
Definition BUFFER_SIZE : nat := 1024.

(** The callback is always the same here, so it is not kept. *)
Record ep_arg := mk_arg { client_fd : Z; hostname : list Z }.

(** The blocks of [ep_arg], the descriptors in the epoll set with the pointers given for them,
    the open descriptors, and for each callback the block of the host and what was printed. *)
Record state := mk_state { args : gmap Z ep_arg; epoll : gmap Z Z; fds : gset Z; results : list (list Z * list Z) }.

Definition set_args (a : gmap Z ep_arg) s := mk_state a (epoll s) (fds s) (results s).
Definition set_epoll (e : gmap Z Z) s := mk_state (args s) e (fds s) (results s).
Definition set_fds (d : gset Z) s := mk_state (args s) (epoll s) d (results s).

(** [async_http_init_context]: without memory or an epoll descriptor there is none. *)
Definition async_http_init_context (mem epoll_ok : bool) : option state :=
  if mem && epoll_ok then Some (mk_state ∅ ∅ ∅ []) else None.

(** [close]: a descriptor that is closed leaves the epoll set. *)
Definition close (fd : Z) (s : state) : state := set_fds (fds s ∖ {[ fd ]}) (set_epoll (delete fd (epoll s)) s).
Definition free (p : Z) (s : state) : result state := _ ← of_opt (args s !! p); Ok (set_args (delete p (args s)) s).

(** What the system answers to [async_http_commit]: the descriptor of a connected socket, if
    there is one, and the block [calloc] finds. *)
Record commit_answers := mk_answers { found : bool; connected : option Z; sent : bool; mem_ : option Z; added : bool }.

Definition async_http_commit (host resource : list Z) (k : commit_answers) (s : state) : result (outcome (state * Z)) :=
  if negb (found k) then Ub else
  match connected k with
  | None => Ok Exited
  | Some fd =>
      let s := set_fds ({[ fd ]} ∪ fds s) s in
      _ ← sprintf BUFFER_SIZE (request_text ASYNC_CONNECTION_TYPE host resource);
      if negb (sent k) then Ok (Returned (s, -1)) else
      p ← of_opt (mem_ k);
      h ← memwrite (zeros HOSTNAME_LENGTH) 0 host;
      let s := set_args (<[p := mk_arg fd h]> (args s)) s in
      if negb (added k) then Ok (Returned (s, -1)) else
      Ok (Returned (set_epoll (<[fd := p]> (epoll s)) s, 0))
  end.

(** [async_http_client_result_callback] prints the string in the buffer, not the host. *)
Definition async_http_client_result_callback (host buffer : list Z) (s : state) : result state :=
  t ← c_string buffer;
  Ok (mk_state (args s) (epoll s) (fds s) (results s ++ [(host, t)])).

(** One event: the pointer given for a descriptor, what [recv] returns, [None] for an error, and
    whether [epoll_ctl] removes the descriptor. *)
Record report := mk_report { data_ptr : Z; received : option (list Z); removed : bool }.

Definition handle (s : state) (r : report) : result state :=
  data ← of_opt (args s !! data_ptr r);
  match received r with
  | None => free (data_ptr r) (close (client_fd data) s)
  | Some bytes =>
      buffer ← memwrite (zeros BUFFER_SIZE) 0 bytes;
      s ← async_http_client_result_callback (hostname data) buffer s;
      let s := if removed r then set_epoll (delete (client_fd data) (epoll s)) s else s in
      free (data_ptr r) (close (client_fd data) s)
  end.

(** The events of one [epoll_wait]. *)
Fixpoint handle_all (s : state) (rs : list report) : result state :=
  match rs with [] => Ok s | r :: rs => s ← handle s r; handle_all s rs end.

(** What [epoll_wait] returns: an error that is not a signal ends the thread. *)
Inductive wait := Events (rs : list report) | Interrupted | Failed.

(** The two threads in turn: a request the first one commits, or a round of
    [async_http_thread_func]; the thread may have ended.  What the thread sees of a request
    under way is its last access, [epoll_ctl], so that a commit is one step. *)
Inductive turn := Commit (host resource : list Z) (k : commit_answers) | Round (w : wait).

(** The state, whether the thread runs, and the hosts of the requests that were accepted. *)
Fixpoint run (s : state) (running : bool) (accepted : list (list Z)) (ts : list turn) : result (outcome (state * bool * list (list Z))) :=
  match ts with
  | [] => Ok (Returned (s, running, accepted))
  | Commit host resource k :: ts =>
      r ← async_http_commit host resource k s;
      match r with
      | Returned (s, ret) => run s running (if ret =? 0 then accepted ++ [host] else accepted) ts
      | Exited => Ok Exited
      | Waiting => Ok Waiting
      end
  | Round w :: ts =>
      if negb running then run s false accepted ts else
      match w with
      | Events rs => s ← handle_all s rs; run s true accepted ts
      | Interrupted => run s true accepted ts
      | Failed => run s false accepted ts
      end
  end.
End Async.
