(* ===== verification/HttpTheorems.v ===== *)
(** * HttpTheorems: what the two HTTP clients promise *)

From S2P Require Import Prelude Http.
#[local] Open Scope Z_scope.

(** ** Strings *)
(** A text up to its first NUL. *)
Fixpoint cut (b : list Z) : list Z := match b with [] => [] | c :: b => if c =? 0 then [] else c :: cut b end.

Lemma cut_nul b : 0 ∉ cut b.
Proof. induction b as [|c b IH]; cbn; [apply not_elem_of_nil|]. destruct (Z.eqb_spec c 0); [apply not_elem_of_nil|]. by apply not_elem_of_cons. Qed.

Lemma length_cut b : (length (cut b) ≤ length b)%nat.
Proof. induction b as [|c b IH]; cbn; [lia|]. destruct (c =? 0); cbn; lia. Qed.

Lemma c_string_stop s r : 0 ∉ s → c_string (s ++ 0 :: r) = Ok s.
Proof. induction s as [|c s IH]; intros Hs; [done|]. apply not_elem_of_cons in Hs as [Hc Hs]. cbn. rewrite (proj2 (Z.eqb_neq c 0)) by done. by rewrite IH. Qed.

Lemma c_string_inv b : ∀ s, c_string b = Ok s → 0 ∉ s ∧ ∃ r, b = s ++ 0 :: r.
Proof.
  induction b as [|c b IH]; intros s; cbn; [done|]. destruct (Z.eqb_spec c 0) as [->|Hc]; [intros [= <-]; split; [apply not_elem_of_nil|by exists b]|].
  intros (t & Et & [= <-])%bind_Ok. destruct (IH t Et) as (Ht & r & ->). split; [by apply not_elem_of_cons|by exists r].
Qed.




Lemma memwrite_at d1 d2 d3 bs : length d2 = length bs → memwrite (d1 ++ d2 ++ d3) (Z.of_nat (length d1)) bs = Ok (d1 ++ bs ++ d3).
Proof.
  intros Hl. rewrite memwrite_Ok by (rewrite ?length_app; lia). rewrite Nat2Z.id, take_app_length. do 3 f_equal. rewrite app_assoc. apply drop_app_length'. rewrite length_app. lia.
Qed.

Lemma memwrite_zeros n bs : (length bs ≤ n)%nat → memwrite (zeros n) 0 bs = Ok (bs ++ zeros (n - length bs)).
Proof.
  intros Hl. assert (zeros n = [] ++ zeros (length bs) ++ zeros (n - length bs)) as -> by (unfold zeros; cbn [app]; rewrite <- replicate_add; f_equal; lia).
  apply (memwrite_at []). apply length_replicate.
Qed.

(** ** sync_http.c *)
Module Sync.
Import Http.Sync.

Lemma str_take_cut bytes n rest : Z.of_nat (length bytes) = n → str_take n (bytes ++ rest) = Ok (cut bytes).
Proof.
  revert n. induction bytes as [|c bytes IH]; intros n Hn; cbn [length app] in *.
  - subst n. by destruct rest.
  - cbn [str_take cut]. rewrite (proj2 (Z.leb_gt n 0)) by lia. destruct (c =? 0); [done|]. cbn [orb]. by rewrite IH by lia.
Qed.

Lemma append_spec fill res s bytes : c_string res = Ok s → bytes ≠ [] → (length bytes ≤ MAX_BUFFER_SIZE)%nat →
  ∃ res', append fill res (bytes ++ zeros (MAX_BUFFER_SIZE - length bytes)) (Z.of_nat (length bytes)) true = Ok res' ∧ c_string res' = Ok (s ++ cut bytes).
Proof.
  intros Hres Hne Hle. destruct (c_string_inv res s Hres) as (Hs & r & ->). assert (0 < length bytes)%nat as Hlen by (destruct bytes; [done|cbn; lia]). unfold MAX_BUFFER_SIZE in Hle. unfold append. rewrite Hres, ok_bind.
  set (n := (length s + length bytes + 1)%nat). unfold realloc. rewrite (proj2 (Z.leb_gt _ 0)) by lia. cbn [orb negb]. rewrite ok_bind. replace (Z.to_nat (Z.of_nat (length s) + Z.of_nat (length bytes) + 1)) with n by lia.
  assert (∃ t, take n ((s ++ 0 :: r) ++ replicate n fill) = s ++ 0 :: t ∧ length t = length bytes) as (t & -> & Ht).
  { exists (take (length bytes) (r ++ replicate n fill)). rewrite length_take, length_app, length_replicate. split; [|lia]. rewrite <- app_assoc. unfold n. rewrite <- Nat.add_assoc, take_app_add', <- app_comm_cons by done. by rewrite Nat.add_comm. }
  unfold strncat. rewrite c_string_stop, ok_bind by done. unfold u64. rewrite Z.mod_small by lia. rewrite str_take_cut, ok_bind by done. pose proof (length_cut bytes) as Hc.
  assert (0 :: t = take (length (cut bytes) + 1) (0 :: t) ++ drop (length (cut bytes) + 1) (0 :: t)) as -> by by rewrite take_drop.
  rewrite memwrite_at by (rewrite length_take, length_app; cbn [length]; lia). eexists. split; [done|]. rewrite <- app_assoc, app_assoc. apply c_string_stop. rewrite elem_of_app. intros [?|?]; [done|]. by apply (cut_nul bytes).
Qed.

(** The loop takes the chunks that arrive before the next time-out and goes on with what is left. *)
Lemma loop_collects fill chunks : ∀ res s, Forall (λ c, c ≠ [] ∧ (length c ≤ MAX_BUFFER_SIZE)%nat) chunks → c_string res = Ok s →
  ∃ b, c_string b = Ok (s ++ concat (map cut chunks)) ∧ ∀ rest, recv_loop fill (map (λ c, Ready c true) chunks ++ rest) true res = recv_loop fill rest true b.
Proof.
  induction chunks as [|c chunks IH]; intros res s Hc Hres; [exists res; rewrite app_nil_r; split; [exact Hres|done]|]. apply Forall_cons in Hc as [[Hne Hle] Hc].
  destruct (append_spec fill res s c Hres Hne Hle) as (res' & E & Hres'). destruct (IH res' _ Hc Hres') as (b & Hb & Eb). exists b. rewrite <- app_assoc in Hb. split; [exact Hb|]. intros rest.
  cbn [map app recv_loop negb]. rewrite memwrite_zeros, ok_bind by done. rewrite (proj2 (Z.eqb_neq _ 0)) by (destruct c; [done|cbn; lia]). by rewrite E, ok_bind.
Qed.

Lemma loop_stuck fill ticks res : SelectError ∉ ticks → recv_loop fill ticks false res = Ok Waiting.
Proof. induction ticks as [|t ticks IH]; intros Hn; [done|]. apply not_elem_of_cons in Hn as [Ht Hn]. cbn. destruct t; [done|by apply IH..]. Qed.

Lemma loop_ends fill ticks rest res : SelectError ∉ ticks → recv_loop fill (ticks ++ SelectError :: rest) false res = Ok Exited.
Proof. induction ticks as [|t ticks IH]; intros Hn; [done|]. apply not_elem_of_cons in Hn as [Ht Hn]. cbn. destruct t; [done|by apply IH..]. Qed.

(** C34. [http_send_request] for a request that fits into its buffer.  Where pointers are longer than
    the four bytes of an [int], clearing the block for the answer writes beyond it.  Where they
    are not, then after any chunks that arrived before a time-out: at the end of the connection
    it returns them one after the other, each up to its first NUL; an error of [select] ends
    the program; and from the first time-out on it waits for ever, whatever arrives, until
    [select] fails. *)
Theorem http_send_request_outcomes fill pointer_size host resource : (length (request_text CONNECTION_TYPE host resource) < MAX_BUFFER_SIZE)%nat →
  ((4 < pointer_size)%nat → ∀ ticks, http_send_request fill pointer_size host resource true true ticks = Ub) ∧
  ((0 < pointer_size ≤ 4)%nat → ∀ chunks, Forall (λ c, c ≠ [] ∧ (length c ≤ MAX_BUFFER_SIZE)%nat) chunks →
    let outcome_of ticks := http_send_request fill pointer_size host resource true true (map (λ c, Ready c true) chunks ++ ticks) in
    (∀ mem rest, ∃ b, outcome_of (Ready [] mem :: rest) = Ok (Returned b) ∧ c_string b = Ok (concat (map cut chunks))) ∧
    (∀ rest, outcome_of (SelectError :: rest) = Ok Exited) ∧
    (∀ ticks, SelectError ∉ ticks → outcome_of (NotReady :: ticks) = Ok Waiting) ∧
    (∀ ticks rest, SelectError ∉ ticks → outcome_of (NotReady :: ticks ++ SelectError :: rest) = Ok Exited)).
Proof.
  intros Hreq. assert (∀ ticks, http_send_request fill pointer_size host resource true true ticks = res ← new_result fill pointer_size true; recv_loop fill ticks true res) as E.
  { intros ticks. unfold http_send_request, sprintf. by rewrite memwrite_zeros, ok_bind by (rewrite length_app; cbn [length]; lia). }
  split.
  - intros Hp ticks. rewrite E. unfold new_result, memwrite. rewrite bool_decide_eq_false_2; [done|]. unfold zeros. rewrite !length_replicate. lia.
  - intros Hp chunks Hc. assert (∃ res, new_result fill pointer_size true = Ok res ∧ c_string res = Ok []) as (res & Er & Hres).
    { unfold new_result. rewrite memwrite_Ok by (unfold zeros; rewrite ?length_replicate; lia). eexists. split; [done|]. by destruct pointer_size; [lia|]. }
    destruct (loop_collects fill chunks res [] Hc Hres) as (b & Hb & El). cbn zeta.
    assert (∀ ticks, http_send_request fill pointer_size host resource true true (map (λ c, Ready c true) chunks ++ ticks) = recv_loop fill ticks true b) as Eo by (intros ticks; by rewrite E, Er, ok_bind).
    split; [by intros mem rest; exists b; rewrite Eo|]. split; [by intros rest; rewrite Eo|].
    split; intros ticks; [|intros rest]; intros Hn; rewrite Eo; cbn [recv_loop negb]; [by apply loop_stuck|by apply loop_ends].
Qed.

Lemma http_send_request_outcomes_witness : http_send_request 0 8 [104] [47] true true [] = Ub ∧
  (∃ b, http_send_request 0 4 [104] [47] true true (map (λ c, Ready c true) [[79]; [75]] ++ [Ready [] true]) = Ok (Returned b) ∧ c_string b = Ok [79; 75]) ∧
  http_send_request 0 4 [104] [47] true true [Ready [79] true; NotReady; Ready [75] true; Ready [] true] = Ok Waiting.
Proof.
  assert (Nat.lt (length (request_text CONNECTION_TYPE [104] [47])) MAX_BUFFER_SIZE) as Hr by (vm_compute; lia). split; [|split].
  - apply (proj1 (http_send_request_outcomes 0 8 [104] [47] Hr)). lia.
  - apply (proj1 (proj2 (http_send_request_outcomes 0 4 [104] [47] Hr) ltac:(lia) [[79]; [75]] ltac:(repeat constructor; done || (vm_compute; lia))) true []).
  - apply (proj1 (proj2 (proj2 (proj2 (http_send_request_outcomes 0 4 [104] [47] Hr) ltac:(lia) [[79]] ltac:(repeat constructor; done || (vm_compute; lia))))) [Ready [75] true; Ready [] true]). set_solver.
Defined.

End Sync.

(** ** async_http.c *)
Module Async.
Import Http.Async.






(** An answer that fills the buffer and holds no NUL. *)
Definition full_answer (r : report) : Prop := ∃ bytes, received r = Some bytes ∧ length bytes = BUFFER_SIZE ∧ 0 ∉ bytes.

#[local] Instance full_answer_dec r : Decision (full_answer r).
Proof. refine (match received r as o return received r = o → _ with Some bytes => λ E, cast_if (decide (length bytes = BUFFER_SIZE ∧ 0 ∉ bytes)) | None => λ E, right _ end eq_refl); [by exists bytes|by intros (b & Eb & ?); simplify_eq|by intros (b & Eb & ?); simplify_eq]. Defined.









Definition too_long (host resource : list Z) : Prop := (BUFFER_SIZE ≤ length (request_text ASYNC_CONNECTION_TYPE host resource))%nat.

#[local] Instance too_long_dec host resource : Decision (too_long host resource).
Proof. unfold too_long. apply _. Defined.

(** A host that is not found; or a connection for a request that leaves the buffer, or that is
    sent when there is no memory for [calloc]. *)
Definition unsafe_commit (host resource : list Z) (k : commit_answers) : Prop :=
  found k = false ∨ is_Some (connected k) ∧ (too_long host resource ∨ sent k = true ∧ mem_ k = None).

#[local] Instance unsafe_commit_dec host resource k : Decision (unsafe_commit host resource k).
Proof. unfold unsafe_commit. apply _. Defined.







(** The turns in which the code leaves its buffers, or uses a null pointer. *)
Definition hazardous (running : bool) (t : turn) : Prop :=
  match t with
  | Commit host resource k => unsafe_commit host resource k
  | Round (Events rs) => running = true ∧ Exists full_answer rs
  | Round _ => False
  end.

#[local] Instance hazardous_dec running t : Decision (hazardous running t).
Proof. destruct t as [host resource k|[rs| |]]; cbn; apply _. Defined.







(** A request for [/] of the host [h], which gets the answer [bytes]. *)
Definition one_request (bytes : list Z) : list turn :=
  [Commit [104] [47] (mk_answers true (Some 7) true (Some 1) true); Round (Events [mk_report 1 (Some bytes) true])].



(** The request is answered, and nothing is left. *)
Example one_request_run : match run (mk_state ∅ ∅ ∅ []) true [] (one_request [79; 75]) with
  | Ok (Returned (s, _, accepted)) => accepted = [[104]] ∧ (results s).*2 = [[79; 75]] ∧ map_to_list (args s) = [] ∧ map_to_list (epoll s) = []
  | _ => False
  end.
Proof. vm_compute. done. Qed.

(** A request that cannot be sent leaves its descriptor open; an answer that fills the buffer is read beyond it. *)
Example failed_send_leaks : match async_http_commit [104] [47] (mk_answers true (Some 7) false (Some 1) true) (mk_state ∅ ∅ ∅ []) with Ok (Returned (s, ret)) => ret = -1 ∧ 7 ∈ fds s | _ => False end.
Proof. vm_compute. split; [done|]. by apply (bool_decide_unpack _). Qed.

Example full_answer_undefined : (s ← (r ← async_http_commit [104] [47] (mk_answers true (Some 7) true (Some 1) true) (mk_state ∅ ∅ ∅ []); match r with Returned (s, _) => Ok s | _ => Ub end); handle s (mk_report 1 (Some (replicate 1024 65)) true)) = Ub.
Proof. vm_compute. done. Qed.
End Async.
